(* ===== verification/_CoqProject ===== *)
-Q . S2P
Prelude.v
Octets.v
RustStr.v
NetAddr.v
Errors.v
Channels.v
QRanges.v
QBuffers.v
QCodec.v
QPacket.v
QProtect.v
QKeys.v
QFrame.v
QRecv.v
QSend.v
QExchange.v
Masque.v
H2Tunnel.v
Quic.v
QuicVerify.v
Dns.v
Sniff.v
Routing.v
Tuic.v
TuicSession.v
Fragment.v
Stream.v
Upstream.v
Detour.v
Socks.v
Netstack.v
StackRun.v
WireGuard.v
Prober.v
Noize.v
ApiFront.v
WebLib.v
ZeroTrust.v
Account.v
Store.v
Provision.v
Settings.v
WgEngine.v
MasqueEngine.v
WgVerify.v
Startup.v
TlsSetup.v
ScanEngine.v
EncryptedDns.v
SocksRelay.v
Api.v
Ffi.v
