(* ===== verification/Prelude.v ===== *)
(** * A verification development for the SoildTunnel engine

    SoildTunnel is an Android VPN client.  Its engine, the Rust crate under
    src/native/engine/soildtunnel, opens a tunnel to an edge (IP packets in
    MASQUE capsules over HTTP/2 or HTTP/3, WireGuard, or a TUIC relay), runs a
    user-space network stack over it, and serves SOCKS5 and HTTP proxies to the
    device, routing each connection by rules.  This development models the
    engine's own logic as executable definitions and proves what makes it
    correct, and with it the core of the QUIC transport that the repository
    carries in src/native/engine/quiche; the other libraries the engine calls
    are parameters.  File names below are those of
    src/native/engine/soildtunnel/src, and in the group on QUIC those of
    src/native/engine/quiche/quiche/src.

    ** How the parts fit together

    A start (run_with of lib.rs, or the library interface api.rs behind the C
    interface ffi.rs) reads its settings (cli.rs, the environment), signs in to
    an organization where there is one (zerotrust.rs), and loads or registers
    an identity (config.rs, account.rs over apifront.rs).  A program of lib.rs
    then keeps a tunnel up: it scans for a gateway (prober.rs, wg_prober.rs),
    each candidate verified by the transport that will use it or by a request
    through a whole tunnel (tunnelping.rs), remembers what worked
    (lastconn.rs), opens the tunnel, serves it, and starts over when it ends.

    An application connects to the proxy server (socks.rs), which reads its
    request, decides a route (routing.rs, with a name sniffed off the first
    bytes by sniff.rs) and opens a connection in the network stack (netstack.rs)
    or through the TUIC relay (outbound.rs).  The stack's packets go to the
    tunnel task: quic.rs or masque_h2.rs, which frame them with masque.rs, the
    latter over a TLS stream that fragment.rs may cut up, or wireguard.rs, with
    the junk traffic of noize.rs and soildnoize.rs around it.  Names are
    resolved by encrypted DNS (encrypted_dns.rs) or a resolver inside the
    tunnel (socks.rs) and, before there is a tunnel, by dns.rs.  Outgoing
    connections may pass another proxy (upstream.rs).

    The tasks share bounded channels.  Their select loops are step functions on
    a state record, an event at a time, so that every interleaving is a list of
    events; an outer loop that reconnects is a step per turn, with what the
    turn meets as its argument.

    ** Files

    Foundations:
    - Prelude: outcomes of a Rust computation ([Ok], [Err], [Panic],
      [OutOfFuel]), machine integers and the width of [usize] (class [Target]),
      slices and indexing, big-endian integers, hint databases.
    - Octets: the cursor of the vendored octets crate, as far as it is used.
    - RustStr, NetAddr: what is used of [str], [String], [char] and
      [std::net]: trimming, splitting, number parsing and printing, UTF-8,
      addresses and their text.  Unicode tables are the class [UnicodeTables].
    - Errors, Channels, Stream: the error type (error.rs); bounded channels; a
      connection as what was read and written, with the monad of the handshakes.
    - WebLib: serde_json, base64, http and toml, as classes with their laws.

    Transports:
    - Masque (masque.rs): datagrams, capsules, the incremental parser
      [CapsuleParser], address lists, the probe packet.
    - H2Tunnel (masque_h2.rs): [verify_h2], and [run] as [run_start] and [turn].
    - Quic, QuicVerify (quic.rs): [run] as [q_turn]; verify_masque as [v_loop].
    - WireGuard, WgVerify (wireguard.rs, establish_wg of lib.rs): the four tasks
      of a tunnel as one step function; the verification of an endpoint and the
      tunnel that takes its session over.  boringtun is the class [Tunn].
    - Tuic, TuicSession (outbound.rs, run_tuic of lib.rs): packets, fragments,
      relay slots and pumps; the session from its handshake to its end.
    - Fragment (fragment.rs), Noize (noize.rs in Module ForQuic, soildnoize.rs
      in Module ForWg).
    - TlsSetup (tls.rs, the TLS halves of masque_h2.rs and outbound.rs): whom
      the engine connects to.  boring and quiche are the class [Boring].

    QUIC (quiche, below the HTTP/3 tunnel and the TUIC relay):
    - QRanges (ranges.rs), QBuffers (range_buf.rs, flowcontrol.rs, dgram.rs),
      QRecv and QSend (stream/recv_buf.rs, stream/send_buf.rs): the halves of a
      stream.
    - QCodec: readers and writers over the cursor of Octets, with the relations
      [parses], [writes] and [consumes] their proofs are made of.
    - QPacket, QProtect, QKeys (packet.rs, crypto/mod.rs, crypto/boringssl.rs):
      headers, packet numbers, packet number spaces, packet protection, key
      derivation, Retry tags and key updates.  BoringSSL is the classes
      [BoringSSL] and [Hkdf], with [Ciphers] and [HkdfSound] for their laws.
    - QFrame (frame.rs), QExchange (send_single and recv_single of lib.rs): the
      frames, and the way of a packet from its frames to the peer's.

    The device's side:
    - Netstack, StackRun (netstack.rs): tables, commands, data with deferral,
      service passes; the task loop, the handles of the application and the
      bridge for assigned addresses.  smoltcp is the classes [Smoltcp] and
      [SmoltcpLaws], down to the addresses its interface refuses with a panic.
    - Socks, SocksRelay (socks.rs): handshakes, CONNECT, the UDP association,
      the HTTP proxy; backends, the accept loop and the relay.
    - Dns, EncryptedDns (dns.rs, encrypted_dns.rs, the resolver of socks.rs).
    - Sniff (sniff.rs), Routing (routing.rs; class [RouteLib] for the ipnet and
      regex crates).
    - Upstream, Detour (upstream.rs, with the UDP forwarder of lib.rs): the
      proxy client; the detour of UDP sockets through a proxy's relay.

    Identities and settings:
    - Account (account.rs; class [AccountLib]), ApiFront (apifront.rs),
      ZeroTrust (zerotrust.rs), Store (config.rs, lastconn.rs: the file system
      is a map from paths to files), Provision (the identity flows of lib.rs),
      Settings (cli.rs, sysprofile.rs and the readers and prompts of lib.rs).

    Programs:
    - Prober, ScanEngine (prober.rs, wg_prober.rs, tunnelping.rs): candidates
      and scan loops; the checks they run, composed from the transports.
    - WgEngine (run_wireguard, run_gool; the reach of [Instant] is the class
      [Clock]), MasqueEngine (run_masque), Startup
      (run_with), Api (api.rs), Ffi (ffi.rs: registries of handles; each call
      and each end of a task is a step).

    ** What is proved

    - Data arrives as it was sent: capsules read in any pieces below the
      parser's limit, packets of a tunnel in order, TUIC payloads from fragments
      in any order, uploads through the network stack and both directions of a
      proxied connection between the client's socket and the stack's channel
      (downloads inside the stack can lose their end, [backpressured_tail_lost]),
      names, addresses and rules printed and read again, the host name in a
      ClientHello, the records of a DNS message.  Below them a QUIC stream is a
      reliable pipe under loss, repetition and reordering of its frames and any
      schedule of its flow control, a packet that is made is opened by the peer
      with the frames it was made of, and both ends follow key updates.
    - Nothing is used that was not verified: servers of all transports are
      authenticated (TlsSetup), a gateway a scan settles on passed its check,
      and the check shows what it should (ScanEngine, QuicVerify, WgVerify),
      an exposed tunnel was verified, a gateway is not used again after a
      tunnel over it ended for its exit country, nor a failed WireGuard
      endpoint before its cooldown is over, replies to DNS queries match
      exactly.  What a check shows is conditional on the data check where the
      settings can switch that off.
    - QUIC's data structures: a set of ranges refines a set of numbers, no byte
      of a stream is forgotten, no packet is processed twice and only processed
      packets are acknowledged.
    - Engines and loops: invariants by induction on executions (readiness,
      cooldowns, tables of connections and handles, sessions, tokens of a
      sign-in), termination of scans and of verifications, and that the reply
      of a job is kept until it is asked for.  An HTTP/2 tunnel that stalls ends
      at its next turn ([stalled_tunnel_ends]), but an idle one may have no next
      turn ([idle_stall_unnoticed]).
    - Decisions: routing rules against a reference on labels, the UDP
      association against its specification, the SOCKS5 client against the
      server, which program a start runs, which identity it runs with, what is
      written to disk when a system call fails.
    - Parsers and loops return on every input from the network, without panic,
      except where a theorem shows that they do not: an assigned address that is
      not unicast ends the stack's task ([stack_loop_sound],
      [multicast_assignment_panics]), a long rejection that is not ASCII or a
      chunk of an absurd size a call to the service, a fragment that contradicts
      an earlier one the TUIC session, a cooldown that the clock cannot hold a
      WireGuard program.  Theorems of that kind, on the same definitions, record
      where the code falls short.

    ** Bounds and conventions

    Loops that are not structural take fuel that the theorems show to be
    enough: the length of the buffer for capsule payloads, for draining the
    parser, for names, records and parameters of a DNS message, for TLS
    extensions, and for UTF-8; a number's size for its decimal digits; for QUIC
    the length of a payload for its frames and of a buffer for its pieces.
    A packet has at most 16383 bytes, which its two-byte length field holds
    (the engine sends 1350 at most), and [no_packet_twice] is for 2^30 packets,
    the numbers of which cannot reach the end of 64 bits.  Loops
    that wait for events run over the list of events and return [None], or
    their state, when it ends; the theorems that say such a loop produces a
    result do so for lists that hold what the result needs.

    Integers are numbers with their reduction written out where the source
    converts or may overflow; arithmetic wraps around as in the release build.
    Random draws, the clock, the order of a [HashMap], the answers of a library
    and the failures of system calls are arguments, so a theorem holds for all
    of them.

    ** Not modelled

    Sockets and their options, the scheduler, and the inside of the libraries
    (boring, boringtun, smoltcp, reqwest, toml, rcgen).  Of quiche the
    processing of frames and the timers of a connection, paths, connection
    identifiers, TLS, loss recovery and congestion control, HTTP/3, QPACK and
    the logs.  The models of the engine (Quic, QuicVerify) take the connection
    as the events its interface reports.  The generation of keys and
    certificates is a parameter, as is the size of the device's memory.  The
    text of log messages, setters that only fill in a field, the set-up of a TLS
    fingerprint, the copying between the two sockets of a direct connection and
    select_peer, which nothing calls, are left out.  The Android application
    (Kotlin) starts the engine through the C interface and is not part of it. *)

From Stdlib Require Import ZArith Lia ZifyBool List String Ascii.
From stdpp Require Import base list numbers option decidable.

Declare Scope rust_scope.
Delimit Scope rust_scope with rust.
Open Scope rust_scope.
Open Scope Z_scope.

(** ** Outcomes of a Rust computation

    [Ok] and [Err] are the two constructors of [Result] ([Option] is the case
    [E = unit]); [Panic] is a Rust panic (an index out of range, an [unwrap]
    of nothing); [OutOfFuel] says that the bound given to a loop of the model
    ran out, which no Rust execution corresponds to. *)
Inductive outcome (E A : Type) : Type :=
| Ok (a : A)
| Err (e : E)
| Panic
| OutOfFuel.
Arguments Ok {E A} a.
Arguments Err {E A} e.
Arguments Panic {E A}.
Arguments OutOfFuel {E A}.

Definition obind {E A B : Type} (m : outcome E A) (k : A -> outcome E B) : outcome E B :=
  match m with
  | Ok a => k a
  | Err e => Err e
  | Panic => Panic
  | OutOfFuel => OutOfFuel
  end.

(** [map_err] and [ok_or]: the conversions the source applies before [?]. *)
Definition map_err {E F A : Type} (f : E -> F) (m : outcome E A) : outcome F A :=
  match m with
  | Ok a => Ok a
  | Err e => Err (f e)
  | Panic => Panic
  | OutOfFuel => OutOfFuel
  end.

Definition ok_or {E A : Type} (o : option A) (e : E) : outcome E A :=
  match o with Some a => Ok a | None => Err e end.

Definition opt_bind {A B : Type} (o : option A) (k : A -> option B) : option B :=
  match o with Some a => k a | None => None end.

Notation "'let!' x := m 'in' k" := (obind m (fun x => k))
  (at level 10, x name, m at level 100, k at level 200) : rust_scope.
Notation "'let!' ' p := m 'in' k" := (obind m (fun x => match x with p => k end))
  (at level 10, p strict pattern, m at level 100, k at level 200) : rust_scope.
Notation "'let?' x := m 'in' k" := (opt_bind m (fun x => k))
  (at level 10, x name, m at level 100, k at level 200) : rust_scope.
Notation "'let?' ' p := m 'in' k" := (opt_bind m (fun x => match x with p => k end))
  (at level 10, p strict pattern, m at level 100, k at level 200) : rust_scope.

(** A computation that neither panics nor runs out of fuel: it returns to its
    caller, with a value or with an error. *)
Definition returns {E A : Type} (m : outcome E A) : Prop :=
  match m with Ok _ | Err _ => True | Panic | OutOfFuel => False end.

Lemma returns_bind {E A B : Type} (m : outcome E A) (k : A -> outcome E B) :
  returns m -> (forall a, m = Ok a -> returns (k a)) -> returns (obind m k).
Proof. destruct m; simpl; auto. Qed.

Lemma returns_ok_or {E A : Type} (o : option A) (e : E) : returns (ok_or o e).
Proof. by destruct o. Qed.

Lemma returns_map_err {E F A : Type} (f : E -> F) (m : outcome E A) :
  returns m -> returns (map_err f m).
Proof. by destruct m. Qed.

Lemma obind_Ok {E A B : Type} (m : outcome E A) (k : A -> outcome E B) b :
  obind m k = Ok b <-> exists a, m = Ok a /\ k a = Ok b.
Proof. destruct m; simpl; naive_solver. Qed.

Lemma opt_bind_Some {A B : Type} (o : option A) (k : A -> option B) b :
  opt_bind o k = Some b <-> exists a, o = Some a /\ k a = Some b.
Proof. destruct o; simpl; naive_solver. Qed.

(** ** Bytes, slices and machine integers

    A [u8] is a [Z] between 0 and 255, a [&[u8]] or [Vec<u8>] a list of them,
    a [usize] a [Z]; conversions with [as] are written as reductions modulo
    the width. *)
Abbreviation bytes := (list Z).

Definition is_u8 (b : Z) : Prop := 0 <= b < 256.
Definition bytes_ok (l : bytes) : Prop := Forall is_u8 l.

Definition as_u8 (v : Z) : Z := v mod 2 ^ 8.
Definition as_u16 (v : Z) : Z := v mod 2 ^ 16.
Definition as_u32 (v : Z) : Z := v mod 2 ^ 32.
Definition as_u64 (v : Z) : Z := v mod 2 ^ 64.

(** The width of [usize] on the compilation target: the engine is built for
    64-bit and for 32-bit Android ABIs. *)
Class Target : Type := {
  usize_bits : Z;
  usize_bits_cases : usize_bits = 32 \/ usize_bits = 64
}.
Definition usize_max `{Target} : Z := 2 ^ usize_bits - 1.
Definition as_usize `{Target} (v : Z) : Z := v mod 2 ^ usize_bits.
Definition checked_add `{Target} (a b : Z) : option Z :=
  if a + b <=? usize_max then Some (a + b) else None.

#[refine] Definition target64 : Target := {| usize_bits := 64 |}.
Proof. by right. Defined.
#[refine] Definition target32 : Target := {| usize_bits := 32 |}.
Proof. by left. Defined.

Definition is_empty {A : Type} (l : list A) : bool := match l with [] => true | _ => false end.
Definition zlen {A : Type} (l : list A) : Z := Z.of_nat (length l).
Definition zget {A : Type} (l : list A) (i : Z) : option A :=
  if i <? 0 then None else l !! Z.to_nat i.
Definition ztake {A : Type} (n : Z) (l : list A) : list A := take (Z.to_nat n) l.
Definition zdrop {A : Type} (n : Z) (l : list A) : list A := drop (Z.to_nat n) l.

(** [l.get(a..b)]. *)
Definition get_range {A : Type} (l : list A) (a b : Z) : option (list A) :=
  if (0 <=? a) && (a <=? b) && (b <=? zlen l) then Some (zdrop a (ztake b l)) else None.

(** [l[i]] and [l[a..b]], which panic out of range. *)
Definition idx {E A : Type} (l : list A) (i : Z) : outcome E A :=
  match zget l i with Some x => Ok x | None => Panic end.
Definition idx_range {E A : Type} (l : list A) (a b : Z) : outcome E (list A) :=
  match get_range l a b with Some x => Ok x | None => Panic end.

(** [to_be_bytes] of an [n]-byte integer, and [from_be_bytes]. *)
Fixpoint to_be (n : nat) (v : Z) : bytes :=
  match n with
  | O => []
  | S n => (v / 256 ^ Z.of_nat n) mod 256 :: to_be n v
  end.
Definition of_be (l : bytes) : Z := fold_left (fun acc b => acc * 256 + b) l 0.

(** A byte string literal. *)
Fixpoint str (s : string) : bytes :=
  match s with
  | EmptyString => []
  | String c s => Z.of_N (N_of_ascii c) :: str s
  end.
Arguments str s%_string_scope : simpl never.

(** ** Tactics of the development *)

(** Splits on every boolean condition and [match] scrutinee in sight. *)
Ltac split_match :=
  match goal with
  | |- context [match ?x with _ => _ end] => destruct x eqn:?
  | H : context [match ?x with _ => _ end] |- _ => destruct x eqn:?
  end.
Ltac split_matches := repeat (split_match; simplify_eq/=).

(** Peels the binds off a successful computation. *)
Ltac inv_bind :=
  repeat match goal with
  | H : obind _ _ = Ok _ |- _ =>
      let a := fresh "a" in let E := fresh "E" in
      apply obind_Ok in H as (a & E & H)
  | H : opt_bind _ _ = Some _ |- _ =>
      let a := fresh "a" in let E := fresh "E" in
      apply opt_bind_Some in H as (a & E & H)
  end.

(** ** Lemmas on slices *)

Create HintDb slices.

Lemma zlen_nonneg {A} (l : list A) : 0 <= zlen l.
Proof. unfold zlen; lia. Qed.

Lemma zlen_nil {A} : zlen (@nil A) = 0.
Proof. done. Qed.

Lemma zlen_cons {A} (x : A) l : zlen (x :: l) = 1 + zlen l.
Proof. unfold zlen; simpl; lia. Qed.

Lemma zlen_app {A} (l k : list A) : zlen (l ++ k) = zlen l + zlen k.
Proof. unfold zlen; rewrite length_app; lia. Qed.

Lemma zlen_map {A B} (f : A -> B) l : zlen (map f l) = zlen l.
Proof. unfold zlen; by rewrite length_map. Qed.

Lemma zlen_to_be n v : zlen (to_be n v) = Z.of_nat n.
Proof. unfold zlen; induction n; simpl; lia. Qed.

Lemma zlen_ztake {A} n (l : list A) : zlen (ztake n l) = Z.min (Z.max 0 n) (zlen l).
Proof. unfold zlen, ztake; rewrite length_take; lia. Qed.

Lemma zlen_zdrop {A} n (l : list A) : zlen (zdrop n l) = Z.max 0 (zlen l - Z.max 0 n).
Proof. unfold zlen, zdrop; rewrite length_drop; lia. Qed.

Lemma zlen_replicate {A} n (x : A) : zlen (replicate n x) = Z.of_nat n.
Proof. unfold zlen; by rewrite length_replicate. Qed.

#[export] Hint Rewrite @zlen_nil @zlen_cons @zlen_app @zlen_map @zlen_to_be @zlen_ztake
  @zlen_zdrop @zlen_replicate : slices.

Lemma zget_cons_0 {A} (x : A) l : zget (x :: l) 0 = Some x.
Proof. done. Qed.

Lemma zget_cons_pos {A} (x : A) l i : 0 < i -> zget (x :: l) i = zget l (i - 1).
Proof.
  intros Hi. unfold zget.
  destruct (i <? 0) eqn:?, (i - 1 <? 0) eqn:?; try lia.
  replace (Z.to_nat i) with (S (Z.to_nat (i - 1))) by lia. done.
Qed.

Lemma zget_Some_lt {A} (l : list A) i x : zget l i = Some x -> 0 <= i < zlen l.
Proof.
  unfold zget, zlen. destruct (i <? 0) eqn:?; [done|]. intros ?%lookup_lt_Some. lia.
Qed.

Lemma zget_lt_Some {A} (l : list A) i : 0 <= i < zlen l -> exists x, zget l i = Some x.
Proof.
  unfold zget, zlen. intros Hi. destruct (i <? 0) eqn:?; [lia|].
  apply lookup_lt_is_Some. lia.
Qed.

Lemma zget_None {A} (l : list A) i : zget l i = None <-> i < 0 \/ zlen l <= i.
Proof.
  unfold zget, zlen. destruct (i <? 0) eqn:?; [split; [lia|done]|].
  rewrite lookup_ge_None. lia.
Qed.

Lemma zget_app_l {A} (l k : list A) i : i < zlen l -> zget (l ++ k) i = zget l i.
Proof.
  unfold zget, zlen. intros. destruct (i <? 0) eqn:?; [done|].
  apply lookup_app_l. lia.
Qed.

Lemma zget_app_r {A} (l k : list A) i : zlen l <= i -> zget (l ++ k) i = zget k (i - zlen l).
Proof.
  unfold zget, zlen. intros.
  destruct (i <? 0) eqn:?, (i - Z.of_nat (length l) <? 0) eqn:?; try lia.
  rewrite lookup_app_r by lia. f_equal. lia.
Qed.

Lemma zget_ok (l : bytes) i b : bytes_ok l -> zget l i = Some b -> is_u8 b.
Proof.
  unfold bytes_ok, zget. rewrite Forall_lookup. intros H. destruct (i <? 0); [done|]. apply H.
Qed.

Lemma idx_returns {E A} (l : list A) i : 0 <= i < zlen l -> returns (@idx E A l i).
Proof. intros H. unfold idx. by destruct (zget_lt_Some l i H) as [x ->]. Qed.

Lemma get_range_Some {A} (l : list A) a b s :
  get_range l a b = Some s <-> 0 <= a <= b /\ b <= zlen l /\ s = zdrop a (ztake b l).
Proof.
  unfold get_range. destruct (_ && _) eqn:?; split.
  - intros [= <-]. split_and!; by try lia.
  - by intros (? & ? & ->).
  - done.
  - intros (? & ? & ?). lia.
Qed.

Lemma get_range_None {A} (l : list A) a b :
  get_range l a b = None <-> ~ (0 <= a <= b /\ b <= zlen l).
Proof.
  unfold get_range. destruct (_ && _) eqn:?; split; intros; try done; lia.
Qed.

Lemma zlen_get_range {A} (l : list A) a b s : get_range l a b = Some s -> zlen s = b - a.
Proof.
  intros (? & ? & ->)%get_range_Some. autorewrite with slices. lia.
Qed.

Lemma idx_range_returns {E A} (l : list A) a b :
  0 <= a <= b -> b <= zlen l -> returns (@idx_range E A l a b).
Proof.
  intros. unfold idx_range. destruct (get_range l a b) eqn:Hr; [done|].
  apply get_range_None in Hr. naive_solver.
Qed.

(** The middle of a concatenation: how every round trip reads a field back. *)
Lemma get_range_mid {A} (p m q : list A) a b :
  a = zlen p -> b = zlen p + zlen m -> get_range (p ++ m ++ q) a b = Some m.
Proof.
  intros -> ->. apply get_range_Some. pose proof (zlen_nonneg p). pose proof (zlen_nonneg m).
  pose proof (zlen_nonneg q).
  split_and!; [lia|lia|autorewrite with slices; lia|].
  unfold zdrop, ztake, zlen. rewrite app_assoc.
  replace (Z.to_nat (Z.of_nat (length p) + Z.of_nat (length m))) with (length (p ++ m))
    by (rewrite length_app; lia).
  rewrite take_app_length, Nat2Z.id, drop_app_length. done.
Qed.

Lemma get_range_suffix {A} (p m : list A) a b :
  a = zlen p -> b = zlen p + zlen m -> get_range (p ++ m) a b = Some m.
Proof. intros. rewrite <- (app_nil_r m) at 1. by apply get_range_mid. Qed.

Lemma ztake_app_length {A} (l k : list A) n : n = zlen l -> ztake n (l ++ k) = l.
Proof. intros ->. unfold ztake, zlen. rewrite Nat2Z.id. apply take_app_length. Qed.

Lemma zdrop_app_length {A} (l k : list A) n : n = zlen l -> zdrop n (l ++ k) = k.
Proof. intros ->. unfold zdrop, zlen. rewrite Nat2Z.id. apply drop_app_length. Qed.

Lemma zdrop_nonpos {A} (l : list A) n : n <= 0 -> zdrop n l = l.
Proof. intros. unfold zdrop. replace (Z.to_nat n) with 0%nat by lia. done. Qed.

Lemma ztake_all {A} (l : list A) n : zlen l <= n -> ztake n l = l.
Proof. unfold ztake, zlen. intros. apply take_ge. lia. Qed.

Lemma zdrop_all {A} (l : list A) n : zlen l <= n -> zdrop n l = [].
Proof. unfold zdrop, zlen. intros. apply drop_ge. lia. Qed.

Lemma ztake_zdrop {A} (l : list A) n : ztake n l ++ zdrop n l = l.
Proof. apply take_drop. Qed.

Lemma bytes_ok_cons b l : bytes_ok (b :: l) <-> is_u8 b /\ bytes_ok l.
Proof. apply Forall_cons_iff. Qed.

Lemma bytes_ok_app l k : bytes_ok (l ++ k) <-> bytes_ok l /\ bytes_ok k.
Proof. apply Forall_app. Qed.

Lemma bytes_ok_ztake n l : bytes_ok l -> bytes_ok (ztake n l).
Proof. apply Forall_take. Qed.

Lemma bytes_ok_zdrop n l : bytes_ok l -> bytes_ok (zdrop n l).
Proof. apply Forall_drop. Qed.

Lemma bytes_ok_to_be n v : bytes_ok (to_be n v).
Proof.
  induction n; simpl; constructor; [|done]. apply Z.mod_pos_bound. lia.
Qed.

Lemma bytes_ok_str s : bytes_ok (str s).
Proof.
  induction s as [|c s IH]; simpl; constructor; [|done].
  unfold is_u8. pose proof (N_ascii_bounded c). lia.
Qed.

#[export] Hint Resolve bytes_ok_ztake bytes_ok_zdrop bytes_ok_to_be bytes_ok_str : slices.

(** ** Big-endian integers *)

Lemma of_be_snoc l b : of_be (l ++ [b]) = of_be l * 256 + b.
Proof. unfold of_be. by rewrite fold_left_app. Qed.

Lemma fold_be_shift l acc :
  fold_left (fun acc b => acc * 256 + b) l acc = acc * 256 ^ zlen l + of_be l.
Proof.
  unfold of_be. revert acc. induction l as [|b l IH]; intros acc; simpl.
  - rewrite zlen_nil. lia.
  - rewrite IH, (IH (0 * 256 + b)), zlen_cons, Z.pow_add_r by (pose proof (zlen_nonneg l); lia).
    lia.
Qed.

Lemma of_be_cons b l : of_be (b :: l) = b * 256 ^ zlen l + of_be l.
Proof. unfold of_be at 1. simpl. rewrite fold_be_shift. lia. Qed.

Lemma of_be_to_be n v : of_be (to_be n v) = v mod 256 ^ Z.of_nat n.
Proof.
  induction n as [|n IH].
  - simpl. by rewrite Z.mod_1_r.
  - cbn [to_be]. rewrite of_be_cons, IH, zlen_to_be.
    replace (Z.of_nat (S n)) with (1 + Z.of_nat n) by lia.
    rewrite Z.pow_add_r by lia. change (256 ^ 1) with 256.
    rewrite (Z.mul_comm 256), Z.rem_mul_r by lia. lia.
Qed.

Lemma of_be_to_be_small n v : 0 <= v < 256 ^ Z.of_nat n -> of_be (to_be n v) = v.
Proof. intros. rewrite of_be_to_be. by apply Z.mod_small. Qed.

Lemma of_be_bound l : bytes_ok l -> 0 <= of_be l < 256 ^ zlen l.
Proof.
  induction l as [|b l IH]; intros H; [by vm_compute|].
  apply bytes_ok_cons in H as [Hb Hl]. specialize (IH Hl).
  rewrite of_be_cons, zlen_cons, Z.pow_add_r by (pose proof (zlen_nonneg l); lia).
  unfold is_u8 in Hb. nia.
Qed.

Lemma to_be_of_be l : bytes_ok l -> to_be (length l) (of_be l) = l.
Proof.
  enough (forall k, bytes_ok l -> to_be (length l) (k * 256 ^ zlen l + of_be l) = l) as H.
  { intros Hl. specialize (H 0 Hl). by rewrite Z.mul_0_l, Z.add_0_l in H. }
  induction l as [|b l IH]; intros k H; [done|].
  apply bytes_ok_cons in H as [Hb Hl]. pose proof (of_be_bound l Hl) as Hbd.
  cbn [length to_be]. rewrite of_be_cons, zlen_cons, Z.pow_add_r by (pose proof (zlen_nonneg l); lia).
  fold (zlen l). change (256 ^ 1) with 256.
  replace (k * (256 * 256 ^ zlen l) + (b * 256 ^ zlen l + of_be l))
    with ((k * 256 + b) * 256 ^ zlen l + of_be l) by lia.
  f_equal; [|apply IH; done].
  rewrite Z.div_add_l, Z.div_small, Z.add_0_r by lia.
  rewrite Z.add_comm, Z.mod_add by lia. by apply Z.mod_small.
Qed.

(** A shifted high part and a low part that fits below it. *)
Lemma lor_shiftl n hi lo : 0 <= n -> 0 <= lo < 2 ^ n -> Z.lor (Z.shiftl hi n) lo = hi * 2 ^ n + lo.
Proof.
  intros Hn Hlo. assert (Z.land (Z.shiftl hi n) lo = 0) as Hz.
  { apply Z.bits_inj'. intros i Hi. rewrite Z.land_spec, Z.shiftl_spec, Z.bits_0 by lia.
    destruct (Z.ltb_spec i n); [by rewrite (Z.testbit_neg_r hi) by lia|].
    rewrite (Z.testbit_eqb lo) by lia. rewrite Z.div_small; [apply andb_false_r|].
    assert (2 ^ n <= 2 ^ i) by (apply Z.pow_le_mono_r; lia). lia. }
  pose proof (Z.add_lor_land (Z.shiftl hi n) lo). rewrite Z.shiftl_mul_pow2 in * by lia. lia.
Qed.

(** A loop over encoded items is bounded by the length of the encoding. *)
Lemma length_concat_map {A B} (f : A -> list B) l :
  (forall x, (1 <= length (f x))%nat) -> (length l <= length (concat (map f l)))%nat.
Proof.
  intros Hf. induction l as [|x l IH]; simpl; [lia|]. rewrite length_app. specialize (Hf x). lia.
Qed.
