(* ===== verification/Octets.v ===== *)
(** * The byte cursor and the QUIC variable-length integer

    Models the part of the crate [octets] (quiche/octets/src/lib.rs) that the
    engine's capsule and datagram code calls: the read cursor [Octets], the
    write cursor [OctetsMut] and the variable-length integer of RFC 9000.
    A cursor is a buffer with an offset; every operation threads it, and the
    only error is [BufferTooShort].  [enc_varint] is the reference encoding the
    two cursors are proved to write and to read. *)

From S2P Require Import Prelude.
From Stdlib Require Import ZArith Lia ZifyBool String List.
From stdpp Require Import base list numbers option decidable.
Open Scope Z_scope.

Inductive short : Type := BufferTooShort.

Definition MAX_VAR_INT : Z := 4611686018427387903.

(** ** Reading *)
Record Octets : Type := mkOctets { o_buf : bytes; o_off : Z }.

Definition with_slice (b : bytes) : Octets := mkOctets b 0.
Definition o_cap (o : Octets) : Z := zlen (o_buf o) - o_off o.
Definition o_advance (o : Octets) (n : Z) : Octets := mkOctets (o_buf o) (o_off o + n).

(** [peek_u!] and [get_u!] for an [n]-byte integer. *)
Definition peek_u (n : nat) (o : Octets) : outcome short Z :=
  let! src := idx_range (o_buf o) (o_off o) (zlen (o_buf o)) in
  if zlen src <? Z.of_nat n then Err BufferTooShort
  else Ok (of_be (ztake (Z.of_nat n) src)).
Definition get_u (n : nat) (o : Octets) : outcome short (Z * Octets) :=
  let! v := peek_u n o in Ok (v, o_advance o (Z.of_nat n)).
Definition get_u8 : Octets -> outcome short (Z * Octets) := get_u 1.

(** [None] stands for the [unreachable!()] arm. *)
Definition varint_parse_len (first : Z) : option Z :=
  match Z.shiftr first 6 with
  | 0 => Some 1
  | 1 => Some 2
  | 2 => Some 4
  | 3 => Some 8
  | _ => None
  end.

Definition get_varint (o : Octets) : outcome short (Z * Octets) :=
  let! first := peek_u 1 o in
  match varint_parse_len first with
  | None => Panic
  | Some len =>
      if o_cap o <? len then Err BufferTooShort
      else match len with
           | 1 => get_u 1 o
           | 2 => let! '(v, o) := get_u 2 o in Ok (Z.land v 0x3fff, o)
           | 4 => let! '(v, o) := get_u 4 o in Ok (Z.land v 0x3fffffff, o)
           | 8 => let! '(v, o) := get_u 8 o in Ok (Z.land v 0x3fffffffffffffff, o)
           | _ => Panic
           end
  end.

(** [get_bytes(len)] followed by [to_vec()] on the view it returns. *)
Definition get_bytes (len : Z) (o : Octets) : outcome short (bytes * Octets) :=
  if o_cap o <? len then Err BufferTooShort
  else let! out := idx_range (o_buf o) (o_off o) (o_off o + len) in
       Ok (out, o_advance o len).

(** ** Writing *)
Record OctetsMut : Type := mkOctetsMut { m_buf : bytes; m_off : Z }.

Definition with_slice_mut (b : bytes) : OctetsMut := mkOctetsMut b 0.
Definition m_cap (m : OctetsMut) : Z := zlen (m_buf m) - m_off m.

(** Overwrites the bytes of [b] from [at_] on with [v]. *)
Definition splice (b : bytes) (at_ : Z) (v : bytes) : bytes :=
  ztake at_ b ++ v ++ zdrop (at_ + zlen v) b.

Definition put_u (n : nat) (v : Z) (m : OctetsMut) : outcome short OctetsMut :=
  if zlen (m_buf m) <? m_off m + Z.of_nat n then Err BufferTooShort
  else Ok (mkOctetsMut (splice (m_buf m) (m_off m) (to_be n v)) (m_off m + Z.of_nat n)).

(** [dst[0] |= mask], where [dst] starts at [at_]. *)
Definition or_byte (at_ mask : Z) (m : OctetsMut) : OctetsMut :=
  match zget (m_buf m) at_ with
  | Some b => mkOctetsMut (splice (m_buf m) at_ [Z.lor b mask]) (m_off m)
  | None => m
  end.

(** [None] stands for the [unreachable!()] arm. *)
Definition varint_len (v : Z) : option Z :=
  if v <=? 63 then Some 1
  else if v <=? 16383 then Some 2
  else if v <=? 1073741823 then Some 4
  else if v <=? MAX_VAR_INT then Some 8
  else None.

Definition put_varint_with_len (v len : Z) (m : OctetsMut) : outcome short OctetsMut :=
  if m_cap m <? len then Err BufferTooShort
  else match len with
       | 1 => put_u 1 v m
       | 2 => let! m' := put_u 2 v m in Ok (or_byte (m_off m) 0x40 m')
       | 4 => let! m' := put_u 4 v m in Ok (or_byte (m_off m) 0x80 m')
       | 8 => let! m' := put_u 8 v m in Ok (or_byte (m_off m) 0xc0 m')
       | _ => Panic
       end.

Definition put_varint (v : Z) (m : OctetsMut) : outcome short OctetsMut :=
  match varint_len v with
  | Some len => put_varint_with_len v len m
  | None => Panic
  end.

Definition put_u8 (v : Z) (m : OctetsMut) : outcome short OctetsMut := put_u 1 v m.

Definition put_bytes (v : bytes) (m : OctetsMut) : outcome short OctetsMut :=
  if m_cap m <? zlen v then Err BufferTooShort
  else if zlen v =? 0 then Ok m
  else Ok (mkOctetsMut (splice (m_buf m) (m_off m) v) (m_off m + zlen v)).

(** ** The reference encoding *)
Definition enc_varint (v : Z) : bytes :=
  if v <=? 63 then to_be 1 v
  else if v <=? 16383 then to_be 2 (0x4000 + v)
  else if v <=? 1073741823 then to_be 4 (0x80000000 + v)
  else to_be 8 (0xc000000000000000 + v).

Definition is_varint (v : Z) : Prop := 0 <= v <= MAX_VAR_INT.

(** ** Lemmas *)

Lemma varint_cases v :
  (v <= 63 /\ enc_varint v = to_be 1 v) \/
  (63 < v <= 16383 /\ enc_varint v = to_be 2 (0x4000 + v)) \/
  (16383 < v <= 1073741823 /\ enc_varint v = to_be 4 (0x80000000 + v)) \/
  (1073741823 < v /\ enc_varint v = to_be 8 (0xc000000000000000 + v)).
Proof. unfold enc_varint. repeat case_match; naive_solver lia. Qed.

Lemma enc_varint_len v : is_varint v -> varint_len v = Some (zlen (enc_varint v)).
Proof.
  unfold is_varint, varint_len, enc_varint. intros.
  repeat case_match; rewrite ?zlen_to_be; try done; lia.
Qed.

Lemma enc_varint_pos v : 1 <= zlen (enc_varint v) <= 8.
Proof. unfold enc_varint. repeat case_match; rewrite zlen_to_be; lia. Qed.

Lemma enc_varint_ok v : bytes_ok (enc_varint v).
Proof. unfold enc_varint. repeat case_match; auto with slices. Qed.

(** Oring a tag into clear top bits adds it. *)
Lemma lor_tag k b : 0 <= b < 64 -> 1 <= k <= 3 -> Z.lor b (64 * k) = 64 * k + b.
Proof.
  intros Hb Hk. rewrite Z.lor_comm, (Z.mul_comm 64). change 64 with (2 ^ 6).
  rewrite <- Z.shiftl_mul_pow2 by lia. apply Z.bits_inj'. intros n Hn.
  rewrite Z.lor_spec, Z.shiftl_spec by lia.
  destruct (Z.ltb_spec n 6).
  - rewrite (Z.testbit_neg_r k) by lia. rewrite orb_false_l.
    rewrite <- (Z.mod_pow2_bits_low (Z.shiftl k 6 + b) 6) by lia.
    rewrite Z.shiftl_mul_pow2, Z.add_comm, Z.mod_add by lia.
    by rewrite Z.mod_small by lia.
  - assert (Z.testbit b n = false) as ->.
    { apply Z.bits_above_log2; [lia|]. destruct (Z.eq_dec b 0) as [->|]; [simpl; lia|].
      apply Z.log2_lt_pow2; [lia|]. apply Z.lt_le_trans with (2 ^ 6); [lia|].
      apply Z.pow_le_mono_r; lia. }
    rewrite orb_false_r. replace n with ((n - 6) + 6) at 2 by lia.
    rewrite <- Z.div_pow2_bits by lia.
    rewrite Z.shiftl_mul_pow2, Z.div_add_l, Z.div_small by lia. by rewrite Z.add_0_r.
Qed.

(** The tagged head byte of an [S n]-byte integer below the two top bits. *)
Lemma to_be_tag n k v :
  1 <= k <= 3 -> 0 <= v < 64 * 256 ^ Z.of_nat n ->
  match to_be (S n) v with b :: r => Z.lor b (64 * k) :: r | [] => [] end =
  to_be (S n) (64 * k * 256 ^ Z.of_nat n + v).
Proof.
  intros Hk Hv. cbn [to_be]. assert (0 < 256 ^ Z.of_nat n) by (apply Z.pow_pos_nonneg; lia).
  assert (v / 256 ^ Z.of_nat n < 64) by (apply Z.div_lt_upper_bound; lia).
  assert (0 <= v / 256 ^ Z.of_nat n) by (apply Z.div_pos; lia).
  f_equal.
  - rewrite Z.div_add_l by lia. rewrite !(Z.mod_small _ 256) by lia. apply lor_tag; lia.
  - clear. revert v. induction n as [|n IH] using nat_ind; [done|].
    enough (forall m w c, (m <= S n)%nat -> to_be m w = to_be m (c * 256 ^ Z.of_nat (S n) + w)) as Hgen
      by (intros; apply Hgen; lia).
    induction m as [|m IHm]; intros w c Hm; [done|]. cbn [to_be].
    rewrite <- IHm by lia. f_equal.
    replace (Z.of_nat (S n)) with (Z.of_nat m + 1 + Z.of_nat (n - m)) by lia.
    rewrite !Z.pow_add_r by lia.
    replace (c * (256 ^ Z.of_nat m * 256 ^ 1 * 256 ^ Z.of_nat (n - m)) + w)
      with ((c * 256 ^ Z.of_nat (n - m) * 256) * 256 ^ Z.of_nat m + w) by lia.
    rewrite Z.div_add_l by (apply Z.pow_nonzero; lia).
    rewrite Z.add_comm, Z.mod_add by lia. done.
Qed.

(** A write cursor that has written [w] and has the blank [r] left. *)
Lemma put_bytes_spec w r v :
  zlen v <= zlen r ->
  put_bytes v (mkOctetsMut (w ++ r) (zlen w)) =
  Ok (mkOctetsMut ((w ++ v) ++ zdrop (zlen v) r) (zlen (w ++ v))).
Proof.
  intros Hv. unfold put_bytes, m_cap. simpl. rewrite zlen_app.
  destruct (_ <? _) eqn:?; [lia|]. pose proof (zlen_nonneg v).
  destruct (zlen v =? 0) eqn:E.
  - destruct v; [|rewrite zlen_cons in E; pose proof (zlen_nonneg v); lia].
    by rewrite zlen_nil, zdrop_nonpos, !app_nil_r by lia.
  - f_equal. rewrite zlen_app. f_equal. unfold splice.
    rewrite ztake_app_length by done. rewrite <- app_assoc. do 2 f_equal.
    unfold zdrop, zlen. rewrite drop_app.
    replace (Z.to_nat (Z.of_nat (length w) + Z.of_nat (length v)) - length w)%nat with (length v) by lia.
    rewrite drop_ge by lia. by rewrite Nat2Z.id.
Qed.

Lemma put_u_bytes n v m :
  (0 < n)%nat -> m_off m + Z.of_nat n <= zlen (m_buf m) ->
  put_u n v m = put_bytes (to_be n v) m.
Proof.
  intros Hn Hm. unfold put_u, put_bytes, m_cap. rewrite zlen_to_be.
  repeat case_match; try lia; done.
Qed.

Lemma to_be_1 v : to_be 1 v = [as_u8 v].
Proof. unfold as_u8. cbn [to_be Z.of_nat]. by rewrite Z.pow_0_r, Z.div_1_r. Qed.

Lemma put_u8_spec w r v :
  1 <= zlen r ->
  put_u8 v (mkOctetsMut (w ++ r) (zlen w)) =
  Ok (mkOctetsMut ((w ++ [as_u8 v]) ++ zdrop 1 r) (zlen (w ++ [as_u8 v]))).
Proof.
  intros Hr. unfold put_u8. rewrite put_u_bytes by (simpl; rewrite ?zlen_app; lia).
  rewrite to_be_1. by rewrite put_bytes_spec.
Qed.

Lemma or_byte_spec w b s mask off :
  or_byte (zlen w) mask (mkOctetsMut (w ++ b :: s) off) =
  mkOctetsMut (w ++ Z.lor b mask :: s) off.
Proof.
  unfold or_byte. simpl. rewrite zget_app_r, Z.sub_diag by lia. simpl.
  unfold splice. f_equal. rewrite ztake_app_length by done. f_equal. simpl. f_equal.
  change (w ++ b :: s) with (w ++ [b] ++ s). rewrite app_assoc.
  by apply zdrop_app_length; rewrite zlen_app.
Qed.

(** Writing a tagged integer of [S n] bytes. *)
Lemma put_tagged_spec n k v w r :
  1 <= k <= 3 -> 0 <= v < 64 * 256 ^ Z.of_nat n -> Z.of_nat (S n) <= zlen r ->
  (let! m' := put_u (S n) v (mkOctetsMut (w ++ r) (zlen w)) in
   Ok (or_byte (zlen w) (64 * k) m')) =
  Ok (mkOctetsMut ((w ++ to_be (S n) (64 * k * 256 ^ Z.of_nat n + v)) ++ zdrop (Z.of_nat (S n)) r)
        (zlen w + Z.of_nat (S n))) :> outcome short OctetsMut.
Proof.
  intros Hk Hv Hr. rewrite put_u_bytes by (simpl; rewrite ?zlen_app; lia).
  rewrite put_bytes_spec by (rewrite zlen_to_be; lia). cbn [obind].
  rewrite zlen_to_be, zlen_app, zlen_to_be. rewrite <- (to_be_tag n k v) by done.
  destruct (to_be (S n) v) as [|b s] eqn:E; [by cbn [to_be] in E|].
  rewrite <- !app_assoc. simpl. by rewrite or_byte_spec.
Qed.

Lemma put_varint_spec v w r :
  is_varint v -> zlen (enc_varint v) <= zlen r ->
  put_varint v (mkOctetsMut (w ++ r) (zlen w)) =
  Ok (mkOctetsMut ((w ++ enc_varint v) ++ zdrop (zlen (enc_varint v)) r)
        (zlen (w ++ enc_varint v))).
Proof.
  intros Hv Hr. unfold put_varint. rewrite enc_varint_len by done.
  unfold put_varint_with_len, m_cap. cbn [m_buf m_off]. rewrite !zlen_app.
  replace (_ <? _) with false by lia.
  unfold is_varint, MAX_VAR_INT in Hv.
  destruct (varint_cases v) as [[? E]|[[? E]|[[? E]|[? E]]]]; rewrite E in *;
    rewrite zlen_to_be in *.
  - change (Z.of_nat 1) with 1 in *. cbv iota.
    rewrite put_u_bytes by (simpl; rewrite ?zlen_app; lia).
    rewrite put_bytes_spec by (rewrite zlen_to_be; lia). by rewrite zlen_app, zlen_to_be.
  - apply (put_tagged_spec 1 1); simpl; lia.
  - apply (put_tagged_spec 3 2); simpl; lia.
  - apply (put_tagged_spec 7 3); simpl; lia.
Qed.

(** ** Reading back *)

Lemma peek_u_spec p m q n :
  zlen m = Z.of_nat n ->
  peek_u n (mkOctets (p ++ m ++ q) (zlen p)) = Ok (of_be m).
Proof.
  intros Hm. unfold peek_u, idx_range. cbn [o_buf o_off].
  rewrite get_range_suffix by (rewrite ?zlen_app; done). cbn [obind].
  rewrite zlen_app, Hm. pose proof (zlen_nonneg q).
  replace (_ <? _) with false by lia. by rewrite ztake_app_length.
Qed.

Lemma get_u_spec p m q n :
  zlen m = Z.of_nat n ->
  get_u n (mkOctets (p ++ m ++ q) (zlen p)) =
  Ok (of_be m, mkOctets (p ++ m ++ q) (zlen p + Z.of_nat n)).
Proof. intros. unfold get_u. by rewrite peek_u_spec. Qed.

Lemma get_u8_spec p b q :
  get_u8 (mkOctets (p ++ b :: q) (zlen p)) = Ok (b, mkOctets (p ++ b :: q) (zlen p + 1)).
Proof. apply (get_u_spec p [b] q 1). done. Qed.

Lemma peek_head p b m q : peek_u 1 (mkOctets (p ++ (b :: m) ++ q) (zlen p)) = Ok b.
Proof. apply (peek_u_spec p [b] (m ++ q) 1). done. Qed.

(** The head byte of a tagged integer gives its length away. *)
Lemma to_be_head n k v :
  0 <= k <= 3 -> 0 <= v < 64 * 256 ^ Z.of_nat n ->
  exists b r, to_be (S n) (64 * k * 256 ^ Z.of_nat n + v) = b :: r /\ Z.shiftr b 6 = k.
Proof.
  intros Hk Hv. cbn [to_be]. do 2 eexists. split; [done|].
  assert (0 < 256 ^ Z.of_nat n) by (apply Z.pow_pos_nonneg; lia).
  assert (v / 256 ^ Z.of_nat n < 64) by (apply Z.div_lt_upper_bound; lia).
  assert (0 <= v / 256 ^ Z.of_nat n) by (apply Z.div_pos; lia).
  rewrite Z.div_add_l, Z.mod_small, Z.shiftr_div_pow2 by lia.
  change (2 ^ 6) with 64. rewrite (Z.mul_comm 64), Z.div_add_l, Z.div_small by lia. lia.
Qed.

Lemma land_mask n k v :
  0 <= n -> 0 <= v < 2 ^ n -> Z.land (k * 2 ^ n + v) (Z.ones n) = v.
Proof. intros. rewrite Z.land_ones, Z.add_comm, Z.mod_add, Z.mod_small; lia. Qed.

(** The shared steps of the four widths of [get_varint_spec]. *)
Ltac read_tagged Hhead n k v E :=
  let b := fresh "b" in let Hb := fresh "Hb" in
  destruct (Hhead n k v) as (b & -> & Hb); [lia|simpl; lia|by rewrite E|];
  cbn [obind]; unfold varint_parse_len; rewrite Hb, E; unfold o_cap; cbn [o_buf o_off];
  rewrite !zlen_app, zlen_to_be; replace (_ <? _) with false by lia;
  rewrite get_u_spec by apply zlen_to_be; cbn [obind];
  rewrite of_be_to_be_small by (simpl; lia).

Lemma get_varint_spec p v q :
  is_varint v ->
  get_varint (mkOctets (p ++ enc_varint v ++ q) (zlen p)) =
  Ok (v, mkOctets (p ++ enc_varint v ++ q) (zlen p + zlen (enc_varint v))).
Proof.
  intros Hv. unfold is_varint, MAX_VAR_INT in Hv. unfold get_varint.
  pose proof (zlen_nonneg q).
  assert (forall n k v', 0 <= k <= 3 -> 0 <= v' < 64 * 256 ^ Z.of_nat n ->
    enc_varint v = to_be (S n) (64 * k * 256 ^ Z.of_nat n + v') ->
    exists b, peek_u 1 (mkOctets (p ++ enc_varint v ++ q) (zlen p)) = Ok b /\ Z.shiftr b 6 = k)
    as Hhead.
  { intros n k v' ? ? ->. destruct (to_be_head n k v') as (b & r & -> & ?); [done..|].
    exists b. by rewrite peek_head. }
  destruct (varint_cases v) as [[? E]|[[? E]|[[? E]|[? E]]]].
  - read_tagged Hhead 0%nat 0 v E. done.
  - read_tagged Hhead 1%nat 1 v E. do 2 f_equal. apply (land_mask 14 1); lia.
  - read_tagged Hhead 3%nat 2 v E. do 2 f_equal. apply (land_mask 30 2); lia.
  - read_tagged Hhead 7%nat 3 v E. do 2 f_equal. apply (land_mask 62 3); lia.
Qed.

Lemma get_bytes_spec p m q n :
  n = zlen m ->
  get_bytes n (mkOctets (p ++ m ++ q) (zlen p)) =
  Ok (m, mkOctets (p ++ m ++ q) (zlen p + zlen m)).
Proof.
  intros ->. unfold get_bytes, o_cap, idx_range. cbn [o_buf o_off].
  rewrite !zlen_app. pose proof (zlen_nonneg q).
  replace (_ <? _) with false by lia. by rewrite get_range_mid.
Qed.

(** ** Safety: a cursor inside its buffer stays inside it and never panics *)

Definition cursor_ok (o : Octets) : Prop := 0 <= o_off o <= zlen (o_buf o) /\ bytes_ok (o_buf o).

Lemma with_slice_ok b : bytes_ok b -> cursor_ok (with_slice b).
Proof. split; [pose proof (zlen_nonneg b); simpl; lia|done]. Qed.

Lemma o_advance_ok o n : cursor_ok o -> 0 <= n <= o_cap o -> cursor_ok (o_advance o n).
Proof. unfold cursor_ok, o_cap. intros [] ?. simpl. split; [lia|done]. Qed.

Lemma o_cap_advance o n : o_cap (o_advance o n) = o_cap o - n.
Proof. unfold o_cap, o_advance. simpl. lia. Qed.

Lemma peek_u_cases n o :
  cursor_ok o ->
  if o_cap o <? Z.of_nat n then peek_u n o = Err BufferTooShort
  else exists v, peek_u n o = Ok v /\ 0 <= v < 256 ^ Z.of_nat n.
Proof.
  intros [Ho Hb]. unfold peek_u, idx_range, o_cap.
  destruct (get_range _ _ _) as [src|] eqn:E; [|apply get_range_None in E; lia].
  cbn [obind]. rewrite (zlen_get_range _ _ _ _ E). case_match; [done|].
  eexists. split; [done|].
  replace (Z.of_nat n) with (zlen (ztake (Z.of_nat n) src)) at 3.
  - apply of_be_bound. apply get_range_Some in E as (_ & _ & ->). auto with slices.
  - rewrite zlen_ztake, (zlen_get_range _ _ _ _ E). lia.
Qed.

Lemma get_u_cases n o :
  cursor_ok o ->
  if o_cap o <? Z.of_nat n then get_u n o = Err BufferTooShort
  else exists v, get_u n o = Ok (v, o_advance o (Z.of_nat n)) /\ 0 <= v < 256 ^ Z.of_nat n.
Proof.
  intros Ho. pose proof (peek_u_cases n o Ho) as H. unfold get_u.
  case_match; [by rewrite H|]. destruct H as (v & -> & ?). by exists v.
Qed.

Lemma get_bytes_cases n o :
  cursor_ok o -> 0 <= n ->
  if o_cap o <? n then get_bytes n o = Err BufferTooShort
  else exists m, get_bytes n o = Ok (m, o_advance o n) /\ zlen m = n /\ bytes_ok m.
Proof.
  intros [Ho Hb] Hn. unfold get_bytes, idx_range. case_match; [done|].
  unfold o_cap in *. destruct (get_range _ _ _) as [m|] eqn:E; [|apply get_range_None in E; lia].
  exists m. split; [done|]. rewrite (zlen_get_range _ _ _ _ E). split; [lia|].
  apply get_range_Some in E as (_ & _ & ->). auto with slices.
Qed.

Lemma varint_parse_len_cases b :
  is_u8 b ->
  exists len, varint_parse_len b = Some len /\ (len = 1 /\ b < 64 \/ len = 2 \/ len = 4 \/ len = 8).
Proof.
  unfold is_u8, varint_parse_len. intros Hb. rewrite Z.shiftr_div_pow2 by lia.
  change (2 ^ 6) with 64. pose proof (Z.div_mod b 64 ltac:(lia)).
  pose proof (Z.mod_pos_bound b 64 ltac:(lia)).
  assert (b / 64 = 0 \/ b / 64 = 1 \/ b / 64 = 2 \/ b / 64 = 3) as [E|[E|[E|E]]] by lia;
    rewrite E; eexists; split; [done| |done| |done| |done|]; lia.
Qed.

Lemma land_bound v n : 0 <= n -> 0 <= Z.land v (Z.ones n) <= Z.ones n.
Proof.
  intros. rewrite Z.land_ones by lia. pose proof (Z.mod_pos_bound v (2 ^ n) ltac:(lia)).
  rewrite Z.ones_equiv. lia.
Qed.

Lemma get_varint_cases o :
  cursor_ok o ->
  get_varint o = Err BufferTooShort \/
  exists v n, get_varint o = Ok (v, o_advance o n) /\ is_varint v /\ 1 <= n <= 8 /\ n <= o_cap o.
Proof.
  intros Ho. unfold get_varint. pose proof (peek_u_cases 1 o Ho) as H1.
  destruct (o_cap o <? Z.of_nat 1) eqn:Hc; [by left; rewrite H1|].
  destruct H1 as (b & -> & Hb). cbn [obind].
  destruct (varint_parse_len_cases b) as (len & -> & Hlen); [done|].
  destruct (o_cap o <? len) eqn:Hlen'; [by left|right].
  assert (forall n, o_cap o <? Z.of_nat n = false ->
    exists v, get_u n o = Ok (v, o_advance o (Z.of_nat n)) /\ 0 <= v < 256 ^ Z.of_nat n) as Hget.
  { intros n Hn. pose proof (get_u_cases n o Ho) as Hg. by rewrite Hn in Hg. }
  unfold is_varint, MAX_VAR_INT.
  destruct Hlen as [[-> ?]|[-> |[-> | ->]]].
  - unfold get_u. pose proof (peek_u_cases 1 o Ho) as H1. rewrite Hc in H1.
    destruct H1 as (v & -> & ?). exists v, 1. simpl in *. split_and!; try lia; done.
  - destruct (Hget 2%nat) as (v & -> & ?); [lia|]. exists (Z.land v 0x3fff), 2.
    pose proof (land_bound v 14 ltac:(lia)) as Hl. change (Z.ones 14) with 0x3fff in Hl.
    split; [done|lia].
  - destruct (Hget 4%nat) as (v & -> & ?); [lia|]. exists (Z.land v 0x3fffffff), 4.
    pose proof (land_bound v 30 ltac:(lia)) as Hl. change (Z.ones 30) with 0x3fffffff in Hl.
    split; [done|lia].
  - destruct (Hget 8%nat) as (v & -> & ?); [lia|]. exists (Z.land v 0x3fffffffffffffff), 8.
    pose proof (land_bound v 62 ltac:(lia)) as Hl. change (Z.ones 62) with 0x3fffffffffffffff in Hl.
    split; [done|lia].
Qed.

(** ** A reader that consumes at least [k] bytes and never panics *)

Definition reads {E A : Type} (k : Z) (o : Octets) (m : outcome E (A * Octets)) : Prop :=
  match m with
  | Ok (_, o') => cursor_ok o' /\ o_cap o' <= o_cap o - k
  | Err _ => True
  | Panic | OutOfFuel => False
  end.

Lemma reads_returns {E A} k o (m : outcome E (A * Octets)) : reads k o m -> returns m.
Proof. by destruct m as [[]| | |]. Qed.

Lemma reads_map_err {E F A} (f : E -> F) k o (m : outcome E (A * Octets)) :
  reads k o m -> reads k o (map_err f m).
Proof. by destruct m as [[]| | |]. Qed.

Lemma reads_bind {E A B} k j o (m : outcome E (A * Octets)) (f : A * Octets -> outcome E (B * Octets)) :
  reads k o m -> (forall a o', cursor_ok o' -> reads j o' (f (a, o'))) -> reads (k + j) o (obind m f).
Proof.
  destruct m as [[a o']| | |]; simpl; try done. intros [Ho Hc] Hf. specialize (Hf a o' Ho).
  destruct (f (a, o')) as [[b o'']| | |]; simpl in *; try done. destruct Hf. split; [done|lia].
Qed.

Lemma reads_ret {E A} (a : A) o : cursor_ok o -> reads (E := E) 0 o (Ok (a, o)).
Proof. intros. simpl. split; [done|lia]. Qed.

Lemma reads_get_u n o : cursor_ok o -> reads (Z.of_nat n) o (get_u n o).
Proof.
  intros Ho. pose proof (get_u_cases n o Ho) as H. case_match; [by rewrite H|].
  destruct H as (v & -> & _). simpl. rewrite o_cap_advance. split; [apply o_advance_ok; [done|lia]|lia].
Qed.

Lemma reads_get_u8 o : cursor_ok o -> reads 1 o (get_u8 o).
Proof. apply (reads_get_u 1). Qed.

Lemma reads_get_bytes n o : cursor_ok o -> 0 <= n -> reads n o (get_bytes n o).
Proof.
  intros Ho Hn. pose proof (get_bytes_cases n o Ho Hn) as H. case_match; [by rewrite H|].
  destruct H as (v & -> & _). simpl. rewrite o_cap_advance. split; [apply o_advance_ok; [done|lia]|lia].
Qed.

Lemma reads_get_varint o : cursor_ok o -> reads 1 o (get_varint o).
Proof.
  intros Ho. destruct (get_varint_cases o Ho) as [-> |(v & n & -> & _ & ? & ?)]; [done|].
  simpl. rewrite o_cap_advance. split; [apply o_advance_ok; [done|lia]|lia].
Qed.

Lemma reads_weaken {E A} k j o (m : outcome E (A * Octets)) : j <= k -> reads k o m -> reads j o m.
Proof. destruct m as [[]| | |]; simpl; try done. intros ? []. split; [done|lia]. Qed.

Create HintDb cursors.
#[export] Hint Resolve reads_get_u8 reads_get_varint reads_map_err reads_ret with_slice_ok : cursors.
