(* ===== verification/RustStr.v ===== *)
(** * The string functions of the Rust standard library that the engine calls

    A [&str] or [String] is its UTF-8 bytes.  The functions below are those
    [core::str] defines, on bytes: white space is Unicode's [White_Space],
    recognised in its UTF-8 spelling; case conversion of a string that is all
    ASCII is written out, and of any other string is read off the Unicode
    tables, which are a parameter ([UnicodeTables]). *)

From S2P Require Import Prelude.
From Stdlib Require Import ZArith Lia ZifyBool String List.
From stdpp Require Import base list numbers option decidable.
Open Scope Z_scope.

(** ** Characters *)

Definition is_ascii (b : Z) : bool := b <? 128.
Definition is_ascii_digit (b : Z) : bool := (48 <=? b) && (b <=? 57).
Definition is_ascii_upper (b : Z) : bool := (65 <=? b) && (b <=? 90).
Definition is_ascii_lower (b : Z) : bool := (97 <=? b) && (b <=? 122).
Definition is_ascii_alphanumeric (b : Z) : bool :=
  is_ascii_digit b || is_ascii_upper b || is_ascii_lower b.
Definition ascii_lower (b : Z) : Z := if is_ascii_upper b then b + 32 else b.

Definition to_ascii_lowercase (s : bytes) : bytes := map ascii_lower s.
Definition eq_ignore_ascii_case (a b : bytes) : bool :=
  bool_decide (to_ascii_lowercase a = to_ascii_lowercase b).

(** The lower-case image of a string that is not all ASCII. *)
Class UnicodeTables : Type := { lower_non_ascii : bytes -> bytes }.
Definition no_unicode : UnicodeTables := {| lower_non_ascii := to_ascii_lowercase |}.

Definition to_lowercase `{UnicodeTables} (s : bytes) : bytes :=
  if forallb is_ascii s then to_ascii_lowercase s else lower_non_ascii s.

(** ** White space and trimming *)

Definition is_ws1 (b : Z) : bool := ((9 <=? b) && (b <=? 13)) || (b =? 32).
Definition is_ws2 (b c : Z) : bool := (b =? 0xc2) && ((c =? 0x85) || (c =? 0xa0)).
Definition is_ws3 (b c d : Z) : bool :=
  ((b =? 0xe1) && (c =? 0x9a) && (d =? 0x80)) ||
  ((b =? 0xe2) && (c =? 0x80) &&
     (((0x80 <=? d) && (d <=? 0x8a)) || (d =? 0xa8) || (d =? 0xa9) || (d =? 0xaf))) ||
  ((b =? 0xe2) && (c =? 0x81) && (d =? 0x9f)) ||
  ((b =? 0xe3) && (c =? 0x80) && (d =? 0x80)).

Fixpoint trim_start (s : bytes) : bytes :=
  match s with
  | [] => []
  | b :: r =>
      if is_ws1 b then trim_start r
      else match r with
           | [] => s
           | c :: r2 =>
               if is_ws2 b c then trim_start r2
               else match r2 with
                    | [] => s
                    | d :: r3 => if is_ws3 b c d then trim_start r3 else s
                    end
           end
  end.

(** [trim_start] on the reversed string, where each character is met last
    byte first. *)
Fixpoint trim_start_rev (s : bytes) : bytes :=
  match s with
  | [] => []
  | b :: r =>
      if is_ws1 b then trim_start_rev r
      else match r with
           | [] => s
           | c :: r2 =>
               if is_ws2 c b then trim_start_rev r2
               else match r2 with
                    | [] => s
                    | d :: r3 => if is_ws3 d c b then trim_start_rev r3 else s
                    end
           end
  end.
Definition trim_end (s : bytes) : bytes := rev (trim_start_rev (rev s)).
Definition trim (s : bytes) : bytes := trim_end (trim_start s).

(** [split_whitespace()]: the words between white space; [cur] is the word
    being read. *)
Fixpoint words_from (s cur : bytes) : list bytes :=
  let flush := match cur with [] => [] | _ => [cur] end in
  match s with
  | [] => flush
  | b :: r =>
      if is_ws1 b then flush ++ words_from r []
      else match r with
           | [] => words_from r (cur ++ [b])
           | c :: r2 =>
               if is_ws2 b c then flush ++ words_from r2 []
               else match r2 with
                    | [] => words_from r (cur ++ [b])
                    | d :: r3 => if is_ws3 b c d then flush ++ words_from r3 [] else words_from r (cur ++ [b])
                    end
           end
  end.
Definition split_whitespace (s : bytes) : list bytes := words_from s [].

(** [trim_start_matches(c)], [trim_end_matches(c)] and [trim_matches] for a set
    of ASCII characters. *)
Fixpoint trim_start_matches (p : Z -> bool) (s : bytes) : bytes :=
  match s with
  | [] => []
  | b :: r => if p b then trim_start_matches p r else s
  end.
Definition trim_end_matches (p : Z -> bool) (s : bytes) : bytes :=
  rev (trim_start_matches p (rev s)).
Definition trim_matches (p : Z -> bool) (s : bytes) : bytes :=
  trim_end_matches p (trim_start_matches p s).

(** ** Searching and splitting *)

Definition starts_with (s p : bytes) : bool := bool_decide (take (length p) s = p).
Definition ends_with (s p : bytes) : bool :=
  bool_decide (length p <= length s)%nat && bool_decide (drop (length s - length p) s = p).
Fixpoint contains (s p : bytes) : bool :=
  starts_with s p || match s with [] => false | _ :: r => contains r p end.
Definition contains_char (s : bytes) (c : Z) : bool := existsb (Z.eqb c) s.
Definition strip_prefix (s p : bytes) : option bytes :=
  if starts_with s p then Some (drop (length p) s) else None.
Definition strip_suffix (s p : bytes) : option bytes :=
  if ends_with s p then Some (take (length s - length p) s) else None.

(** [trim_start_matches] with a string removes every repetition. *)
Fixpoint trim_start_str_fuel (fuel : nat) (s p : bytes) : bytes :=
  match fuel with
  | O => s
  | S fuel => match strip_prefix s p with Some rest => trim_start_str_fuel fuel rest p | None => s end
  end.
Definition trim_start_str (s p : bytes) : bytes := trim_start_str_fuel (length s) s p.

(** [split(p)] for a set [p] of ASCII characters. *)
Fixpoint split (p : Z -> bool) (s : bytes) : list bytes :=
  match s with
  | [] => [[]]
  | b :: r =>
      if p b then [] :: split p r
      else match split p r with
           | w :: ws => (b :: w) :: ws
           | [] => [[b]]
           end
  end.

Fixpoint split_once (c : Z) (s : bytes) : option (bytes * bytes) :=
  match s with
  | [] => None
  | b :: r =>
      if b =? c then Some ([], r)
      else match split_once c r with
           | Some (x, y) => Some (b :: x, y)
           | None => None
           end
  end.
Definition rsplit_once (c : Z) (s : bytes) : option (bytes * bytes) :=
  match split_once c (rev s) with
  | Some (x, y) => Some (rev y, rev x)
  | None => None
  end.

(** [split(p)] for a non-empty string [p], and [split_once(p)]. *)
Fixpoint split_once_str (p s : bytes) : option (bytes * bytes) :=
  if starts_with s p then Some ([], drop (length p) s)
  else match s with
       | [] => None
       | b :: r => match split_once_str p r with
                   | Some (x, y) => Some (b :: x, y)
                   | None => None
                   end
       end.
Fixpoint split_str_fuel (fuel : nat) (p s : bytes) : list bytes :=
  match fuel with
  | O => [s]
  | S fuel => match split_once_str p s with
              | Some (x, y) => x :: split_str_fuel fuel p y
              | None => [s]
              end
  end.
Definition split_str (p s : bytes) : list bytes := split_str_fuel (length s) p s.

(** [lines()]: pieces ended by a line feed, each less one final carriage
    return; a final empty piece is not a line. *)
Definition strip_cr (s : bytes) : bytes :=
  match strip_suffix s [13] with Some r => r | None => s end.
Fixpoint drop_last_empty (l : list bytes) : list bytes :=
  match l with
  | [] => []
  | [x] => match x with [] => [] | _ => [x] end
  | x :: r => x :: drop_last_empty r
  end.
Definition lines (s : bytes) : list bytes :=
  map strip_cr (drop_last_empty (split (Z.eqb 10) s)).

(** ** Numbers *)

Fixpoint digits_value (radix : Z) (digit : Z -> option Z) (acc : Z) (s : bytes) : option Z :=
  match s with
  | [] => Some acc
  | b :: r => match digit b with
              | Some d => digits_value radix digit (acc * radix + d) r
              | None => None
              end
  end.
Definition dec_digit (b : Z) : option Z := if is_ascii_digit b then Some (b - 48) else None.
Definition hex_digit (b : Z) : option Z :=
  if is_ascii_digit b then Some (b - 48)
  else if (97 <=? b) && (b <=? 102) then Some (b - 87)
  else if (65 <=? b) && (b <=? 70) then Some (b - 55)
  else None.

(** [parse::<uN>()] with [max = uN::MAX]: an optional [+], then at least one
    digit, and no overflow. *)
Definition parse_uint (max : Z) (s : bytes) : option Z :=
  let ds := match s with 43 :: ((_ :: _) as r) => r | _ => s end in
  match ds with
  | [] => None
  | _ => match digits_value 10 dec_digit 0 ds with
         | Some v => if v <=? max then Some v else None
         | None => None
         end
  end.
Definition parse_u8 : bytes -> option Z := parse_uint 255.
Definition parse_u16 : bytes -> option Z := parse_uint 65535.
Definition parse_u32 : bytes -> option Z := parse_uint (2 ^ 32 - 1).
Definition parse_u64 : bytes -> option Z := parse_uint (2 ^ 64 - 1).
Definition parse_usize `{Target} : bytes -> option Z := parse_uint usize_max.

(** [Display] of an unsigned integer. *)
Fixpoint dec_fuel (fuel : nat) (v : Z) (acc : bytes) : bytes :=
  match fuel with
  | O => acc
  | S fuel => if v <? 10 then (48 + v) :: acc
              else dec_fuel fuel (v / 10) ((48 + v mod 10) :: acc)
  end.
Definition dec_str (v : Z) : bytes := dec_fuel 40 v [].

(** [hex::decode]: an even number of hex digits. *)
Fixpoint hex_decode (s : bytes) : option bytes :=
  match s with
  | [] => Some []
  | a :: b :: r =>
      let? x := hex_digit a in
      let? y := hex_digit b in
      let? t := hex_decode r in
      Some (x * 16 + y :: t)
  | _ => None
  end.

(** ** The process environment

    [std::env::var]: the value of a variable that is set to valid Unicode. *)
Definition Env : Type := bytes -> option bytes.
Definition unwrap_or_default (o : option bytes) : bytes := match o with Some s => s | None => [] end.

(** [var(key).ok().and_then(|v| v.parse::<u64>().ok()).filter(|&v| v > 0).unwrap_or(d)],
    the shape of every timeout the engine reads. *)
Definition env_positive (env : Env) (key : bytes) (d : Z) : Z :=
  match env key with
  | Some v => match parse_u64 v with
              | Some n => if 0 <? n then n else d
              | None => d
              end
  | None => d
  end.

(** ** UTF-8 *)

Definition is_cont (b : Z) : bool := (0x80 <=? b) && (b <=? 0xbf).
Definition in_range (lo hi b : Z) : bool := (lo <=? b) && (b <=? hi).
Definition second_ok3 (a b : Z) : bool :=
  if a =? 0xe0 then in_range 0xa0 0xbf b
  else if a =? 0xed then in_range 0x80 0x9f b
  else in_range 0x80 0xbf b.
Definition second_ok4 (a b : Z) : bool :=
  if a =? 0xf0 then in_range 0x90 0xbf b
  else if a =? 0xf4 then in_range 0x80 0x8f b
  else in_range 0x80 0xbf b.

(** The first character of a string, or its first maximal ill-formed part:
    whether it is well formed, and how many bytes it takes. *)
Definition utf8_step (s : bytes) : bool * nat :=
  match s with
  | [] => (true, 0%nat)
  | a :: r =>
      if a <? 0x80 then (true, 1%nat)
      else if in_range 0xc2 0xdf a then
        match r with
        | b :: _ => if is_cont b then (true, 2%nat) else (false, 1%nat)
        | [] => (false, 1%nat)
        end
      else if in_range 0xe0 0xef a then
        match r with
        | b :: r2 =>
            if second_ok3 a b then
              match r2 with
              | c :: _ => if is_cont c then (true, 3%nat) else (false, 2%nat)
              | [] => (false, 2%nat)
              end
            else (false, 1%nat)
        | [] => (false, 1%nat)
        end
      else if in_range 0xf0 0xf4 a then
        match r with
        | b :: r2 =>
            if second_ok4 a b then
              match r2 with
              | c :: r3 =>
                  if is_cont c then
                    match r3 with
                    | d :: _ => if is_cont d then (true, 4%nat) else (false, 3%nat)
                    | [] => (false, 3%nat)
                    end
                  else (false, 2%nat)
              | [] => (false, 2%nat)
              end
            else (false, 1%nat)
        | [] => (false, 1%nat)
        end
      else (false, 1%nat)
  end.

(** [std::str::from_utf8(s).is_ok()]. *)
Fixpoint utf8_valid_fuel (fuel : nat) (s : bytes) : bool :=
  match s, fuel with
  | [], _ => true
  | _, O => false
  | _, S fuel => let '(ok, n) := utf8_step s in ok && utf8_valid_fuel fuel (drop n s)
  end.
Definition utf8_valid (s : bytes) : bool := utf8_valid_fuel (length s) s.
Definition from_utf8 (s : bytes) : option bytes := if utf8_valid s then Some s else None.

(** [String::from_utf8_lossy]: every ill-formed part becomes U+FFFD. *)
Fixpoint utf8_lossy_fuel (fuel : nat) (s : bytes) : bytes :=
  match s, fuel with
  | [], _ | _, O => []
  | _, S fuel =>
      let '(ok, n) := utf8_step s in
      (if ok then take n s else [0xef; 0xbf; 0xbd]) ++ utf8_lossy_fuel fuel (drop n s)
  end.
Definition from_utf8_lossy (s : bytes) : bytes := utf8_lossy_fuel (length s) s.

(** ** Lemmas *)

Lemma ascii_lower_idem b : ascii_lower (ascii_lower b) = ascii_lower b.
Proof. unfold ascii_lower, is_ascii_upper. repeat case_match; lia. Qed.

Lemma to_ascii_lowercase_idem s : to_ascii_lowercase (to_ascii_lowercase s) = to_ascii_lowercase s.
Proof.
  unfold to_ascii_lowercase. rewrite map_map. apply map_ext. apply ascii_lower_idem.
Qed.

Lemma to_lowercase_ascii `{UnicodeTables} s :
  Forall (fun b => b < 128) s -> to_lowercase s = to_ascii_lowercase s.
Proof.
  intros Hs. unfold to_lowercase. replace (forallb is_ascii s) with true; [done|].
  symmetry. apply forallb_forall. intros b Hb. unfold is_ascii.
  rewrite List.Forall_forall in Hs. specialize (Hs b Hb). lia.
Qed.

Lemma eq_ignore_ascii_case_refl s : eq_ignore_ascii_case s s = true.
Proof. by apply bool_decide_eq_true. Qed.

Lemma eq_ignore_ascii_case_sym a b : eq_ignore_ascii_case a b = eq_ignore_ascii_case b a.
Proof. unfold eq_ignore_ascii_case. apply bool_decide_ext. naive_solver. Qed.

Lemma split_once_Some c s x y :
  split_once c s = Some (x, y) <-> s = x ++ c :: y /\ ~ In c x.
Proof.
  revert x y. induction s as [|b r IH]; intros x y; simpl.
  { split; [done|]. by intros [? _]; destruct x. }
  destruct (Z.eqb_spec b c) as [->|Hne].
  - split; [intros [= <- <-]; by split; [|intros []]|].
    intros [E Hx]. destruct x as [|b' x]; simplify_eq/=; [done|]. exfalso. apply Hx. by left.
  - destruct (split_once c r) as [[x' y']|] eqn:E.
    + specialize (proj1 (IH x' y') eq_refl) as [-> Hx'].
      split; [intros [= <- <-]; split; [done|]; intros [?|?]; naive_solver|].
      intros [E' Hx]. destruct x as [|b' x]; simplify_eq/=.
      assert (Some (x', y') = Some (x, y)) as [= -> ->]; [|done].
      apply IH. split; [done|naive_solver].
    + split; [done|]. intros [E' Hx]. destruct x as [|b' x]; simplify_eq/=.
      assert (None = Some (x, y)); [apply IH; naive_solver|done].
Qed.

Lemma split_once_None c s : split_once c s = None <-> ~ In c s.
Proof.
  induction s as [|b r IH]; simpl; [naive_solver|].
  destruct (Z.eqb_spec b c); [naive_solver|].
  destruct (split_once c r) as [[]|]; naive_solver.
Qed.

Lemma rsplit_once_Some c s x y :
  rsplit_once c s = Some (x, y) <-> s = x ++ c :: y /\ ~ In c y.
Proof.
  unfold rsplit_once. destruct (split_once c (rev s)) as [[a b]|] eqn:E.
  - apply split_once_Some in E as [E Ha].
    assert (s = rev b ++ c :: rev a) as Hs.
    { rewrite <- (rev_involutive s), E, rev_app_distr. simpl. by rewrite <- app_assoc. }
    split.
    + intros [= <- <-]. split; [done|]. by rewrite <- in_rev.
    + intros [Hs' Hy]. assert (Some (rev y, rev x) = Some (a, b)) as [= <- <-].
      { symmetry. rewrite <- (proj2 (split_once_Some c (rev s) a b)) by done.
        apply split_once_Some. rewrite <- in_rev. split; [|done].
        rewrite Hs', rev_app_distr. simpl. by rewrite <- app_assoc. }
      by rewrite !rev_involutive.
  - apply split_once_None in E. rewrite <- in_rev in E. split; [done|].
    intros [-> _]. exfalso. apply E. apply in_app_iff. right. by left.
Qed.

Lemma split_no_sep p s : forallb (fun b => negb (p b)) s = true -> split p s = [s].
Proof.
  induction s as [|b r IH]; simpl; [done|]. intros [Hb Hr]%andb_prop.
  destruct (p b); [done|]. by rewrite IH.
Qed.

Lemma split_app_sep p s c r :
  p c = true -> forallb (fun b => negb (p b)) s = true -> split p (s ++ c :: r) = s :: split p r.
Proof.
  intros Hc. induction s as [|b s IH]; simpl; [by rewrite Hc|]. intros [Hb Hs]%andb_prop.
  destruct (p b); [done|]. by rewrite IH.
Qed.

Lemma split_nonempty p s : split p s <> [].
Proof. destruct s as [|b r]; simpl; [done|]. repeat case_match; done. Qed.

(** Every piece is free of separators, and is made of bytes of the string. *)
Lemma split_pieces p s w :
  In w (split p s) -> forallb (fun b => negb (p b)) w = true /\ forall b, In b w -> In b s.
Proof.
  revert w. induction s as [|b r IH]; intros w; simpl.
  { intros [<-|[]]. by split. }
  destruct (p b) eqn:Hb.
  - intros [<-|Hw]; [by split|]. destruct (IH w Hw) as [H1 H2]. split; [done|]. auto.
  - destruct (split p r) as [|w0 ws] eqn:E; [by apply split_nonempty in E|].
    intros [<-|Hw].
    + destruct (IH w0) as [H1 H2]; [by left|]. split; [simpl; by rewrite Hb|].
      intros x [->|Hx]; [by left|right; auto].
    + destruct (IH w) as [H1 H2]; [by right|]. split; auto.
Qed.

(** Splitting at one character, and joining again. *)
Lemma split_app p x c r : p c = true -> split p (x ++ c :: r) = split p x ++ split p r.
Proof.
  intros Hc. induction x as [|b x IH]; simpl; [by rewrite Hc|]. destruct (p b); [by rewrite IH|].
  rewrite IH. destruct (split p x) as [|w ws] eqn:E; [by apply split_nonempty in E|done].
Qed.

Fixpoint join (c : Z) (ws : list bytes) : bytes :=
  match ws with
  | [] => []
  | [w] => w
  | w :: ws => w ++ c :: join c ws
  end.

Lemma join_cons c w ws : ws <> [] -> join c (w :: ws) = w ++ c :: join c ws.
Proof. by destruct ws. Qed.

Lemma join_app c xs ys : xs <> [] -> ys <> [] -> join c (xs ++ ys) = join c xs ++ c :: join c ys.
Proof.
  intros Hx Hy. induction xs as [|x [|x' xs] IH]; [done| |].
  - simpl app. by rewrite join_cons.
  - change ((x :: x' :: xs) ++ ys) with (x :: (x' :: xs) ++ ys). rewrite join_cons by done.
    rewrite IH by done. rewrite (join_cons c x) by done. by rewrite <- app_assoc.
Qed.

Lemma join_split c s : join c (split (Z.eqb c) s) = s.
Proof.
  induction s as [|b s IH]; [done|]. cbn [split]. destruct (Z.eqb_spec c b) as [->|Hb].
  - rewrite join_cons by apply split_nonempty. by rewrite IH.
  - destruct (split (Z.eqb c) s) as [|w [|w' ws]] eqn:E; [by apply split_nonempty in E| |].
    + simpl in *. by subst.
    + rewrite join_cons in * by done. rewrite <- IH. done.
Qed.

(** An ASCII character that is not white space stops the trimming. *)
Definition solid (b : Z) : Prop := 0 <= b < 128 /\ is_ws1 b = false.

Lemma solid_ws2 b c : solid b -> is_ws2 b c = false /\ is_ws2 c b = false.
Proof. unfold solid, is_ws2. lia. Qed.
Lemma solid_ws3 b c d : solid b -> is_ws3 b c d = false /\ is_ws3 c b d = false /\ is_ws3 c d b = false.
Proof. unfold solid, is_ws3. lia. Qed.

Lemma trim_start_solid b r : solid b -> trim_start (b :: r) = b :: r.
Proof.
  intros Hb. pose proof Hb as [_ Hw]. cbn [trim_start]. rewrite Hw. destruct r as [|c r]; [done|].
  rewrite (proj1 (solid_ws2 b c Hb)). destruct r as [|d r]; [done|]. by rewrite (proj1 (solid_ws3 b c d Hb)).
Qed.

Lemma trim_start_rev_solid r c x : solid c -> exists r', trim_start_rev (r ++ c :: x) = r' ++ c :: x.
Proof.
  intros Hc. pose proof Hc as [_ Hw].
  induction r as [[|b1 [|b2 [|b3 r]]] IH] using (induction_ltof1 _ (@length Z)); unfold ltof in IH; cbn [app].
  - exists []. cbn [app trim_start_rev]. rewrite Hw. destruct x as [|d x]; [done|].
    rewrite (proj2 (solid_ws2 c d Hc)). destruct x as [|e x]; [done|]. by rewrite (proj2 (proj2 (solid_ws3 c e d Hc))).
  - destruct (IH []) as [r' Hr']; [simpl; lia|]. cbn [app] in Hr'. cbn [trim_start_rev].
    destruct (is_ws1 b1); [by exists r'|]. rewrite (proj1 (solid_ws2 c b1 Hc)).
    destruct x as [|d x]; [by exists [b1]|]. rewrite (proj1 (proj2 (solid_ws3 c d b1 Hc))). by exists [b1].
  - destruct (IH [b2]) as [r1 Hr1]; [simpl; lia|]. destruct (IH []) as [r2 Hr2]; [simpl; lia|]. cbn [app] in *.
    cbn [trim_start_rev] in *. destruct (is_ws1 b1); [by exists r1|].
    destruct (is_ws2 b2 b1); [by exists r2|]. rewrite (proj1 (solid_ws3 c b2 b1 Hc)). by exists [b1; b2].
  - destruct (IH (b2 :: b3 :: r)) as [r1 Hr1]; [simpl; lia|]. destruct (IH (b3 :: r)) as [r2 Hr2]; [simpl; lia|].
    destruct (IH r) as [r3 Hr3]; [simpl; lia|]. cbn [app] in *.
    change (trim_start_rev (b1 :: b2 :: b3 :: r ++ c :: x)) with
      (if is_ws1 b1 then trim_start_rev (b2 :: b3 :: r ++ c :: x)
       else if is_ws2 b2 b1 then trim_start_rev (b3 :: r ++ c :: x)
       else if is_ws3 b3 b2 b1 then trim_start_rev (r ++ c :: x) else b1 :: b2 :: b3 :: r ++ c :: x).
    destruct (is_ws1 b1); [by exists r1|]. destruct (is_ws2 b2 b1); [by exists r2|].
    destruct (is_ws3 b3 b2 b1); [by exists r3|]. by exists (b1 :: b2 :: b3 :: r).
Qed.

Lemma trim_end_solid x c r : solid c -> exists r', trim_end (x ++ c :: r) = x ++ c :: r'.
Proof.
  intros Hc. unfold trim_end. rewrite rev_app_distr. cbn [rev]. rewrite <- app_assoc. cbn [app].
  destruct (trim_start_rev_solid (rev r) c (rev x) Hc) as [r' ->]. exists (rev r').
  rewrite rev_app_distr. cbn [rev]. rewrite rev_involutive, <- app_assoc. done.
Qed.

(** The white space around a string with solid ends is none. *)
Lemma trim_solid s b r c x : s = b :: r -> s = x ++ [c] -> solid b -> solid c -> trim s = s.
Proof.
  intros E1 E2 Hb Hc. unfold trim. rewrite E1, trim_start_solid, <- E1, E2 by done. unfold trim_end.
  rewrite rev_app_distr. cbn [rev app]. pose proof Hc as [_ Hw]. cbn [trim_start_rev]. rewrite Hw.
  destruct (rev x) as [|d y] eqn:Hx; [by rewrite <- (rev_involutive x), Hx|].
  rewrite (proj2 (solid_ws2 c d Hc)). assert (rev (c :: d :: y) = x ++ [c]) as Hr.
  { cbn [rev]. rewrite <- (rev_involutive x), Hx. cbn [rev]. done. }
  destruct y as [|e y]; [done|]. by rewrite (proj2 (proj2 (solid_ws3 c e d Hc))).
Qed.

(** Trimming takes a prefix and a suffix away. *)
Lemma trim_start_suffix s : exists p, s = p ++ trim_start s.
Proof.
  induction s as [[|b [|c [|d s]]] IH] using (induction_ltof1 _ (@length Z)); unfold ltof in IH.
  - by exists [].
  - simpl. destruct (is_ws1 b); [by exists [b]|by exists []].
  - destruct (IH [c]) as [p Hp]; [simpl; lia|]. cbn [trim_start] in *. destruct (is_ws1 b).
    + exists (b :: p). by rewrite Hp at 1.
    + destruct (is_ws2 b c); [by exists [b; c]|by exists []].
  - destruct (IH (c :: d :: s)) as [p1 H1]; [simpl; lia|]. destruct (IH (d :: s)) as [p2 H2]; [simpl; lia|].
    destruct (IH s) as [p3 H3]; [simpl; lia|].
    change (trim_start (b :: c :: d :: s)) with (if is_ws1 b then trim_start (c :: d :: s)
      else if is_ws2 b c then trim_start (d :: s) else if is_ws3 b c d then trim_start s else b :: c :: d :: s).
    destruct (is_ws1 b); [exists (b :: p1); by rewrite H1 at 1|].
    destruct (is_ws2 b c); [exists (b :: c :: p2); by rewrite H2 at 1|].
    destruct (is_ws3 b c d); [exists (b :: c :: d :: p3); by rewrite H3 at 1|by exists []].
Qed.

Lemma trim_start_rev_suffix s : exists p, s = p ++ trim_start_rev s.
Proof.
  induction s as [[|b [|c [|d s]]] IH] using (induction_ltof1 _ (@length Z)); unfold ltof in IH.
  - by exists [].
  - simpl. destruct (is_ws1 b); [by exists [b]|by exists []].
  - destruct (IH [c]) as [p Hp]; [simpl; lia|]. cbn [trim_start_rev] in *. destruct (is_ws1 b).
    + exists (b :: p). by rewrite Hp at 1.
    + destruct (is_ws2 c b); [by exists [b; c]|by exists []].
  - destruct (IH (c :: d :: s)) as [p1 H1]; [simpl; lia|]. destruct (IH (d :: s)) as [p2 H2]; [simpl; lia|].
    destruct (IH s) as [p3 H3]; [simpl; lia|].
    change (trim_start_rev (b :: c :: d :: s)) with (if is_ws1 b then trim_start_rev (c :: d :: s)
      else if is_ws2 c b then trim_start_rev (d :: s) else if is_ws3 d c b then trim_start_rev s else b :: c :: d :: s).
    destruct (is_ws1 b); [exists (b :: p1); by rewrite H1 at 1|].
    destruct (is_ws2 c b); [exists (b :: c :: p2); by rewrite H2 at 1|].
    destruct (is_ws3 d c b); [exists (b :: c :: d :: p3); by rewrite H3 at 1|by exists []].
Qed.

Lemma trim_Forall (P : Z -> Prop) s : Forall P s -> Forall P (trim s).
Proof.
  intros Hs. unfold trim, trim_end. destruct (trim_start_suffix s) as [p Hp]. rewrite Hp in Hs.
  apply Forall_app in Hs as [_ Hs]. apply Forall_rev.
  destruct (trim_start_rev_suffix (rev (trim_start s))) as [q Hq]. apply Forall_rev in Hs. rewrite Hq in Hs.
  by apply Forall_app in Hs as [_ Hs].
Qed.

Lemma trim_start_matches_Forall (P : Z -> Prop) p s : Forall P s -> Forall P (trim_start_matches p s).
Proof. induction 1 as [|c l Hc Hl IH]; simpl; [constructor|]. destruct (p c); [done|by constructor]. Qed.

Lemma trim_end_matches_Forall (P : Z -> Prop) p s : Forall P s -> Forall P (trim_end_matches p s).
Proof. intros. by apply Forall_rev, trim_start_matches_Forall, Forall_rev. Qed.

Lemma trim_end_matches_last p s x b : trim_end_matches p s = x ++ [b] -> p b = false.
Proof.
  unfold trim_end_matches. intros E. apply (f_equal (@rev Z)) in E. rewrite rev_involutive, rev_app_distr in E.
  cbn [rev app] in E. revert E. induction (rev s) as [|c r IH]; simpl; [done|].
  destruct (p c) eqn:Hp; [done|]. intros [= -> _]. done.
Qed.

(** ** Printing and parsing a number *)

Lemma digits_value_app radix digit acc s t :
  digits_value radix digit acc (s ++ t) =
  opt_bind (digits_value radix digit acc s) (fun a => digits_value radix digit a t).
Proof.
  revert acc. induction s as [|b r IH]; intros acc; simpl; [done|].
  destruct (digit b); [apply IH|done].
Qed.

Lemma dec_digit_spec d : 0 <= d < 10 -> dec_digit (48 + d) = Some d.
Proof.
  intros. unfold dec_digit, is_ascii_digit. replace (_ && _) with true by lia. f_equal. lia.
Qed.

Lemma dec_fuel_spec fuel v acc :
  0 <= v < 10 ^ Z.of_nat fuel -> (0 < fuel)%nat ->
  exists s, dec_fuel fuel v acc = s ++ acc /\ s <> [] /\
    digits_value 10 dec_digit 0 s = Some v /\ Forall (fun b => is_ascii_digit b = true) s.
Proof.
  revert v acc. induction fuel as [|fuel IH]; intros v acc Hv Hf; [lia|]. cbn [dec_fuel].
  destruct (v <? 10) eqn:E.
  - exists [48 + v]. split_and!; [done|done| |].
    + cbn [digits_value]. rewrite dec_digit_spec by lia. done.
    + repeat constructor. unfold is_ascii_digit. lia.
  - replace (Z.of_nat (S fuel)) with (1 + Z.of_nat fuel) in Hv by lia.
    rewrite Z.pow_add_r in Hv by lia.
    pose proof (Z.mod_pos_bound v 10 ltac:(lia)).
    destruct (IH (v / 10) ((48 + v mod 10) :: acc)) as (s & -> & Hs & Hd & Hall).
    + split; [apply Z.div_pos; lia|]. apply Z.div_lt_upper_bound; lia.
    + destruct fuel; [|lia]. simpl in Hv. lia.
    + exists (s ++ [48 + v mod 10]). split_and!.
      * by rewrite <- app_assoc.
      * by destruct s.
      * rewrite digits_value_app, Hd. cbn [opt_bind digits_value].
        rewrite dec_digit_spec by lia. f_equal. pose proof (Z.div_mod v 10). lia.
      * apply Forall_app; split; [done|]. repeat constructor. unfold is_ascii_digit. lia.
Qed.

Lemma dec_str_digits v :
  0 <= v < 2 ^ 64 -> dec_str v <> [] /\ digits_value 10 dec_digit 0 (dec_str v) = Some v /\
    Forall (fun b => is_ascii_digit b = true) (dec_str v).
Proof.
  intros Hv. destruct (dec_fuel_spec 40 v []) as (s & E & ? & ? & ?).
  - change (Z.of_nat 40) with 40. assert (2 ^ 64 < 10 ^ 40) by (vm_compute; done). lia.
  - lia.
  - unfold dec_str. rewrite E, app_nil_r. done.
Qed.

Lemma parse_dec_str max v : 0 <= v <= max -> max < 2 ^ 64 -> parse_uint max (dec_str v) = Some v.
Proof.
  intros Hv Hm. destruct (dec_str_digits v) as (Hn & Hd & Hall); [lia|].
  unfold parse_uint. destruct (dec_str v) as [|b r] eqn:E; [done|].
  assert (b <> 43).
  { apply Forall_cons_iff in Hall as [Hb _]. unfold is_ascii_digit in Hb. lia. }
  replace (match b :: r with 43 :: ((_ :: _) as r) => r | _ => b :: r end) with (b :: r)
    by (repeat (case_match; simplify_eq/=; try done)).
  rewrite Hd. by replace (v <=? max) with true by lia.
Qed.

Lemma parse_uint_le max s v : parse_uint max s = Some v -> v <= max.
Proof. unfold parse_uint. intros. repeat case_match; simplify_eq; lia. Qed.

Lemma env_positive_bound env key d : 0 < d < 2 ^ 64 -> 0 < env_positive env key d < 2 ^ 64.
Proof.
  intros Hd. unfold env_positive. destruct (env key) as [v|]; [|done].
  destruct (parse_u64 v) as [n|] eqn:E; [|done]. apply parse_uint_le in E. case_match; lia.
Qed.

(** ** UTF-8 *)

Lemma utf8_step_pos s : s <> [] -> (1 <= (utf8_step s).2)%nat.
Proof. destruct s; [done|]. intros _. unfold utf8_step. repeat case_match; simpl; lia. Qed.

Lemma utf8_ascii_fuel fuel s :
  (length s <= fuel)%nat -> Forall (fun b => b < 128) s -> utf8_valid_fuel fuel s = true.
Proof.
  revert s. induction fuel as [|fuel IH]; intros [|b r] Hl Hs; simpl in *; try done; [lia|].
  apply Forall_cons_iff in Hs as [Hb Hr]. replace (b <? 0x80) with true by lia. simpl. rewrite drop_0.
  apply IH; [lia|done].
Qed.

Lemma utf8_valid_ascii s : Forall (fun b => b < 128) s -> utf8_valid s = true.
Proof. intros. by apply utf8_ascii_fuel. Qed.

Lemma lossy_valid_fuel fuel s :
  (length s <= fuel)%nat -> utf8_valid_fuel fuel s = true -> utf8_lossy_fuel fuel s = s.
Proof.
  revert s. induction fuel as [|fuel IH]; intros [|b r] Hl; try done.
  cbn [utf8_valid_fuel utf8_lossy_fuel]. pose proof (utf8_step_pos (b :: r)) as Hp.
  destruct (utf8_step (b :: r)) as [ok n]. specialize (Hp ltac:(done)). simpl in Hp.
  intros [-> Hv]%andb_prop. rewrite IH; [apply take_drop| |done].
  rewrite length_drop. simpl in *. lia.
Qed.

(** On a well-formed string the lossy conversion changes nothing. *)
Lemma from_utf8_lossy_valid s : utf8_valid s = true -> from_utf8_lossy s = s.
Proof. by apply lossy_valid_fuel. Qed.

(** ** Slices of strings *)

(** [s.is_char_boundary(i)] for a string of well-formed UTF-8. *)
Definition is_char_boundary (s : bytes) (i : Z) : bool :=
  (i =? 0) || (i =? zlen s) || match zget s i with Some b => negb (is_cont b) | None => false end.
(** [&s[a..b]], which panics off a boundary. *)
Definition str_range {E : Type} (s : bytes) (a b : Z) : outcome E bytes :=
  if is_char_boundary s a && is_char_boundary s b then idx_range s a b else Panic.
(** [usize::from_str_radix(s, 16)]. *)
Definition from_str_radix16 (max : Z) (s : bytes) : option Z :=
  let ds := match s with 43 :: ((_ :: _) as r) => r | _ => s end in
  match ds with
  | [] => None
  | _ => match digits_value 16 hex_digit 0 ds with
         | Some v => if v <=? max then Some v else None
         | None => None
         end
  end.

Lemma utf8_step_app s t n : s <> [] -> utf8_step s = (true, n) -> utf8_step (s ++ t) = (true, n).
Proof.
  destruct s as [|a [|b [|c [|d s]]]]; [done| | | |]; intros _; simpl; repeat case_match; naive_solver.
Qed.

Lemma utf8_step_len s n : s <> [] -> utf8_step s = (true, n) -> (1 <= n <= length s)%nat.
Proof.
  destruct s as [|a [|b [|c [|d s]]]]; [done| | | |]; intros _; simpl; repeat case_match; intros; simplify_eq; lia.
Qed.

Lemma utf8_valid_more m k t :
  (length t <= k)%nat -> utf8_valid_fuel k t = true -> utf8_valid_fuel (m + k) t = true.
Proof.
  revert m t. induction k as [|k IH]; intros m t Ht Hw; [by destruct t, m|].
  destruct t as [|b t]; [by destruct (m + S k)%nat|]. rewrite Nat.add_succ_r. cbn [utf8_valid_fuel] in *.
  destruct (utf8_step (b :: t)) as [ok n] eqn:E. apply andb_prop in Hw as [-> Hw]. simpl.
  apply IH; [|done]. apply utf8_step_len in E; [|done]. rewrite length_drop. simpl in *. lia.
Qed.

Lemma utf8_valid_fuel_app fuel k s t :
  (length s <= fuel)%nat -> (length t <= k)%nat -> utf8_valid_fuel fuel s = true -> utf8_valid_fuel k t = true ->
  utf8_valid_fuel (fuel + k) (s ++ t) = true.
Proof.
  revert s. induction fuel as [|fuel IH]; intros s Hs Ht Hv Hw; [by destruct s|].
  destruct s as [|a s]; [by apply utf8_valid_more|].
  change ((a :: s) ++ t) with (a :: s ++ t). cbn [utf8_valid_fuel Nat.add] in *.
  destruct (utf8_step (a :: s)) as [ok n] eqn:E. apply andb_prop in Hv as [-> Hv].
  change (a :: s ++ t) with ((a :: s) ++ t).
  rewrite (utf8_step_app (a :: s) t n) by done. apply utf8_step_len in E; [|done].
  rewrite drop_app_le by lia. apply IH; [|done..]. rewrite length_drop. simpl in *. lia.
Qed.

Lemma utf8_valid_app s t : utf8_valid s = true -> utf8_valid t = true -> utf8_valid (s ++ t) = true.
Proof. intros. unfold utf8_valid. rewrite length_app. by apply utf8_valid_fuel_app. Qed.

(** A well-formed string does not start inside a character. *)
Lemma utf8_valid_head b s : utf8_valid (b :: s) = true -> is_cont b = false.
Proof.
  destruct (is_cont b) eqn:Hb; [|done]. unfold utf8_valid. cbn [length utf8_valid_fuel].
  assert (utf8_step (b :: s) = (false, 1%nat)) as ->; [|done].
  unfold utf8_step, is_cont, in_range in *. replace (b <? 0x80) with false by lia.
  replace ((0xc2 <=? b) && (b <=? 0xdf)) with false by lia.
  replace ((0xe0 <=? b) && (b <=? 0xef)) with false by lia.
  replace ((0xf0 <=? b) && (b <=? 0xf4)) with false by lia. done.
Qed.

(** A separator that does not occur before is found where it is. *)
Lemma split_once_str_app p x s :
  (forall b c y, p = b :: y -> c ∈ x -> c <> b) -> p <> [] -> split_once_str p (x ++ p ++ s) = Some (x, s).
Proof.
  intros Hx Hp. assert (forall l, split_once_str p l =
    if starts_with l p then Some ([], drop (length p) l)
    else match l with
         | [] => None
         | b :: r => match split_once_str p r with Some (x, y) => Some (b :: x, y) | None => None end
         end) as Heq by (intros []; reflexivity).
  induction x as [|c x IH]; rewrite Heq; simpl.
  - assert (starts_with (p ++ s) p = true) as ->.
    { unfold starts_with. rewrite take_app_length. by apply bool_decide_eq_true. }
    by rewrite drop_app_length.
  - assert (starts_with (c :: x ++ p ++ s) p = false) as ->.
    { unfold starts_with. apply bool_decide_eq_false. destruct p as [|b y]; [done|]. simpl. intros [= ->].
      eapply Hx; [done|left|done]. }
    rewrite IH; [done|]. intros b c' y Hy Hc. eapply Hx; [done|by right].
Qed.

Lemma starts_with_app l p s : (length p <= length l)%nat -> starts_with (l ++ s) p = starts_with l p.
Proof. intros. unfold starts_with. by rewrite take_app_le. Qed.

(** The first occurrence is found: nothing before it starts another one. *)
Lemma split_once_str_first p x s :
  p <> [] -> contains (x ++ removelast p) p = false -> split_once_str p (x ++ p ++ s) = Some (x, s).
Proof.
  intros Hp. assert (forall l, split_once_str p l =
    if starts_with l p then Some ([], drop (length p) l)
    else match l with
         | [] => None
         | b :: r => match split_once_str p r with Some (x, y) => Some (b :: x, y) | None => None end
         end) as Heq by (intros []; reflexivity).
  assert (length p = S (length (removelast p))) as Hl.
  { rewrite (app_removelast_last 0 Hp) at 1. rewrite length_app. simpl. lia. }
  induction x as [|c x IH]; intros Hc; rewrite Heq.
  - simpl app. assert (starts_with (p ++ s) p = true) as ->.
    { unfold starts_with. rewrite take_app_length. by apply bool_decide_eq_true. }
    by rewrite drop_app_length.
  - cbn [app contains] in Hc |- *. apply orb_false_iff in Hc as [Hs Hc].
    assert (starts_with (c :: x ++ p ++ s) p = false) as ->.
    { rewrite (app_removelast_last 0 Hp) at 1. rewrite <- (app_assoc (removelast p)), (app_assoc x).
      change (c :: (x ++ removelast p) ++ ?t) with ((c :: x ++ removelast p) ++ t).
      rewrite starts_with_app; [done|]. rewrite Hl. simpl. rewrite length_app. lia. }
    by rewrite (IH Hc).
Qed.
