(* ===== verification/NetAddr.v ===== *)
(** * Addresses: the part of [std::net] the engine uses

    [IpAddr] carries its octets, [SocketAddr] an address, a port and (for
    IPv6) a scope.  The readers are those of [core::net::parser]: a decimal
    group of at most three digits without leading zeros, hexadecimal groups of
    at most four digits, one [::], and an IPv4 tail. *)

From S2P Require Import Prelude RustStr.
From Stdlib Require Import ZArith Lia ZifyBool String List.
From stdpp Require Import base list numbers option decidable.
Open Scope Z_scope.

Inductive IpAddr : Type :=
| V4 (octets : bytes)
| V6 (octets : bytes).

#[export] Instance IpAddr_eq_dec : EqDecision IpAddr.
Proof. solve_decision. Defined.

Definition ip_ok (ip : IpAddr) : Prop :=
  match ip with
  | V4 o => length o = 4%nat /\ bytes_ok o
  | V6 o => length o = 16%nat /\ bytes_ok o
  end.

Record SocketAddr : Type := mkSock { sa_ip : IpAddr; sa_port : Z; sa_scope : Z }.
#[export] Instance SocketAddr_eq_dec : EqDecision SocketAddr.
Proof. solve_decision. Defined.

(** [SocketAddr::new]. *)
Definition sock_new (ip : IpAddr) (port : Z) : SocketAddr := mkSock ip port 0.
Definition is_ipv4 (a : SocketAddr) : bool :=
  match sa_ip a with V4 _ => true | V6 _ => false end.

(** ** Readers *)

Fixpoint take_while (p : Z -> bool) (s : bytes) : bytes * bytes :=
  match s with
  | [] => ([], [])
  | b :: r => if p b then let '(x, y) := take_while p r in (b :: x, y) else ([], s)
  end.

(** [read_number(10, max_digits, allow_zero_prefix)] with the type's maximum. *)
Definition read_dec (max : Z) (max_digits : option nat) (zero_prefix : bool) (s : bytes)
    : option (Z * bytes) :=
  let '(ds, r) := take_while is_ascii_digit s in
  match ds with
  | [] => None
  | d :: ds' =>
      if match max_digits with Some n => bool_decide (n < length ds)%nat | None => false end
      then None
      else if negb zero_prefix && (d =? 48) && negb (bool_decide (ds' = [])) then None
      else match digits_value 10 dec_digit 0 ds with
           | Some v => if v <=? max then Some (v, r) else None
           | None => None
           end
  end.

Definition is_hex (b : Z) : bool := match hex_digit b with Some _ => true | None => false end.
Definition read_hex4 (s : bytes) : option (Z * bytes) :=
  let '(ds, r) := take_while is_hex s in
  match ds with
  | [] => None
  | _ => if bool_decide (4 < length ds)%nat then None
         else let? v := digits_value 16 hex_digit 0 ds in Some (v, r)
  end.

Definition read_char (c : Z) (s : bytes) : option bytes :=
  match s with b :: r => if b =? c then Some r else None | [] => None end.

Definition read_ipv4 (s : bytes) : option (bytes * bytes) :=
  let? '(a, s) := read_dec 255 (Some 3%nat) false s in
  let? s := read_char 46 s in
  let? '(b, s) := read_dec 255 (Some 3%nat) false s in
  let? s := read_char 46 s in
  let? '(c, s) := read_dec 255 (Some 3%nat) false s in
  let? s := read_char 46 s in
  let? '(d, s) := read_dec 255 (Some 3%nat) false s in
  Some ([a; b; c; d], s).

(** [read_groups]: at most [limit] 16-bit groups; the flag says that an
    embedded IPv4 address ended them.  [first] is [i = 0]. *)
Fixpoint read_groups (limit : nat) (first : bool) (s : bytes) : list Z * bool * bytes :=
  match limit with
  | O => ([], false, s)
  | S limit' =>
      let v4 := match limit' with
                | O => None
                | S _ => let? s := if first then Some s else read_char 58 s in read_ipv4 s
                end in
      match v4 with
      | Some (o, r) =>
          match o with
          | [a; b; c; d] => ([a * 256 + b; c * 256 + d], true, r)
          | _ => ([], false, s)
          end
      | None =>
          match (let? s := if first then Some s else read_char 58 s in read_hex4 s) with
          | Some (g, r) => let '(gs, v4, r) := read_groups limit' false r in (g :: gs, v4, r)
          | None => ([], false, s)
          end
      end
  end.

Definition segments_octets (gs : list Z) : bytes := concat (map (to_be 2) gs).

Definition read_ipv6 (s : bytes) : option (bytes * bytes) :=
  let '(head, head_v4, s) := read_groups 8 true s in
  if bool_decide (length head = 8%nat) then Some (segments_octets head, s)
  else if head_v4 then None
  else
    let? s := read_char 58 s in
    let? s := read_char 58 s in
    let '(tail, _, s) := read_groups (8 - (length head + 1)) true s in
    Some (segments_octets (head ++ replicate (8 - length head - length tail) 0 ++ tail), s).

Definition read_ip (s : bytes) : option (IpAddr * bytes) :=
  match read_ipv4 s with
  | Some (o, r) => Some (V4 o, r)
  | None => let? '(o, r) := read_ipv6 s in Some (V6 o, r)
  end.

Definition all_read {A : Type} (r : option (A * bytes)) : option A :=
  match r with Some (a, []) => Some a | _ => None end.

(** [parse::<IpAddr>()], [parse::<Ipv4Addr>()], [parse::<Ipv6Addr>()]. *)
Definition parse_ip (s : bytes) : option IpAddr := all_read (read_ip s).
Definition parse_ipv4 (s : bytes) : option bytes :=
  if bool_decide (15 < length s)%nat then None else all_read (read_ipv4 s).
Definition parse_ipv6 (s : bytes) : option bytes := all_read (read_ipv6 s).

(** [parse::<SocketAddr>()]. *)
Definition read_port (s : bytes) : option (Z * bytes) :=
  let? s := read_char 58 s in read_dec 65535 None true s.
Definition read_scope (s : bytes) : option (Z * bytes) :=
  let? s := read_char 37 s in read_dec (2 ^ 32 - 1) None true s.
Definition parse_socket_addr (s : bytes) : option SocketAddr :=
  match all_read (let? '(o, s) := read_ipv4 s in
                  let? '(port, s) := read_port s in Some (sock_new (V4 o) port, s)) with
  | Some a => Some a
  | None =>
      all_read (let? s := read_char 91 s in
                let? '(o, s) := read_ipv6 s in
                let '(scope, s) := match read_scope s with Some x => x | None => (0, s) end in
                let? s := read_char 93 s in
                let? '(port, s) := read_port s in
                Some (mkSock (V6 o) port scope, s))
  end.

(** ** Classes of addresses *)

Definition v4_is_private (o : bytes) : bool :=
  match o with
  | [a; b; _; _] => (a =? 10) || ((a =? 172) && (16 <=? b) && (b <=? 31)) || ((a =? 192) && (b =? 168))
  | _ => false
  end.
Definition v4_is_loopback (o : bytes) : bool := match o with a :: _ => a =? 127 | [] => false end.
Definition v4_is_link_local (o : bytes) : bool :=
  match o with a :: b :: _ => (a =? 169) && (b =? 254) | _ => false end.
Definition v4_is_broadcast (o : bytes) : bool := bool_decide (o = [255; 255; 255; 255]).
Definition v4_is_documentation (o : bytes) : bool :=
  match o with
  | [a; b; c; _] => ((a =? 192) && (b =? 0) && (c =? 2)) || ((a =? 198) && (b =? 51) && (c =? 100))
                    || ((a =? 203) && (b =? 0) && (c =? 113))
  | _ => false
  end.
Definition v4_is_unspecified (o : bytes) : bool := bool_decide (o = [0; 0; 0; 0]).
Definition v6_is_loopback (o : bytes) : bool := bool_decide (o = replicate 15 0 ++ [1]).
Definition v6_is_unspecified (o : bytes) : bool := bool_decide (o = replicate 16 0).
Definition v6_segment0 (o : bytes) : Z := match o with a :: b :: _ => a * 256 + b | _ => 0 end.
Definition ip_is_loopback (ip : IpAddr) : bool :=
  match ip with V4 o => v4_is_loopback o | V6 o => v6_is_loopback o end.
Definition ip_is_unspecified (ip : IpAddr) : bool :=
  match ip with V4 o => v4_is_unspecified o | V6 o => v6_is_unspecified o end.

(** [Ipv6Addr::to_ipv4_mapped]: the address behind [::ffff:a.b.c.d]. *)
Definition to_ipv4_mapped (o : bytes) : option bytes :=
  if bool_decide (take 12 o = replicate 10 0 ++ [255; 255]) then Some (drop 12 o) else None.

(** [Display] of an IPv4 address. *)
Definition v4_str (o : bytes) : bytes :=
  match o with
  | [a; b; c; d] => dec_str a ++ [46] ++ dec_str b ++ [46] ++ dec_str c ++ [46] ++ dec_str d
  | _ => []
  end.

(** [Display] of an IPv6 address: the first longest run of two or more zero
    groups is written as [::], an IPv4-mapped address in dotted form. *)
Definition hex_char (d : Z) : Z := if d <? 10 then 48 + d else 87 + d.
Fixpoint hex_fuel (fuel : nat) (v : Z) (acc : bytes) : bytes :=
  match fuel with
  | O => acc
  | S fuel => if v <? 16 then hex_char v :: acc else hex_fuel fuel (v / 16) (hex_char (v mod 16) :: acc)
  end.
Definition hex_str (v : Z) : bytes := hex_fuel 16 v [].

Fixpoint segments (o : bytes) : list Z :=
  match o with a :: b :: r => (a * 256 + b) :: segments r | _ => [] end.

(** The scan for the longest run: start and length of the current and of the
    longest one. *)
Fixpoint zero_run (segs : list Z) (i : nat) (current longest : nat * nat) : nat * nat :=
  match segs with
  | [] => longest
  | s :: segs =>
      if s =? 0 then
        let current := ((if (current.2 =? 0)%nat then i else current.1), S current.2) in
        zero_run segs (S i) current (if (longest.2 <? current.2)%nat then current else longest)
      else zero_run segs (S i) (0, 0)%nat longest
  end.
Definition subslice (segs : list Z) : bytes := RustStr.join 58 (map hex_str segs).
Definition v6_str (o : bytes) : bytes :=
  match to_ipv4_mapped o with
  | Some v4 => str "::ffff:" ++ v4_str v4
  | None =>
      let segs := segments o in
      let '(start, len) := zero_run segs 0 (0, 0)%nat (0, 0)%nat in
      if (1 <? len)%nat then subslice (take start segs) ++ str "::" ++ subslice (drop (start + len) segs)
      else subslice segs
  end.
Definition ip_str (ip : IpAddr) : bytes := match ip with V4 o => v4_str o | V6 o => v6_str o end.
Definition sock_str (a : SocketAddr) : bytes :=
  match sa_ip a with
  | V4 o => v4_str o ++ [58] ++ dec_str (sa_port a)
  | V6 o => [91] ++ v6_str o ++ (if sa_scope a =? 0 then [] else [37] ++ dec_str (sa_scope a)) ++ [93; 58]
            ++ dec_str (sa_port a)
  end.

(** ** Examples from the standard library's documentation *)

Example parse_v4_ex : parse_ip (str "192.168.1.1") = Some (V4 [192; 168; 1; 1]).
Proof. reflexivity. Qed.
Example parse_v4_octal_ex : parse_ip (str "192.168.01.1") = None.
Proof. reflexivity. Qed.
Example parse_v6_ex : parse_ip (str "::1") = Some (V6 (replicate 15 0 ++ [1])).
Proof. reflexivity. Qed.
Example parse_v6_mapped_ex :
  parse_ip (str "::ffff:1.2.3.4") = Some (V6 (replicate 10 0 ++ [255; 255; 1; 2; 3; 4])).
Proof. reflexivity. Qed.
Example parse_v6_full_ex :
  parse_ip (str "2606:4700:d0::a29f:c001") =
  Some (V6 [0x26; 6; 0x47; 0; 0; 0xd0; 0; 0; 0; 0; 0; 0; 0xa2; 0x9f; 0xc0; 1]).
Proof. reflexivity. Qed.
Example parse_sock_ex :
  parse_socket_addr (str "[::1]:443") = Some (sock_new (V6 (replicate 15 0 ++ [1])) 443).
Proof. reflexivity. Qed.
Example parse_sock_port_ex : parse_socket_addr (str "1.2.3.4:65536") = None.
Proof. reflexivity. Qed.

Example v6_str_ex :
  v6_str [0x26; 6; 0x47; 0; 0; 0xd0; 0; 0; 0; 0; 0; 0; 0xa2; 0x9f; 0xc0; 1] = str "2606:4700:d0::a29f:c001".
Proof. reflexivity. Qed.
Example v6_str_mapped_ex : v6_str (replicate 10 0 ++ [255; 255; 1; 2; 3; 4]) = str "::ffff:1.2.3.4".
Proof. reflexivity. Qed.
Example sock_str_ex : sock_str (sock_new (V6 (replicate 15 0 ++ [1])) 443) = str "[::1]:443".
Proof. reflexivity. Qed.

(** ** Lemmas *)

Lemma take_while_app p s x y :
  take_while p s = (x, y) -> s = x ++ y /\ Forall (fun b => p b = true) x.
Proof.
  revert x y. induction s as [|b r IH]; intros x y; simpl; [by intros [= <- <-]|].
  destruct (p b) eqn:E; [|by intros [= <- <-]].
  destruct (take_while p r) as [x' y']. intros [= <- <-].
  destruct (IH x' y' eq_refl) as [-> ?]. split; [done|]. by constructor.
Qed.

Lemma take_while_spec p x c r :
  Forall (fun b => p b = true) x -> p c = false -> take_while p (x ++ c :: r) = (x, c :: r).
Proof.
  induction 1 as [|b x Hb _ IH]; intros Hc; simpl; [by rewrite Hc|]. rewrite Hb. by rewrite IH.
Qed.

Lemma take_while_all p x : Forall (fun b => p b = true) x -> take_while p x = (x, []).
Proof. induction 1 as [|b x Hb _ IH]; simpl; [done|]. rewrite Hb. by rewrite IH. Qed.

Lemma read_dec_bound max md zp s v r : read_dec max md zp s = Some (v, r) -> v <= max.
Proof.
  unfold read_dec. destruct (take_while _ s) as [[|d ds] r'] eqn:E; [done|].
  repeat case_match; try done; intros; simplify_eq; lia.
Qed.

Lemma digits_value_nonneg radix digit acc s v :
  0 <= radix -> 0 <= acc -> (forall b d, digit b = Some d -> 0 <= d) ->
  digits_value radix digit acc s = Some v -> 0 <= v.
Proof.
  intros Hr Ha Hd. revert acc Ha. induction s as [|b r IH]; intros acc Ha; simpl; [naive_solver|].
  destruct (digit b) as [d|] eqn:E; [|done]. apply IH. specialize (Hd _ _ E). nia.
Qed.

Lemma dec_digit_nonneg b d : dec_digit b = Some d -> 0 <= d.
Proof. unfold dec_digit, is_ascii_digit. case_match; intros; simplify_eq; lia. Qed.

Lemma read_dec_u8 md zp s v r : read_dec 255 md zp s = Some (v, r) -> is_u8 v.
Proof.
  intros H. pose proof (read_dec_bound _ _ _ _ _ _ H). unfold is_u8. split; [|lia].
  revert H. unfold read_dec. destruct (take_while _ s) as [[|d ds] r'] eqn:E; [done|].
  repeat case_match; try done; intros; simplify_eq;
    eapply (digits_value_nonneg 10 dec_digit 0); eauto using dec_digit_nonneg; lia.
Qed.

Lemma read_ipv4_ok s o r : read_ipv4 s = Some (o, r) -> length o = 4%nat /\ bytes_ok o.
Proof.
  unfold read_ipv4. intros H.
  repeat match goal with
  | H : opt_bind _ _ = Some _ |- _ => apply opt_bind_Some in H as ([? ?] & ? & H)
  | H : opt_bind _ _ = Some _ |- _ => apply opt_bind_Some in H as (? & ? & H)
  end. simplify_eq. split; [done|].
  repeat constructor; eapply read_dec_u8; eassumption.
Qed.

(** Whatever [parse::<Ipv4Addr>()] accepts is four octets. *)
Lemma parse_ipv4_ok s o : parse_ipv4 s = Some o -> length o = 4%nat /\ bytes_ok o.
Proof.
  unfold parse_ipv4, all_read. repeat case_match; try done. intros. simplify_eq.
  eauto using read_ipv4_ok.
Qed.

Lemma parse_uint_nonneg max s v : parse_uint max s = Some v -> 0 <= v.
Proof.
  unfold parse_uint. intros H. set (ds := match s with 43 :: ((_ :: _) as r) => r | _ => s end) in H.
  destruct ds; [done|]. destruct (digits_value _ _ _ _) eqn:E; [|done]. destruct (_ <=? _); [|done].
  simplify_eq. eapply digits_value_nonneg; [| | |exact E]; [lia|lia|apply dec_digit_nonneg].
Qed.

(** ** The text of an IPv4 socket address is read back *)

Definition not_digit_first (r : bytes) : Prop := match r with [] => True | c :: _ => is_ascii_digit c = false end.

Lemma take_digits v r : 0 <= v < 2 ^ 64 -> not_digit_first r ->
  take_while is_ascii_digit (dec_str v ++ r) = (dec_str v, r).
Proof.
  intros Hv Hr. destruct (dec_str_digits v Hv) as (_ & _ & Hd).
  destruct r as [|c r]; [rewrite app_nil_r; by apply take_while_all|by apply take_while_spec].
Qed.

(** A byte has at most three digits, and no leading zero. *)
Definition short_number (v : Z) : bool :=
  let s := dec_str v in
  bool_decide (length s <= 3)%nat &&
  match s with d :: ds => negb ((d =? 48) && negb (bool_decide (ds = []))) | [] => false end.
Lemma u8_short v : is_u8 v -> short_number v = true.
Proof.
  intros Hv. assert (forallb short_number (seqZ 0 256) = true) as Ha by (vm_compute; reflexivity).
  rewrite forallb_forall in Ha. apply Ha. apply list_elem_of_In, elem_of_seqZ. unfold is_u8 in Hv. lia.
Qed.

Lemma read_octet v r : is_u8 v -> not_digit_first r -> read_dec 255 (Some 3%nat) false (dec_str v ++ r) = Some (v, r).
Proof.
  intros Hv Hr. pose proof (u8_short v Hv) as Hs. unfold is_u8 in Hv. unfold read_dec.
  rewrite take_digits by (done || lia). destruct (dec_str_digits v ltac:(lia)) as (_ & Hd & _).
  unfold short_number in Hs. destruct (dec_str v) as [|d ds] eqn:E; [by apply andb_prop in Hs as [_ ?]|].
  apply andb_prop in Hs as [Hl Hz]. rewrite bool_decide_eq_true in Hl.
  rewrite bool_decide_eq_false_2 by lia. rewrite Hd. simpl negb at 1.
  rewrite andb_true_l. destruct ((d =? 48) && _); [done|]. by replace (v <=? 255) with true by lia.
Qed.

Lemma read_v4_str o r : length o = 4%nat -> bytes_ok o -> not_digit_first r -> read_ipv4 (v4_str o ++ r) = Some (o, r).
Proof.
  intros Hl Ho Hr. destruct o as [|a [|b [|c [|d [|]]]]]; try done.
  repeat (apply Forall_cons_iff in Ho as [? Ho]). unfold read_ipv4, v4_str. rewrite <- !app_assoc.
  do 3 (rewrite read_octet by done; simpl opt_bind; simpl read_char; cbv iota). by rewrite read_octet.
Qed.

Lemma read_port_str p : 0 <= p <= 65535 -> read_port (58 :: dec_str p) = Some (p, []).
Proof.
  intros Hp. unfold read_port. simpl read_char. cbn [opt_bind]. unfold read_dec.
  rewrite <- (app_nil_r (dec_str p)), take_digits by (done || lia).
  destruct (dec_str_digits p ltac:(lia)) as (Hn & Hd & _). destruct (dec_str p) eqn:E; [done|]. simpl negb.
  rewrite Hd. by replace (p <=? 65535) with true by lia.
Qed.

Lemma parse_sock_str_v4 o p : length o = 4%nat -> bytes_ok o -> 0 <= p <= 65535 ->
  parse_socket_addr (sock_str (sock_new (V4 o) p)) = Some (sock_new (V4 o) p).
Proof.
  intros Hl Ho Hp. unfold parse_socket_addr, sock_str, sock_new. simpl. rewrite read_v4_str by done.
  cbn [opt_bind]. by rewrite read_port_str.
Qed.
