(* ===== verification/Errors.v ===== *)
(** * The error type of the engine

    [SoildTunnelError] of error.rs.  The three constructors that wrap an error
    of another crate carry what the engine inspects of it: the kind and the
    operating-system code of an I/O error, the code of a QUIC or HTTP/3 one. *)

From S2P Require Import Prelude.
From Stdlib Require Import ZArith String List.
From stdpp Require Import base list numbers option decidable.
Open Scope Z_scope.

(** The [std::io::ErrorKind]s the engine tells apart. *)
Inductive ErrorKind : Type :=
| ConnectionRefused | ConnectionReset | ConnectionAborted | NotConnected | AddrNotAvailable
| BrokenPipe | WouldBlock | TimedOut | Interrupted | InvalidInput | InvalidData
| UnexpectedEof | NetworkUnreachable | HostUnreachable | PermissionDenied | NotFound | AddrInUse | OtherKind.
#[export] Instance ErrorKind_eq_dec : EqDecision ErrorKind.
Proof. solve_decision. Defined.

Record io_error : Type := mkIo { io_kind : ErrorKind; io_os : option Z }.

Inductive SoildTunnelError : Type :=
| Io (e : io_error)
| Quic (code : Z)
| H3 (code : Z)
| Tls (msg : bytes)
| Ech (msg : bytes)
| Masque (msg : bytes)
| NoCleanEndpoint
| IranianEgress
| Migrate
| CapsuleError (msg : bytes)
| Api (msg : bytes)
| IdentityRefused (msg : bytes)
| Cancelled
| Other (msg : bytes).

(** [crate::error::Result<T>]. *)
Definition result (A : Type) : Type := outcome SoildTunnelError A.

(** The texts of errors of other crates. *)
Class ErrorText : Type := {
  io_text : io_error -> bytes;
  quic_text : Z -> bytes;
  h3_text : Z -> bytes }.

(** [Display] of the error type, as its [#[error]] attributes say. *)
Definition error_str `{ErrorText} (e : SoildTunnelError) : bytes :=
  match e with
  | Io e => str "io: " ++ io_text e
  | Quic c => str "quic: " ++ quic_text c
  | H3 c => str "h3: " ++ h3_text c
  | Tls m => str "tls: " ++ m
  | Ech m => str "ech: " ++ m
  | Masque m => str "masque: " ++ m
  | NoCleanEndpoint => str "prober: no clean endpoint found"
  | IranianEgress => str "iranian egress, rescanning"
  | Migrate => str "migrate requested"
  | CapsuleError m => str "capsule: " ++ m
  | Api m => str "api: " ++ m
  | IdentityRefused m => str "identity refused: " ++ m
  | Cancelled => str "cancelled"
  | Other m => str "other: " ++ m
  end.

Definition no_error_text : ErrorText := {| io_text _ := []; quic_text _ := []; h3_text _ := [] |}.
