(* ===== verification/Channels.v ===== *)
(** * Bounded channels

    [tokio::sync::mpsc] channels as the engine's loops use them: [try_send] on
    the sender's side.  The queue is what the receiver has not taken yet. *)

From S2P Require Import Prelude.
From Stdlib Require Import ZArith List.
From stdpp Require Import base list numbers option decidable.
Open Scope Z_scope.

Record Chan (A : Type) : Type := mkChan { ch_queue : list A; ch_cap : nat; ch_open : bool }.
Arguments mkChan {A}.
Arguments ch_queue {A}.
Arguments ch_cap {A}.
Arguments ch_open {A}.

Inductive send_result : Type := Sent | Full | Closed.
Definition try_send {A : Type} (c : Chan A) (x : A) : send_result * Chan A :=
  if negb (ch_open c) then (Closed, c)
  else if (ch_cap c <=? length (ch_queue c))%nat then (Full, c)
  else (Sent, mkChan (ch_queue c ++ [x]) (ch_cap c) (ch_open c)).

(** Nothing is ever lost or reordered in a channel: a send that succeeds puts
    the value behind all others, one that does not leaves the queue alone. *)
Lemma try_send_queue {A} (c : Chan A) (x : A) :
  ch_queue (try_send c x).2 = ch_queue c ++ match (try_send c x).1 with Sent => [x] | _ => [] end.
Proof. unfold try_send. repeat case_match; simpl; by rewrite ?app_nil_r. Qed.
