(* ===== verification/QRanges.v ===== *)
(** * Sets of ranges

    Models ranges.rs of quiche: [RangeSet], the sorted set of ranges the
    transport keeps for packet numbers to acknowledge and for the acknowledged
    part of a stream.  A few ranges are kept in a vector, more in a
    [BTreeMap], and a set moves between the two; [rs_spec] is what an insertion
    does to the sorted list of ranges in both.  A [BTreeMap] is the list of its
    entries in the order of the keys.  [Panic] is an index out of range. *)

From S2P Require Import Prelude.
From Stdlib Require Import ZArith Lia ZifyBool.
From stdpp Require Import base list numbers option decidable.
Open Scope Z_scope.

Abbreviation range := (Z * Z)%type.
#[local] Abbreviation last := list.last.

Definition MAX_INLINE_CAPACITY : Z := 4.
Definition MIN_TO_INLINE : Z := 2.

(** ** The vector *)

(** The second loop: the range at [pos] runs from [s] to [end_] by now. *)
Fixpoint inline_merge (s end_ : Z) (rest : list range) : list range :=
  match rest with
  | [] => [(s, end_)]
  | (s', e') :: tail => if end_ <? s' then (s, end_) :: rest else inline_merge s (Z.max e' end_) tail
  end.

(** The first loop: [before] are the ranges in front of [pos]. *)
Fixpoint inline_place (capacity start end_ : Z) (before rest : list range) : outcome unit (list range) :=
  match rest with
  | (s, e) :: tail =>
      if e <? start then inline_place capacity start end_ (before ++ [(s, e)]) tail
      else if end_ <? s then
        if zlen (before ++ rest) =? capacity then
          match before with
          | [] => Panic
          | _ :: before => Ok (before ++ (start, end_) :: rest)
          end
        else Ok (before ++ (start, end_) :: rest)
      else
        let s := if start <? s then start else s in
        if e <? end_ then Ok (before ++ inline_merge s end_ tail) else Ok (before ++ (s, e) :: tail)
  | [] =>
      if zlen before =? capacity then
        match before with [] => Panic | _ :: before => Ok (before ++ [(start, end_)]) end
      else Ok (before ++ [(start, end_)])
  end.
Definition inline_insert (capacity : Z) (inner : list range) (item : range) : outcome unit (list range) :=
  inline_place capacity item.1 item.2 [] inner.

Fixpoint inline_remove_until (largest : Z) (inner : list range) : list range :=
  match inner with
  | [] => []
  | (s, e) :: tail =>
      if e <=? largest then inline_remove_until largest tail
      else
        let s := Z.max (as_u64 (largest + 1)) s in
        if s =? e then tail else (s, e) :: tail
  end.

(** ** The map *)

Fixpoint bt_insert (k v : Z) (m : list range) : list range :=
  match m with
  | [] => [(k, v)]
  | (k', v') :: tail =>
      if k <? k' then (k, v) :: m else if k =? k' then (k, v) :: tail else (k', v') :: bt_insert k v tail
  end.
Definition bt_remove (k : Z) (m : list range) : list range := List.filter (fun r => negb (r.1 =? k)) m.

Definition prev_to (m : list range) (item : Z) : option range := last (List.filter (fun r => r.1 <=? item) m).
Definition next_to (m : list range) (item : Z) : option range := list.head (List.filter (fun r => item <=? r.1) m).

Definition range_overlaps (r other : range) : bool :=
  (r.1 <=? other.1) && (other.1 <=? r.2) || (r.1 <=? other.2) && (other.2 <=? r.2).
Definition range_contains (r : range) (x : Z) : bool := (r.1 <=? x) && (x <? r.2).

(** The loop over the ranges that follow; it removes one in every turn. *)
Fixpoint btree_absorb (fuel : nat) (item : range) (start end_ : Z) (m : list range) : outcome unit (list range * range) :=
  match fuel with
  | O => OutOfFuel
  | S fuel =>
      match next_to m start with
      | None => Ok (m, (start, end_))
      | Some r =>
          if range_contains item r.1 && range_contains item r.2 then btree_absorb fuel item start end_ (bt_remove r.1 m)
          else if negb (range_overlaps r item) then Ok (m, (start, end_))
          else btree_absorb fuel item (Z.min start r.1) (Z.max end_ r.2) (bt_remove r.1 m)
      end
  end.

Definition btree_insert (capacity : Z) (m : list range) (item : range) : outcome unit (list range) :=
  let '(m, (start, end_)) :=
    match prev_to m item.1 with
    | Some r => if range_overlaps r item then (bt_remove r.1 m, (Z.min item.1 r.1, Z.max item.2 r.2)) else (m, item)
    | None => (m, item)
    end in
  let! '(m, (start, end_)) := btree_absorb (S (length m)) item start end_ m in
  let m := if capacity <=? zlen m then tail m else m in
  Ok (bt_insert start end_ m).

(** A range that starts at or below [largest] is removed, and what it has above
    is inserted again. *)
Fixpoint btree_trim (capacity largest : Z) (ranges m : list range) : outcome unit (list range) :=
  match ranges with
  | [] => Ok m
  | r :: ranges =>
      let m := bt_remove r.1 m in
      let! m := if as_u64 (largest + 1) <? r.2 then btree_insert capacity m (as_u64 (largest + 1), r.2) else Ok m in
      btree_trim capacity largest ranges m
  end.
Definition btree_remove_until (capacity largest : Z) (m : list range) : outcome unit (list range) :=
  btree_trim capacity largest (List.filter (fun r => r.1 <=? largest) m) m.

(** ** The set *)

Inductive RangeSet : Type :=
| Inline (inner : list range) (capacity : Z)
| BTree (inner : list range) (capacity : Z).

Definition rs_new (capacity : Z) : RangeSet := Inline [] capacity.
Definition rs_default `{Target} : RangeSet := Inline [] usize_max.
Definition rs_iter (t : RangeSet) : list range := match t with Inline l _ | BTree l _ => l end.
Definition rs_capacity (t : RangeSet) : Z := match t with Inline _ c | BTree _ c => c end.
Definition rs_len (t : RangeSet) : Z := zlen (rs_iter t).
Definition rs_last (t : RangeSet) : option Z := option_map (fun r => r.2 - 1) (last (rs_iter t)).

Definition fixup (t : RangeSet) : RangeSet :=
  match t with
  | Inline l c => if zlen l =? MAX_INLINE_CAPACITY then BTree l c else t
  | BTree l c => if zlen l <=? MIN_TO_INLINE then Inline l c else t
  end.
Definition rs_insert (t : RangeSet) (item : range) : outcome unit RangeSet :=
  match t with
  | Inline l c => let! l := inline_insert c l item in Ok (fixup (Inline l c))
  | BTree l c => let! l := btree_insert c l item in Ok (fixup (BTree l c))
  end.
Definition rs_remove_until (t : RangeSet) (largest : Z) : outcome unit RangeSet :=
  match t with
  | Inline l c => Ok (fixup (Inline (inline_remove_until largest l) c))
  | BTree l c => let! l := btree_remove_until c largest l in Ok (fixup (BTree l c))
  end.
Definition push_item (t : RangeSet) (item : Z) : outcome unit RangeSet := rs_insert t (item, as_u64 (item + 1)).

(** [PartialEq<Range<u64>>]. *)
Definition rs_eq_range (t : RangeSet) (other : range) : bool :=
  match rs_iter t with [r] => bool_decide (r = other) | _ => false end.

(** ** The specification

    In a sorted list the ranges before the new one, those it touches and those
    after it are three consecutive pieces. *)

Definition below (item r : range) : bool := r.2 <? item.1.
Definition above (item r : range) : bool := item.2 <? r.1.
Definition touched (item r : range) : bool := negb (below item r) && negb (above item r).
Definition hull (item : range) (l : list range) : range :=
  (foldr (fun r => Z.min r.1) item.1 l, foldr (fun r => Z.max r.2) item.2 l).

(** The union with one range; when there is no room for a new range, the first
    one gives way. *)
Definition rs_spec (capacity : Z) (l : list range) (item : range) : list range :=
  let mid := List.filter (touched item) l in
  let l := if is_empty mid && (zlen l =? capacity) then tail l else l in
  List.filter (below item) l ++ hull item mid :: List.filter (above item) l.

(** Sorted, apart from each other, each the right way round, and above [b]. *)
Fixpoint wf_above (b : Z) (l : list range) : Prop :=
  match l with [] => True | r :: l => b < r.1 /\ r.1 <= r.2 /\ wf_above r.2 l end.
Definition ranges_wf (l : list range) : Prop := wf_above (-1) l.

Definition member (l : list range) (x : Z) : Prop := Exists (fun r => r.1 <= x < r.2) l.

(** ** The three pieces of a sorted list *)

Lemma wf_weaken b c l : c <= b -> wf_above b l -> wf_above c l.
Proof. destruct l; simpl; [done|]. intros ? (? & ? & ?). split_and!; try done; lia. Qed.

(** The largest end of [l], or [b]. *)
Fixpoint last_end (b : Z) (l : list range) : Z := match l with [] => b | r :: l => last_end r.2 l end.
Lemma last_end_ge b l : wf_above b l -> b <= last_end b l.
Proof.
  revert b. induction l as [|r l IH]; intros b H; [done|]. simpl.
  destruct H as (? & ? & H). specialize (IH _ H). lia.
Qed.
Lemma wf_app b l k : wf_above b (l ++ k) <-> wf_above b l /\ wf_above (last_end b l) k.
Proof.
  revert b. induction l as [|r l IH]; intros b; simpl; [tauto|].
  rewrite IH. tauto.
Qed.
Lemma wf_starts b l : wf_above b l -> Forall (fun r => b < r.1 /\ r.1 <= r.2) l.
Proof.
  revert b. induction l as [|r l IH]; intros b; simpl; [done|]. intros (? & ? & H).
  constructor; [lia|]. apply IH in H. eapply Forall_impl; [|exact H]. simpl. lia.
Qed.
Lemma wf_ends b l : wf_above b l -> Forall (fun r => r.2 <= last_end b l) l.
Proof.
  revert b. induction l as [|r l IH]; intros b; [done|]. simpl. intros (? & ? & H).
  constructor; [by apply last_end_ge|by apply IH].
Qed.

(** A sorted list around a range: [lo] below it, [mid] touching it, [hi] above. *)
Record pieces (item : range) (l lo mid hi : list range) : Prop := mkPieces {
  pc_eq : l = lo ++ mid ++ hi;
  pc_lo : Forall (fun r => r.2 < item.1) lo;
  pc_mid : Forall (fun r => item.1 <= r.2 /\ r.1 <= item.2) mid;
  pc_hi : Forall (fun r => item.2 < r.1) hi
}.

Lemma pieces_exist b item l : item.1 <= item.2 -> wf_above b l -> exists lo mid hi, pieces item l lo mid hi.
Proof.
  intros Hi. revert b. induction l as [|r l IH]; intros b.
  - exists [], [], []. by split.
  - intros (? & ? & H). destruct (IH _ H) as (lo & mid & hi & [-> Hlo Hmid Hhi]).
    apply wf_starts in H. rewrite !Forall_app in H. destruct H as (Ha & Hb & Hc).
    destruct (decide (r.2 < item.1)); [|destruct (decide (item.2 < r.1))].
    + exists (r :: lo), mid, hi. split; [done|by constructor|done|done].
    + destruct lo as [|x lo]; [|apply Forall_cons_iff in Hlo as [? _], Ha as [? _]; lia].
      destruct mid as [|x mid]; [|apply Forall_cons_iff in Hmid as [? _], Hb as [? _]; lia].
      exists [], [], (r :: hi). split; [done|done|done|by constructor].
    + destruct lo as [|x lo]; [|apply Forall_cons_iff in Hlo as [? _], Ha as [? _]; lia].
      exists [], (r :: mid), hi. split; [done|done| |done]. constructor; [lia|done].
Qed.

Lemma filter_all {A} (f : A -> bool) l : Forall (fun x => f x = true) l -> List.filter f l = l.
Proof. induction 1 as [|x l E _ IH]; simpl; [done|]. by rewrite E, IH. Qed.
Lemma filter_none {A} (f : A -> bool) l : Forall (fun x => f x = false) l -> List.filter f l = [].
Proof. induction 1 as [|x l E _ IH]; simpl; [done|]. by rewrite E. Qed.
Ltac all_of H := eapply Forall_impl; [|exact H]; unfold touched, below, above; simpl; lia.

(** [rs_spec] on a list given by its pieces. *)
Lemma spec_pieces capacity item l lo mid hi : item.1 <= item.2 -> ranges_wf l -> pieces item l lo mid hi ->
  rs_spec capacity l item =
    (if is_empty mid && (zlen l =? capacity) then
       match lo with [] => hull item mid :: tail hi | _ :: lo => lo ++ hull item mid :: hi end
     else lo ++ hull item mid :: hi).
Proof.
  intros Hi Hw [-> Hlo Hmid Hhi]. unfold rs_spec.
  assert (Forall (fun r => r.1 <= r.2) (lo ++ mid ++ hi)) as Hs by (eapply Forall_impl; [|apply (wf_starts _ _ Hw)]; simpl; tauto).
  rewrite !Forall_app in Hs. destruct Hs as (Sl & Sm & Sh).
  assert (forall lo' hi', Forall (fun r => r.2 < item.1) lo' -> Forall (fun r => r.1 <= r.2) lo' ->
    Forall (fun r => item.2 < r.1) hi' -> Forall (fun r => r.1 <= r.2) hi' ->
    List.filter (below item) (lo' ++ mid ++ hi') = lo' /\ List.filter (above item) (lo' ++ mid ++ hi') = hi' /\
    List.filter (touched item) (lo' ++ mid ++ hi') = mid) as G.
  { intros lo' hi' A1 A2 A3 A4. rewrite !List.filter_app. pose proof (Forall_and A1 A2) as A.
    pose proof (Forall_and A3 A4) as B. pose proof (Forall_and Hmid Sm) as M.
    split_and!.
    - rewrite (filter_all _ lo'), (filter_none _ mid), (filter_none _ hi'); [by rewrite app_nil_r|all_of B|all_of M|all_of A].
    - rewrite (filter_none _ lo'), (filter_none _ mid), (filter_all _ hi'); [done|all_of B|all_of M|all_of A].
    - rewrite (filter_none _ lo'), (filter_all _ mid), (filter_none _ hi'); [by rewrite app_nil_r|all_of B|all_of M|all_of A]. }
  destruct (G lo hi) as (E1 & E2 & E3); try done. rewrite E3.
  destruct (is_empty mid && _) eqn:Ef; [|by rewrite E1, E2].
  destruct mid as [|x mid]; [|done]. simpl. simpl in G.
  destruct lo as [|x lo]; simpl.
  - destruct hi as [|x hi]; simpl; [done|]. apply Forall_cons_iff in Hhi as [_ Hhi], Sh as [_ Sh].
    destruct (G [] hi) as (E4 & E5 & _); try done. simpl in E4, E5. by rewrite E4, E5.
  - apply Forall_cons_iff in Hlo as [_ Hlo], Sl as [_ Sl]. by destruct (G lo hi) as (-> & -> & _).
Qed.

Lemma fold_max_init (l : list range) a b : foldr (fun r => Z.max r.2) (Z.max a b) l = Z.max a (foldr (fun r => Z.max r.2) b l).
Proof. induction l as [|r l IH]; simpl; [done|]. rewrite IH. lia. Qed.
Lemma fold_max_last b l e : wf_above b l -> b <= e -> foldr (fun r => Z.max r.2) e l = Z.max e (last_end b l).
Proof.
  revert b e. induction l as [|r l IH]; intros b e; simpl; [lia|]. intros (? & ? & H) ?.
  rewrite <- fold_max_init, (IH r.2) by (done || lia). pose proof (last_end_ge _ _ H). lia.
Qed.
Lemma hull_sorted item b r l : wf_above b (r :: l) -> hull item (r :: l) = (Z.min item.1 r.1, Z.max item.2 (last_end r.2 l)).
Proof.
  intros (? & ? & H). unfold hull. simpl. f_equal.
  - apply wf_starts in H. induction H as [|x k [? _] _ IH]; simpl; lia.
  - rewrite <- fold_max_init, (fold_max_last r.2) by (done || lia). pose proof (last_end_ge _ _ H). lia.
Qed.

(** ** The vector does what is specified *)

Lemma place_lo c s e lo before rest : Forall (fun r => r.2 < s) lo ->
  inline_place c s e before (lo ++ rest) = inline_place c s e (before ++ lo) rest.
Proof.
  intros H. revert before. induction H as [|[a b] lo E _ IH]; intros before; simpl in *; [by rewrite app_nil_r|].
  rewrite (proj2 (Z.ltb_lt b s)) by done. rewrite IH. by rewrite <- app_assoc.
Qed.
Lemma merge_mid s e mid hi : Forall (fun r => r.1 <= e) mid -> Forall (fun r => foldr (fun r => Z.max r.2) e mid < r.1) hi ->
  inline_merge s e (mid ++ hi) = (s, foldr (fun r => Z.max r.2) e mid) :: hi.
Proof.
  revert e. induction mid as [|[a b] mid IH]; intros e Hm Hh; simpl in *.
  - destruct hi as [|[a b] hi]; [done|]. apply Forall_cons_iff in Hh as [? _]. simpl in *. by rewrite (proj2 (Z.ltb_lt e a)).
  - apply Forall_cons_iff in Hm as [? Hm]. simpl in *. rewrite (proj2 (Z.ltb_ge e a)) by done.
    rewrite <- fold_max_init in *. apply IH; [|done]. eapply Forall_impl; [|exact Hm]. simpl. lia.
Qed.

Definition no_room (c : Z) (item : range) (l : list range) : bool :=
  (zlen l =? c) && is_empty (List.filter (fun r => negb (above item r)) l).

Lemma inline_insert_spec c l item : item.1 <= item.2 -> ranges_wf l ->
  inline_insert c l item = if no_room c item l then Panic else Ok (rs_spec c l item).
Proof.
  intros Hi Hw. destruct (pieces_exist _ _ _ Hi Hw) as (lo & mid & hi & Hp). rewrite (spec_pieces c item l lo mid hi) by done.
  destruct Hp as [-> Hlo Hmid Hhi]. unfold inline_insert. rewrite place_lo by done. simpl.
  pose proof Hw as [Wl [Wm Wh]%wf_app]%wf_app. unfold no_room.
  assert (List.filter (fun r => negb (above item r)) (lo ++ mid ++ hi) = lo ++ mid) as ->.
  { apply wf_starts in Wl. rewrite !List.filter_app, (filter_all _ lo), (filter_all _ mid), (filter_none _ hi);
      [by rewrite app_nil_r| all_of Hhi| all_of Hmid|]. all_of (Forall_and Hlo Wl). }
  destruct mid as [|r mid]; simpl.
  - rewrite app_nil_r. replace (is_empty lo) with (bool_decide (lo = [])) by by destruct lo.
    destruct hi as [|[a b] hi]; simpl.
    + rewrite app_nil_r. destruct (zlen lo =? c), lo; done.
    + apply Forall_cons_iff in Hhi as [Hh _]. destruct Wh as (_ & ? & _). simpl in *.
      rewrite (proj2 (Z.ltb_ge b item.1)), (proj2 (Z.ltb_lt item.2 a)) by lia. destruct (_ =? c), lo; done.
  - apply Forall_cons_iff in Hmid as [[? ?] Hmid]. destruct r as [a b]. simpl in *.
    rewrite (proj2 (Z.ltb_ge b item.1)), (proj2 (Z.ltb_ge item.2 a)) by lia.
    replace (is_empty (lo ++ _)) with false by by destruct lo. rewrite andb_false_r. rewrite (hull_sorted _ (last_end (-1) lo)) by done.
    simpl. destruct Wm as (? & ? & Wm). pose proof (last_end_ge _ _ Wm).
    replace (if item.1 <? a then item.1 else a) with (Z.min item.1 a) by (destruct (item.1 <? a) eqn:?; lia).
    destruct (b <? item.2) eqn:E.
    + rewrite merge_mid; rewrite ?(fold_max_last b) by (done || lia); [done| |].
      * eapply Forall_impl; [|exact Hmid]. simpl. lia.
      * eapply Forall_impl; [|apply Forall_and; [exact Hhi|exact (wf_starts _ _ Wh)]]. simpl. lia.
    + destruct mid as [|x mid]; simpl.
      * by rewrite Z.max_r by lia.
      * apply Forall_cons_iff in Hmid as [? _]. destruct Wm as (? & _). lia.
Qed.

(** ** The map does what is specified *)

Lemma filter_split {A} (f : A -> bool) l k : Forall (fun x => f x = true) l -> Forall (fun x => f x = false) k ->
  List.filter f (l ++ k) = l /\ List.filter f (k ++ l) = l.
Proof.
  intros. rewrite !List.filter_app, (filter_all f l), (filter_none f k) by done. by rewrite app_nil_r.
Qed.
Lemma prev_to_app x l k : Forall (fun r => r.1 <= x) l -> Forall (fun r => x < r.1) k -> prev_to (l ++ k) x = last l.
Proof. intros Hl Hk. unfold prev_to. rewrite (proj1 (filter_split (fun r => r.1 <=? x) l k ltac:(all_of Hl) ltac:(all_of Hk))). done. Qed.
Lemma next_to_app x l k : Forall (fun r => r.1 < x) l -> Forall (fun r => x <= r.1) k -> next_to (l ++ k) x = list.head k.
Proof. intros Hl Hk. unfold next_to. rewrite (proj2 (filter_split (fun r => x <=? r.1) k l ltac:(all_of Hk) ltac:(all_of Hl))). done. Qed.
Lemma bt_remove_app lo r k : Forall (fun x => x.1 < r.1) lo -> Forall (fun x => r.1 < x.1) k -> bt_remove r.1 (lo ++ r :: k) = lo ++ k.
Proof.
  intros Hl Hk. unfold bt_remove. rewrite List.filter_app. simpl. rewrite Z.eqb_refl. simpl.
  rewrite (filter_all _ lo), (filter_all _ k); [done|all_of Hk|all_of Hl].
Qed.
Lemma bt_insert_app s e lo hi : Forall (fun x => x.1 < s) lo -> Forall (fun x => s < x.1) hi ->
  bt_insert s e (lo ++ hi) = lo ++ (s, e) :: hi.
Proof.
  intros Hl Hh. induction Hl as [|[a b] lo ? Hl IH]; simpl in *.
  - destruct Hh as [|[a b] hi]; simpl in *; [done|]. by rewrite (proj2 (Z.ltb_lt s a)).
  - rewrite (proj2 (Z.ltb_ge s a)), (proj2 (Z.eqb_neq s a)), IH by lia. done.
Qed.

(** The loop takes up the touched ranges that follow, and no others. *)
Lemma absorb_spec item start lo hi : Forall (fun r => r.1 < start) lo -> Forall (fun r => item.2 < r.1) hi ->
  item.1 <= item.2 -> start <= item.1 -> forall mid b end_ fuel, wf_above b mid ->
  Forall (fun r => item.1 <= r.1 /\ r.1 <= item.2) mid -> Forall (fun r => last_end b mid < r.1) hi ->
  item.2 <= end_ -> (length mid < fuel)%nat ->
  btree_absorb fuel item start end_ (lo ++ mid ++ hi) = Ok (lo ++ hi, (start, foldr (fun r => Z.max r.2) end_ mid)).
Proof.
  intros Hlo Hhi Hi Hs mid. induction mid as [|r mid IH]; intros b end_ fuel Wm Hmid Hl He Hf; (destruct fuel as [|fuel]; [simpl in *; lia|]).
  - simpl. rewrite next_to_app by (done || all_of Hhi). destruct Hhi as [|r hi Hr Hhi]; [done|]. simpl.
    unfold range_contains, range_overlaps. rewrite (proj2 (Z.ltb_ge r.1 item.2)), !(proj2 (Z.leb_gt r.1 _)) by lia.
    rewrite andb_false_r. done.
  - apply Forall_cons_iff in Hmid as [? Hmid]. destruct Wm as (? & ? & Wm).
    assert (Forall (fun x => r.1 < x.1) (mid ++ hi)) as Hk.
    { apply Forall_app. split; [pose proof (wf_starts _ _ Wm) as Ws; all_of Ws|]. simpl in Hl. pose proof (last_end_ge _ _ Wm). all_of Hl. }
    cbn [btree_absorb app]. rewrite next_to_app; [|done|constructor; [lia|all_of Hk]]. cbn [list.head].
    rewrite bt_remove_app; [|all_of Hlo|done]. simpl in Hl, Hf. cbn [foldr].
    rewrite <- fold_max_init. unfold range_contains, range_overlaps.
    destruct (decide (r.2 < item.2)).
    + rewrite (proj2 (Z.leb_le item.1 r.1)), (proj2 (Z.leb_le item.1 r.2)), (proj2 (Z.ltb_lt r.1 item.2)), (proj2 (Z.ltb_lt r.2 item.2)) by lia.
      simpl. rewrite (IH r.2), Z.max_r by (done || lia). done.
    + rewrite (proj2 (Z.ltb_ge r.2 item.2)), (proj2 (Z.leb_le r.1 item.2)), (proj2 (Z.leb_le item.2 r.2)) by lia.
      rewrite !andb_false_r, orb_true_r. simpl. rewrite Z.min_l, (IH r.2), Z.max_comm by (done || lia). done.
Qed.

Lemma wf_keys_below b l x : wf_above b l -> last_end b l < x -> Forall (fun r => r.1 < x) l.
Proof. intros H ?. eapply Forall_impl; [|apply (Forall_and (wf_starts _ _ H) (wf_ends _ _ H))]. simpl. lia. Qed.
Lemma last_In {A} (l : list A) x : last l = Some x -> In x l.
Proof. intros E. apply last_Some in E as [k ->]. apply in_or_app. right. by left. Qed.
Lemma store_spec c s e lo hi : Forall (fun x => x.1 < s) lo -> Forall (fun x => s < x.1) hi ->
  bt_insert s e (if c <=? zlen (lo ++ hi) then tail (lo ++ hi) else lo ++ hi) =
    if c <=? zlen (lo ++ hi) then match lo with [] => (s, e) :: tail hi | _ :: lo => lo ++ (s, e) :: hi end else lo ++ (s, e) :: hi.
Proof.
  intros Hl Hh. destruct (c <=? _); [|by apply bt_insert_app]. destruct Hl as [|r lo ? Hl]; simpl; [|by apply bt_insert_app].
  apply (bt_insert_app s e [] (tail hi)); [done|]. by destruct Hh.
Qed.

(** The range in front of the new one, when it touches it, is the first of the
    touched ones. *)
Lemma prev_spec item lo mid hi : item.1 <= item.2 -> ranges_wf (lo ++ mid ++ hi) -> pieces item (lo ++ mid ++ hi) lo mid hi ->
  match prev_to (lo ++ mid ++ hi) item.1 with
  | Some r => if range_overlaps r item then (bt_remove r.1 (lo ++ mid ++ hi), (Z.min item.1 r.1, Z.max item.2 r.2)) else (lo ++ mid ++ hi, item)
  | None => (lo ++ mid ++ hi, item)
  end = match mid with
        | r :: mid => if r.1 <=? item.1 then (lo ++ mid ++ hi, (r.1, Z.max item.2 r.2)) else (lo ++ (r :: mid) ++ hi, item)
        | [] => (lo ++ hi, item)
        end.
Proof.
  intros Hi Hw [_ Hlo Hmid Hhi]. pose proof Hw as [Wl [Wm Wh]%wf_app]%wf_app.
  pose proof (wf_starts _ _ Wl) as Sl. pose proof (wf_starts _ _ Wh) as Sh.
  assert (forall k : list range, Forall (fun r => item.1 < r.1) k ->
    match prev_to (lo ++ k) item.1 with
    | Some r => if range_overlaps r item then (bt_remove r.1 (lo ++ k), (Z.min item.1 r.1, Z.max item.2 r.2)) else (lo ++ k, item)
    | None => (lo ++ k, item)
    end = (lo ++ k, item)) as Hn.
  { intros k Hk. rewrite prev_to_app; [|all_of (Forall_and Hlo Sl)|done]. destruct (last lo) as [r|] eqn:E; [|done].
    apply last_In in E. rewrite Forall_forall in Hlo. specialize (Hlo r E). unfold range_overlaps.
    rewrite (proj2 (Z.leb_gt item.1 r.2)), (proj2 (Z.leb_gt item.2 r.2)), !andb_false_r by lia. done. }
  destruct mid as [|r mid]; [apply Hn; all_of Hhi|]. apply Forall_cons_iff in Hmid as [? Hmid]. destruct Wm as (? & ? & Wm).
  pose proof (wf_starts _ _ Wm) as Sm. pose proof (last_end_ge _ _ Wm). simpl in Sh.
  destruct (r.1 <=? item.1) eqn:E.
  - change (lo ++ (r :: mid) ++ hi) with (lo ++ [r] ++ (mid ++ hi)). rewrite app_assoc.
    rewrite prev_to_app; [|apply Forall_app; split; [all_of (Forall_and Hlo Sl)|repeat constructor; lia]
                          |apply Forall_app; split; [all_of Sm|all_of Hhi]].
    rewrite last_snoc. unfold range_overlaps. rewrite E, (proj2 (Z.leb_le item.1 r.2)) by lia. simpl.
    rewrite <- app_assoc. simpl. rewrite bt_remove_app, Z.min_r; [done|lia|by eapply wf_keys_below|].
    apply Forall_app; split; [all_of Sm|all_of Sh].
  - apply Hn. constructor; [lia|]. apply Forall_app; split; [all_of Sm|all_of Hhi].
Qed.

Lemma take_in c item start end_ lo mid hi b : Forall (fun r => r.1 < start) lo -> Forall (fun r => item.2 < r.1) hi ->
  item.1 <= item.2 -> start <= item.1 -> wf_above b mid ->
  Forall (fun r => item.1 <= r.1 /\ r.1 <= item.2) mid -> Forall (fun r => last_end b mid < r.1) hi -> item.2 <= end_ ->
  (let! '(m, (start, end_)) := btree_absorb (S (length (lo ++ mid ++ hi))) item start end_ (lo ++ mid ++ hi) in
   let m := if c <=? zlen m then tail m else m in Ok (bt_insert start end_ m)) =
  let new := (start, foldr (fun r => Z.max r.2) end_ mid) in
  @Ok unit _ (if c <=? zlen (lo ++ hi) then match lo with [] => new :: tail hi | _ :: lo => lo ++ new :: hi end else lo ++ new :: hi).
Proof.
  intros ? Hhi. intros. rewrite (absorb_spec _ _ lo hi) with (mid := mid) (b := b); try done; [|rewrite !length_app; lia]. cbn [obind].
  rewrite store_spec; [done..|]. all_of Hhi.
Qed.

Lemma btree_insert_spec c l item : item.1 <= item.2 -> ranges_wf l -> zlen l <= c ->
  btree_insert c l item = Ok (rs_spec c l item).
Proof.
  intros Hi Hw Hc. destruct (pieces_exist _ _ _ Hi Hw) as (lo & mid & hi & Hp). rewrite (spec_pieces c item l lo mid hi) by done.
  pose proof (pc_eq _ _ _ _ _ Hp) as ->. unfold btree_insert. rewrite (prev_spec item lo mid hi) by done.
  destruct Hp as [_ Hlo Hmid Hhi]. pose proof Hw as [Wl [Wm Wh]%wf_app]%wf_app. pose proof (wf_starts _ _ Wl) as Sl.
  pose proof (wf_starts _ _ Wh) as Sh. autorewrite with slices in Hc. destruct item as [s e]. simpl in Hi, Hlo, Hhi, Hmid.
  destruct mid as [|r mid]; [|destruct Wm as (? & ? & Wm); pose proof (wf_starts _ _ Wm) as Sm; apply Forall_cons_iff in Hmid as [? Hmid];
    destruct (r.1 <=? s) eqn:E].
  - etransitivity; [apply (take_in c (s, e) s e lo [] hi (e - 1))|]; simpl; try done || lia; [all_of (Forall_and Hlo Sl)|all_of Hhi|].
    rewrite zlen_app in *. rewrite zlen_nil in Hc. by replace (c <=? zlen lo + zlen hi) with (zlen lo + zlen hi =? c) by lia.
  - cbn [fst snd]. rewrite E. etransitivity; [apply (take_in c (s, e) r.1 _ lo mid hi r.2)|]; simpl; try done || lia;
      [by eapply wf_keys_below|eapply Forall_impl; [|apply (Forall_and Hmid Sm)]; simpl; lia|all_of Sh|].
    rewrite zlen_app in *. rewrite zlen_cons in Hc. rewrite (proj2 (Z.leb_gt c (zlen lo + zlen hi))) by (pose proof (zlen_nonneg mid); lia).
    pose proof (last_end_ge _ _ Wm). rewrite (hull_sorted _ (last_end (-1) lo)), (fold_max_last r.2) by (done || lia).
    simpl. rewrite Z.min_r by lia. do 4 f_equal. lia.
  - cbn [fst snd]. rewrite E. etransitivity; [apply (take_in c (s, e) s _ lo (r :: mid) hi (last_end (-1) lo))|]; simpl; try done || lia.
    + all_of (Forall_and Hlo Sl).
    + constructor; [lia|]. eapply Forall_impl; [|apply (Forall_and Hmid Sm)]; simpl; lia.
    + all_of Sh.
    + rewrite zlen_app in *. rewrite zlen_cons in Hc. rewrite (proj2 (Z.leb_gt c (zlen lo + zlen hi))) by (pose proof (zlen_nonneg mid); lia).
      rewrite (hull_sorted _ (last_end (-1) lo)) by done. pose proof (last_end_ge _ _ Wm).
      simpl. rewrite <- fold_max_init, (fold_max_last r.2), Z.min_l by (done || lia). do 4 f_equal. lia.
Qed.

(** ** What is specified *)

Lemma member_app l k x : member (l ++ k) x <-> member l x \/ member k x.
Proof. apply Exists_app. Qed.
Lemma member_cons r l x : member (r :: l) x <-> r.1 <= x < r.2 \/ member l x.
Proof. apply Exists_cons. Qed.
Lemma member_nil x : member [] x <-> False.
Proof. apply Exists_nil. Qed.

(** A list whose ranges touch [item] and one another through it covers no more
    and no less than its hull, together with [item]. *)
Lemma hull_covers item l x : item.1 <= item.2 -> Forall (fun r => item.1 <= r.2 /\ r.1 <= item.2 /\ r.1 <= r.2) l ->
  (hull item l).1 <= x < (hull item l).2 <-> item.1 <= x < item.2 \/ member l x.
Proof.
  intros Hi H. unfold hull. simpl.
  assert (forall k : list range, foldr (fun r => Z.min r.1) item.1 k <= item.1 /\ item.2 <= foldr (fun r => Z.max r.2) item.2 k) as Hb.
  { induction k as [|r k IH]; simpl; lia. }
  induction H as [|r l ? H IH]; simpl in *; [rewrite member_nil; lia|]. specialize (Hb l). rewrite member_cons.
  destruct IH as [IH1 IH2]. split.
  - intros ?. destruct (decide (r.1 <= x < r.2)); [tauto|]. destruct IH1; [lia|tauto..].
  - intros [Hx|[Hx|Hx]]; [lia|lia|]. specialize (IH2 (or_intror Hx)). lia.
Qed.

Lemma last_end_lt b l x : b < x -> Forall (fun r => r.2 < x) l -> last_end b l < x.
Proof. intros ? H. revert b H0. induction H; intros; simpl; [done|auto]. Qed.

Lemma wf_hull item lo mid hi : item.1 <= item.2 -> 0 <= item.1 -> ranges_wf (lo ++ mid ++ hi) -> pieces item (lo ++ mid ++ hi) lo mid hi ->
  ranges_wf (lo ++ hull item mid :: hi).
Proof.
  intros Hi H0 Hw [_ Hlo Hmid Hhi]. pose proof Hw as [Wl [Wm Wh]%wf_app]%wf_app. unfold ranges_wf. apply wf_app. split; [done|].
  pose proof (last_end_lt (-1) lo item.1 ltac:(lia) Hlo) as Hl. destruct mid as [|r mid].
  - split_and!; [done..|]. destruct hi as [|x hi]; [done|]. apply Forall_cons_iff in Hhi as [? _]. destruct Wh as (_ & ? & ?). by split_and!.
  - rewrite (hull_sorted _ (last_end (-1) lo)) by done. destruct Wm as (? & ? & Wm). pose proof (last_end_ge _ _ Wm).
    split_and!; simpl; [lia..|]. destruct hi as [|x hi]; [done|]. apply Forall_cons_iff in Hhi as [? _]. destruct Wh as (? & ? & ?).
    split_and!; [simpl in *; lia|done..].
Qed.
Lemma wf_tail b l : wf_above b l -> wf_above b (tail l).
Proof. destruct l as [|r l]; [done|]. intros (? & ? & H). simpl. eapply wf_weaken; [|exact H]. lia. Qed.

(** The specification is that of a set of numbers: with room for another range
    it is the union, without it the union with what is left after the first
    range has gone; the result is sorted and within the capacity. *)
Lemma spec_sound c l item : item.1 <= item.2 -> 0 <= item.1 -> 1 <= c -> ranges_wf l -> zlen l <= c ->
  ranges_wf (rs_spec c l item) /\ zlen (rs_spec c l item) <= c /\
  (zlen l < c -> forall x, member (rs_spec c l item) x <-> item.1 <= x < item.2 \/ member l x) /\
  forall x, member (rs_spec c l item) x -> item.1 <= x < item.2 \/ member l x.
Proof.
  intros Hi H0 Hc Hw Hl. destruct (pieces_exist _ _ _ Hi Hw) as (lo & mid & hi & Hp). rewrite (spec_pieces c item l lo mid hi) by done.
  pose proof (pc_eq _ _ _ _ _ Hp) as ->. pose proof (wf_hull _ _ _ _ Hi H0 Hw Hp) as Hu. destruct Hp as [_ Hlo Hmid Hhi].
  pose proof (wf_starts _ _ Hw) as Hs. rewrite !Forall_app in Hs. destruct Hs as (_ & Sm & _).
  assert (forall x, member (lo ++ hull item mid :: hi) x <-> item.1 <= x < item.2 \/ member (lo ++ mid ++ hi) x) as Hm.
  { intros x. rewrite !member_app, member_cons, hull_covers; [tauto|done|].
    eapply Forall_impl; [|apply (Forall_and Hmid Sm)]. simpl. lia. }
  rewrite !zlen_app in *. destruct (is_empty mid && _) eqn:E.
  - destruct mid as [|r mid]; [|done]. unfold hull in *. rewrite zlen_nil in *. simpl in *. destruct lo as [|r lo]; simpl in *.
    + split_and!; [|destruct hi|lia|].
      * destruct Hu as (? & ? & Hu). by split_and!; [..|apply wf_tail].
      * done.
      * simpl. rewrite ?zlen_cons, ?zlen_nil in *. lia.
      * intros x. specialize (Hm x). rewrite !member_cons in *. destruct hi; simpl; rewrite ?member_cons; tauto.
    + split_and!; [|rewrite zlen_app, !zlen_cons in *; lia|lia|].
      * destruct Hu as (? & ? & Hu). eapply wf_weaken; [|exact Hu]. lia.
      * intros x ?. apply Hm. rewrite member_cons. tauto.
  - split_and!; [done| |done|intros x; apply Hm]. rewrite !zlen_app, zlen_cons.
    destruct mid; [|rewrite zlen_cons in *; pose proof (zlen_nonneg mid)]; simpl in *; rewrite ?zlen_nil in *; lia.
Qed.

(** What lies above [largest]. *)
Definition trim_spec (largest : Z) (l : list range) : list range :=
  omap (fun r => if r.2 <=? largest + 1 then None else Some (Z.max (largest + 1) r.1, r.2)) l.
Definition solid (l : list range) : Prop := Forall (fun r => r.1 < r.2) l.

Lemma trim_above largest l : Forall (fun r => largest < r.1) l -> solid l -> trim_spec largest l = l.
Proof.
  intros H Hs. induction (Forall_and H Hs) as [|[a b] l [] _ IH]; [done|]. simpl in *.
  inversion_clear H. inversion_clear Hs. rewrite (proj2 (Z.leb_gt b (largest + 1))), IH, Z.max_r by (done || lia). done.
Qed.
Lemma trim_gone largest l k : Forall (fun r => r.2 <= largest + 1) l -> trim_spec largest (l ++ k) = trim_spec largest k.
Proof. induction 1 as [|[a b] l ? _ IH]; [done|]. simpl in *. by rewrite (proj2 (Z.leb_le b (largest + 1))). Qed.

Lemma inline_trim largest b l : 0 <= largest < 2 ^ 64 - 1 -> wf_above b l -> solid l ->
  inline_remove_until largest l = trim_spec largest l.
Proof.
  intros Hl. revert b. induction l as [|[x e] l IH]; intros b Hw Hs; [done|]. destruct Hw as (? & ? & Hw).
  apply Forall_cons_iff in Hs as [? Hs]. simpl in *. unfold as_u64. rewrite Z.mod_small by lia. pose proof (wf_starts _ _ Hw) as Ss.
  destruct (e <=? largest) eqn:E1; [rewrite (proj2 (Z.leb_le e (largest + 1))) by lia; by eapply IH|].
  rewrite trim_above by (done || all_of Ss). destruct (e <=? largest + 1) eqn:E2.
  - by rewrite (proj2 (Z.eqb_eq _ e)) by lia.
  - by rewrite (proj2 (Z.eqb_neq _ e)) by lia.
Qed.

Lemma btree_trim_ok c largest lo hi b : 0 <= largest < 2 ^ 64 - 1 -> wf_above b (lo ++ hi) -> -1 <= b -> solid (lo ++ hi) -> zlen (lo ++ hi) <= c ->
  Forall (fun r => r.1 <= largest) lo -> Forall (fun r => largest < r.1) hi ->
  btree_trim c largest lo (lo ++ hi) = Ok (trim_spec largest (lo ++ hi)).
Proof.
  intros Hl. revert b. induction lo as [|r lo IH]; intros b Hw Hb Hs Hc Hlo Hhi; [simpl in *; by rewrite trim_above|].
  destruct Hw as (? & ? & Hw). apply Forall_cons_iff in Hs as [? Hs], Hlo as [? Hlo]. pose proof (wf_starts _ _ Hw) as Ss.
  assert (bt_remove r.1 ((r :: lo) ++ hi) = lo ++ hi) as Eb by (apply (bt_remove_app [] r (lo ++ hi)); [done|all_of Ss]).
  cbn [btree_trim]. rewrite Eb. clear Eb.
  simpl in *. unfold as_u64. rewrite Z.mod_small by lia. rewrite zlen_cons in Hc.
  destruct (largest + 1 <? r.2) eqn:E.
  - destruct lo as [|r' lo]; [|apply Forall_cons_iff in Hlo as [? _], Ss as [? _]; lia]. simpl in *.
    rewrite (proj2 (Z.leb_gt r.2 (largest + 1))), Z.max_l by lia.
    assert (ranges_wf hi) as Wh by (eapply wf_weaken; [|exact Hw]; lia).
    rewrite btree_insert_spec; [|simpl; lia|done|lia]. rewrite (spec_pieces _ _ hi [] [] hi); [|simpl; lia|done|split; by try all_of Ss].
    simpl. rewrite (proj2 (Z.eqb_neq (zlen hi) c)), trim_above by (done || lia). done.
  - rewrite (proj2 (Z.leb_le r.2 (largest + 1))) by lia. simpl. eapply IH; try done; lia.
Qed.
Lemma split_at largest b l : wf_above b l -> exists lo hi, l = lo ++ hi /\ Forall (fun r => r.1 <= largest) lo /\ Forall (fun r => largest < r.1) hi.
Proof.
  revert b. induction l as [|r l IH]; intros b; [by exists [], []|]. intros (? & ? & H). pose proof (wf_starts _ _ H) as Ss.
  destruct (decide (r.1 <= largest)).
  - destruct (IH _ H) as (lo & hi & -> & ? & ?). exists (r :: lo), hi. split_and!; [done|by constructor|done].
  - exists [], (r :: l). split_and!; [done..|constructor; [lia|all_of Ss]].
Qed.
Lemma btree_remove_ok c largest l : 0 <= largest < 2 ^ 64 - 1 -> ranges_wf l -> solid l -> zlen l <= c ->
  btree_remove_until c largest l = Ok (trim_spec largest l).
Proof.
  intros Hl Hw Hs Hc. destruct (split_at largest _ _ Hw) as (lo & hi & -> & Hlo & Hhi). unfold btree_remove_until.
  rewrite (proj1 (filter_split (fun r => r.1 <=? largest) lo hi ltac:(all_of Hlo) ltac:(all_of Hhi))). by eapply btree_trim_ok.
Qed.
Lemma trim_sound largest b l : wf_above b l -> solid l -> -1 <= b -> 0 <= largest ->
  wf_above b (trim_spec largest l) /\ solid (trim_spec largest l) /\ zlen (trim_spec largest l) <= zlen l /\
  forall x, member (trim_spec largest l) x <-> member l x /\ largest < x.
Proof.
  revert b. induction l as [|[s e] l IH]; intros b Hw Hs Hb Hl; [split_and!; [done|constructor|simpl; lia|intros x; simpl; rewrite member_nil; tauto]|].
  destruct Hw as (? & ? & Hw). apply Forall_cons_iff in Hs as [? Hs]. simpl in *.
  destruct (IH e Hw Hs ltac:(lia) Hl) as (Iw & Is & Iz & Im). destruct (e <=? largest + 1) eqn:E.
  - rewrite zlen_cons. split_and!; [eapply wf_weaken; [|done]; lia|done|lia|]. intros x. rewrite Im, member_cons. simpl. intuition lia.
  - rewrite !zlen_cons. split; [simpl; split_and!; [lia|lia|exact Iw]|]. split; [constructor; [simpl; lia|exact Is]|]. split; [lia|]. intros x.
    rewrite !member_cons, Im. simpl. intuition lia.
Qed.

(** ** The set as a whole *)

Lemma spec_len c l item : item.1 <= item.2 -> ranges_wf l -> zlen (rs_spec c l item) <= zlen l + 1.
Proof.
  intros Hi Hw. destruct (pieces_exist _ _ _ Hi Hw) as (lo & mid & hi & Hp). rewrite (spec_pieces c item l lo mid hi) by done.
  destruct Hp as [-> _ _ _]. pose proof (zlen_nonneg mid).
  destruct (is_empty mid && _), lo as [|r lo]; rewrite ?zlen_app, ?zlen_cons, ?zlen_app, ?zlen_nil; try destruct hi; simpl; rewrite ?zlen_cons, ?zlen_nil; lia.
Qed.
Lemma spec_solid c l item : item.1 < item.2 -> solid l -> solid (rs_spec c l item).
Proof.
  intros Hi Hs. unfold rs_spec, solid in *.
  assert (forall k : list range, foldr (fun r => Z.min r.1) item.1 k <= item.1 /\ item.2 <= foldr (fun r => Z.max r.2) item.2 k) as Hb.
  { induction k as [|r k IH]; simpl; lia. }
  assert (Forall (fun r : range => r.1 < r.2) (if is_empty (List.filter (touched item) l) && (zlen l =? c) then tail l else l)) as Ht
    by (destruct (_ && _); [destruct Hs|]; done).
  apply Forall_app. split; [|constructor]; [..|specialize (Hb (List.filter (touched item) l)); unfold hull; simpl; lia|];
    (rewrite Forall_forall in *; intros x [Hx _]%filter_In; by apply Ht).
Qed.

(** Which representation is used: few ranges in the vector, more in the map. *)
Definition rs_ok (t : RangeSet) : Prop :=
  ranges_wf (rs_iter t) /\ MAX_INLINE_CAPACITY <= rs_capacity t /\ rs_len t <= rs_capacity t /\
  match t with Inline l _ => zlen l < MAX_INLINE_CAPACITY | BTree l _ => MIN_TO_INLINE < zlen l end.

Lemma fixup_iter t : rs_iter (fixup t) = rs_iter t /\ rs_capacity (fixup t) = rs_capacity t.
Proof. destruct t; simpl; by case_match. Qed.
Lemma fixup_ok t : ranges_wf (rs_iter t) -> MAX_INLINE_CAPACITY <= rs_capacity t -> rs_len t <= rs_capacity t ->
  match t with Inline l _ => zlen l <= MAX_INLINE_CAPACITY | BTree _ _ => True end -> rs_ok (fixup t).
Proof.
  unfold rs_ok, rs_len, MAX_INLINE_CAPACITY, MIN_TO_INLINE in *. destruct t as [l c|l c]; simpl; intros; case_match; simpl; unfold MAX_INLINE_CAPACITY, MIN_TO_INLINE in *; split_and!; try done; lia.
Qed.

Lemma rs_insert_ok t item : rs_ok t -> item.1 <= item.2 -> 0 <= item.1 ->
  exists t', rs_insert t item = Ok t' /\ rs_ok t' /\ rs_capacity t' = rs_capacity t /\ rs_iter t' = rs_spec (rs_capacity t) (rs_iter t) item.
Proof.
  intros (Hw & Hm & Hl & Hr) Hi H0. unfold rs_len, MAX_INLINE_CAPACITY in *.
  destruct (spec_sound (rs_capacity t) (rs_iter t) item) as (Sw & Sl & _); try done; [lia|].
  destruct t as [l c|l c]; cbn [rs_iter rs_capacity rs_insert] in *.
  - rewrite inline_insert_spec by done. unfold no_room. rewrite (proj2 (Z.eqb_neq (zlen l) c)) by lia. cbn [andb obind].
    destruct (fixup_iter (Inline (rs_spec c l item) c)). eexists. split; [done|]. split; [|done].
    apply fixup_ok; try done. pose proof (spec_len c l item Hi Hw). unfold MAX_INLINE_CAPACITY. lia.
  - rewrite btree_insert_spec by done. cbn [obind]. destruct (fixup_iter (BTree (rs_spec c l item) c)).
    eexists. split; [done|]. split; [|done]. by apply fixup_ok.
Qed.
Lemma rs_remove_ok t largest : rs_ok t -> solid (rs_iter t) -> 0 <= largest < 2 ^ 64 - 1 ->
  exists t', rs_remove_until t largest = Ok t' /\ rs_ok t' /\ rs_capacity t' = rs_capacity t /\ rs_iter t' = trim_spec largest (rs_iter t).
Proof.
  intros (Hw & Hm & Hl & Hr) Hs H0. unfold rs_len in *.
  destruct (trim_sound largest (-1) (rs_iter t)) as (Tw & Ts & Tz & _); try done; [lia|].
  destruct t as [l c|l c]; cbn [rs_iter rs_capacity rs_remove_until] in *.
  - rewrite (inline_trim _ (-1)) by done. destruct (fixup_iter (Inline (trim_spec largest l) c)).
    eexists. split; [done|]. split; [|done]. apply fixup_ok; unfold rs_len; cbn [rs_iter rs_capacity]; done || lia.
  - rewrite btree_remove_ok by done. cbn [obind]. destruct (fixup_iter (BTree (trim_spec largest l) c)).
    eexists. split; [done|]. split; [|done]. apply fixup_ok; unfold rs_len; cbn [rs_iter rs_capacity]; done || lia.
Qed.

(** ** Histories of a set *)

Inductive rs_op : Type := OpInsert (start end_ : Z) | OpRemoveUntil (largest : Z).
Definition rs_step (t : RangeSet) (o : rs_op) : outcome unit RangeSet :=
  match o with OpInsert s e => rs_insert t (s, e) | OpRemoveUntil n => rs_remove_until t n end.
Fixpoint rs_run (t : RangeSet) (ops : list rs_op) : outcome unit RangeSet :=
  match ops with [] => Ok t | o :: ops => let! t := rs_step t o in rs_run t ops end.
Definition op_ok (o : rs_op) : Prop :=
  match o with OpInsert s e => 0 <= s < e | OpRemoveUntil n => 0 <= n < 2 ^ 64 - 1 end.

(** The numbers a history leaves in the set, when there is always room. *)
Definition in_step (o : rs_op) (P : Z -> Prop) (x : Z) : Prop :=
  match o with OpInsert s e => s <= x < e \/ P x | OpRemoveUntil n => P x /\ n < x end.
Definition in_history (ops : list rs_op) (P : Z -> Prop) : Z -> Prop := foldl (fun P o => in_step o P) P ops.
(** The same on sorted lists, with the first range giving way. *)
Definition spec_step (c : Z) (l : list range) (o : rs_op) : list range :=
  match o with OpInsert s e => rs_spec c l (s, e) | OpRemoveUntil n => trim_spec n l end.
Definition inserts (ops : list rs_op) : Z := zlen (List.filter (fun o => match o with OpInsert _ _ => true | _ => false end) ops).

Lemma spec_step_sound c l o : op_ok o -> 1 <= c -> ranges_wf l -> solid l -> zlen l <= c ->
  ranges_wf (spec_step c l o) /\ solid (spec_step c l o) /\ zlen (spec_step c l o) <= c /\
  zlen (spec_step c l o) <= zlen l + inserts [o] /\
  (zlen l < c -> forall x, member (spec_step c l o) x <-> in_step o (member l) x) /\
  forall x, member (spec_step c l o) x -> in_step o (member l) x.
Proof.
  intros Ho Hc Hw Hs Hl. destruct o as [s e|n]; simpl in *.
  - destruct (spec_sound c l (s, e)) as (? & ? & ? & ?); simpl; try done; try lia.
    pose proof (spec_len c l (s, e) ltac:(simpl; lia) Hw). split_and!; try done. apply spec_solid; [simpl; lia|done].
  - destruct (trim_sound n (-1) l) as (? & ? & ? & Hm); try done; try lia. assert (inserts [OpRemoveUntil n] = 0) by done.
    split_and!; try done; try lia. intros x ?. by apply Hm.
Qed.

Lemma run_spec ops t : rs_ok t -> solid (rs_iter t) -> Forall op_ok ops ->
  exists t', rs_run t ops = Ok t' /\ rs_ok t' /\ solid (rs_iter t') /\ rs_capacity t' = rs_capacity t /\ rs_iter t' = foldl (spec_step (rs_capacity t)) (rs_iter t) ops.
Proof.
  intros Hk Hs H. revert t Hk Hs. induction H as [|o ops Ho _ IH]; intros t Hk Hs; [by exists t|].
  pose proof Hk as (Hw & Hm & Hl & _). destruct (spec_step_sound (rs_capacity t) (rs_iter t) o) as (_ & Hs' & _); try done.
  { unfold MAX_INLINE_CAPACITY in Hm. lia. }
  assert (exists t', rs_step t o = Ok t' /\ rs_ok t' /\ rs_capacity t' = rs_capacity t /\ rs_iter t' = spec_step (rs_capacity t) (rs_iter t) o)
    as (t1 & E & Hk1 & Hc1 & Hi1).
  { destruct o; simpl in *; [apply rs_insert_ok; simpl; done || lia|by apply rs_remove_ok]. }
  destruct (IH t1) as (t2 & E2 & ? & ? & Hc2 & Hi2); [done|by rewrite Hi1|]. exists t2. simpl. rewrite E.
  split; [done|]. split; [done|]. split; [done|]. split; [congruence|]. by rewrite Hi2, Hi1, Hc1.
Qed.

Lemma in_history_mono ops (P Q : Z -> Prop) : (forall x, P x -> Q x) -> forall x, in_history ops P x -> in_history ops Q x.
Proof.
  revert P Q. induction ops as [|o ops IH]; intros P Q H x; simpl; [apply H|]. apply IH. intros y. destruct o; simpl; [|naive_solver].
  intros [?|?]; auto.
Qed.

Lemma history_sound c ops l : 1 <= c -> Forall op_ok ops -> ranges_wf l -> solid l -> zlen l <= c ->
  (forall x, member (foldl (spec_step c) l ops) x -> in_history ops (member l) x) /\
  (zlen l + inserts ops <= c -> forall x, in_history ops (member l) x -> member (foldl (spec_step c) l ops) x).
Proof.
  intros Hc H. revert l. induction H as [|o ops Ho _ IH]; intros l Hw Hs Hl; [done|]. simpl.
  destruct (spec_step_sound c l o) as (Sw & Ss & Sl & Sn & Se & Sm); try done. destruct (IH _ Sw Ss Sl) as [I1 I2].
  assert (inserts (o :: ops) = inserts [o] + inserts ops) as Ei by (unfold inserts; destruct o; simpl; rewrite ?zlen_cons, ?zlen_nil; lia).
  split; intros.
  - eapply in_history_mono; [|by apply I1]. done.
  - apply I2; [lia|]. eapply in_history_mono; [|eassumption]. intros y Hy.
    assert (0 <= inserts ops) by apply zlen_nonneg. destruct o as [s e|n]; simpl in *.
    + apply Se; [|done]. change (inserts [OpInsert s e]) with 1 in Ei. lia.
    + destruct (trim_sound n (-1) l) as (_ & _ & _ & Hm); try done; [lia|]. by apply Hm.
Qed.

(** C9: a set of ranges is the set of numbers its history says.  Whatever is
    inserted and removed, in either representation and across the changes
    between them, no operation fails, the ranges stay sorted, apart and within
    the capacity, and they are those of the specification on sorted lists;
    nothing is in the set that was not inserted or was removed, and as long as
    there were no more insertions than the capacity nothing is missing.  The
    capacity has to be four at least, as it is wherever a set is made. *)
Theorem range_set_refines c ops : MAX_INLINE_CAPACITY <= c -> Forall op_ok ops ->
  exists t, rs_run (rs_new c) ops = Ok t /\ ranges_wf (rs_iter t) /\ solid (rs_iter t) /\ rs_len t <= c /\
    rs_iter t = foldl (spec_step c) [] ops /\
    (forall x, member (rs_iter t) x -> in_history ops (fun _ => False) x) /\
    (inserts ops <= c -> forall x, in_history ops (fun _ => False) x -> member (rs_iter t) x).
Proof.
  intros Hc Ho. unfold MAX_INLINE_CAPACITY in Hc.
  assert (rs_ok (rs_new c)) as Hk by (unfold rs_ok, rs_len, MAX_INLINE_CAPACITY; simpl; rewrite zlen_nil; split_and!; done || lia).
  destruct (run_spec ops (rs_new c) Hk) as (t & E & (Hw & _ & Hl & _) & Hs & Hr & Hi); [constructor|done|].
  destruct (history_sound c ops []) as [H1 H2]; try done; [lia|constructor|rewrite zlen_nil; lia|]. simpl in Hi, Hr. rewrite <- Hi in *.
  exists t. rewrite Hr in Hl. rewrite zlen_nil in H2. split_and!; try done; [intros x Hx|intros Hn x Hx].
  - eapply in_history_mono; [|by apply H1]. intros y. by rewrite member_nil.
  - apply H2; [lia|]. eapply in_history_mono; [|exact Hx]. done.
Qed.
Lemma range_set_refines_witness :
  let ops := [OpInsert 10 12; OpInsert 20 25; OpInsert 0 3; OpInsert 40 41; OpInsert 2 11; OpRemoveUntil 21] in
  exists t, rs_run (rs_new 68) ops = Ok t /\ rs_iter t = [(22, 25); (40, 41)] /\ member (rs_iter t) 23.
Proof.
  intros ops. destruct (range_set_refines 68 ops) as (t & E & _ & _ & _ & Hi & _ & Hm).
  - unfold MAX_INLINE_CAPACITY. lia.
  - repeat constructor; simpl; lia.
  - exists t. split_and!; [exact E|exact Hi|]. apply Hm; [vm_compute; discriminate|]. simpl. lia.
Defined.

(** With a capacity of less than four a full set has nothing to give way when
    the new range comes first, and the insertion fails. *)
Lemma tiny_set_panics : rs_run (rs_new 2) [OpInsert 10 11; OpInsert 20 21; OpInsert 0 1] = Panic.
Proof. reflexivity. Qed.
