(* ===== verification/QBuffers.v ===== *)
(** * Buffers of the QUIC transport

    Models, of quiche: the error type (error.rs), a piece of a stream in a
    shared buffer (range_buf.rs), the receiver's flow control
    (flowcontrol.rs) and the queue of datagrams (dgram.rs).  Offsets of a stream
    are below 2^62 and lengths far below, so their sums are written without
    reduction; [Panic] is a failed assertion.  Instants are in microseconds. *)

From S2P Require Import Prelude.
From Stdlib Require Import ZArith Lia ZifyBool.
From stdpp Require Import base list numbers option decidable.
Open Scope Z_scope.

Inductive q_error : Type :=
| EDone | EBufferTooShort | EUnknownVersion | EInvalidFrame | EInvalidPacket | EInvalidState
| EInvalidStreamState (id : Z) | EInvalidTransportParam | ECryptoFail | ETlsFail | EFlowControl | EStreamLimit
| EStreamStopped (code : Z) | EStreamReset (code : Z) | EFinalSize | ECongestionControl | EIdLimit | EOutOfIdentifiers
| EKeyUpdate | ECryptoBufferExceeded | EInvalidAckRange | EOptimisticAckDetected | EInvalidDcidInitialization.
Abbreviation q_result A := (outcome q_error A).

(** ** Pieces of a stream *)

Record RangeBuf : Type := mkRangeBuf {
  rb_data : bytes; rb_start : Z; rb_pos : Z; rb_len_ : Z; rb_off_ : Z; rb_fin : bool
}.

Definition rb_from (buf : bytes) (off : Z) (fin : bool) : RangeBuf := mkRangeBuf buf 0 0 (zlen buf) off fin.
Definition rb_off (b : RangeBuf) : Z := rb_off_ b - rb_start b + rb_pos b.
Definition rb_len (b : RangeBuf) : Z := rb_len_ b - (rb_pos b - rb_start b).
Definition rb_max_off (b : RangeBuf) : Z := rb_off b + rb_len b.
Definition rb_is_empty (b : RangeBuf) : bool := rb_len b =? 0.
Definition rb_consume (count : Z) (b : RangeBuf) : RangeBuf :=
  mkRangeBuf (rb_data b) (rb_start b) (rb_pos b + count) (rb_len_ b) (rb_off_ b) (rb_fin b).

(** [split_off]: the first part, which stays, and the second, which is returned. *)
Definition rb_split_off (at_ : Z) (b : RangeBuf) : q_result (RangeBuf * RangeBuf) :=
  if rb_len_ b <? at_ then Panic
  else
    let cut := rb_start b + at_ in
    Ok (mkRangeBuf (rb_data b) (rb_start b) (Z.min (rb_pos b) cut) at_ (rb_off_ b) false,
        mkRangeBuf (rb_data b) cut (Z.max (rb_pos b) cut) (rb_len_ b - at_) (rb_off_ b + at_) (rb_fin b)).

(** [deref]. *)
Definition rb_bytes (b : RangeBuf) : bytes := zdrop (rb_pos b) (ztake (rb_start b + rb_len_ b) (rb_data b)).

(** The view is inside the buffer, and inside the stream. *)
Definition rb_wf (b : RangeBuf) : Prop :=
  0 <= rb_start b <= rb_pos b /\ rb_pos b <= rb_start b + rb_len_ b <= zlen (rb_data b) /\ rb_start b <= rb_off_ b.
(** The bytes of a stream [S] from [a] to [b]. *)
Definition slice (S : bytes) (a b : Z) : bytes := zdrop a (ztake b S).
(** A piece of the stream [S]. *)
Definition piece_of (S : bytes) (b : RangeBuf) : Prop :=
  rb_wf b /\ rb_max_off b <= zlen S /\ rb_bytes b = slice S (rb_off b) (rb_max_off b).

Lemma zlen_slice S a b : 0 <= a <= b -> b <= zlen S -> zlen (slice S a b) = b - a.
Proof. intros. unfold slice. autorewrite with slices. lia. Qed.
Lemma slice_take S a b n : 0 <= a -> 0 <= n -> a + n <= b -> ztake n (slice S a b) = slice S a (a + n).
Proof.
  intros. unfold slice, ztake, zdrop. rewrite take_drop_commute, take_take. do 2 f_equal. lia.
Qed.
Lemma slice_drop S a b n : 0 <= a -> 0 <= n -> zdrop n (slice S a b) = slice S (a + n) b.
Proof. intros. unfold slice, ztake, zdrop. rewrite drop_drop. f_equal. lia. Qed.
Lemma slice_app S a b c : 0 <= a <= b -> b <= c -> slice S a b ++ slice S b c = slice S a c.
Proof.
  intros. rewrite <- (ztake_zdrop (slice S a c) (b - a)), slice_take, slice_drop by lia. f_equal; f_equal; lia.
Qed.
Lemma slice_nil S a : slice S a a = [].
Proof. unfold slice, zdrop, ztake. apply drop_ge. rewrite length_take. lia. Qed.
Lemma slice_0 S n : slice S 0 n = ztake n S.
Proof. done. Qed.

(** Equal slices have equal parts. *)
Lemma slice_sub D S a b a' b' u v u' v' : slice D a b = slice S a' b' -> 0 <= a -> 0 <= a' -> a <= u <= v -> v <= b ->
  b' - a' = b - a -> u' - a' = u - a -> v' - a' = v - a -> slice D u v = slice S u' v'.
Proof.
  intros E ? ? ? ? ? ? ?. apply (f_equal (ztake (v - a))) in E. rewrite !slice_take in E by lia.
  apply (f_equal (zdrop (u - a))) in E. rewrite !slice_drop in E by lia.
  replace (a + (u - a)) with u in E by lia. replace (a' + (u - a)) with u' in E by lia.
  replace (a + (v - a)) with v in E by lia. by replace (a' + (v - a)) with v' in E by lia.
Qed.

Lemma zlen_rb_bytes b : rb_wf b -> zlen (rb_bytes b) = rb_len b.
Proof. unfold rb_wf, rb_bytes, rb_len. intros. autorewrite with slices. lia. Qed.
Lemma rb_off_nonneg b : rb_wf b -> 0 <= rb_off b /\ 0 <= rb_len b.
Proof. unfold rb_wf, rb_off, rb_len. lia. Qed.
Lemma piece_from S data off fin : 0 <= off -> data = slice S off (off + zlen data) -> off + zlen data <= zlen S ->
  piece_of S (rb_from data off fin).
Proof.
  intros H E ?. pose proof (zlen_nonneg data). unfold piece_of, rb_wf, rb_max_off, rb_off, rb_len, rb_bytes. simpl.
  split_and!; try lia. rewrite !Z.sub_0_r, !Z.add_0_r. rewrite ztake_all, zdrop_nonpos by lia. done.
Qed.

(** A piece that nothing was read of splits into its first bytes and the rest. *)
Lemma split_off_ok S at_ b : piece_of S b -> rb_pos b = rb_start b -> 0 <= at_ <= rb_len b ->
  exists h t, rb_split_off at_ b = Ok (h, t) /\ piece_of S h /\ piece_of S t /\ rb_pos h = rb_start h /\ rb_pos t = rb_start t /\
    rb_off h = rb_off b /\ rb_max_off h = rb_off b + at_ /\ rb_off t = rb_off b + at_ /\ rb_max_off t = rb_max_off b /\
    rb_fin t = rb_fin b /\ rb_fin h = false.
Proof.
  unfold piece_of, rb_wf, rb_max_off, rb_off, rb_len. intros (Hw & Hm & Hb) Hp Ha. unfold rb_split_off.
  rewrite (proj2 (Z.ltb_ge (rb_len_ b) at_)) by lia. do 2 eexists. split; [done|]. cbn [rb_data rb_start rb_pos rb_len_ rb_off_ rb_fin].
  rewrite Hp in *. rewrite Z.min_l, Z.max_r by lia. unfold rb_bytes in *. cbn [rb_data rb_start rb_pos rb_len_ rb_off_] in *.
  rewrite Hp in Hb. split_and!; try lia; try done.
  - eapply slice_sub; [exact Hb|lia..].
  - eapply slice_sub; [exact Hb|lia..].
Qed.
Lemma consume_ok S n b : piece_of S b -> 0 <= n <= rb_len b ->
  piece_of S (rb_consume n b) /\ rb_off (rb_consume n b) = rb_off b + n /\ rb_max_off (rb_consume n b) = rb_max_off b /\
  ztake n (rb_bytes b) = slice S (rb_off b) (rb_off b + n).
Proof.
  intros (Hw & Hm & Hb) Hn. unfold piece_of. pose proof (rb_off_nonneg b Hw). rewrite Hb. unfold rb_wf, rb_max_off, rb_off, rb_len in *.
  split_and!; simpl; try lia.
  - apply (slice_sub _ _ _ _ _ _ (rb_pos b + n) (rb_start b + rb_len_ b) (rb_off_ b - rb_start b + (rb_pos b + n))
      (rb_off_ b - rb_start b + (rb_pos b + n) + (rb_len_ b - (rb_pos b + n - rb_start b))) Hb); lia.
  - apply slice_take; lia.
Qed.

(** ** Flow control of a receiver *)

Definition WINDOW_INCREASE_FACTOR : Z := 2.
Definition WINDOW_TRIGGER_FACTOR : Z := 2.

Record FlowControl : Type := mkFlow {
  fc_consumed : Z; fc_max_data : Z; fc_window : Z; fc_max_window : Z; fc_last_update : option Z
}.
Definition fc_new (max_data window max_window : Z) : FlowControl :=
  mkFlow 0 max_data (Z.min window max_window) max_window None.
Definition add_consumed (consumed : Z) (f : FlowControl) : FlowControl :=
  mkFlow (fc_consumed f + consumed) (fc_max_data f) (fc_window f) (fc_max_window f) (fc_last_update f).
Definition should_update_max_data (f : FlowControl) : bool := fc_max_data f - fc_consumed f <? fc_window f / 2.
Definition max_data_next (f : FlowControl) : Z := fc_consumed f + fc_window f.
Definition update_max_data (now : Z) (f : FlowControl) : FlowControl :=
  mkFlow (fc_consumed f) (max_data_next f) (fc_window f) (fc_max_window f) (Some now).
Definition set_window (window : Z) (f : FlowControl) : FlowControl :=
  mkFlow (fc_consumed f) (fc_max_data f) (Z.min window (fc_max_window f)) (fc_max_window f) (fc_last_update f).
(** The difference of two instants is zero when the second is later. *)
Definition autotune_window (now rtt : Z) (f : FlowControl) : FlowControl :=
  match fc_last_update f with
  | Some last => if Z.max 0 (now - last) <? rtt * WINDOW_TRIGGER_FACTOR then set_window (fc_window f * WINDOW_INCREASE_FACTOR) f else f
  | None => f
  end.
Definition ensure_window_lower_bound (min_window : Z) (f : FlowControl) : FlowControl :=
  if fc_window f <? min_window then set_window min_window f else f.

(** Changes of the window keep it within its bounds and never shrink it, and a
    limit that is announced when one is due is above the one before. *)
Definition fc_ok (f : FlowControl) : Prop := 0 <= fc_consumed f <= fc_max_data f /\ 0 <= fc_window f <= fc_max_window f.
Lemma window_grows f g : fc_ok f ->
  (exists now rtt, g = autotune_window now rtt f) \/ (exists w, g = ensure_window_lower_bound w f) ->
  fc_ok g /\ fc_window f <= fc_window g /\ fc_max_data g = fc_max_data f.
Proof.
  unfold fc_ok. intros H [(now & rtt & ->)|(w & ->)].
  - unfold autotune_window, WINDOW_INCREASE_FACTOR. repeat case_match; simpl; lia.
  - unfold ensure_window_lower_bound. case_match; simpl; lia.
Qed.
Lemma announced_limit_grows f now : fc_ok f -> should_update_max_data f = true ->
  fc_ok (update_max_data now f) /\ fc_max_data f < fc_max_data (update_max_data now f).
Proof.
  unfold fc_ok, should_update_max_data, update_max_data, max_data_next. simpl. intros.
  pose proof (Z.mul_div_le (fc_window f) 2). lia.
Qed.

(** ** The queue of datagrams *)

Record DatagramQueue : Type := mkDgrams { dq_queue : list bytes; dq_max_len : Z; dq_bytes_size : Z }.
Definition dq_new (queue_max_len : Z) : DatagramQueue := mkDgrams [] queue_max_len 0.
Definition dq_is_full (q : DatagramQueue) : bool := zlen (dq_queue q) =? dq_max_len q.
Definition dq_push (data : bytes) (q : DatagramQueue) : q_result DatagramQueue :=
  if dq_is_full q then Err EDone
  else Ok (mkDgrams (dq_queue q ++ [data]) (dq_max_len q) (dq_bytes_size q + zlen data)).
Definition peek_front_len (q : DatagramQueue) : option Z := option_map zlen (list.head (dq_queue q)).
(** The number of bytes copied, and the caller's buffer afterwards. *)
Definition peek_front_bytes (buf : bytes) (len : Z) (q : DatagramQueue) : q_result (Z * bytes) :=
  match dq_queue q with
  | d :: _ =>
      let len := Z.min len (zlen d) in
      if zlen buf <? len then Err EBufferTooShort else Ok (len, ztake len d ++ zdrop len buf)
  | [] => Err EDone
  end.
Definition dq_pop (q : DatagramQueue) : option (bytes * DatagramQueue) :=
  match dq_queue q with
  | d :: rest => Some (d, mkDgrams rest (dq_max_len q) (Z.max 0 (dq_bytes_size q - zlen d)))
  | [] => None
  end.
Definition total_bytes (l : list bytes) : Z := foldr (fun d n => zlen d + n) 0 l.
Definition purge (f : bytes -> bool) (q : DatagramQueue) : DatagramQueue :=
  let queue := List.filter (fun d => negb (f d)) (dq_queue q) in
  mkDgrams queue (dq_max_len q) (foldl (fun total d => total + zlen d) 0 queue).

Definition dq_ok (q : DatagramQueue) : Prop := zlen (dq_queue q) <= dq_max_len q /\ dq_bytes_size q = total_bytes (dq_queue q).

Lemma total_bytes_app l k : total_bytes (l ++ k) = total_bytes l + total_bytes k.
Proof. induction l as [|d l IH]; simpl; lia. Qed.
Lemma fold_total l n : foldl (fun total (d : bytes) => total + zlen d) n l = n + total_bytes l.
Proof. revert n. induction l as [|d l IH]; intros n; simpl; [lia|]. rewrite IH. lia. Qed.
Lemma total_bytes_nonneg l : 0 <= total_bytes l.
Proof. induction l as [|d l IH]; simpl; [lia|]. pose proof (zlen_nonneg d). lia. Qed.
Lemma filter_short {A} (f : A -> bool) (l : list A) : zlen (List.filter f l) <= zlen l.
Proof. induction l as [|x l IH]; simpl; [lia|]. case_match; rewrite ?zlen_cons; lia. Qed.

(** A move of a user of the queue. *)
Inductive dq_op : Type := DPush (data : bytes) | DPop | DPurge (f : bytes -> bool).
(** [accepted] and [popped] are what went in and out so far. *)
Record DqRun : Type := mkDqRun { dr_queue : DatagramQueue; dr_accepted : list bytes; dr_popped : list bytes }.
Definition dq_step (r : DqRun) (o : dq_op) : DqRun :=
  match o with
  | DPush data =>
      match dq_push data (dr_queue r) with
      | Ok q => mkDqRun q (dr_accepted r ++ [data]) (dr_popped r)
      | _ => r
      end
  | DPop =>
      match dq_pop (dr_queue r) with
      | Some (d, q) => mkDqRun q (dr_accepted r) (dr_popped r ++ [d])
      | None => r
      end
  | DPurge f => mkDqRun (purge f (dr_queue r)) (dr_accepted r) (dr_popped r)
  end.

(** The queue is bounded, counts its bytes right, and hands datagrams out in
    the order they came in, each at most once; without a purge none is missing. *)
Lemma datagrams_in_order n ops : 0 <= n ->
  let r := foldl dq_step (mkDqRun (dq_new n) [] []) ops in
  dq_ok (dr_queue r) /\ dr_popped r ++ dq_queue (dr_queue r) `sublist_of` dr_accepted r /\
  (Forall (fun o => match o with DPurge _ => False | _ => True end) ops -> dr_popped r ++ dq_queue (dr_queue r) = dr_accepted r).
Proof.
  intros Hn. induction ops as [|o ops IH] using rev_ind; [split_and!; try done; split; simpl; rewrite ?zlen_nil; lia|].
  rewrite foldl_app. simpl in *. set (r := foldl _ _ ops) in *. destruct IH as ([Hl Hb] & Hs & He). destruct r as [[q m b] acc out]. simpl in *.
  destruct o as [d| |f]; simpl.
  - unfold dq_push, dq_is_full. simpl. destruct (zlen q =? m) eqn:E; simpl; [split_and!; try done; intros H; apply He; by apply Forall_app in H as [? _]|].
    unfold dq_ok. simpl. rewrite zlen_app, total_bytes_app, zlen_cons, zlen_nil. simpl. split_and!; try lia.
    + rewrite app_assoc. by apply sublist_app.
    + intros [H _]%Forall_app. by rewrite app_assoc, He.
  - unfold dq_pop. simpl. destruct q as [|d q]; simpl in *.
    + split_and!; try done. intros [H _]%Forall_app. auto.
    + unfold dq_ok. simpl. pose proof (total_bytes_nonneg q). rewrite zlen_cons in Hl. rewrite <- app_assoc. split_and!; try done; try lia.
      intros [H' _]%Forall_app. auto.
  - unfold purge, dq_ok. simpl. rewrite fold_total. pose proof (filter_short (fun d => negb (f d)) q). split_and!; try lia.
    + etransitivity; [|exact Hs]. apply sublist_app; [done|]. clear. induction q as [|d q IH]; simpl; [constructor|]. case_match; by constructor.
    + intros [_ H']%Forall_app. by apply Forall_cons_iff in H' as [? _].
Qed.
