(* ===== verification/QCodec.v ===== *)
(** * Readers and writers of QUIC messages

    The shape shared by the parsers and printers of the QUIC transport
    (packet.rs, frame.rs of quiche): a reader threads the read cursor of the
    crate [octets] and a writer its write cursor, both ending at the first error.
    [parses] and [writes] relate them to the bytes they read and write, and
    [consumes] says that a reader returns and moves on; each has a rule for
    putting two of them after each other. *)

From S2P Require Import Prelude Octets QBuffers.
From Stdlib Require Import ZArith Lia ZifyBool.
From stdpp Require Import base list numbers option decidable.
Open Scope Z_scope.

Declare Scope codec_scope.
Delimit Scope codec_scope with codec.

Definition short_err {A} (m : outcome short A) : q_result A := map_err (fun _ => EBufferTooShort) m.

Abbreviation reader A := (Octets -> q_result (A * Octets)).
Abbreviation writer := (OctetsMut -> q_result OctetsMut).

Definition rret {A} (a : A) : reader A := fun o => Ok (a, o).
Definition rfail {A} (e : q_error) : reader A := fun _ => Err e.
Definition rlift {A} (m : q_result A) : reader A := fun o => let! a := m in Ok (a, o).
Definition rbind {A B} (f : reader A) (k : A -> reader B) : reader B := fun o => let! '(a, o) := f o in k a o.
Notation "'let*' x := f 'in' k" := (rbind f (fun x => k)) (at level 200, x name, f at level 100, k at level 200, right associativity) : codec_scope.
Definition wnop : writer := fun m => Ok m.
Definition wseq (f g : writer) : writer := fun m => let! m := f m in g m.
Notation "f >>> g" := (wseq f g) (at level 60, right associativity) : codec_scope.
Open Scope codec_scope.

Definition r_u8 : reader Z := fun o => short_err (get_u8 o).
Definition r_u (n : nat) : reader Z := fun o => short_err (get_u n o).
Definition r_varint : reader Z := fun o => short_err (get_varint o).
Definition r_bytes (n : Z) : reader bytes := fun o => short_err (get_bytes n o).
Definition r_cap : reader Z := fun o => Ok (o_cap o, o).
(** [get_bytes_with_varint_length]. *)
Definition r_varint_bytes `{Target} : reader bytes := let* len := r_varint in r_bytes (as_usize len).

Definition w_u8 (v : Z) : writer := fun m => short_err (put_u8 v m).
Definition w_u (n : nat) (v : Z) : writer := fun m => short_err (put_u n v m).
Definition w_varint (v : Z) : writer := fun m => short_err (put_varint v m).
Definition w_varint2 (v : Z) : writer := fun m => short_err (put_varint_with_len v 2 m).
Definition w_bytes (v : bytes) : writer := fun m => short_err (put_bytes v m).

(** ** What a writer writes *)

Definition writes (f : writer) (w : bytes) : Prop := forall p r, zlen w <= zlen r ->
  f (mkOctetsMut (p ++ r) (zlen p)) = Ok (mkOctetsMut ((p ++ w) ++ zdrop (zlen w) r) (zlen (p ++ w))).

Lemma zdrop_zdrop {A} (l : list A) a b : 0 <= a -> 0 <= b -> zdrop a (zdrop b l) = zdrop (b + a) l.
Proof. intros. unfold zdrop. rewrite skipn_skipn. f_equal. lia. Qed.

Lemma writes_nop : writes wnop [].
Proof. intros p r _. unfold wnop. by rewrite app_nil_r, zdrop_nonpos. Qed.
Lemma writes_seq f g w v : writes f w -> writes g v -> writes (f >>> g) (w ++ v).
Proof.
  intros Hf Hg p r Hr. pose proof (zlen_nonneg w). pose proof (zlen_nonneg v). rewrite zlen_app in Hr.
  unfold wseq. rewrite Hf by lia. cbn [obind]. rewrite Hg by (rewrite zlen_zdrop; lia).
  by rewrite zdrop_zdrop, <- !app_assoc, (zlen_app w v) by done.
Qed.
Lemma writes_bytes v : writes (w_bytes v) v.
Proof. intros p r Hr. unfold w_bytes. by rewrite put_bytes_spec. Qed.
Lemma writes_u8 v : writes (w_u8 v) [as_u8 v].
Proof. intros p r Hr. unfold w_u8. by rewrite put_u8_spec. Qed.
Lemma writes_u n v : (0 < n)%nat -> writes (w_u n v) (to_be n v).
Proof.
  intros Hn p r Hr. rewrite zlen_to_be in Hr. unfold w_u. rewrite put_u_bytes by (simpl; rewrite ?zlen_app; lia).
  by rewrite put_bytes_spec by (rewrite zlen_to_be; lia).
Qed.
Lemma writes_varint v : is_varint v -> writes (w_varint v) (enc_varint v).
Proof. intros Hv p r Hr. unfold w_varint. by rewrite put_varint_spec. Qed.
(** Two bytes for a number that may need only one. *)
Definition enc_varint2 (v : Z) : bytes := to_be 2 (0x4000 + v).
Lemma writes_varint2 v : 0 <= v <= 16383 -> writes (w_varint2 v) (enc_varint2 v).
Proof.
  intros Hv p r Hr. unfold enc_varint2 in *. rewrite zlen_to_be in Hr. unfold w_varint2, put_varint_with_len, m_cap. cbn [m_buf m_off].
  rewrite zlen_app. replace (_ <? 2) with false by lia. cbv iota.
  rewrite (put_tagged_spec 1 1) by (simpl; lia). cbn [short_err map_err]. by rewrite zlen_app, !zlen_to_be.
Qed.

(** ** What a reader reads in front of [q] *)

Definition parses {A} (f : reader A) (w : bytes) (a : A) (q : bytes) : Prop := forall p,
  f (mkOctets (p ++ w ++ q) (zlen p)) = Ok (a, mkOctets ((p ++ w) ++ q) (zlen (p ++ w))).

Lemma parses_ret {A} (a : A) q : parses (rret a) [] a q.
Proof. intros p. unfold rret. by rewrite app_nil_r. Qed.
Lemma parses_bind {A B} (f : reader A) (k : A -> reader B) w v a b q :
  parses f w a (v ++ q) -> parses (k a) v b q -> parses (rbind f k) (w ++ v) b q.
Proof. intros Hf Hk p. unfold rbind. rewrite <- (app_assoc w), Hf. cbn [obind]. rewrite Hk. by rewrite (app_assoc p). Qed.
Lemma parses_lift {A} (m : q_result A) a q : m = Ok a -> parses (rlift m) [] a q.
Proof. intros -> p. unfold rlift. cbn [obind]. by rewrite app_nil_r. Qed.
Lemma parses_cap q : parses r_cap [] (zlen q) q.
Proof. intros p. unfold r_cap, o_cap. cbn [o_buf o_off]. rewrite app_nil_r. simpl. rewrite zlen_app. do 2 f_equal. lia. Qed.
(** A reader whose result is only repackaged. *)
Lemma parses_map {A B} (f : reader A) (g : A -> B) w a q : parses f w a q -> parses (let* x := f in rret (g x)) w (g a) q.
Proof. intros Hf p. unfold rbind, rret. by rewrite Hf. Qed.
(** A step that reads nothing. *)
Lemma parses_step {A B} (f : reader A) (k : A -> reader B) w a b q : parses f [] a (w ++ q) -> parses (k a) w b q -> parses (rbind f k) w b q.
Proof. intros Hf Hk. by apply (parses_bind f k [] w a b q). Qed.
Lemma parses_u8 v q : parses r_u8 [v] v q.
Proof. intros p. unfold r_u8. simpl. rewrite get_u8_spec. simpl. by rewrite <- app_assoc, zlen_app. Qed.
Lemma parses_u n v q : 0 <= v < 256 ^ Z.of_nat n -> parses (r_u n) (to_be n v) v q.
Proof.
  intros Hv p. unfold r_u. rewrite get_u_spec by apply zlen_to_be. cbn [short_err map_err].
  by rewrite of_be_to_be_small, <- app_assoc, zlen_app, zlen_to_be.
Qed.
Lemma parses_varint v q : is_varint v -> parses r_varint (enc_varint v) v q.
Proof. intros Hv p. unfold r_varint. rewrite get_varint_spec by done. cbn [short_err map_err]. by rewrite <- app_assoc, zlen_app. Qed.
Lemma parses_varint2 v q : 0 <= v <= 16383 -> parses r_varint (enc_varint2 v) v q.
Proof.
  intros Hv p. unfold r_varint, enc_varint2, get_varint.
  destruct (to_be_head 1 1 v) as (b & r & E & Hb); [lia|simpl; lia|]. change (64 * 1 * 256 ^ Z.of_nat 1) with 0x4000 in E.
  rewrite E at 1. rewrite peek_head. cbn [obind]. unfold varint_parse_len. rewrite Hb. unfold o_cap. cbn [o_buf o_off].
  rewrite !zlen_app, zlen_to_be. pose proof (zlen_nonneg q). replace (_ <? _) with false by lia.
  rewrite get_u_spec by apply zlen_to_be. cbn [obind short_err map_err]. rewrite of_be_to_be_small by (simpl; lia).
  rewrite <- app_assoc, ?zlen_app, ?zlen_to_be. do 2 f_equal. apply (land_mask 14 1); lia.
Qed.
Lemma parses_bytes v n q : n = zlen v -> parses (r_bytes n) v v q.
Proof. intros -> p. unfold r_bytes. rewrite get_bytes_spec by done. cbn [short_err map_err]. by rewrite <- app_assoc, zlen_app. Qed.
Lemma parses_varint_bytes `{Target} v q : zlen v <= usize_max -> zlen v <= MAX_VAR_INT ->
  parses r_varint_bytes (enc_varint (zlen v) ++ v) v q.
Proof.
  intros Hu Hv. pose proof (zlen_nonneg v). eapply parses_bind; [by apply parses_varint|]. apply parses_bytes.
  unfold as_usize, usize_max in *. apply Z.mod_small. lia.
Qed.

(** ** A reader that returns, and reads [k] bytes at least when it succeeds *)

Definition consumes {A} (k : Z) (f : reader A) : Prop := forall o, cursor_ok o -> reads k o (f o).

Lemma consumes_ret {A} (a : A) : consumes 0 (rret a).
Proof. intros o Ho. by apply reads_ret. Qed.
Lemma consumes_fail {A} k e : consumes (A := A) k (rfail e).
Proof. by intros o Ho. Qed.
Lemma consumes_lift {A} (m : q_result A) : returns m -> consumes 0 (rlift m).
Proof. intros Hm o Ho. unfold rlift. destruct m; simpl; try done. split; [done|lia]. Qed.
Lemma consumes_bind {A B} k j (f : reader A) (g : A -> reader B) : consumes k f -> (forall a, consumes j (g a)) -> consumes (k + j) (rbind f g).
Proof. intros Hf Hg o Ho. apply reads_bind; [by apply Hf|]. intros a o' Ho'. by apply Hg. Qed.
Lemma consumes_weaken {A} k j (f : reader A) : j <= k -> consumes k f -> consumes j f.
Proof. intros Hj Hf o Ho. eapply reads_weaken; [done|]. by apply Hf. Qed.
Lemma reads_weaken_from {E A} o o' (m : outcome E (A * Octets)) : o_cap o' <= o_cap o -> reads 0 o' m -> reads 0 o m.
Proof. destruct m as [[]| | |]; simpl; try done. intros ? []. split; [done|lia]. Qed.
Lemma consumes_then {A B} (f : reader A) (g : A -> reader B) : consumes 0 f -> (forall a, consumes 0 (g a)) -> consumes 0 (rbind f g).
Proof. intros. by apply (consumes_bind 0 0). Qed.
Lemma consumes_u8 : consumes 1 r_u8.
Proof. intros o Ho. unfold r_u8. apply reads_map_err. by apply reads_get_u8. Qed.
Lemma consumes_u n : consumes (Z.of_nat n) (r_u n).
Proof. intros o Ho. unfold r_u. apply reads_map_err. by apply reads_get_u. Qed.
Lemma consumes_varint : consumes 1 r_varint.
Proof. intros o Ho. unfold r_varint. apply reads_map_err. by apply reads_get_varint. Qed.
Lemma consumes_bytes n : 0 <= n -> consumes 0 (r_bytes n).
Proof. intros Hn o Ho. unfold r_bytes. apply reads_map_err. eapply reads_weaken; [|by apply reads_get_bytes]. done. Qed.
Lemma consumes_varint_bytes `{Target} : consumes 1 r_varint_bytes.
Proof.
  apply (consumes_bind 1 0); [apply consumes_varint|]. intros len. apply consumes_bytes.
  unfold as_usize. apply Z.mod_pos_bound. destruct usize_bits_cases as [-> | ->]; lia.
Qed.

Create HintDb codec.
#[export] Hint Resolve writes_nop writes_seq writes_bytes writes_u8 writes_varint writes_varint2 : codec.
#[export] Hint Resolve parses_ret parses_u8 parses_varint parses_varint2 parses_varint_bytes : codec.
