(* ===== verification/QPacket.v ===== *)
(** * QUIC packets

    Models packet.rs of quiche and the parts of crypto/ it calls: packet
    numbers, the window of received numbers, the packet header, and header and
    packet protection.  The ciphers are those of BoringSSL, which is not part of
    the repository: class [BoringSSL] names the functions that are called, and
    [Ciphers] what they are documented to do. *)

From S2P Require Import Prelude Octets QRanges QBuffers QCodec.
From Stdlib Require Import ZArith Lia ZifyBool.
From stdpp Require Import base list numbers option decidable.
Open Scope Z_scope.

Inductive Epoch : Type := EpInitial | EpHandshake | EpApplication.
(** [packet::Type]. *)
Inductive PktType : Type := Initial | Retry | Handshake | ZeroRTT | VersionNegotiation | Short.
#[export] Instance PktType_eq_dec : EqDecision PktType.
Proof. solve_decision. Defined.
#[export] Instance Epoch_eq_dec : EqDecision Epoch.
Proof. solve_decision. Defined.

Definition from_epoch (e : Epoch) : PktType :=
  match e with EpInitial => Initial | EpHandshake => Handshake | EpApplication => Short end.
Definition to_epoch (t : PktType) : q_result Epoch :=
  match t with
  | Initial => Ok EpInitial
  | ZeroRTT => Ok EpApplication
  | Handshake => Ok EpHandshake
  | Short => Ok EpApplication
  | _ => Err EInvalidPacket
  end.

Definition FORM_BIT : Z := 0x80.
Definition FIXED_BIT : Z := 0x40.
Definition KEY_PHASE_BIT : Z := 0x04.
Definition TYPE_MASK : Z := 0x30.
Definition PKT_NUM_MASK : Z := 0x03.
Definition MAX_CID_LEN : Z := 20.
Definition MAX_PKT_NUM_LEN : Z := 4.
Definition SAMPLE_LEN : Z := 16.
Definition PROTOCOL_VERSION_V1 : Z := 1.
Definition version_is_supported (version : Z) : bool := version =? PROTOCOL_VERSION_V1.

(** ** Packet numbers *)

(** [u64::BITS - v.leading_zeros()]. *)
Definition bit_len (v : Z) : Z := if v <=? 0 then 0 else Z.log2 v + 1.
Definition pkt_num_len (pn largest_acked : Z) : Z :=
  let num_unacked := Z.max 0 (pn - largest_acked) + 1 in
  let min_bits := bit_len num_unacked + 1 in
  (min_bits + 7) / 8.

Definition encode_pkt_num (pn pn_len : Z) : writer :=
  match pn_len with
  | 1 => w_u 1 pn
  | 2 => w_u 2 pn
  | 3 => w_u 3 (as_u32 pn)
  | 4 => w_u 4 pn
  | _ => fun _ => Err EInvalidPacket
  end.

Definition decode_pkt_num (largest_pn truncated_pn pn_len : Z) : Z :=
  let pn_nbits := pn_len * 8 in
  let expected_pn := largest_pn + 1 in
  let pn_win := Z.shiftl 1 pn_nbits in
  let pn_hwin := pn_win / 2 in
  let pn_mask := pn_win - 1 in
  let candidate_pn := Z.lor (Z.ldiff expected_pn pn_mask) truncated_pn in
  if (candidate_pn + pn_hwin <=? expected_pn) && (candidate_pn <? Z.shiftl 1 62 - pn_win) then candidate_pn + pn_win
  else if (expected_pn + pn_hwin <? candidate_pn) && (pn_win <=? candidate_pn) then candidate_pn - pn_win
  else candidate_pn.

(** ** The window of received numbers *)

Record PktNumWindow : Type := mkWindow { pw_lower : Z; pw_window : Z }.
Definition window_default : PktNumWindow := mkWindow 0 0.
Definition pw_upper (w : PktNumWindow) : Z := Z.min (2 ^ 64 - 1) (pw_lower w + 128) - 1.
(** [u128::checked_shl]. *)
Definition u128_checked_shl (v n : Z) : option Z := if n <? 128 then Some (Z.shiftl v n mod 2 ^ 128) else None.
Definition pw_insert (seq : Z) (w : PktNumWindow) : PktNumWindow :=
  if seq <? pw_lower w then w
  else
    let w := if pw_upper w <? seq then
               let diff := seq - pw_upper w in
               mkWindow (pw_lower w + diff) (default 0 (u128_checked_shl (pw_window w) (as_u32 diff)))
             else w in
    mkWindow (pw_lower w) (Z.lor (pw_window w) (Z.shiftl 1 (pw_upper w - seq))).
Definition pw_contains (seq : Z) (w : PktNumWindow) : bool :=
  if pw_upper w <? seq then false
  else if seq <? pw_lower w then true
  else negb (Z.land (pw_window w) (Z.shiftl 1 (pw_upper w - seq)) =? 0).

(** ** The header *)

Record Header : Type := mkHeader {
  h_ty : PktType; h_version : Z; h_dcid : bytes; h_scid : bytes; h_pkt_num : Z; h_pkt_num_len : Z;
  h_token : option bytes; h_versions : option (list Z); h_key_phase : bool
}.
Definition is_long (b : Z) : bool := negb (Z.land b FORM_BIT =? 0).
Definition RETRY_TAG_LEN : Z := 16.

(** The versions up to the end of the packet; each takes four bytes. *)
Fixpoint read_versions (fuel : nat) (list_ : list Z) : reader (list Z) := fun o =>
  match fuel with
  | O => OutOfFuel
  | S fuel => if 0 <? o_cap o then (let* version := r_u 4 in read_versions fuel (list_ ++ [version])) o else Ok (list_, o)
  end.
Definition read_cid (version : Z) : reader bytes :=
  let* len := r_u8 in
  if version_is_supported version && (MAX_CID_LEN <? len) then rfail EInvalidPacket else r_bytes len.
Definition read_tail `{Target} (ty : PktType) : reader (option bytes * option (list Z)) :=
  match ty with
  | Initial => let* token := r_varint_bytes in rret (Some token, None)
  | Retry =>
      let* cap := r_cap in
      if cap <? RETRY_TAG_LEN then rfail EInvalidPacket
      else let* token := r_bytes (cap - RETRY_TAG_LEN) in rret (Some token, None)
  | VersionNegotiation => fun o => (let* versions := read_versions (S (Z.to_nat (o_cap o))) [] in rret (None, Some versions)) o
  | _ => rret (None, None)
  end.
Definition long_type (first version : Z) : q_result PktType :=
  if version =? 0 then Ok VersionNegotiation
  else match Z.shiftr (Z.land first TYPE_MASK) 4 with
       | 0 => Ok Initial
       | 1 => Ok ZeroRTT
       | 2 => Ok Handshake
       | 3 => Ok Retry
       | _ => Err EInvalidPacket
       end.
Definition hdr_from_bytes `{Target} (dcid_len : Z) : reader Header :=
  let* first := r_u8 in
  if negb (is_long first) then
    let* dcid := r_bytes dcid_len in rret (mkHeader Short 0 dcid [] 0 0 None None false)
  else
    let* version := r_u 4 in
    let* ty := rlift (long_type first version) in
    let* dcid := read_cid version in
    let* scid := read_cid version in
    let* tail := read_tail ty in
    rret (mkHeader ty version dcid scid 0 0 tail.1 tail.2 false).

Definition long_code (ty : PktType) : q_result Z :=
  match ty with Initial => Ok 0 | ZeroRTT => Ok 1 | Handshake => Ok 2 | Retry => Ok 3 | _ => Err EInvalidPacket end.
Definition write_tail (h : Header) : writer :=
  match h_ty h with
  | Initial => match h_token h with Some v => w_varint (zlen v) >>> w_bytes v | None => w_varint 0 end
  | Retry => match h_token h with Some v => w_bytes v | None => fun _ => Panic end
  | _ => wnop
  end.
Definition hdr_to_bytes (h : Header) : writer := fun out =>
  let first := as_u8 (Z.max 0 (h_pkt_num_len h - 1)) in
  if decide (h_ty h = Short) then
    let first := Z.lor (Z.land first 0x7f) FIXED_BIT in
    let first := if h_key_phase h then Z.lor first KEY_PHASE_BIT else Z.land first 0xfb in
    (w_u8 first >>> w_bytes (h_dcid h)) out
  else
    let! ty := long_code (h_ty h) in
    let first := Z.lor first (Z.lor (Z.lor FORM_BIT FIXED_BIT) (Z.shiftl ty 4)) in
    (w_u8 first >>> w_u 4 (h_version h) >>>
     w_u8 (as_u8 (zlen (h_dcid h))) >>> w_bytes (h_dcid h) >>>
     w_u8 (as_u8 (zlen (h_scid h))) >>> w_bytes (h_scid h) >>> write_tail h) out.

(** [negotiate_version] with the random byte it draws. *)
Definition negotiate_version (rand : Z) (scid dcid out : bytes) : q_result (bytes * Z) :=
  let! b := (w_u8 (Z.lor rand FORM_BIT) >>> w_u 4 0 >>>
             w_u8 (as_u8 (zlen scid)) >>> w_bytes scid >>> w_u8 (as_u8 (zlen dcid)) >>> w_bytes dcid >>>
             w_u 4 PROTOCOL_VERSION_V1) (with_slice_mut out) in
  Ok (m_buf b, m_off b).

(** ** Ciphers *)

Inductive Algorithm : Type := AES128_GCM | AES256_GCM | ChaCha20_Poly1305.
Definition key_len (a : Algorithm) : Z := match a with AES128_GCM => 16 | AES256_GCM => 32 | ChaCha20_Poly1305 => 32 end.
Definition tag_len (a : Algorithm) : Z := match a with AES128_GCM => 16 | AES256_GCM => 16 | ChaCha20_Poly1305 => 16 end.
Definition nonce_len (a : Algorithm) : Z := match a with AES128_GCM => 12 | AES256_GCM => 12 | ChaCha20_Poly1305 => 12 end.

(** [EVP_AEAD_CTX_seal_scatter] and [EVP_AEAD_CTX_open] with a key, a nonce and
    associated data ([None]: the call failed), and the first five bytes of the
    key stream that protects headers. *)
Class BoringSSL : Type := {
  aead_seal : Algorithm -> bytes -> bytes -> bytes -> bytes -> option bytes;
  aead_open : Algorithm -> bytes -> bytes -> bytes -> bytes -> option bytes;
  hp_mask : Algorithm -> bytes -> bytes -> bytes
}.
Class Ciphers `{BoringSSL} : Prop := {
  seal_total alg key nonce ad msg : zlen nonce = nonce_len alg -> exists c, aead_seal alg key nonce ad msg = Some c;
  seal_len alg key nonce ad msg c : aead_seal alg key nonce ad msg = Some c -> zlen c = zlen msg + tag_len alg;
  open_sealed alg key nonce ad msg c : aead_seal alg key nonce ad msg = Some c -> aead_open alg key nonce ad c = Some msg;
  mask_len alg key sample : zlen (hp_mask alg key sample) = 5
}.

(** The keys of one direction; [Open] and [Seal] of the source hold the same. *)
Record Keys : Type := mkKeys { k_alg : Algorithm; k_key : bytes; k_iv : bytes; k_hp : bytes }.

Definition xor_bytes (l k : bytes) : bytes := zip_with Z.lxor l k.
Definition make_nonce (iv : bytes) (counter : Z) : bytes := ztake 4 iv ++ xor_bytes (zdrop 4 iv) (to_be 8 counter).

Section Protection.
Context `{BoringSSL}.

Definition new_mask (k : Keys) (sample : bytes) : bytes := hp_mask (k_alg k) (k_hp k) sample.
(** The buffer with its first [in_len] bytes sealed, and the length of the
    result. *)
Definition seal_with_u64_counter (k : Keys) (counter : Z) (ad buf : bytes) (in_len : Z) : q_result (bytes * Z) :=
  if zlen buf <? in_len + tag_len (k_alg k) then Err ECryptoFail
  else match aead_seal (k_alg k) (k_key k) (make_nonce (k_iv k) counter) ad (ztake in_len buf) with
       | None => Err ECryptoFail
       | Some c => Ok (splice buf 0 c, in_len + tag_len (k_alg k))
       end.
Definition open_with_u64_counter (k : Keys) (counter : Z) (ad buf : bytes) : q_result bytes :=
  if zlen buf <? tag_len (k_alg k) then Err ECryptoFail
  else ok_or (aead_open (k_alg k) (k_key k) (make_nonce (k_iv k) counter) ad buf) ECryptoFail.

Definition protect_first (first mask0 : Z) : Z := Z.lxor first (Z.land mask0 (if is_long first then 0x0f else 0x1f)).

Definition encrypt_hdr (k : Keys) (hdr : bytes) (pn_len : Z) (payload : bytes) : q_result bytes :=
  let! sample := idx_range payload (MAX_PKT_NUM_LEN - pn_len) (SAMPLE_LEN + (MAX_PKT_NUM_LEN - pn_len)) in
  let mask := new_mask k sample in
  match hdr with
  | [] => Err EBufferTooShort
  | first :: rest =>
      let! mask0 := idx mask 0 in
      if zlen rest <? pn_len then Err EBufferTooShort
      else Ok (protect_first first mask0 ::
               ztake (zlen rest - pn_len) rest ++ xor_bytes (zdrop (zlen rest - pn_len) rest) (zdrop 1 mask))
  end.
(** The buffer holds the header up to [payload_offset] and the payload after it. *)
Definition encrypt_pkt (k : Keys) (b : bytes) (pn pn_len payload_len payload_offset : Z) : q_result (bytes * Z) :=
  if zlen b <? payload_offset then Err EBufferTooShort
  else
    let header := ztake payload_offset b in
    let! '(payload, ciphertext_len) := seal_with_u64_counter k pn header (zdrop payload_offset b) payload_len in
    let! header := encrypt_hdr k header pn_len payload in
    Ok (header ++ payload, payload_offset + ciphertext_len).

(** [b] is the packet with the cursor in front of the packet number. *)
Definition decrypt_hdr (k : Keys) (b : OctetsMut) (hdr : Header) : q_result (OctetsMut * Header) :=
  match m_buf b with
  | [] => Err EBufferTooShort
  | first :: _ =>
      if m_cap b <? MAX_PKT_NUM_LEN + SAMPLE_LEN then Err EBufferTooShort
      else
        let! pn_and_sample := idx_range (m_buf b) (m_off b) (m_off b + (MAX_PKT_NUM_LEN + SAMPLE_LEN)) in
        let mask := new_mask k (zdrop MAX_PKT_NUM_LEN pn_and_sample) in
        let! mask0 := idx mask 0 in
        let first := protect_first first mask0 in
        let pn_len := Z.land first PKT_NUM_MASK + 1 in
        let pn := xor_bytes (ztake pn_len pn_and_sample) (zdrop 1 mask) in
        let buf := splice (splice (m_buf b) (m_off b) pn) 0 [first] in
        Ok (mkOctetsMut buf (m_off b + pn_len),
            mkHeader (h_ty hdr) (h_version hdr) (h_dcid hdr) (h_scid hdr) (of_be pn) pn_len (h_token hdr) (h_versions hdr)
              (if decide (h_ty hdr = Short) then negb (Z.land first KEY_PHASE_BIT =? 0) else h_key_phase hdr))
  end.
Definition decrypt_pkt (k : Keys) (b : OctetsMut) (pn pn_len payload_len : Z) : q_result bytes :=
  if zlen (m_buf b) <? m_off b then Err EBufferTooShort
  else if payload_len <? pn_len then Err EInvalidPacket
  else
    let header := ztake (m_off b) (m_buf b) in
    let payload_len := payload_len - pn_len in
    if m_cap b <? payload_len then Err EBufferTooShort
    else
      let! ciphertext := idx_range (m_buf b) (m_off b) (m_off b + payload_len) in
      open_with_u64_counter k pn header ciphertext.

End Protection.

(** ** Packet number spaces *)

Definition MAX_ACK_RANGES : Z := 68.
Record PktNumSpace : Type := mkSpace {
  ps_largest_rx : Z; ps_largest_rx_time : Z; ps_largest_rx_non_probing : Z; ps_largest_tx : option Z;
  ps_need_ack : RangeSet; ps_window : PktNumWindow; ps_ack_elicited : bool
}.
Definition space_new (now : Z) : PktNumSpace := mkSpace 0 now 0 None (rs_new MAX_ACK_RANGES) window_default false.
Definition space_clear (s : PktNumSpace) : PktNumSpace :=
  mkSpace (ps_largest_rx s) (ps_largest_rx_time s) (ps_largest_rx_non_probing s) (ps_largest_tx s) (ps_need_ack s) (ps_window s) false.
Definition space_ready (s : PktNumSpace) : bool := ps_ack_elicited s.
Definition space_on_packet_sent (pkt_num : Z) (s : PktNumSpace) : PktNumSpace :=
  mkSpace (ps_largest_rx s) (ps_largest_rx_time s) (ps_largest_rx_non_probing s)
    (Some (match ps_largest_tx s with Some n => Z.max n pkt_num | None => pkt_num end)) (ps_need_ack s) (ps_window s) (ps_ack_elicited s).

(** The record of a packet whose frames were processed. *)
Definition space_on_received (now pn : Z) (ack_elicited probing : bool) (s : PktNumSpace) : q_result PktNumSpace :=
  let time := if match rs_last (ps_need_ack s) with Some l => l <? pn | None => true end then now else ps_largest_rx_time s in
  let! need_ack := match push_item (ps_need_ack s) pn with Ok t => Ok t | Err _ => Panic | Panic => Panic | OutOfFuel => OutOfFuel end in
  Ok (mkSpace (Z.max (ps_largest_rx s) pn) time (if probing then ps_largest_rx_non_probing s else Z.max (ps_largest_rx_non_probing s) pn)
        (ps_largest_tx s) need_ack (pw_insert pn (ps_window s)) (ps_ack_elicited s || ack_elicited)).

(** ** Truncated packet numbers *)

Lemma bit_len_bound v : 0 < v -> v < 2 ^ bit_len v.
Proof. intros Hv. unfold bit_len. replace (v <=? 0) with false by lia. pose proof (Z.log2_spec v Hv). replace (Z.log2 v + 1) with (Z.succ (Z.log2 v)) by lia. lia. Qed.

(** The window of [pkt_num_len] bytes is more than twice as wide as the range of
    numbers in flight. *)
Lemma pkt_num_len_enough pn la : 0 <= la -> la <= pn ->
  1 <= pkt_num_len pn la /\ pn - la + 1 < 2 ^ (8 * pkt_num_len pn la - 1).
Proof.
  intros Hla Hpn. unfold pkt_num_len. rewrite Z.max_r by lia. set (n := pn - la + 1).
  pose proof (bit_len_bound n ltac:(lia)) as Hb.
  assert (1 <= bit_len n) as H1. { unfold bit_len. replace (n <=? 0) with false by lia. pose proof (Z.log2_nonneg n). lia. }
  pose proof (Z.div_mod (bit_len n + 1 + 7) 8 ltac:(lia)). pose proof (Z.mod_pos_bound (bit_len n + 1 + 7) 8 ltac:(lia)).
  split; [lia|]. eapply Z.lt_le_trans; [exact Hb|]. apply Z.pow_le_mono_r; lia.
Qed.

(** The candidate has the high part of what is expected and the low part of what
    was sent. *)
Lemma land_low x t n : 0 <= n -> 0 <= t < 2 ^ n -> Z.land (Z.shiftl x n) t = 0.
Proof.
  intros Hn Ht. destruct (decide (t = 0)) as [->|]; [apply Z.land_0_r|].
  apply Z.bits_inj'. intros i Hi. rewrite Z.land_spec, Z.bits_0. destruct (decide (i < n)).
  - by rewrite Z.shiftl_spec_low.
  - rewrite (Z.bits_above_log2 t i); [by rewrite andb_false_r|lia|].
    assert (Z.log2 t < n) by (apply Z.log2_lt_pow2; lia). lia.
Qed.
Lemma candidate_spec e t n : 0 <= n -> 0 <= t < 2 ^ n -> Z.lor (Z.ldiff e (2 ^ n - 1)) t = 2 ^ n * (e / 2 ^ n) + t.
Proof.
  intros Hn Ht. replace (2 ^ n - 1) with (Z.ones n) by (rewrite Z.ones_equiv; lia). rewrite Z.ldiff_ones_r by done.
  pose proof (Z.add_lor_land (Z.shiftl (Z.shiftr e n) n) t) as E. rewrite land_low in E by done.
  rewrite Z.add_0_r in E. rewrite E, Z.shiftl_mul_pow2, Z.shiftr_div_pow2 by done. lia.
Qed.

(** What the receiver makes of a truncated number, when it is less than half a
    window away from the number it expects. *)
Lemma decode_near largest pn len : 1 <= len <= 4 -> 0 <= largest -> 0 <= pn < 2 ^ 62 ->
  Z.abs (pn - (largest + 1)) < 2 ^ (8 * len - 1) -> decode_pkt_num largest (pn mod 2 ^ (8 * len)) len = pn.
Proof.
  intros Hl H0 Hp Hn. unfold decode_pkt_num. replace (len * 8) with (8 * len) by lia. rewrite !Z.shiftl_mul_pow2, !Z.mul_1_l by lia.
  assert (2 ^ (8 * len) = 2 * 2 ^ (8 * len - 1)) as E. { rewrite <- Z.pow_succ_r by lia. f_equal. lia. }
  pose proof (Z.mod_pos_bound pn (2 ^ (8 * len)) ltac:(lia)) as Hm. rewrite candidate_spec by lia.
  set (H := 2 ^ (8 * len - 1)) in *. set (W := 2 ^ (8 * len)) in *. assert (0 < H) by (apply Z.pow_pos_nonneg; lia).
  assert (W / 2 = H) as -> by (rewrite E, Z.mul_comm; apply Z.div_mul; lia).
  pose proof (Z.div_mod pn W ltac:(lia)). pose proof (Z.div_mod (largest + 1) W ltac:(lia)). pose proof (Z.mod_pos_bound (largest + 1) W ltac:(lia)).
  set (q := pn / W) in *. set (e := (largest + 1) / W) in *. set (t := pn mod W) in *. set (u := (largest + 1) mod W) in *.
  assert (q = e \/ q = e + 1 \/ q = e - 1) as [Hq|[Hq|Hq]] by nia; subst q.
  all: rewrite Hq in *; clear Hq; repeat case_match; try lia.
Qed.

(** ** The window

    Bit [i] of the window stands for the number [i] below its upper end. *)

Record window_inv (w : PktNumWindow) (hist : list Z) : Prop := mkWindowInv {
  wi_lower : 0 <= pw_lower w < 2 ^ 63;
  wi_below : Forall (fun n => n <= pw_lower w + 127) hist;
  wi_bits i : 0 <= i < 128 -> (Z.testbit (pw_window w) i = true <-> In (pw_lower w + 127 - i) hist);
  wi_top : 0 < pw_lower w -> In (pw_lower w + 127) hist
}.
Lemma upper_spec w hist : window_inv w hist -> pw_upper w = pw_lower w + 127.
Proof. intros [? _ _ _]. unfold pw_upper. lia. Qed.
Lemma window_default_inv : window_inv window_default [].
Proof. constructor; simpl; [lia|constructor| |lia]. intros i Hi. by rewrite Z.bits_0. Qed.

Lemma contains_spec w hist seq : window_inv w hist -> 0 <= seq ->
  pw_contains seq w = true <-> seq < pw_lower w \/ In seq hist.
Proof.
  intros Hw Hs. unfold pw_contains. rewrite (upper_spec w hist) by done. destruct Hw as [Hl Hb Hi _].
  destruct (Z.ltb_spec (pw_lower w + 127) seq).
  - split; [done|]. intros [?|Hin]; [lia|]. rewrite Forall_forall in Hb. specialize (Hb _ Hin). simpl in Hb. lia.
  - destruct (Z.ltb_spec seq (pw_lower w)); [by split; [left|]|].
    specialize (Hi (pw_lower w + 127 - seq) ltac:(lia)). replace (pw_lower w + 127 - (pw_lower w + 127 - seq)) with seq in Hi by lia.
    rewrite <- Hi. rewrite Z.shiftl_1_l. set (i := pw_lower w + 127 - seq) in *.
    assert (Z.testbit (Z.land (pw_window w) (2 ^ i)) i = Z.testbit (pw_window w) i) as E.
    { rewrite Z.land_spec, Z.pow2_bits_true by lia. apply andb_true_r. }
    split.
    + intros Hz. right. destruct (Z.testbit (pw_window w) i) eqn:Hb1; [done|]. exfalso. rewrite negb_true_iff, Z.eqb_neq in Hz. apply Hz.
      apply Z.bits_inj'. intros j Hj. rewrite Z.land_spec, Z.bits_0. destruct (decide (j = i)) as [->|]; [by rewrite Hb1|].
      rewrite Z.pow2_bits_false by lia. apply andb_false_r.
    + intros [?|Hb1]; [lia|]. rewrite Hb1 in E. rewrite negb_true_iff, Z.eqb_neq. intros Hz. rewrite Hz, Z.bits_0 in E. done.
Qed.

(** The window moved up by [d]. *)
Lemma slide_bits v d i : 0 <= d < 2 ^ 32 -> 0 <= i < 128 ->
  Z.testbit (default 0 (u128_checked_shl v (as_u32 d))) i = (d <=? i) && Z.testbit v (i - d).
Proof.
  intros Hd Hi. unfold as_u32. rewrite Z.mod_small by lia. unfold u128_checked_shl. destruct (Z.ltb_spec d 128); cbn [from_option id].
  - rewrite Z.mod_pow2_bits_low by lia. rewrite Z.shiftl_spec by lia. destruct (Z.leb_spec d i); [done|]. apply Z.testbit_neg_r. lia.
  - rewrite Z.bits_0. destruct (Z.leb_spec d i); [lia|done].
Qed.
Lemma slide_inv w hist d : window_inv w hist -> 0 < d < 2 ^ 32 -> pw_lower w + d < 2 ^ 63 ->
  window_inv (mkWindow (pw_lower w + d) (Z.lor (default 0 (u128_checked_shl (pw_window w) (as_u32 d))) 1)) (pw_lower w + d + 127 :: hist).
Proof.
  intros [Hl Hb Hi Ht] Hd H63. rewrite Forall_forall in Hb. constructor; cbn [pw_lower pw_window]; [lia| | |intros; by left].
  - constructor; [lia|]. rewrite Forall_forall. intros n Hn. specialize (Hb n Hn). lia.
  - intros i Hi'. rewrite Z.lor_spec, slide_bits by lia. cbn [In]. change 1 with (2 ^ 0). destruct (decide (i = 0)) as [->|Hne].
    { rewrite Z.pow2_bits_true, orb_true_r by lia. split; [left; lia|done]. }
    rewrite Z.pow2_bits_false, orb_false_r by lia. destruct (Z.leb_spec d i); cbn [andb].
    + rewrite (Hi (i - d)) by lia. replace (pw_lower w + 127 - (i - d)) with (pw_lower w + d + 127 - i) by lia. split; [by right|]. intros [?|?]; [lia|done].
    + split; [done|]. intros [?|Hin]; [lia|]. specialize (Hb _ Hin). simpl in Hb. lia.
Qed.

Lemma insert_window w hist seq : window_inv w hist -> 0 <= seq < 2 ^ 63 -> pw_lower w <= seq -> seq - pw_upper w < 2 ^ 32 ->
  window_inv (pw_insert seq w) (seq :: hist).
Proof.
  intros Hw Hs Hlo Hd. pose proof (upper_spec w hist Hw) as Hu. unfold pw_insert. replace (seq <? pw_lower w) with false by lia.
  destruct (Z.ltb_spec (pw_upper w) seq).
  - cbn [pw_lower pw_window]. pose proof (slide_inv w hist (seq - pw_upper w) Hw ltac:(lia) ltac:(lia)) as Hi.
    replace (pw_lower w + (seq - pw_upper w) + 127) with seq in Hi by lia.
    replace (pw_upper (mkWindow _ _) - seq) with 0; [done|]. unfold pw_upper at 1. cbn [pw_lower]. destruct Hw as [? _ _ _]. lia.
  - destruct Hw as [Hl Hb Hi Ht]. rewrite Hu in *. constructor; cbn [pw_lower pw_window]; [lia| | |intros; right; by apply Ht].
    + constructor; [lia|done].
    + intros i Hi'. rewrite Z.lor_spec, Z.shiftl_1_l. cbn [In]. destruct (decide (i = pw_lower w + 127 - seq)) as [->|Hne].
      * rewrite Z.pow2_bits_true, orb_true_r by lia. split; [left; lia|done].
      * rewrite Z.pow2_bits_false, orb_false_r by lia. rewrite Hi by lia. split; [by right|]. intros [?|?]; [lia|done].
Qed.

(** ** Receiving packets *)

(** A decoded number is not far above the largest one so far. *)
Lemma decode_bounds largest t len : 1 <= len <= 4 -> 0 <= largest -> 0 <= t < 2 ^ (8 * len) ->
  0 <= decode_pkt_num largest t len <= Z.max (largest + 1 + 2 ^ 31) (2 ^ 32 - 1).
Proof.
  intros Hl H0 Ht. unfold decode_pkt_num. replace (len * 8) with (8 * len) by lia. rewrite !Z.shiftl_mul_pow2, !Z.mul_1_l by lia.
  assert (2 ^ (8 * len) = 2 * 2 ^ (8 * len - 1)) as E. { rewrite <- Z.pow_succ_r by lia. f_equal. lia. }
  rewrite candidate_spec by lia. assert (2 ^ (8 * len - 1) <= 2 ^ 31) as H31 by (apply Z.pow_le_mono_r; lia).
  set (H := 2 ^ (8 * len - 1)) in *. set (W := 2 ^ (8 * len)) in *. assert (0 < H) by (apply Z.pow_pos_nonneg; lia).
  assert (W / 2 = H) as -> by (rewrite E, Z.mul_comm; apply Z.div_mul; lia).
  pose proof (Z.div_mod (largest + 1) W ltac:(lia)). pose proof (Z.mod_pos_bound (largest + 1) W ltac:(lia)).
  assert (0 <= (largest + 1) / W) by (apply Z.div_pos; lia). set (e := (largest + 1) / W) in *.
  assert (0 <= W * e) by nia. set (c := W * e) in *. repeat case_match; lia.
Qed.

(** A packet of the network, with its truncated number and whether it decrypts,
    or the news that an acknowledgement up to [largest] has arrived. *)
Inductive rx_event : Type :=
| RxPacket (truncated pn_len now : Z) (authentic ack_elicited probing : bool)
| RxAckAcked (largest : Z).
Definition rx_ok (ev : rx_event) : Prop :=
  match ev with RxPacket t len _ _ _ _ => 1 <= len <= 4 /\ 0 <= t < 2 ^ (8 * len) | RxAckAcked l => 0 <= l < 2 ^ 62 end.
(** The numbers of the packets that were processed come with the space. *)
Definition rx_step (q : PktNumSpace * list Z) (ev : rx_event) : q_result (PktNumSpace * list Z) :=
  let '(s, done) := q in
  match ev with
  | RxPacket t len now authentic ack_elicited probing =>
      let pn := decode_pkt_num (ps_largest_rx s) t len in
      if negb authentic || pw_contains pn (ps_window s) then Ok q
      else let! s := space_on_received now pn ack_elicited probing s in Ok (s, pn :: done)
  | RxAckAcked largest =>
      match rs_remove_until (ps_need_ack s) largest with
      | Ok t => Ok (mkSpace (ps_largest_rx s) (ps_largest_rx_time s) (ps_largest_rx_non_probing s) (ps_largest_tx s) t (ps_window s) (ps_ack_elicited s), done)
      | _ => Panic
      end
  end.
Fixpoint rx_run (q : PktNumSpace * list Z) (evs : list rx_event) : q_result (PktNumSpace * list Z) :=
  match evs with [] => Ok q | ev :: evs => let! q := rx_step q ev in rx_run q evs end.

Record rx_inv (n : Z) (q : PktNumSpace * list Z) : Prop := mkRxInv {
  rx_window : window_inv (ps_window q.1) q.2;
  rx_largest : 0 <= ps_largest_rx q.1 <= n * 2 ^ 32 /\ (ps_largest_rx q.1 = 0 \/ In (ps_largest_rx q.1) q.2);
  rx_upto : Forall (fun pn => 0 <= pn <= ps_largest_rx q.1) q.2;
  rx_once : NoDup q.2;
  rx_set : rs_ok (ps_need_ack q.1) /\ solid (rs_iter (ps_need_ack q.1)) /\ rs_capacity (ps_need_ack q.1) = MAX_ACK_RANGES;
  rx_acks x : member (rs_iter (ps_need_ack q.1)) x -> In x q.2
}.

(** The upper end of the window follows the largest number. *)
Lemma rx_upper n q : rx_inv n q -> pw_lower (ps_window q.1) + 127 = Z.max 127 (ps_largest_rx q.1).
Proof.
  intros [[Hl Hb _ Ht] [Hr Hm] Hu _ _ _]. rewrite Forall_forall in Hb, Hu.
  assert (ps_largest_rx q.1 <= pw_lower (ps_window q.1) + 127). { destruct Hm as [?|Hin]; [lia|]. apply (Hb _ Hin). }
  destruct (decide (0 < pw_lower (ps_window q.1))) as [Hp|]; [|lia]. specialize (Hu _ (Ht Hp)). simpl in Hu. lia.
Qed.

Lemma push_item_ok t pn : rs_ok t -> solid (rs_iter t) -> 0 <= pn < 2 ^ 63 ->
  exists t', push_item t pn = Ok t' /\ rs_ok t' /\ solid (rs_iter t') /\ rs_capacity t' = rs_capacity t /\
    forall x, member (rs_iter t') x -> x = pn \/ member (rs_iter t) x.
Proof.
  intros Hk Hs Hp. unfold push_item, as_u64. rewrite Z.mod_small by lia.
  destruct (rs_insert_ok t (pn, pn + 1)) as (t' & E & Hk' & Hc & Hi); [done|simpl; lia..|]. exists t'. destruct Hk as (Hw & Hm & Hl & _).
  unfold MAX_INLINE_CAPACITY in Hm. rewrite Hi. split_and!; try done; [apply spec_solid; [simpl; lia|done]|].
  intros x Hx. destruct (spec_sound (rs_capacity t) (rs_iter t) (pn, pn + 1)) as (_ & _ & _ & Hsub); simpl; try done; try lia.
  destruct (Hsub x Hx); [left; simpl in *; lia|by right].
Qed.

Lemma rx_step_inv n q ev : 0 <= n < 2 ^ 30 -> rx_inv n q -> rx_ok ev -> exists q', rx_step q ev = Ok q' /\ rx_inv (n + 1) q'.
Proof.
  intros Hn Hq Ho. pose proof (rx_upper n q Hq) as Hup. destruct q as [s acc], Hq as [Hw [Hr Hm] Hu Ho1 (Hk & Hs & Hc) Ha].
  cbn [fst snd] in *. destruct ev as [t len now au ae pr|largest]; simpl in Ho.
  - destruct Ho as [Hl Ht]. pose proof (decode_bounds (ps_largest_rx s) t len Hl ltac:(lia) Ht) as Hd. cbn [rx_step].
    set (pn := decode_pkt_num (ps_largest_rx s) t len) in *. destruct (negb au || pw_contains pn (ps_window s)) eqn:Ec.
    { eexists. split; [done|]. constructor; cbn [fst snd]; try done. split; [lia|done]. }
    apply orb_false_iff in Ec as [_ Ec]. pose proof (contains_spec _ _ pn Hw ltac:(lia)) as Hcs. rewrite Ec in Hcs.
    assert (~ (pn < pw_lower (ps_window s)) /\ ~ In pn acc) as [Hlo Hin] by naive_solver.
    destruct (push_item_ok (ps_need_ack s) pn Hk Hs ltac:(lia)) as (t' & E & Hk' & Hs' & Hc' & Hsub).
    unfold space_on_received. rewrite E. cbn [obind]. eexists. split; [done|]. pose proof (upper_spec _ _ Hw).
    constructor; cbn [fst snd ps_window ps_largest_rx ps_need_ack].
    + apply insert_window; try done; lia.
    + split; [lia|]. destruct (Z.max_spec (ps_largest_rx s) pn) as [[_ ->]|[_ ->]]; [right; by left|]. destruct Hm; [by left|right; by right].
    + constructor; [lia|]. eapply Forall_impl; [|exact Hu]. simpl. lia.
    + constructor; [by rewrite list_elem_of_In|done].
    + split_and!; try done. by rewrite Hc'.
    + intros x Hx. destruct (Hsub x Hx) as [-> |?]; [by left|right; auto].
  - cbn [rx_step]. destruct (rs_remove_ok (ps_need_ack s) largest Hk Hs ltac:(lia)) as (t' & E & Hk' & Hc' & Hi'). rewrite E.
    destruct (trim_sound largest (-1) (rs_iter (ps_need_ack s))) as (_ & Ts & _ & Tm); [apply Hk|done|lia..|].
    eexists. split; [done|]. constructor; cbn [fst snd ps_window ps_largest_rx ps_need_ack]; try done.
    + split; [lia|done].
    + rewrite Hi'. split_and!; try done. by rewrite Hc'.
    + intros x. rewrite Hi'. intros Hx. apply Ha. by apply Tm.
Qed.
Lemma rx_run_inv evs n q : 0 <= n -> n + zlen evs <= 2 ^ 30 -> rx_inv n q -> Forall rx_ok evs ->
  exists q', rx_run q evs = Ok q' /\ rx_inv (n + zlen evs) q'.
Proof.
  intros Hn Hz Hq H. revert n q Hn Hz Hq. induction H as [|ev evs Hev _ IH]; intros n q Hn Hz Hq.
  { exists q. change (zlen (@nil rx_event)) with 0. by rewrite Z.add_0_r. }
  rewrite zlen_cons in *. pose proof (zlen_nonneg evs). destruct (rx_step_inv n q ev ltac:(lia) Hq Hev) as (q1 & E & Hq1).
  cbn [rx_run]. rewrite E. cbn [obind]. destruct (IH (n + 1) q1) as (q' & E' & Hq'); [lia..|done|]. exists q'. split; [done|].
  by rewrite Z.add_assoc.
Qed.
Lemma rx_start now : rx_inv 0 (space_new now, []).
Proof.
  constructor; cbn [fst snd]; simpl.
  - apply window_default_inv.
  - split; [lia|by left].
  - constructor.
  - constructor.
  - unfold rs_ok, rs_len, MAX_INLINE_CAPACITY, MAX_ACK_RANGES. simpl. change (zlen (@nil range)) with 0. split_and!; try done; try lia. constructor.
  - intros x. by rewrite member_nil.
Qed.

(** C8: no packet is processed twice and nothing else is acknowledged.  Whatever
    packets arrive, whichever of them decrypt and whenever acknowledgements are
    confirmed, up to 2^30 of them: the numbers of the processed packets are all
    different; a later packet is taken for a duplicate exactly when its number
    was processed or lies 128 or more below the largest one; and every number
    the space would acknowledge is that of a processed packet. *)
Theorem no_packet_twice now evs : zlen evs <= 2 ^ 30 -> Forall rx_ok evs ->
  exists s done, rx_run (space_new now, []) evs = Ok (s, done) /\ NoDup done /\
    (forall pn, 0 <= pn -> pw_contains pn (ps_window s) = true <-> In pn done \/ pn < ps_largest_rx s - 127) /\
    (forall pn, In pn done -> pn <= ps_largest_rx s) /\
    forall pn, member (rs_iter (ps_need_ack s)) pn -> In pn done.
Proof.
  intros Hz He. destruct (rx_run_inv evs 0 (space_new now, [])) as ([s acc] & E & Hq); [done|lia|apply rx_start|done|].
  exists s, acc. pose proof (rx_upper _ _ Hq) as Hup. destruct Hq as [Hw _ Hu Hd _ Ha]. cbn [fst snd] in *. split_and!; try done.
  - intros pn Hp. rewrite contains_spec by done. split; intros [?|?]; solve [by left|by right|left; lia|right; lia].
  - intros pn Hp. rewrite Forall_forall in Hu. by apply Hu.
Qed.
Lemma no_packet_twice_witness :
  let p t := RxPacket t 1 0 true true false in
  exists s, rx_run (space_new 0, []) [p 0; p 2; p 1; p 2; RxPacket 3 1 0 false true false; RxAckAcked 0; p 130; p 0] = Ok (s, [256; 130; 1; 2; 0]) /\
    rs_iter (ps_need_ack s) = [(1, 3); (130, 131); (256, 257)] /\ pw_contains 2 (ps_window s) = true /\ pw_contains 131 (ps_window s) = false.
Proof.
  intros p. destruct (no_packet_twice 0 [p 0; p 2; p 1; p 2; RxPacket 3 1 0 false true false; RxAckAcked 0; p 130; p 0]) as (s & acc & E & _ & Hc & _).
  - vm_compute. discriminate.
  - repeat constructor; simpl; lia.
  - vm_compute in E. injection E as <- <-. eexists. split; [vm_compute; reflexivity|]. split; [reflexivity|]. split.
    + apply (Hc 2); [lia|]. left. simpl. auto.
    + destruct (pw_contains 131 _) eqn:E3; [|done]. apply Hc in E3; [|lia]. simpl in E3. lia.
Defined.

(** ** The header on the wire *)

Definition hdr_first (h : Header) : Z :=
  let n := Z.max 0 (h_pkt_num_len h - 1) in
  match h_ty h with
  | Short => 0x40 + n + (if h_key_phase h then 4 else 0)
  | Initial => 0xc0 + n
  | ZeroRTT => 0xd0 + n
  | Handshake => 0xe0 + n
  | _ => 0xf0 + n
  end.
Definition tail_bytes (h : Header) : bytes :=
  match h_ty h with
  | Initial => enc_varint (zlen (default [] (h_token h))) ++ default [] (h_token h)
  | Retry => default [] (h_token h)
  | _ => []
  end.
Definition hdr_bytes (h : Header) : bytes :=
  match h_ty h with
  | Short => [hdr_first h] ++ h_dcid h
  | _ => [hdr_first h] ++ to_be 4 (h_version h) ++ ([zlen (h_dcid h)] ++ h_dcid h) ++ ([zlen (h_scid h)] ++ h_scid h) ++ tail_bytes h
  end.
(** A header that is sent to a peer whose identifiers have [dcid_len] bytes. *)
Definition hdr_ok `{Target} (dcid_len : Z) (h : Header) : Prop :=
  0 <= h_pkt_num_len h <= 4 /\ zlen (h_dcid h) <= MAX_CID_LEN /\ zlen (h_scid h) <= MAX_CID_LEN /\
  match h_ty h with
  | Short => zlen (h_dcid h) = dcid_len
  | VersionNegotiation => False
  | ty => 0 < h_version h < 2 ^ 32 /\ zlen (default [] (h_token h)) <= MAX_VAR_INT /\ zlen (default [] (h_token h)) <= usize_max /\ (ty = Retry -> is_Some (h_token h))
  end.
(** What the peer sees of it before the protection is removed. *)
Definition hdr_seen (h : Header) : Header :=
  match h_ty h with
  | Short => mkHeader Short 0 (h_dcid h) [] 0 0 None None false
  | ty => mkHeader ty (h_version h) (h_dcid h) (h_scid h) 0 0
            (match ty with Initial | Retry => Some (default [] (h_token h)) | _ => None end) None false
  end.

Lemma first_cases n : 0 <= n <= 4 -> Z.max 0 (n - 1) = 0 \/ Z.max 0 (n - 1) = 1 \/ Z.max 0 (n - 1) = 2 \/ Z.max 0 (n - 1) = 3.
Proof. lia. Qed.
Lemma cid_len_u8 (c : bytes) : zlen c <= MAX_CID_LEN -> as_u8 (as_u8 (zlen c)) = zlen c.
Proof. unfold as_u8, MAX_CID_LEN. pose proof (zlen_nonneg c). intros. rewrite Z.mod_mod by lia. apply Z.mod_small. lia. Qed.

Lemma writes_tail h : (h_ty h = Retry -> is_Some (h_token h)) -> zlen (default [] (h_token h)) <= MAX_VAR_INT -> writes (write_tail h) (tail_bytes h).
Proof.
  intros Hr Hl. unfold write_tail, tail_bytes. pose proof (zlen_nonneg (default [] (h_token h))).
  destruct (h_ty h); try apply writes_nop; destruct (h_token h) as [t|]; cbn [from_option id] in *.
  - apply writes_seq; [by apply writes_varint|apply writes_bytes].
  - apply (writes_varint 0). done.
  - apply writes_bytes.
  - by destruct (Hr eq_refl).
Qed.
Lemma long_bytes h ty : long_code (h_ty h) = Ok ty -> 0 <= h_pkt_num_len h <= 4 -> zlen (h_dcid h) <= MAX_CID_LEN -> zlen (h_scid h) <= MAX_CID_LEN ->
  hdr_bytes h = [as_u8 (Z.lor (as_u8 (Z.max 0 (h_pkt_num_len h - 1))) (Z.lor (Z.lor FORM_BIT FIXED_BIT) (Z.shiftl ty 4)))] ++
    to_be 4 (h_version h) ++ [as_u8 (as_u8 (zlen (h_dcid h)))] ++ h_dcid h ++ [as_u8 (as_u8 (zlen (h_scid h)))] ++ h_scid h ++ tail_bytes h.
Proof.
  intros El Hn Hd Hs. rewrite !cid_len_u8 by done. unfold hdr_bytes, hdr_first.
  destruct (h_ty h); simplify_eq/=; rewrite <- ?app_assoc; simpl; f_equal; destruct (first_cases _ Hn) as [-> |[-> |[-> | ->]]]; reflexivity.
Qed.
Lemma short_bytes h : h_ty h = Short -> 0 <= h_pkt_num_len h <= 4 ->
  let first := Z.lor (Z.land (as_u8 (Z.max 0 (h_pkt_num_len h - 1))) 0x7f) FIXED_BIT in
  hdr_bytes h = [as_u8 (if h_key_phase h then Z.lor first KEY_PHASE_BIT else Z.land first 0xfb)] ++ h_dcid h.
Proof.
  intros E Hn. unfold hdr_bytes, hdr_first. rewrite E. f_equal. f_equal.
  destruct (h_key_phase h), (first_cases _ Hn) as [-> |[-> |[-> | ->]]]; reflexivity.
Qed.
Lemma hdr_writes `{Target} dcid_len h : hdr_ok dcid_len h -> writes (hdr_to_bytes h) (hdr_bytes h).
Proof.
  intros (Hn & Hd & Hs & Ht). destruct (decide (h_ty h = Short)) as [E|E].
  - rewrite short_bytes by done. intros p r Hr. unfold hdr_to_bytes. rewrite decide_True by done. revert p r Hr.
    apply (writes_seq (w_u8 _) (w_bytes _)); [apply writes_u8|apply writes_bytes].
  - destruct (long_code (h_ty h)) as [ty| | |] eqn:El; [|by destruct (h_ty h)..]. rewrite (long_bytes h ty) by done.
    intros p r Hr. unfold hdr_to_bytes. rewrite decide_False, El by done. cbn [obind]. revert p r Hr.
    apply (writes_seq (w_u8 _)); [apply writes_u8|]. repeat (apply writes_seq; [first [apply writes_u8|apply writes_bytes|apply writes_u; lia]|]).
    apply writes_tail; destruct (h_ty h); try done; tauto.
Qed.

Lemma parses_cid version c q : zlen c <= MAX_CID_LEN -> parses (read_cid version) ([zlen c] ++ c) c q.
Proof.
  intros Hc. eapply parses_bind; [apply parses_u8|]. replace (MAX_CID_LEN <? zlen c) with false by lia. rewrite andb_false_r. by apply parses_bytes.
Qed.
Lemma parses_tail `{Target} h q : (h_ty h = Retry -> zlen q = RETRY_TAG_LEN) -> h_ty h <> VersionNegotiation ->
  zlen (default [] (h_token h)) <= MAX_VAR_INT -> zlen (default [] (h_token h)) <= usize_max ->
  parses (read_tail (h_ty h)) (tail_bytes h) (match h_ty h with Initial | Retry => Some (default [] (h_token h)) | _ => None end, None) q.
Proof.
  intros Hr Hv Hl Hu. unfold read_tail, tail_bytes. destruct (h_ty h); try done; try apply parses_ret.
  - apply (parses_map _ (fun t => (Some t, None))). by apply parses_varint_bytes.
  - specialize (Hr eq_refl). eapply parses_step; [apply parses_cap|]. rewrite zlen_app, Hr. pose proof (zlen_nonneg (default [] (h_token h))).
    replace (_ <? _) with false by (unfold RETRY_TAG_LEN; lia). apply (parses_map _ (fun t => (Some t, None))). apply parses_bytes. lia.
Qed.
(** The header behind its first byte; of that byte only the form and the type
    count. *)
Definition hdr_rest (h : Header) : bytes := tail (hdr_bytes h).
Definition same_kind (f g : Z) : Prop := is_long f = is_long g /\ (is_long g = true -> Z.land f TYPE_MASK = Z.land g TYPE_MASK).
Lemma hdr_bytes_first h : hdr_bytes h = hdr_first h :: hdr_rest h.
Proof. unfold hdr_rest, hdr_bytes. by destruct (h_ty h). Qed.
Lemma short_first h : h_ty h = Short -> 0 <= h_pkt_num_len h <= 4 -> is_long (hdr_first h) = false.
Proof. intros E Hn. unfold hdr_first. rewrite E. destruct (h_key_phase h), (first_cases _ Hn) as [-> |[-> |[-> | ->]]]; reflexivity. Qed.
Lemma long_first h : h_ty h <> Short -> h_ty h <> VersionNegotiation -> 0 <= h_pkt_num_len h <= 4 ->
  is_long (hdr_first h) = true /\ forall f v, Z.land f TYPE_MASK = Z.land (hdr_first h) TYPE_MASK -> v <> 0 -> long_type f v = Ok (h_ty h).
Proof.
  intros Es Ev Hn. unfold long_type, hdr_first. split; [|intros f v -> Hv; rewrite (proj2 (Z.eqb_neq v 0)) by done];
    destruct (h_ty h), (first_cases _ Hn) as [-> |[-> |[-> | ->]]]; done || reflexivity.
Qed.

Lemma hdr_parses `{Target} dcid_len h f q : hdr_ok dcid_len h -> same_kind f (hdr_first h) -> (h_ty h = Retry -> zlen q = RETRY_TAG_LEN) ->
  parses (hdr_from_bytes dcid_len) (f :: hdr_rest h) (hdr_seen h) q.
Proof.
  intros (Hn & Hd & Hs & Ht) [Hf Hty] Hr. change (f :: hdr_rest h) with ([f] ++ hdr_rest h).
  unfold hdr_rest, hdr_bytes, hdr_seen. destruct (decide (h_ty h = Short)) as [E|E].
  - rewrite short_first in * by done. rewrite E in *. eapply parses_bind; [apply parses_u8|]. rewrite Hf. cbn [negb].
    apply (parses_map _ (fun d => mkHeader Short 0 d [] 0 0 None None false)). by apply parses_bytes.
  - assert (0 < h_version h < 2 ^ 32 /\ zlen (default [] (h_token h)) <= MAX_VAR_INT /\ zlen (default [] (h_token h)) <= usize_max /\ h_ty h <> VersionNegotiation) as (Hv & Hl & Hu & Hne)
      by (destruct (h_ty h); try done; by destruct Ht as (? & ? & ? & ?)).
    destruct (long_first h E Hne Hn) as [Hlong Htype]. rewrite Hlong in *. specialize (Hty eq_refl).
    replace (tail _) with (to_be 4 (h_version h) ++ ([zlen (h_dcid h)] ++ h_dcid h) ++ ([zlen (h_scid h)] ++ h_scid h) ++ tail_bytes h) by (by destruct (h_ty h)).
    eapply parses_bind; [apply parses_u8|]. rewrite Hf. cbn [negb]. eapply parses_bind; [apply parses_u; lia|].
    eapply parses_step; [apply parses_lift; apply Htype; [done|lia]|].
    eapply parses_bind; [by apply parses_cid|]. eapply parses_bind; [by apply parses_cid|].
    eassert (parses _ _ _ _) as Hp; [|refine (eq_ind _ (fun x => parses _ _ x _) Hp _ _)]; [apply parses_map; by apply parses_tail|]. by destruct (h_ty h).
Qed.

(** Any bytes at all give a header or an error. *)
Lemma read_versions_ok fuel vs o : cursor_ok o -> o_cap o < Z.of_nat fuel -> reads 0 o (read_versions fuel vs o).
Proof.
  revert vs o. induction fuel as [|fuel IH]; intros vs o Ho Hf; [destruct Ho; unfold o_cap in *; lia|]. cbn [read_versions].
  destruct (Z.ltb_spec 0 (o_cap o)); [|simpl; split; [done|lia]]. unfold rbind. pose proof (consumes_u 4 o Ho) as H4.
  destruct (r_u 4 o) as [[v o']| | |]; simpl in *; try done. destruct H4 as [Ho' Hc]. specialize (IH (vs ++ [v]) o' Ho' ltac:(lia)).
  destruct (read_versions fuel _ o') as [[]| | |]; simpl in *; try done. destruct IH. split; [done|lia].
Qed.
Lemma consumes_cid version : consumes 0 (read_cid version).
Proof.
  intros o Ho. unfold read_cid, rbind, r_u8. pose proof (get_u_cases 1 o Ho) as H1. unfold get_u8. destruct (_ <? _) eqn:Ec; [by rewrite H1|].
  destruct H1 as (v & -> & Hv). simpl in *. assert (cursor_ok (o_advance o 1)) as Ho1 by (apply o_advance_ok; [done|lia]).
  destruct (version_is_supported version && _); [done|]. pose proof (consumes_bytes v ltac:(lia) _ Ho1) as Hb.
  unfold Pos.to_nat in *. simpl in *. change (Z.of_nat 1) with 1. destruct (r_bytes v _) as [[]| | |]; simpl in *; try done.
  rewrite o_cap_advance in Hb. destruct Hb. split; [done|lia].
Qed.
Lemma consumes_tail `{Target} ty : consumes 0 (read_tail ty).
Proof.
  destruct ty; cbn [read_tail]; try apply consumes_ret.
  - apply (consumes_weaken 1); [lia|]. apply (consumes_bind 1 0); [apply consumes_varint_bytes|intros; apply consumes_ret].
  - apply consumes_then; [intros o Ho; simpl; split; [done|lia]|]. intros cap. destruct (Z.ltb_spec cap RETRY_TAG_LEN); [apply consumes_fail|].
    apply consumes_then; [apply consumes_bytes; lia|intros; apply consumes_ret].
  - intros o Ho. apply (reads_bind 0 0); [|intros vs o' Ho'; by apply consumes_ret].
    apply read_versions_ok; [done|]. destruct Ho. unfold o_cap. lia.
Qed.
Lemma header_returns `{Target} dcid_len : 0 <= dcid_len -> consumes 1 (hdr_from_bytes dcid_len).
Proof.
  intros Hd. apply (consumes_bind 1 0); [apply consumes_u8|]. intros first. destruct (negb _).
  - apply consumes_then; [by apply consumes_bytes|intros; apply consumes_ret].
  - apply consumes_then; [apply (consumes_weaken 4); [lia|apply (consumes_u 4)]|]. intros version.
    apply consumes_then; [apply consumes_lift; unfold long_type; repeat case_match; done|]. intros ty.
    apply consumes_then; [apply consumes_cid|]. intros dcid. apply consumes_then; [apply consumes_cid|]. intros scid.
    apply consumes_then; [apply consumes_tail|]. intros tail. apply consumes_ret.
Qed.
