(* ===== verification/QProtect.v ===== *)
(** * Protected packets

    What the protection of QPacket achieves: with the ciphers of [Ciphers] the
    receiver's side undoes the sender's, header and payload alike, and no two
    packet numbers share a nonce. *)

From S2P Require Import Prelude Octets QRanges QBuffers QCodec QPacket.
From Stdlib Require Import ZArith Lia ZifyBool.
From stdpp Require Import base list numbers option decidable.
Open Scope Z_scope.

(** ** Masks *)

Lemma zlen_xor l k : zlen (xor_bytes l k) = Z.min (zlen l) (zlen k).
Proof. unfold xor_bytes, zlen. rewrite length_zip_with. lia. Qed.
Lemma xor_twice l k : zlen l <= zlen k -> xor_bytes (xor_bytes l k) k = l.
Proof.
  unfold xor_bytes, zlen. revert k. induction l as [|x l IH]; intros [|y k] H; simpl in *; try done; try lia.
  rewrite Z.lxor_assoc, Z.lxor_nilpotent, Z.lxor_0_r. f_equal. apply IH. lia.
Qed.
Lemma xor_comm l k : xor_bytes l k = xor_bytes k l.
Proof. unfold xor_bytes. revert k. induction l as [|x l IH]; intros [|y k]; simpl; try done. by rewrite Z.lxor_comm, IH. Qed.
Lemma xor_app_l l l' k : zlen l = zlen k -> xor_bytes (l ++ l') k = xor_bytes l k.
Proof.
  unfold xor_bytes, zlen. revert k. induction l as [|x l IH]; intros [|y k] H; simpl in *; try lia; [by destruct l'|]. f_equal. apply IH. lia.
Qed.
Lemma xor_take l k n : n = zlen l -> xor_bytes l k = xor_bytes l (ztake n k).
Proof.
  intros ->. unfold xor_bytes, ztake, zlen. rewrite Nat2Z.id. revert k. induction l as [|x l IH]; intros [|y k]; simpl; try done. f_equal. apply IH.
Qed.

(** Packet numbers have nonces of their own under one key. *)
Lemma nonces_differ iv a b : zlen iv = 12 -> 0 <= a < 2 ^ 64 -> 0 <= b < 2 ^ 64 -> make_nonce iv a = make_nonce iv b -> a = b.
Proof.
  intros Hi Ha Hb E. unfold make_nonce in E. apply app_inv_head in E. set (v := zdrop 4 iv) in *.
  assert (zlen v = 8) as Hv by (unfold v; rewrite zlen_zdrop; lia).
  assert (forall n, xor_bytes (xor_bytes v (to_be 8 n)) v = to_be 8 n) as Hx.
  { intros n. assert (xor_bytes v (to_be 8 n) = xor_bytes (to_be 8 n) v) as -> by apply xor_comm.
    apply xor_twice. by rewrite zlen_to_be, Hv. }
  rewrite <- (of_be_to_be_small 8 a), <- (of_be_to_be_small 8 b) by (simpl; lia). rewrite <- (Hx a), <- (Hx b). by rewrite E.
Qed.

Lemma land_lxor a b c : Z.land b c = 0 -> Z.land (Z.lxor a b) c = Z.land a c.
Proof.
  intros Hz. apply Z.bits_inj'. intros i Hi. rewrite !Z.land_spec, Z.lxor_spec.
  assert (Z.testbit (Z.land b c) i = false) as Hb by (by rewrite Hz, Z.bits_0). rewrite Z.land_spec in Hb.
  destruct (Z.testbit a i), (Z.testbit b i), (Z.testbit c i); done.
Qed.
(** Protecting the first byte leaves its form and type alone, and protecting it
    twice restores it. *)
Lemma protect_kind f m : same_kind (protect_first f m) f.
Proof.
  assert (forall m c n, Z.land n c = 0 -> Z.land (Z.land m n) c = 0) as H0 by (intros x c n Hn; by rewrite <- Z.land_assoc, Hn, Z.land_0_r).
  unfold same_kind, protect_first. split.
  - unfold is_long at 1. rewrite land_lxor; [done|]. by destruct (is_long f); apply H0.
  - intros ->. apply land_lxor. by apply H0.
Qed.
Lemma protect_twice f m : protect_first (protect_first f m) m = f.
Proof.
  pose proof (protect_kind f m) as [E _]. unfold protect_first at 1. rewrite E. unfold protect_first.
  by rewrite Z.lxor_assoc, Z.lxor_nilpotent, Z.lxor_0_r.
Qed.

(** ** Sealing and opening *)

Lemma ztake_app_le {A} (l k : list A) n : n <= zlen l -> ztake n (l ++ k) = ztake n l.
Proof. intros. unfold ztake, zlen in *. apply take_app_le. lia. Qed.
Lemma zdrop_app_le {A} (l k : list A) n : n <= zlen l -> zdrop n (l ++ k) = zdrop n l ++ k.
Proof. intros. unfold zdrop, zlen in *. apply drop_app_le. lia. Qed.
Lemma ztake_app_ge {A} (l k : list A) n : zlen l <= n -> ztake n (l ++ k) = l ++ ztake (n - zlen l) k.
Proof. intros. unfold ztake, zlen in *. rewrite take_app_ge by lia. do 2 f_equal. lia. Qed.
Lemma zdrop_app_ge {A} (l k : list A) n : zlen l <= n -> zdrop n (l ++ k) = zdrop (n - zlen l) k.
Proof. intros. unfold zdrop, zlen in *. rewrite drop_app_ge by lia. f_equal. lia. Qed.

(** The sample of a ciphertext that follows a packet number of [n] bytes. *)
Definition sample_of (n : Z) (c : bytes) : bytes := zdrop (MAX_PKT_NUM_LEN - n) (ztake (SAMPLE_LEN + (MAX_PKT_NUM_LEN - n)) c).
Lemma sample_app n c x : SAMPLE_LEN + (MAX_PKT_NUM_LEN - n) <= zlen c -> sample_of n (c ++ x) = sample_of n c.
Proof. intros Hc. unfold sample_of. by rewrite ztake_app_le. Qed.

Section RoundTrip.
Context `{Ciphers}.
Context (k : Keys) (Hiv : zlen (k_iv k) = nonce_len (k_alg k)).

Lemma tag_16 : tag_len (k_alg k) = 16.
Proof. by destruct (k_alg k). Qed.
Lemma mask_cons s : exists m0 ms, new_mask k s = m0 :: ms /\ zlen ms = 4.
Proof.
  unfold new_mask. pose proof (mask_len (k_alg k) (k_hp k) s) as Hl. destruct (hp_mask _ _ _) as [|m0 ms]; [done|].
  rewrite zlen_cons in Hl. exists m0, ms. split; [done|lia].
Qed.
Lemma nonce_ok pn : zlen (make_nonce (k_iv k) pn) = nonce_len (k_alg k).
Proof.
  assert (zlen (k_iv k) = 12) as H12 by (rewrite Hiv; by destruct (k_alg k)).
  unfold make_nonce. rewrite zlen_app, zlen_ztake, zlen_xor, zlen_zdrop, zlen_to_be. destruct (k_alg k); simpl; lia.
Qed.

Lemma encrypt_hdr_spec first mid pnb payload m0 ms : 1 <= zlen pnb <= 4 -> SAMPLE_LEN + (MAX_PKT_NUM_LEN - zlen pnb) <= zlen payload ->
  new_mask k (sample_of (zlen pnb) payload) = m0 :: ms ->
  encrypt_hdr k (first :: mid ++ pnb) (zlen pnb) payload = Ok (protect_first first m0 :: mid ++ xor_bytes pnb ms).
Proof.
  intros Hn Hp Hm. unfold encrypt_hdr, idx_range, get_range, MAX_PKT_NUM_LEN, SAMPLE_LEN in *.
  replace ((0 <=? _) && _ && _) with true by lia. cbn [obind]. unfold sample_of, MAX_PKT_NUM_LEN, SAMPLE_LEN in Hm. rewrite Hm. cbn [idx zget].
  unfold idx. simpl. rewrite zlen_app. pose proof (zlen_nonneg mid). replace (_ <? _) with false by lia.
  rewrite ztake_app_length by lia. by rewrite zdrop_app_length by lia.
Qed.

Lemma seal_spec pn ad msg r : tag_len (k_alg k) <= zlen r ->
  exists c, aead_seal (k_alg k) (k_key k) (make_nonce (k_iv k) pn) ad msg = Some c /\ zlen c = zlen msg + 16 /\
    seal_with_u64_counter k pn ad (msg ++ r) (zlen msg) = Ok (c ++ zdrop 16 r, zlen msg + 16).
Proof.
  intros Hr. destruct (seal_total (k_alg k) (k_key k) (make_nonce (k_iv k) pn) ad msg (nonce_ok pn)) as (c & E). exists c.
  pose proof (seal_len _ _ _ _ _ _ E) as Hc. rewrite tag_16 in *. split; [done|]. split; [done|].
  unfold seal_with_u64_counter. rewrite tag_16, zlen_app. replace (_ <? _) with false by lia.
  rewrite ztake_app_length, E by done. unfold splice. rewrite Hc. rewrite zdrop_app_ge by lia. do 2 f_equal. simpl. do 2 f_equal. lia.
Qed.

Lemma encrypt_pkt_spec first mid pnb msg r pn : 1 <= zlen pnb <= 4 -> 4 <= zlen msg -> 16 <= zlen r ->
  exists c m0 ms, aead_seal (k_alg k) (k_key k) (make_nonce (k_iv k) pn) (first :: mid ++ pnb) msg = Some c /\ zlen c = zlen msg + 16 /\
    new_mask k (sample_of (zlen pnb) c) = m0 :: ms /\ zlen ms = 4 /\
    encrypt_pkt k ((first :: mid ++ pnb) ++ msg ++ r) pn (zlen pnb) (zlen msg) (zlen (first :: mid ++ pnb)) =
      Ok ((protect_first first m0 :: mid ++ xor_bytes pnb ms) ++ c ++ zdrop 16 r, zlen (first :: mid ++ pnb) + (zlen msg + 16)).
Proof.
  intros Hn Hm Hr. destruct (seal_spec pn (first :: mid ++ pnb) msg r) as (c & E & Hc & Es); [by rewrite tag_16|].
  destruct (mask_cons (sample_of (zlen pnb) c)) as (m0 & ms & Em & Hms). exists c, m0, ms. split_and!; try done.
  unfold encrypt_pkt. pose proof (zlen_nonneg (msg ++ r)). rewrite zlen_app. replace (_ <? _) with false by lia.
  rewrite ztake_app_length, zdrop_app_length by done. rewrite Es. cbn [obind].
  assert (SAMPLE_LEN + (MAX_PKT_NUM_LEN - zlen pnb) <= zlen c) as Hs by (unfold SAMPLE_LEN, MAX_PKT_NUM_LEN; lia).
  rewrite (encrypt_hdr_spec _ _ _ _ m0 ms); [done|done|rewrite zlen_app; pose proof (zlen_nonneg (zdrop 16 r)); lia|by rewrite sample_app].
Qed.

Lemma decrypt_hdr_spec first mid pnb c more hdr m0 ms : 1 <= zlen pnb <= 4 -> SAMPLE_LEN + (MAX_PKT_NUM_LEN - zlen pnb) <= zlen c ->
  Z.land first PKT_NUM_MASK + 1 = zlen pnb -> new_mask k (sample_of (zlen pnb) c) = m0 :: ms -> zlen ms = 4 ->
  decrypt_hdr k (mkOctetsMut (protect_first first m0 :: mid ++ xor_bytes pnb ms ++ c ++ more) (1 + zlen mid)) hdr =
  Ok (mkOctetsMut (first :: mid ++ pnb ++ c ++ more) (1 + zlen mid + zlen pnb),
      mkHeader (h_ty hdr) (h_version hdr) (h_dcid hdr) (h_scid hdr) (of_be pnb) (zlen pnb) (h_token hdr) (h_versions hdr)
        (if decide (h_ty hdr = Short) then negb (Z.land first KEY_PHASE_BIT =? 0) else h_key_phase hdr)).
Proof.
  intros Hn Hc Hf Hm Hms. pose proof (zlen_nonneg mid). pose proof (zlen_nonneg more). assert (zlen (xor_bytes pnb ms) = zlen pnb) as Hx by (rewrite zlen_xor; lia).
  unfold decrypt_hdr, m_cap. cbn [m_buf m_off]. rewrite zlen_cons, !zlen_app, Hx. unfold MAX_PKT_NUM_LEN, SAMPLE_LEN in *.
  replace (_ <? _) with false by lia. set (X := xor_bytes pnb ms) in *. set (f' := protect_first first m0) in *.
  assert (idx_range (f' :: mid ++ X ++ c ++ more) (1 + zlen mid) (1 + zlen mid + (4 + 16)) = Ok (X ++ ztake (20 - zlen pnb) (c ++ more)) :> q_result bytes) as ->.
  { unfold idx_range, get_range. rewrite zlen_cons, !zlen_app, Hx. replace ((0 <=? _) && _ && _) with true by lia. f_equal.
    change (f' :: mid ++ X ++ c ++ more) with ((f' :: mid) ++ X ++ c ++ more). rewrite ztake_app_ge by (rewrite zlen_cons; lia).
    rewrite zdrop_app_length by (rewrite zlen_cons; lia). rewrite zlen_cons. rewrite ztake_app_ge by lia. do 2 f_equal. lia. }
  cbn [obind]. rewrite zdrop_app_ge by lia. rewrite Hx.
  assert (new_mask k (zdrop (4 - zlen pnb) (ztake (20 - zlen pnb) (c ++ more))) = m0 :: ms) as ->.
  { rewrite ztake_app_le by lia. rewrite <- Hm. unfold sample_of, MAX_PKT_NUM_LEN, SAMPLE_LEN. do 3 f_equal. lia. }
  assert (idx (m0 :: ms) 0 = Ok m0 :> q_result Z) as -> by done. cbn [obind].
  assert (protect_first f' m0 = first) as -> by apply protect_twice. rewrite Hf.
  change (zdrop 1 (m0 :: ms)) with ms. rewrite ztake_app_length by done. unfold X at 2 3. rewrite xor_twice by lia.
  do 3 f_equal. unfold splice. change (f' :: mid ++ X ++ c ++ more) with ((f' :: mid) ++ X ++ c ++ more).
  rewrite (ztake_app_length (f' :: mid)) by (rewrite zlen_cons; lia). rewrite (zdrop_app_ge (f' :: mid)) by (rewrite zlen_cons; lia).
  rewrite (zdrop_app_length X) by (rewrite zlen_cons; lia). done.
Qed.

Lemma decrypt_pkt_spec hdr c more msg pn n : 0 <= n -> aead_seal (k_alg k) (k_key k) (make_nonce (k_iv k) pn) hdr msg = Some c ->
  decrypt_pkt k (mkOctetsMut (hdr ++ c ++ more) (zlen hdr)) pn n (n + zlen c) = Ok msg.
Proof.
  intros Hn E. pose proof (zlen_nonneg c). pose proof (zlen_nonneg more). unfold decrypt_pkt, m_cap. cbn [m_buf m_off]. rewrite !zlen_app.
  replace (_ <? zlen hdr) with false by lia. replace (n + zlen c <? n) with false by lia. replace (_ <? _) with false by lia.
  rewrite ztake_app_length by done. unfold idx_range. rewrite get_range_mid by lia. cbn [obind]. unfold open_with_u64_counter.
  pose proof (seal_len _ _ _ _ _ _ E) as Hl. pose proof (zlen_nonneg msg). replace (_ <? _) with false by lia. by rewrite (open_sealed _ _ _ _ _ _ E).
Qed.

End RoundTrip.
