(* ===== verification/QKeys.v ===== *)
(** * The keys of a QUIC connection

    Models crypto/mod.rs and the keys of crypto/boringssl.rs and packet.rs of
    quiche: the derivation of packet keys from secrets, the Initial keys, the
    tag of Retry packets, and the key update of a connection ([KeyUpdate],
    [CryptoContext] and the steps of [recv_single] that use them).  HKDF and the
    set-up of ciphers are BoringSSL's and so the class [Hkdf]. *)

From S2P Require Import Prelude Octets QRanges QBuffers QCodec QPacket QProtect.
From Stdlib Require Import ZArith Lia ZifyBool String.
From stdpp Require Import base list numbers option decidable.
Open Scope Z_scope.
Open Scope codec_scope.

(** [HKDF_extract] and [HKDF_expand] with the digest of an algorithm, their
    secret, the salt or the info, and the length asked for; [None] when the call
    fails.  [aead_init] and [aes_init] tell whether a key was accepted. *)
Class Hkdf : Type := {
  HKDF_extract : Algorithm -> bytes -> bytes -> Z -> option bytes;
  HKDF_expand : Algorithm -> bytes -> bytes -> Z -> option bytes;
  aead_init : Algorithm -> bytes -> bool;
  aes_init : bytes -> Z -> bool
}.
(** What is documented of them: outputs have the length asked for, up to 255
    digests of output are possible, and keys of the right length are accepted. *)
Class HkdfSound `{Hkdf} : Prop := {
  extract_len alg secret salt : exists prk, HKDF_extract alg secret salt 32 = Some prk;
  expand_len alg secret info n : 0 <= n <= 255 * 32 -> exists out, HKDF_expand alg secret info n = Some out /\ zlen out = n;
  init_len alg key : zlen key = key_len alg -> aead_init alg key = true;
  aes_len key bits : 8 * zlen key = bits -> bits = 128 \/ bits = 256 -> aes_init key bits = true
}.

(** [Open] and [Seal]: an algorithm, the secret and what is made of it. *)
Record Aead : Type := mkAead { ad_keys : Keys; ad_secret : bytes }.
#[export] Instance Algorithm_eq_dec : EqDecision Algorithm.
Proof. solve_decision. Defined.
#[export] Instance Keys_eq_dec : EqDecision Keys.
Proof. solve_decision. Defined.
#[export] Instance Aead_eq_dec : EqDecision Aead.
Proof. solve_decision. Defined.

Section Derive.
Context `{Hkdf}.

Definition hkdf_extract (alg : Algorithm) (out_len : Z) (secret salt : bytes) : q_result bytes := ok_or (HKDF_extract alg secret salt out_len) ECryptoFail.
Definition hkdf_expand (alg : Algorithm) (out_len : Z) (secret info : bytes) : q_result bytes := ok_or (HKDF_expand alg secret info out_len) ECryptoFail.

Definition LABEL_PREFIX : bytes := str "tls13 ".
Definition label_info (label : bytes) (out_len : Z) : bytes :=
  to_be 2 (as_u16 out_len) ++ [as_u8 (zlen LABEL_PREFIX + zlen label)] ++ LABEL_PREFIX ++ label ++ [0].
Definition hkdf_expand_label (alg : Algorithm) (prk label : bytes) (out_len : Z) : q_result bytes := hkdf_expand alg out_len prk (label_info label out_len).

Definition INITIAL_SALT_V1 : bytes :=
  [0x38; 0x76; 0x2c; 0xf7; 0xf5; 0x59; 0x34; 0xb3; 0x4d; 0x17; 0x9a; 0xe6; 0xa4; 0xc8; 0x0c; 0xad; 0xcc; 0xbb; 0x7f; 0x0a].
(** Both arms of the source's match on the version are the salt of version 1. *)
Definition derive_initial_secret (secret : bytes) (version : Z) : q_result bytes := hkdf_extract AES128_GCM 32 secret INITIAL_SALT_V1.
Definition derive_client_initial_secret (aead : Algorithm) (prk : bytes) : q_result bytes := hkdf_expand_label aead prk (str "client in") 32.
Definition derive_server_initial_secret (aead : Algorithm) (prk : bytes) : q_result bytes := hkdf_expand_label aead prk (str "server in") 32.
Definition derive_next_secret (aead : Algorithm) (secret : bytes) : q_result bytes := hkdf_expand_label aead secret (str "quic ku") (zlen secret).
(** The callers' buffers have the length that is derived. *)
Definition derive_hdr_key (aead : Algorithm) (secret : bytes) (out_len : Z) : q_result bytes :=
  if out_len <? key_len aead then Err ECryptoFail else hkdf_expand_label aead secret (str "quic hp") (key_len aead).
Definition derive_pkt_key (aead : Algorithm) (prk : bytes) (out_len : Z) : q_result bytes :=
  if out_len <? key_len aead then Err ECryptoFail else hkdf_expand_label aead prk (str "quic key") (key_len aead).
Definition derive_pkt_iv (aead : Algorithm) (prk : bytes) (out_len : Z) : q_result bytes :=
  if out_len <? nonce_len aead then Err ECryptoFail else hkdf_expand_label aead prk (str "quic iv") (nonce_len aead).

(** [PacketKey::new] and [HeaderProtectionKey::new]. *)
Definition packet_key_new (alg : Algorithm) (key iv : bytes) : q_result (bytes * bytes) := if aead_init alg key then Ok (key, iv) else Err ECryptoFail.
Definition header_key_new (alg : Algorithm) (hp_key : bytes) : q_result bytes :=
  match alg with
  | AES128_GCM | AES256_GCM => if aes_init hp_key (key_len alg * 8) then Ok hp_key else Err ECryptoFail
  | ChaCha20_Poly1305 => Ok hp_key
  end.
(** [PacketKey::from_secret]; the result of its dummy seal is thrown away. *)
Definition packet_key_from_secret (alg : Algorithm) (secret : bytes) : q_result (bytes * bytes) :=
  let! key := derive_pkt_key alg secret (key_len alg) in
  let! iv := derive_pkt_iv alg secret (nonce_len alg) in
  packet_key_new alg key iv.
Definition header_key_from_secret (alg : Algorithm) (secret : bytes) : q_result bytes :=
  let! hp_key := derive_hdr_key alg secret (key_len alg) in
  header_key_new alg hp_key.

(** [Open::new] and [Seal::new], and their [from_secret]. *)
Definition aead_new (alg : Algorithm) (key iv hp_key secret : bytes) : q_result Aead :=
  let! hp := header_key_new alg hp_key in
  let! '(key, iv) := packet_key_new alg key iv in
  Ok (mkAead (mkKeys alg key iv hp) secret).
Definition aead_from_secret (alg : Algorithm) (secret : bytes) : q_result Aead :=
  let! hp := header_key_from_secret alg secret in
  let! '(key, iv) := packet_key_from_secret alg secret in
  Ok (mkAead (mkKeys alg key iv hp) secret).
(** The keys after an update: the key of headers stays. *)
Definition derive_next_packet_key (a : Aead) : q_result Aead :=
  let alg := k_alg (ad_keys a) in
  let! next_secret := derive_next_secret alg (ad_secret a) in
  let! '(key, iv) := packet_key_from_secret alg next_secret in
  Ok (mkAead (mkKeys alg key iv (k_hp (ad_keys a))) next_secret).

(** The keys of Initial packets, to open and to seal. *)
Definition derive_initial_key_material (cid : bytes) (version : Z) (is_server did_reset : bool) : q_result (Aead * Aead) :=
  let aead := AES128_GCM in
  let! initial_secret := derive_initial_secret cid version in
  let! client_secret := derive_client_initial_secret aead initial_secret in
  let! server_secret := derive_server_initial_secret aead initial_secret in
  if did_reset then
    if is_server then
      let! open := aead_from_secret aead client_secret in
      let! seal := aead_from_secret aead server_secret in Ok (open, seal)
    else
      let! open := aead_from_secret aead server_secret in
      let! seal := aead_from_secret aead client_secret in Ok (open, seal)
  else
    let! client_key := derive_pkt_key aead client_secret (key_len aead) in
    let! client_iv := derive_pkt_iv aead client_secret (nonce_len aead) in
    let! client_hp_key := derive_hdr_key aead client_secret (key_len aead) in
    let! server_key := derive_pkt_key aead server_secret (key_len aead) in
    let! server_iv := derive_pkt_iv aead server_secret (nonce_len aead) in
    let! server_hp_key := derive_hdr_key aead server_secret (key_len aead) in
    if is_server then
      let! open := aead_new aead client_key client_iv client_hp_key client_secret in
      let! seal := aead_new aead server_key server_iv server_hp_key server_secret in Ok (open, seal)
    else
      let! open := aead_new aead server_key server_iv server_hp_key server_secret in
      let! seal := aead_new aead client_key client_iv client_hp_key client_secret in Ok (open, seal).
End Derive.

(** ** Retry packets *)

Section RetryTag.
Context `{BoringSSL} `{Hkdf}.
Definition RETRY_INTEGRITY_KEY_V1 : bytes := [0xbe; 0x0c; 0x69; 0x0b; 0x9f; 0x66; 0x57; 0x5a; 0x1d; 0x76; 0x6b; 0x54; 0xe3; 0x68; 0xc8; 0x4e].
Definition RETRY_INTEGRITY_NONCE_V1 : bytes := [0x46; 0x15; 0x99; 0xd3; 0x5d; 0x63; 0x2b; 0xf2; 0x23; 0x98; 0x25; 0xbb].
Definition compute_retry_integrity_tag (b : OctetsMut) (odcid : bytes) (version : Z) : q_result bytes :=
  let hdr_len := m_off b in
  let! header := idx_range (m_buf b) 0 hdr_len in
  let! pb := (w_u8 (as_u8 (zlen odcid)) >>> w_bytes odcid >>> w_bytes header) (with_slice_mut (replicate (Z.to_nat (1 + zlen odcid + hdr_len)) 0)) in
  let! '(key, nonce) := packet_key_new AES128_GCM RETRY_INTEGRITY_KEY_V1 RETRY_INTEGRITY_NONCE_V1 in
  let! '(out_tag, out_len) := seal_with_u64_counter (mkKeys AES128_GCM key nonce []) 0 (m_buf pb) (replicate 16 0) 0 in
  if out_len =? zlen out_tag then Ok out_tag else Err ECryptoFail.
Definition verify_slices_are_equal (a b : bytes) : q_result unit :=
  if negb (zlen a =? zlen b) then Err ECryptoFail else if decide (a = b) then Ok tt else Err ECryptoFail.
(** [b] stands behind the token; the tag is what follows. *)
Definition verify_retry_integrity (b : OctetsMut) (odcid : bytes) (version : Z) : q_result unit :=
  let! tag := compute_retry_integrity_tag b odcid version in
  let! rest := idx_range (m_buf b) (m_off b) (m_off b + RETRY_TAG_LEN) in
  verify_slices_are_equal rest tag.
Definition retry (scid dcid new_scid token : bytes) (version : Z) (out : bytes) : q_result (bytes * Z) :=
  if negb (version_is_supported version) then Err EUnknownVersion
  else
    let! b := hdr_to_bytes (mkHeader Retry version scid new_scid 0 0 (Some token) None false) (with_slice_mut out) in
    let! tag := compute_retry_integrity_tag b dcid version in
    let! b := w_bytes tag b in
    Ok (m_buf b, m_off b).
End RetryTag.

(** ** Key updates *)

Record KeyUpdate : Type := mkKeyUpdate { ku_crypto_open : Aead; ku_pn_on_update : Z; ku_update_acked : bool; ku_timer : Z }.
(** The handshake stream of a context is in [QRecv] and [QSend]. *)
Record CryptoContext : Type := mkCrypto { cc_key_update : option KeyUpdate; cc_open : option Aead; cc_seal : option Aead; cc_0rtt_open : option Aead }.
Definition crypto_new : CryptoContext := mkCrypto None None None None.
Definition crypto_clear (c : CryptoContext) : CryptoContext := mkCrypto (cc_key_update c) None None (cc_0rtt_open c).
Definition crypto_overhead (c : CryptoContext) : option Z := option_map (fun a => tag_len (k_alg (ad_keys a))) (cc_seal c).
Definition has_keys (c : CryptoContext) : bool := bool_decide (is_Some (cc_open c)) && bool_decide (is_Some (cc_seal c)).

Section Update.
Context `{Hkdf}.

(** Both directions move on together. *)
Definition next_keys (c : CryptoContext) : q_result (Aead * option (Aead * Aead)) :=
  match cc_open c, cc_seal c with
  | Some open, Some seal => let! open := derive_next_packet_key open in let! seal := derive_next_packet_key seal in Ok (open, Some (open, seal))
  | _, _ => Panic
  end.
(** The key for a packet whose header is readable, and the keys after an update
    if the packet is to bring one. *)
Definition choose_key (c : CryptoContext) (handshake_confirmed key_phase : bool) (hdr : Header) (pn : Z) (aead : Aead) : q_result (Aead * option (Aead * Aead)) :=
  if handshake_confirmed && negb (bool_decide (h_ty hdr = ZeroRTT)) && negb (eqb (h_key_phase hdr) key_phase) then
    match cc_key_update c with
    | Some key_update => if pn <? ku_pn_on_update key_update then Ok (ku_crypto_open key_update, None) else next_keys c
    | None => next_keys c
    end
  else Ok (aead, None).
(** The update, once a packet was opened with the new key. *)
Definition update_keys (c : CryptoContext) (key_phase : bool) (pn timer : Z) (next : Aead * Aead) : q_result (CryptoContext * bool) :=
  if match cc_key_update c with Some prev => negb (ku_update_acked prev) | None => false end then Err EKeyUpdate
  else match cc_open c with
       | None => Panic
       | Some open_prev => Ok (mkCrypto (Some (mkKeyUpdate open_prev pn false timer)) (Some next.1) (Some next.2) (cc_0rtt_open c), negb key_phase)
       end.
(** A packet that [open], with what follows up to the update, accepts or not: the
    chosen key, the decryption, and the update it proves. *)
Definition with_key {A} (c : CryptoContext) (handshake_confirmed key_phase : bool) (hdr : Header) (pn timer : Z) (aead : Aead) (open : Aead -> q_result A) :
  q_result (A * CryptoContext * bool) :=
  let! '(aead, aead_next) := choose_key c handshake_confirmed key_phase hdr pn aead in
  let! payload := open aead in
  match aead_next with
  | None => Ok (payload, c, key_phase)
  | Some next => let! '(c, key_phase) := update_keys c key_phase pn timer next in Ok (payload, c, key_phase)
  end.
(** A 1-RTT packet is being made, with or without an acknowledgement; the timer
    of the old key. *)
Definition on_update_acked (c : CryptoContext) : CryptoContext :=
  mkCrypto (option_map (fun ku => mkKeyUpdate (ku_crypto_open ku) (ku_pn_on_update ku) true (ku_timer ku)) (cc_key_update c)) (cc_open c) (cc_seal c) (cc_0rtt_open c).
Definition on_key_timeout (now : Z) (c : CryptoContext) : CryptoContext :=
  match cc_key_update c with
  | Some ku => if ku_timer ku <=? now then mkCrypto None (cc_open c) (cc_seal c) (cc_0rtt_open c) else c
  | None => c
  end.
End Update.

(** ** Both ends have the same keys *)

Lemma label_info_inj l1 l2 n1 n2 : zlen l1 < 200 -> zlen l2 < 200 -> 0 <= n1 < 2 ^ 16 -> 0 <= n2 < 2 ^ 16 ->
  label_info l1 n1 = label_info l2 n2 -> l1 = l2 /\ n1 = n2.
Proof.
  intros H1 H2 Hn1 Hn2 E. unfold label_info, as_u16 in E. rewrite !Z.mod_small in E by lia.
  assert (length (to_be 2 n1) = length (to_be 2 n2)) as Hl by (pose proof (zlen_to_be 2 n1); pose proof (zlen_to_be 2 n2); unfold zlen in *; lia).
  apply app_inj_1 in E as [E E']; [|done]. split.
  - injection E' as _ E'. by apply app_inj_tail in E' as [? _].
  - apply (f_equal of_be) in E. rewrite !of_be_to_be in E. change (256 ^ Z.of_nat 2) with (2 ^ 16) in E. by rewrite !Z.mod_small in E by lia.
Qed.

Section Agreement.
Context `{HkdfSound}.

Lemma expand_label_total alg prk label n : 0 <= n <= 255 * 32 -> exists out, hkdf_expand_label alg prk label n = Ok out /\ zlen out = n.
Proof. intros Hn. unfold hkdf_expand_label, hkdf_expand. destruct (expand_len alg prk (label_info label n) n Hn) as (out & -> & ?). by exists out. Qed.
(** Keys for a secret are made, with the right lengths. *)
Definition aead_ok (a : Aead) : Prop :=
  let k := ad_keys a in zlen (k_key k) = key_len (k_alg k) /\ zlen (k_iv k) = nonce_len (k_alg k) /\ zlen (k_hp k) = key_len (k_alg k).
Lemma pkt_key_total alg secret : exists key, derive_pkt_key alg secret (key_len alg) = Ok key /\ zlen key = key_len alg.
Proof. unfold derive_pkt_key. rewrite Z.ltb_irrefl. apply expand_label_total. destruct alg; simpl; lia. Qed.
Lemma pkt_iv_total alg secret : exists iv, derive_pkt_iv alg secret (nonce_len alg) = Ok iv /\ zlen iv = nonce_len alg.
Proof. unfold derive_pkt_iv. rewrite Z.ltb_irrefl. apply expand_label_total. destruct alg; simpl; lia. Qed.
Lemma hdr_key_total alg secret : exists hp, derive_hdr_key alg secret (key_len alg) = Ok hp /\ zlen hp = key_len alg.
Proof. unfold derive_hdr_key. rewrite Z.ltb_irrefl. apply expand_label_total. destruct alg; simpl; lia. Qed.
Lemma packet_key_total alg secret : exists key iv, packet_key_from_secret alg secret = Ok (key, iv) /\ zlen key = key_len alg /\ zlen iv = nonce_len alg.
Proof.
  unfold packet_key_from_secret, packet_key_new. destruct (pkt_key_total alg secret) as (key & -> & Hk), (pkt_iv_total alg secret) as (iv & -> & Hi). cbn [obind].
  rewrite init_len by done. by exists key, iv.
Qed.
Lemma header_key_new_total alg hp : zlen hp = key_len alg -> header_key_new alg hp = Ok hp.
Proof. intros Hh. unfold header_key_new. destruct alg; [rewrite aes_len by (rewrite ?Hh; simpl; lia)..|]; done. Qed.
Lemma from_secret_total alg secret : exists a, aead_from_secret alg secret = Ok a /\ aead_ok a /\ k_alg (ad_keys a) = alg /\ ad_secret a = secret.
Proof.
  unfold aead_from_secret, header_key_from_secret. destruct (hdr_key_total alg secret) as (hp & -> & Hh). cbn [obind]. rewrite header_key_new_total by done. cbn [obind].
  destruct (packet_key_total alg secret) as (key & iv & -> & Hk & Hi). cbn [obind]. eexists. split; [done|]. by repeat split.
Qed.
Lemma next_total a : aead_ok a -> zlen (ad_secret a) <= 255 * 32 -> exists a', derive_next_packet_key a = Ok a' /\ aead_ok a' /\ zlen (ad_secret a') = zlen (ad_secret a) /\
  k_alg (ad_keys a') = k_alg (ad_keys a) /\ k_hp (ad_keys a') = k_hp (ad_keys a).
Proof.
  intros (Hk & Hi & Hh) Hs. unfold derive_next_packet_key, derive_next_secret. pose proof (zlen_nonneg (ad_secret a)).
  destruct (expand_label_total (k_alg (ad_keys a)) (ad_secret a) (str "quic ku") (zlen (ad_secret a))) as (s & -> & Hz); [lia|]. cbn [obind].
  destruct (packet_key_total (k_alg (ad_keys a)) s) as (key & iv & -> & Hk' & Hi'). cbn [obind]. eexists. split; [done|]. by repeat split.
Qed.

(** The Initial keys: what the client seals with the server opens with, and the
    other way around, however the keys are made. *)
Lemma initial_material cid version : exists client server, aead_ok client /\ aead_ok server /\ forall is_server did_reset,
  derive_initial_key_material cid version is_server did_reset = Ok (if is_server then (client, server) else (server, client)).
Proof.
  assert (forall alg secret, aead_from_secret alg secret = let! key := derive_pkt_key alg secret (key_len alg) in let! iv := derive_pkt_iv alg secret (nonce_len alg) in
    let! hp := derive_hdr_key alg secret (key_len alg) in aead_new alg key iv hp secret) as Hnew.
  { intros alg secret. unfold aead_from_secret, header_key_from_secret, packet_key_from_secret, aead_new.
    destruct (pkt_key_total alg secret) as (key & -> & _), (pkt_iv_total alg secret) as (iv & -> & _), (hdr_key_total alg secret) as (hp & -> & _). done. }
  unfold derive_initial_key_material, derive_initial_secret, hkdf_extract. destruct (extract_len AES128_GCM cid INITIAL_SALT_V1) as (prk & ->). cbn [ok_or obind].
  unfold derive_client_initial_secret, derive_server_initial_secret.
  destruct (expand_label_total AES128_GCM prk (str "client in") 32) as (cs & -> & _); [lia|]. destruct (expand_label_total AES128_GCM prk (str "server in") 32) as (ss & -> & _); [lia|]. cbn [obind].
  destruct (from_secret_total AES128_GCM cs) as (client & Ec & Hc & _), (from_secret_total AES128_GCM ss) as (server & Es & Hs & _).
  exists client, server. split; [done|]. split; [done|]. intros is_server []; [rewrite Ec, Es; by destruct is_server|].
  rewrite Hnew in Ec, Es.
  destruct (pkt_key_total AES128_GCM cs) as (key & Ek & _), (pkt_iv_total AES128_GCM cs) as (iv & Ei & _), (hdr_key_total AES128_GCM cs) as (hp & Eh & _).
  destruct (pkt_key_total AES128_GCM ss) as (key' & Ek' & _), (pkt_iv_total AES128_GCM ss) as (iv' & Ei' & _), (hdr_key_total AES128_GCM ss) as (hp' & Eh' & _).
  rewrite Ek, Ei, Eh in Ec. rewrite Ek', Ei', Eh' in Es. rewrite Ek, Ei, Eh, Ek', Ei', Eh'. cbn [obind] in *. rewrite Ec, Es. by destruct is_server.
Qed.
End Agreement.

(** A Retry packet is accepted by the client it was made for. *)
Section RetryRound.
Context `{Ciphers} `{HkdfSound} `{Target}.

Lemma retry_tag odcid version : exists f, forall hb r, compute_retry_integrity_tag (mkOctetsMut (hb ++ r) (zlen hb)) odcid version = Ok (f hb) /\ zlen (f hb) = RETRY_TAG_LEN.
Proof.
  set (k := mkKeys AES128_GCM RETRY_INTEGRITY_KEY_V1 RETRY_INTEGRITY_NONCE_V1 []). set (pseudo hb := [as_u8 (zlen odcid)] ++ odcid ++ hb).
  exists (fun hb => default [] (aead_seal AES128_GCM RETRY_INTEGRITY_KEY_V1 (make_nonce RETRY_INTEGRITY_NONCE_V1 0) (pseudo hb) [])).
  intros hb r. unfold compute_retry_integrity_tag. cbn [m_buf m_off]. unfold idx_range. assert (get_range (hb ++ r) 0 (zlen hb) = Some hb) as -> by (by apply (get_range_mid [] hb r)). cbn [obind].
  set (n := Z.to_nat (1 + zlen odcid + zlen hb)). pose proof (zlen_nonneg odcid). pose proof (zlen_nonneg hb).
  pose proof (writes_seq _ _ _ _ (writes_u8 (as_u8 (zlen odcid))) (writes_seq _ _ _ _ (writes_bytes odcid) (writes_bytes hb)) [] (replicate n 0)) as Hw.
  cbn [app] in Hw. unfold with_slice_mut. change 0 with (zlen (@nil Z)) at 2. rewrite Hw by (rewrite zlen_cons, zlen_app, zlen_replicate; unfold n; lia). cbn [obind m_buf].
  rewrite zdrop_all by (rewrite zlen_cons, zlen_app, zlen_replicate; unfold n; lia). rewrite app_nil_r. unfold packet_key_new. rewrite init_len by done. cbn [obind].
  unfold seal_with_u64_counter. cbn [k_alg k_key k_iv]. change (zlen (replicate 16 0) <? 0 + tag_len AES128_GCM) with false. cbv iota.
  assert (as_u8 (as_u8 (zlen odcid)) = as_u8 (zlen odcid)) as -> by (unfold as_u8; by rewrite Z.mod_mod). change (ztake 0 (replicate 16 0)) with (@nil Z). change (as_u8 (zlen odcid) :: odcid ++ hb) with (pseudo hb).
  destruct (seal_total AES128_GCM RETRY_INTEGRITY_KEY_V1 (make_nonce RETRY_INTEGRITY_NONCE_V1 0) (pseudo hb) []) as (c & Ec); [done|]. rewrite Ec. cbn [obind default].
  pose proof (seal_len _ _ _ _ _ _ Ec) as Hc. change (zlen c = 16) in Hc. unfold splice. rewrite zdrop_all by (change (zlen (replicate 16 0)) with 16; lia).
  change (ztake 0 (replicate 16 0)) with (@nil Z). rewrite app_nil_r. cbn [app]. rewrite Hc. done.
Qed.

Lemma retry_verified scid odcid new_scid token out : zlen scid <= MAX_CID_LEN -> zlen new_scid <= MAX_CID_LEN -> zlen token <= MAX_VAR_INT -> zlen token <= usize_max ->
  23 + zlen scid + zlen new_scid + zlen token <= zlen out ->
  exists buf n, retry scid odcid new_scid token PROTOCOL_VERSION_V1 out = Ok (buf, n) /\ forall dcid_len, exists o,
    hdr_from_bytes dcid_len (with_slice (ztake n buf)) = Ok (mkHeader Retry PROTOCOL_VERSION_V1 scid new_scid 0 0 (Some token) None false, o) /\
    verify_retry_integrity (mkOctetsMut (ztake n buf) (o_off o)) odcid PROTOCOL_VERSION_V1 = Ok tt.
Proof.
  intros Hs Hn Ht Hu Ho. set (h := mkHeader Retry PROTOCOL_VERSION_V1 scid new_scid 0 0 (Some token) None false). set (hb := hdr_bytes h).
  assert (forall d, hdr_ok d h) as Hh by (intros d; unfold hdr_ok; cbn; split_and!; try done; lia).
  assert (zlen hb = 7 + zlen scid + zlen new_scid + zlen token) as Hz.
  { unfold hb, hdr_bytes. cbn [h h_ty]. rewrite !zlen_app, zlen_to_be. unfold zlen. cbn. lia. }
  destruct (retry_tag odcid PROTOCOL_VERSION_V1) as (f & Hf). destruct (Hf hb (zdrop (zlen hb) out)) as [Ef Hl]. change RETRY_TAG_LEN with 16 in Hl.
  unfold retry. change (negb (version_is_supported PROTOCOL_VERSION_V1)) with false. cbv iota. fold h. unfold with_slice_mut. change out with ([] ++ out) at 1. change 0 with (zlen (@nil Z)) at 1.
  rewrite (hdr_writes 0 h (Hh 0)) by (fold hb; lia). fold hb. cbn [app obind]. rewrite Ef. cbn [obind].
  pose proof (zlen_nonneg hb). rewrite writes_bytes by (rewrite zlen_zdrop; lia). cbn [obind m_buf m_off]. eexists _, _. split; [done|]. intros d. rewrite ztake_app_length by done.
  pose proof (hdr_parses d h (hdr_first h) (f hb) (Hh d) ltac:(done) ltac:(done) []) as Hp. rewrite <- hdr_bytes_first in Hp. cbn [app] in Hp. fold hb in Hp. unfold with_slice.
  change 0 with (zlen (@nil Z)) at 1. rewrite Hp. eexists. split; [done|]. cbn [o_off]. unfold verify_retry_integrity. rewrite (proj1 (Hf hb (f hb))). cbn [obind m_buf m_off].
  unfold idx_range. rewrite <- (app_nil_r (f hb)) at 1. rewrite get_range_mid by (change RETRY_TAG_LEN with 16; rewrite ?Hl; done || lia). cbn [obind].
  unfold verify_slices_are_equal. rewrite Z.eqb_refl. by rewrite decide_True.
Qed.
End RetryRound.

(** ** Following the updates of the peer *)

(** The keys after [g] updates. *)
Fixpoint gen_key `{Hkdf} (a : Aead) (g : nat) : Aead :=
  match g with
  | O => a
  | S g => match derive_next_packet_key (gen_key a g) with Ok a' => a' | _ => gen_key a g end
  end.

(** What happens to the keys of 1-RTT packets: a packet with its header and
    number and the keys that open it, a packet that is being made, a timeout. *)
Inductive key_event : Type :=
| KRecv (hdr : Header) (pn timer : Z) (open : Aead -> q_result unit)
| KSend
| KTimeout (now : Z).
Record KeyState : Type := mkKeyState { ks_ctx : CryptoContext; ks_phase : bool; ks_log : list (q_result unit) }.
Definition key_step `{Hkdf} (s : KeyState) (ev : key_event) : q_result KeyState :=
  match ev with
  | KRecv hdr pn timer open =>
      match cc_open (ks_ctx s) with
      | None => Ok s
      | Some aead =>
          match with_key (ks_ctx s) true (ks_phase s) hdr pn timer aead open with
          | Ok (_, c, phase) => Ok (mkKeyState c phase (ks_log s ++ [Ok tt]))
          | Err e => Ok (mkKeyState (ks_ctx s) (ks_phase s) (ks_log s ++ [Err e]))
          | Panic => Panic
          | OutOfFuel => OutOfFuel
          end
      end
  | KSend => Ok (mkKeyState (on_update_acked (ks_ctx s)) (ks_phase s) (ks_log s))
  | KTimeout now => Ok (mkKeyState (on_key_timeout now (ks_ctx s)) (ks_phase s) (ks_log s))
  end.
Fixpoint key_run `{Hkdf} (s : KeyState) (evs : list key_event) : q_result KeyState :=
  match evs with [] => Ok s | ev :: evs => let! s := key_step s ev in key_run s evs end.

Inductive verdict : Type := Opens | Fails | Late.
Definition as_expected (v : verdict) (r : q_result unit) : Prop :=
  match v with Opens => r = Ok tt | Fails => r = Err ECryptoFail | Late => r = Ok tt \/ r = Err ECryptoFail end.

Section Generations.
Context `{HkdfSound}.
Context (o0 s0 : Aead) (gen_of : Z -> nat).

(** A packet the peer sealed in the generation [g]; only the key that sealed it
    opens it. *)
Definition authentic (g : nat) (ev : key_event) : Prop :=
  match ev with
  | KRecv hdr pn _ open => h_ty hdr = Short /\ gen_of pn = g /\ h_key_phase hdr = Nat.odd g /\
      open (gen_key o0 g) = Ok tt /\ forall a, a <> gen_key o0 g -> open a = Err ECryptoFail
  | _ => False
  end.
(** A packet no key opens. *)
Definition forged (ev : key_event) : Prop := match ev with KRecv hdr _ _ open => h_ty hdr = Short /\ forall a, open a = Err ECryptoFail | _ => False end.

(** The network and the peer, when this end has followed [g] updates: [may]
    tells whether a packet was made since the last one, so that the peer may
    update again, and [kept] whether no timeout was seen since. *)
Inductive disciplined : nat -> bool -> bool -> list key_event -> list verdict -> nat -> Prop :=
| disc_nil g may kept : disciplined g may kept [] [] g
| disc_forged g may kept ev evs vs g' : forged ev -> disciplined g may kept evs vs g' -> disciplined g may kept (ev :: evs) (Fails :: vs) g'
| disc_current g may kept ev evs vs g' : authentic g ev -> disciplined g may kept evs vs g' -> disciplined g may kept (ev :: evs) (Opens :: vs) g'
| disc_old g may kept ev evs vs g' : authentic g ev -> disciplined (S g) may kept evs vs g' ->
    disciplined (S g) may kept (ev :: evs) ((if kept then Opens else Late) :: vs) g'
| disc_new g kept ev evs vs g' : authentic (S g) ev -> disciplined (S g) false true evs vs g' -> disciplined g true kept (ev :: evs) (Opens :: vs) g'
| disc_send g may kept evs vs g' : disciplined g true kept evs vs g' -> disciplined g may kept (KSend :: evs) vs g'
| disc_timeout g may kept now evs vs g' : disciplined g may false evs vs g' -> disciplined g may kept (KTimeout now :: evs) vs g'.

Record in_step (g : nat) (may kept : bool) (s : KeyState) : Prop := mkInStep {
  is_open : cc_open (ks_ctx s) = Some (gen_key o0 g);
  is_seal : cc_seal (ks_ctx s) = Some (gen_key s0 g);
  is_phase : ks_phase s = Nat.odd g;
  is_update : match cc_key_update (ks_ctx s) with
              | None => kept = false
              | Some ku => exists g0, g = S g0 /\ ku_crypto_open ku = gen_key o0 g0 /\ gen_of (ku_pn_on_update ku) = g /\ (may = true -> ku_update_acked ku = true)
              end
}.

Context (Hmono : forall p q, p <= q -> (gen_of p <= gen_of q)%nat).
Context (Ho : aead_ok o0 /\ zlen (ad_secret o0) <= 255 * 32) (Hs : aead_ok s0 /\ zlen (ad_secret s0) <= 255 * 32).
Context (Hdiff : forall g, gen_key o0 g <> gen_key o0 (S (S g))).

Lemma gen_total a g : aead_ok a /\ zlen (ad_secret a) <= 255 * 32 -> aead_ok (gen_key a g) /\ zlen (ad_secret (gen_key a g)) <= 255 * 32 /\
  derive_next_packet_key (gen_key a g) = Ok (gen_key a (S g)).
Proof.
  intros Ha. induction g as [|g [IH [IH1 IH2]]].
  - destruct Ha as [Ha Hl]. split; [done|]. split; [done|]. cbn [gen_key]. by destruct (next_total a Ha Hl) as (a' & -> & _).
  - cbn [gen_key] in IH2. destruct (next_total (gen_key a g) IH IH1) as (a' & E & Hk & Hz & _).
    assert (gen_key a (S g) = a') as Eg by (cbn [gen_key]; by rewrite E). rewrite !Eg. split; [done|]. split; [lia|].
    cbn [gen_key]. rewrite E. destruct (next_total a' Hk ltac:(lia)) as (a'' & -> & _). done.
Qed.
Lemma next_keys_gen g may kept s : in_step g may kept s -> next_keys (ks_ctx s) = Ok (gen_key o0 (S g), Some (gen_key o0 (S g), gen_key s0 (S g))).
Proof.
  intros [E1 E2 _ _]. unfold next_keys. rewrite E1, E2. destruct (gen_total o0 g Ho) as (_ & _ & ->), (gen_total s0 g Hs) as (_ & _ & ->). done.
Qed.

(** The key of a packet by its phase and number. *)
Lemma choose_gen g may kept s hdr pn : in_step g may kept s -> h_ty hdr = Short ->
  choose_key (ks_ctx s) true (ks_phase s) hdr pn (gen_key o0 g) =
    if eqb (h_key_phase hdr) (Nat.odd g) then Ok (gen_key o0 g, None)
    else match cc_key_update (ks_ctx s) with
         | Some ku => if pn <? ku_pn_on_update ku then Ok (gen_key o0 (pred g), None) else Ok (gen_key o0 (S g), Some (gen_key o0 (S g), gen_key s0 (S g)))
         | None => Ok (gen_key o0 (S g), Some (gen_key o0 (S g), gen_key s0 (S g)))
         end.
Proof.
  intros Hi Hty. unfold choose_key. rewrite (next_keys_gen g may kept s Hi), (is_phase _ _ _ _ Hi), Hty, bool_decide_false by done.
  destruct (eqb _ _); [done|]. pose proof (is_update _ _ _ _ Hi) as Hu. destruct (cc_key_update (ks_ctx s)) as [ku|]; [|done].
  destruct Hu as (g0 & -> & -> & _). cbn. by destruct (_ <? _).
Qed.
Lemma odd_S g : eqb (Nat.odd (S g)) (Nat.odd g) = false.
Proof. rewrite Nat.odd_succ, <- Nat.negb_odd. by destruct (Nat.odd g). Qed.

(** A packet that does not open leaves everything as it was. *)
Lemma step_fails g may kept s hdr pn timer open a next : in_step g may kept s ->
  choose_key (ks_ctx s) true (ks_phase s) hdr pn (gen_key o0 g) = Ok (a, next) -> open a = Err ECryptoFail ->
  key_step s (KRecv hdr pn timer open) = Ok (mkKeyState (ks_ctx s) (ks_phase s) (ks_log s ++ [Err ECryptoFail])).
Proof. intros Hi Ec Eo. unfold key_step, with_key. by rewrite (is_open _ _ _ _ Hi), Ec; cbn [obind]; rewrite Eo. Qed.
Lemma step_opens g may kept s hdr pn timer open a : in_step g may kept s ->
  choose_key (ks_ctx s) true (ks_phase s) hdr pn (gen_key o0 g) = Ok (a, None) -> open a = Ok tt ->
  key_step s (KRecv hdr pn timer open) = Ok (mkKeyState (ks_ctx s) (ks_phase s) (ks_log s ++ [Ok tt])).
Proof. intros Hi Ec Eo. unfold key_step, with_key. by rewrite (is_open _ _ _ _ Hi), Ec; cbn [obind]; rewrite Eo. Qed.
Lemma in_step_log g may kept s r : in_step g may kept s -> in_step g may kept (mkKeyState (ks_ctx s) (ks_phase s) (ks_log s ++ [r])).
Proof. by intros []. Qed.

(** What a step makes of the log and of the generation. *)
Definition steps_to (g : nat) (may kept : bool) (s : KeyState) (ev : key_event) (v : verdict) : Prop :=
  exists s' r, key_step s ev = Ok s' /\ in_step g may kept s' /\ ks_log s' = ks_log s ++ [r] /\ as_expected v r.
Lemma forged_step g may kept s ev : in_step g may kept s -> forged ev -> steps_to g may kept s ev Fails.
Proof.
  intros Hi Hf. destruct ev as [hdr pn timer open| |]; try done. destruct Hf as [Hty Hf].
  assert (exists a next, choose_key (ks_ctx s) true (ks_phase s) hdr pn (gen_key o0 g) = Ok (a, next)) as (a & next & Ec).
  { rewrite (choose_gen g may kept) by done. repeat case_match; by eexists _, _. }
  eexists _, _. split; [by eapply step_fails|]. split; [by apply in_step_log|done].
Qed.
Lemma current_step g may kept s ev : in_step g may kept s -> authentic g ev -> steps_to g may kept s ev Opens.
Proof.
  intros Hi Ha. destruct ev as [hdr pn timer open| |]; try done. destruct Ha as (Hty & _ & Hph & Hop & _).
  eexists _, _. split; [eapply step_opens; [done| |done]|split; [by apply in_step_log|done]].
  rewrite (choose_gen g may kept) by done. by rewrite Hph, eqb_reflx.
Qed.
Lemma old_step g may kept s ev : in_step (S g) may kept s -> authentic g ev -> steps_to (S g) may kept s ev (if kept then Opens else Late).
Proof.
  intros Hi Ha. destruct ev as [hdr pn timer open| |]; try done. destruct Ha as (Hty & Hg & Hph & Hop & Hoth).
  pose proof (choose_gen (S g) may kept s hdr pn Hi Hty) as Ec. rewrite Hph in Ec. pose proof (odd_S g) as Ho'.
  assert (eqb (Nat.odd g) (Nat.odd (S g)) = false) as E' by (revert Ho'; by destruct (Nat.odd g), (Nat.odd (S g))). rewrite E' in Ec.
  pose proof (is_update _ _ _ _ Hi) as Hu. destruct (cc_key_update (ks_ctx s)) as [ku|].
  - destruct Hu as (g0 & _ & _ & Hp & _). assert (pn < ku_pn_on_update ku) by (destruct (Z.lt_ge_cases pn (ku_pn_on_update ku)) as [|Hge]; [done|]; apply Hmono in Hge; lia).
    replace (_ <? _) with true in Ec by lia. eexists _, _. split; [by eapply step_opens|]. split; [by apply in_step_log|]. split; [done|]. destruct kept; [done|by left].
  - rewrite Hu. eexists _, _. split; [eapply step_fails; [done..|]; apply Hoth; apply not_eq_sym, Hdiff|]. split; [apply in_step_log; by rewrite Hu in Hi|]. split; [done|by right].
Qed.
Lemma new_step g kept s ev : in_step g true kept s -> authentic (S g) ev -> steps_to (S g) false true s ev Opens.
Proof.
  intros Hi Ha. destruct ev as [hdr pn timer open| |]; try done. destruct Ha as (Hty & Hg & Hph & Hop & _).
  pose proof (choose_gen g true kept s hdr pn Hi Hty) as Ec. rewrite Hph, odd_S in Ec. pose proof Hi as [Hop' Hse Hpe Hu].
  assert (choose_key (ks_ctx s) true (ks_phase s) hdr pn (gen_key o0 g) = Ok (gen_key o0 (S g), Some (gen_key o0 (S g), gen_key s0 (S g)))) as Ec'.
  { rewrite Ec. destruct (cc_key_update (ks_ctx s)) as [ku|]; [|done]. destruct Hu as (g0 & _ & _ & Hp & _). replace (_ <? _) with false; [done|].
    destruct (Z.ltb_spec pn (ku_pn_on_update ku)) as [Hlt|]; [|done]. assert (pn <= ku_pn_on_update ku) as Hle by lia. apply Hmono in Hle. lia. }
  eexists _, (Ok tt). unfold key_step, with_key. rewrite Hop', Ec'. cbn [obind]. rewrite Hop. cbn [obind]. unfold update_keys.
  assert (match cc_key_update (ks_ctx s) with Some prev => negb (ku_update_acked prev) | None => false end = false) as ->.
  { destruct (cc_key_update (ks_ctx s)) as [ku|]; [|done]. destruct Hu as (? & _ & _ & _ & ->); done. }
  rewrite Hop'. cbn [obind fst snd]. split; [done|]. split; [|done]. split; try done.
  - cbn. by rewrite Hpe, Nat.odd_succ, <- Nat.negb_odd.
  - exists g. by rewrite <- Hg.
Qed.

Lemma followed g may kept evs vs g' s : disciplined g may kept evs vs g' -> in_step g may kept s ->
  exists s' rs may' kept', key_run s evs = Ok s' /\ in_step g' may' kept' s' /\ ks_log s' = ks_log s ++ rs /\ Forall2 as_expected vs rs.
Proof.
  intros Hd. revert s.
  assert (forall g1 m1 k1 g2 s ev v evs vs, steps_to g1 m1 k1 s ev v ->
    (forall s, in_step g1 m1 k1 s -> exists s' rs m' k', key_run s evs = Ok s' /\ in_step g2 m' k' s' /\ ks_log s' = ks_log s ++ rs /\ Forall2 as_expected vs rs) ->
    exists s' rs m' k', key_run s (ev :: evs) = Ok s' /\ in_step g2 m' k' s' /\ ks_log s' = ks_log s ++ rs /\ Forall2 as_expected (v :: vs) rs) as Hcons.
  { intros g1 m1 k1 g2 s ev v es ws (s1 & r & E & Hi & Hl & Hv) IH. destruct (IH s1 Hi) as (s' & rs & m' & k' & Er & Hi' & Hl' & Hf).
    exists s', (r :: rs), m', k'. cbn [key_run]. rewrite E. cbn [obind]. split; [done|]. split; [done|]. split; [by rewrite Hl', Hl, <- app_assoc|by constructor]. }
  induction Hd as [| | | | |g may kept evs vs g' Hd IH|g may kept now evs vs g' Hd IH]; intros s Hi.
  - exists s, [], may, kept. by rewrite app_nil_r.
  - eapply Hcons; [by apply forged_step|done].
  - eapply Hcons; [by apply current_step|done].
  - eapply Hcons; [by apply old_step|done].
  - eapply Hcons; [by eapply new_step|done].
  - cbn [key_run key_step obind]. apply (IH (mkKeyState (on_update_acked (ks_ctx s)) (ks_phase s) (ks_log s))). destruct Hi as [H1 H2 H3 H4]. split; try done. cbn.
    destruct (cc_key_update (ks_ctx s)) as [ku|]; [|done]. destruct H4 as (g0 & ? & ? & ? & _). by exists g0.
  - cbn [key_run key_step obind]. apply (IH (mkKeyState (on_key_timeout now (ks_ctx s)) (ks_phase s) (ks_log s))). destruct Hi as [H1 H2 H3 H4]. unfold on_key_timeout.
    destruct (cc_key_update (ks_ctx s)) as [ku|] eqn:Ek; [destruct (_ <=? _)|]; split; cbn; rewrite ?Ek; done.
Qed.
End Generations.

(** The keys of both directions when the handshake is over. *)
Definition keys_start (open seal : Aead) : KeyState := mkKeyState (mkCrypto None (Some open) (Some seal) None) false [].

(** An update the peer makes before anything was sent since its last one is
    refused. *)
Lemma early_update_refused `{HkdfSound} c pn timer next ku : cc_key_update c = Some ku -> ku_update_acked ku = false ->
  forall phase, update_keys c phase pn timer next = Err EKeyUpdate.
Proof. intros E Ea phase. unfold update_keys. by rewrite E, Ea. Qed.

(** C7: an end follows every update of its peer's keys.  The peer may update its
    keys as often as it likes, once this end made a packet since the last
    update; packets come in any order, so packets of the generation before may
    come after the first one of the new generation, and anyone may put packets
    in between that no key opens.  Then every packet of the current or the next
    generation opens, and one of the generation before does as long as the old
    key is kept; packets that do not open change nothing; and at the end both
    directions have the keys of the peer's generation, and the phase of their
    headers is its parity. *)
Theorem key_updates_followed `{HkdfSound} o0 s0 gen_of evs vs g :
  (forall p q, p <= q -> (gen_of p <= gen_of q)%nat) ->
  aead_ok o0 /\ zlen (ad_secret o0) <= 255 * 32 -> aead_ok s0 /\ zlen (ad_secret s0) <= 255 * 32 ->
  (forall n, gen_key o0 n <> gen_key o0 (S (S n))) -> disciplined o0 gen_of 0 true false evs vs g ->
  exists s, key_run (keys_start o0 s0) evs = Ok s /\ Forall2 as_expected vs (ks_log s) /\
    cc_open (ks_ctx s) = Some (gen_key o0 g) /\ cc_seal (ks_ctx s) = Some (gen_key s0 g) /\ ks_phase s = Nat.odd g.
Proof.
  intros Hm Ho Hs Hd Hdi. destruct (followed o0 s0 gen_of Hm Ho Hs Hd 0 true false evs vs g (keys_start o0 s0) Hdi) as (s & rs & m & k & E & [H1 H2 H3 _] & Hl & Hf); [done|].
  exists s. cbn in Hl. by rewrite Hl.
Qed.

(** A derivation for examples that counts. *)
#[local] Instance toy_hkdf : Hkdf := {|
  HKDF_extract _ secret _ n := Some (replicate (Z.to_nat n) (zlen secret));
  HKDF_expand _ secret _ n := if n =? 0 then Some [] else Some ((hd 0 secret + 1) :: replicate (Z.to_nat (n - 1)) 0);
  aead_init _ _ := true;
  aes_init _ _ := true
|}.
#[local] Instance toy_hkdf_sound : HkdfSound.
Proof.
  split; try done.
  - by eexists.
  - intros alg secret info n Hn. cbn [HKDF_expand toy_hkdf]. destruct (Z.eqb_spec n 0) as [-> |]; eexists; (split; [done|]); [done|]. rewrite zlen_cons, zlen_replicate. lia.
Qed.
Definition toy_aead (first : Z) : Aead :=
  mkAead (mkKeys AES128_GCM (replicate 16 first) (replicate 12 0) (replicate 16 0)) (first :: replicate 31 0).
Lemma toy_secrets n g : ad_secret (gen_key (toy_aead n) g) = (n + Z.of_nat g) :: replicate 31 0 /\ k_alg (ad_keys (gen_key (toy_aead n) g)) = AES128_GCM.
Proof.
  induction g as [|g [IH Ia]]; [by rewrite Z.add_0_r|]. replace (n + Z.of_nat (S g)) with (n + Z.of_nat g + 1) by lia. cbn [gen_key]. destruct (gen_key (toy_aead n) g) as [k sec]. cbn in IH, Ia. subst sec.
  unfold derive_next_packet_key. cbn [ad_secret ad_keys]. by rewrite Ia.
Qed.
Definition demo_gen (pn : Z) : nat := if pn <? 5 then 0 else if pn <? 9 then 1 else 2.
Definition demo_recv (pn : Z) : key_event :=
  KRecv (mkHeader Short 0 [] [] 0 1 None None (Nat.odd (demo_gen pn))) pn 100 (fun a => if bool_decide (a = gen_key (toy_aead 7) (demo_gen pn)) then Ok tt else Err ECryptoFail).
Definition demo_forged : key_event := KRecv (mkHeader Short 0 [] [] 0 1 None None true) 77 100 (fun _ => Err ECryptoFail).
Lemma demo_authentic pn : authentic (toy_aead 7) demo_gen (demo_gen pn) (demo_recv pn).
Proof. cbn. split_and!; try done; [by rewrite bool_decide_true|]. intros a Ha. by rewrite bool_decide_false. Qed.
Lemma key_updates_followed_witness : exists s,
  key_run (keys_start (toy_aead 7) (toy_aead 90)) [demo_recv 1; demo_recv 6; demo_forged; demo_recv 3; KSend; demo_recv 9; demo_recv 8; KTimeout 100; demo_recv 7] = Ok s /\
  ks_log s = [Ok tt; Ok tt; Err ECryptoFail; Ok tt; Ok tt; Ok tt; Err ECryptoFail] /\ cc_seal (ks_ctx s) = Some (gen_key (toy_aead 90) 2).
Proof.
  destruct (key_updates_followed (toy_aead 7) (toy_aead 90) demo_gen [demo_recv 1; demo_recv 6; demo_forged; demo_recv 3; KSend; demo_recv 9; demo_recv 8; KTimeout 100; demo_recv 7]
    [Opens; Opens; Fails; Opens; Opens; Opens; Late] 2) as (s & E & Hl & _ & Hs & _).
  - intros p q Hpq. unfold demo_gen. repeat case_match; lia.
  - done.
  - done.
  - intros n E. apply (f_equal ad_secret) in E. rewrite !(proj1 (toy_secrets 7 _)) in E. injection E as E. lia.
  - apply disc_current; [exact (demo_authentic 1)|]. apply disc_new; [exact (demo_authentic 6)|]. apply disc_forged; [done|]. apply (disc_old _ _ 0 false true); [exact (demo_authentic 3)|].
    apply disc_send. apply disc_new; [exact (demo_authentic 9)|]. apply (disc_old _ _ 1 false true); [exact (demo_authentic 8)|]. apply disc_timeout.
    apply (disc_old _ _ 1 false false); [exact (demo_authentic 7)|]. apply disc_nil.
  - exists s. split; [exact E|]. split; [|exact Hs]. vm_compute in E. injection E as <-. reflexivity.
Defined.
