(* ===== verification/QFrame.v ===== *)
(** * QUIC frames

    Models frame.rs of quiche: the frames, their encoding, their length on the
    wire and their decoding, and from lib.rs the macro that puts a frame into a
    packet and the loop that takes the frames out of one. *)

From S2P Require Import Prelude Octets QRanges QBuffers QCodec QPacket.
From Stdlib Require Import ZArith Lia ZifyBool.
From stdpp Require Import base list numbers option decidable.
Open Scope Z_scope.
Open Scope codec_scope.

Definition MAX_CRYPTO_OVERHEAD : Z := 8.
Definition MAX_DGRAM_OVERHEAD : Z := 2.
Definition MAX_STREAM_OVERHEAD : Z := 12.
Definition MAX_STREAM_SIZE : Z := Z.shiftl 1 62.

Record EcnCounts : Type := mkEcn { ect0_count : Z; ect1_count : Z; ecn_ce_count : Z }.

(** [Frame]. *)
Inductive frame : Type :=
| Padding (len : Z)
| Ping (mtu_probe : option Z)
| ACK (ack_delay : Z) (ranges : RangeSet) (ecn_counts : option EcnCounts)
| ResetStream (stream_id error_code final_size : Z)
| StopSending (stream_id error_code : Z)
| Crypto (data : RangeBuf)
| CryptoHeader (offset length : Z)
| NewToken (token : bytes)
| Stream (stream_id : Z) (data : RangeBuf)
| StreamHeader (stream_id offset length : Z) (fin : bool)
| MaxData (max : Z)
| MaxStreamData (stream_id max : Z)
| MaxStreamsBidi (max : Z)
| MaxStreamsUni (max : Z)
| DataBlocked (limit : Z)
| StreamDataBlocked (stream_id limit : Z)
| StreamsBlockedBidi (limit : Z)
| StreamsBlockedUni (limit : Z)
| NewConnectionId (seq_num retire_prior_to : Z) (conn_id reset_token : bytes)
| RetireConnectionId (seq_num : Z)
| PathChallenge (data : bytes)
| PathResponse (data : bytes)
| ConnectionClose (error_code frame_type : Z) (reason : bytes)
| ApplicationClose (error_code : Z) (reason : bytes)
| HandshakeDone
| Datagram (data : bytes)
| DatagramHeader (length : Z).

Definition ack_eliciting (f : frame) : bool :=
  match f with Padding _ | ACK _ _ _ | ApplicationClose _ _ | ConnectionClose _ _ _ => false | _ => true end.
Definition probing (f : frame) : bool :=
  match f with Padding _ | NewConnectionId _ _ _ _ | PathChallenge _ | PathResponse _ => true | _ => false end.

(** ** Decoding *)

(** [while b.peek_u8() == Ok(0x00)]: every turn takes a byte. *)
Fixpoint read_padding (fuel : nat) (len : Z) : reader Z := fun o =>
  match fuel with
  | O => OutOfFuel
  | S fuel =>
      match peek_u 1 o with
      | Ok v => if v =? 0 then (let* _ := r_u8 in read_padding fuel (len + 1)) o else Ok (len, o)
      | Err _ => Ok (len, o)
      | Panic => Panic
      | OutOfFuel => OutOfFuel
      end
  end.

Definition range_insert (t : RangeSet) (item : range) : q_result RangeSet :=
  match rs_insert t item with Ok t => Ok t | Err _ => Panic | Panic => Panic | OutOfFuel => OutOfFuel end.
(** The loop over the blocks of an acknowledgement; a block takes two bytes. *)
Fixpoint read_blocks (fuel : nat) (count smallest_ack : Z) (ranges : RangeSet) : reader RangeSet :=
  if count <=? 0 then rret ranges
  else match fuel with
  | O => fun _ => OutOfFuel
  | S fuel =>
      let* gap := r_varint in
      if smallest_ack <? 2 + gap then rfail EInvalidFrame
      else
        let largest_ack := (smallest_ack - gap) - 2 in
        let* ack_block := r_varint in
        if largest_ack <? ack_block then rfail EInvalidFrame
        else
          let smallest_ack := largest_ack - ack_block in
          let* ranges := rlift (range_insert ranges (smallest_ack, largest_ack + 1)) in
          read_blocks fuel (count - 1) smallest_ack ranges
  end.
Definition read_ecn (first : Z) : reader (option EcnCounts) :=
  if negb (Z.land first 0x01 =? 0) then
    let* ect0 := r_varint in
    let* ect1 := r_varint in
    let* ce := r_varint in
    rret (Some (mkEcn ect0 ect1 ce))
  else rret None.
Definition parse_ack_frame `{Target} (ty : Z) : reader frame :=
  let first := as_u8 ty in
  let* largest_ack := r_varint in
  let* ack_delay := r_varint in
  let* block_count := r_varint in
  let* ack_block := r_varint in
  if largest_ack <? ack_block then rfail EInvalidFrame
  else
    let smallest_ack := largest_ack - ack_block in
    let* ranges := rlift (range_insert rs_default (smallest_ack, largest_ack + 1)) in
    let* cap := r_cap in
    let* ranges := read_blocks (S (Z.to_nat cap)) block_count smallest_ack ranges in
    let* ecn_counts := read_ecn first in
    rret (ACK ack_delay ranges ecn_counts).

(** The length of the data, which goes up to the end of the packet when it is
    not given. *)
Definition read_len `{Target} (given : bool) : reader Z := if given then (let* len := r_varint in rret (as_usize len)) else r_cap.
Definition parse_stream_frame `{Target} (ty : Z) : reader frame :=
  let first := as_u8 ty in
  let* stream_id := r_varint in
  let* offset := (if negb (Z.land first 0x04 =? 0) then r_varint else rret 0) in
  let* len := read_len (negb (Z.land first 0x02 =? 0)) in
  if MAX_STREAM_SIZE <=? offset + len then rfail EInvalidFrame
  else
    let fin := negb (Z.land first 0x01 =? 0) in
    let* data := r_bytes len in
    rret (Stream stream_id (rb_from data offset fin)).
Definition parse_datagram_frame `{Target} (ty : Z) : reader frame :=
  let first := as_u8 ty in
  let* len := read_len (negb (Z.land first 0x01 =? 0)) in
  let* data := r_bytes len in
  rret (Datagram data).

Definition parse_body `{Target} (ty : Z) : reader frame :=
  if ty =? 0x00 then fun o => (let* len := read_padding (S (Z.to_nat (o_cap o))) 1 in rret (Padding len)) o
  else if ty =? 0x01 then rret (Ping None)
  else if (0x02 <=? ty) && (ty <=? 0x03) then parse_ack_frame ty
  else if ty =? 0x04 then let* i := r_varint in let* e := r_varint in let* s := r_varint in rret (ResetStream i e s)
  else if ty =? 0x05 then let* i := r_varint in let* e := r_varint in rret (StopSending i e)
  else if ty =? 0x06 then let* offset := r_varint in let* data := r_varint_bytes in rret (Crypto (rb_from data offset false))
  else if ty =? 0x07 then
    let* len := r_varint in
    if len =? 0 then rfail EInvalidFrame else let* token := r_bytes (as_usize len) in rret (NewToken token)
  else if (0x08 <=? ty) && (ty <=? 0x0f) then parse_stream_frame ty
  else if ty =? 0x10 then let* max := r_varint in rret (MaxData max)
  else if ty =? 0x11 then let* i := r_varint in let* max := r_varint in rret (MaxStreamData i max)
  else if ty =? 0x12 then let* max := r_varint in rret (MaxStreamsBidi max)
  else if ty =? 0x13 then let* max := r_varint in rret (MaxStreamsUni max)
  else if ty =? 0x14 then let* limit := r_varint in rret (DataBlocked limit)
  else if ty =? 0x15 then let* i := r_varint in let* limit := r_varint in rret (StreamDataBlocked i limit)
  else if ty =? 0x16 then let* limit := r_varint in rret (StreamsBlockedBidi limit)
  else if ty =? 0x17 then let* limit := r_varint in rret (StreamsBlockedUni limit)
  else if ty =? 0x18 then
    let* seq_num := r_varint in
    let* retire_prior_to := r_varint in
    let* conn_id_len := r_u8 in
    if negb ((1 <=? conn_id_len) && (conn_id_len <=? MAX_CID_LEN)) then rfail EInvalidFrame
    else let* conn_id := r_bytes conn_id_len in let* reset_token := r_bytes 16 in rret (NewConnectionId seq_num retire_prior_to conn_id reset_token)
  else if ty =? 0x19 then let* seq_num := r_varint in rret (RetireConnectionId seq_num)
  else if ty =? 0x1a then let* data := r_bytes 8 in rret (PathChallenge data)
  else if ty =? 0x1b then let* data := r_bytes 8 in rret (PathResponse data)
  else if ty =? 0x1c then let* e := r_varint in let* t := r_varint in let* reason := r_varint_bytes in rret (ConnectionClose e t reason)
  else if ty =? 0x1d then let* e := r_varint in let* reason := r_varint_bytes in rret (ApplicationClose e reason)
  else if ty =? 0x1e then rret HandshakeDone
  else if (ty =? 0x30) || (ty =? 0x31) then parse_datagram_frame ty
  else rfail EInvalidFrame.

(** Which frames a packet of a type may carry. *)
Definition allowed (pkt : PktType) (f : frame) : bool :=
  match pkt, f with
  | _, Padding _ | _, Ping _ => true
  | ZeroRTT, (ACK _ _ _ | Crypto _ | HandshakeDone | NewToken _ | PathResponse _ | RetireConnectionId _ | ConnectionClose _ _ _) => false
  | _, (ACK _ _ _ | Crypto _ | ConnectionClose _ _ _) => true
  | (Short | ZeroRTT), _ => true
  | _, _ => false
  end.
Definition frame_from_bytes `{Target} (pkt : PktType) : reader frame :=
  let* frame_type := r_varint in
  let* f := parse_body frame_type in
  if allowed pkt f then rret f else rfail EInvalidPacket.

(** The calls of [from_bytes] in the loop over a packet's payload. *)
Fixpoint read_frames `{Target} (fuel : nat) (pkt : PktType) (o : Octets) : q_result (list frame) :=
  if o_cap o <=? 0 then Ok []
  else match fuel with
  | O => OutOfFuel
  | S fuel => let! '(f, o) := frame_from_bytes pkt o in let! fs := read_frames fuel pkt o in Ok (f :: fs)
  end.
Definition payload_frames `{Target} (pkt : PktType) (payload : bytes) : q_result (list frame) :=
  read_frames (length payload) pkt (with_slice payload).

(** ** Encoding *)

Definition encode_crypto_header (offset length : Z) : writer := w_varint 0x06 >>> w_varint offset >>> w_varint2 length.
Definition encode_stream_header (stream_id offset length : Z) (fin : bool) : writer :=
  let ty := Z.lor (Z.lor 0x08 0x04) 0x02 in
  let ty := if fin then Z.lor ty 0x01 else ty in
  w_varint ty >>> w_varint stream_id >>> w_varint offset >>> w_varint2 length.
Definition encode_dgram_header (length : Z) : writer := w_varint (Z.lor 0x30 0x01) >>> w_varint2 length.

Fixpoint w_repeat (n : nat) (f : writer) : writer := match n with O => wnop | S n => f >>> w_repeat n f end.

(** The blocks below the first; [u64] subtractions wrap. *)
Fixpoint put_blocks (smallest_ack : Z) (blocks : list range) : writer :=
  match blocks with
  | [] => wnop
  | block :: blocks =>
      w_varint (as_u64 (smallest_ack - block.2 - 1)) >>> w_varint (as_u64 ((block.2 - 1) - block.1)) >>> put_blocks block.1 blocks
  end.
Definition put_ecn (ecn_counts : option EcnCounts) : writer :=
  match ecn_counts with
  | Some ecn => w_varint (ect0_count ecn) >>> w_varint (ect1_count ecn) >>> w_varint (ecn_ce_count ecn)
  | None => wnop
  end.
Definition put_ack (ack_delay : Z) (ranges : RangeSet) (ecn_counts : option EcnCounts) : writer :=
  w_varint (match ecn_counts with None => 0x02 | Some _ => 0x03 end) >>>
  match rev (rs_iter ranges) with
  | [] => fun _ => Panic
  | first :: it =>
      w_varint (as_u64 (first.2 - 1)) >>> w_varint ack_delay >>> w_varint (zlen it) >>> w_varint (as_u64 ((first.2 - 1) - first.1)) >>>
      put_blocks first.1 it >>> put_ecn ecn_counts
  end.

(** The number returned is the distance the cursor moved. *)
Definition frame_to_bytes (f : frame) : writer :=
  match f with
  | Padding len => w_repeat (Z.to_nat len) (w_varint 0x00)
  | Ping _ => w_varint 0x01
  | ACK ack_delay ranges ecn_counts => put_ack ack_delay ranges ecn_counts
  | ResetStream stream_id error_code final_size => w_varint 0x04 >>> w_varint stream_id >>> w_varint error_code >>> w_varint final_size
  | StopSending stream_id error_code => w_varint 0x05 >>> w_varint stream_id >>> w_varint error_code
  | Crypto data => encode_crypto_header (rb_off data) (rb_len data) >>> w_bytes (rb_bytes data)
  | CryptoHeader _ _ => wnop
  | NewToken token => w_varint 0x07 >>> w_varint (zlen token) >>> w_bytes token
  | Stream stream_id data => encode_stream_header stream_id (rb_off data) (rb_len data) (rb_fin data) >>> w_bytes (rb_bytes data)
  | StreamHeader _ _ _ _ => wnop
  | MaxData max => w_varint 0x10 >>> w_varint max
  | MaxStreamData stream_id max => w_varint 0x11 >>> w_varint stream_id >>> w_varint max
  | MaxStreamsBidi max => w_varint 0x12 >>> w_varint max
  | MaxStreamsUni max => w_varint 0x13 >>> w_varint max
  | DataBlocked limit => w_varint 0x14 >>> w_varint limit
  | StreamDataBlocked stream_id limit => w_varint 0x15 >>> w_varint stream_id >>> w_varint limit
  | StreamsBlockedBidi limit => w_varint 0x16 >>> w_varint limit
  | StreamsBlockedUni limit => w_varint 0x17 >>> w_varint limit
  | NewConnectionId seq_num retire_prior_to conn_id reset_token =>
      w_varint 0x18 >>> w_varint seq_num >>> w_varint retire_prior_to >>> w_u8 (as_u8 (zlen conn_id)) >>> w_bytes conn_id >>> w_bytes reset_token
  | RetireConnectionId seq_num => w_varint 0x19 >>> w_varint seq_num
  | PathChallenge data => w_varint 0x1a >>> w_bytes data
  | PathResponse data => w_varint 0x1b >>> w_bytes data
  | ConnectionClose error_code frame_type reason =>
      w_varint 0x1c >>> w_varint error_code >>> w_varint frame_type >>> w_varint (zlen reason) >>> w_bytes reason
  | ApplicationClose error_code reason => w_varint 0x1d >>> w_varint error_code >>> w_varint (zlen reason) >>> w_bytes reason
  | HandshakeDone => w_varint 0x1e
  | Datagram data => encode_dgram_header (zlen data) >>> w_bytes data
  | DatagramHeader _ => wnop
  end.

(** [octets::varint_len], summed; a number that has no encoding is a panic. *)
Fixpoint varint_lens (l : list Z) : q_result Z :=
  match l with
  | [] => Ok 0
  | v :: l => match varint_len v with Some n => let! m := varint_lens l in Ok (n + m) | None => Panic end
  end.
Fixpoint block_numbers (smallest_ack : Z) (blocks : list range) : list Z :=
  match blocks with
  | [] => []
  | block :: blocks => as_u64 (smallest_ack - block.2 - 1) :: as_u64 ((block.2 - 1) - block.1) :: block_numbers block.1 blocks
  end.
Definition plus_len (k : Z) (m : q_result Z) : q_result Z := let! n := m in Ok (k + n).
Definition wire_len (f : frame) : q_result Z :=
  match f with
  | Padding len => Ok len
  | Ping _ => Ok 1
  | ACK ack_delay ranges ecn_counts =>
      match rev (rs_iter ranges) with
      | [] => Panic
      | first :: it =>
          plus_len 1 (varint_lens ([as_u64 (first.2 - 1); ack_delay; zlen it; as_u64 ((first.2 - 1) - first.1)] ++ block_numbers first.1 it ++
            match ecn_counts with Some ecn => [ect0_count ecn; ect1_count ecn; ecn_ce_count ecn] | None => [] end))
      end
  | ResetStream stream_id error_code final_size => plus_len 1 (varint_lens [stream_id; error_code; final_size])
  | StopSending stream_id error_code => plus_len 1 (varint_lens [stream_id; error_code])
  | Crypto data => plus_len (1 + 2 + rb_len data) (varint_lens [rb_off data])
  | CryptoHeader offset length => plus_len (1 + 2 + length) (varint_lens [offset])
  | NewToken token => plus_len (1 + zlen token) (varint_lens [zlen token])
  | Stream stream_id data => plus_len (1 + 2 + rb_len data) (varint_lens [stream_id; rb_off data])
  | StreamHeader stream_id offset length _ => plus_len (1 + 2 + length) (varint_lens [stream_id; offset])
  | MaxData v | MaxStreamsBidi v | MaxStreamsUni v | DataBlocked v | StreamsBlockedBidi v | StreamsBlockedUni v | RetireConnectionId v =>
      plus_len 1 (varint_lens [v])
  | MaxStreamData stream_id v | StreamDataBlocked stream_id v => plus_len 1 (varint_lens [stream_id; v])
  | NewConnectionId seq_num retire_prior_to conn_id reset_token =>
      plus_len (1 + 1 + zlen conn_id + zlen reset_token) (varint_lens [seq_num; retire_prior_to])
  | PathChallenge _ | PathResponse _ => Ok (1 + 8)
  | ConnectionClose error_code frame_type reason => plus_len (1 + zlen reason) (varint_lens [error_code; frame_type; zlen reason])
  | ApplicationClose error_code reason => plus_len (1 + zlen reason) (varint_lens [error_code; zlen reason])
  | HandshakeDone => Ok 1
  | Datagram data => Ok (1 + 2 + zlen data)
  | DatagramHeader length => Ok (1 + 2 + length)
  end.

(** [push_frame_to_pkt!]: the packet, the room left in it and the frames so far. *)
Definition push_frame (f : frame) (b : OctetsMut) (left : Z) (frames : list frame) : q_result (OctetsMut * Z * list frame * bool) :=
  let! n := wire_len f in
  if n <=? left then let! b := frame_to_bytes f b in Ok (b, left - n, frames ++ [f], true)
  else Ok (b, left, frames, false).

(** ** The reference encoding *)

Fixpoint enc_all (l : list Z) : bytes := match l with [] => [] | v :: l => enc_varint v ++ enc_all l end.
(** The numbers of the blocks, without wrapping. *)
Fixpoint block_list (smallest_ack : Z) (blocks : list range) : list Z :=
  match blocks with
  | [] => []
  | block :: blocks => (smallest_ack - block.2 - 1) :: ((block.2 - 1) - block.1) :: block_list block.1 blocks
  end.
Definition ecn_list (ecn_counts : option EcnCounts) : list Z :=
  match ecn_counts with Some ecn => [ect0_count ecn; ect1_count ecn; ecn_ce_count ecn] | None => [] end.
Definition ack_list (ack_delay : Z) (it : list range) : list Z :=
  match it with [] => [] | first :: it => [first.2 - 1; ack_delay; zlen it; (first.2 - 1) - first.1] ++ block_list first.1 it end.
Definition frame_bytes (f : frame) : bytes :=
  match f with
  | Padding len => replicate (Z.to_nat len) 0
  | Ping _ => enc_all [0x01]
  | ACK ack_delay ranges ecn_counts =>
      enc_all ((match ecn_counts with None => 0x02 | Some _ => 0x03 end) :: ack_list ack_delay (rev (rs_iter ranges)) ++ ecn_list ecn_counts)
  | ResetStream i e s => enc_all [0x04; i; e; s]
  | StopSending i e => enc_all [0x05; i; e]
  | Crypto data => (enc_all [0x06; rb_off data] ++ enc_varint2 (rb_len data)) ++ rb_bytes data
  | NewToken token => enc_all [0x07; zlen token] ++ token
  | Stream i data => (enc_all [if rb_fin data then 0x0f else 0x0e; i; rb_off data] ++ enc_varint2 (rb_len data)) ++ rb_bytes data
  | MaxData max => enc_all [0x10; max]
  | MaxStreamData i max => enc_all [0x11; i; max]
  | MaxStreamsBidi max => enc_all [0x12; max]
  | MaxStreamsUni max => enc_all [0x13; max]
  | DataBlocked limit => enc_all [0x14; limit]
  | StreamDataBlocked i limit => enc_all [0x15; i; limit]
  | StreamsBlockedBidi limit => enc_all [0x16; limit]
  | StreamsBlockedUni limit => enc_all [0x17; limit]
  | NewConnectionId s r c t => enc_all [0x18; s; r] ++ [zlen c] ++ c ++ t
  | RetireConnectionId s => enc_all [0x19; s]
  | PathChallenge data => enc_all [0x1a] ++ data
  | PathResponse data => enc_all [0x1b] ++ data
  | ConnectionClose e t reason => enc_all [0x1c; e; t; zlen reason] ++ reason
  | ApplicationClose e reason => enc_all [0x1d; e; zlen reason] ++ reason
  | HandshakeDone => enc_all [0x1e]
  | Datagram data => (enc_all [0x31] ++ enc_varint2 (zlen data)) ++ data
  | CryptoHeader _ _ | StreamHeader _ _ _ _ | DatagramHeader _ => []
  end.

(** The frames that can be sent: every number has an encoding, data whose length
    takes two bytes has at most 16383 of them, and identifiers and tokens have
    the sizes of the protocol. *)
Definition frame_ok (f : frame) : Prop :=
  match f with
  | Padding len => 1 <= len
  | Ping _ | HandshakeDone => True
  | ACK d ranges ecn =>
      is_varint d /\ Forall is_varint (ecn_list ecn) /\ ranges_wf (rs_iter ranges) /\ solid (rs_iter ranges) /\
      Forall (fun r => r.2 <= 2 ^ 62) (rs_iter ranges) /\ rs_iter ranges <> [] /\ rs_len ranges < 2 ^ 31
  | ResetStream i e s => is_varint i /\ is_varint e /\ is_varint s
  | StopSending i e => is_varint i /\ is_varint e
  | Crypto data => rb_wf data /\ is_varint (rb_off data) /\ rb_len data <= 16383
  | Stream i data => is_varint i /\ rb_wf data /\ rb_off data + rb_len data < 2 ^ 62 /\ rb_len data <= 16383
  | NewToken token => 1 <= zlen token < 2 ^ 31
  | MaxData v | MaxStreamsBidi v | MaxStreamsUni v | DataBlocked v | StreamsBlockedBidi v | StreamsBlockedUni v | RetireConnectionId v => is_varint v
  | MaxStreamData i v | StreamDataBlocked i v => is_varint i /\ is_varint v
  | NewConnectionId s r c t => is_varint s /\ is_varint r /\ 1 <= zlen c <= MAX_CID_LEN /\ zlen t = 16
  | PathChallenge data | PathResponse data => zlen data = 8
  | ConnectionClose e t reason => is_varint e /\ is_varint t /\ zlen reason < 2 ^ 31
  | ApplicationClose e reason => is_varint e /\ zlen reason < 2 ^ 31
  | Datagram data => zlen data <= 16383
  | CryptoHeader _ _ | StreamHeader _ _ _ _ | DatagramHeader _ => False
  end.

(** ** What is written, and how long it is *)

Lemma enc_all_app l k : enc_all (l ++ k) = enc_all l ++ enc_all k.
Proof. induction l as [|v l IH]; [done|]. simpl. by rewrite IH, app_assoc. Qed.
Lemma lens_spec l : Forall is_varint l -> varint_lens l = Ok (zlen (enc_all l)).
Proof. induction 1 as [|v l Hv _ IH]; [done|]. simpl. by rewrite enc_varint_len, IH, zlen_app. Qed.
Lemma wire_lens k l n : Forall is_varint l -> n = k + zlen (enc_all l) -> plus_len k (varint_lens l) = Ok n.
Proof. intros Hl ->. by rewrite lens_spec. Qed.
Lemma zlen_enc1 v : 0 <= v <= 63 -> zlen (enc_varint v) = 1.
Proof. intros. unfold enc_varint. rewrite (proj2 (Z.leb_le v 63)) by lia. by rewrite zlen_to_be. Qed.
Lemma zlen_enc2 v : zlen (enc_varint2 v) = 2.
Proof. unfold enc_varint2. by rewrite zlen_to_be. Qed.
Lemma is_varint_small v : 0 <= v < 2 ^ 31 -> is_varint v.
Proof. unfold is_varint, MAX_VAR_INT. lia. Qed.

(** The blocks of an acknowledgement, from the highest down. *)
Lemma blocks_ok it hi : ranges_wf (rev it ++ hi) -> solid (rev it ++ hi) -> Forall (fun r => r.2 <= 2 ^ 62) (rev it ++ hi) ->
  forall smallest, match hi with [] => False | r :: _ => r.1 = smallest end ->
  block_numbers smallest it = block_list smallest it /\ Forall is_varint (block_list smallest it).
Proof.
  revert hi. induction it as [|[s e] it IH]; intros hi Hw Hs He smallest Hh; [done|].
  simpl in Hw, Hs, He. rewrite <- app_assoc in Hw, Hs, He. simpl in Hw, Hs, He.
  destruct (IH _ Hw Hs He s eq_refl) as [E Hv]. destruct hi as [|r hi]; [done|]. subst smallest.
  apply wf_app in Hw as [Hw (H1 & H2 & H3 & H4 & H5)]. apply last_end_ge in Hw. apply Forall_app in Hs as [_ Hs]. apply Forall_app in He as [_ He].
  apply Forall_cons_iff in Hs as [Hs1 Hs]. apply Forall_cons_iff in Hs as [Hs2 _]. apply Forall_cons_iff in He as [_ He]. apply Forall_cons_iff in He as [He2 _].
  cbn [block_numbers block_list fst snd] in *. rewrite E. unfold as_u64. rewrite !Z.mod_small by lia. split; [done|].
  constructor; [unfold is_varint, MAX_VAR_INT; lia|]. constructor; [unfold is_varint, MAX_VAR_INT; lia|done].
Qed.

(** The numbers of an acknowledgement. *)
Lemma ack_split d ranges ecn : frame_ok (ACK d ranges ecn) -> exists first it, rev (rs_iter ranges) = first :: it /\ rs_iter ranges = rev it ++ [first] /\
  as_u64 (first.2 - 1) = first.2 - 1 /\ as_u64 ((first.2 - 1) - first.1) = (first.2 - 1) - first.1 /\
  block_numbers first.1 it = block_list first.1 it /\ Forall is_varint (ack_list d (first :: it) ++ ecn_list ecn).
Proof.
  intros (Hd & He & Hw & Hs & H62 & Hne & Hl). destruct (rev (rs_iter ranges)) as [|first it] eqn:E.
  { apply (f_equal (@rev _)) in E. rewrite rev_involutive in E. done. }
  exists first, it. assert (rs_iter ranges = rev it ++ [first]) as Ei. { rewrite <- (rev_involutive (rs_iter ranges)), E. done. }
  unfold rs_len in Hl. rewrite Ei in *. destruct (blocks_ok it [first] Hw Hs H62 first.1 eq_refl) as [Hb Hv].
  apply wf_app in Hw as [Hw (H1 & H2 & _)]. apply last_end_ge in Hw. apply Forall_app in Hs as [_ Hs]. apply Forall_app in H62 as [_ H62].
  apply Forall_cons_iff in Hs as [Hs _]. apply Forall_cons_iff in H62 as [H62 _]. cbn in H62.
  unfold as_u64. rewrite !Z.mod_small by lia. split_and!; try done. rewrite zlen_app in Hl. unfold zlen at 1 in Hl. rewrite length_rev in Hl.
  fold (zlen it) in Hl. pose proof (zlen_nonneg it). change (zlen [first]) with 1 in Hl. apply Forall_app. split; [|done].
  repeat (constructor; [unfold is_varint, MAX_VAR_INT in *; lia|]). done.
Qed.

(** A sequence of writers whose numbers are in range. *)
Ltac in_range := first [done|tauto|unfold is_varint, MAX_VAR_INT in *; lia].
Ltac writes_one := first [apply writes_varint; in_range|apply writes_varint2; lia|apply writes_u8|apply writes_bytes|apply writes_nop].
Ltac writes_all := repeat (apply writes_seq; [writes_one|]); writes_one.

Lemma writes_padding n : writes (w_repeat n (w_varint 0)) (replicate n 0).
Proof. induction n as [|n IH]; [apply writes_nop|]. apply (writes_seq _ _ [0]); [by apply (writes_varint 0)|done]. Qed.
Lemma writes_blocks smallest it : Forall is_varint (block_numbers smallest it) -> writes (put_blocks smallest it) (enc_all (block_numbers smallest it)).
Proof.
  revert smallest. induction it as [|b it IH]; intros smallest H; [apply writes_nop|]. cbn [put_blocks block_numbers enc_all] in *.
  apply Forall_cons_iff in H as [H1 H]. apply Forall_cons_iff in H as [H2 H].
  apply writes_seq; [by apply writes_varint|]. apply writes_seq; [by apply writes_varint|]. by apply IH.
Qed.
Lemma writes_ecn ecn : Forall is_varint (ecn_list ecn) -> writes (put_ecn ecn) (enc_all (ecn_list ecn)).
Proof.
  destruct ecn as [[a b c]|]; [|intros; apply writes_nop]. cbn [put_ecn ecn_list enc_all ect0_count ect1_count ecn_ce_count]. intros H.
  apply Forall_cons_iff in H as [H1 H]. apply Forall_cons_iff in H as [H2 H]. apply Forall_cons_iff in H as [H3 _].
  rewrite app_nil_r. writes_all.
Qed.
Lemma writes_ack d ranges ecn : frame_ok (ACK d ranges ecn) -> writes (put_ack d ranges ecn) (frame_bytes (ACK d ranges ecn)).
Proof.
  intros Hf. destruct (ack_split _ _ _ Hf) as (first & it & E & _ & E1 & E2 & Eb & Hv). unfold put_ack, frame_bytes. rewrite E, E1, E2.
  cbn [ack_list] in *. rewrite <- !app_assoc in *. cbn [app enc_all] in *. apply Forall_cons_iff in Hv as [H1 Hv]. apply Forall_cons_iff in Hv as [H2 Hv].
  apply Forall_cons_iff in Hv as [H3 Hv]. apply Forall_cons_iff in Hv as [H4 Hv]. apply Forall_app in Hv as [Hb He]. rewrite enc_all_app, <- Eb.
  apply writes_seq; [apply writes_varint; by destruct ecn|]. do 4 (apply writes_seq; [by apply writes_varint|]).
  apply writes_seq; [apply writes_blocks; by rewrite Eb|by apply writes_ecn].
Qed.

Lemma frame_writes f : frame_ok f -> writes (frame_to_bytes f) (frame_bytes f).
Proof.
  intros Hf. destruct f; try (by destruct Hf); try (by apply writes_ack); cbn [frame_to_bytes frame_bytes enc_all frame_ok] in *; rewrite ?app_nil_r.
  - apply writes_padding.
  - by apply (writes_varint 1).
  - writes_all.
  - writes_all.
  - pose proof (zlen_rb_bytes data ltac:(tauto)). pose proof (rb_off_nonneg data ltac:(tauto)).
    apply writes_seq; [|apply writes_bytes]. unfold encode_crypto_header. rewrite <- app_assoc. writes_all.
  - rewrite <- app_assoc. writes_all.
  - pose proof (rb_off_nonneg data ltac:(tauto)). apply writes_seq; [|apply writes_bytes]. unfold encode_stream_header. rewrite <- !app_assoc.
    destruct (rb_fin data); writes_all.
  - writes_all.
  - writes_all.
  - writes_all.
  - writes_all.
  - writes_all.
  - writes_all.
  - writes_all.
  - writes_all.
  - replace [zlen conn_id] with [as_u8 (as_u8 (zlen conn_id))] by (by rewrite cid_len_u8 by tauto). rewrite <- !app_assoc. writes_all.
  - writes_all.
  - writes_all.
  - writes_all.
  - rewrite <- !app_assoc. pose proof (zlen_nonneg reason). writes_all.
  - rewrite <- !app_assoc. pose proof (zlen_nonneg reason). writes_all.
  - by apply (writes_varint 0x1e).
  - pose proof (zlen_nonneg data). apply writes_seq; [|apply writes_bytes]. unfold encode_dgram_header. writes_all.
Qed.

Lemma ack_wire_len d ranges ecn : frame_ok (ACK d ranges ecn) -> wire_len (ACK d ranges ecn) = Ok (zlen (frame_bytes (ACK d ranges ecn))).
Proof.
  intros Hf. destruct (ack_split _ _ _ Hf) as (first & it & E & _ & E1 & E2 & Eb & Hv). cbn [wire_len frame_bytes]. rewrite E, E1, E2, Eb.
  cbn [ack_list] in Hv. rewrite <- app_assoc in Hv. apply wire_lens; [exact Hv|]. cbn [enc_all]. rewrite zlen_app, zlen_enc1 by (destruct ecn; lia).
  cbn [ack_list]. by rewrite <- app_assoc.
Qed.
(** The length that is announced is the length that is written. *)
Lemma wire_len_exact f : frame_ok f -> wire_len f = Ok (zlen (frame_bytes f)).
Proof.
  intros Hf. destruct f; try (by destruct Hf); try (by apply ack_wire_len).
  all: cbn [wire_len frame_bytes frame_ok] in *; try apply wire_lens; cbn [enc_all]; repeat apply Forall_cons; try apply Forall_nil; try in_range.
  all: try (pose proof (zlen_rb_bytes data ltac:(tauto)) as Hb; pose proof (rb_off_nonneg data ltac:(tauto))).
  all: try (pose proof (zlen_nonneg reason)).
  all: try in_range.
  all: rewrite ?app_nil_r, ?zlen_app, ?zlen_enc2, ?zlen_replicate, ?zlen_cons, ?zlen_nil; try (rewrite zlen_enc1 by (first [lia|case_match; lia])).
  all: try (rewrite Hb); try (f_equal; lia); try lia.
Qed.

(** ** What the peer makes of a frame

    Not everything of a frame is on the wire: how a set of ranges is
    represented, which part of a larger buffer the data is, and what a [Ping]
    was sent for are not. *)

Definition on_wire (f : frame) : frame :=
  match f with
  | Ping _ => Ping None
  | ACK d ranges ecn => ACK d (Inline (rs_iter ranges) 0) ecn
  | Crypto data => Crypto (rb_from (rb_bytes data) (rb_off data) false)
  | Stream i data => Stream i (rb_from (rb_bytes data) (rb_off data) (rb_fin data))
  | f => f
  end.
Definition same_frame (f g : frame) : Prop := on_wire f = on_wire g.
#[export] Instance same_frame_equiv : Equivalence same_frame.
Proof. split; unfold same_frame; [by intros f|by intros f g|intros f g h; congruence]. Qed.
#[export] Instance ack_eliciting_proper : Proper (same_frame ==> eq) ack_eliciting.
Proof. intros f g E. assert (forall f, ack_eliciting (on_wire f) = ack_eliciting f) as H by (by intros []). by rewrite <- (H f), <- (H g), E. Qed.
#[export] Instance probing_proper : Proper (same_frame ==> eq) probing.
Proof. intros f g E. assert (forall f, probing (on_wire f) = probing f) as H by (by intros []). by rewrite <- (H f), <- (H g), E. Qed.
#[export] Instance allowed_proper pkt : Proper (same_frame ==> eq) (allowed pkt).
Proof. intros f g E. assert (forall f, allowed pkt (on_wire f) = allowed pkt f) as H by (by destruct pkt; intros []). by rewrite <- (H f), <- (H g), E. Qed.

(** ** Reading padding and acknowledgements *)

Definition no_zero (q : bytes) : Prop := match q with 0 :: _ => False | _ => True end.

Lemma padding_spec n fuel len q : (n < fuel)%nat -> no_zero q -> parses (read_padding fuel len) (replicate n 0) (len + Z.of_nat n) q.
Proof.
  revert fuel len. induction n as [|n IH]; intros [|fuel] len Hf Hq; try lia; intros p.
  - cbn [replicate app read_padding]. rewrite app_nil_r, Z.add_0_r. destruct q as [|b q].
    + assert (peek_u 1 (mkOctets (p ++ []) (zlen p)) = Err BufferTooShort) as ->; [|done].
      unfold peek_u, idx_range. cbn [o_buf o_off]. rewrite get_range_suffix by (rewrite ?zlen_app; done). done.
    + pose proof (peek_u_spec p [b] q 1 eq_refl) as E. simpl in E. rewrite E. by destruct b.
  - cbn [replicate app read_padding]. pose proof (peek_u_spec p [0] (replicate n 0 ++ q) 1 eq_refl) as E. simpl in E. rewrite E. cbn [Z.eqb of_be fold_left].
    change (0 * 256 + 0 =? 0) with true. cbv iota. change (p ++ 0 :: replicate n 0 ++ q) with (p ++ ([0] ++ replicate n 0) ++ q).
    rewrite (parses_bind r_u8 _ [0] (replicate n 0) 0 (len + Z.of_nat (S n)) q); [done|apply parses_u8|].
    replace (len + Z.of_nat (S n)) with (len + 1 + Z.of_nat n) by lia. apply IH; [lia|done].
Qed.

Lemma usize_big `{Target} : 2 ^ 31 < usize_max.
Proof. unfold usize_max. destruct usize_bits_cases as [-> | ->]; lia. Qed.
Lemma as_usize_small `{Target} v : 0 <= v <= 2 ^ 31 -> as_usize v = v.
Proof. intros. unfold as_usize. apply Z.mod_small. pose proof usize_big. unfold usize_max in *. lia. Qed.

(** A range in front of all others. *)
Lemma insert_front t s e : rs_ok t -> 0 <= s < e -> Forall (fun r => e < r.1) (rs_iter t) -> rs_len t < rs_capacity t ->
  exists t', range_insert t (s, e) = Ok t' /\ rs_ok t' /\ rs_capacity t' = rs_capacity t /\ rs_iter t' = (s, e) :: rs_iter t.
Proof.
  intros Hk Hs Hf Hl. destruct (rs_insert_ok t (s, e)) as (t' & E & Hk' & Hc & Hi); [done|simpl; lia..|]. exists t'. unfold range_insert. rewrite E.
  split_and!; try done. rewrite Hi. unfold rs_spec.
  assert (Forall (fun r => s <= r.1 /\ r.1 <= r.2 /\ e < r.1) (rs_iter t)) as Hall.
  { destruct Hk as (Hw & _). apply wf_starts in Hw. rewrite Forall_forall in *. intros r Hr. specialize (Hf r Hr). specialize (Hw r Hr). simpl in *. lia. }
  rewrite (filter_none (touched (s, e))) by (eapply Forall_impl; [|exact Hall]; unfold touched, above; simpl; intros; apply andb_false_iff; right; lia).
  unfold rs_len in Hl. cbn [is_empty]. replace (zlen (rs_iter t) =? rs_capacity t) with false by lia. cbn [andb].
  rewrite filter_none, filter_all by (eapply Forall_impl; [|exact Hall]; unfold below, above; simpl; lia). done.
Qed.

Lemma zlen_enc_pos v : is_varint v -> 1 <= zlen (enc_varint v).
Proof. intros Hv. pose proof (enc_varint_len v Hv) as E. unfold varint_len in E. repeat case_match; simplify_eq; lia. Qed.
Lemma blocks_len it smallest : Forall is_varint (block_list smallest it) -> zlen it <= zlen (enc_all (block_list smallest it)).
Proof.
  revert smallest. induction it as [|b it IH]; intros smallest H; [done|]. cbn [block_list enc_all] in *. apply Forall_cons_iff in H as [H1 H]. apply Forall_cons_iff in H as [H2 H].
  specialize (IH _ H). rewrite zlen_cons, !zlen_app. pose proof (zlen_enc_pos _ H1). pose proof (zlen_enc_pos _ H2). lia.
Qed.

(** The blocks rebuild the set from its top down; [t] is what there is so far. *)
Lemma read_blocks_spec it fuel smallest t q : rs_ok t -> ranges_wf (rev it ++ rs_iter t) -> solid (rev it ++ rs_iter t) ->
  match rs_iter t with [] => False | r :: _ => r.1 = smallest end -> Forall is_varint (block_list smallest it) ->
  zlen it + rs_len t <= rs_capacity t -> (length it <= fuel)%nat ->
  exists t', rs_iter t' = rev it ++ rs_iter t /\ parses (read_blocks fuel (zlen it) smallest t) (enc_all (block_list smallest it)) t' q.
Proof.
  revert fuel smallest t. induction it as [|[s e] it IH]; intros fuel smallest t Hk Hw Hs Hh Hv Hc Hf.
  { exists t. split; [done|]. destruct fuel; apply parses_ret. }
  destruct fuel as [|fuel]; [simpl in Hf; lia|]. simpl in Hw, Hs. rewrite <- app_assoc in Hw, Hs. simpl in Hw, Hs.
  destruct (rs_iter t) as [|r hi] eqn:Et; [done|]. subst smallest. pose proof Hw as Hw0. apply wf_app in Hw as [Hw (H1 & H2 & H3 & H4 & H5)]. apply last_end_ge in Hw.
  pose proof Hs as Hs0. apply Forall_app in Hs as [_ Hs]. apply Forall_cons_iff in Hs as [Hs1 _]. cbn [block_list enc_all fst snd] in *.
  apply Forall_cons_iff in Hv as [V1 Hv]. apply Forall_cons_iff in Hv as [V2 Hv]. rewrite zlen_cons in *. pose proof (zlen_nonneg it).
  destruct (insert_front t s e) as (t1 & E1 & Hk1 & Hc1 & Hi1); [done|lia| |lia|].
  { rewrite Et. constructor; [simpl in *; lia|]. apply wf_starts in H5. eapply Forall_impl; [|exact H5]. simpl in *. lia. }
  rewrite Et in Hi1. destruct (IH fuel s t1) as (t' & Et' & Hp); try rewrite Hi1; try done.
  { unfold rs_len in *. rewrite Hi1, Hc1. rewrite Et in Hc. rewrite !zlen_cons in *. lia. } { simpl in Hf. lia. }
  exists t'. split; [rewrite Et', Hi1; simpl; by rewrite <- app_assoc|]. cbn [read_blocks]. replace (1 + zlen it <=? 0) with false by lia.
  eapply parses_bind; [by apply parses_varint|]. replace (r.1 <? _) with false by lia.
  eapply parses_bind; [by apply parses_varint|]. replace (_ <? _) with false by lia.
  eapply parses_step; [apply parses_lift|].
  { replace (r.1 - (r.1 - e - 1) - 2 + 1) with e by lia. replace (r.1 - (r.1 - e - 1) - 2 - (e - 1 - s)) with s by lia. exact E1. }
  replace (1 + zlen it - 1) with (zlen it) by lia. replace (r.1 - (r.1 - e - 1) - 2 - (e - 1 - s)) with s by lia. exact Hp.
Qed.
Lemma read_ecn_spec ecn ty q : ty = (match ecn with None => 0x02 | Some _ => 0x03 end) -> Forall is_varint (ecn_list ecn) ->
  parses (read_ecn (as_u8 ty)) (enc_all (ecn_list ecn)) ecn q.
Proof.
  intros -> H. destruct ecn as [[a b c]|]; [|apply parses_ret]. unfold read_ecn. cbn -[enc_varint] in *.
  apply Forall_cons_iff in H as [H1 H]. apply Forall_cons_iff in H as [H2 H]. apply Forall_cons_iff in H as [H3 _].
  do 3 (eapply parses_bind; [by apply parses_varint|]). apply parses_ret.
Qed.

Lemma rs_default_ok `{Target} : rs_ok rs_default /\ rs_capacity rs_default = usize_max /\ rs_iter rs_default = [].
Proof. pose proof usize_big. unfold rs_ok, rs_len, rs_default, MAX_INLINE_CAPACITY. simpl. change (zlen (@nil range)) with 0. split_and!; try done; lia. Qed.

Lemma ack_parses `{Target} d ranges ecn q : frame_ok (ACK d ranges ecn) -> exists g, same_frame (ACK d ranges ecn) g /\
  parses (parse_ack_frame (match ecn with None => 0x02 | Some _ => 0x03 end)) (enc_all (ack_list d (rev (rs_iter ranges)) ++ ecn_list ecn)) g q.
Proof.
  intros Hf. destruct (ack_split _ _ _ Hf) as (first & it & E & Ei & _ & _ & _ & Hv). destruct Hf as (_ & He & Hw & Hs & _ & _ & Hl).
  unfold rs_len in Hl. rewrite E in *. rewrite Ei in *. cbn [ack_list] in *. rewrite <- !app_assoc in *. cbn [app enc_all] in *.
  apply Forall_cons_iff in Hv as [V1 Hv]. apply Forall_cons_iff in Hv as [V2 Hv]. apply Forall_cons_iff in Hv as [V3 Hv]. apply Forall_cons_iff in Hv as [V4 Hv].
  apply Forall_app in Hv as [Hb _]. pose proof Hw as Hw0. pose proof Hs as Hs0. apply wf_app in Hw as [Hw (H1 & H2 & _)]. apply last_end_ge in Hw.
  apply Forall_app in Hs as [_ Hs]. apply Forall_cons_iff in Hs as [Hs _]. destruct rs_default_ok as (Dk & Dc & Di).
  rewrite zlen_app in Hl. unfold zlen at 1 in Hl. rewrite length_rev in Hl. fold (zlen it) in Hl. change (zlen [first]) with 1 in Hl. pose proof usize_big.
  destruct (insert_front rs_default first.1 first.2) as (t1 & E1 & Hk1 & Hc1 & Hi1); [done|lia|by rewrite Di|unfold rs_len; rewrite Di, Dc, zlen_nil; lia|].
  rewrite Di, <- surjective_pairing in Hi1. rewrite enc_all_app.
  destruct (read_blocks_spec it (S (Z.to_nat (zlen (enc_all (block_list first.1 it) ++ enc_all (ecn_list ecn) ++ q)))) first.1 t1 (enc_all (ecn_list ecn) ++ q))
    as (t' & Et' & Hp); try rewrite Hi1; try done.
  { unfold rs_len. rewrite Hi1, Hc1, Dc. change (zlen [first]) with 1. lia. }
  { pose proof (blocks_len it first.1 Hb). rewrite !zlen_app. pose proof (zlen_nonneg (enc_all (ecn_list ecn))). pose proof (zlen_nonneg q). unfold zlen in *. lia. }
  exists (ACK d t' ecn). split; [unfold same_frame, on_wire; by rewrite Et', Hi1, Ei|]. unfold parse_ack_frame.
  do 4 (eapply parses_bind; [by apply parses_varint|]). replace (_ <? _) with false by lia.
  eapply parses_step; [apply parses_lift; replace (first.2 - 1 - (first.2 - 1 - first.1)) with first.1 by lia; replace (first.2 - 1 + 1) with first.2 by lia; exact E1|].
  eapply parses_step; [apply parses_cap|]. replace (first.2 - 1 - (first.2 - 1 - first.1)) with first.1 by lia. rewrite <- app_assoc.
  eapply parses_bind; [exact Hp|]. apply (parses_map _ (fun e => ACK d t' e)). by apply read_ecn_spec.
Qed.

(** ** Reading a frame back *)

Lemma body_parses `{Target} pkt ty w f g q : is_varint ty -> same_frame f g -> allowed pkt f = true -> parses (parse_body ty) w g q ->
  exists g, same_frame f g /\ parses (frame_from_bytes pkt) (enc_varint ty ++ w) g q.
Proof.
  intros Ht Hs Ha Hp. exists g. split; [done|]. eapply parses_bind; [by apply parses_varint|]. rewrite <- (app_nil_r w) in *.
  eapply parses_bind; [rewrite app_nil_r in Hp; exact Hp|]. rewrite <- (allowed_proper pkt f g Hs), Ha. apply parses_ret.
Qed.
(** The branch of [parse_body] for a type that is known. *)
Ltac branch := cbn [parse_body Z.eqb Pos.eqb andb orb Z.leb Z.compare Pos.compare Pos.compare_cont].
Ltac numbers := repeat (eapply parses_bind; [apply parses_varint; in_range|]).
Lemma plain_frame `{Target} pkt ty w f q : is_varint ty -> allowed pkt f = true -> parses (parse_body ty) w f q ->
  exists g, same_frame f g /\ parses (frame_from_bytes pkt) (enc_varint ty ++ w) g q.
Proof. intros. by apply (body_parses pkt ty w f f q). Qed.
Ltac plain := cbn [frame_bytes enc_all frame_ok] in *; rewrite <- ?app_assoc; cbn [app]; apply plain_frame; [in_range|done|]; branch; numbers.

Lemma padding_parses `{Target} pkt len q : 1 <= len -> no_zero q ->
  exists g, same_frame (Padding len) g /\ parses (frame_from_bytes pkt) (frame_bytes (Padding len)) g q.
Proof.
  intros Hl Hq. cbn [frame_bytes]. assert (exists n, len = 1 + Z.of_nat n) as [n ->] by (exists (Z.to_nat (len - 1)); lia).
  replace (Z.to_nat (1 + Z.of_nat n)) with (S n) by lia. change (replicate (S n) 0) with ([0] ++ replicate n 0).
  apply (body_parses pkt 0 _ _ (Padding (1 + Z.of_nat n))); [done|done|by destruct pkt|]. intros p. unfold parse_body. cbn [Z.eqb].
  apply (parses_map _ Padding). apply padding_spec; [|done].
  unfold o_cap. cbn [o_buf o_off]. rewrite !zlen_app, zlen_replicate. pose proof (zlen_nonneg q). lia.
Qed.
Lemma rb_from_view d off fin : rb_bytes (rb_from d off fin) = d /\ rb_off (rb_from d off fin) = off.
Proof. unfold rb_bytes, rb_off. cbn. pose proof (zlen_nonneg d). by rewrite ztake_all, zdrop_nonpos, Z.sub_0_r, Z.add_0_r by lia. Qed.
Lemma same_stream i data : same_frame (Stream i data) (Stream i (rb_from (rb_bytes data) (rb_off data) (rb_fin data))).
Proof. unfold same_frame, on_wire. destruct (rb_from_view (rb_bytes data) (rb_off data) (rb_fin data)) as [-> ->]. done. Qed.
Lemma same_crypto data : same_frame (Crypto data) (Crypto (rb_from (rb_bytes data) (rb_off data) false)).
Proof. unfold same_frame, on_wire. destruct (rb_from_view (rb_bytes data) (rb_off data) false) as [-> ->]. done. Qed.
Lemma stream_parses `{Target} pkt i data q : frame_ok (Stream i data) -> allowed pkt (Stream i data) = true ->
  exists g, same_frame (Stream i data) g /\ parses (frame_from_bytes pkt) (frame_bytes (Stream i data)) g q.
Proof.
  intros (Hi & Hw & Ho & Hl) Ha. cbn [frame_bytes enc_all]. rewrite <- !app_assoc. pose proof (zlen_rb_bytes data Hw). pose proof (rb_off_nonneg data Hw).
  eapply body_parses; [destruct (rb_fin data); done|apply same_stream|done|].
  replace (parse_body (if rb_fin data then 15 else 14)) with (parse_stream_frame (if rb_fin data then 15 else 14)) by (by destruct (rb_fin data)).
  unfold parse_stream_frame. eapply parses_bind; [by apply parses_varint|].
  replace (negb (Z.land (as_u8 (if rb_fin data then 15 else 14)) 4 =? 0)) with true by (by destruct (rb_fin data)).
  replace (negb (Z.land (as_u8 (if rb_fin data then 15 else 14)) 2 =? 0)) with true by (by destruct (rb_fin data)).
  replace (negb (Z.land (as_u8 (if rb_fin data then 15 else 14)) 1 =? 0)) with (rb_fin data) by (by destruct (rb_fin data)).
  eapply parses_bind; [apply parses_varint; unfold is_varint, MAX_VAR_INT; lia|]. cbn [app].
  eapply parses_bind; [unfold read_len; apply (parses_map _ as_usize); apply parses_varint2; lia|]. rewrite as_usize_small by lia.
  change MAX_STREAM_SIZE with (2 ^ 62). replace (_ <=? _) with false by lia. apply (parses_map _ (fun d => Stream i (rb_from d (rb_off data) (rb_fin data)))). by apply parses_bytes.
Qed.
Lemma crypto_parses `{Target} pkt data q : frame_ok (Crypto data) -> allowed pkt (Crypto data) = true ->
  exists g, same_frame (Crypto data) g /\ parses (frame_from_bytes pkt) (frame_bytes (Crypto data)) g q.
Proof.
  intros (Hw & Ho & Hl) Ha. cbn [frame_bytes enc_all]. rewrite <- !app_assoc. pose proof (zlen_rb_bytes data Hw). pose proof (rb_off_nonneg data Hw).
  apply (body_parses _ 6 _ _ _ _ ltac:(done) (same_crypto data) Ha). cbn [parse_body Z.eqb Pos.eqb andb orb Z.leb Z.compare Pos.compare Pos.compare_cont].
  eapply parses_bind; [by apply parses_varint|]. apply (parses_map _ (fun d => Crypto (rb_from d (rb_off data) false))). cbn [app].
  unfold r_varint_bytes. eapply parses_bind; [apply parses_varint2; lia|]. apply parses_bytes. by rewrite as_usize_small by lia.
Qed.

Lemma frame_parses `{Target} pkt f q : frame_ok f -> allowed pkt f = true -> (forall len, f = Padding len -> no_zero q) ->
  exists g, same_frame f g /\ parses (frame_from_bytes pkt) (frame_bytes f) g q.
Proof.
  intros Hf Ha Hz. pose proof usize_big.
  destruct f; try (by destruct Hf); try (by apply crypto_parses); try (by apply stream_parses); try (apply padding_parses; [done|by eapply Hz]).
  - apply (body_parses pkt 1 [] _ (Ping None) q); [done|reflexivity|done|]. branch. apply parses_ret.
  - destruct (ack_parses ack_delay ranges ecn_counts q Hf) as (g & Hs & Hp). cbn [frame_bytes enc_all]. eapply body_parses; [by destruct ecn_counts|exact Hs|done|].
    destruct ecn_counts; branch; exact Hp.
  - plain. apply parses_ret.
  - plain. apply parses_ret.
  - plain. replace (zlen token =? 0) with false by lia. rewrite as_usize_small by lia. apply (parses_map _ NewToken). by apply parses_bytes.
  - plain. apply parses_ret.
  - plain. apply parses_ret.
  - plain. apply parses_ret.
  - plain. apply parses_ret.
  - plain. apply parses_ret.
  - plain. apply parses_ret.
  - plain. apply parses_ret.
  - plain. apply parses_ret.
  - plain. change (zlen conn_id :: ?l) with ([zlen conn_id] ++ l). eapply parses_bind; [apply parses_u8|]. unfold MAX_CID_LEN in *.
    replace (negb _) with false by lia. eapply parses_bind; [by apply parses_bytes|]. apply (parses_map _ (NewConnectionId seq_num retire_prior_to conn_id)). apply parses_bytes. lia.
  - plain. apply parses_ret.
  - plain. apply (parses_map _ PathChallenge). by apply parses_bytes.
  - plain. apply (parses_map _ PathResponse). by apply parses_bytes.
  - plain. apply (parses_map _ (ConnectionClose error_code frame_type)). apply parses_varint_bytes; unfold MAX_VAR_INT; lia.
  - plain. apply (parses_map _ (ApplicationClose error_code)). apply parses_varint_bytes; unfold MAX_VAR_INT; lia.
  - plain. apply parses_ret.
  - plain. unfold parse_datagram_frame. eapply parses_bind; [unfold read_len; apply (parses_map _ as_usize); apply parses_varint2; pose proof (zlen_nonneg data); lia|].
    pose proof (zlen_nonneg data). rewrite as_usize_small by lia. apply (parses_map _ Datagram). by apply parses_bytes.
Qed.

(** ** Any bytes are read or refused *)

Lemma read_padding_ok fuel len o : cursor_ok o -> o_cap o < Z.of_nat fuel -> reads 0 o (read_padding fuel len o).
Proof.
  revert len o. induction fuel as [|fuel IH]; intros len o Ho Hf; [destruct Ho; unfold o_cap in *; lia|]. cbn [read_padding].
  pose proof (peek_u_cases 1 o Ho) as Hp. destruct (o_cap o <? Z.of_nat 1) eqn:Ec; [rewrite Hp; simpl; split; [done|lia]|]. destruct Hp as (v & -> & _).
  destruct (v =? 0); [|simpl; split; [done|lia]]. unfold rbind. pose proof (consumes_u8 o Ho) as H1.
  destruct (r_u8 o) as [[x o']| | |]; simpl in *; try done. destruct H1 as [Ho' Hc]. specialize (IH (len + 1) o' Ho' ltac:(lia)).
  destruct (read_padding fuel _ o') as [[]| | |]; simpl in *; try done. destruct IH. split; [done|lia].
Qed.
(** The loop over the blocks ends with the packet at the latest. *)
Lemma read_blocks_ok fuel count smallest t o : cursor_ok o -> rs_ok t -> 0 <= smallest -> o_cap o < Z.of_nat fuel -> reads 0 o (read_blocks fuel count smallest t o).
Proof.
  revert count smallest t o. induction fuel as [|fuel IH]; intros count smallest t o Ho Hk Hs Hf; [destruct Ho; unfold o_cap in *; lia|]. cbn [read_blocks].
  destruct (count <=? 0); [simpl; split; [done|lia]|]. unfold rbind, r_varint.
  destruct (get_varint_cases o Ho) as [-> |(gap & n & -> & Hg & Hn & Hc)]; [done|]. cbn [short_err map_err obind]. destruct (Z.ltb_spec smallest (2 + gap)); [done|].
  assert (cursor_ok (o_advance o n)) as Ho1 by (apply o_advance_ok; [done|lia]).
  destruct (get_varint_cases _ Ho1) as [-> |(blk & m & -> & Hb & Hm & Hc')]; [done|]. cbn [short_err map_err obind]. destruct (Z.ltb_spec (smallest - gap - 2) blk); [done|].
  unfold is_varint in *. destruct (rs_insert_ok t (smallest - gap - 2 - blk, smallest - gap - 2 + 1)) as (t' & E & Hk' & _); [done|simpl; lia..|].
  unfold rlift, range_insert. rewrite E. cbn [obind]. assert (cursor_ok (o_advance (o_advance o n) m)) as Ho2 by (apply o_advance_ok; [done|lia]).
  rewrite o_cap_advance in Hc'. specialize (IH (count - 1) (smallest - gap - 2 - blk) t' _ Ho2 Hk' ltac:(lia) ltac:(rewrite !o_cap_advance; lia)).
  destruct (read_blocks fuel _ _ _ _) as [[]| | |]; simpl in *; try done. rewrite !o_cap_advance in IH. destruct IH. split; [done|lia].
Qed.
Lemma consumes_varint0 : consumes 0 r_varint.
Proof. apply (consumes_weaken 1); [lia|apply consumes_varint]. Qed.
Lemma consumes_cap : consumes 0 r_cap.
Proof. intros o Ho. simpl. split; [done|lia]. Qed.

Lemma ack_returns `{Target} ty : consumes 0 (parse_ack_frame ty).
Proof.
  intros o Ho. unfold parse_ack_frame, rbind at 1, r_varint at 1. destruct (get_varint_cases o Ho) as [-> |(la & n & -> & Hla & Hn & Hc)]; [done|].
  cbn [short_err map_err obind]. assert (cursor_ok (o_advance o n)) as Ho1 by (apply o_advance_ok; [done|lia]).
  apply (reads_weaken_from o (o_advance o n)); [rewrite o_cap_advance; lia|]. revert Ho1. generalize (o_advance o n). clear o Ho n Hn Hc. intros o Ho.
  apply (consumes_then r_varint); [apply consumes_varint0| |done]. intros d. apply (consumes_then r_varint); [apply consumes_varint0|]. intros cnt. clear o Ho.
  intros o Ho. unfold rbind at 1, r_varint at 1. destruct (get_varint_cases o Ho) as [-> |(blk & n & -> & Hb & Hn & Hc)]; [done|].
  cbn [short_err map_err obind]. destruct (Z.ltb_spec la blk); [done|]. assert (cursor_ok (o_advance o n)) as Ho1 by (apply o_advance_ok; [done|lia]).
  apply (reads_weaken_from o (o_advance o n)); [rewrite o_cap_advance; lia|]. revert Ho1. generalize (o_advance o n). clear o Ho n Hn Hc. intros o Ho. unfold is_varint in *.
  destruct rs_default_ok as (Dk & _). destruct (rs_insert_ok rs_default (la - blk, la + 1)) as (t & E & Hk & _); [done|simpl; lia..|].
  unfold rbind at 1, rlift, range_insert. rewrite E. cbn [obind]. unfold rbind at 1, r_cap. cbn [obind].
  apply (reads_bind 0 0); [apply read_blocks_ok; try done; [lia|destruct Ho; unfold o_cap in *; lia]|]. intros t' o' Ho'.
  apply (consumes_then (read_ecn _)); [|intros; apply consumes_ret|done]. unfold read_ecn. destruct (negb _); [|apply consumes_ret].
  do 3 (apply consumes_then; [apply consumes_varint0|intros ?]). apply consumes_ret.
Qed.

Lemma as_usize_nonneg `{Target} v : 0 <= as_usize v.
Proof. unfold as_usize. apply Z.mod_pos_bound. destruct usize_bits_cases as [-> | ->]; lia. Qed.
(** A length that was read is not negative. *)
Lemma read_len_ok `{Target} given o : cursor_ok o ->
  match read_len given o with Ok (len, o') => 0 <= len /\ cursor_ok o' /\ o_cap o' <= o_cap o | Err _ => True | _ => False end.
Proof.
  intros Ho. unfold read_len. destruct given.
  - unfold rbind, r_varint. destruct (get_varint_cases o Ho) as [-> |(v & n & -> & Hv & Hn & Hc)]; [done|]. simpl. rewrite o_cap_advance.
    split; [apply as_usize_nonneg|]. split; [apply o_advance_ok; [done|lia]|lia].
  - simpl. destruct Ho as [? ?]. unfold cursor_ok, o_cap. split; [lia|]. split; [done|lia].
Qed.
Lemma bytes_after_len `{Target} {A} given (k : Z -> reader A) : (forall len, 0 <= len -> consumes 0 (k len)) -> consumes 0 (rbind (read_len given) k).
Proof.
  intros Hk o Ho. unfold rbind. pose proof (read_len_ok given o Ho) as Hl. destruct (read_len given o) as [[len o']| | |]; try done. cbn [obind].
  destruct Hl as (H0 & Ho' & Hc). by eapply reads_weaken_from; [|by apply Hk].
Qed.
Lemma stream_returns `{Target} ty : consumes 0 (parse_stream_frame ty).
Proof.
  unfold parse_stream_frame. apply consumes_then; [apply consumes_varint0|]. intros i.
  apply consumes_then; [destruct (negb _); [apply consumes_varint0|apply consumes_ret]|]. intros off. apply bytes_after_len. intros len Hl.
  destruct (_ <=? _); [apply consumes_fail|]. apply consumes_then; [by apply consumes_bytes|]. intros. apply consumes_ret.
Qed.
Lemma datagram_returns `{Target} ty : consumes 0 (parse_datagram_frame ty).
Proof. unfold parse_datagram_frame. apply bytes_after_len. intros len Hl. apply consumes_then; [by apply consumes_bytes|]. intros. apply consumes_ret. Qed.
Lemma new_cid_returns `{Target} seq rpt : consumes 0 (let* n := r_u8 in
  if negb ((1 <=? n) && (n <=? MAX_CID_LEN)) then rfail EInvalidFrame
  else let* c := r_bytes n in let* t := r_bytes 16 in rret (NewConnectionId seq rpt c t)).
Proof.
  apply consumes_then; [apply (consumes_weaken 1); [lia|apply consumes_u8]|]. intros n. destruct (negb _) eqn:E; [apply consumes_fail|].
  apply consumes_then; [apply consumes_bytes; lia|]. intros c. apply consumes_then; [by apply consumes_bytes|]. intros. apply consumes_ret.
Qed.
Lemma token_returns `{Target} : consumes 0 (let* len := r_varint in if len =? 0 then rfail EInvalidFrame else let* t := r_bytes (as_usize len) in rret (NewToken t)).
Proof.
  apply consumes_then; [apply consumes_varint0|]. intros len. destruct (len =? 0); [apply consumes_fail|].
  apply consumes_then; [apply consumes_bytes, as_usize_nonneg|]. intros. apply consumes_ret.
Qed.
Lemma padding_returns `{Target} : consumes 0 (fun o => (let* len := read_padding (S (Z.to_nat (o_cap o))) 1 in rret (Padding len)) o).
Proof.
  intros o Ho. apply (reads_bind 0 0); [|intros a o' Ho'; by apply consumes_ret]. apply read_padding_ok; [done|]. destruct Ho. unfold o_cap. lia.
Qed.
Lemma body_returns `{Target} ty : consumes 0 (parse_body ty).
Proof.
  assert (consumes 0 r_varint_bytes) by (apply (consumes_weaken 1); [lia|apply consumes_varint_bytes]).
  assert (forall n, 0 <= n -> consumes 0 (r_bytes n)) by apply consumes_bytes.
  unfold parse_body.
  repeat match goal with
         | |- consumes 0 (if _ then _ else _) => destruct (_ : bool)
         | |- _ => first [apply padding_returns|apply ack_returns|apply stream_returns|apply datagram_returns|apply token_returns|apply new_cid_returns|apply consumes_ret|apply consumes_fail]
         | |- consumes 0 (rbind _ _) => apply consumes_then; [first [apply consumes_varint0|done|auto with zarith]|intros ?]
         end.
Qed.
Lemma frame_returns `{Target} pkt : consumes 1 (frame_from_bytes pkt).
Proof.
  apply (consumes_bind 1 0); [apply consumes_varint|]. intros ty. apply consumes_then; [apply body_returns|]. intros f.
  destruct (allowed pkt f); [apply consumes_ret|apply consumes_fail].
Qed.
Lemma read_frames_return `{Target} fuel pkt o : cursor_ok o -> o_cap o <= Z.of_nat fuel -> returns (read_frames fuel pkt o).
Proof.
  revert o. induction fuel as [|fuel IH]; intros o Ho Hf; cbn [read_frames]; (destruct (Z.leb_spec (o_cap o) 0); [done|]); [lia|].
  pose proof (frame_returns pkt o Ho) as Hr. destruct (frame_from_bytes pkt o) as [[f o']| | |]; try done. cbn [obind]. destruct Hr as [Ho' Hc].
  apply returns_bind; [apply IH; [done|lia]|done].
Qed.
(** Whatever a peer sends, reading its frames ends with the frames or an error. *)
Lemma payload_returns `{Target} pkt payload : bytes_ok payload -> returns (payload_frames pkt payload).
Proof. intros Hb. apply read_frames_return; [by apply with_slice_ok|]. unfold o_cap, with_slice, zlen. simpl. lia. Qed.

(** ** A packet's frames *)

Fixpoint push_all (fs : list frame) (b : OctetsMut) (left : Z) (frames : list frame) : q_result (OctetsMut * Z * list frame) :=
  match fs with
  | [] => Ok (b, left, frames)
  | f :: fs => let! '(b, left, frames, _) := push_frame f b left frames in push_all fs b left frames
  end.
Definition frames_bytes (fs : list frame) : bytes := concat (map frame_bytes fs).
Definition is_padding (f : frame) : bool := match f with Padding _ => true | _ => false end.
(** Padding comes last, if at all. *)
Fixpoint pad_last (fs : list frame) : bool :=
  match fs with [] => true | f :: fs => (negb (is_padding f) || is_empty fs) && pad_last fs end.

Lemma frames_bytes_cons f fs : frames_bytes (f :: fs) = frame_bytes f ++ frames_bytes fs.
Proof. done. Qed.
Lemma frames_bytes_snoc fs f : frames_bytes (fs ++ [f]) = frames_bytes fs ++ frame_bytes f.
Proof. unfold frames_bytes. rewrite map_app, concat_app. simpl. by rewrite app_nil_r. Qed.
Lemma pad_last_sublist fs gs : sublist fs gs -> pad_last gs = true -> pad_last fs = true.
Proof.
  induction 1 as [|f fs gs Hs IH|f fs gs Hs IH]; [done| |]; cbn [pad_last]; intros [H1 H2]%andb_true_iff; [|auto].
  rewrite IH by done. apply orb_true_iff in H1 as [-> |H1]; [done|]. destruct gs; [|done]. apply sublist_nil_r in Hs as ->. by rewrite orb_true_r.
Qed.

Lemma Forall_sublist {A} (P : A -> Prop) l k : sublist l k -> Forall P k -> Forall P l.
Proof. induction 1 as [|x l k _ IH|x l k _ IH]; [done| |]; intros [H1 H2]%Forall_cons_iff; [constructor|]; auto. Qed.
(** A frame goes in when there is room for it, and never runs out of buffer. *)
Lemma push_spec f p r left frames : frame_ok f -> left <= zlen r ->
  push_frame f (mkOctetsMut (p ++ r) (zlen p)) left frames =
  if zlen (frame_bytes f) <=? left
  then Ok (mkOctetsMut ((p ++ frame_bytes f) ++ zdrop (zlen (frame_bytes f)) r) (zlen (p ++ frame_bytes f)), left - zlen (frame_bytes f), frames ++ [f], true)
  else Ok (mkOctetsMut (p ++ r) (zlen p), left, frames, false).
Proof.
  intros Hf Hl. unfold push_frame. rewrite wire_len_exact by done. cbn [obind]. destruct (Z.leb_spec (zlen (frame_bytes f)) left); [|done].
  rewrite (frame_writes f Hf) by lia. done.
Qed.
Lemma push_all_spec fs p r left frames : Forall frame_ok fs -> left <= zlen r -> exists sent, sublist sent fs /\ zlen (frames_bytes sent) <= Z.max 0 left /\
  push_all fs (mkOctetsMut (p ++ r) (zlen p)) left frames =
  Ok (mkOctetsMut ((p ++ frames_bytes sent) ++ zdrop (zlen (frames_bytes sent)) r) (zlen (p ++ frames_bytes sent)), left - zlen (frames_bytes sent), frames ++ sent).
Proof.
  intros H. revert p r left frames. induction H as [|f fs Hf _ IH]; intros p r left frames Hl.
  { exists []. split; [constructor|]. unfold frames_bytes. cbn [map concat push_all]. change (zlen (@nil Z)) with 0. split; [lia|]. by rewrite zdrop_nonpos, !app_nil_r, Z.sub_0_r by lia. }
  cbn [push_all]. rewrite push_spec by done. pose proof (zlen_nonneg (frame_bytes f)). destruct (Z.leb_spec (zlen (frame_bytes f)) left) as [Hle|Hgt]; cbn [obind].
  - destruct (IH (p ++ frame_bytes f) (zdrop (zlen (frame_bytes f)) r) (left - zlen (frame_bytes f)) (frames ++ [f])) as (sent & Hs & Hz & E); [rewrite zlen_zdrop; lia|].
    exists (f :: sent). split; [by constructor|]. rewrite frames_bytes_cons. pose proof (zlen_nonneg (frames_bytes sent)). split; [rewrite zlen_app; lia|].
    rewrite E, <- !app_assoc, zdrop_zdrop, (zlen_app (frame_bytes f)) by done. do 3 f_equal. lia.
  - destruct (IH p r left frames Hl) as (sent & Hs & Hz & E). exists sent. split; [by constructor|]. done.
Qed.

Lemma frame_nonempty f : frame_ok f -> 1 <= zlen (frame_bytes f).
Proof.
  intros Hf. destruct f; try (by destruct Hf); cbn [frame_bytes enc_all frame_ok] in *; try (rewrite zlen_replicate; lia).
  all: rewrite <- ?app_assoc; match goal with |- 1 <= zlen (enc_varint ?t ++ ?x) => rewrite zlen_app, (zlen_enc1 t) by (first [lia|case_match; lia]); pose proof (zlen_nonneg x); lia end.
Qed.
Lemma read_all `{Target} pkt fs p fuel : Forall frame_ok fs -> Forall (fun f => allowed pkt f = true) fs -> pad_last fs = true ->
  zlen (frames_bytes fs) <= Z.of_nat fuel ->
  exists gs, read_frames fuel pkt (mkOctets (p ++ frames_bytes fs) (zlen p)) = Ok gs /\ Forall2 same_frame fs gs.
Proof.
  intros Hf. revert p fuel. induction Hf as [|f fs Hf _ IH]; intros p fuel Ha Hl Hz.
  { exists []. split; [|constructor]. unfold frames_bytes. simpl. rewrite app_nil_r. destruct fuel; cbn [read_frames]; unfold o_cap; cbn [o_buf o_off]; by rewrite Z.sub_diag. }
  apply Forall_cons_iff in Ha as [Ha Has]. apply andb_true_iff in Hl as [H1 H2]. rewrite frames_bytes_cons in *. rewrite zlen_app in Hz.
  pose proof (zlen_nonneg (frames_bytes fs)). destruct (frame_parses pkt f (frames_bytes fs) Hf Ha) as (g & Hs & Hp).
  { intros len ->. by destruct fs. }
  pose proof (frame_nonempty f Hf) as H3.
  destruct fuel as [|fuel]; [lia|]. cbn [read_frames]. unfold o_cap at 1. cbn [o_buf o_off]. rewrite !zlen_app. replace (_ <=? 0) with false by lia.
  rewrite Hp. cbn [obind]. destruct (IH (p ++ frame_bytes f) fuel Has H2 ltac:(lia)) as (gs & E & Hgs). rewrite E. cbn [obind]. exists (g :: gs). split; [done|by constructor].
Qed.
