(* ===== verification/QRecv.v ===== *)
(** * The receiving half of a QUIC stream

    Models stream/recv_buf.rs of quiche: pieces of a stream arrive in any
    order, overlapping and repeated, and are read in order.  The [BTreeMap] of
    pieces, keyed by the offset where a piece ends, is the list of its entries
    in the order of the keys. *)

From S2P Require Import Prelude QBuffers.
From Stdlib Require Import ZArith Lia ZifyBool.
From stdpp Require Import base list numbers option decidable.
Open Scope Z_scope.

Record RecvBuf : Type := mkRecv {
  rv_data : list (Z * RangeBuf); rv_off : Z; rv_len : Z; rv_flow : FlowControl;
  rv_fin_off : option Z; rv_error : option Z; rv_drain : bool
}.

Definition recv_new (max_data initial_window max_window : Z) : RecvBuf :=
  mkRecv [] 0 0 (fc_new max_data initial_window max_window) None None false.

Fixpoint map_insert (k : Z) (v : RangeBuf) (m : list (Z * RangeBuf)) : list (Z * RangeBuf) :=
  match m with
  | [] => [(k, v)]
  | (k', v') :: tail =>
      if k <? k' then (k, v) :: m else if k =? k' then (k, v) :: tail else (k', v') :: map_insert k v tail
  end.

(** The loop over the pieces that end at the new one's start or after: what is
    left of the new one ([None]: nothing, [continue 'tmp]), and the part behind
    a piece that was put aside. *)
Fixpoint overlaps (entries : list (Z * RangeBuf)) (buf : RangeBuf) (tmp : list RangeBuf) : q_result (option RangeBuf * list RangeBuf) :=
  match entries with
  | [] => Ok (Some buf, tmp)
  | (_, b) :: entries =>
      let off := rb_off buf in
      if rb_max_off buf <? rb_off b then Ok (Some buf, tmp)
      else if (rb_off b <=? off) && (rb_max_off buf <=? rb_max_off b) then Ok (None, tmp)
      else
        let! buf := if (rb_off b <=? off) && (off <? rb_max_off b)
                    then let! '(_, t) := rb_split_off (rb_max_off b - off) buf in Ok t else Ok buf in
        if (off <? rb_off b) && (rb_off b <? rb_max_off buf)
        then let! '(h, t) := rb_split_off (rb_off b - off) buf in overlaps entries h (tmp ++ [t])
        else overlaps entries buf tmp
  end.

(** The loop over [tmp_bufs].  A part that is put aside starts where a stored
    piece starts, behind the start of the part before it: one turn more than
    there are pieces is enough. *)
Fixpoint write_parts (fuel : nat) (r : RecvBuf) (tmp : list RangeBuf) : q_result RecvBuf :=
  match tmp with
  | [] => Ok r
  | buf :: tmp =>
      match fuel with
      | O => OutOfFuel
      | S fuel =>
          let! buf := if rb_off buf <? rv_off r
                      then let! '(_, t) := rb_split_off (rv_off r - rb_off buf) buf in Ok t else Ok buf in
          let! '(kept, tmp) := if (rb_off buf <? rv_len r) || rb_is_empty buf
                               then overlaps (List.filter (fun e => rb_off buf <=? e.1) (rv_data r)) buf tmp
                               else Ok (Some buf, tmp) in
          match kept with
          | None => write_parts fuel r tmp
          | Some buf =>
              let len := Z.max (rv_len r) (rb_max_off buf) in
              write_parts fuel
                (if negb (rv_drain r) then
                   mkRecv (map_insert (rb_max_off buf) buf (rv_data r)) (rv_off r) len (rv_flow r) (rv_fin_off r) (rv_error r) (rv_drain r)
                 else mkRecv (rv_data r) len len (rv_flow r) (rv_fin_off r) (rv_error r) (rv_drain r)) tmp
          end
      end
  end.

Definition with_fin (fin_off : option Z) (r : RecvBuf) : RecvBuf :=
  mkRecv (rv_data r) (rv_off r) (rv_len r) (rv_flow r) fin_off (rv_error r) (rv_drain r).

Definition recv_write (r : RecvBuf) (buf : RangeBuf) : q_result RecvBuf :=
  if fc_max_data (rv_flow r) <? rb_max_off buf then Err EFlowControl
  else if match rv_fin_off r with
          | Some fin_off => (fin_off <? rb_max_off buf) || rb_fin buf && negb (fin_off =? rb_max_off buf)
          | None => false
          end then Err EFinalSize
  else if rb_fin buf && (rb_max_off buf <? rv_len r) then Err EFinalSize
  else if bool_decide (is_Some (rv_fin_off r)) && rb_is_empty buf then Ok r
  else
    let r := if rb_fin buf then with_fin (Some (rb_max_off buf)) r else r in
    if negb (rb_fin buf) && rb_is_empty buf then Ok r
    else if (rb_max_off buf <=? rv_off r) && negb (rb_is_empty buf) then Ok r
    else write_parts (S (S (length (rv_data r)))) r [buf].

(** [ready]. *)
Definition recv_ready (r : RecvBuf) : bool :=
  match rv_data r with [] => false | (_, buf) :: _ => rb_off buf =? rv_off r end.
Definition recv_is_fin (r : RecvBuf) : bool := bool_decide (rv_fin_off r = Some (rv_off r)).

(** The loop of [emit_or_discard]: the entries that are left, the new offset
    and what was taken. *)
Fixpoint take_ready (data : list (Z * RangeBuf)) (off cap : Z) : list (Z * RangeBuf) * Z * bytes :=
  match data with
  | [] => ([], off, [])
  | (k, buf) :: rest =>
      if (0 <? cap) && (rb_off buf =? off) then
        let buf_len := Z.min (rb_len buf) cap in
        let taken := ztake buf_len (rb_bytes buf) in
        if buf_len <? rb_len buf then ((k, rb_consume buf_len buf) :: rest, off + buf_len, taken)
        else let '(rest, off, more) := take_ready rest (off + buf_len) (cap - buf_len) in (rest, off, taken ++ more)
      else (data, off, [])
  end.

(** [emit] into a buffer of [cap] bytes; [Discard] does the same without the
    copy.  The second result is the state also of a read that fails. *)
Definition emit_or_discard (cap : Z) (r : RecvBuf) : q_result (bytes * bool) * RecvBuf :=
  if negb (recv_ready r) then (Err EDone, r)
  else match rv_error r with
       | Some e => (Err (EStreamReset e), mkRecv [] (rv_off r) (rv_len r) (rv_flow r) (rv_fin_off r) (rv_error r) (rv_drain r))
       | None =>
           let '(data, off, out) := take_ready (rv_data r) (rv_off r) cap in
           let r := mkRecv data off (rv_len r) (add_consumed (zlen out) (rv_flow r)) (rv_fin_off r) (rv_error r) (rv_drain r) in
           (Ok (out, recv_is_fin r), r)
       end.

(** [RecvBufResetReturn] is the pair of its fields. *)
Definition recv_reset (error_code final_size : Z) (r : RecvBuf) : q_result (Z * Z) * RecvBuf :=
  if match rv_fin_off r with Some fin_off => negb (fin_off =? final_size) | None => false end then (Err EFinalSize, r)
  else if final_size <? rv_len r then (Err EFinalSize, r)
  else if bool_decide (is_Some (rv_error r)) then (Ok (0, 0), r)
  else
    let result := (final_size - rv_len r, final_size - rv_off r) in
    let r := mkRecv [] final_size (rv_len r) (rv_flow r) (rv_fin_off r) (Some error_code) (rv_drain r) in
    match recv_write r (rb_from [] final_size true) with
    | Ok r => (Ok result, r)
    | Err e => (Err e, r)
    | Panic => (Panic, r)
    | OutOfFuel => (OutOfFuel, r)
    end.

Definition recv_shutdown (r : RecvBuf) : q_result (Z * RecvBuf) :=
  if rv_drain r then Err EDone
  else Ok (rv_len r - rv_off r, mkRecv [] (rv_len r) (rv_len r) (rv_flow r) (rv_fin_off r) (rv_error r) true).

Definition with_flow (f : FlowControl -> FlowControl) (r : RecvBuf) : RecvBuf :=
  mkRecv (rv_data r) (rv_off r) (rv_len r) (f (rv_flow r)) (rv_fin_off r) (rv_error r) (rv_drain r).
Definition recv_update_max_data (now : Z) : RecvBuf -> RecvBuf := with_flow (update_max_data now).
Definition recv_autotune_window (now rtt : Z) : RecvBuf -> RecvBuf := with_flow (autotune_window now rtt).
Definition almost_full (r : RecvBuf) : bool := bool_decide (rv_fin_off r = None) && should_update_max_data (rv_flow r).

(** ** The pieces in store

    They are pieces of one stream, in order and apart, each with a byte at
    least, but for one at the end that only marks the end of the stream.  Keys
    are above [p], offsets at [lo] or above. *)
Fixpoint stored (S : bytes) (p lo : Z) (l : list (Z * RangeBuf)) : Prop :=
  match l with
  | [] => True
  | (k, b) :: l => piece_of S b /\ k = rb_max_off b /\ p < k /\ lo <= rb_off b /\ (rb_off b < k \/ rb_off b = k /\ k = zlen S /\ l = []) /\ stored S k k l
  end.
Definition covered (l : list (Z * RangeBuf)) (x : Z) : Prop := Exists (fun e => rb_off e.2 <= x < rb_max_off e.2) l.
Definition fresh_buf (b : RangeBuf) : Prop := rb_pos b = rb_start b.
Definition apart (b : RangeBuf) (l : list (Z * RangeBuf)) : Prop :=
  Forall (fun e => rb_max_off e.2 <= rb_off b \/ rb_max_off b <= rb_off e.2) l.

Section Store.
Context (S : bytes).

Lemma stored_weaken p p' lo lo' l : p' <= p -> lo' <= lo -> stored S p lo l -> stored S p' lo' l.
Proof. destruct l as [|[k b] l]; simpl; [done|]. intros ? ? (? & ? & ? & ? & ? & ?). split_and!; try done; lia. Qed.
Lemma stored_offs p lo l : stored S p lo l -> Forall (fun e => lo <= rb_off e.2 /\ rb_off e.2 <= rb_max_off e.2 /\ e.1 = rb_max_off e.2 /\ p < e.1) l.
Proof.
  revert p lo. induction l as [|[k b] l IH]; intros p lo; simpl; [done|]. intros (? & -> & ? & ? & ? & Hl).
  constructor; [simpl; lia|]. apply IH in Hl. eapply Forall_impl; [|exact Hl]. simpl. lia.
Qed.

Lemma overlaps_gap p lo l b tmp : stored S p lo l -> rb_max_off b < lo -> overlaps l b tmp = Ok (Some b, tmp).
Proof.
  destruct l as [|[k e] l]; [done|]. intros (_ & _ & _ & ? & _) ?. simpl. by rewrite (proj2 (Z.ltb_lt _ _)) by lia.
Qed.

(** What the loop over the stored pieces makes of a new one. *)
Definition kept_ok (l : list (Z * RangeBuf)) (buf : RangeBuf) (tmp : list RangeBuf) (res : option RangeBuf * list RangeBuf) : Prop :=
  match res with
  | (None, tmp') => tmp' = tmp /\ (forall x, rb_off buf <= x < rb_max_off buf -> covered l x) /\ Exists (fun e => rb_max_off buf <= e.1) l
  | (Some b, tmp') =>
      piece_of S b /\ fresh_buf b /\ rb_off buf <= rb_off b < rb_max_off b /\ (forall x, rb_off buf <= x < rb_off b -> covered l x) /\ apart b l /\
      (tmp' = tmp /\ rb_max_off b = rb_max_off buf \/
       exists t, tmp' = tmp ++ [t] /\ piece_of S t /\ fresh_buf t /\ rb_off t = rb_max_off b /\ rb_off t < rb_max_off t /\
         rb_max_off t = rb_max_off buf /\ Exists (fun e => rb_off e.2 = rb_off t) l)
  end.

Lemma kept_later e l buf buf' tmp res : rb_max_off buf' = rb_max_off buf -> rb_off buf <= rb_off buf' ->
  (forall x, rb_off buf <= x < rb_off buf' -> rb_off e.2 <= x < rb_max_off e.2) -> rb_max_off e.2 <= rb_off buf' ->
  kept_ok l buf' tmp res -> kept_ok (e :: l) buf tmp res.
Proof.
  intros Em Ho Hc He. destruct res as [[b|] tmp']; simpl.
  - intros (? & ? & ? & Hx & Ha & Ht). split_and!; try done; try lia.
    + intros x ?. destruct (decide (x < rb_off buf')); [left; apply Hc; lia|right; apply Hx; lia].
    + constructor; [left; lia|done].
    + destruct Ht as [[-> Et]|(t & -> & ? & ? & ? & ? & ? & ?)]; [left; split; [done|lia]|]. right. exists t. split_and!; try done; [lia|]. by right.
  - intros (-> & Hx & He2). split_and!; [done| |right; by rewrite <- Em].
    intros x ?. destruct (decide (x < rb_off buf')); [left; apply Hc; lia|right; apply Hx; lia].
Qed.

Lemma overlaps_ok l p lo buf tmp : stored S p lo l -> Forall (fun e => rb_off buf <= e.1) l -> piece_of S buf -> fresh_buf buf ->
  rb_off buf < rb_max_off buf -> exists res, overlaps l buf tmp = Ok res /\ kept_ok l buf tmp res.
Proof.
  revert p lo buf. induction l as [|[k b] l IH]; intros p lo buf Hs Hk Hp Hf Hn; simpl.
  - eexists. split; [done|]. split_and!; try done; try (intros; lia); [constructor|by left].
  - pose proof Hs as (Hb & -> & ? & ? & Hne & Hl). apply Forall_cons_iff in Hk as [Hk1 Hk]. simpl in Hk1.
    pose proof (stored_offs _ _ _ Hl) as Ho. destruct (rb_max_off buf <? rb_off b) eqn:E1.
    { eexists. split; [done|]. split_and!; try done; try (intros; lia); [|by left]. constructor; [right; simpl; lia|].
      eapply Forall_impl; [|exact Ho]. simpl. lia. }
    destruct (rb_off b <=? rb_off buf) eqn:E2; simpl.
    + destruct (rb_max_off buf <=? rb_max_off b) eqn:E3.
      { eexists. split; [done|]. split_and!; [done| |left; simpl; lia]. intros. left. simpl. lia. }
      destruct (rb_off buf <? rb_max_off b) eqn:E4; simpl.
      * destruct (split_off_ok S (rb_max_off b - rb_off buf) buf) as (h & t & -> & _ & Pt & _ & Ft & _ & _ & Ot & Mt & _); [done|done|unfold rb_max_off in *; lia|].
        simpl. rewrite (proj2 (Z.ltb_ge (rb_off buf) (rb_off b))) by lia. simpl.
        destruct (IH _ _ t Hl) as (res & -> & Hr); [|done|done|lia|].
        { eapply Forall_impl; [|exact Ho]. simpl. lia. }
        exists res. split; [done|]. eapply kept_later; [exact Mt| | | |exact Hr]; simpl; lia.
      * rewrite (proj2 (Z.ltb_ge (rb_off buf) (rb_off b))) by lia. simpl. destruct (IH _ _ buf Hl) as (res & -> & Hr); try done.
        exists res. split; [done|]. eapply kept_later; [done| | | |exact Hr]; simpl; lia.
    + rewrite (proj2 (Z.ltb_lt (rb_off buf) (rb_off b))) by lia. simpl. destruct (rb_off b <? rb_max_off buf) eqn:E3; simpl.
      * destruct (split_off_ok S (rb_off b - rb_off buf) buf) as (h & t & -> & Ph & Pt & Fh & Ft & Oh & Mh & Ot & Mt & _); [done|done|unfold rb_max_off in *; lia|].
        simpl. assert (overlaps l h (tmp ++ [t]) = Ok (Some h, tmp ++ [t])) as ->.
        { destruct Hne as [?|(_ & ? & ->)]; [|done]. eapply overlaps_gap; [exact Hl|lia]. }
        eexists. split; [done|]. split_and!; try done; try lia; try (intros; lia).
        -- constructor; [right; simpl; lia|]. eapply Forall_impl; [|exact Ho]. simpl. lia.
        -- right. exists t. split_and!; try done; try lia. left. simpl. lia.
      * assert (overlaps l buf tmp = Ok (Some buf, tmp)) as ->.
        { destruct Hne as [?|(_ & ? & ->)]; [|done]. eapply overlaps_gap; [exact Hl|lia]. }
        eexists. split; [done|]. split_and!; try done; try (intros; lia); [|by left].
        constructor; [right; simpl; lia|]. eapply Forall_impl; [|exact Ho]. simpl. lia.
Qed.

(** A piece that is apart from the stored ones is put in its place. *)
Lemma map_insert_ok l p lo b : stored S p lo l -> piece_of S b -> apart b l -> lo <= rb_off b -> p < rb_max_off b ->
  rb_off b < rb_max_off b \/ rb_off b = rb_max_off b /\ rb_max_off b = zlen S /\ Forall (fun e => e.1 < rb_max_off b) l ->
  stored S p lo (map_insert (rb_max_off b) b l) /\
  (forall x, covered (map_insert (rb_max_off b) b l) x <-> covered l x \/ rb_off b <= x < rb_max_off b).
Proof.
  intros Hs Hb. revert p lo Hs. induction l as [|[k e] l IH]; intros p lo Hs Ha Hl Hp Hn; simpl.
  - split; [split_and!; try done; destruct Hn as [?|(? & ? & _)]; [by left|by right]|]. intros x. unfold covered. rewrite Exists_cons, !Exists_nil. simpl. tauto.
  - pose proof Hs as (He & -> & ? & ? & Hne & Ht). apply Forall_cons_iff in Ha as [Ha1 Ha]. simpl in Ha1.
    pose proof (stored_offs _ _ _ Ht) as Ho. pose proof (rb_off_nonneg e (proj1 He)) as [? ?].
    assert (rb_off b < rb_max_off b \/ rb_off b = rb_max_off b /\ rb_max_off b = zlen S /\ rb_max_off e < rb_max_off b /\ Forall (fun e => e.1 < rb_max_off b) l) as Hn'.
    { destruct Hn as [?|(? & ? & [? ?]%Forall_cons_iff)]; [by left|by right]. }
    destruct (rb_max_off b <? rb_max_off e) eqn:E1; [|destruct (rb_max_off b =? rb_max_off e) eqn:E2].
    + split.
      * assert (rb_off b < rb_max_off b) by (destruct Hn' as [?|(? & ? & ? & _)]; lia). split_and!; try done; try lia. split_and!; try done; lia.
      * intros x. unfold covered. rewrite !Exists_cons. simpl. tauto.
    + assert (rb_off e = rb_max_off e) by lia. destruct Hne as [?|(_ & ? & ->)]; [lia|]. split; [split_and!; try done; lia|].
      intros x. unfold covered. rewrite !Exists_cons, !Exists_nil. simpl. lia.
    + destruct (IH (rb_max_off e) (rb_max_off e)) as [Hi Hc]; try done; try lia.
      { destruct Hn' as [?|(? & ? & ? & ?)]; [by left|by right]. }
      split.
      * split_and!; try done. left. destruct Hb as (_ & ? & _). destruct Hne as [?|(? & ? & _)]; lia.
      * intros x. unfold covered in *. rewrite !Exists_cons, Hc. simpl. tauto.
Qed.
End Store.

(** ** Writing *)

(** The state while no reset was received. *)
Record recv_inv (S : bytes) (r : RecvBuf) : Prop := mkRecvInv {
  ri_stored : stored S (rv_off r - 1) (rv_off r) (rv_data r);
  ri_off : 0 <= rv_off r <= rv_len r;
  ri_len : rv_len r <= zlen S;
  ri_keys : Forall (fun e => e.1 <= rv_len r) (rv_data r);
  ri_fin : forall f, rv_fin_off r = Some f -> f = zlen S;
  ri_drain : rv_drain r = true -> rv_data r = [] /\ rv_off r = rv_len r
}.

Definition later (a : Z) (l : list (Z * RangeBuf)) : nat := length (List.filter (fun e => a <? rb_off e.2) l).
Lemma later_insert a k b l : rb_off b <= a -> (later a (map_insert k b l) <= later a l)%nat.
Proof.
  intros H. unfold later. induction l as [|[k' e] l IH]; simpl; [by rewrite (proj2 (Z.ltb_ge _ _))|].
  repeat case_match; simpl in *; repeat case_match; simpl in *; lia.
Qed.
Lemma later_lt a c l : a < c -> Exists (fun e => rb_off e.2 = c) l -> (later c l < later a l)%nat.
Proof.
  intros H He. unfold later. induction He as [e l Ee|e l He IH]; simpl.
  - rewrite (proj2 (Z.ltb_lt a _)), (proj2 (Z.ltb_ge c _)) by lia. simpl. clear - H.
    induction l as [|x l IH]; simpl; [lia|]. repeat case_match; simpl in *; lia.
  - repeat case_match; simpl in *; lia.
Qed.
Lemma keys_insert k b l n : Forall (fun e : Z * RangeBuf => e.1 <= n) l -> k <= n -> Forall (fun e => e.1 <= n) (map_insert k b l).
Proof.
  intros H ?. induction H as [|[k' e] l ? H IH]; simpl; [by repeat constructor|]. repeat case_match; repeat constructor; done.
Qed.

(** What is left of a write when nothing but the store and the length change. *)
Definition same_but_data (r r' : RecvBuf) : Prop :=
  rv_off r' = rv_off r /\ rv_flow r' = rv_flow r /\ rv_fin_off r' = rv_fin_off r /\ rv_error r' = rv_error r /\ rv_drain r' = rv_drain r.
Lemma stored_filter S a p lo l : stored S p lo l -> stored S p lo (List.filter (fun e => a <=? e.1) l).
Proof.
  revert p lo. induction l as [|[k b] l IH]; intros p lo; simpl; [done|]. intros (? & -> & ? & ? & Hn & Ht). destruct (a <=? _); simpl.
  - split_and!; try done; [|by apply IH]. destruct Hn as [?|(? & ? & ->)]; [by left|by right].
  - eapply stored_weaken; [| |by apply IH]; unfold rb_max_off in *; lia.
Qed.
Lemma covered_filter a l x : covered (List.filter (fun e : Z * RangeBuf => a <=? e.1) l) x -> covered l x.
Proof.
  unfold covered. rewrite !Exists_exists. intros (e & [He _]%filter_In & ?). by exists e.
Qed.
Lemma apart_filter S p lo a b l : stored S p lo l -> a <= rb_off b -> apart b (List.filter (fun e => a <=? e.1) l) -> apart b l.
Proof.
  intros Hs Hab Ha. apply stored_offs in Hs. unfold apart in *. rewrite Forall_forall in *. intros e He. destruct (Hs e He) as (? & ? & ? & ?).
  destruct (decide (a <= e.1)); [|left; lia]. apply Ha, filter_In. split; [done|lia].
Qed.

(** The overlap with the store, also when the loop is skipped because the new
    piece lies behind all that came before. *)
Lemma overlap_pass S r buf : recv_inv S r -> piece_of S buf -> fresh_buf buf -> rb_off buf < rb_max_off buf -> rv_off r <= rb_off buf ->
  exists res, (if (rb_off buf <? rv_len r) || rb_is_empty buf then overlaps (List.filter (fun e => rb_off buf <=? e.1) (rv_data r)) buf []
               else Ok (Some buf, [])) = Ok res /\
    match res with
    | (None, tmp) => tmp = [] /\ (forall x, rb_off buf <= x < rb_max_off buf -> covered (rv_data r) x) /\ rb_max_off buf <= rv_len r
    | (Some b, tmp) =>
        piece_of S b /\ fresh_buf b /\ rb_off buf <= rb_off b < rb_max_off b /\
        (forall x, rb_off buf <= x < rb_off b -> covered (rv_data r) x) /\ apart b (rv_data r) /\
        (tmp = [] /\ rb_max_off b = rb_max_off buf \/
         exists t, tmp = [t] /\ piece_of S t /\ fresh_buf t /\ rb_off t = rb_max_off b /\ rb_off t < rb_max_off t /\
           rb_max_off t = rb_max_off buf /\ Exists (fun e => rb_off e.2 = rb_off t) (rv_data r))
    end.
Proof.
  intros [Hs Ho Hl Hk _ _] Hp Hf Hn Hr. destruct ((rb_off buf <? rv_len r) || rb_is_empty buf) eqn:E.
  - destruct (overlaps_ok S _ _ _ buf [] (stored_filter S (rb_off buf) _ _ _ Hs)) as (res & -> & Hres); try done.
    { apply Forall_forall. intros e [_ ?]%filter_In. lia. }
    exists res. split; [done|]. destruct res as [[b|] tmp]; simpl in Hres.
    + destruct Hres as (? & ? & ? & Hx & Ha & Ht). split_and!; try done; try lia.
      * intros x Hi. eapply covered_filter, Hx, Hi.
      * eapply apart_filter; [exact Hs| |exact Ha]. lia.
      * destruct Ht as [?|(t & ? & ? & ? & ? & ? & ? & He)]; [by left|right]. exists t. split_and!; try done.
        apply Exists_exists in He as (e & [? _]%filter_In & ?). apply Exists_exists. by exists e.
    + destruct Hres as (-> & Hx & He). split_and!; [done|intros x Hi; eapply covered_filter, Hx, Hi|].
      apply Exists_exists in He as (e & [Hi _]%filter_In & ?). rewrite Forall_forall in Hk. specialize (Hk e Hi). lia.
  - eexists. split; [done|]. simpl. split_and!; try done; try (intros; lia); [|by left].
    apply stored_offs in Hs. eapply Forall_impl; [|apply (Forall_and Hs Hk)]. simpl. lia.
Qed.

Lemma insert_inv S r b : recv_inv S r -> rv_drain r = false -> piece_of S b -> apart b (rv_data r) -> rv_off r <= rb_off b -> rb_off b < rb_max_off b ->
  let r' := mkRecv (map_insert (rb_max_off b) b (rv_data r)) (rv_off r) (Z.max (rv_len r) (rb_max_off b)) (rv_flow r) (rv_fin_off r) (rv_error r) (rv_drain r) in
  recv_inv S r' /\ forall x, covered (rv_data r') x <-> covered (rv_data r) x \/ rb_off b <= x < rb_max_off b.
Proof.
  intros [Hs Ho Hl Hk Hf _] Hd Hp Ha Hr Hn. destruct (map_insert_ok S _ _ _ b Hs Hp Ha) as [Hi Hc]; try lia.
  split; [|done]. split; simpl; try done; try lia.
  - destruct Hp as (_ & ? & _). lia.
  - apply keys_insert; [|lia]. eapply Forall_impl; [|exact Hk]. simpl. lia.
Qed.

Lemma write_parts_ok S fuel r buf : recv_inv S r -> rv_drain r = false -> piece_of S buf -> fresh_buf buf -> rb_off buf < rb_max_off buf ->
  rv_off r <= rb_off buf -> (later (rb_off buf) (rv_data r) < fuel)%nat ->
  exists r', write_parts fuel r [buf] = Ok r' /\ recv_inv S r' /\ same_but_data r r' /\ rv_len r' = Z.max (rv_len r) (rb_max_off buf) /\
    forall x, covered (rv_data r') x <-> covered (rv_data r) x \/ rb_off buf <= x < rb_max_off buf.
Proof.
  revert r buf. induction fuel as [|fuel IH]; intros r buf Hi Hd Hp Hf Hn Hr Hfuel; [lia|]. cbn [write_parts].
  rewrite (proj2 (Z.ltb_ge (rb_off buf) (rv_off r))) by done. cbn [obind].
  destruct (overlap_pass S r buf) as (res & -> & Hres); try done. cbn [obind]. destruct res as [[b|] tmp].
  - destruct Hres as (Pb & Fb & ? & Hx & Ha & Ht). destruct (insert_inv S r b) as [Hi' Hc']; try done; try lia. rewrite Hd. cbn [negb].
    rewrite Hd in Hi', Hc'. cbn [rv_data] in Hc'.
    destruct Ht as [[-> Em]|(t & -> & Pt & Ft & Et & Nt & Mt & He)].
    + eexists. split; [by destruct fuel|]. cbn [rv_data rv_len]. rewrite Em in *. split_and!; try done.
      intros x. rewrite Hc'. split; [intros [?|?]; [by left|right; lia]|]. intros [?|?]; [by left|].
      destruct (decide (x < rb_off b)); [left; apply Hx; lia|right; lia].
    + match goal with |- context [write_parts fuel ?q [t]] => destruct (IH q t) as (r' & -> & I' & Sm & L' & C') end; try done; simpl; try lia.
      { pose proof (later_insert (rb_off t) (rb_max_off b) b (rv_data r) ltac:(lia)). pose proof (later_lt (rb_off buf) (rb_off t) (rv_data r) ltac:(lia) He). lia. }
      exists r'. destruct Sm as (? & ? & ? & ? & ?). simpl in *. split; [done|]. split; [done|]. split; [split_and!; congruence|].
      split; [lia|]. intros x. rewrite C', Hc'.
      split; [intros [[?|?]|?]; [by left|right; lia..]|]. intros [?|?]; [by left; left|].
      destruct (decide (x < rb_off b)); [left; left; apply Hx; lia|]. destruct (decide (x < rb_max_off b)); [left; right; lia|right; lia].
  - destruct Hres as (-> & Hx & ?). exists r. split; [by destruct fuel|]. split_and!; try done; [lia|]. intros x.
    split; [by left|]. intros [?|?]; [done|by apply Hx].
Qed.

(** The mark of the end of a stream: a piece without bytes. *)
Lemma write_end_ok S fuel r : recv_inv S r -> rv_drain r = false ->
  exists r', write_parts (Datatypes.S fuel) r [rb_from [] (zlen S) true] = Ok r' /\ recv_inv S r' /\ same_but_data r r' /\ rv_len r' = zlen S /\
    forall x, covered (rv_data r') x <-> covered (rv_data r) x.
Proof.
  intros Hi Hd. pose proof Hi as [Hs Ho Hl Hk Hf _]. cbn [write_parts]. set (b := rb_from [] (zlen S) true).
  assert (rb_off b = zlen S /\ rb_max_off b = zlen S /\ rb_is_empty b = true) as (Eo & Em & Ee).
  { unfold b, rb_max_off, rb_off, rb_len, rb_is_empty, rb_len. change (rb_len_ (rb_from [] (zlen S) true)) with 0. cbn [rb_from rb_off_ rb_start rb_pos]. split_and!; done || lia. }
  assert (piece_of S b) as Hp.
  { apply piece_from; rewrite ?zlen_nil, ?Z.add_0_r, ?slice_nil; try done; pose proof (zlen_nonneg S); lia. }
  rewrite Eo, (proj2 (Z.ltb_ge (zlen S) (rv_off r))) by lia. cbn [obind]. rewrite Ee, orb_true_r, Eo.
  assert (Forall (fun e => e.1 = rb_max_off e.2 /\ rb_off e.2 <= e.1 /\ e.1 <= zlen S) (rv_data r)) as Ho'.
  { pose proof (stored_offs S _ _ _ Hs) as Hso. eapply Forall_impl; [|apply (Forall_and Hso Hk)]. simpl. lia. }
  destruct (List.filter (fun e => zlen S <=? e.1) (rv_data r)) as [|[k e] rest] eqn:E.
  - simpl. rewrite Hd, Em. cbn [negb]. eexists. split; [by destruct fuel|]. rewrite Z.max_r by lia.
    assert (Forall (fun e => e.1 < zlen S) (rv_data r)) as Hlt.
    { rewrite Forall_forall in *. intros e He. destruct (decide (zlen S <= e.1)); [|lia].
      assert (In e []) as []. rewrite <- E. apply filter_In. split; [done|lia]. }
    destruct (map_insert_ok S _ _ _ b Hs Hp) as [Hi' Hc].
    { eapply Forall_impl; [|apply (Forall_and Hlt Ho')]. simpl. lia. }
    { lia. } { lia. } { right. rewrite Em. done. }
    rewrite Em in *. simpl. split_and!; try done.
    + split; simpl; try done; try lia. apply keys_insert; [|lia]. eapply Forall_impl; [|exact Hlt]. simpl. lia.
    + intros x. rewrite Hc, Eo. split; [intros [?|?]; [done|lia]|by left].
  - assert (In (k, e) (rv_data r)) as Hin by (apply (filter_In (fun e => zlen S <=? e.1)); rewrite E; by left).
    assert (zlen S <= k) as Hge by (assert (In (k, e) (rv_data r) /\ (zlen S <=? k) = true) as [_ ?] by (apply (filter_In (fun e => zlen S <=? e.1)); rewrite E; by left); lia).
    rewrite Forall_forall in Ho'. destruct (Ho' _ Hin) as (? & ? & ?). simpl in *.
    rewrite Eo, Em, (proj2 (Z.ltb_ge (zlen S) (rb_off e))), (proj2 (Z.leb_le (rb_off e) _)), (proj2 (Z.leb_le (zlen S) (rb_max_off e))) by lia.
    cbn [andb obind]. exists r. split; [by destruct fuel|]. split_and!; try done. rewrite Forall_forall in Hk. specialize (Hk _ Hin). simpl in Hk. lia.
Qed.

(** A frame of the stream [S]: some of its bytes, and whether it says that they
    are the last. *)
Definition frame_of (S : bytes) (off : Z) (data : bytes) (fin : bool) : Prop :=
  0 <= off /\ off + zlen data <= zlen S /\ data = slice S off (off + zlen data) /\ (fin = true -> off + zlen data = zlen S).
Definition fin_known (r : RecvBuf) : Prop := forall f, rv_fin_off r = Some f -> rv_len r = f.

Lemma from_fields data off fin : let b := rb_from data off fin in
  rb_off b = off /\ rb_max_off b = off + zlen data /\ rb_is_empty b = (zlen data =? 0) /\ rb_fin b = fin /\ fresh_buf b.
Proof. unfold rb_max_off, rb_off, rb_is_empty, rb_len. simpl. split_and!; try done; [lia|lia|f_equal; lia]. Qed.
Lemma with_fin_inv S f r : recv_inv S r -> f = zlen S -> recv_inv S (with_fin (Some f) r).
Proof. intros [] ->. split; simpl; try done. by intros ? [= <-]. Qed.

(** A piece that starts below the read offset is written without that part. *)
Lemma write_any_ok S r buf : recv_inv S r -> rv_drain r = false -> piece_of S buf -> fresh_buf buf -> rb_off buf < rb_max_off buf -> rv_off r < rb_max_off buf ->
  exists r', write_parts (Datatypes.S (Datatypes.S (length (rv_data r)))) r [buf] = Ok r' /\ recv_inv S r' /\ same_but_data r r' /\
    rv_len r' = Z.max (rv_len r) (rb_max_off buf) /\
    forall x, rv_off r <= x -> covered (rv_data r') x <-> covered (rv_data r) x \/ rb_off buf <= x < rb_max_off buf.
Proof.
  intros Hi Hd Hp Hf Hn Hr. set (fuel := Datatypes.S (length (rv_data r))).
  assert (forall a, later a (rv_data r) < Datatypes.S fuel)%nat as Hlater.
  { intros a. unfold later, fuel. pose proof (filter_short (fun e => a <? rb_off e.2) (rv_data r)). unfold zlen in *. lia. }
  destruct (decide (rb_off buf < rv_off r)) as [Hlt|Hge].
  - destruct (split_off_ok S (rv_off r - rb_off buf) buf) as (h & t & E & _ & Pt & _ & Ft & _ & _ & Ot & Mt & _); [done|done|unfold rb_max_off in *; lia|].
    assert (write_parts (Datatypes.S fuel) r [buf] = write_parts (Datatypes.S fuel) r [t]) as ->.
    { cbn [write_parts]. rewrite (proj2 (Z.ltb_lt (rb_off buf) (rv_off r))), E by done. cbn [obind].
      rewrite (proj2 (Z.ltb_ge (rb_off t) (rv_off r))) by lia. done. }
    destruct (write_parts_ok S (Datatypes.S fuel) r t) as (r' & E' & ? & ? & HL & Hc); try done; try lia. exists r'.
    split_and!; try done; [lia|]. intros x ?. rewrite Hc, Ot, Mt. split; (intros [?|?]; [by left|right; lia]).
  - destruct (write_parts_ok S (Datatypes.S fuel) r buf) as (r' & E' & ? & ? & HL & Hc); try done; try lia. exists r'. split_and!; try done. 
Qed.

(** The rest of a write, when the frame fits what is known of the stream's end. *)
Lemma write_rest_ok S r off data fin : recv_inv S r -> rv_drain r = false -> frame_of S off data fin ->
  exists r', (if negb fin && (zlen data =? 0) then Ok r else if (off + zlen data <=? rv_off r) && negb (zlen data =? 0) then Ok r
              else write_parts (Datatypes.S (Datatypes.S (length (rv_data r)))) r [rb_from data off fin]) = Ok r' /\
    recv_inv S r' /\ same_but_data r r' /\ rv_len r <= rv_len r' <= Z.max (rv_len r) (off + zlen data) /\ (fin = true -> rv_len r' = zlen S) /\
    forall x, rv_off r <= x -> covered (rv_data r') x <-> covered (rv_data r) x \/ off <= x < off + zlen data.
Proof.
  intros Hi Hd (Ho & He & Hdata & Hfin). pose proof Hi as [_ Hro Hl _ _ _]. pose proof (zlen_nonneg data).
  pose proof (piece_from S data off fin Ho Hdata He) as Hp. destruct (from_fields data off fin) as (Eo & Em & Ee & Ef & Hfr).
  assert (forall x, rv_off r <= x -> off + zlen data <= rv_off r \/ zlen data = 0 -> covered (rv_data r) x <-> covered (rv_data r) x \/ off <= x < off + zlen data) as Hnone.
  { intros x ? ?. split; [by left|]. intros [?|?]; [done|lia]. }
  destruct (negb fin && _) eqn:E2.
  { exists r. split; [done|]. split; [done|]. split; [done|]. split; [lia|]. split; [by destruct fin|]. intros x ?. apply Hnone; [done|lia]. }
  destruct ((off + zlen data <=? rv_off r) && _) eqn:E3.
  { exists r. split; [done|]. split; [done|]. split; [done|]. split; [lia|]. split; [intros Hx; specialize (Hfin Hx); lia|]. intros x ?. apply Hnone; [done|lia]. }
  destruct (decide (zlen data = 0)) as [Hz|Hz].
  - destruct fin; [|rewrite Hz in E2; done]. assert (off = zlen S) as -> by (specialize (Hfin eq_refl); lia).
    assert (data = []) as -> by (destruct data; [done|rewrite zlen_cons in Hz; pose proof (zlen_nonneg data); lia]).
    destruct (write_end_ok S (Datatypes.S (length (rv_data r))) r Hi Hd) as (r' & -> & I' & Sm & L' & C').
    exists r'. split; [done|]. split; [done|]. split; [done|]. split; [lia|]. split; [done|].
    intros x ?. rewrite C'. apply Hnone; [done|lia].
  - destruct (write_any_ok S r (rb_from data off fin)) as (r' & -> & I' & Sm & L' & C'); try done; try lia.
    exists r'. split; [done|]. split; [done|]. split; [done|]. split; [lia|]. split; [intros Hx; specialize (Hfin Hx); lia|].
    intros x ?. rewrite C', Eo, Em; [done|lia].
Qed.

(** A frame of the stream is accepted, and what it brings above the read offset
    is in store from then on. *)
Lemma recv_write_ok S r off data fin : recv_inv S r -> fin_known r -> rv_drain r = false -> frame_of S off data fin ->
  off + zlen data <= fc_max_data (rv_flow r) ->
  exists r', recv_write r (rb_from data off fin) = Ok r' /\ recv_inv S r' /\ fin_known r' /\
    rv_off r' = rv_off r /\ rv_flow r' = rv_flow r /\ rv_error r' = rv_error r /\ rv_drain r' = false /\
    rv_fin_off r' = (if fin then Some (zlen S) else rv_fin_off r) /\ rv_len r' <= Z.max (rv_len r) (off + zlen data) /\
    forall x, rv_off r <= x -> covered (rv_data r') x <-> covered (rv_data r) x \/ off <= x < off + zlen data.
Proof.
  intros Hi Hk Hd Hfr Hmax. pose proof Hfr as (Ho & He & Hdata & Hfin). pose proof Hi as [Hs Hro Hl _ Hf _].
  destruct (from_fields data off fin) as (Eo & Em & Ee & Ef & _). unfold recv_write.
  rewrite Em, Ee, Ef, (proj2 (Z.ltb_ge (fc_max_data (rv_flow r)) _)) by done.
  replace (match rv_fin_off r with Some _ => _ | None => _ end) with false.
  2: { destruct (rv_fin_off r) as [f|] eqn:Er; [|done]. rewrite (Hf f eq_refl). destruct fin; [rewrite (Hfin eq_refl)|]; lia. }
  replace (fin && (off + zlen data <? rv_len r)) with false by (destruct fin; [rewrite (Hfin eq_refl)|]; lia).
  destruct (bool_decide (is_Some (rv_fin_off r)) && (zlen data =? 0)) eqn:E1.
  { apply andb_true_iff in E1 as [[f Er]%bool_decide_eq_true E1]. exists r. split_and!; try done; try lia.
    - destruct fin; [|done]. rewrite Er. f_equal. by apply Hf.
    - intros x ?. split; [by left|]. intros [?|?]; [done|lia]. }
  set (r1 := if fin then with_fin (Some (off + zlen data)) r else r).
  assert (recv_inv S r1 /\ rv_off r1 = rv_off r /\ rv_flow r1 = rv_flow r /\ rv_error r1 = rv_error r /\ rv_drain r1 = false /\ rv_data r1 = rv_data r /\
    rv_len r1 = rv_len r /\ rv_fin_off r1 = (if fin then Some (zlen S) else rv_fin_off r)) as (I1 & O1 & F1 & R1 & D1 & A1 & L1 & N1).
  { unfold r1. destruct fin; [|done]. rewrite (Hfin eq_refl). split; [by apply with_fin_inv|done]. }
  destruct (write_rest_ok S r1 off data fin I1 D1 Hfr) as (r' & -> & I' & (S1 & S2 & S3 & S4 & S5) & L' & LF & C').
  exists r'. rewrite S1, S2, S3, S4, S5. split; [done|]. split; [done|]. split.
  { intros f. rewrite S3, N1. destruct fin; [intros [= <-]; auto|]. intros Hx. specialize (Hk f Hx). specialize (Hf f Hx). destruct I' as [_ _ ? _ _ _]. lia. }
  rewrite A1, O1, L1 in *. split_and!; try done. lia.
Qed.

(** ** Reading *)

Lemma take_ready_ok S data off cap : 0 <= off -> stored S (off - 1) off data -> 0 <= cap ->
  let '(data', off', out) := take_ready data off cap in
  out = slice S off off' /\ stored S (off' - 1) off' data' /\
  (forall e, In e data' -> exists e0, In e0 data /\ e0.1 = e.1) /\
  (forall x, off' <= x -> covered data' x <-> covered data x) /\
  (off' - off = cap \/ match data' with [] => True | (_, b) :: _ => rb_off b <> off' end) /\
  off <= off' <= off + cap /\ (off' = off \/ exists e, In e data /\ off' <= e.1).
Proof.
  intros H0 Hs Hc. revert off cap H0 Hs Hc. induction data as [|[k b] data IH]; intros off cap H0 Hs Hc; cbn [take_ready].
  - rewrite slice_nil. split_and!; try done; try lia.
  - destruct (_ && _) eqn:E.
    2: { assert (off - off = cap \/ rb_off b <> off) by lia. rewrite slice_nil. split_and!; try done; try lia. eauto. }
    pose proof Hs as (Hp & -> & ? & ? & Hne & Ht). pose proof (rb_off_nonneg b (proj1 Hp)) as [_ ?].
    destruct (consume_ok S (Z.min (rb_len b) cap) b Hp ltac:(lia)) as (Pc & Oc & Mc & Et). assert (rb_off b = off) as Eoff by lia.
    assert (rb_max_off b = off + rb_len b) as Emax by (unfold rb_max_off; lia).
    destruct (Z.min (rb_len b) cap <? rb_len b) eqn:E2.
    + assert (Z.min (rb_len b) cap = cap) as Emin by lia. rewrite Emin in *. rewrite Et, Eoff. split; [done|]. split; [split_and!; try done; lia|]. split_and!; try lia.
      * intros e [<-|?]; [exists (rb_max_off b, b); split; [by left|done]|]. exists e. split; [by right|done].
      * intros x ?. unfold covered. rewrite !Exists_cons. simpl. rewrite Oc, Mc, Eoff. intuition lia.
      * right. exists (rb_max_off b, b). split; [by left|]. simpl. lia.
    + assert (Z.min (rb_len b) cap = rb_len b) as Emin by lia. rewrite Emin in *. rewrite Et, Eoff. specialize (IH (off + rb_len b) (cap - rb_len b)).
      destruct (take_ready data (off + rb_len b) (cap - rb_len b)) as [[data' off'] out].
      destruct IH as (-> & Hs' & Hk' & Hc' & Hr & ? & He); [lia|eapply stored_weaken; [| |exact Ht]; lia|lia|].
      rewrite slice_app by lia. split; [done|]. split; [done|]. split_and!; try lia.
      * intros e Hin. destruct (Hk' e Hin) as (e0 & ? & ?). exists e0. split; [by right|done].
      * intros x ?. unfold covered in *. rewrite Exists_cons, Hc' by lia. simpl. intuition lia.
      * destruct Hr; [left; lia|by right].
      * right. destruct He as [->|(e & ? & ?)]; [exists (rb_max_off b, b); split; [by left|simpl; lia]|]. exists e. split; [by right|done].
Qed.

(** A byte that is in store at the read offset can be read. *)
Lemma covered_ready S p off l : stored S p off l -> covered l off -> match l with [] => False | (_, b) :: _ => rb_off b = off end.
Proof.
  intros Hs Hc. destruct l as [|[k b] l]; [by apply Exists_nil in Hc|]. pose proof Hs as (Hp & -> & ? & ? & Hne & Ht).
  apply Exists_cons in Hc as [?|Hc]; [simpl in *; lia|]. apply Exists_exists in Hc as (e & He & ?).
  apply stored_offs in Ht. rewrite Forall_forall in Ht. destruct (Ht e He) as (? & ? & ? & ?). pose proof (rb_off_nonneg b (proj1 Hp)). unfold rb_max_off in *. lia.
Qed.

(** ** Histories *)

(** What happens to a stream that is not reset: a frame, a read into a buffer
    of [cap] bytes, the announcement of a new limit where one is due, the
    tuning of the window. *)
Inductive recv_event : Type := Frame (off : Z) (data : bytes) (fin : bool) | Read (cap : Z) | Grant (now : Z) | Tune (now rtt : Z).
(** The buffer, what was read, and whether a read said it was the end. *)
Record RecvRun : Type := mkRun { rr_buf : RecvBuf; rr_out : bytes; rr_fin : bool }.
Definition recv_step (q : RecvRun) (ev : recv_event) : q_result RecvRun :=
  match ev with
  | Frame off data fin => let! r := recv_write (rr_buf q) (rb_from data off fin) in Ok (mkRun r (rr_out q) (rr_fin q))
  | Read cap =>
      match emit_or_discard cap (rr_buf q) with
      | (Ok (out, fin), r) => Ok (mkRun r (rr_out q ++ out) (rr_fin q || fin))
      | (Err EDone, r) => Ok (mkRun r (rr_out q) (rr_fin q))
      | (Err e, _) => Err e
      | (Panic, _) => Panic
      | (OutOfFuel, _) => OutOfFuel
      end
  | Grant now => Ok (mkRun (if almost_full (rr_buf q) then recv_update_max_data now (rr_buf q) else rr_buf q) (rr_out q) (rr_fin q))
  | Tune now rtt => Ok (mkRun (recv_autotune_window now rtt (rr_buf q)) (rr_out q) (rr_fin q))
  end.
Fixpoint recv_run (q : RecvRun) (evs : list recv_event) : q_result RecvRun :=
  match evs with [] => Ok q | ev :: evs => let! q := recv_step q ev in recv_run q evs end.

Definition ev_ok (S : bytes) (limit : Z) (ev : recv_event) : Prop :=
  match ev with Frame off data fin => frame_of S off data fin /\ off + zlen data <= limit | Read cap => 0 <= cap | _ => True end.
Definition brings (x : Z) (ev : recv_event) : Prop := match ev with Frame off data _ => off <= x < off + zlen data | _ => False end.
Definition ends (ev : recv_event) : Prop := match ev with Frame _ _ fin => fin = true | _ => False end.

Record run_inv (S : bytes) (limit : Z) (q : RecvRun) (evs : list recv_event) : Prop := mkRunInv {
  rn_inv : recv_inv S (rr_buf q);
  rn_fin : fin_known (rr_buf q);
  rn_drain : rv_drain (rr_buf q) = false;
  rn_error : rv_error (rr_buf q) = None;
  rn_flow : fc_ok (rv_flow (rr_buf q)) /\ limit <= fc_max_data (rv_flow (rr_buf q)) /\ fc_consumed (rv_flow (rr_buf q)) = rv_off (rr_buf q) /\
            rv_len (rr_buf q) <= fc_max_data (rv_flow (rr_buf q));
  rn_out : rr_out q = slice S 0 (rv_off (rr_buf q));
  rn_end : rr_fin q = true -> rv_off (rr_buf q) = zlen S;
  rn_store : forall x, rv_off (rr_buf q) <= x -> covered (rv_data (rr_buf q)) x <-> Exists (brings x) evs;
  rn_known : rv_fin_off (rr_buf q) = Some (zlen S) <-> Exists ends evs
}.

Lemma read_ok S limit q evs cap : run_inv S limit q evs -> 0 <= cap ->
  exists q', recv_step q (Read cap) = Ok q' /\ run_inv S limit q' evs /\ rv_off (rr_buf q) <= rv_off (rr_buf q') /\
    rv_fin_off (rr_buf q') = rv_fin_off (rr_buf q) /\
    (rv_off (rr_buf q') = rv_off (rr_buf q) + cap \/ ~ covered (rv_data (rr_buf q')) (rv_off (rr_buf q'))).
Proof.
  intros [Hi Hf Hd He (Hw & Hlim & Hcons & Hlen) Ho Hend Hst Hkn] Hc. destruct q as [r out fin]. simpl in *. unfold emit_or_discard.
  destruct (recv_ready r) eqn:Er; simpl.
  2: { exists (mkRun r out fin). split; [done|]. split; [by split|]. simpl. split_and!; try done. right. intros Hx.
       apply (covered_ready S (rv_off r - 1)) in Hx; [|apply Hi]. unfold recv_ready in Er. destruct (rv_data r) as [|[k b] l]; [done|]. lia. }
  rewrite He. pose proof Hi as [Is Io Il Ik If Idr]. pose proof (take_ready_ok S (rv_data r) (rv_off r) cap ltac:(lia) Is Hc) as Ht.
  destruct (take_ready (rv_data r) (rv_off r) cap) as [[data off] got]. destruct Ht as (-> & Hs' & Hk' & Hc' & Hr & ? & Hm).
  rewrite Forall_forall in Ik. assert (off <= rv_len r) as Hoff.
  { destruct Hm as [->|(e & Hin & ?)]; [lia|]. specialize (Ik e Hin). lia. }
  eexists. split; [done|]. simpl. split; [|split_and!; try done; try lia].
  - split; simpl; try done; try lia.
    + split; simpl; try done; try lia. apply Forall_forall. intros e Hin. destruct (Hk' e Hin) as (e0 & Hin0 & <-). auto.
    + unfold fc_ok in *. simpl. rewrite zlen_slice by lia. split_and!; try done; lia.
    + rewrite Ho. apply slice_app; lia.
    + intros [Hx|Hx%bool_decide_eq_true]%orb_true_iff; [specialize (Hend Hx); lia|]. simpl in Hx. by apply If.
    + intros x Hx. rewrite Hc' by done. apply Hst. lia.
  - destruct Hr as [?|Hr]; [left; lia|right]. intros Hx. apply (covered_ready S (off - 1)) in Hx; [|done]. by destruct data as [|[k b] l].
Qed.

Lemma step_inv S limit q evs ev : run_inv S limit q evs -> ev_ok S limit ev ->
  exists q', recv_step q ev = Ok q' /\ run_inv S limit q' (evs ++ [ev]).
Proof.
  intros Hq Hev. assert (forall q' : RecvRun, run_inv S limit q' evs -> match ev with Frame _ _ _ => False | _ => True end -> run_inv S limit q' (evs ++ [ev])) as Hnone.
  { intros q' [] Hn. split; try done.
    - intros x Hx. rewrite rn_store0, Exists_app, Exists_cons, Exists_nil by done. destruct ev; simpl in *; tauto.
    - rewrite rn_known0, Exists_app, Exists_cons, Exists_nil. destruct ev; simpl in *; tauto. }
  destruct ev as [off data fin|cap|now|now rtt].
  - destruct Hq as [Hi Hf Hd He (Hw & Hlim & Hcons & Hlen) Ho Hend Hst Hkn]. destruct Hev as [Hfr ?]. simpl.
    destruct (recv_write_ok S (rr_buf q) off data fin) as (r' & -> & I' & K' & O' & F' & E' & D' & N' & L' & C'); try done; [lia|].
    eexists. split; [done|]. split; simpl; rewrite ?O', ?F', ?E'; try done.
    + split_and!; try done. lia.
    + intros x Hx. rewrite C', Hst, Exists_app, Exists_cons, Exists_nil by lia. simpl. tauto.
    + rewrite N', Exists_app, Exists_cons, Exists_nil, <- Hkn. simpl. destruct fin; intuition done.
  - destruct (read_ok S limit q evs cap Hq Hev) as (q' & E & Hq' & _). exists q'. split; [done|]. by apply Hnone.
  - eexists. split; [done|]. apply Hnone; [|done]. destruct Hq as [[] Hf Hd He (Hw & Hlim & Hcons & Hlen) Ho Hend Hst Hkn].
    destruct (almost_full (rr_buf q)) eqn:E; split; simpl; try done.
    apply andb_true_iff in E as [_ E]. destruct (announced_limit_grows _ now Hw E) as [? ?]. simpl in *. split_and!; try done; lia.
  - eexists. split; [done|]. apply Hnone; [|done]. destruct Hq as [[] Hf Hd He (Hw & Hlim & Hcons & Hlen) Ho Hend Hst Hkn].
    split; simpl; try done. destruct (window_grows _ (autotune_window now rtt (rv_flow (rr_buf q))) Hw) as (? & ? & Hm); [eauto|].
    rewrite Hm. split_and!; try done. unfold autotune_window. by repeat case_match.
Qed.

Lemma run_inv_all S limit evs q done_ : run_inv S limit q done_ -> Forall (ev_ok S limit) evs ->
  exists q', recv_run q evs = Ok q' /\ run_inv S limit q' (done_ ++ evs).
Proof.
  intros Hq H. revert q done_ Hq. induction H as [|ev evs Hev _ IH]; intros q done_ Hq; [exists q; by rewrite app_nil_r|].
  destruct (step_inv S limit q done_ ev Hq Hev) as (q1 & E & Hq1). destruct (IH q1 _ Hq1) as (q2 & E2 & Hq2).
  exists q2. simpl. rewrite E. split; [done|]. by rewrite <- app_assoc in Hq2.
Qed.

Definition recv_start (max_data window max_window : Z) : RecvRun := mkRun (recv_new max_data window max_window) [] false.
Lemma start_run_inv S max_data window max_window : 0 <= max_data -> 0 <= window -> 0 <= max_window ->
  run_inv S max_data (recv_start max_data window max_window) [].
Proof.
  intros. pose proof (zlen_nonneg S). split; simpl; try done.
  - unfold fc_ok. simpl. lia.
  - intros x _. unfold covered. by rewrite !Exists_nil.
  - by rewrite Exists_nil.
Qed.

(** What was read is the beginning of the stream. *)
Lemma run_inv_prefix S limit q evs : run_inv S limit q evs ->
  rr_out q = ztake (rv_off (rr_buf q)) S /\ zlen (rr_out q) = rv_off (rr_buf q) /\ (rv_off (rr_buf q) = zlen S -> rr_out q = S).
Proof.
  intros [[] ? ? ? ? Ho ? ? ?]. rewrite Ho. rewrite zlen_slice by lia. split_and!; [done|lia|]. intros ->. rewrite slice_0. by apply ztake_all.
Qed.
(** A read into a large enough buffer completes what has arrived. *)
Lemma run_inv_complete S limit q evs n cap : run_inv S limit q evs -> (forall x, 0 <= x < n -> Exists (brings x) evs) -> zlen S < cap ->
  exists q', recv_step q (Read cap) = Ok q' /\ n <= rv_off (rr_buf q') /\ run_inv S limit q' evs.
Proof.
  intros Hq Hn Hcap. pose proof (zlen_nonneg S). destruct (read_ok S limit q evs cap Hq ltac:(lia)) as (q' & E' & Hq' & Hle & Hfo & Hr).
  exists q'. pose proof (rn_inv _ _ _ _ Hq') as [_ Io Il _ _ _]. pose proof (rn_inv _ _ _ _ Hq) as [_ Io' _ _ _ _]. split; [done|]. split; [|done].
  destruct (decide (n <= rv_off (rr_buf q'))); [done|]. destruct Hr as [?|Hr]; [lia|]. destruct Hr. apply (rn_store _ _ _ _ Hq'); [lia|]. apply Hn. lia.
Qed.

(** A stream is put together from its frames as it was sent.  Whatever the
    order of the frames, their overlaps and repetitions, and whenever and into
    buffers of whatever size the application reads, no frame of the stream
    within the announced limit is refused, what was read so far is the
    beginning of the stream, and a read that reports the end has had all of
    it.  Nothing is kept back: once frames have brought the first [n] bytes, a
    read into a large enough buffer completes them, and with all bytes and the
    mark of the end received the stream counts as finished after it. *)
Theorem stream_reassembled S max_data window max_window evs :
  0 <= max_data -> 0 <= window -> 0 <= max_window -> Forall (ev_ok S max_data) evs ->
  exists q, recv_run (recv_start max_data window max_window) evs = Ok q /\
    rr_out q = ztake (rv_off (rr_buf q)) S /\ zlen (rr_out q) = rv_off (rr_buf q) /\ (rr_fin q = true -> rr_out q = S) /\
    forall n cap, (forall x, 0 <= x < n -> Exists (brings x) evs) -> zlen S < cap ->
      exists q', recv_step q (Read cap) = Ok q' /\ n <= zlen (rr_out q') /\ rr_out q' = ztake (rv_off (rr_buf q')) S /\
        (n = zlen S -> Exists ends evs -> recv_is_fin (rr_buf q') = true /\ rr_out q' = S).
Proof.
  intros ? ? ? Hev. destruct (run_inv_all S max_data evs _ [] (start_run_inv S max_data window max_window ltac:(done) ltac:(done) ltac:(done)) Hev) as (q & E & Hq).
  simpl in Hq. exists q. destruct (run_inv_prefix _ _ _ _ Hq) as (P1 & P2 & P3). split_and!; try done; [intros Hx; apply P3; by eapply rn_end|].
  intros n cap Hn Hcap. destruct (run_inv_complete _ _ _ _ n cap Hq Hn Hcap) as (q' & E' & Hnq & Hq'). destruct (run_inv_prefix _ _ _ _ Hq') as (Q1 & Q2 & Q3).
  exists q'. split; [done|]. split; [lia|]. split; [done|]. intros -> Hends. pose proof (rn_inv _ _ _ _ Hq') as [_ Io Il _ _ _].
  assert (rv_off (rr_buf q') = zlen S) as Eo by lia. split; [|by apply Q3]. apply bool_decide_eq_true. rewrite Eo. by apply (rn_known _ _ _ _ Hq').
Qed.
Lemma stream_reassembled_witness :
  let evs := [Frame 3 [4; 5] true; Frame 0 [1; 2] false; Read 1; Frame 1 [2; 3; 4] false; Grant 7] in
  exists q, recv_run (recv_start 100 50 80) evs = Ok q /\ rr_out q = [1] /\
    exists q', recv_step q (Read 10) = Ok q' /\ rr_out q' = [1; 2; 3; 4; 5] /\ recv_is_fin (rr_buf q') = true.
Proof.
  intros evs. destruct (stream_reassembled [1; 2; 3; 4; 5] 100 50 80 evs) as (q & E & _ & _ & _ & Hr); [lia..| |].
  - repeat constructor; simpl; try lia; try reflexivity; try discriminate.
  - exists q. assert (E1 := E). vm_compute in E1. injection E1 as <-. split; [reflexivity|]. split; [reflexivity|].
    destruct (Hr 5 10) as (q' & E' & _ & _ & Hf).
    + intros x Hx. unfold evs. destruct (decide (x < 2)); [apply Exists_cons_tl, Exists_cons_hd; unfold brings, zlen; simpl; lia|].
      destruct (decide (x < 3)); [do 3 apply Exists_cons_tl; apply Exists_cons_hd; unfold brings, zlen; simpl; lia|apply Exists_cons_hd; unfold brings, zlen; simpl; lia].
    + vm_compute. reflexivity.
    + exists q'. split; [exact E'|]. destruct Hf as [? ?]; [reflexivity|apply Exists_cons_hd; reflexivity|]. done.
Defined.

(** ** Resets and shutdown *)

(** A write of the mark of the end into an empty store. *)
Lemma write_end_alone n r : rv_data r = [] -> rv_off r = n -> rv_len r <= n <= fc_max_data (rv_flow r) -> rv_drain r = false -> rv_fin_off r = None ->
  recv_write r (rb_from [] n true) = Ok (mkRecv [(n, rb_from [] n true)] n n (rv_flow r) (Some n) (rv_error r) false).
Proof.
  intros Hd Ho Hl Hdr Hf. destruct (from_fields [] n true) as (Eo & Em & Ee & Ef & _). rewrite zlen_nil, Z.add_0_r in Em.
  unfold recv_write. rewrite Em, Ee, Ef, Hf, (proj2 (Z.ltb_ge (fc_max_data _) n)), (proj2 (Z.ltb_ge n (rv_len r))) by lia.
  cbn [andb negb]. rewrite andb_false_r. destruct r as [data off len flow fin err drain]. simpl in *. subst.
  cbn [with_fin rv_data rv_off rv_len rv_drain rv_flow rv_fin_off rv_error length write_parts]. rewrite Eo, Z.ltb_irrefl. cbn [obind].
  rewrite Ee, orb_true_r. cbn [List.filter overlaps obind rv_drain rv_len negb]. rewrite Em, Z.max_r by lia. done.
Qed.

(** A reset of a stream whose end is not known is reported to the reader, and
    gives back what was not read. *)
Lemma reset_reported code final r : rv_error r = None -> rv_drain r = false -> rv_fin_off r = None ->
  rv_len r <= final <= fc_max_data (rv_flow r) ->
  exists r', recv_reset code final r = (Ok (final - rv_len r, final - rv_off r), r') /\ recv_ready r' = true /\
    forall cap, (emit_or_discard cap r').1 = Err (EStreamReset code).
Proof.
  intros He Hd Hf Hl. unfold recv_reset. rewrite Hf, He, Hd. rewrite (proj2 (Z.ltb_ge final (rv_len r))) by lia. cbn [bool_decide].
  rewrite bool_decide_eq_false_2 by (by intros []). rewrite write_end_alone by done. eexists. split; [done|].
  match goal with |- context [recv_ready ?q] => assert (recv_ready q = true) as E by (unfold recv_ready, rb_off; simpl; lia) end.
  split; [exact E|]. intros cap. unfold emit_or_discard. by rewrite E.
Qed.

(** When the end of the stream is known already, the reset clears the store but
    leaves nothing to read: the reader is not told. *)
Lemma reset_after_end_unreported code final r : rv_error r = None -> rv_fin_off r = Some final -> rv_len r <= final <= fc_max_data (rv_flow r) ->
  exists r', recv_reset code final r = (Ok (final - rv_len r, final - rv_off r), r') /\ forall cap, (emit_or_discard cap r').1 = Err EDone.
Proof.
  intros He Hf Hl. unfold recv_reset. rewrite Hf, He, Z.eqb_refl, (proj2 (Z.ltb_ge final (rv_len r))) by lia. cbn [negb].
  rewrite bool_decide_eq_false_2 by (by intros []). unfold recv_write. destruct (from_fields [] final true) as (Eo & Em & Ee & Ef & _).
  rewrite zlen_nil, Z.add_0_r in Em. cbn [rv_flow rv_fin_off rv_len]. rewrite Em, Ee, Ef, (proj2 (Z.ltb_ge (fc_max_data _) final)), Z.ltb_irrefl, Z.eqb_refl, (proj2 (Z.ltb_ge final (rv_len r))) by lia.
  cbn [andb orb negb]. rewrite bool_decide_eq_true_2 by eauto. eexists. split; [done|done].
Qed.

(** The end of a stream that arrives with bytes that were read before is noted,
    but nothing becomes readable: a reader that waits is not told. *)
Lemma end_in_repeated_frame_unreported : exists q,
  recv_run (recv_start 100 50 80) [Frame 0 [1; 2; 3] false; Read 10; Frame 1 [2; 3] true; Read 10] = Ok q /\
  rr_out q = [1; 2; 3] /\ recv_is_fin (rr_buf q) = true /\ rr_fin q = false.
Proof. by eexists. Qed.

(** A stream that is shut down keeps nothing and counts all that comes as read. *)
Lemma shutdown_drains r r' n : 0 <= rv_off r <= rv_len r -> recv_shutdown r = Ok (n, r') ->
  n = rv_len r - rv_off r /\ rv_data r' = [] /\ rv_off r' = rv_len r' /\ rv_drain r' = true /\ recv_ready r' = false /\ recv_shutdown r' = Err EDone.
Proof. unfold recv_shutdown. intros. destruct (rv_drain r); simplify_eq/=. done. Qed.
