(* ===== verification/QSend.v ===== *)
(** * The sending half of a QUIC stream

    Models stream/send_buf.rs of quiche: what an application writes is kept in
    pieces until it is acknowledged, handed out in order into packets, and
    handed out again where a packet was lost.  Positions in the queue of pieces
    are numbers of pieces; [Panic] is an index or an assertion that fails. *)

From S2P Require Import Prelude QRanges QBuffers QRecv.
From Stdlib Require Import ZArith Lia ZifyBool.
From stdpp Require Import base list numbers option decidable.
Open Scope Z_scope.

Definition SEND_BUFFER_SIZE : Z := 4096.

Record SendBuf : Type := mkSend {
  sb_data : list RangeBuf; sb_pos : nat; sb_off : Z; sb_emit_off : Z; sb_buffered : Z; sb_max_data : Z;
  sb_blocked_at : option Z; sb_fin_off : option Z; sb_shutdown : bool; sb_acked : RangeSet; sb_error : option Z
}.
Definition send_new `{Target} (max_data : Z) : SendBuf := mkSend [] 0 0 0 0 max_data None None false rs_default None.

Definition set_queue (data : list RangeBuf) (pos : nat) (off buffered : Z) (s : SendBuf) : SendBuf :=
  mkSend data pos off (sb_emit_off s) buffered (sb_max_data s) (sb_blocked_at s) (sb_fin_off s) (sb_shutdown s) (sb_acked s) (sb_error s).
Definition set_fin (fin_off : option Z) (s : SendBuf) : SendBuf :=
  mkSend (sb_data s) (sb_pos s) (sb_off s) (sb_emit_off s) (sb_buffered s) (sb_max_data s) (sb_blocked_at s) fin_off (sb_shutdown s) (sb_acked s) (sb_error s).

(** ** Writing *)

Section Writing.
Context {tgt : Target}.

Definition ack_off (s : SendBuf) : Z := match rs_iter (sb_acked s) with (0, end_) :: _ => end_ | _ => 0 end.
Definition send_cap (s : SendBuf) : q_result Z :=
  match sb_error s with Some e => Err (EStreamStopped e) | None => Ok (as_usize (sb_max_data s - sb_off s)) end.

(** The number of bytes reserved, and whether they are the last. *)
Definition reserve_for_write (s : SendBuf) (len : Z) (fin : bool) : q_result (SendBuf * Z * bool) :=
  let max_off := sb_off s + len in
  let! cap := send_cap s in
  let '(len, fin) := if cap <? len then (cap, false) else (len, fin) in
  if match sb_fin_off s with Some f => (f <? max_off) || (max_off =? f) && negb fin | None => false end then Err EFinalSize
  else
    let s := if fin then set_fin (Some max_off) s else s in
    Ok (s, if max_off <=? ack_off s then 0 else len, fin).

(** [append_buf] of a reservation. *)
Definition reserve_append (s : SendBuf) (reserved : Z) (fin : bool) (buf : bytes) : q_result (SendBuf * Z) :=
  let len := zlen buf in
  if reserved <? len then Err EBufferTooShort
  else
    let fin := (reserved =? len) && fin in
    Ok (set_queue (sb_data s ++ [rb_from buf (sb_off s) fin]) (sb_pos s) (sb_off s + len) (sb_buffered s + len) s, reserved - len).

(** [data.chunks(n)]; the bytes bound the number of chunks. *)
Fixpoint chunks (fuel : nat) (n : Z) (data : bytes) : list bytes :=
  match fuel, data with
  | S fuel, _ :: _ => ztake n data :: chunks fuel n (zdrop n data)
  | _, _ => []
  end.
Fixpoint append_all (s : SendBuf) (reserved : Z) (fin : bool) (bufs : list bytes) : q_result (SendBuf * Z) :=
  match bufs with
  | [] => Ok (s, reserved)
  | buf :: bufs => let! '(s, reserved) := reserve_append s reserved fin buf in append_all s reserved fin bufs
  end.
(** The end of a reservation asserts that it was used up. *)
Definition release (r : q_result (SendBuf * Z)) : q_result SendBuf :=
  let! '(s, reserved) := r in if reserved =? 0 then Ok s else Panic.

Definition send_write (s : SendBuf) (data : bytes) (fin : bool) : q_result (SendBuf * Z) :=
  let! '(s, reserved, fin) := reserve_for_write s (zlen data) fin in
  if reserved =? 0 then Ok (s, 0)
  else
    let head := ztake reserved data in
    let! s := release (append_all s reserved fin (chunks (length head) SEND_BUFFER_SIZE head)) in
    Ok (s, reserved).
(** The bytes that were not taken are returned. *)
Definition append_buf (s : SendBuf) (data : bytes) (cap : Z) (fin : bool) : q_result (SendBuf * Z * option bytes) :=
  let len := zlen data in
  let! '(s, reserved, fin) := reserve_for_write s (Z.min cap len) fin in
  if reserved =? 0 then Ok (s, 0, Some data)
  else
    let remainder := if reserved <? len then Some (zdrop reserved data) else None in
    let! s := release (append_all s reserved fin [ztake reserved data]) in
    Ok (s, reserved, remainder).
End Writing.

(** ** Handing out *)

(** [off_front]: the first byte at or after [pos] that is to be sent. *)
Fixpoint front_of (data : list RangeBuf) (off : Z) : Z :=
  match data with
  | [] => off
  | b :: data => if negb (rb_is_empty b) then rb_off b else front_of data off
  end.
Definition off_front (s : SendBuf) : Z := front_of (drop (sb_pos s) (sb_data s)) (sb_off s).

(** The loop of [emit]: a turn moves on by one piece or is the last.  [out] is
    what was copied so far. *)
Fixpoint emit_loop (fuel : nat) (s : SendBuf) (out_len next_off : Z) (out : bytes) : q_result (SendBuf * Z * bytes) :=
  match fuel with
  | O => OutOfFuel
  | S fuel =>
      if out_len <=? 0 then Ok (s, next_off, out)
      else
        let front := off_front s in
        if is_empty (sb_data s) || (sb_off s <=? front) || negb (front =? next_off) || (sb_max_data s <=? front) then Ok (s, next_off, out)
        else match sb_data s !! sb_pos s with
        | None => Ok (s, next_off, out)
        | Some buf =>
            if rb_is_empty buf then emit_loop fuel (set_queue (sb_data s) (S (sb_pos s)) (sb_off s) (sb_buffered s) s) out_len next_off out
            else
              let buf_len := Z.min (rb_len buf) out_len in
              let out := out ++ ztake buf_len (rb_bytes buf) in
              let next_off := rb_off buf + buf_len in
              let data := <[sb_pos s := rb_consume buf_len buf]> (sb_data s) in
              let pos := if buf_len <? rb_len buf then sb_pos s else S (sb_pos s) in
              let s := set_queue data pos (sb_off s) (sb_buffered s - buf_len) s in
              if buf_len <? rb_len buf then Ok (s, next_off, out) else emit_loop fuel s (out_len - buf_len) next_off out
        end
  end.
(** [emit] into a buffer of [out_len] bytes: what was copied and whether it is
    the end. *)
Definition send_emit (out_len : Z) (s : SendBuf) : q_result (SendBuf * bytes * bool) :=
  let! '(s, next_off, out) := emit_loop (S (length (sb_data s) - sb_pos s)) s out_len (off_front s) [] in
  Ok (mkSend (sb_data s) (sb_pos s) (sb_off s) (Z.max (sb_emit_off s) next_off) (sb_buffered s) (sb_max_data s) (sb_blocked_at s)
        (sb_fin_off s) (sb_shutdown s) (sb_acked s) (sb_error s), out, bool_decide (sb_fin_off s = Some next_off)).

Definition send_update_max_data (max_data : Z) (s : SendBuf) : SendBuf :=
  mkSend (sb_data s) (sb_pos s) (sb_off s) (sb_emit_off s) (sb_buffered s) (Z.max (sb_max_data s) max_data) (sb_blocked_at s)
    (sb_fin_off s) (sb_shutdown s) (sb_acked s) (sb_error s).
Definition update_blocked_at (blocked_at : option Z) (s : SendBuf) : SendBuf :=
  mkSend (sb_data s) (sb_pos s) (sb_off s) (sb_emit_off s) (sb_buffered s) (sb_max_data s) blocked_at
    (sb_fin_off s) (sb_shutdown s) (sb_acked s) (sb_error s).

(** ** Acknowledgements and losses *)

Definition lift_set {A} (o : outcome unit A) : q_result A :=
  match o with Ok a => Ok a | Err _ => Panic | Panic => Panic | OutOfFuel => OutOfFuel end.
Definition send_ack (off len : Z) (s : SendBuf) : q_result SendBuf :=
  let! acked := lift_set (rs_insert (sb_acked s) (off, off + len)) in
  Ok (mkSend (sb_data s) (sb_pos s) (sb_off s) (sb_emit_off s) (sb_buffered s) (sb_max_data s) (sb_blocked_at s)
        (sb_fin_off s) (sb_shutdown s) acked (sb_error s)).

(** How many pieces at the front end at or before the acknowledged offset. *)
Fixpoint acked_pieces (ack : Z) (data : list RangeBuf) : nat :=
  match data with
  | b :: data => if (ack <=? rb_off_ b) || (rb_off_ b <? ack) && (ack <? rb_max_off b) then 0 else S (acked_pieces ack data)
  | [] => 0
  end.
Definition sum_len (l : list RangeBuf) : Z := foldr (fun b n => rb_len b + n) 0 l.
Definition ack_and_drop (off len : Z) (s : SendBuf) : q_result (SendBuf * Z) :=
  let! s := send_ack off len s in
  let ack := ack_off s in
  if is_empty (sb_data s) then Ok (s, 0)
  else if ack <? off then Ok (s, 0)
  else
    let n := acked_pieces ack (sb_data s) in
    let dropped := sum_len (take n (sb_data s)) in
    Ok (set_queue (drop n (sb_data s)) (sb_pos s - n) (sb_off s) (Z.max 0 (sb_buffered s - dropped)) s, dropped).

(** The loop of [retransmit] over the pieces from index [i] on: the new pieces,
    the smallest index that was reached, and the number of bytes. *)
Fixpoint retransmit_loop (off max_off : Z) (i : nat) (data : list RangeBuf) : q_result (list RangeBuf * option nat * Z) :=
  match data with
  | [] => Ok ([], None, 0)
  | buf :: rest =>
      if max_off <=? rb_off_ buf then Ok (data, None, 0)
      else if rb_max_off buf <? off then
        let! '(rest, first, n) := retransmit_loop off max_off (S i) rest in Ok (buf :: rest, first, n)
      else
        let! '(buf, new_buf) := if (rb_off_ buf <? max_off) && (max_off <? rb_max_off buf)
                                then let! '(h, t) := rb_split_off (max_off - rb_off_ buf) buf in Ok (h, [t]) else Ok (buf, []) in
        let pos := if (rb_off_ buf <? off) && (off <=? rb_max_off buf)
                   then Z.min (rb_pos buf) (rb_start buf + (off - rb_off_ buf)) else rb_start buf in
        let moved := rb_pos buf - pos in
        let buf := mkRangeBuf (rb_data buf) (rb_start buf) pos (rb_len_ buf) (rb_off_ buf) (rb_fin buf) in
        let! '(rest, _, n) := match new_buf with
                              | [] => retransmit_loop off max_off (S i) rest
                              | t :: _ => Ok (t :: rest, None, 0)
                              end in
        Ok (buf :: rest, Some i, moved + n)
  end.
Definition retransmit (off len : Z) (s : SendBuf) : q_result (SendBuf * Z) :=
  let max_off := off + len in
  if is_empty (sb_data s) then Ok (s, 0)
  else if max_off <=? ack_off s then Ok (s, 0)
  else
    let! '(data, first, n) := retransmit_loop off max_off 0 (sb_data s) in
    Ok (set_queue data (match first with Some i => Nat.min (sb_pos s) i | None => sb_pos s end) (sb_off s) (sb_buffered s + n) s, n).

(** ** The end of a stream *)

Definition send_reset (s : SendBuf) : q_result (SendBuf * Z * Z) :=
  let unsent_off := Z.max (off_front s) (sb_emit_off s) in
  let unsent_len := Z.max 0 (sb_off s - unsent_off) in
  let s := set_queue [] (sb_pos s) unsent_off (sb_buffered s) (set_fin (Some unsent_off) s) in
  let! s := send_ack 0 unsent_off s in
  Ok (set_queue [] 0 unsent_off 0 s, sb_emit_off s, unsent_len).
Definition send_stop (error_code : Z) (s : SendBuf) : q_result (SendBuf * Z * Z) :=
  match sb_error s with
  | Some _ => Err EDone
  | None =>
      let! '(s, max_off, unsent) := send_reset s in
      Ok (mkSend (sb_data s) (sb_pos s) (sb_off s) (sb_emit_off s) (sb_buffered s) (sb_max_data s) (sb_blocked_at s)
            (sb_fin_off s) (sb_shutdown s) (sb_acked s) (Some error_code), max_off, unsent)
  end.
Definition send_shutdown (s : SendBuf) : q_result (SendBuf * Z * Z) :=
  if sb_shutdown s then Err EDone
  else send_reset (mkSend (sb_data s) (sb_pos s) (sb_off s) (sb_emit_off s) (sb_buffered s) (sb_max_data s) (sb_blocked_at s)
                     (sb_fin_off s) true (sb_acked s) (sb_error s)).
Definition send_is_fin (s : SendBuf) : bool := bool_decide (sb_fin_off s = Some (sb_off s)).
Definition send_is_complete (s : SendBuf) : bool :=
  match sb_fin_off s with Some f => rs_eq_range (sb_acked s) (0, f) | None => false end.

(** ** The queue

    [W] is what was written.  The pieces of the queue follow each other without
    a gap from [lo] to [hi]; of each, what lies before its position was handed
    out. *)

Definition rewind (b : RangeBuf) : RangeBuf := mkRangeBuf (rb_data b) (rb_start b) (rb_start b) (rb_len_ b) (rb_off_ b) (rb_fin b).
Definition cell (W : bytes) (b : RangeBuf) : Prop :=
  piece_of W (rewind b) /\ rb_start b <= rb_pos b <= rb_start b + rb_len_ b /\ 0 < rb_len_ b.
Fixpoint chain (W : bytes) (lo : Z) (l : list RangeBuf) (hi : Z) : Prop :=
  match l with [] => lo = hi | b :: l => cell W b /\ rb_off_ b = lo /\ chain W (lo + rb_len_ b) l hi end.
(** What is to be handed out. *)
Definition pending (l : list RangeBuf) (x : Z) : Prop := Exists (fun b => rb_off b <= x < rb_max_off b) l.

Lemma slice_ext S T a b : b <= zlen S -> slice (S ++ T) a b = slice S a b.
Proof.
  intros. unfold slice, ztake, zlen in *. rewrite take_app_le by lia. done.
Qed.
Lemma piece_ext S T b : piece_of S b -> piece_of (S ++ T) b.
Proof.
  intros (Hw & Hm & Hb). pose proof (zlen_nonneg T). split_and!; [done|rewrite zlen_app; lia|]. by rewrite slice_ext.
Qed.
Lemma cell_ext S T b : cell S b -> cell (S ++ T) b.
Proof. intros (? & ? & ?). split_and!; try lia. by apply piece_ext. Qed.
Lemma chain_ext S T lo l hi : chain S lo l hi -> chain (S ++ T) lo l hi.
Proof. revert lo. induction l as [|b l IH]; intros lo; simpl; [done|]. intros (? & ? & ?). split_and!; auto using cell_ext. Qed.

Section Queue.
Context (W : bytes).

Lemma cell_piece b : cell W b -> piece_of W b /\ rb_off_ b <= rb_off b /\ rb_max_off b = rb_off_ b + rb_len_ b /\ rb_off b = rb_off_ b + (rb_pos b - rb_start b) /\
  0 <= rb_off_ b /\ rb_off b <= rb_max_off b /\ rb_max_off b <= zlen W.
Proof.
  intros (Hp & Hr & Hl). destruct b as [data start pos len off fin]. unfold rewind in *. simpl in *.
  pose proof Hp as ((Hw1 & Hw2 & Hw3) & Hm & _). unfold rb_wf, rb_max_off, rb_off, rb_len in *. simpl in *.
  destruct (consume_ok W (pos - start) _ Hp) as (Hc & _); [unfold rb_len; simpl; lia|]. unfold rb_consume in Hc. simpl in Hc.
  replace (start + (pos - start)) with pos in Hc by lia. split_and!; try done; lia.
Qed.
Lemma chain_app lo l k hi : chain W lo (l ++ k) hi <-> exists mid, chain W lo l mid /\ chain W mid k hi.
Proof.
  revert lo. induction l as [|b l IH]; intros lo; simpl; [naive_solver|].
  rewrite IH. split; [intros (? & ? & mid & ? & ?); exists mid|intros (mid & (? & ? & ?) & ?)]; naive_solver.
Qed.
Lemma chain_bounds lo l hi : chain W lo l hi -> lo <= hi /\ Forall (fun b => cell W b /\ lo <= rb_off_ b /\ rb_off_ b + rb_len_ b <= hi) l.
Proof.
  revert lo. induction l as [|b l IH]; intros lo; simpl; [intros ->; split; [lia|constructor]|]. intros (Hc & <- & Hl).
  destruct (IH _ Hl) as [? Hf]. pose proof Hc as (_ & _ & ?). split; [lia|]. constructor; [split_and!; done || lia|].
  eapply Forall_impl; [|exact Hf]. simpl. intuition lia.
Qed.

Lemma pending_app l k x : pending (l ++ k) x <-> pending l x \/ pending k x.
Proof. apply Exists_app. Qed.
Lemma pending_cons b l x : pending (b :: l) x <-> rb_off b <= x < rb_max_off b \/ pending l x.
Proof. apply Exists_cons. Qed.
Lemma pending_bounds lo l hi x : chain W lo l hi -> pending l x -> lo <= x < hi.
Proof.
  intros [_ Hf]%chain_bounds Hp. apply Exists_exists in Hp as (b & Hb & ?). rewrite Forall_forall in Hf.
  destruct (Hf b Hb) as (Hc & ? & ?). apply cell_piece in Hc. lia.
Qed.
Lemma empty_pending b x : rb_is_empty b = true -> ~ rb_off b <= x < rb_max_off b.
Proof. unfold rb_is_empty, rb_max_off. lia. Qed.
Lemma empties_pending l x : Forall (fun b => rb_is_empty b = true) l -> ~ pending l x.
Proof. intros H Hp. apply Exists_exists in Hp as (b & Hb & Hx). rewrite Forall_forall in H. by apply (empty_pending b x) in Hx; [|apply H]. Qed.

(** [off_front] is the first byte to be handed out. *)
Lemma front_spec lo l hi : chain W lo l hi ->
  front_of l hi = hi /\ Forall (fun b => rb_is_empty b = true) l \/
  exists es b rest, l = es ++ b :: rest /\ Forall (fun b => rb_is_empty b = true) es /\ rb_is_empty b = false /\ front_of l hi = rb_off b /\ 0 < rb_len b.
Proof.
  revert lo. induction l as [|b l IH]; intros lo; simpl; [by left|]. intros (Hc & <- & Hl). destruct (rb_is_empty b) eqn:E; simpl.
  - destruct (IH _ Hl) as [[? ?]|(es & b' & rest & -> & ? & ? & ? & ?)]; [left; split; [done|by constructor]|].
    right. exists (b :: es), b', rest. split_and!; try done. by constructor.
  - right. exists [], b, l. split_and!; try done. apply cell_piece in Hc. unfold rb_is_empty, rb_max_off in *. lia.
Qed.
End Queue.

Lemma sum_len_app l k : sum_len (l ++ k) = sum_len l + sum_len k.
Proof. induction l as [|b l IH]; simpl; lia. Qed.

(** ** Writing appends *)

Lemma concat_chunks fuel n data : (length data <= fuel)%nat -> 0 < n -> concat (chunks fuel n data) = data /\ Forall (fun c => 0 < zlen c) (chunks fuel n data).
Proof.
  intros Hf Hn. revert data Hf. induction fuel as [|fuel IH]; intros data Hf; [destruct data; simpl in *; [done|lia]|].
  destruct data as [|x data]; [done|]. cbn [chunks]. assert (length (zdrop n (x :: data)) <= fuel)%nat as Hd.
  { unfold zdrop. rewrite length_drop. simpl in *. lia. }
  destruct (IH _ Hd) as [E F]. simpl. rewrite E, ztake_zdrop. split; [done|]. constructor; [|done]. rewrite zlen_ztake, zlen_cons. pose proof (zlen_nonneg data). lia.
Qed.

Lemma cell_from W d fin : 0 < zlen d -> cell (W ++ d) (rb_from d (zlen W) fin).
Proof.
  intros. pose proof (zlen_nonneg W). assert (piece_of (W ++ d) (rb_from d (zlen W) fin)) as Hp.
  { apply piece_from; [done| |rewrite zlen_app; lia]. unfold slice. rewrite ztake_all, zdrop_app_length by (rewrite ?zlen_app; lia). done. }
  split; [exact Hp|]. simpl. lia.
Qed.

Lemma append_all_ok bufs W s reserved fin : Forall (fun c => 0 < zlen c) bufs -> sb_off s = zlen W -> reserved = zlen (concat bufs) ->
  exists new, append_all s reserved fin bufs = Ok (set_queue (sb_data s ++ new) (sb_pos s) (sb_off s + reserved) (sb_buffered s + reserved) s, 0) /\
    chain (W ++ concat bufs) (zlen W) new (zlen W + reserved) /\ sum_len new = reserved /\
    forall x, pending new x <-> zlen W <= x < zlen W + reserved.
Proof.
  intros Hb. revert W s reserved. induction Hb as [|d bufs Hd Hb IH]; intros W s reserved Ho Hr; simpl in *.
  - rewrite zlen_nil in Hr. subst reserved. exists []. rewrite !app_nil_r, !Z.add_0_r. destruct s; simpl. split_and!; try done. intros x.
    unfold pending. rewrite Exists_nil. lia.
  - rewrite zlen_app in Hr. pose proof (zlen_nonneg (concat bufs)). unfold reserve_append. rewrite (proj2 (Z.ltb_ge reserved (zlen d))) by lia. cbn [obind].
    match goal with |- context [append_all ?s1 _ _ _] => destruct (IH (W ++ d) s1 (reserved - zlen d)) as (new & -> & Hc & Hs & Hp) end.
    { simpl. rewrite zlen_app. lia. } { lia. }
    set (b := rb_from d (sb_off s) ((reserved =? zlen d) && fin)). assert (cell (W ++ d ++ concat bufs) b) as Hcell.
    { rewrite app_assoc. apply cell_ext. unfold b. rewrite Ho. by apply cell_from. }
    rewrite <- app_assoc in Hc. rewrite zlen_app in *. exists (b :: new). split_and!.
    + destruct s; unfold set_queue; simpl in *. rewrite <- app_assoc. do 3 f_equal; lia.
    + split; [done|]. split; [exact Ho|]. replace (zlen W + reserved) with (zlen W + zlen d + (reserved - zlen d)) by lia. done.
    + simpl. unfold rb_len. simpl. lia.
    + intros x. rewrite pending_cons, Hp. unfold rb_max_off, rb_off, rb_len. simpl. lia.
Qed.

(** ** Handing out *)

Lemma cell_consume W n b : cell W b -> 0 <= n <= rb_len b -> cell W (rb_consume n b) /\ rb_off_ (rb_consume n b) = rb_off_ b /\ rb_len_ (rb_consume n b) = rb_len_ b.
Proof. intros (Hp & Hr & Hl) Hn. unfold rb_len in Hn. split; [|done]. split; [exact Hp|]. simpl. lia. Qed.

(** What a loop over the queue has done when it handed out [m] bytes from
    [next_off] on. *)
Definition emitted (W : bytes) (lo : Z) (s : SendBuf) (next_off : Z) (out : bytes) (m : Z) (r : SendBuf * Z * bytes) : Prop :=
  exists data' pos', r = (set_queue data' pos' (sb_off s) (sb_buffered s - m) s, next_off + m, out ++ slice W next_off (next_off + m)) /\
    chain W lo data' (sb_off s) /\ Forall (fun b => rb_is_empty b = true) (take pos' data') /\ (pos' <= length data')%nat /\
    sum_len data' = sum_len (sb_data s) - m /\ length data' = length (sb_data s) /\ (m = 0 \/ next_off + m <= sb_off s) /\
    forall x, pending data' x <-> pending (sb_data s) x /\ ~ (next_off <= x < next_off + m).

Lemma emitted_none W lo s es tail next_off out : sb_data s = es ++ tail -> sb_pos s = length es -> chain W lo (sb_data s) (sb_off s) ->
  Forall (fun b => rb_is_empty b = true) es -> emitted W lo s next_off out 0 (s, next_off, out).
Proof.
  intros Hd Hp Hc He. exists (sb_data s), (sb_pos s). rewrite !Z.add_0_r, slice_nil, app_nil_r, !Z.sub_0_r. split_and!; try done.
  - by destruct s.
  - by rewrite Hd, Hp, take_app_length.
  - rewrite Hd, Hp, length_app. lia.
  - by left.
  - intros x. split; [|tauto]. intros ?. split; [done|lia].
Qed.

Lemma emitted_then W lo s a out n m data1 pos1 r : 0 <= a -> 0 <= n -> 0 <= m -> sum_len data1 = sum_len (sb_data s) - n -> length data1 = length (sb_data s) ->
  n = 0 \/ a + n <= sb_off s -> (forall x, pending data1 x <-> pending (sb_data s) x /\ ~ (a <= x < a + n)) ->
  emitted W lo (set_queue data1 pos1 (sb_off s) (sb_buffered s - n) s) (a + n) (out ++ slice W a (a + n)) m r -> emitted W lo s a out (n + m) r.
Proof.
  intros Ha Hn Hm Hs Hlen Hle Hp (data' & pos' & -> & Hc & He & Hpos & Hsum & Hl & Hle' & Hx). simpl in *. exists data', pos'. split_and!; try done; try lia.
  - unfold set_queue. simpl. rewrite <- (app_assoc out), slice_app by lia. rewrite Z.add_assoc. do 3 f_equal. lia.
  - intros x. rewrite Hx, Hp. split; [intros [[? ?] ?]; split; [done|lia]|]. intros [? ?]. split; [split; [done|lia]|lia].
Qed.

(** [n] bytes of a piece are handed out. *)
Lemma consume_in_chain W lo es b tail hi n : chain W lo (es ++ b :: tail) hi -> 0 <= n <= rb_len b ->
  let data1 := es ++ rb_consume n b :: tail in
  ztake n (rb_bytes b) = slice W (rb_off b) (rb_off b + n) /\ chain W lo data1 hi /\ sum_len data1 = sum_len (es ++ b :: tail) - n /\
  length data1 = length (es ++ b :: tail) /\ rb_off b + n <= hi /\
  (forall x, pending data1 x <-> pending (es ++ b :: tail) x /\ ~ (rb_off b <= x < rb_off b + n)).
Proof.
  intros Hc Hn data1. apply chain_app in Hc as (mid & Hc1 & (Hb & Hbo & Hc2)). pose proof (cell_piece W b Hb) as (Pb & Hb0 & Hbm & _ & _ & Hbl & _).
  destruct (consume_ok W n b Pb Hn) as (_ & Oc & Mc & Et). destruct (cell_consume W n b Hb Hn) as (Cc & Cco & Ccl).
  pose proof (chain_bounds W _ _ _ Hc2) as [? _]. unfold data1. split_and!.
  - done.
  - apply chain_app. exists mid. split; [done|]. split; [done|]. rewrite Cco, Ccl. by split.
  - rewrite !sum_len_app. simpl. unfold rb_len. simpl. lia.
  - by rewrite !length_app.
  - unfold rb_max_off in *. lia.
  - intros x. rewrite !pending_app, !pending_cons, Oc, Mc.
    assert (pending tail x -> rb_max_off b <= x) as Hge. { intros Hx. pose proof (pending_bounds W _ _ _ _ Hc2 Hx). lia. }
    assert (pending es x -> x < rb_off b) as Hlt. { intros Hx. pose proof (pending_bounds W _ _ _ _ Hc1 Hx). lia. }
    unfold rb_max_off in *. split; [intros [Hx|[Hx|Hx]]|intros [[Hx|[Hx|Hx]] ?]].
    + specialize (Hlt Hx). split; [by left|lia].
    + split; [right; left|]; lia.
    + specialize (Hge Hx). split; [by right; right|lia].
    + by left.
    + right. left. lia.
    + by right; right.
Qed.

Lemma emit_loop_ok W lo tail fuel s es out_len next_off out : sb_data s = es ++ tail -> sb_pos s = length es -> chain W lo (sb_data s) (sb_off s) ->
  Forall (fun b => rb_is_empty b = true) es -> (length tail < fuel)%nat -> 0 <= out_len -> 0 <= next_off ->
  exists r m, emit_loop fuel s out_len next_off out = Ok r /\ 0 <= m <= out_len /\ emitted W lo s next_off out m r /\
    (0 < out_len -> front_of tail (sb_off s) = next_off -> next_off < sb_off s -> next_off < sb_max_data s -> 0 < m).
Proof.
  revert fuel s es out_len next_off out. induction tail as [|b tail IH]; intros fuel s es out_len next_off out Hd Hp Hc He Hf Hl Hn; (destruct fuel as [|fuel]; [simpl in *; lia|]); cbn [emit_loop].
  - assert (off_front s = sb_off s) as ->. { unfold off_front. rewrite Hd, Hp, app_nil_r, drop_all. done. }
    eexists _, 0. rewrite Z.leb_refl, !orb_true_r, !orb_true_l. split; [by case_match|]. split; [lia|]. split; [by eapply emitted_none|]. simpl. lia.
  - assert (off_front s = front_of (b :: tail) (sb_off s)) as Ef. { unfold off_front. by rewrite Hd, Hp, drop_app_length. }
    destruct (out_len <=? 0) eqn:E0; [eexists _, 0; split; [done|]; split; [lia|]; split; [by eapply emitted_none|lia]|].
    destruct (is_empty (sb_data s) || (sb_off s <=? off_front s) || negb (off_front s =? next_off) || (sb_max_data s <=? off_front s)) eqn:E1.
    { eexists _, 0. split; [done|]. split; [lia|]. split; [by eapply emitted_none|]. rewrite <- Ef. intros.
      assert (is_empty (sb_data s) = false) as Ee by (rewrite Hd; by destruct es). rewrite Ee in E1. lia. }
    assert (sb_data s !! sb_pos s = Some b) as -> by (rewrite Hd, Hp; by apply list_lookup_middle).
    destruct (rb_is_empty b) eqn:Eb.
    + edestruct (IH fuel (set_queue (sb_data s) (S (sb_pos s)) (sb_off s) (sb_buffered s) s) (es ++ [b]) out_len next_off out) as (r & m & -> & Hm & Hr & Hprog); simpl; try done; try lia.
      { by rewrite Hd, <- app_assoc. } { rewrite Hp, length_app. simpl. lia. } { apply Forall_app. by split; [|constructor]. } { simpl in Hf. lia. }
      exists r, m. split; [done|]. split; [done|]. split; [|intros; apply Hprog; try done; simpl in *; by rewrite Eb in *].
      apply (emitted_then W lo s next_off out 0 m (sb_data s) (S (sb_pos s))); try lia; [intros; split; [intros; split; [done|lia]|tauto]|].
      by rewrite Z.add_0_r, slice_nil, app_nil_r, Z.sub_0_r.
    + simpl in Ef. rewrite Eb in Ef. simpl in Ef. assert (rb_off b = next_off) as Eo by lia.
      assert (0 < rb_len b) by (rewrite Hd in Hc; apply chain_app in Hc as (mid & _ & Hb & _); apply cell_piece in Hb; unfold rb_is_empty, rb_max_off in *; lia).
      set (n := Z.min (rb_len b) out_len) in *. rewrite Hd in Hc. destruct (consume_in_chain W lo es b tail (sb_off s) n Hc ltac:(lia)) as (Et & Hch & Hsum & Hlen & Hle & Hpend).
      rewrite Hd, Hp, insert_app_r_alt, Nat.sub_diag by lia. cbn [insert list_insert]. rewrite Et, Eo in *. rewrite <- Hd in Hsum, Hlen, Hpend.
      set (data1 := es ++ rb_consume n b :: tail) in *. destruct (n <? rb_len b) eqn:En.
      * eexists _, n. split; [done|]. split; [lia|]. split; [|lia]. exists data1, (length es). split_and!; try done.
        -- unfold data1. by rewrite take_app_length.
        -- unfold data1. rewrite length_app. lia.
        -- right. lia.
      * edestruct (IH fuel (set_queue data1 (S (length es)) (sb_off s) (sb_buffered s - n) s) (es ++ [rb_consume n b]) (out_len - n) (next_off + n)) as (r & m & -> & Hm & Hr & _); simpl; try done; try lia.
        { unfold data1. by rewrite <- app_assoc. } { rewrite length_app. simpl. lia. }
        { apply Forall_app. split; [done|]. constructor; [|done]. unfold rb_is_empty, rb_len in *. simpl in *. lia. } { simpl in Hf. lia. }
        exists r, (n + m). split; [done|]. split; [lia|]. split; [|lia]. eapply emitted_then; try done; lia.
Qed.

(** ** Acknowledgements *)

Lemma sum_len_nonneg W lo l hi : chain W lo l hi -> 0 <= sum_len l.
Proof.
  revert lo. induction l as [|b l IH]; intros lo; simpl; [lia|]. intros (Hb & _ & Hl). specialize (IH _ Hl). apply cell_piece in Hb. unfold rb_max_off in *. lia.
Qed.
Lemma sum_len_zero W lo l hi : chain W lo l hi -> sum_len l = 0 -> Forall (fun b => rb_is_empty b = true) l.
Proof.
  revert lo. induction l as [|b l IH]; intros lo; simpl; [done|]. intros (Hb & _ & Hl) Hs. pose proof (sum_len_nonneg _ _ _ _ Hl). apply cell_piece in Hb.
  unfold rb_max_off, rb_is_empty in *. constructor; [lia|]. eapply IH; [done|lia].
Qed.
Lemma acked_pieces_ok W ack lo l hi : chain W lo l hi -> let n := acked_pieces ack l in
  exists lo', chain W lo' (drop n l) hi /\ lo <= lo' /\ (lo' = lo \/ lo' <= ack) /\ (n <= length l)%nat /\
    forall x, pending l x -> pending (drop n l) x \/ x < lo'.
Proof.
  revert lo. induction l as [|b l IH]; intros lo; simpl; [intros ->; exists hi; split_and!; try done; try lia; by left|].
  intros (Hb & <- & Hl). pose proof (cell_piece W b Hb) as (_ & ? & ? & _ & ? & ? & _). pose proof (proj2 (proj2 Hb)). destruct (_ || _) eqn:E; simpl.
  - exists (rb_off_ b). split_and!; try done; try lia; by left.
  - destruct (IH _ Hl) as (lo' & Hc & ? & Hlo & ? & Hx). exists lo'. split_and!; try done; try lia.
    intros x [?|?]%pending_cons; [right; lia|by apply Hx].
Qed.
Lemma take_drop_empties n pos (l : list RangeBuf) : Forall (fun b => rb_is_empty b = true) (take pos l) ->
  Forall (fun b => rb_is_empty b = true) (take (pos - n) (drop n l)).
Proof.
  intros H. destruct (decide (n <= pos)%nat); [|replace (pos - n)%nat with 0%nat by lia; constructor].
  rewrite take_drop_commute. replace (n + (pos - n))%nat with pos by lia. by apply Forall_drop.
Qed.

(** ** Losses *)

Lemma split_cell W at_ b : cell W b -> 0 < at_ < rb_len_ b ->
  exists h t, rb_split_off at_ b = Ok (h, t) /\ cell W h /\ cell W t /\ rb_off_ h = rb_off_ b /\ rb_len_ h = at_ /\ rb_off_ t = rb_off_ b + at_ /\
    rb_len_ t = rb_len_ b - at_ /\ rb_len h + rb_len t = rb_len b /\
    forall x, rb_off b <= x < rb_max_off b <-> rb_off h <= x < rb_max_off h \/ rb_off t <= x < rb_max_off t.
Proof.
  intros (Hp & Hr & Hl) Ha. destruct (split_off_ok W at_ (rewind b) Hp eq_refl) as (h0 & t0 & E & Ph & Pt & _); [unfold rb_len; simpl; lia|].
  unfold rb_split_off in *. simpl in E. rewrite (proj2 (Z.ltb_ge (rb_len_ b) at_)) in * by lia. injection E as <- <-.
  rewrite Z.min_l, Z.max_r in * by lia. do 2 eexists. split; [done|]. unfold cell, rewind, rb_max_off, rb_off, rb_len. simpl. split_and!; try done; try lia.
Qed.

(** The position of a piece goes back to the first byte that was lost. *)
Definition back_to (off : Z) (buf : RangeBuf) : Z :=
  if (rb_off_ buf <? off) && (off <=? rb_max_off buf) then Z.min (rb_pos buf) (rb_start buf + (off - rb_off_ buf)) else rb_start buf.
Definition moved_back (off : Z) (b : RangeBuf) : RangeBuf :=
  mkRangeBuf (rb_data b) (rb_start b) (back_to off b) (rb_len_ b) (rb_off_ b) (rb_fin b).
Lemma moved_back_ok W off b : cell W b -> off <= rb_max_off b ->
  cell W (moved_back off b) /\ rb_len (moved_back off b) = rb_len b + (rb_pos b - back_to off b) /\ back_to off b <= rb_pos b /\
  forall x, rb_off (moved_back off b) <= x < rb_max_off (moved_back off b) <->
    rb_off b <= x < rb_max_off b \/ off <= x /\ rb_off_ b <= x < rb_off_ b + rb_len_ b.
Proof.
  intros Hb Ho. pose proof (cell_piece W b Hb) as (_ & _ & Hm & Hof & _). pose proof Hb as (Hp & Hr & Hl).
  assert (rb_start b <= back_to off b <= rb_pos b) as Hbt by (unfold back_to; case_match; lia). split_and!; try done.
  - split; [exact Hp|]. simpl. lia.
  - unfold rb_len. simpl. lia.
  - lia.
  - intros x. rewrite Hof, Hm. unfold rb_max_off, rb_off, rb_len in *. simpl. unfold back_to, rb_max_off, rb_off, rb_len in *. case_match; lia.
Qed.

Lemma retransmit_loop_ok W off max_off lo l hi i : chain W lo l hi -> off <= max_off ->
  exists data first n, retransmit_loop off max_off i l = Ok (data, first, n) /\ chain W lo data hi /\ 0 <= n /\ sum_len data = sum_len l + n /\
    (length l <= length data)%nat /\
    match first with None => data = l | Some j => (i <= j)%nat /\ take (j - i) data = take (j - i) l end /\
    forall x, pending data x <-> pending l x \/ off <= x < max_off /\ lo <= x < hi.
Proof.
  intros Hc Ho. revert lo i Hc. induction l as [|b l IH]; intros lo i Hc; cbn [retransmit_loop].
  - exists [], None, 0. simpl in *. split_and!; try done; try lia. intros x. unfold pending. rewrite Exists_nil. lia.
  - pose proof Hc as (Hb & <- & Hl). pose proof (cell_piece W b Hb) as (_ & ? & Hm & _ & ? & ? & _). pose proof (proj2 (proj2 Hb)).
    pose proof (chain_bounds W _ _ _ Hl) as [? _].
    destruct (max_off <=? rb_off_ b) eqn:E1.
    { exists (b :: l), None, 0. split_and!; try done; try lia. intros x. split; [by left|]. intros [?|?]; [done|lia]. }
    destruct (rb_max_off b <? off) eqn:E2.
    { destruct (IH _ (S i) Hl) as (data & first & n & -> & Hc' & ? & Hs & Hlen & Hf & Hx). exists (b :: data), first, n. simpl.
      split_and!; try done; try lia.
      - destruct first as [j|]; [|by subst]. destruct Hf as [? Hf]. split; [lia|]. replace (j - i)%nat with (S (j - S i)) by lia. simpl. by rewrite Hf.
      - intros x. rewrite !pending_cons, Hx. intuition lia. }
    rewrite (proj2 (Z.ltb_lt (rb_off_ b) max_off)) by lia. cbn [andb]. destruct (max_off <? rb_max_off b) eqn:E3.
    + destruct (split_cell W (max_off - rb_off_ b) b Hb) as (h & t & -> & Ch & Ct & Oh & Lh & Ot & Lt & Hsum & Hx); [lia|]. cbn [obind].
      pose proof (cell_piece W h Ch) as (_ & _ & Hmh & _). destruct (moved_back_ok W off h Ch) as (Cm & Lm & Hbk & Hxm); [lia|].
      exists (moved_back off h :: t :: l), (Some i), (rb_pos h - back_to off h + 0). split; [done|]. split_and!; try done; try lia.
      * split; [done|]. split; [done|]. split; [done|]. split; [simpl; lia|]. simpl. by replace (rb_off_ b + rb_len_ h + rb_len_ t) with (rb_off_ b + rb_len_ b) by lia.
      * simpl. lia.
      * simpl. lia.
      * by rewrite Nat.sub_diag.
      * intros x. rewrite !pending_cons, Hxm, Hx.
        assert (pending l x -> rb_off_ b + rb_len_ b <= x) as Hge. { intros Hp. by apply (pending_bounds W _ _ _ _ Hl) in Hp as [? _]. }
        rewrite Oh, Lh. split; [intros [[?|?]|[?|?]]|intros [[[?|?]|?]|?]]; try tauto; [right; lia|left; right; lia].
    + cbn [obind]. destruct (moved_back_ok W off b Hb) as (Cm & Lm & Hbk & Hxm); [lia|].
      destruct (IH _ (S i) Hl) as (data & first & n & -> & Hc' & ? & Hs & Hlen & _ & Hx).
      exists (moved_back off b :: data), (Some i), (rb_pos b - back_to off b + n). split; [done|]. split_and!; try done; try lia.
      * simpl. lia.
      * simpl. lia.
      * by rewrite Nat.sub_diag.
      * intros x. rewrite !pending_cons, Hxm, Hx. intuition lia.
Qed.

(** ** Histories *)

(** What happens to a stream that is not reset.  The packets of a connection
    say which frames were acknowledged or lost: frames are numbered in the
    order they were made. *)
Inductive send_event : Type :=
| SWrite (data : bytes) (fin : bool) | SAppend (data : bytes) (cap : Z) (fin : bool) | SEmit (out_len : Z)
| SAcked (frame : nat) | SLost (frame : nat) | SLimit (max_data : Z).
(** The buffer; what was written; the frames; what was acknowledged; and, the
    latest first, what was sent ([true]) and lost ([false]). *)
Record SendRun : Type := mkSRun {
  sr_buf : SendBuf; sr_written : bytes; sr_frames : list (Z * bytes * bool); sr_acks : list (Z * Z); sr_flight : list (bool * Z * Z)
}.
Definition send_start `{Target} (max_data : Z) : SendRun := mkSRun (send_new max_data) [] [] [] [].
Section History.
Context {tgt : Target}.

Definition wrote (q : SendRun) (data : bytes) (r : q_result (SendBuf * Z)) : q_result SendRun :=
  match r with
  | Ok (s, n) => Ok (mkSRun s (sr_written q ++ ztake n data) (sr_frames q) (sr_acks q) (sr_flight q))
  | Err _ => Ok q
  | Panic => Panic
  | OutOfFuel => OutOfFuel
  end.
Definition send_step (q : SendRun) (ev : send_event) : q_result SendRun :=
  match ev with
  | SWrite data fin => wrote q data (send_write (sr_buf q) data fin)
  | SAppend data cap fin => wrote q data (let! '(s, n, _) := append_buf (sr_buf q) data cap fin in Ok (s, n))
  | SEmit n =>
      let a := off_front (sr_buf q) in
      let! '(s, out, fin) := send_emit n (sr_buf q) in
      Ok (mkSRun s (sr_written q) (sr_frames q ++ [(a, out, fin)]) (sr_acks q) ((true, a, a + zlen out) :: sr_flight q))
  | SAcked i =>
      match sr_frames q !! i with
      | Some (a, d, _) =>
          let! '(s, _) := ack_and_drop a (zlen d) (sr_buf q) in
          Ok (mkSRun s (sr_written q) (sr_frames q) ((a, a + zlen d) :: sr_acks q) (sr_flight q))
      | None => Ok q
      end
  | SLost i =>
      match sr_frames q !! i with
      | Some (a, d, _) =>
          let! '(s, _) := retransmit a (zlen d) (sr_buf q) in
          Ok (mkSRun s (sr_written q) (sr_frames q) (sr_acks q) ((false, a, a + zlen d) :: sr_flight q))
      | None => Ok q
      end
  | SLimit m => Ok (mkSRun (send_update_max_data m (sr_buf q)) (sr_written q) (sr_frames q) (sr_acks q) (sr_flight q))
  end.
Fixpoint send_run (q : SendRun) (evs : list send_event) : q_result SendRun :=
  match evs with [] => Ok q | ev :: evs => let! q := send_step q ev in send_run q evs end.
Definition send_ev_ok (ev : send_event) : Prop := match ev with SEmit n => 0 <= n | SAppend _ cap _ => 0 <= cap | _ => True end.

Definition acked_by (acks : list (Z * Z)) (x : Z) : Prop := Exists (fun r => r.1 <= x < r.2) acks.
(** A byte is under way: it was sent, and not lost since. *)
Fixpoint flying (flight : list (bool * Z * Z)) (x : Z) : Prop :=
  match flight with
  | [] => False
  | (true, a, b) :: l => a <= x < b \/ flying l x
  | (false, a, b) :: l => ~ (a <= x < b) /\ flying l x
  end.

Record send_inv (q : SendRun) (base : Z) : Prop := mkSendInv {
  si_chain : chain (sr_written q) base (sb_data (sr_buf q)) (zlen (sr_written q));
  si_off : sb_off (sr_buf q) = zlen (sr_written q);
  si_base : 0 <= base;
  si_empty : Forall (fun b => rb_is_empty b = true) (take (sb_pos (sr_buf q)) (sb_data (sr_buf q)));
  si_pos : (sb_pos (sr_buf q) <= length (sb_data (sr_buf q)))%nat;
  si_sum : sb_buffered (sr_buf q) = sum_len (sb_data (sr_buf q));
  si_limit : zlen (sr_written q) <= sb_max_data (sr_buf q);
  si_error : sb_error (sr_buf q) = None;
  si_fin : forall f, sb_fin_off (sr_buf q) = Some f -> f = zlen (sr_written q);
  si_frames : Forall (fun f => frame_of (sr_written q) f.1.1 f.1.2 f.2 /\ (f.2 = true -> is_Some (sb_fin_off (sr_buf q)))) (sr_frames q);
  si_set : rs_ok (sb_acked (sr_buf q));
  si_acked : forall x, member (rs_iter (sb_acked (sr_buf q))) x -> acked_by (sr_acks q) x;
  si_acks : forall x, acked_by (sr_acks q) x -> 0 <= x < zlen (sr_written q);
  si_dropped : forall x, 0 <= x < base -> acked_by (sr_acks q) x;
  si_kept : forall x, 0 <= x < zlen (sr_written q) -> acked_by (sr_acks q) x \/ pending (sb_data (sr_buf q)) x \/ flying (sr_flight q) x
}.

Lemma ack_off_member s x : 0 <= x < ack_off s -> member (rs_iter (sb_acked s)) x.
Proof.
  unfold ack_off. destruct (rs_iter (sb_acked s)) as [|[[|p|p] e] l]; try lia. intros. rewrite member_cons. by left.
Qed.
Lemma ack_off_bound q base : send_inv q base -> 0 <= ack_off (sr_buf q) <= zlen (sr_written q).
Proof.
  intros Hq. pose proof (zlen_nonneg (sr_written q)). split.
  - pose proof (si_set _ _ Hq) as (Hw & _). unfold ack_off. destruct (rs_iter _) as [|[[|p|p] e] l]; try lia. destruct Hw as (_ & ? & _). simpl in *. lia.
  - destruct (decide (ack_off (sr_buf q) <= zlen (sr_written q))); [done|].
    pose proof (ack_off_member (sr_buf q) (zlen (sr_written q)) ltac:(lia)) as Hm. apply (si_acked _ _ Hq), (si_acks _ _ Hq) in Hm. lia.
Qed.

Lemma as_usize_le v : 0 <= v -> 0 <= as_usize v <= v.
Proof.
  intros. unfold as_usize. assert (0 < 2 ^ usize_bits) by (destruct usize_bits_cases as [->| ->]; lia).
  pose proof (Z.mod_pos_bound v (2 ^ usize_bits)). pose proof (Z.mod_le v (2 ^ usize_bits)). lia.
Qed.

(** A reservation is for as much as the limit allows; one that may be the last
    is complete. *)
Lemma reserve_ok q base len fin : send_inv q base -> 0 <= len ->
  match reserve_for_write (sr_buf q) len fin with
  | Ok (s, reserved, fin') => 0 <= reserved <= len /\ reserved <= sb_max_data (sr_buf q) - sb_off (sr_buf q) /\
      (s = sr_buf q /\ fin' = false \/ s = set_fin (Some (sb_off (sr_buf q) + reserved)) (sr_buf q) /\ reserved = len /\ fin' = true /\ fin = true) /\
      (is_Some (sb_fin_off (sr_buf q)) -> reserved = 0)
  | Err _ => True
  | _ => False
  end.
Proof.
  intros Hq Hl. pose proof (ack_off_bound q base Hq) as Ha. pose proof (si_limit _ _ Hq). pose proof (si_off _ _ Hq) as Ho.
  unfold reserve_for_write, send_cap. rewrite (si_error _ _ Hq). cbn [obind]. pose proof (si_fin _ _ Hq) as Hf.
  pose proof (as_usize_le (sb_max_data (sr_buf q) - sb_off (sr_buf q)) ltac:(lia)) as Hcap.
  destruct (as_usize _ <? len) eqn:E; cbn [fst snd].
  - destruct (sb_fin_off (sr_buf q)) as [f|] eqn:Ef.
    + specialize (Hf f eq_refl). destruct (_ || _) eqn:E2; [done|]. lia.
    + destruct (_ <=? ack_off _) eqn:E2; split_and!; try lia; try (by left); try (by intros [? ?]).
  - destruct (match sb_fin_off (sr_buf q) with Some f => _ | None => _ end) eqn:E2; [done|].
    assert (is_Some (sb_fin_off (sr_buf q)) -> len = 0) as Hz.
    { intros [f Ef]. rewrite Ef in *. specialize (Hf f eq_refl). lia. }
    replace (ack_off (if fin then _ else _)) with (ack_off (sr_buf q)) by by destruct fin. destruct fin; destruct (_ <=? ack_off _) eqn:E3.
    1: assert (len = 0) as -> by lia.
    all: split; [lia|]; split; [lia|]; split; [first [by left|by right]|]; intros Hs; specialize (Hz Hs); lia.
Qed.

Lemma frame_ext W T a d fin : frame_of W a d fin -> (fin = true -> T = []) -> frame_of (W ++ T) a d fin.
Proof.
  intros (? & ? & Hd & Hf) HT. pose proof (zlen_nonneg T). pose proof (zlen_nonneg d). split_and!; try done; rewrite ?zlen_app; try lia.
  - by rewrite slice_ext.
  - intros Hx. rewrite (HT Hx), zlen_nil, (Hf Hx). lia.
Qed.

(** The end of the stream may be fixed at what is written. *)
Lemma set_fin_inv q base f : send_inv q base -> f = zlen (sr_written q) ->
  send_inv (mkSRun (set_fin (Some f) (sr_buf q)) (sr_written q) (sr_frames q) (sr_acks q) (sr_flight q)) base.
Proof.
  intros [] ->. split; simpl; try done.
  - by intros ? [= <-].
  - eapply Forall_impl; [|exact si_frames0]. simpl. intros a [? ?]. split; [done|eauto].
Qed.

(** New pieces at the end of the queue. *)
Lemma grow_inv q base new h s : send_inv q base -> sb_fin_off (sr_buf q) = None -> zlen (sr_written q) + zlen h <= sb_max_data (sr_buf q) ->
  s = sr_buf q \/ s = set_fin (Some (sb_off (sr_buf q) + zlen h)) (sr_buf q) ->
  chain (sr_written q ++ h) (zlen (sr_written q)) new (zlen (sr_written q) + zlen h) -> sum_len new = zlen h ->
  (forall x, pending new x <-> zlen (sr_written q) <= x < zlen (sr_written q) + zlen h) ->
  send_inv (mkSRun (set_queue (sb_data s ++ new) (sb_pos s) (sb_off s + zlen h) (sb_buffered s + zlen h) s) (sr_written q ++ h) (sr_frames q) (sr_acks q) (sr_flight q)) base.
Proof.
  intros [Hc Ho Hb He Hp Hs Hl Hr Hf Hfr Hset Ha Hk Hd Hkept] Hn Hlim Hs0 Hnew Hsum Hpend.
  assert (sb_data s = sb_data (sr_buf q) /\ sb_pos s = sb_pos (sr_buf q) /\ sb_off s = sb_off (sr_buf q) /\ sb_buffered s = sb_buffered (sr_buf q) /\
    sb_max_data s = sb_max_data (sr_buf q) /\ sb_error s = sb_error (sr_buf q) /\ sb_acked s = sb_acked (sr_buf q)) as (-> & -> & -> & -> & Em & Er & Ea) by (destruct Hs0 as [->| ->]; done).
  pose proof (zlen_nonneg h). split; simpl; rewrite ?zlen_app, ?Em, ?Er, ?Ea; try done; try lia.
  - apply chain_app. exists (zlen (sr_written q)). split; [by apply chain_ext|done].
  - by rewrite take_app_le.
  - rewrite length_app. lia.
  - rewrite sum_len_app. lia.
  - intros f. destruct Hs0 as [->| ->]; simpl; [by rewrite Hn|]. intros [= <-]. lia.
  - eapply Forall_impl; [|exact Hfr]. simpl. intros [[a d] fin] [? Hx]. simpl in *. rewrite Hn in Hx.
    assert (fin = true -> False) as Hno by (intros Hy; by destruct (Hx Hy)). split; [|by intros ?%Hno]. apply frame_ext; [done|]. by intros ?%Hno.
  - intros x Hx. specialize (Hk x Hx). lia.
  - intros x Hx. rewrite pending_app, Hpend. destruct (decide (x < zlen (sr_written q))); [|right; left; right; lia].
    destruct (Hkept x ltac:(lia)) as [?|[?|?]]; tauto.
Qed.

(** A write, with [bufs] the way its bytes are cut up. *)
Definition write_with (s : SendBuf) (len : Z) (fin : bool) (bufs : Z -> list bytes) : q_result (SendBuf * Z) :=
  let! '(s, reserved, fin) := reserve_for_write s len fin in
  if reserved =? 0 then Ok (s, 0) else let! s := release (append_all s reserved fin (bufs reserved)) in Ok (s, reserved).
Lemma write_with_inv q base data len fin bufs : send_inv q base -> 0 <= len <= zlen data ->
  (forall n, 0 < n <= len -> Forall (fun c => 0 < zlen c) (bufs n) /\ concat (bufs n) = ztake n data) ->
  exists q', wrote q data (write_with (sr_buf q) len fin bufs) = Ok q' /\ send_inv q' base.
Proof.
  intros Hq Hl Hb. pose proof (reserve_ok q base len fin Hq ltac:(lia)) as Hr. unfold write_with.
  destruct (reserve_for_write (sr_buf q) len fin) as [[[s n] fin']|e| |]; try done; [|by exists q]. destruct Hr as (Hn & Hcap & Hs & Hz). cbn [obind].
  pose proof (si_off _ _ Hq) as Ho. destruct (n =? 0) eqn:E.
  - eexists. split; [done|]. assert (n = 0) as -> by lia. change (ztake 0 data) with (@nil Z). rewrite app_nil_r.
    destruct Hs as [[-> _]|(-> & _)]; [by destruct q|]. apply set_fin_inv; [done|lia].
  - destruct (Hb n ltac:(lia)) as [Hpos Hcat]. assert (zlen (ztake n data) = n) as Hlen by (rewrite zlen_ztake; lia).
    assert (sb_off s = zlen (sr_written q)) as Hso by (destruct Hs as [[-> _]|(-> & _)]; done).
    destruct (append_all_ok (bufs n) (sr_written q) s n fin' Hpos Hso) as (new & -> & Hc & Hsum & Hpend); [by rewrite Hcat|].
    cbn [release obind]. eexists. split; [done|]. rewrite Hcat in Hc.
    pose proof (grow_inv q base new (ztake n data) s Hq) as G. rewrite Hlen in G. apply G; try done.
    + destruct (sb_fin_off (sr_buf q)) as [f|] eqn:Ef; [|done]. assert (n = 0) by (apply Hz; eauto). lia.
    + lia.
    + destruct Hs as [[-> _]|(-> & _)]; [by left|by right].
Qed.

Lemma write_inv q base data fin : send_inv q base -> exists q', send_step q (SWrite data fin) = Ok q' /\ send_inv q' base.
Proof.
  intros Hq. pose proof (zlen_nonneg data). apply (write_with_inv q base data (zlen data) fin (fun n => chunks (length (ztake n data)) SEND_BUFFER_SIZE (ztake n data)) Hq ltac:(lia)).
  intros n ?. destruct (concat_chunks (length (ztake n data)) SEND_BUFFER_SIZE (ztake n data)); [done|unfold SEND_BUFFER_SIZE; lia|done].
Qed.
Lemma append_inv q base data cap fin : send_inv q base -> 0 <= cap -> exists q', send_step q (SAppend data cap fin) = Ok q' /\ send_inv q' base.
Proof.
  intros Hq Hc. pose proof (zlen_nonneg data).
  destruct (write_with_inv q base data (Z.min cap (zlen data)) fin (fun n => [ztake n data]) Hq ltac:(lia)) as (q' & E & Hi).
  { intros n ?. simpl. rewrite app_nil_r. split; [|done]. constructor; [|done]. rewrite zlen_ztake. lia. }
  exists q'. split; [|done]. rewrite <- E. simpl. unfold append_buf, write_with. destruct (reserve_for_write _ _ _) as [[[s n] f]|e| |]; try done.
  cbn [obind]. destruct (n =? 0); [done|]. by destruct (release _).
Qed.

(** ** The other steps *)

Lemma empties_sum l : Forall (fun b => rb_is_empty b = true) l -> sum_len l = 0.
Proof. induction 1 as [|b l E _ IH]; simpl; [done|]. unfold rb_is_empty in E. lia. Qed.

(** Where handing out goes on, and that it does while there is something left. *)
Lemma front_bounds q base : send_inv q base -> 0 <= off_front (sr_buf q) <= zlen (sr_written q) /\
  (0 < sb_buffered (sr_buf q) -> off_front (sr_buf q) < zlen (sr_written q)).
Proof.
  intros [Hc Ho Hb He Hp Hs Hl _ _ _ _ _ _ _ _]. pose proof Hc as Hc'. rewrite <- (take_drop (sb_pos (sr_buf q)) (sb_data (sr_buf q))) in Hc'.
  apply chain_app in Hc' as (mid & H1 & H2). pose proof (chain_bounds _ _ _ _ H1) as [? _]. pose proof (chain_bounds _ _ _ _ H2) as [? Hf].
  unfold off_front. rewrite Ho. destruct (front_spec _ _ _ _ H2) as [[-> Hall]|(es & b & rest & Ed & _ & _ & -> & ?)].
  - split; [lia|]. rewrite Hs, <- (take_drop (sb_pos (sr_buf q)) (sb_data _)), sum_len_app, !empties_sum by done. lia.
  - rewrite Ed in Hf. apply Forall_app in Hf as [_ Hf]. apply Forall_cons_iff in Hf as [(Hcell & ? & ?) _]. apply cell_piece in Hcell. unfold rb_max_off in *. lia.
Qed.

Lemma emit_inv q base n : send_inv q base -> 0 <= n ->
  exists q' out fin, send_step q (SEmit n) = Ok q' /\ send_inv q' base /\ sr_written q' = sr_written q /\
    sr_frames q' = sr_frames q ++ [(off_front (sr_buf q), out, fin)] /\ zlen out <= n /\
    sb_buffered (sr_buf q') = sb_buffered (sr_buf q) - zlen out /\ (0 < n -> 0 < sb_buffered (sr_buf q) -> 0 < zlen out).
Proof.
  intros Hq Hn. pose proof (front_bounds q base Hq) as [Hfr Hprog0]. destruct Hq as [Hc Ho Hb He Hp Hs Hl Hr Hf Hfs Hset Ha Hk Hd Hkept].
  unfold send_step, send_emit. set (s := sr_buf q) in *. set (a := off_front s) in *. rewrite <- Ho in Hc.
  destruct (emit_loop_ok (sr_written q) base (drop (sb_pos s) (sb_data s)) (S (length (sb_data s) - sb_pos s)) s (take (sb_pos s) (sb_data s)) n a [])
    as (r & m & -> & Hm & (data' & pos' & -> & Hc' & He' & Hp' & Hs' & Hlen' & Hle & Hx) & Hprog); try done; try lia.
  { by rewrite take_drop. } { rewrite length_take. lia. } { rewrite length_drop. lia. }
  cbn [obind]. assert (zlen (slice (sr_written q) a (a + m)) = m) as Hz by (rewrite zlen_slice; lia). simpl app.
  eexists _, _, _. split; [done|]. rewrite Hz. cbn [sr_buf sr_written sr_frames sb_buffered set_queue].
  split_and!; try done; try lia; [|intros ? Hbuf; specialize (Hprog0 Hbuf); rewrite Hz; apply Hprog; done || lia].
  split; cbn [sr_buf sr_written sr_frames sr_acks sr_flight sb_data sb_pos sb_off sb_buffered sb_max_data sb_error sb_fin_off sb_acked set_queue]; try done; try lia.
  - by rewrite Ho in Hc'.
  - apply Forall_app. split; [done|]. constructor; [|done]. simpl. split; [|intros Hb'%bool_decide_eq_true; by rewrite Hb'].
    split_and!; rewrite ?Hz; try done; try lia. intros Hb'%bool_decide_eq_true. by apply Hf.
  - intros x Hx'. destruct (Hkept x Hx') as [?|[?|?]]; [by left| |right; right; by right].
    destruct (decide (a <= x < a + m)); [right; right; by left|]. right. left. apply Hx. by split.
Qed.

(** Pieces that are acknowledged to their end are dropped. *)
Lemma drop_inv q base : send_inv q base -> let n := acked_pieces (ack_off (sr_buf q)) (sb_data (sr_buf q)) in
  let dropped := sum_len (take n (sb_data (sr_buf q))) in
  exists base', base <= base' /\
    send_inv (mkSRun (set_queue (drop n (sb_data (sr_buf q))) (sb_pos (sr_buf q) - n) (sb_off (sr_buf q)) (Z.max 0 (sb_buffered (sr_buf q) - dropped)) (sr_buf q))
                (sr_written q) (sr_frames q) (sr_acks q) (sr_flight q)) base'.
Proof.
  intros Hq n dropped. destruct (acked_pieces_ok _ (ack_off (sr_buf q)) _ _ _ (si_chain _ _ Hq)) as (base' & Hc & Hle & Hb & Hn & Hx). fold n in Hc, Hn, Hx.
  exists base'. split; [done|]. assert (forall x, 0 <= x < base' -> acked_by (sr_acks q) x) as Hdrop.
  { intros x ?. destruct Hb as [->|?]; [by apply (si_dropped _ _ Hq)|]. apply (si_acked _ _ Hq), ack_off_member. lia. }
  pose proof (sum_len_nonneg _ _ _ _ Hc) as Hnn. pose proof (si_sum _ _ Hq) as Hsum. rewrite <- (take_drop n (sb_data (sr_buf q))), sum_len_app in Hsum.
  destruct Hq. split; simpl; try done; try lia.
  - by apply take_drop_empties.
  - rewrite length_drop. lia.
  - intros x ?. destruct (si_kept0 x ltac:(done)) as [?|[?|?]]; [by left| |tauto]. destruct (Hx x ltac:(done)); [tauto|]. left. apply Hdrop. lia.
Qed.

Lemma ack_inv q base i : send_inv q base -> exists q' base', send_step q (SAcked i) = Ok q' /\ send_inv q' base' /\ base <= base' /\
  sr_written q' = sr_written q /\ sr_frames q' = sr_frames q.
Proof.
  intros Hq. unfold send_step. destruct (sr_frames q !! i) as [[[a d] fin]|] eqn:E; [|exists q, base; by split_and!; try lia].
  assert (frame_of (sr_written q) a d fin) as (Ha0 & Ha1 & _ & _).
  { pose proof (si_frames _ _ Hq) as Hf. rewrite Forall_lookup in Hf. by apply (Hf i _ E). }
  pose proof (zlen_nonneg d). unfold ack_and_drop, send_ack.
  destruct (rs_insert_ok (sb_acked (sr_buf q)) (a, a + zlen d) (si_set _ _ Hq)) as (t & -> & Hset & Hcap & Hiter); [simpl; lia|done|]. cbn [lift_set obind].
  match goal with |- context [ack_off ?s1] => set (s' := s1) end.
  assert (forall x, member (rs_iter t) x -> acked_by ((a, a + zlen d) :: sr_acks q) x) as Hm.
  { intros x. rewrite Hiter. intros Hx. pose proof (si_set _ _ Hq) as (Hw & Hc & Hl & _).
    unfold acked_by. rewrite Exists_cons. destruct (spec_sound (rs_capacity (sb_acked (sr_buf q))) (rs_iter (sb_acked (sr_buf q))) (a, a + zlen d)) as (_ & _ & _ & Hsub);
      try done; [simpl; lia|unfold MAX_INLINE_CAPACITY in Hc; lia|]. destruct (Hsub x Hx) as [?|?]; [by left|right]. by apply (si_acked _ _ Hq). }
  assert (send_inv (mkSRun s' (sr_written q) (sr_frames q) ((a, a + zlen d) :: sr_acks q) (sr_flight q)) base) as Hq'.
  { destruct Hq. split; simpl; try done.
    - intros x [?|?]%Exists_cons; [simpl in *; lia|]. by apply si_acks0.
    - intros x ?. right. by apply si_dropped0.
    - intros x ?. destruct (si_kept0 x ltac:(done)) as [?|?]; [left; by right|by right]. }
  destruct (is_empty (sb_data s')); [|destruct (ack_off s' <? a)]; cbn [obind].
  - eexists _, base. split; [done|]. by split_and!; try lia.
  - eexists _, base. split; [done|]. by split_and!; try lia.
  - destruct (drop_inv _ _ Hq') as (base' & ? & Hd). eexists _, base'. split; [done|]. split; [exact Hd|]. by split_and!.
Qed.

Lemma retransmit_pos (first : option nat) pos (data l : list RangeBuf) :
  match first with None => data = l | Some j => (0 <= j)%nat /\ take (j - 0) data = take (j - 0) l end ->
  Forall (fun b => rb_is_empty b = true) (take pos l) ->
  Forall (fun b => rb_is_empty b = true) (take (match first with Some i => Nat.min pos i | None => pos end) data).
Proof.
  destruct first as [j|]; [|by intros ->]. rewrite Nat.sub_0_r. intros [_ E] H.
  rewrite <- take_take, E, take_take, Nat.min_comm, <- take_take. by apply Forall_take.
Qed.
Lemma lost_inv q base i : send_inv q base -> exists q', send_step q (SLost i) = Ok q' /\ send_inv q' base /\ sr_written q' = sr_written q /\ sr_frames q' = sr_frames q.
Proof.
  intros Hq. unfold send_step. destruct (sr_frames q !! i) as [[[a d] fin]|] eqn:E; [|exists q; by split_and!].
  assert (frame_of (sr_written q) a d fin) as (Ha0 & Ha1 & _ & _).
  { pose proof (si_frames _ _ Hq) as Hf. rewrite Forall_lookup in Hf. by apply (Hf i _ E). }
  pose proof (zlen_nonneg d). unfold retransmit.
  assert (forall s' : SendBuf, send_inv (mkSRun s' (sr_written q) (sr_frames q) (sr_acks q) (sr_flight q)) base ->
    (forall x, a <= x < a + zlen d -> acked_by (sr_acks q) x \/ pending (sb_data s') x) ->
    send_inv (mkSRun s' (sr_written q) (sr_frames q) (sr_acks q) ((false, a, a + zlen d) :: sr_flight q)) base) as Hfly.
  { intros s' [] Hlost. split; simpl in *; try done. intros x Hx. destruct (decide (a <= x < a + zlen d)) as [Hin|]; [destruct (Hlost x Hin); tauto|].
    destruct (si_kept0 x Hx) as [?|[?|?]]; tauto. }
  assert (mkSRun (sr_buf q) (sr_written q) (sr_frames q) (sr_acks q) (sr_flight q) = q) as Eq by by destruct q.
  pose proof (si_chain _ _ Hq) as Hc. destruct (is_empty (sb_data (sr_buf q))) eqn:Ee; [|destruct (a + zlen d <=? ack_off (sr_buf q)) eqn:Ea]; cbn [obind].
  - eexists. split; [done|]. split_and!; try done. apply Hfly; [by rewrite Eq|]. intros x ?. left. apply (si_dropped _ _ Hq).
    destruct (sb_data (sr_buf q)); [|done]. simpl in Hc. lia.
  - eexists. split; [done|]. split_and!; try done. apply Hfly; [by rewrite Eq|]. intros x ?. left. apply (si_acked _ _ Hq), ack_off_member. lia.
  - destruct (retransmit_loop_ok (sr_written q) a (a + zlen d) base _ _ 0 Hc ltac:(lia)) as (data & first & n & -> & Hc' & ? & Hs & Hlen & Hfirst & Hx). cbn [obind].
    eexists. split; [done|]. split_and!; try done. apply Hfly.
    + pose proof (retransmit_pos first (sb_pos (sr_buf q)) data (sb_data (sr_buf q)) Hfirst (si_empty _ _ Hq)) as He. destruct Hq. split; simpl; try done.
      * destruct first; lia.
      * lia.
      * intros x ?. rewrite Hx. destruct (si_kept0 x ltac:(done)) as [?|[?|?]]; tauto.
    + intros x ?. simpl. rewrite Hx. destruct (decide (x < base)); [left; apply (si_dropped _ _ Hq); lia|right; right; lia].
Qed.

Lemma send_step_inv q base ev : send_inv q base -> send_ev_ok ev -> exists q' base', send_step q ev = Ok q' /\ send_inv q' base'.
Proof.
  intros Hq Hev. destruct ev as [d fin|d cap fin|n|i|i|m].
  - destruct (write_inv q base d fin Hq) as (q' & ? & ?). eauto.
  - destruct (append_inv q base d cap fin Hq Hev) as (q' & ? & ?). eauto.
  - destruct (emit_inv q base n Hq Hev) as (q' & out & fin & ? & ? & _). eauto.
  - destruct (ack_inv q base i Hq) as (q' & base' & ? & ? & _). eauto.
  - destruct (lost_inv q base i Hq) as (q' & ? & ? & _). eauto.
  - eexists _, base. split; [done|]. destruct Hq. split; simpl; try done. lia.
Qed.
Lemma send_run_inv q base evs : send_inv q base -> Forall send_ev_ok evs -> exists q' base', send_run q evs = Ok q' /\ send_inv q' base'.
Proof.
  intros Hq H. revert q base Hq. induction H as [|ev evs Hev _ IH]; intros q base Hq; [by exists q, base|].
  destruct (send_step_inv q base ev Hq Hev) as (q1 & b1 & E & Hq1). destruct (IH q1 b1 Hq1) as (q2 & b2 & E2 & Hq2).
  exists q2, b2. simpl. by rewrite E.
Qed.
Lemma send_start_inv max_data : 0 <= max_data -> send_inv (send_start max_data) 0.
Proof.
  intros. assert (forall x, member [] x -> False) as Hm by (intros x Hx; by apply Exists_nil in Hx).
  assert (forall x, acked_by [] x -> False) as Ha by (intros x Hx; by apply Exists_nil in Hx).
  split; simpl; try done; try (by intros x ?%Hm); try (by intros x ?%Ha); try lia;
    [|intros x Hx; change (zlen (@nil Z)) with 0 in Hx; lia].
  unfold rs_ok, rs_default, rs_len, MAX_INLINE_CAPACITY. simpl. rewrite zlen_nil. unfold usize_max.
  split_and!; try done; destruct usize_bits_cases as [->| ->]; lia.
Qed.

End History.

(** C10: the sending half of a stream sends what was written, and forgets none of
    it.  Whatever is written, handed out into packets of whatever size,
    acknowledged or lost, in whatever order: no operation fails on its own
    state; every frame holds bytes of the stream at their place, within the
    limit of the peer, and only a frame that reaches the end of a finished
    stream says so; every byte written is acknowledged, or waiting to be
    handed out, or under way since it was last reported lost; and while bytes
    are waiting, handing out makes a frame with one of them at least and
    leaves as many fewer. *)
Theorem send_buffer_sound `{Target} max_data evs : 0 <= max_data -> Forall send_ev_ok evs ->
  exists q, send_run (send_start max_data) evs = Ok q /\
    Forall (fun f => frame_of (sr_written q) f.1.1 f.1.2 f.2) (sr_frames q) /\ zlen (sr_written q) <= sb_max_data (sr_buf q) /\
    (forall x, 0 <= x < zlen (sr_written q) -> acked_by (sr_acks q) x \/ pending (sb_data (sr_buf q)) x \/ flying (sr_flight q) x) /\
    sb_buffered (sr_buf q) = sum_len (sb_data (sr_buf q)) /\
    forall n, 0 < n -> 0 < sb_buffered (sr_buf q) -> exists q' out fin, send_step q (SEmit n) = Ok q' /\
      sr_frames q' = sr_frames q ++ [(off_front (sr_buf q), out, fin)] /\ 0 < zlen out <= n /\
      sb_buffered (sr_buf q') = sb_buffered (sr_buf q) - zlen out.
Proof.
  intros Hm Hev. destruct (send_run_inv _ _ evs (send_start_inv max_data Hm) Hev) as (q & base & E & Hq). exists q. split_and!; try by destruct Hq.
  - eapply Forall_impl; [|exact (si_frames _ _ Hq)]. by intros f [? _].
  - intros n Hn Hb. destruct (emit_inv q base n Hq ltac:(lia)) as (q' & out & fin & ? & _ & _ & ? & ? & ? & Hp). exists q', out, fin. split_and!; try done. auto.
Qed.
Lemma send_buffer_sound_witness :
  let evs := [SWrite [1; 2; 3; 4; 5; 6] true; SEmit 2; SEmit 3; SAcked 1; SLost 0] in
  exists q, @send_run target64 (@send_start target64 100) evs = Ok q /\ sr_frames q = [(0, [1; 2], false); (2, [3; 4; 5], false)] /\
    exists q', @send_step target64 q (SEmit 10) = Ok q' /\ sr_frames q' = [(0, [1; 2], false); (2, [3; 4; 5], false); (0, [1; 2], false)].
Proof.
  intros evs. destruct (@send_buffer_sound target64 100 evs) as (q & E & _ & _ & _ & _ & Hp); [lia|repeat constructor; simpl; lia|].
  exists q. assert (E1 := E). vm_compute in E1. injection E1 as <-. split; [exact E|]. split; [reflexivity|].
  destruct (Hp 10) as (q' & out & fin & E' & _); [lia|vm_compute; reflexivity|]. exists q'. assert (E2 := E'). vm_compute in E2. injection E2 as <-.
  split; [exact E'|reflexivity].
Defined.

(** ** From one end to the other *)

(** What a step does to the limit and, once the end is fixed, to the stream. *)
Definition keeps (s s' : SendBuf) : Prop := sb_max_data s' = sb_max_data s /\ sb_fin_off s' = sb_fin_off s.
Lemma append_all_keeps bufs : forall s reserved fin s' n, append_all s reserved fin bufs = Ok (s', n) -> keeps s s'.
Proof.
  induction bufs as [|b bufs IH]; intros s reserved fin s' n E; simpl in E; [by simplify_eq|].
  apply obind_Ok in E as ([s1 n1] & E1 & E). destruct (IH _ _ _ _ _ E) as [K1 K2]. unfold keeps. rewrite K1, K2. revert E1. unfold reserve_append.
  destruct (_ <? _); [done|]. by intros [= <- _].
Qed.
Lemma emit_loop_keeps fuel : forall s n next out s' m out', emit_loop fuel s n next out = Ok (s', m, out') -> keeps s s'.
Proof.
  induction fuel as [|fuel IH]; intros s n next out s' m out' E; simpl in E; [done|].
  destruct (n <=? 0); [by simplify_eq|]. destruct (_ || _); [by simplify_eq|]. destruct (sb_data s !! sb_pos s) as [b|]; [|by simplify_eq].
  destruct (rb_is_empty b); [by destruct (IH _ _ _ _ _ _ _ E)|]. destruct (_ <? rb_len b); [by simplify_eq|]. by destruct (IH _ _ _ _ _ _ _ E).
Qed.
Lemma ack_keeps off len s s' n : ack_and_drop off len s = Ok (s', n) -> keeps s s'.
Proof.
  unfold ack_and_drop, send_ack. intros E. apply obind_Ok in E as (s1 & E1 & E). apply obind_Ok in E1 as (t & _ & E1). simplify_eq.
  destruct (is_empty _); [by simplify_eq|]. destruct (_ <? off); by simplify_eq.
Qed.
Lemma retransmit_keeps off len s s' n : retransmit off len s = Ok (s', n) -> keeps s s'.
Proof.
  unfold retransmit. intros E. destruct (is_empty _); [by simplify_eq|]. destruct (_ <=? _); [by simplify_eq|].
  apply obind_Ok in E as ([[data first] m] & _ & E). by simplify_eq.
Qed.

Section Ends.
Context {tgt : Target}.

(** The stream grows at its end, not after its end was fixed, and the limit is
    moved only by the peer. *)
Definition grows (m : Z) (q q' : SendRun) : Prop :=
  sb_max_data (sr_buf q') = m /\ exists new, sr_written q' = sr_written q ++ new /\
    (is_Some (sb_fin_off (sr_buf q)) -> new = [] /\ is_Some (sb_fin_off (sr_buf q'))).

Lemma write_grows q base data len fin bufs q' : send_inv q base -> 0 <= len ->
  wrote q data (write_with (sr_buf q) len fin bufs) = Ok q' -> grows (sb_max_data (sr_buf q)) q q'.
Proof.
  intros Hq Hl E. pose proof (reserve_ok q base len fin Hq Hl) as Hr. revert E. unfold write_with.
  assert (grows (sb_max_data (sr_buf q)) q q) as Hrefl by (split; [done|exists []; by rewrite app_nil_r]).
  destruct (reserve_for_write (sr_buf q) len fin) as [[[s n] fin']|e| |]; try done; [|by intros [= <-]]. destruct Hr as (Hn & _ & Hs & Hz).
  assert (sb_max_data s = sb_max_data (sr_buf q)) as Hm by (destruct Hs as [[-> _]|(-> & _)]; done). cbn [obind].
  destruct (n =? 0) eqn:E0.
  - intros [= <-]. assert (n = 0) as -> by lia. split; [done|]. exists []. split; [done|]. intros Hf. split; [done|].
    destruct Hs as [[-> _]|(-> & _)]; simpl; eauto.
  - destruct (append_all s n fin' (bufs n)) as [[s1 n1]|e| |] eqn:Ea; simpl; try done; [|by intros [= <-]].
    destruct (append_all_keeps _ _ _ _ _ _ Ea) as [Hm1 _]. destruct (n1 =? 0); simpl; [|done]. intros [= <-].
    split; [simpl; congruence|]. eexists. split; [done|]. intros Hf. specialize (Hz Hf). lia.
Qed.

Lemma step_grows q base ev q' : send_inv q base -> send_ev_ok ev -> send_step q ev = Ok q' ->
  grows (match ev with SLimit m => Z.max (sb_max_data (sr_buf q)) m | _ => sb_max_data (sr_buf q) end) q q'.
Proof.
  intros Hq Hev. assert (forall q1, keeps (sr_buf q) (sr_buf q1) -> sr_written q1 = sr_written q -> grows (sb_max_data (sr_buf q)) q q1) as Hk.
  { intros q1 [Hm Hf] Hw. split; [done|]. exists []. rewrite app_nil_r, Hf. by split. }
  destruct ev as [d fin|d cap fin|n|i|i|m]; simpl.
  - intros E. by eapply (write_grows q base d (zlen d) fin (fun n => chunks (length (ztake n d)) SEND_BUFFER_SIZE (ztake n d))); [|apply zlen_nonneg|].
  - simpl in Hev. intros E. pose proof (zlen_nonneg d). eapply (write_grows q base d (Z.min cap (zlen d)) fin (fun n => [ztake n d])); [done|lia|].
    rewrite <- E. unfold append_buf, write_with. destruct (reserve_for_write _ _ _) as [[[s n] f]|e| |]; try done.
    cbn [obind]. destruct (n =? 0); [done|]. by destruct (release _).
  - intros E. apply obind_Ok in E as ([[s out] fin] & E1 & E). simplify_eq. apply Hk; [|done]. unfold send_emit in E1.
    apply obind_Ok in E1 as ([[s1 m] o] & E1 & E2). simplify_eq. by destruct (emit_loop_keeps _ _ _ _ _ _ _ _ E1).
  - destruct (sr_frames q !! i) as [[[a d] f]|]; [|intros [= <-]; by apply Hk]. intros E. apply obind_Ok in E as ([s n] & E1 & E).
    simplify_eq. apply Hk; [by eapply ack_keeps|done].
  - destruct (sr_frames q !! i) as [[[a d] f]|]; [|intros [= <-]; by apply Hk]. intros E. apply obind_Ok in E as ([s n] & E1 & E).
    simplify_eq. apply Hk; [by eapply retransmit_keeps|done].
  - intros [= <-]. split; [done|]. exists []. rewrite app_nil_r. by split.
Qed.

(** Both halves of a stream, and what may happen to them: a limit reaches the
    writer only after the reader granted it, and a frame reaches the reader
    only after the writer made it. *)
Inductive stream_event : Type := Writer (ev : send_event) | Reader (ev : recv_event).
Definition stream_step (c : SendRun * RecvRun) (ev : stream_event) : q_result (SendRun * RecvRun) :=
  match ev with
  | Writer ev => let! q := send_step c.1 ev in Ok (q, c.2)
  | Reader ev => let! r := recv_step c.2 ev in Ok (c.1, r)
  end.
Fixpoint stream_run (c : SendRun * RecvRun) (evs : list stream_event) : q_result (SendRun * RecvRun) :=
  match evs with [] => Ok c | ev :: evs => let! c := stream_step c ev in stream_run c evs end.
Definition stream_allowed (c : SendRun * RecvRun) (ev : stream_event) : Prop :=
  match ev with
  | Writer (SLimit m) => m <= fc_max_data (rv_flow (rr_buf c.2))
  | Writer ev => send_ev_ok ev
  | Reader (Frame off data fin) => In (off, data, fin) (sr_frames c.1)
  | Reader (Read cap) => 0 <= cap
  | Reader _ => True
  end.
Fixpoint stream_allowed_run (c : SendRun * RecvRun) (evs : list stream_event) : Prop :=
  match evs with
  | [] => True
  | ev :: evs => stream_allowed c ev /\ match stream_step c ev with Ok c => stream_allowed_run c evs | _ => True end
  end.
Definition reader_events (evs : list stream_event) : list recv_event :=
  omap (fun ev => match ev with Reader ev => Some ev | _ => None end) evs.

(** The writer keeps within what the reader granted, and whatever the writer
    may still append, the reader is on the way to it. *)
Record stream_inv (c : SendRun * RecvRun) (base : Z) (evs : list recv_event) : Prop := mkStreamInv {
  st_send : send_inv c.1 base;
  st_limit : sb_max_data (sr_buf c.1) <= fc_max_data (rv_flow (rr_buf c.2));
  st_recv new : (is_Some (sb_fin_off (sr_buf c.1)) -> new = []) -> run_inv (sr_written c.1 ++ new) 0 c.2 evs
}.

Lemma writer_step c base evs ev : stream_inv c base evs -> stream_allowed c (Writer ev) ->
  exists c' base', stream_step c (Writer ev) = Ok c' /\ stream_inv c' base' evs.
Proof.
  intros [Hs Hl Hr] Ha. assert (send_ev_ok ev) as Hev by by destruct ev.
  destruct (send_step_inv (c.1) base ev Hs Hev) as (q & base' & E & Hq). destruct (step_grows _ _ _ _ Hs Hev E) as [Hm (new & Hw & Hf)].
  exists (q, c.2), base'. split; [simpl; by rewrite E|]. split; simpl; [done|rewrite Hm; destruct ev; simpl in *; lia|].
  intros more Hmore. rewrite Hw, <- app_assoc. apply Hr. intros Hx. destruct (Hf Hx) as [-> Hy]. by rewrite Hmore.
Qed.

Lemma run_inv_weaken S limit limit' q evs : run_inv S limit q evs -> limit' <= fc_max_data (rv_flow (rr_buf q)) -> run_inv S limit' q evs.
Proof. intros [Hi Hf Hd He (Hw & Hlim & Hcons & Hlen) Ho Hend Hst Hkn] Hl. by split. Qed.

Lemma reader_step c base evs ev : stream_inv c base evs -> stream_allowed c (Reader ev) ->
  exists c', stream_step c (Reader ev) = Ok c' /\ stream_inv c' base (evs ++ [ev]).
Proof.
  intros [Hs Hl Hr] Ha. set (granted := fc_max_data (rv_flow (rr_buf c.2))) in *.
  assert (forall new, (is_Some (sb_fin_off (sr_buf c.1)) -> new = []) ->
    exists r, recv_step (c.2) ev = Ok r /\ run_inv (sr_written c.1 ++ new) granted r (evs ++ [ev])) as Hstep.
  { intros new Hnew. apply step_inv; [by apply (run_inv_weaken _ 0), Z.le_refl; apply Hr|].
    destruct ev as [off data fin|cap|now|now rtt]; simpl in *; try done.
    pose proof (si_frames _ _ Hs) as Hf. rewrite Forall_forall in Hf. destruct (Hf _ Ha) as [Hfr Hx]. simpl in *.
    split; [apply frame_ext; [done|auto]|]. pose proof (si_limit _ _ Hs). destruct Hfr as (_ & ? & _). lia. }
  destruct (Hstep [] ltac:(done)) as (r & E & Hi). exists (c.1, r). split; [simpl; by rewrite E|].
  split; simpl; [done|destruct (rn_flow _ _ _ _ Hi); lia|].
  intros new Hnew. destruct (Hstep new Hnew) as (r' & E' & Hi'). rewrite E in E'. injection E' as <-.
  apply (run_inv_weaken _ _ _ _ _ Hi'). destruct (rn_flow _ _ _ _ Hi') as ((? & _) & _). lia.
Qed.

Lemma stream_inv_run evs : forall c base done_, stream_inv c base done_ -> stream_allowed_run c evs ->
  exists c' base', stream_run c evs = Ok c' /\ stream_inv c' base' (done_ ++ reader_events evs).
Proof.
  induction evs as [|ev evs IH]; intros c base done_ Hc Ha; simpl in *; [exists c, base; by rewrite app_nil_r|]. destruct Ha as [Ha Hrest].
  destruct ev as [ev|ev].
  - destruct (writer_step c base done_ ev Hc Ha) as (c1 & base1 & E & Hc1). simpl in E, Hrest |- *. rewrite E in Hrest |- *. by eapply IH.
  - destruct (reader_step c base done_ ev Hc Ha) as (c1 & E & Hc1). simpl in E, Hrest |- *. rewrite E in Hrest |- *. simpl.
    destruct (IH _ _ _ Hc1 Hrest) as (c2 & base2 & E2 & Hc2). exists c2, base2. split; [done|]. by rewrite <- app_assoc in Hc2.
Qed.
End Ends.

(** C5: a QUIC stream is a reliable pipe.  Let an application write to the
    sending half, with packets made, acknowledged and lost in any order, let
    the receiving half get any of the frames made so far, in any order and any
    number of times, and be read in any way, and let the sender learn of any
    limit the receiver has granted so far, all interleaved in any way, from
    the same initial limit on.  Then no step fails, nothing sent is refused,
    what was read is the beginning of what was written, and all of it when the
    reader is told that it was the end; and once every byte written has
    arrived in some frame, one more read into a large enough buffer gives the
    reader all that was written. *)
Theorem quic_stream_reliable `{Target} limit window max_window evs :
  0 <= limit -> 0 <= window -> 0 <= max_window -> stream_allowed_run (send_start limit, recv_start limit window max_window) evs ->
  exists q r, stream_run (send_start limit, recv_start limit window max_window) evs = Ok (q, r) /\
    sb_max_data (sr_buf q) <= fc_max_data (rv_flow (rr_buf r)) /\ rr_out r = ztake (zlen (rr_out r)) (sr_written q) /\
    (rr_fin r = true -> rr_out r = sr_written q) /\
    forall cap, (forall x, 0 <= x < zlen (sr_written q) -> Exists (brings x) (reader_events evs)) -> zlen (sr_written q) < cap ->
      exists r', recv_step r (Read cap) = Ok r' /\ rr_out r' = sr_written q.
Proof.
  intros Hl Hw Hmw Ha. destruct (stream_inv_run evs (send_start limit, recv_start limit window max_window) 0 []) as ([q r] & base & E & [Hq Hlim Hr]); [|done|].
  - split; simpl; [by apply send_start_inv|done|]. intros new _. apply (run_inv_weaken _ limit); [by apply start_run_inv|done].
  - simpl in *. specialize (Hr [] ltac:(done)). rewrite app_nil_r in Hr. exists q, r. pose proof (zlen_nonneg (sr_written q)).
    destruct (run_inv_prefix _ _ _ _ Hr) as (P1 & P2 & P3). rewrite P2. split_and!; try done; [intros Hx; apply P3; by eapply rn_end|].
    intros cap Hall Hcap. destruct (run_inv_complete _ _ _ _ (zlen (sr_written q)) cap Hr Hall Hcap) as (r' & Er' & Hn & Hi).
    exists r'. split; [done|]. destruct (run_inv_prefix _ _ _ _ Hi) as (_ & Q2 & Q3). apply Q3. pose proof (rn_inv _ _ _ _ Hi) as [_ ? ? _ _ _]. lia.
Qed.
Lemma quic_stream_reliable_witness :
  let evs := [Writer (SWrite [1; 2; 3; 4] false); Writer (SEmit 2); Writer (SEmit 9); Writer (SLost 0); Writer (SEmit 4);
              Reader (Frame 2 [3] false); Reader (Frame 0 [1; 2] false); Reader (Read 9); Reader (Grant 0); Writer (SLimit 5);
              Writer (SWrite [4; 5] true); Writer (SEmit 9); Reader (Frame 3 [4; 5] true)] in
  exists q r, @stream_run target64 (@send_start target64 3, recv_start 3 2 8) evs = Ok (q, r) /\
    sr_frames q = [(0, [1; 2], false); (2, [3], false); (0, [1; 2], false); (3, [4; 5], true)] /\ rr_out r = [1; 2; 3] /\
    exists r', recv_step r (Read 6) = Ok r' /\ rr_out r' = [1; 2; 3; 4; 5].
Proof.
  intros evs. destruct (@quic_stream_reliable target64 3 2 8 evs) as (q & r & E & _ & _ & _ & Hr); [lia..| |].
  - vm_compute. intuition discriminate.
  - exists q, r. assert (E1 := E). vm_compute in E1. injection E1 as <- <-. split; [exact E|]. split; [reflexivity|]. split; [reflexivity|].
    destruct (Hr 6) as (r' & Er' & Ho); [|vm_compute; reflexivity|exists r'; split; [exact Er'|exact Ho]].
    intros x Hx. change (0 <= x < 5) in Hx. change (reader_events evs) with [Frame 2 [3] false; Frame 0 [1; 2] false; Read 9; Grant 0; Frame 3 [4; 5] true].
    destruct (decide (x < 2)); [|destruct (decide (x < 3))].
    + apply Exists_cons_tl, Exists_cons_hd. unfold brings, zlen. simpl. lia.
    + apply Exists_cons_hd. unfold brings, zlen. simpl. lia.
    + do 4 apply Exists_cons_tl. apply Exists_cons_hd. unfold brings, zlen. simpl. lia.
Defined.
