(* ===== verification/QExchange.v ===== *)
(** * From a packet's frames to the peer

    Models how lib.rs of quiche makes a packet and how it takes one apart: of
    [send_single] the header, the packet number, the frames, the stream data
    that is copied straight into the packet, the padding, the length field and
    the protection; of [recv_single] the steps from the bytes of a datagram to
    the frames of a packet. *)

From S2P Require Import Prelude Octets QRanges QBuffers QSend QCodec QPacket QProtect QKeys QFrame.
From Stdlib Require Import ZArith Lia ZifyBool.
From stdpp Require Import base list numbers option decidable.
Open Scope Z_scope.
Open Scope codec_scope.

Definition PAYLOAD_MIN_LEN : Z := 4.
Definition PAYLOAD_LENGTH_LEN : Z := 2.

(** ** Sending *)

Definition m_skip (n : Z) : writer := fun b => if m_cap b <? n then Err EBufferTooShort else Ok (mkOctetsMut (m_buf b) (m_off b + n)).

(** The header and the packet number, with the places of the length field and
    of the payload, and the room that is left. *)
Definition begin_packet (h : Header) (pn crypto_overhead left : Z) (b : OctetsMut) : q_result (OctetsMut * Z * Z * Z) :=
  let pn_len := h_pkt_num_len h in
  let! b := hdr_to_bytes h b in
  let overhead := m_off b + pn_len + crypto_overhead in
  let overhead := if decide (h_ty h = Short) then overhead else overhead + PAYLOAD_LENGTH_LEN in
  if left <? overhead then Err EDone
  else
    let left := left - overhead in
    if left <? PAYLOAD_MIN_LEN then Err EDone
    else
      let header_offset := m_off b in
      let! b := (if decide (h_ty h = Short) then wnop else m_skip PAYLOAD_LENGTH_LEN) b in
      let! b := encode_pkt_num pn pn_len b in
      Ok (b, left, header_offset, m_off b).

(** A frame whose data is written first, behind the place of its header: the
    packet is split there, [data] copied to the second part, and the header
    written to the end of the first. *)
Definition place_frame (hdr_len max_len : Z) (data : bytes) (hdr : writer) (b : OctetsMut) : q_result OctetsMut :=
  let mid := m_off b + hdr_len in
  if zlen (m_buf b) <? mid then Err EBufferTooShort
  else
    let payload := zdrop mid (m_buf b) in
    if zlen payload <? max_len then Panic
    else
      let payload := splice payload 0 data in
      let! first := (m_skip (m_off b) >>> hdr) (mkOctetsMut (ztake mid (m_buf b)) 0) in
      m_skip (hdr_len + zlen data) (mkOctetsMut (m_buf first ++ payload) (m_off b)).

(** The STREAM frame of a stream; [None] when not even its header fits. *)
Definition push_stream (stream_id : Z) (s : SendBuf) (b : OctetsMut) (left : Z) (frames : list frame) :
  q_result (SendBuf * option (OctetsMut * Z * list frame)) :=
  let stream_off := off_front s in
  let! n := varint_lens [stream_id; stream_off] in
  let hdr_len := 1 + n + 2 in
  if left <? hdr_len then Ok (s, None)
  else
    let max_len := left - hdr_len in
    let! '(s, data, fin) := send_emit max_len s in
    let! b := place_frame hdr_len max_len data (encode_stream_header stream_id stream_off (zlen data) fin) b in
    let! '(b, left, frames, _) := push_frame (StreamHeader stream_id stream_off (zlen data) fin) b left frames in
    Ok (s, Some (b, left, frames)).
(** The CRYPTO frame of a handshake stream. *)
Definition push_crypto (s : SendBuf) (b : OctetsMut) (left : Z) (frames : list frame) :
  q_result (SendBuf * option (OctetsMut * Z * list frame)) :=
  let crypto_off := off_front s in
  let! n := varint_lens [crypto_off] in
  let hdr_len := 1 + n + 2 in
  if left <? hdr_len then Ok (s, None)
  else
    let max_len := left - hdr_len in
    let! '(s, data, _) := send_emit max_len s in
    let! b := place_frame hdr_len max_len data (encode_crypto_header crypto_off (zlen data)) b in
    let! '(b, left, frames, _) := push_frame (CryptoHeader crypto_off (zlen data)) b left frames in
    Ok (s, Some (b, left, frames)).
(** The loop over the datagrams waiting to be sent: one that fits is sent, one
    that can never fit is dropped, and the first other one ends the loop. *)
Fixpoint push_dgrams (fuel : nat) (max_dgram_payload : Z) (q : DatagramQueue) (b : OctetsMut) (left : Z) (frames : list frame) :
  q_result (DatagramQueue * OctetsMut * Z * list frame) :=
  match fuel with
  | O => OutOfFuel
  | S fuel =>
      match peek_front_len q with
      | None => Ok (q, b, left, frames)
      | Some len =>
          let hdr_len := 1 + 2 in
          if hdr_len + len <=? left then
            match dq_pop q with
            | None => push_dgrams fuel max_dgram_payload q b left frames
            | Some (data, q) =>
                let! b := place_frame hdr_len len data (encode_dgram_header len) b in
                let! '(b, left, frames, _) := push_frame (DatagramHeader len) b left frames in
                push_dgrams fuel max_dgram_payload q b left frames
            end
          else if max_dgram_payload <? len then
            match dq_pop q with
            | None => push_dgrams fuel max_dgram_payload q b left frames
            | Some (_, q) => push_dgrams fuel max_dgram_payload q b left frames
            end
          else Ok (q, b, left, frames)
      end
  end.

(** The padding of a whole datagram ([fill]: an Initial packet precedes in the
    datagram, or the peer's address is not validated), the smallest payload, the
    length field and the protection. *)
Definition finish_packet `{BoringSSL} (k : Keys) (h : Header) (pn : Z) (fill : bool) (left header_offset payload_offset : Z) (frames : list frame) (b : OctetsMut) :
  q_result (bytes * Z * list frame) :=
  if is_empty frames then Err EDone
  else
    let pn_len := h_pkt_num_len h in
    let! '(b, left, frames, _) :=
      if fill && bool_decide (h_ty h = Short) && (1 <=? left) then push_frame (Padding left) b left frames else Ok (b, left, frames, true) in
    let! '(b, left, frames, _) :=
      if m_off b - payload_offset <? PAYLOAD_MIN_LEN
      then push_frame (Padding (PAYLOAD_MIN_LEN - (m_off b - payload_offset))) b left frames
      else Ok (b, left, frames, true) in
    let payload_len := m_off b - payload_offset in
    let! buf :=
      if decide (h_ty h = Short) then Ok (m_buf b)
      else
        let len := pn_len + payload_len + tag_len (k_alg k) in
        if zlen (m_buf b) <? header_offset then Err EBufferTooShort
        else let! p := w_varint2 len (mkOctetsMut (zdrop header_offset (m_buf b)) 0) in Ok (ztake header_offset (m_buf b) ++ m_buf p) in
    let! '(buf, written) := encrypt_pkt k buf pn pn_len payload_len payload_offset in
    Ok (buf, written, frames).

Definition push_stream_of (st : option (Z * SendBuf)) (b : OctetsMut) (left : Z) (frames : list frame) :
  q_result (option SendBuf * (OctetsMut * Z * list frame)) :=
  match st with
  | None => Ok (None, (b, left, frames))
  | Some (stream_id, s) =>
      let! '(s, r) := push_stream stream_id s b left frames in
      Ok (Some s, match r with Some r => r | None => (b, left, frames) end)
  end.
(** A packet with the frames [fs] and the data of at most one stream. *)
Definition build_packet `{BoringSSL} (k : Keys) (h : Header) (pn : Z) (fill : bool) (left : Z) (out : bytes) (fs : list frame) (st : option (Z * SendBuf)) :
  q_result (bytes * Z * list frame * option SendBuf) :=
  let! '(b, left, header_offset, payload_offset) := begin_packet h pn (tag_len (k_alg k)) left (with_slice_mut out) in
  let! '(b, left, frames) := push_all fs b left [] in
  let! '(s, (b, left, frames)) := push_stream_of st b left frames in
  let! '(buf, written, frames) := finish_packet k h pn fill left header_offset payload_offset frames b in
  Ok (buf, written, frames, s).

(** ** Receiving *)

Definition drop_pkt_on_err (e : q_error) (recv_count : Z) (is_server : bool) : q_error :=
  if is_server && (recv_count =? 0) then e else EDone.

Definition MAX_UNDECRYPTABLE_PACKETS : Z := 10.
(** The part of a connection that packets are opened with.  [rx_dcid_len] is the
    length of this end's connection identifiers. *)
Record RxConn : Type := mkRx {
  rx_version : Z; rx_is_server : bool; rx_recv_count : Z; rx_dcid_len : Z; rx_established : bool; rx_handshake_confirmed : bool; rx_key_phase : bool;
  rx_derived_initial_secrets : bool; rx_space : Epoch -> PktNumSpace; rx_crypto_ctx : Epoch -> CryptoContext; rx_undecryptable_pkts : list bytes
}.
#[export] Instance Epoch_eq_dec : EqDecision Epoch.
Proof. solve_decision. Defined.
Definition set_crypto (e : Epoch) (ctx : CryptoContext) (phase : bool) (c : RxConn) : RxConn :=
  mkRx (rx_version c) (rx_is_server c) (rx_recv_count c) (rx_dcid_len c) (rx_established c) (rx_handshake_confirmed c) phase (rx_derived_initial_secrets c)
    (rx_space c) (fun e' => if decide (e' = e) then ctx else rx_crypto_ctx c e') (rx_undecryptable_pkts c).
Definition hold_packet (pkt : bytes) (c : RxConn) : RxConn :=
  mkRx (rx_version c) (rx_is_server c) (rx_recv_count c) (rx_dcid_len c) (rx_established c) (rx_handshake_confirmed c) (rx_key_phase c) (rx_derived_initial_secrets c)
    (rx_space c) (rx_crypto_ctx c) (rx_undecryptable_pkts c ++ [pkt]).
Definition initial_derived (open seal : Aead) (c : RxConn) : RxConn :=
  let old := rx_crypto_ctx c EpInitial in
  mkRx (rx_version c) (rx_is_server c) (rx_recv_count c) (rx_dcid_len c) (rx_established c) (rx_handshake_confirmed c) (rx_key_phase c) true
    (rx_space c) (fun e => if decide (e = EpInitial) then mkCrypto (cc_key_update old) (Some open) (Some seal) (cc_0rtt_open old) else rx_crypto_ctx c e) (rx_undecryptable_pkts c).
Definition dropped {A} (c : RxConn) (m : q_result A) : q_result A := map_err (fun e => drop_pkt_on_err e (rx_recv_count c) (rx_is_server c)) m.

(** The header of a packet that is neither a Retry nor a Version Negotiation,
    after the version was agreed on, and how many bytes follow it. *)
Definition read_header `{Target} (c : RxConn) (buf : bytes) : q_result (Header * Octets * Z) :=
  let! '(hdr, o) := dropped c (hdr_from_bytes (rx_dcid_len c) (with_slice buf)) in
  if negb (bool_decide (h_ty hdr = Short)) && negb (h_version hdr =? rx_version c) then Err EDone
  else
    let! '(payload_len, o) := if decide (h_ty hdr = Short) then Ok (o_cap o, o) else dropped c ((let* n := r_varint in rret (as_usize n)) o) in
    if o_cap o <? payload_len then Err (drop_pkt_on_err EInvalidPacket (rx_recv_count c) (rx_is_server c))
    else Ok (hdr, o, payload_len).
Definition derive_initial `{Hkdf} (hdr : Header) (c : RxConn) : q_result RxConn :=
  if rx_derived_initial_secrets c then Ok c
  else let! '(open, seal) := derive_initial_key_material (h_dcid hdr) (rx_version c) (rx_is_server c) false in Ok (initial_derived open seal c).
Definition base_key (ctx : CryptoContext) (ty : PktType) : option Aead := if decide (ty = ZeroRTT) then cc_0rtt_open ctx else cc_open ctx.

(** A packet that waits for its key, or its number, header and payload. *)
Inductive opened : Type := Held (pkt_len : Z) | Opened (pn : Z) (hdr : Header) (payload : bytes).
(** [path] finds the path a packet came on, and [timer] is three times the
    probe timeout from now. *)
Definition decrypt_packet `{BoringSSL} `{Hkdf} (c : RxConn) (path : Header -> q_result Z) (timer : Z) (buf : bytes) (hdr : Header) (o : Octets) (payload_len : Z) :
  q_result (RxConn * opened) :=
  let! epoch := to_epoch (h_ty hdr) in
  let ctx := rx_crypto_ctx c epoch in
  match base_key ctx (h_ty hdr) with
  | None =>
      if bool_decide (h_ty hdr = ZeroRTT) && (zlen (rx_undecryptable_pkts c) <? MAX_UNDECRYPTABLE_PACKETS) && negb (rx_established c) then
        let pkt_len := o_off o + payload_len in
        let! pkt := idx_range buf 0 pkt_len in Ok (hold_packet pkt c, Held pkt_len)
      else Err (drop_pkt_on_err ECryptoFail (rx_recv_count c) (rx_is_server c))
  | Some aead =>
      let! '(b, hdr) := dropped c (decrypt_hdr (ad_keys aead) (mkOctetsMut buf (o_off o)) hdr) in
      let pn := decode_pkt_num (ps_largest_rx (rx_space c epoch)) (h_pkt_num hdr) (h_pkt_num_len hdr) in
      let! '(payload, ctx, key_phase) := with_key ctx (rx_handshake_confirmed c) (rx_key_phase c) hdr pn timer aead (fun aead =>
        let! payload := dropped c (decrypt_pkt (ad_keys aead) b pn (h_pkt_num_len hdr) payload_len) in
        if pw_contains pn (ps_window (rx_space c epoch)) then Err EDone
        else if zlen payload =? 0 then Err EInvalidPacket
        else let! _ := path hdr in Ok payload) in
      Ok (set_crypto epoch ctx key_phase c, Opened pn hdr payload)
  end.
Definition open_packet `{BoringSSL} `{Hkdf} `{Target} (c : RxConn) (path : Header -> q_result Z) (timer : Z) (buf : bytes) : RxConn * q_result opened :=
  match read_header c buf with
  | Ok (hdr, o, payload_len) =>
      match derive_initial hdr c with
      | Ok c => match decrypt_packet c path timer buf hdr o payload_len with
                | Ok (c, x) => (c, Ok x)
                | Err e => (c, Err e)
                | Panic => (c, Panic)
                | OutOfFuel => (c, OutOfFuel)
                end
      | Err e => (c, Err e)
      | Panic => (c, Panic)
      | OutOfFuel => (c, OutOfFuel)
      end
  | Err e => (c, Err e)
  | Panic => (c, Panic)
  | OutOfFuel => (c, OutOfFuel)
  end.

(** ** Data that is written before its header *)

Lemma skip_spec n p r : 0 <= n <= zlen r -> m_skip n (mkOctetsMut (p ++ r) (zlen p)) = Ok (mkOctetsMut ((p ++ ztake n r) ++ zdrop n r) (zlen (p ++ ztake n r))).
Proof.
  intros Hn. unfold m_skip, m_cap. cbn [m_buf m_off]. rewrite zlen_app. replace (_ <? n) with false by lia.
  rewrite <- app_assoc, ztake_zdrop, zlen_app, zlen_ztake. do 2 f_equal. lia.
Qed.

(** It ends up as if it had been written after it. *)
Lemma place_spec p r max_len data hdr hb : writes hdr hb -> zlen data <= max_len -> zlen hb + max_len <= zlen r ->
  place_frame (zlen hb) max_len data hdr (mkOctetsMut (p ++ r) (zlen p)) =
  Ok (mkOctetsMut ((p ++ hb ++ data) ++ zdrop (zlen (hb ++ data)) r) (zlen (p ++ hb ++ data))).
Proof.
  intros Hw Hd Hr. pose proof (zlen_nonneg p). pose proof (zlen_nonneg hb). pose proof (zlen_nonneg data). unfold place_frame. cbn [m_buf m_off].
  rewrite zlen_app. replace (_ <? _) with false by lia. rewrite zdrop_app_ge, ztake_app_ge by lia. replace (zlen p + zlen hb - zlen p) with (zlen hb) by lia.
  rewrite zlen_zdrop. replace (_ <? max_len) with false by lia. unfold wseq.
  change (mkOctetsMut (p ++ ztake (zlen hb) r) 0) with (mkOctetsMut ([] ++ (p ++ ztake (zlen hb) r)) (zlen (@nil Z))).
  rewrite skip_spec by (rewrite zlen_app; pose proof (zlen_nonneg (ztake (zlen hb) r)); lia). cbn [app obind].
  rewrite ztake_app_length, zdrop_app_length by done. rewrite Hw by (rewrite zlen_ztake; lia). cbn [obind m_buf].
  rewrite (zdrop_all (ztake (zlen hb) r)) by (rewrite zlen_ztake; lia). rewrite app_nil_r. unfold splice. change (ztake 0 (zdrop (zlen hb) r)) with (@nil Z).
  cbn [app]. rewrite zdrop_zdrop by lia. rewrite <- app_assoc. rewrite skip_spec.
  - rewrite (app_assoc hb). rewrite ztake_app_length, zdrop_app_length by (by rewrite zlen_app).
    by rewrite (zlen_app hb), Z.add_0_l.
  - rewrite !zlen_app. pose proof (zlen_nonneg (zdrop (zlen hb + (0 + zlen data)) r)). lia.
Qed.

Lemma stream_header_writes i off len fin : is_varint i -> is_varint off -> 0 <= len <= 16383 ->
  writes (encode_stream_header i off len fin) (enc_all [if fin then 0x0f else 0x0e; i; off] ++ enc_varint2 len).
Proof. intros. unfold encode_stream_header. cbn [enc_all]. rewrite app_nil_r, <- !app_assoc. destruct fin; writes_all. Qed.
Lemma crypto_header_writes off len : is_varint off -> 0 <= len <= 16383 -> writes (encode_crypto_header off len) (enc_all [0x06; off] ++ enc_varint2 len).
Proof. intros. unfold encode_crypto_header. cbn [enc_all]. rewrite app_nil_r, <- !app_assoc. writes_all. Qed.

(** The frame a stream puts into a packet. *)
Definition stream_frame (i off : Z) (data : bytes) (fin : bool) : frame := Stream i (rb_from data off fin).
Lemma stream_frame_bytes i off data fin : frame_bytes (stream_frame i off data fin) = (enc_all [if fin then 0x0f else 0x0e; i; off] ++ enc_varint2 (zlen data)) ++ data.
Proof. unfold stream_frame, frame_bytes. destruct (rb_from_view data off fin) as [-> ->]. unfold rb_len. cbn [rb_from rb_fin rb_len_ rb_pos rb_start]. by rewrite Z.sub_0_r. Qed.
Lemma stream_frame_ok i off data fin : is_varint i -> 0 <= off -> off + zlen data < 2 ^ 62 -> zlen data <= 16383 -> frame_ok (stream_frame i off data fin).
Proof.
  intros Hi Ho Hs Hl. pose proof (zlen_nonneg data). unfold stream_frame, frame_ok. destruct (rb_from_view data off fin) as [_ ->].
  assert (rb_len (rb_from data off fin) = zlen data) as -> by (unfold rb_len; cbn; lia). split_and!; try done; unfold rb_wf; cbn; lia.
Qed.
Lemma push_stream_spec i s s' data fin p r left frames : is_varint i -> is_varint (off_front s) -> left <= zlen r -> left <= 16383 ->
  (forall n, 0 <= n -> n <= left -> exists s' data fin, send_emit n s = Ok (s', data, fin) /\ zlen data <= n) ->
  send_emit (left - (3 + zlen (enc_all [i; off_front s]))) s = Ok (s', data, fin) -> 3 + zlen (enc_all [i; off_front s]) <= left ->
  let w := frame_bytes (stream_frame i (off_front s) data fin) in
  push_stream i s (mkOctetsMut (p ++ r) (zlen p)) left frames =
  Ok (s', Some (mkOctetsMut ((p ++ w) ++ zdrop (zlen w) r) (zlen (p ++ w)), left - zlen w, frames ++ [StreamHeader i (off_front s) (zlen data) fin])) /\ zlen w <= left.
Proof.
  intros Hi Ho Hr Hl He E Hfit w. unfold push_stream. rewrite lens_spec by (repeat constructor; apply Hi || apply Ho). cbn [obind].
  set (hl := zlen (enc_all [i; off_front s])) in *. replace (left <? _) with false by lia. replace (1 + hl + 2) with (3 + hl) by lia.
  assert (0 <= hl) by apply zlen_nonneg. destruct (He (left - (3 + hl)) ltac:(lia) ltac:(lia)) as (s1 & d1 & f1 & E1 & Hd). rewrite E in E1. injection E1 as <- <- <-.
  rewrite E. cbn [obind]. pose proof (zlen_nonneg data). set (hb := enc_all [if fin then 0x0f else 0x0e; i; off_front s] ++ enc_varint2 (zlen data)).
  assert (zlen hb = 3 + hl) as Hhb.
  { unfold hb, hl. rewrite zlen_app, zlen_enc2. cbn [enc_all]. rewrite !zlen_app, (zlen_enc1 (if fin then _ else _)) by (destruct fin; lia). lia. }
  assert (w = hb ++ data) as Ew by (unfold w; apply stream_frame_bytes).
  rewrite <- Hhb at 1. rewrite (place_spec p r _ data _ hb); [|by apply stream_header_writes; [..|lia]|lia|lia]. cbn [obind]. rewrite <- Ew.
  unfold push_frame, wire_len. rewrite (wire_lens _ _ (zlen w)); [|repeat constructor; apply Hi || apply Ho|rewrite Ew, zlen_app, Hhb; unfold hl; lia].
  cbn [obind]. assert (zlen w <= left) as Hw by (rewrite Ew, zlen_app; lia). rewrite (proj2 (Z.leb_le (zlen w) left)) by lia. cbn [frame_to_bytes wnop obind]. done.
Qed.

(** ** Making a packet *)

(** The length field: two bytes in a long header, none in a short one. *)
Definition len_field (h : Header) (n : Z) : bytes := if decide (h_ty h = Short) then [] else enc_varint2 n.
Definition field_len (h : Header) : Z := if decide (h_ty h = Short) then 0 else 2.
Lemma zlen_len_field h n : zlen (len_field h n) = field_len h.
Proof. unfold len_field, field_len. destruct (decide _); [done|apply zlen_enc2]. Qed.

Lemma pkt_num_writes pn n : 1 <= n <= 4 -> writes (encode_pkt_num pn n) (to_be (Z.to_nat n) pn).
Proof.
  intros Hn. assert (n = 1 \/ n = 2 \/ n = 3 \/ n = 4) as [-> |[-> |[-> | ->]]] by lia;
    [apply (writes_u 1); lia|apply (writes_u 2); lia| |apply (writes_u 4); lia].
  change (writes (w_u 3 (as_u32 pn)) (to_be 3 pn)). assert (to_be 3 pn = to_be 3 (as_u32 pn)) as ->; [|apply writes_u; lia].
  assert (forall m, 0 <= m <= 16 -> (pn / 2 ^ m) mod 256 = (as_u32 pn / 2 ^ m) mod 256) as E.
  { intros m Hm. unfold as_u32. rewrite <- !Z.shiftr_div_pow2 by lia. apply Z.bits_inj'. intros i Hi. change 256 with (2 ^ 8).
    destruct (decide (i < 8)); [|rewrite !Z.mod_pow2_bits_high by lia; done]. rewrite !Z.mod_pow2_bits_low, !Z.shiftr_spec, Z.mod_pow2_bits_low by lia. done. }
  cbn [to_be]. f_equal; [apply (E 16); lia|]. f_equal; [apply (E 8); lia|]. f_equal. apply (E 0). lia.
Qed.

Lemma begin_spec `{Target} dcid_len h pn left out : hdr_ok dcid_len h -> 1 <= h_pkt_num_len h <= 4 -> left <= zlen out ->
  zlen (hdr_bytes h) + h_pkt_num_len h + 16 + field_len h + PAYLOAD_MIN_LEN <= left ->
  exists gap r, zlen gap = field_len h /\ let H0 := hdr_bytes h ++ gap ++ to_be (Z.to_nat (h_pkt_num_len h)) pn in
    let left' := left - (zlen (hdr_bytes h) + h_pkt_num_len h + 16 + field_len h) in
    begin_packet h pn 16 left (with_slice_mut out) = Ok (mkOctetsMut (H0 ++ r) (zlen H0), left', zlen (hdr_bytes h), zlen H0) /\ left' + 16 <= zlen r.
Proof.
  intros Hh Hn Hl Hr. set (hb := hdr_bytes h) in *. set (n := h_pkt_num_len h) in *. pose proof (zlen_nonneg hb). unfold PAYLOAD_MIN_LEN in *.
  assert (0 <= field_len h <= 2) by (unfold field_len; destruct (decide _); lia).
  set (gap := ztake (field_len h) (zdrop (zlen hb) out)). set (r := zdrop (zlen hb + field_len h + n) out). exists gap, r.
  assert (zlen gap = field_len h) as Hg by (unfold gap; rewrite zlen_ztake, zlen_zdrop; lia). split; [done|]. cbv zeta.
  unfold begin_packet, with_slice_mut. change (mkOctetsMut out 0) with (mkOctetsMut ([] ++ out) (zlen (@nil Z))). rewrite (hdr_writes dcid_len h Hh) by (fold hb; lia).
  fold hb n. cbn [obind app m_off]. unfold PAYLOAD_LENGTH_LEN, PAYLOAD_MIN_LEN.
  replace (if decide (h_ty h = Short) then zlen hb + n + 16 else zlen hb + n + 16 + 2) with (zlen hb + n + 16 + field_len h) by (unfold field_len; destruct (decide _); lia).
  replace (left <? _) with false by lia. replace (_ <? 4) with false by lia.
  assert ((if decide (h_ty h = Short) then wnop else m_skip 2) (mkOctetsMut (hb ++ zdrop (zlen hb) out) (zlen hb)) =
    Ok (mkOctetsMut ((hb ++ gap) ++ zdrop (zlen hb + field_len h) out) (zlen (hb ++ gap)))) as ->.
  { unfold gap, field_len in *. destruct (decide _).
    - unfold wnop, ztake. cbn [take Z.to_nat]. by rewrite app_nil_r, Z.add_0_r.
    - rewrite skip_spec by (rewrite zlen_zdrop; lia). by rewrite zdrop_zdrop by lia. }
  cbn [obind]. rewrite pkt_num_writes by (done || rewrite zlen_to_be, zlen_zdrop; lia). cbn [obind m_off]. rewrite zlen_to_be, Z2Nat.id by lia.
  rewrite zdrop_zdrop by lia. fold r. rewrite <- !app_assoc. split; [done|]. unfold r. rewrite zlen_zdrop. lia.
Qed.

Lemma first_low h : 1 <= h_pkt_num_len h <= 4 -> Z.land (hdr_first h) PKT_NUM_MASK + 1 = h_pkt_num_len h.
Proof.
  intros Hn. unfold hdr_first. assert (h_pkt_num_len h = 1 \/ h_pkt_num_len h = 2 \/ h_pkt_num_len h = 3 \/ h_pkt_num_len h = 4) as [-> |[-> |[-> | ->]]] by lia;
    destruct (h_ty h), (h_key_phase h); reflexivity.
Qed.
(** The padding of a packet with [left] bytes of room. *)
Definition pad_of (fill : bool) (h : Header) (left : Z) (body : bytes) : list frame :=
  if fill && bool_decide (h_ty h = Short) && (1 <=? left) then [Padding left]
  else if zlen body <? PAYLOAD_MIN_LEN then [Padding (PAYLOAD_MIN_LEN - zlen body)] else [].
Lemma zlen_pad n : 0 <= n -> zlen (frames_bytes [Padding n]) = n.
Proof. intros. unfold frames_bytes. cbn [map concat frame_bytes]. rewrite app_nil_r, zlen_replicate. lia. Qed.
Lemma pad_ok fill h left body : 0 <= left -> PAYLOAD_MIN_LEN - zlen body <= left ->
  Forall frame_ok (pad_of fill h left body) /\ PAYLOAD_MIN_LEN <= zlen (body ++ frames_bytes (pad_of fill h left body)) <= zlen body + left.
Proof.
  unfold pad_of, PAYLOAD_MIN_LEN. intros H0 Hl. pose proof (zlen_nonneg body). destruct (_ && (1 <=? left)) eqn:Ef; [|destruct (Z.ltb_spec (zlen body) 4)];
    rewrite zlen_app, ?zlen_pad by lia; (split; [repeat constructor; simpl; lia|]); try lia. unfold frames_bytes. simpl. change (zlen (@nil Z)) with 0. lia.
Qed.

(** One of the two paddings of [finish_packet]. *)
Lemma pad_step hd body r left frames n : 1 <= n <= left -> left + 16 <= zlen r ->
  push_frame (Padding n) (mkOctetsMut ((hd ++ body) ++ r) (zlen (hd ++ body))) left frames =
  Ok (mkOctetsMut ((hd ++ (body ++ frames_bytes [Padding n])) ++ zdrop n r) (zlen (hd ++ (body ++ frames_bytes [Padding n]))), left - n, frames ++ [Padding n], true).
Proof.
  intros Hn Hr. rewrite push_spec by (simpl; lia). unfold frames_bytes. cbn [map concat frame_bytes]. rewrite app_nil_r, zlen_replicate, Z2Nat.id by lia.
  replace (_ <=? left) with true by lia. by rewrite <- !app_assoc.
Qed.
Lemma pad_push fill h hd body r left frames : 0 <= left -> left + 16 <= zlen r -> PAYLOAD_MIN_LEN - zlen body <= left ->
  exists r' left', (let! '(b, left, frames, _) :=
      if fill && bool_decide (h_ty h = Short) && (1 <=? left) then push_frame (Padding left) (mkOctetsMut ((hd ++ body) ++ r) (zlen (hd ++ body))) left frames
      else Ok (mkOctetsMut ((hd ++ body) ++ r) (zlen (hd ++ body)), left, frames, true) in
    if m_off b - zlen hd <? PAYLOAD_MIN_LEN then push_frame (Padding (PAYLOAD_MIN_LEN - (m_off b - zlen hd))) b left frames else Ok (b, left, frames, true)) =
   Ok (mkOctetsMut (hd ++ (body ++ frames_bytes (pad_of fill h left body)) ++ r') (zlen hd + zlen (body ++ frames_bytes (pad_of fill h left body))), left', frames ++ pad_of fill h left body, true) /\ 16 <= zlen r'.
Proof.
  intros Hl0 Hr Hp. pose proof (zlen_nonneg body). unfold pad_of, PAYLOAD_MIN_LEN in *. destruct (_ && (1 <=? left)) eqn:Ef.
  - rewrite pad_step by lia. cbn [obind m_off]. rewrite zlen_app. replace (zlen hd + _ - zlen hd <? 4) with false by (rewrite zlen_app, zlen_pad by lia; lia).
    eexists _, _. rewrite <- app_assoc. split; [done|]. rewrite zlen_zdrop. lia.
  - cbn [obind m_off]. replace (zlen (hd ++ body) - zlen hd) with (zlen body) by (rewrite zlen_app; lia). destruct (Z.ltb_spec (zlen body) 4).
    + rewrite pad_step by lia. eexists _, _. rewrite <- app_assoc, zlen_app. split; [done|]. rewrite zlen_zdrop. lia.
    + exists r, left. unfold frames_bytes. cbn [map concat]. rewrite !app_nil_r, <- app_assoc, zlen_app. split; [done|]. lia.
Qed.
Lemma fill_length h gap rest len : zlen gap = field_len h -> 0 <= len <= 16383 ->
  (if decide (h_ty h = Short) then Ok (hdr_bytes h ++ gap ++ rest)
   else if zlen (hdr_bytes h ++ gap ++ rest) <? zlen (hdr_bytes h) then Err EBufferTooShort
   else let! p := w_varint2 len (mkOctetsMut (zdrop (zlen (hdr_bytes h)) (hdr_bytes h ++ gap ++ rest)) 0) in
        Ok (ztake (zlen (hdr_bytes h)) (hdr_bytes h ++ gap ++ rest) ++ m_buf p)) = Ok (hdr_bytes h ++ len_field h len ++ rest).
Proof.
  intros Hg Hl. revert Hg. unfold len_field, field_len. destruct (decide (h_ty h = Short)); intros Hg; [by destruct gap|]. rewrite !zlen_app.
  pose proof (zlen_nonneg (hdr_bytes h)). pose proof (zlen_nonneg rest). replace (_ <? _) with false by lia.
  rewrite zdrop_app_length, ztake_app_length by done. change (mkOctetsMut (gap ++ rest) 0) with (mkOctetsMut ([] ++ (gap ++ rest)) (zlen (@nil Z))).
  rewrite writes_varint2 by (rewrite ?zlen_enc2, ?zlen_app; lia). cbn [obind m_buf app]. rewrite zlen_enc2, zdrop_app_length by done. done.
Qed.

Lemma obind_pair4 {A B C D E F} (m : outcome E (A * B * C * D)) (f : A -> B -> C -> D -> outcome E F) (x : F) :
  (let! '(a, b, c, d) := m in f a b c d) = Ok x -> exists a b c d, m = Ok (a, b, c, d) /\ f a b c d = Ok x.
Proof. destruct m as [[[[a b] c] d]| | |]; try done. intros E'. by exists a, b, c, d. Qed.

Section Packets.
Context `{Ciphers} `{Target}.
Context (k : Keys) (Hiv : zlen (k_iv k) = nonce_len (k_alg k)).

(** The bytes of a packet with the body [body]: its header is authenticated and
    then masked, and its body sealed. *)
Definition sealed (h : Header) (pn : Z) (body pkt : bytes) : Prop :=
  let pnb := to_be (Z.to_nat (h_pkt_num_len h)) pn in
  let mid := hdr_rest h ++ len_field h (h_pkt_num_len h + zlen body + 16) in
  exists m0 ms c, aead_seal (k_alg k) (k_key k) (make_nonce (k_iv k) pn) (hdr_first h :: mid ++ pnb) body = Some c /\
    zlen c = zlen body + 16 /\ new_mask k (sample_of (h_pkt_num_len h) c) = m0 :: ms /\ zlen ms = 4 /\
    pkt = (protect_first (hdr_first h) m0 :: mid ++ xor_bytes pnb ms) ++ c.

Lemma finish_spec h pn fill left gap body r frames : 1 <= h_pkt_num_len h <= 4 -> zlen gap = field_len h -> frames <> [] ->
  0 <= left -> left + 16 <= zlen r -> PAYLOAD_MIN_LEN - zlen body <= left -> h_pkt_num_len h + zlen body + left + 16 <= 16383 ->
  let hd := hdr_bytes h ++ gap ++ to_be (Z.to_nat (h_pkt_num_len h)) pn in
  exists buf pkt, finish_packet k h pn fill left (zlen (hdr_bytes h)) (zlen hd) frames (mkOctetsMut ((hd ++ body) ++ r) (zlen (hd ++ body))) =
      Ok (buf, zlen pkt, frames ++ pad_of fill h left body) /\
    ztake (zlen pkt) buf = pkt /\ sealed h pn (body ++ frames_bytes (pad_of fill h left body)) pkt.
Proof.
  intros Hn Hg Hf Hl0 Hr Hp Hm hd. unfold finish_packet. destruct frames as [|f frames]; [done|]. cbn [is_empty].
  destruct (pad_push fill h hd body r left (f :: frames) Hl0 Hr Hp) as (r' & left' & Epad & Hr'). destruct (pad_ok fill h left body Hl0 Hp) as [_ Hb].
  set (P := pad_of fill h left body) in *. apply obind_pair4 in Epad as (b1 & l1 & f1 & t1 & -> & Epad). cbn [obind]. rewrite Epad.
  cbn [obind m_off m_buf]. set (B := body ++ frames_bytes P) in *. replace (zlen hd + zlen B - zlen hd) with (zlen B) by lia.
  rewrite (tag_16 k Hiv). set (n := h_pkt_num_len h) in *. set (pnb := to_be (Z.to_nat n) pn) in *. assert (zlen pnb = n) as Hpn by (unfold pnb; rewrite zlen_to_be; lia).
  replace (hd ++ B ++ r') with (hdr_bytes h ++ gap ++ pnb ++ B ++ r') by (unfold hd; by rewrite <- !app_assoc). unfold PAYLOAD_MIN_LEN in *.
  rewrite fill_length by (done || lia). cbn [obind]. set (mid := hdr_rest h ++ len_field h (n + zlen B + 16)).
  replace (hdr_bytes h ++ _) with ((hdr_first h :: mid ++ pnb) ++ B ++ r') by (rewrite hdr_bytes_first; unfold mid; cbn [app]; by rewrite <- !app_assoc).
  destruct (encrypt_pkt_spec k Hiv (hdr_first h) mid pnb B r' pn) as (c & m0 & ms & Es & Hc & Em & Hms & E); [lia..|].
  assert (zlen (hdr_first h :: mid ++ pnb) = zlen hd) as Hz.
  { unfold hd, mid. rewrite hdr_bytes_first. cbn [app]. rewrite !zlen_cons, !zlen_app, zlen_len_field. fold pnb. lia. }
  rewrite Hpn in E, Em. rewrite <- Hz, E. cbn [obind]. set (pkt := (protect_first (hdr_first h) m0 :: mid ++ xor_bytes pnb ms) ++ c).
  assert (zlen pkt = zlen (hdr_first h :: mid ++ pnb) + (zlen B + 16)) as Hpk by (unfold pkt; rewrite zlen_app, !zlen_cons, !zlen_app, zlen_xor; lia).
  eexists _, pkt. split; [by rewrite Hpk|]. split; [rewrite (app_assoc _ c); by apply ztake_app_length|]. by exists m0, ms, c.
Qed.

(** ** Taking it apart *)

(** A packet of a header that the peer accepts, whose number it can tell. *)
Definition number_near (h : Header) (pn largest_rx : Z) : Prop := Z.abs (pn - (largest_rx + 1)) < 2 ^ (8 * h_pkt_num_len h - 1).
(** The header with what the protection hid. *)
Definition hdr_opened (h : Header) (pn : Z) : Header :=
  let s := hdr_seen h in
  mkHeader (h_ty s) (h_version s) (h_dcid s) (h_scid s) (pn mod 2 ^ (8 * h_pkt_num_len h)) (h_pkt_num_len h) (h_token s) (h_versions s)
    (if decide (h_ty h = Short) then h_key_phase h else false).

Lemma phase_bit h : 1 <= h_pkt_num_len h <= 4 -> h_ty h = Short -> negb (Z.land (hdr_first h) KEY_PHASE_BIT =? 0) = h_key_phase h.
Proof.
  intros Hn E. unfold hdr_first. rewrite E. assert (h_pkt_num_len h = 1 \/ h_pkt_num_len h = 2 \/ h_pkt_num_len h = 3 \/ h_pkt_num_len h = 4) as [-> |[-> |[-> | ->]]] by lia;
    destruct (h_key_phase h); reflexivity.
Qed.
Lemma hdr_seen_ty h : h_ty (hdr_seen h) = h_ty h /\ h_key_phase (hdr_seen h) = false.
Proof. unfold hdr_seen. destruct (h_ty h); done. Qed.
Lemma pn_value n pn : 1 <= n <= 4 -> of_be (to_be (Z.to_nat n) pn) = pn mod 2 ^ (8 * n).
Proof. intros. rewrite of_be_to_be, Z2Nat.id by lia. change 256 with (2 ^ 8). by rewrite <- Z.pow_mul_r by lia. Qed.

(** The header is read as it was sent, with its first byte masked. *)
Lemma read_header_spec c h f' X body more : hdr_ok (rx_dcid_len c) h -> same_kind f' (hdr_first h) -> h_ty h <> Retry -> (h_ty h = Short \/ h_version h = rx_version c) ->
  (h_ty h = Short -> more = []) -> zlen X + zlen body <= 16383 ->
  let buf := (f' :: hdr_rest h) ++ len_field h (zlen X + zlen body) ++ X ++ body ++ more in
  read_header c buf = Ok (hdr_seen h, mkOctets buf (zlen (f' :: hdr_rest h) + zlen (len_field h (zlen X + zlen body))), zlen X + zlen body).
Proof.
  intros Hh Hk Hre Hv Hmore Hmax buf. set (lf := len_field h _) in *. set (hr := hdr_rest h) in *. pose proof (zlen_nonneg X). pose proof (zlen_nonneg body). pose proof (zlen_nonneg more). unfold read_header.
  destruct (hdr_seen_ty h) as [Ety Eph]. pose proof (hdr_parses (rx_dcid_len c) h f' (lf ++ X ++ body ++ more) Hh Hk ltac:(done) []) as Hparse. cbn [app] in Hparse. fold hr in Hparse.
  unfold with_slice. change (mkOctets buf 0) with (mkOctets (f' :: hr ++ lf ++ X ++ body ++ more) (zlen (@nil Z))). rewrite Hparse. cbn [dropped map_err obind]. rewrite Ety.
  assert (h_ty h <> Short -> h_version (hdr_seen h) = h_version h) as Ev by (unfold hdr_seen; by destruct (h_ty h)).
  replace (negb (bool_decide (h_ty h = Short)) && negb (h_version (hdr_seen h) =? rx_version c)) with false; [|case_bool_decide; [done|destruct Hv as [|Hv]; [done|]; rewrite Ev, Hv, Z.eqb_refl by done; done]].
  set (o := mkOctets (f' :: hr ++ lf ++ X ++ body ++ more) (zlen (f' :: hr))).
  assert ((if decide (h_ty h = Short) then Ok (o_cap o, o) else dropped c ((let* v := r_varint in rret (as_usize v)) o)) =
    Ok (zlen X + zlen body, mkOctets buf (zlen (f' :: hr) + zlen lf))) as ->.
  { destruct (decide (h_ty h = Short)) as [E|E].
    - assert (lf = []) as Elf by (unfold lf, len_field; by rewrite decide_True). unfold o, o_cap, buf. rewrite (Hmore E), Elf. cbn [o_buf o_off app].
      rewrite !zlen_cons, !zlen_app. change (zlen (@nil Z)) with 0. do 2 f_equal; [lia|]. f_equal. lia.
    - assert (lf = enc_varint2 (zlen X + zlen body)) as Elf by (unfold lf, len_field; by rewrite decide_False). unfold o, buf. rewrite Elf.
      pose proof (parses_map _ as_usize _ _ _ (parses_varint2 (zlen X + zlen body) (X ++ body ++ more) ltac:(lia)) (f' :: hr)) as Hp.
      cbn [app] in *. rewrite Hp. cbn [dropped map_err]. rewrite as_usize_small by lia. do 3 f_equal; [by rewrite <- app_assoc|rewrite zlen_cons, zlen_app, zlen_cons; lia]. }
  cbn [obind]. unfold o_cap, buf. cbn [o_buf o_off]. rewrite !zlen_app. by replace (_ <? _) with false by lia.
Qed.
Lemma decrypt_hdr_same k' b hdr : k_alg k' = k_alg k -> k_hp k' = k_hp k -> decrypt_hdr k' b hdr = decrypt_hdr k b hdr.
Proof. intros Ea Eh. unfold decrypt_hdr, new_mask. by rewrite Ea, Eh. Qed.
(** A key that opens the packet leads to the same update. *)
Lemma with_key_open `{Hkdf} {A} ctx cf ph hdr pn timer a a' ctx' ph' (open : Aead -> q_result A) x :
  with_key ctx cf ph hdr pn timer a Ok = Ok (a', ctx', ph') -> open a' = Ok x -> with_key ctx cf ph hdr pn timer a open = Ok (x, ctx', ph').
Proof.
  unfold with_key. destruct (choose_key ctx cf ph hdr pn a) as [[a1 nx]| | |]; try done. cbn [obind]. destruct nx as [nx|].
  - destruct (update_keys ctx ph pn timer nx) as [[c1 p1]| | |]; try done. cbn [obind]. intros [= <- <- <-] ->. done.
  - intros [= <- <- <-] ->. done.
Qed.

(** The receiver of a packet: it agrees on the version, has the keys, after an
    update if the packet brings one, and did not have the packet before. *)
Record receptive `{Hkdf} (c : RxConn) (timer : Z) (h : Header) (pn : Z) (ep : Epoch) : Prop := mkReceptive {
  rp_epoch : to_epoch (h_ty h) = Ok ep;
  rp_version : h_ty h = Short \/ h_version h = rx_version c;
  rp_initial : rx_derived_initial_secrets c = true;
  rp_key : exists a a' ctx ph, base_key (rx_crypto_ctx c ep) (h_ty h) = Some a /\ k_alg (ad_keys a) = k_alg k /\ k_hp (ad_keys a) = k_hp k /\
    with_key (rx_crypto_ctx c ep) (rx_handshake_confirmed c) (rx_key_phase c) (hdr_opened h pn) pn timer a Ok = Ok (a', ctx, ph) /\ ad_keys a' = k;
  rp_fresh : pw_contains pn (ps_window (rx_space c ep)) = false
}.

Lemma open_sealed_packet `{Hkdf} c path pid timer h pn body pkt more ep : hdr_ok (rx_dcid_len c) h -> 1 <= h_pkt_num_len h <= 4 -> receptive c timer h pn ep ->
  0 <= ps_largest_rx (rx_space c ep) -> 0 <= pn < 2 ^ 62 -> number_near h pn (ps_largest_rx (rx_space c ep)) -> (h_ty h = Short -> more = []) -> path (hdr_opened h pn) = Ok pid ->
  PAYLOAD_MIN_LEN <= zlen body -> h_pkt_num_len h + zlen body + 16 <= 16383 -> sealed h pn body pkt ->
  exists c', open_packet c path timer (pkt ++ more) = (c', Ok (Opened pn (hdr_opened h pn) body)).
Proof.
  intros Hh Hn [He Hv Hi (a & a' & ctx & ph & Eb & Ea & Ehp & Ew & Ek) Hfr] Hl Hp Hnear Hmore Hpath Hmin Hmax (m0 & ms & ct & Es & Hc & Em & Hms & ->).
  set (n := h_pkt_num_len h) in *. set (pnb := to_be (Z.to_nat n) pn) in *. assert (zlen pnb = n) as Hpn by (unfold pnb; rewrite zlen_to_be; lia).
  set (f' := protect_first (hdr_first h) m0). set (X := xor_bytes pnb ms). assert (zlen X = n) as HX by (unfold X; rewrite zlen_xor; lia). destruct (hdr_seen_ty h) as [Ety Eph].
  pose proof (read_header_spec c h f' X ct more Hh (protect_kind _ _) ltac:(intros E; rewrite E in He; done) Hv Hmore ltac:(lia)) as Hread. cbv zeta in Hread.
  replace (zlen X + zlen ct) with (n + zlen body + 16) in Hread by lia. set (lf := len_field h (n + zlen body + 16)) in *. set (hr := hdr_rest h) in *. unfold open_packet, PAYLOAD_MIN_LEN in *.
  replace (((f' :: (hr ++ lf) ++ X) ++ ct) ++ more) with ((f' :: hr) ++ lf ++ X ++ ct ++ more) by (cbn [app]; by rewrite <- !app_assoc). rewrite Hread. unfold derive_initial. rewrite Hi.
  unfold decrypt_packet. rewrite Ety, He. cbn [obind]. rewrite Eb, (decrypt_hdr_same (ad_keys a)) by done. cbn [o_off].
  assert (mkOctetsMut ((f' :: hr) ++ lf ++ X ++ ct ++ more) (zlen (f' :: hr) + zlen lf) = mkOctetsMut (f' :: (hr ++ lf) ++ X ++ ct ++ more) (1 + zlen (hr ++ lf))) as ->.
  { cbn [app]. f_equal; [by rewrite <- !app_assoc|rewrite zlen_cons, zlen_app; lia]. }
  unfold f', X. rewrite <- Hpn in Em. rewrite (decrypt_hdr_spec k (hdr_first h) (hr ++ lf) pnb ct more _ m0 ms);
    [|lia|unfold SAMPLE_LEN, MAX_PKT_NUM_LEN; lia|rewrite Hpn; by apply first_low|done|done].
  cbn [dropped map_err obind h_pkt_num h_pkt_num_len h_ty]. rewrite Hpn.
  assert (of_be pnb = pn mod 2 ^ (8 * n)) as Epn by (apply pn_value; lia). rewrite Epn, decode_near by done. rewrite Ety, Eph.
  match goal with |- context [with_key _ _ _ ?hd _ _ _ _] => assert (hd = hdr_opened h pn) as -> end.
  { unfold hdr_opened. rewrite Ety. fold n. destruct (decide (h_ty h = Short)) as [E|E]; [by rewrite phase_bit|done]. }
  assert (mkOctetsMut (hdr_first h :: (hr ++ lf) ++ pnb ++ ct ++ more) (1 + zlen (hr ++ lf) + n) = mkOctetsMut ((hdr_first h :: (hr ++ lf) ++ pnb) ++ ct ++ more) (zlen (hdr_first h :: (hr ++ lf) ++ pnb))) as ->.
  { cbn [app]. f_equal; [by rewrite <- !app_assoc|rewrite zlen_cons, (zlen_app _ pnb), Hpn; lia]. }
  erewrite with_key_open; [cbn [obind]; by eexists|exact Ew|]. rewrite Ek. replace (n + zlen body + 16) with (n + zlen ct) by lia.
  rewrite (decrypt_pkt_spec k _ ct more body pn n ltac:(lia) Es). cbn [dropped map_err obind]. rewrite Hfr. replace (zlen body =? 0) with false by lia. by rewrite Hpath.
Qed.
End Packets.

(** ** A packet reaches its peer *)

Section Carrying.
Context {tgt : Target}.

(** What a stream in the state [q] hands out, in terms of its history. *)
Lemma emit_step q base n : send_inv q base -> 0 <= n -> exists q' data fin, send_emit n (sr_buf q) = Ok (sr_buf q', data, fin) /\ zlen data <= n /\
  send_step q (SEmit n) = Ok q' /\ sr_frames q' = sr_frames q ++ [(off_front (sr_buf q), data, fin)] /\
  0 <= off_front (sr_buf q) /\ off_front (sr_buf q) + zlen data <= zlen (sr_written q).
Proof.
  intros Hq Hn. destruct (emit_inv q base n Hq Hn) as (q' & data & fin & E & Hq' & Hw & Hf & Hz & _). exists q', data, fin.
  pose proof (si_frames _ _ Hq') as Hfr. rewrite Hf, Forall_app in Hfr. destruct Hfr as [_ Hfr]. apply Forall_cons_iff in Hfr as [[(H1 & H2 & _) _] _]. cbn in H1, H2. rewrite Hw in H2.
  split_and!; try done. unfold send_step in E. destruct (send_emit n (sr_buf q)) as [[[s d] fi]| | |]; try done. cbn [obind] in E. injection E as <-. cbn in Hf.
  apply app_inj_tail in Hf as [_ [= -> ->]]. done.
Qed.

(** The frame a packet carries for a stream, if any, and the stream after it. *)
Definition carries (st : option (Z * SendRun)) (s' : option SendBuf) (ws : list frame) : Prop :=
  match st with
  | None => ws = [] /\ s' = None
  | Some (i, q) =>
      ws = [] /\ s' = Some (sr_buf q) \/
      exists n q' data fin, send_step q (SEmit n) = Ok q' /\ sr_frames q' = sr_frames q ++ [(off_front (sr_buf q), data, fin)] /\
        ws = [stream_frame i (off_front (sr_buf q)) data fin] /\ s' = Some (sr_buf q')
  end.
Definition stream_fine (pkt : PktType) (st : option (Z * SendRun)) : Prop :=
  match st with
  | None => True
  | Some (i, q) => is_varint i /\ (exists base, send_inv q base) /\ zlen (sr_written q) < 2 ^ 62 /\ (pkt = Short \/ pkt = ZeroRTT)
  end.

Definition states (st : option (Z * SendRun)) : option (Z * SendBuf) := option_map (fun x => (x.1, sr_buf x.2)) st.
(** The packet after the stream had its turn: its bytes grew by those of [ws]. *)
Definition stream_placed (pkt : PktType) (st : option (Z * SendRun)) (p r : bytes) (left : Z) (frames : list frame)
  (res : q_result (option SendBuf * (OctetsMut * Z * list frame))) : Prop :=
  exists s' ws frames', carries st s' ws /\ Forall frame_ok ws /\ Forall (fun f => allowed pkt f = true) ws /\ Forall (fun f => is_padding f = false) ws /\
    zlen (frames_bytes ws) <= left /\ (frames' = [] <-> frames = [] /\ ws = []) /\
    res = Ok (s', (mkOctetsMut ((p ++ frames_bytes ws) ++ zdrop (zlen (frames_bytes ws)) r) (zlen (p ++ frames_bytes ws)), left - zlen (frames_bytes ws), frames')).

Lemma stream_skipped pkt st p r left frames s' : carries st s' [] -> 0 <= left ->
  stream_placed pkt st p r left frames (Ok (s', (mkOctetsMut (p ++ r) (zlen p), left, frames))).
Proof.
  intros Hc Hl. exists s', [], frames. unfold frames_bytes. cbn [map concat]. change (zlen (@nil Z)) with 0.
  rewrite zdrop_nonpos, !app_nil_r, Z.sub_0_r by lia. split_and!; try done; try constructor; try tauto.
Qed.
Lemma stream_part pkt st p r left frames : stream_fine pkt st -> 0 <= left -> left <= zlen r -> left <= 16383 ->
  stream_placed pkt st p r left frames (push_stream_of (states st) (mkOctetsMut (p ++ r) (zlen p)) left frames).
Proof.
  intros Hs Hl0 Hl Hm. destruct st as [[i q]|]; [|by apply stream_skipped]. destruct Hs as (Hi & (base & Hq) & Hw & Hp). cbn [states option_map fst snd push_stream_of].
  destruct (front_bounds q base Hq) as [Hfb _]. assert (is_varint (off_front (sr_buf q))) as Hoff by (unfold is_varint, MAX_VAR_INT; lia).
  set (hl := 3 + zlen (enc_all [i; off_front (sr_buf q)])) in *. assert (0 <= zlen (enc_all [i; off_front (sr_buf q)])) by apply zlen_nonneg.
  destruct (decide (hl <= left)) as [Hfit|Hfit].
  - destruct (emit_step q base (left - hl) Hq ltac:(lia)) as (q' & data & fin & E & Hd & Est & Ef & H1 & H2).
    destruct (push_stream_spec i (sr_buf q) (sr_buf q') data fin p r left frames) as [Ep Hz]; try done.
    { intros n H3 _. destruct (emit_step q base n Hq H3) as (q1 & d1 & f1 & E1 & Hd1 & _). by exists (sr_buf q1), d1, f1. }
    rewrite Ep. cbn [obind]. exists (Some (sr_buf q')), [stream_frame i (off_front (sr_buf q)) data fin], (frames ++ [StreamHeader i (off_front (sr_buf q)) (zlen data) fin]).
    unfold frames_bytes. cbn [map concat]. rewrite app_nil_r. split_and!; try done.
    + right. by exists (left - hl), q', data, fin.
    + constructor; [apply stream_frame_ok; try done; lia|constructor].
    + constructor; [by destruct Hp as [-> | ->]|constructor].
    + by repeat constructor.
    + split; [intros E0; by apply app_eq_nil in E0 as [_ ?]|by intros [_ ?]].
  - unfold push_stream. rewrite lens_spec by (repeat constructor; apply Hi || apply Hoff). cbn [obind].
    replace (left <? _) with true by (unfold hl in *; lia). apply stream_skipped; [by left|done].
Qed.

End Carrying.

Lemma allowed_pad pkt fs : Forall (fun f => is_padding f = true) fs -> Forall (fun f => allowed pkt f = true) fs.
Proof. intros Hf. eapply Forall_impl; [|exact Hf]. by intros [] ?; destruct pkt. Qed.
Lemma pad_of_padding fill h left body : Forall (fun f => is_padding f = true) (pad_of fill h left body) /\ zlen (pad_of fill h left body) <= 1.
Proof. unfold pad_of. destruct (_ && _); [|destruct (_ <? _)]; split; try done; by repeat constructor. Qed.
Lemma pad_last_app fs pad : Forall (fun f => is_padding f = false) fs -> zlen pad <= 1 -> pad_last (fs ++ pad) = true.
Proof.
  intros Hf Hp. induction Hf as [|f fs Hf _ IH]; cbn [app pad_last]; [|by rewrite Hf, IH].
  destruct pad as [|x [|y pad]]; cbn [pad_last is_empty]; [done|by rewrite orb_true_r|]. rewrite !zlen_cons in Hp. pose proof (zlen_nonneg pad). lia.
Qed.
Lemma frames_bytes_app fs gs : frames_bytes (fs ++ gs) = frames_bytes fs ++ frames_bytes gs.
Proof. unfold frames_bytes. by rewrite map_app, concat_app. Qed.
Lemma read_payload `{Target} pkt fs : Forall frame_ok fs -> Forall (fun f => allowed pkt f = true) fs -> pad_last fs = true ->
  exists gs, payload_frames pkt (frames_bytes fs) = Ok gs /\ Forall2 same_frame fs gs.
Proof. intros Hf Ha Hp. apply (read_all pkt fs []); try done. Qed.

(** A packet that can be made: there is room for its header, and its number is
    encoded for what the peer is known to have received, at least [la]. *)
Record sendable `{Target} (dcid_len : Z) (h : Header) (pn la left : Z) : Prop := mkSendable {
  sd_hdr : hdr_ok dcid_len h;
  sd_len : h_pkt_num_len h = pkt_num_len pn la /\ pkt_num_len pn la <= 4;
  sd_num : 0 <= la <= pn /\ pn < 2 ^ 62;
  sd_room : zlen (hdr_bytes h) + h_pkt_num_len h + 16 + field_len h + PAYLOAD_MIN_LEN <= left <= 16383
}.

Section Delivery.
Context `{Ciphers} `{Hkdf} `{Target}.
Context (k : Keys) (Hiv : zlen (k_iv k) = nonce_len (k_alg k)).

(** What a peer gets of a packet that was made, whatever follows it in the
    datagram.  It received at least what it acknowledged, and it may have
    received later packets, less than half of the numbers the encoded one
    stands for. *)
Definition delivered (dcid_len : Z) (h : Header) (pn la : Z) (ws : list frame) (buf : bytes) (written : Z) : Prop :=
  forall c path pid timer ep more, receptive k c timer h pn ep -> rx_dcid_len c = dcid_len -> path (hdr_opened h pn) = Ok pid -> (h_ty h = Short -> more = []) ->
    la <= ps_largest_rx (rx_space c ep) -> ps_largest_rx (rx_space c ep) + 1 - pn < 2 ^ (8 * h_pkt_num_len h - 1) ->
    exists c' payload gs, open_packet c path timer (ztake written buf ++ more) = (c', Ok (Opened pn (hdr_opened h pn) payload)) /\
      payload_frames (h_ty h) payload = Ok gs /\ Forall2 same_frame ws gs.

Lemma sealed_delivered dcid_len h pn la buf pkt ws : hdr_ok dcid_len h -> 1 <= h_pkt_num_len h <= 4 -> 0 <= la <= pn -> pn < 2 ^ 62 ->
  pn - la + 1 < 2 ^ (8 * h_pkt_num_len h - 1) -> ztake (zlen pkt) buf = pkt -> sealed k h pn (frames_bytes ws) pkt ->
  PAYLOAD_MIN_LEN <= zlen (frames_bytes ws) -> h_pkt_num_len h + zlen (frames_bytes ws) + 16 <= 16383 ->
  Forall frame_ok ws -> Forall (fun f => allowed (h_ty h) f = true) ws -> pad_last ws = true -> delivered dcid_len h pn la ws buf (zlen pkt).
Proof.
  intros Hh Hn Hla Hpn Hnear Et Hseal Hmin Hmax Hok Hal Hpl c path pid timer ep more Hr Hd Hpath Hmore Hlo Hhi.
  destruct (open_sealed_packet k c path pid timer h pn (frames_bytes ws) pkt more ep) as (c' & E); rewrite ?Hd; try done; try lia; [unfold number_near; lia|].
  destruct (read_payload (h_ty h) ws Hok Hal Hpl) as (gs & Eg & Hg). exists c', (frames_bytes ws), gs. by rewrite Et.
Qed.

Lemma packet_sound dcid_len h pn la fill left out fs st : sendable dcid_len h pn la left -> left <= zlen out ->
  Forall frame_ok fs -> Forall (fun f => allowed (h_ty h) f = true) fs -> Forall (fun f => is_padding f = false) fs -> stream_fine (h_ty h) st ->
  exists sent ws s', sublist sent fs /\ carries st s' ws /\
    ((sent = [] /\ ws = [] /\ build_packet k h pn fill left out fs (states st) = Err EDone) \/
     exists buf written frames pad, build_packet k h pn fill left out fs (states st) = Ok (buf, written, frames, s') /\ written <= left /\
       Forall (fun f => is_padding f = true) pad /\ delivered dcid_len h pn la (sent ++ ws ++ pad) buf written).
Proof.
  intros [Hh [Hlen H4] [Hla Hpn] Hroom] Hout Hok Hal Hnp Hst.
  destruct (pkt_num_len_enough pn la ltac:(lia) ltac:(lia)) as [Hn1 Hn2]. rewrite <- Hlen in *. set (n := h_pkt_num_len h) in *.
  destruct (begin_spec dcid_len h pn left out Hh ltac:(lia) Hout ltac:(lia)) as (gap & r & Hg & Eb & Hr). fold n in Eb, Hr. pose proof (zlen_nonneg (hdr_bytes h)).
  assert (0 <= field_len h) by (rewrite <- Hg; apply zlen_nonneg). set (hd := hdr_bytes h ++ gap ++ to_be (Z.to_nat n) pn) in *. set (l1 := left - (zlen (hdr_bytes h) + n + 16 + field_len h)) in *.
  unfold PAYLOAD_MIN_LEN in *. destruct (push_all_spec fs hd r l1 [] Hok ltac:(lia)) as (sent & Hsub & Hz & Ep).
  destruct (stream_part (h_ty h) st (hd ++ frames_bytes sent) (zdrop (zlen (frames_bytes sent)) r) (l1 - zlen (frames_bytes sent)) sent Hst) as (s' & ws & frames' & Hc & Wok & Wal & Wnp & Wz & Wf & Es);
    [lia|rewrite zlen_zdrop; pose proof (zlen_nonneg (frames_bytes sent)); lia|pose proof (zlen_nonneg (frames_bytes sent)); lia|].
  exists sent, ws, s'. split; [done|]. split; [done|]. unfold build_packet. rewrite (tag_16 k Hiv), Eb. cbn [obind]. rewrite Ep. cbn [obind app]. rewrite Es. cbn [obind].
  rewrite <- !(app_assoc hd (frames_bytes sent)), <- frames_bytes_app, zdrop_zdrop by apply zlen_nonneg. rewrite <- (zlen_app (frames_bytes sent)), <- frames_bytes_app.
  set (body := frames_bytes (sent ++ ws)) in *. assert (zlen body = zlen (frames_bytes sent) + zlen (frames_bytes ws)) as Hbody by (unfold body; by rewrite frames_bytes_app, zlen_app).
  assert (l1 - zlen (frames_bytes sent) - zlen (frames_bytes ws) = l1 - zlen body) as -> by lia. pose proof (zlen_nonneg (frames_bytes sent)). pose proof (zlen_nonneg (frames_bytes ws)).
  destruct frames' as [|f frames']; [left; destruct Wf as [Wf _]; by destruct (Wf eq_refl)|right]. set (l2 := l1 - zlen body) in *. set (P := pad_of fill h l2 body).
  destruct (finish_spec k Hiv h pn fill l2 gap body (zdrop (zlen body) r) (f :: frames')) as (buf & pkt & Ef & Et & Hseal); try done; try (rewrite zlen_zdrop; lia); try (unfold PAYLOAD_MIN_LEN; fold n; lia); try lia.
  fold n in Ef. fold hd in Ef. rewrite Ef. cbn [obind]. eexists buf, (zlen pkt), _, P. split; [done|]. destruct (pad_of_padding fill h l2 body) as [Hpad Hpad1].
  destruct (pad_ok fill h l2 body ltac:(lia) ltac:(unfold PAYLOAD_MIN_LEN; lia)) as [Pok Pz]. unfold PAYLOAD_MIN_LEN in *. fold P in Hseal, Hpad, Hpad1, Pok, Pz.
  assert (body ++ frames_bytes P = frames_bytes (sent ++ ws ++ P)) as EB by (unfold body; by rewrite <- frames_bytes_app, <- app_assoc). rewrite EB in *.
  split; [destruct Hseal as (m0 & ms & ct & _ & Hcz & _ & Hms & ->)|split; [done|]].
  - pose proof (f_equal zlen (hdr_bytes_first h)) as Hz0. rewrite zlen_cons in Hz0. rewrite zlen_app, zlen_cons, !zlen_app, zlen_xor, Hms, zlen_len_field, zlen_to_be, Hcz.
    fold n. assert (zlen body + l2 = l1) by (unfold l2; lia). assert (l1 + zlen (hdr_bytes h) + n + 16 + field_len h = left) by (unfold l1; lia). lia.
  - apply sealed_delivered; try done; try (fold n; unfold PAYLOAD_MIN_LEN; lia).
    + rewrite !Forall_app. split; [by eapply Forall_sublist|by split].
    + rewrite !Forall_app. split; [by eapply Forall_sublist|]. split; [done|by apply allowed_pad].
    + rewrite app_assoc. apply pad_last_app; [|done]. rewrite Forall_app. split; [by eapply Forall_sublist|done].
Qed.
End Delivery.

(** A stream with a history, in a packet that may carry stream data. *)
Definition stream_reached `{Target} (pkt : PktType) (st : option (Z * SendRun)) : Prop :=
  match st with
  | None => True
  | Some (i, q) => is_varint i /\ (pkt = Short \/ pkt = ZeroRTT) /\ zlen (sr_written q) < 2 ^ 62 /\
      exists max_data sends, 0 <= max_data /\ Forall send_ev_ok sends /\ send_run (send_start max_data) sends = Ok q
  end.
Lemma reached_fine `{Target} pkt st : stream_reached pkt st -> stream_fine pkt st.
Proof.
  destruct st as [[i q]|]; [|done]. intros (Hi & Hp & Hw & m & sends & Hm & Hs & E). split_and!; try done.
  destruct (send_run_inv _ _ sends (send_start_inv m Hm) Hs) as (q' & base & E' & Hq). rewrite E in E'. injection E' as <-. by exists base.
Qed.

(** C6: a packet that is made reaches the peer as it was meant.  Frames are put
    into a packet as far as they fit, and then the data of a stream in whatever
    state its history left it; the packet is padded, given its length and
    number, sealed and masked.  Unless nothing went in, the packet is made,
    within the room there is.  A peer that speaks the same version, has the
    keys, after a key update if the packet brings one, and did not have the
    packet yet opens it, whatever follows it in the datagram and although it may
    have received later packets before (less than half of the numbers the
    shortened one stands for); it finds the packet number, the header and
    exactly those frames, up to what is not on the wire, with the padding at the
    end. *)
Theorem packet_delivered `{Ciphers} `{Hkdf} `{Target} k dcid_len h pn la fill left out fs st :
  zlen (k_iv k) = nonce_len (k_alg k) -> sendable dcid_len h pn la left -> left <= zlen out ->
  Forall frame_ok fs -> Forall (fun f => allowed (h_ty h) f = true) fs -> Forall (fun f => is_padding f = false) fs -> stream_reached (h_ty h) st ->
  exists sent ws s', sublist sent fs /\ carries st s' ws /\
    ((sent = [] /\ ws = [] /\ build_packet k h pn fill left out fs (states st) = Err EDone) \/
     exists buf written frames pad, build_packet k h pn fill left out fs (states st) = Ok (buf, written, frames, s') /\ written <= left /\
       Forall (fun f => is_padding f = true) pad /\ delivered k dcid_len h pn la (sent ++ ws ++ pad) buf written).
Proof. intros Hk Hs Hl Hf Ha Hp Hst. eapply packet_sound; try done. by apply reached_fine. Qed.

(** A cipher for examples: it flips bits and adds up what it authenticates. *)
#[local] Instance toy_ssl : BoringSSL := {|
  aead_seal _ key nonce ad msg := Some (map (Z.lxor 0x5a) msg ++ to_be 16 (of_be (key ++ nonce ++ ad)));
  aead_open _ key nonce ad c :=
    let n := zlen c - 16 in
    if bool_decide (zdrop n c = to_be 16 (of_be (key ++ nonce ++ ad))) then Some (map (Z.lxor 0x5a) (ztake n c)) else None;
  hp_mask _ key sample := ztake 5 (map (Z.lxor 0x33) sample ++ [1; 2; 3; 4; 5])
|}.
#[local] Instance toy_ciphers : Ciphers.
Proof.
  assert (forall l : bytes, map (Z.lxor 0x5a) (map (Z.lxor 0x5a) l) = l) as Hx.
  { intros l. rewrite map_map. rewrite <- (map_id l) at 2. apply map_ext. intros x. by rewrite <- Z.lxor_assoc, Z.lxor_nilpotent, Z.lxor_0_l. }
  split.
  - intros. by eexists.
  - intros alg key nonce ad msg c E. unfold aead_seal, toy_ssl in E. set (t := to_be 16 _) in E.
    assert (zlen t = 16) as Ht by (unfold t; by rewrite zlen_to_be). clearbody t. injection E as <-. rewrite zlen_app, zlen_map, Ht. by destruct alg.
  - intros alg key nonce ad msg c E. unfold aead_seal, toy_ssl in E. unfold aead_open, toy_ssl. cbv beta zeta. set (t := to_be 16 _) in *.
    assert (zlen t = 16) as Ht by (unfold t; by rewrite zlen_to_be). clearbody t. injection E as <-. rewrite zlen_app, zlen_map, Ht.
    replace (zlen msg + 16 - 16) with (zlen msg) by lia. rewrite zdrop_app_length, ztake_app_length by (by rewrite zlen_map). rewrite bool_decide_true by done. by rewrite Hx.
  - intros. cbn -[zlen ztake]. rewrite zlen_ztake, zlen_app, zlen_map. change (zlen [1; 2; 3; 4; 5]) with 5. pose proof (zlen_nonneg sample). lia.
Qed.

(** A stream that wrote nine bytes, the first frame of which was lost. *)
Definition demo_stream : list send_event := [SWrite [1; 2; 3; 4; 5; 6; 7; 8; 9] true; SEmit 4; SEmit 9; SLost 0].
Definition demo_header : Header := mkHeader Short 0 [1; 2; 3; 4; 5; 6; 7; 8] [] 0 1 None None true.
Definition demo_aead : Aead := mkAead (mkKeys AES128_GCM (replicate 16 7) [1; 2; 3; 4; 5; 6; 7; 8; 9; 10; 11; 12] (replicate 16 9)) (replicate 32 5).
(** The peer updates its keys with this packet. *)
Definition demo_keys : Keys := ad_keys (@gen_key toy_hkdf demo_aead 1).
Definition demo_space : PktNumSpace := mkSpace 38 0 38 None (rs_new MAX_ACK_RANGES) (pw_insert 38 window_default) false.
Definition demo_conn : RxConn :=
  mkRx 1 false 5 8 true true false true (fun _ => demo_space) (fun _ => mkCrypto None (Some demo_aead) (Some demo_aead) None) [].
Lemma packet_delivered_witness : exists q, @send_run target64 (@send_start target64 100) demo_stream = Ok q /\
  exists buf written frames s', @build_packet toy_ssl demo_keys demo_header 40 false 200 (replicate 300 0) [MaxData 900; Ping None] (states (Some (4, q))) = Ok (buf, written, frames, s') /\
    exists c' payload gs, @open_packet toy_ssl toy_hkdf target64 demo_conn (fun _ => Ok 0) 99 (ztake written buf) = (c', Ok (Opened 40 (hdr_opened demo_header 40) payload)) /\
      @payload_frames target64 Short payload = Ok gs /\ Forall2 same_frame [MaxData 900; Ping None; stream_frame 4 0 [1; 2; 3; 4] false] gs /\ rx_key_phase c' = true.
Proof.
  eexists. split; [vm_compute; reflexivity|].
  match goal with |- context [Some (4, ?q)] => set (qq := q) end.
  destruct (@packet_delivered toy_ssl toy_ciphers toy_hkdf target64 demo_keys 8 demo_header 40 37 false 200 (replicate 300 0) [MaxData 900; Ping None] (Some (4, qq)))
    as (sent & ws & s' & Hs & Hc & [(_ & _ & E)|(buf & written & frames & pad & E & Hw & Hp & Hd)]).
  - reflexivity.
  - split; vm_compute; intuition congruence.
  - vm_compute. discriminate.
  - repeat constructor; vm_compute; intuition congruence.
  - repeat constructor.
  - repeat constructor.
  - split_and!; [vm_compute; intuition congruence|by left|vm_compute; reflexivity|]. exists 100, demo_stream. split_and!; [lia|repeat constructor; simpl; lia|vm_compute; reflexivity].
  - vm_compute in E. discriminate.
  - exists buf, written, frames, s'. split; [exact E|].
    destruct (Hd demo_conn (fun _ => Ok 0) 0 99 EpApplication []) as (c' & payload & gs & Eo & Eg & Hg);
      [|reflexivity|reflexivity|reflexivity|vm_compute; discriminate|vm_compute; reflexivity|].
    + split; [reflexivity|left; reflexivity|reflexivity| |vm_compute; reflexivity]. exists demo_aead, (@gen_key toy_hkdf demo_aead 1). eexists _, _.
      split; [reflexivity|]. split; [reflexivity|]. split; [reflexivity|]. split; [vm_compute; reflexivity|reflexivity].
    + rewrite app_nil_r in Eo. exists c', payload, gs. split; [exact Eo|]. split; [exact Eg|].
      vm_compute in E. injection E as <- <- _ _. vm_compute in Eo. injection Eo as <- <-. vm_compute in Eg. injection Eg as <-. split; [repeat constructor; vm_compute; intuition congruence|reflexivity].
Defined.
