(* ===== verification/Masque.v ===== *)
(** * MASQUE framing: datagrams, capsules and the data-plane probe

    Models masque.rs: the HTTP/3 datagram codec ([encode_ip_datagram],
    [decode_ip_datagram]), the capsule encoder, the incremental
    [CapsuleParser], the payloads of ADDRESS_ASSIGN and ROUTE_ADVERTISEMENT,
    the recovery of the IP packet from a DATAGRAM capsule and the DNS probe
    packet with its IPv4 header checksum.  Random numbers are arguments. *)

From S2P Require Import Prelude RustStr NetAddr Errors Octets.
From Stdlib Require Import ZArith Lia ZifyBool String List.
From stdpp Require Import base list numbers option decidable.
Open Scope Z_scope.

(** ** Data *)

Definition CAPSULE_ADDRESS_ASSIGN : Z := 1.
Definition CAPSULE_ADDRESS_REQUEST : Z := 2.
Definition CAPSULE_ROUTE_ADVERTISEMENT : Z := 3.
Definition CAPSULE_DATAGRAM : Z := 0.
Definition CONNECT_IP_CONTEXT_ID : Z := 0.

Record AssignedAddress : Type := mkAssigned {
  request_id : Z; aa_version : Z; aa_address : bytes; aa_prefix_len : Z }.

Record RouteAdvertisement : Type := mkRoute {
  ra_version : Z; ra_start : bytes; ra_end : bytes; ra_protocol : Z }.

Inductive Capsule : Type :=
| AddressAssign (l : list AssignedAddress)
| AddressRequest
| Datagram (payload : bytes)
| RouteAdvertisements (l : list RouteAdvertisement)
| Unknown (kind : Z) (payload : bytes).

Definition CF_CONNECT_PROTOCOL : bytes := str "cf-connect-ip".

(** [connect_ip_request]: the header list, in order. *)
Definition connect_ip_request (authority path : bytes) : list (bytes * bytes) :=
  [(str ":method", str "CONNECT");
   (str ":protocol", CF_CONNECT_PROTOCOL);
   (str ":scheme", str "https");
   (str ":authority", authority);
   (str ":path", path);
   (str "user-agent", []);
   (str "capsule-protocol", str "?1")].

(** [oct]: the cursor's error as an engine error. *)
Definition oct (e : short) : SoildTunnelError :=
  match e with BufferTooShort => CapsuleError (str "BufferTooShortError") end.

(** The module's own [varint_len], which has no upper bound. *)
Definition masque_varint_len (v : Z) : Z :=
  if v <? 64 then 1
  else if v <? 16384 then 2
  else if v <? 1073741824 then 4
  else 8.

Definition quarter_stream_id (stream_id : Z) : Z := stream_id / 4.

Definition blank (n : Z) : bytes := replicate (Z.to_nat n) 0.

(** ** HTTP/3 datagrams *)

Definition encode_ip_datagram (stream_id : Z) (ip_packet : bytes) : result bytes :=
  let qsid := quarter_stream_id stream_id in
  let ctx := CONNECT_IP_CONTEXT_ID in
  let cap := masque_varint_len qsid + masque_varint_len ctx + zlen ip_packet in
  let b := with_slice_mut (blank cap) in
  let! b := map_err oct (put_varint qsid b) in
  let! b := map_err oct (put_varint ctx b) in
  let! b := map_err oct (put_bytes ip_packet b) in
  Ok (m_buf b).

Definition decode_ip_datagram (datagram : bytes) (expect_stream_id : Z) : result (option bytes) :=
  let b := with_slice datagram in
  let! '(qsid, b) := map_err oct (get_varint b) in
  if negb (qsid =? quarter_stream_id expect_stream_id) then Ok None
  else
    let! '(ctx, b) := map_err oct (get_varint b) in
    if negb (ctx =? CONNECT_IP_CONTEXT_ID) then Ok None
    else
      let rest := o_cap b in
      let! '(payload, _) := map_err oct (get_bytes rest b) in
      Ok (Some payload).

(** ** Capsules *)

(** [let _ = b.put_...(...)]: an error leaves the cursor where it was. *)
Definition ignore_err (r : outcome short OctetsMut) (b : OctetsMut) : outcome short OctetsMut :=
  match r with Err _ => Ok b | r => r end.

(** [put_varint] panics above 2^62 - 1; nothing else can go wrong here. *)
Definition encode_capsule (kind : Z) (value : bytes) : outcome short bytes :=
  let cap := masque_varint_len kind + masque_varint_len (zlen value) + zlen value in
  let b := with_slice_mut (blank cap) in
  let! b := ignore_err (put_varint kind b) b in
  let! b := ignore_err (put_varint (zlen value) b) b in
  let! b := ignore_err (put_bytes value b) b in
  Ok (m_buf b).

Definition encode_address_request (request_id ip_version prefix_len : Z) : outcome short bytes :=
  let b := with_slice_mut (blank (masque_varint_len request_id + 1 + 1)) in
  let! b := ignore_err (put_varint request_id b) b in
  let! b := ignore_err (put_u8 ip_version b) b in
  let! b := ignore_err (put_u8 prefix_len b) b in
  encode_capsule CAPSULE_ADDRESS_REQUEST (m_buf b).

Definition encode_datagram_capsule (ip_packet : bytes) : outcome short bytes :=
  encode_capsule CAPSULE_DATAGRAM ip_packet.

Definition looks_like_ip_packet (data : bytes) : bool :=
  match data with
  | first :: _ => ((Z.shiftr first 4 =? 4) || (Z.shiftr first 4 =? 6)) && (20 <=? zlen data)
  | [] => false
  end.

(** The first half of [strip_datagram_context]: a context id of 0 before the
    packet.  [payload[consumed..]] is the rest of the cursor. *)
Definition strip_with_context (payload : bytes) : option bytes :=
  match get_varint (with_slice payload) with
  | Ok (ctx, b) =>
      if ctx =? CONNECT_IP_CONTEXT_ID then
        let consumed := zlen payload - o_cap b in
        let inner := zdrop consumed payload in
        if looks_like_ip_packet inner then Some inner else None
      else None
  | _ => None
  end.

Definition strip_datagram_context (payload : bytes) : option bytes :=
  match payload with
  | [] => None
  | _ =>
      match strip_with_context payload with
      | Some inner => Some inner
      | None => if looks_like_ip_packet payload then Some payload else None
      end
  end.

(** [addr_len] of the two payload parsers. *)
Definition addr_len (ip_version : Z) : result Z :=
  match ip_version with
  | 4 => Ok 4
  | 6 => Ok 16
  | _ => Err (CapsuleError (str "bad ip version " ++ dec_str ip_version))
  end.

(** One turn of the loop of [parse_address_assign]. *)
Definition read_assigned (b : Octets) : result (AssignedAddress * Octets) :=
  let! '(id, b) := map_err oct (get_varint b) in
  let! '(version, b) := map_err oct (get_u8 b) in
  let! n := addr_len version in
  let! '(address, b) := map_err oct (get_bytes n b) in
  let! '(prefix, b) := map_err oct (get_u8 b) in
  Ok (mkAssigned id version address prefix, b).

(** One turn of the loop of [parse_route_advertisement]. *)
Definition read_route (b : Octets) : result (RouteAdvertisement * Octets) :=
  let! '(version, b) := map_err oct (get_u8 b) in
  let! n := addr_len version in
  let! '(start, b) := map_err oct (get_bytes n b) in
  let! '(end_, b) := map_err oct (get_bytes n b) in
  let! '(protocol, b) := map_err oct (get_u8 b) in
  Ok (mkRoute version start end_ protocol, b).

(** [while b.cap() > 0 { ... out.push(...) }]. *)
Fixpoint read_all {A : Type} (item : Octets -> result (A * Octets)) (fuel : nat) (b : Octets)
    : result (list A) :=
  if o_cap b <=? 0 then Ok []
  else match fuel with
       | O => OutOfFuel
       | S fuel =>
           let! '(x, b) := item b in
           let! out := read_all item fuel b in
           Ok (x :: out)
       end.

Definition parse_address_assign (value : bytes) : result (list AssignedAddress) :=
  read_all read_assigned (length value) (with_slice value).
Definition parse_route_advertisement (value : bytes) : result (list RouteAdvertisement) :=
  read_all read_route (length value) (with_slice value).

(** ** The incremental parser *)

Record CapsuleParser : Type := mkParser { cp_buf : bytes }.

Definition MAX_CAPSULE_BUF : Z := 256 * 1024.

Definition parser_new : CapsuleParser := mkParser [].

Definition push (p : CapsuleParser) (data : bytes) : CapsuleParser :=
  if MAX_CAPSULE_BUF <? zlen (cp_buf p) + zlen data then mkParser []
  else mkParser (cp_buf p ++ data).

Definition classify (kind : Z) (value : bytes) : result Capsule :=
  if kind =? CAPSULE_ADDRESS_ASSIGN then
    let! l := parse_address_assign value in Ok (AddressAssign l)
  else if kind =? CAPSULE_ADDRESS_REQUEST then Ok AddressRequest
  else if kind =? CAPSULE_ROUTE_ADVERTISEMENT then
    let! l := parse_route_advertisement value in Ok (RouteAdvertisements l)
  else if kind =? CAPSULE_DATAGRAM then Ok (Datagram value)
  else Ok (Unknown kind value).

(** [CapsuleParser::next].  The value is removed from the buffer before it is
    interpreted, also when that fails. *)
Definition next `{Target} (p : CapsuleParser) : result (option Capsule) * CapsuleParser :=
  match get_varint (with_slice (cp_buf p)) with
  | Ok (kind, b) =>
      match get_varint b with
      | Ok (v, b) =>
          let len := as_usize v in
          if o_cap b <? len then (Ok None, p)
          else match get_bytes len b with
               | Ok (value, b) =>
                   ((let! c := classify kind value in Ok (Some c)),
                    mkParser (zdrop (o_off b) (cp_buf p)))
               | Err e => (Err (oct e), p)
               | Panic => (Panic, p)
               | OutOfFuel => (OutOfFuel, p)
               end
      | Err _ => (Ok None, p)
      | Panic => (Panic, p)
      | OutOfFuel => (OutOfFuel, p)
      end
  | Err _ => (Ok None, p)
  | Panic => (Panic, p)
  | OutOfFuel => (OutOfFuel, p)
  end.

(** ** The data-plane probe *)

(** The summation loop of [ipv4_header_checksum], in [u32] arithmetic. *)
Fixpoint sum_words (sum : Z) (header : bytes) : Z :=
  match header with
  | a :: b :: r => sum_words (as_u32 (sum + (a * 256 + b))) r
  | [a] => as_u32 (sum + Z.shiftl a 8)
  | [] => sum
  end.

(** [while (sum >> 16) != 0 { sum = (sum & 0xffff) + (sum >> 16) }]. *)
Fixpoint fold_carries (fuel : nat) (sum : Z) : option Z :=
  if Z.shiftr sum 16 =? 0 then Some sum
  else match fuel with
       | O => None
       | S fuel => fold_carries fuel (Z.land sum 0xffff + Z.shiftr sum 16)
       end.

(** Two turns are enough for a [u32]. *)
Definition ipv4_header_checksum (header : bytes) : option Z :=
  let? s := fold_carries 2 (sum_words 0 header) in Some (0xffff - as_u16 s).

Definition probe_dns_query (id : Z) : bytes :=
  to_be 2 id ++ [1; 0] ++ [0; 1] ++ [0; 0; 0; 0; 0; 0]
  ++ concat (map (fun label => as_u8 (zlen label) :: label) [str "cloudflare"; str "com"])
  ++ [0] ++ [0; 1] ++ [0; 1].

Definition probe_ip_header (src : bytes) (total_len id csum : Z) : bytes :=
  [0x45; 0] ++ to_be 2 total_len ++ to_be 2 id ++ [0; 0] ++ [64; 17] ++ to_be 2 csum
  ++ src ++ [8; 8; 8; 8].

Definition build_dns_probe_packet (src : bytes) (id sport dns_id : Z) : option bytes :=
  let dns := probe_dns_query dns_id in
  let udp_len := 8 + zlen dns in
  let total_len := 20 + udp_len in
  let? csum := ipv4_header_checksum (probe_ip_header src (as_u16 total_len) id 0) in
  Some (probe_ip_header src (as_u16 total_len) id csum
        ++ to_be 2 sport ++ to_be 2 53 ++ to_be 2 (as_u16 udp_len) ++ [0; 0] ++ dns).

(** ** The encoders write the reference encodings *)

Definition enc_capsule (kind : Z) (value : bytes) : bytes :=
  enc_varint kind ++ enc_varint (zlen value) ++ value.
Definition enc_datagram (stream_id : Z) (ip_packet : bytes) : bytes :=
  enc_varint (quarter_stream_id stream_id) ++ enc_varint CONNECT_IP_CONTEXT_ID ++ ip_packet.

Lemma masque_varint_len_eq v : is_varint v -> masque_varint_len v = zlen (enc_varint v).
Proof.
  intros Hv. unfold is_varint, MAX_VAR_INT in Hv. unfold masque_varint_len.
  destruct (varint_cases v) as [[? ->]|[[? ->]|[[? ->]|[? ->]]]]; rewrite zlen_to_be;
    repeat case_match; lia.
Qed.

Lemma zlen_blank n : 0 <= n -> zlen (blank n) = n.
Proof. intros. unfold blank. rewrite zlen_replicate. lia. Qed.

Lemma quarter_is_varint s : 0 <= s < 2 ^ 64 -> is_varint (quarter_stream_id s).
Proof.
  intros. unfold is_varint, quarter_stream_id, MAX_VAR_INT. split; [apply Z.div_pos; lia|].
  apply Z.lt_succ_r, Z.div_lt_upper_bound; lia.
Qed.

Lemma context_is_varint : is_varint CONNECT_IP_CONTEXT_ID.
Proof. by vm_compute. Qed.

(** Two variable-length integers and a payload into a blank buffer that fits
    them exactly: the common shape of both encoders. *)
Lemma write_two_varints a b v n :
  is_varint a -> is_varint b -> n = zlen (enc_varint a ++ enc_varint b ++ v) ->
  (let! m := put_varint a (with_slice_mut (blank n)) in
   let! m := put_varint b m in
   let! m := put_bytes v m in
   Ok (m_buf m)) = Ok (enc_varint a ++ enc_varint b ++ v).
Proof.
  intros Ha Hb ->. pose proof (enc_varint_pos a). pose proof (enc_varint_pos b).
  pose proof (zlen_nonneg v). unfold with_slice_mut. rewrite !zlen_app.
  change (mkOctetsMut ?x 0) with (mkOctetsMut ([] ++ x) (zlen (@nil Z))).
  rewrite put_varint_spec by (rewrite ?zlen_blank; try done; lia). cbn [obind].
  rewrite put_varint_spec by (rewrite ?zlen_zdrop, ?zlen_blank; try done; lia). cbn [obind].
  rewrite put_bytes_spec by (rewrite ?zlen_zdrop, ?zlen_blank; lia). cbn [obind m_buf].
  rewrite zdrop_all by (rewrite ?zlen_zdrop, ?zlen_blank; lia).
  rewrite app_nil_r, app_nil_l. by rewrite <- app_assoc.
Qed.

Lemma encode_ip_datagram_spec s pkt :
  0 <= s < 2 ^ 64 -> encode_ip_datagram s pkt = Ok (enc_datagram s pkt).
Proof.
  intros Hs. pose proof (quarter_is_varint s Hs) as Hq. unfold encode_ip_datagram.
  pose proof (write_two_varints (quarter_stream_id s) CONNECT_IP_CONTEXT_ID pkt
    (masque_varint_len (quarter_stream_id s) + masque_varint_len CONNECT_IP_CONTEXT_ID + zlen pkt)
    Hq context_is_varint) as H.
  rewrite !masque_varint_len_eq, !zlen_app in H by (done || apply context_is_varint).
  specialize (H ltac:(lia)). rewrite !masque_varint_len_eq by (done || apply context_is_varint).
  fold (enc_datagram s pkt) in H.
  apply obind_Ok in H as (m1 & -> & H). apply obind_Ok in H as (m2 & H2 & H).
  apply obind_Ok in H as (m3 & H3 & H). simpl. rewrite H2. simpl. rewrite H3. simpl. congruence.
Qed.

Lemma encode_capsule_spec kind value :
  is_varint kind -> is_varint (zlen value) -> encode_capsule kind value = Ok (enc_capsule kind value).
Proof.
  intros Hk Hv. unfold encode_capsule.
  pose proof (write_two_varints kind (zlen value) value
    (masque_varint_len kind + masque_varint_len (zlen value) + zlen value) Hk Hv) as H.
  rewrite !masque_varint_len_eq, !zlen_app in H by done. specialize (H ltac:(lia)).
  rewrite !masque_varint_len_eq by done. fold (enc_capsule kind value) in H.
  apply obind_Ok in H as (m1 & -> & H). apply obind_Ok in H as (m2 & H2 & H).
  apply obind_Ok in H as (m3 & H3 & H). simpl. rewrite H2. simpl. rewrite H3. simpl. congruence.
Qed.

(** ** HTTP/3 datagrams round trip *)

Lemma with_slice_nil b : with_slice b = mkOctets ([] ++ b) (zlen (@nil Z)).
Proof. done. Qed.

(** Reading the two integers of a reference encoding off the front of a buffer. *)
Lemma get_varint_first v q :
  is_varint v ->
  get_varint (with_slice (enc_varint v ++ q)) =
  Ok (v, mkOctets (enc_varint v ++ q) (zlen (enc_varint v))).
Proof. intros. apply (get_varint_spec [] v q). done. Qed.

Lemma get_varint_second u v q :
  is_varint v ->
  get_varint (mkOctets (enc_varint u ++ enc_varint v ++ q) (zlen (enc_varint u))) =
  Ok (v, mkOctets (enc_varint u ++ enc_varint v ++ q) (zlen (enc_varint u) + zlen (enc_varint v))).
Proof. apply get_varint_spec. Qed.

Lemma get_bytes_rest p m :
  get_bytes (o_cap (mkOctets (p ++ m) (zlen p))) (mkOctets (p ++ m) (zlen p)) =
  Ok (m, mkOctets (p ++ m) (zlen p + zlen m)).
Proof.
  unfold o_cap. cbn [o_buf o_off]. rewrite zlen_app.
  rewrite <- (app_nil_r m) at 2 4. apply get_bytes_spec. lia.
Qed.

Lemma decode_enc_datagram s s' pkt :
  0 <= s < 2 ^ 64 ->
  decode_ip_datagram (enc_datagram s pkt) s' =
  Ok (if quarter_stream_id s =? quarter_stream_id s' then Some pkt else None).
Proof.
  intros Hs. pose proof (quarter_is_varint s Hs). unfold decode_ip_datagram, enc_datagram.
  rewrite get_varint_first by done. cbn [map_err obind].
  destruct (quarter_stream_id s =? quarter_stream_id s') eqn:E; [|done]. cbn [negb].
  rewrite get_varint_second by apply context_is_varint. cbn [map_err obind negb].
  rewrite Z.eqb_refl. cbn [negb]. rewrite app_assoc, <- zlen_app.
  by rewrite get_bytes_rest.
Qed.

(** ** The parser on complete and on incomplete capsules *)

Lemma enc_varint_head v :
  is_varint v ->
  exists b r, enc_varint v = b :: r /\ varint_parse_len b = Some (zlen (enc_varint v)).
Proof.
  intros Hv. unfold is_varint, MAX_VAR_INT in Hv. unfold varint_parse_len.
  destruct (varint_cases v) as [[? ->]|[[? ->]|[[? ->]|[? ->]]]]; rewrite zlen_to_be.
  - destruct (to_be_head 0 0 v) as (b & r & E & Hb); [lia|simpl; lia|].
    exists b, r. by rewrite Hb.
  - destruct (to_be_head 1 1 v) as (b & r & E & Hb); [lia|simpl; lia|].
    exists b, r. by rewrite Hb.
  - destruct (to_be_head 3 2 v) as (b & r & E & Hb); [lia|simpl; lia|].
    exists b, r. by rewrite Hb.
  - destruct (to_be_head 7 3 v) as (b & r & E & Hb); [lia|simpl; lia|].
    exists b, r. by rewrite Hb.
Qed.

Lemma peek_end p : peek_u 1 (mkOctets p (zlen p)) = Err BufferTooShort.
Proof.
  unfold peek_u, idx_range. cbn [o_buf o_off].
  rewrite <- (app_nil_r p) at 1. by rewrite get_range_suffix by (rewrite ?zlen_nil; lia).
Qed.

(** Two ways of cutting a list: the second cut falls strictly inside the first
    part, or not. *)
Lemma app_cut {A} (a b c d : list A) :
  a ++ b = c ++ d -> (exists e, a = c ++ e /\ e <> []) \/ (exists e, c = a ++ e /\ b = e ++ d).
Proof.
  intros Heq. apply app_eq_inv in Heq as [(e & -> & ->)|(e & -> & ->)].
  - destruct e as [|x e]; [right; exists []; by rewrite !app_nil_r|]. left. by exists (x :: e).
  - right. by exists e.
Qed.

(** A cut variable-length integer is reported as too short. *)
Lemma get_varint_cut p t u v :
  is_varint v -> enc_varint v = t ++ u -> u <> [] ->
  get_varint (mkOctets (p ++ t) (zlen p)) = Err BufferTooShort.
Proof.
  intros Hv Ht Hu. destruct (enc_varint_head v Hv) as (b & r & E & Hl). unfold get_varint.
  destruct t as [|b' t]; [by rewrite app_nil_r, peek_end|].
  rewrite E in Ht. simplify_eq/=.
  rewrite <- (app_nil_r (b' :: t)), peek_head. cbn [obind]. rewrite Hl, E, app_nil_r.
  unfold o_cap. cbn [o_buf o_off]. destruct u as [|c u]; [done|].
  rewrite !zlen_app, !zlen_cons, zlen_app, zlen_cons. pose proof (zlen_nonneg u).
  by replace (_ <? _) with true by lia.
Qed.

Section Parser.
Context `{Target}.

(** A capsule the encoder can write and the parser's [usize] can hold. *)
Definition frame_ok (f : Z * bytes) : Prop :=
  is_varint f.1 /\ is_varint (zlen f.2) /\ zlen f.2 < 2 ^ usize_bits.
Definition enc_frame (f : Z * bytes) : bytes := enc_capsule f.1 f.2.

Lemma next_complete f rest :
  frame_ok f ->
  next (mkParser (enc_frame f ++ rest)) =
  ((let! c := classify f.1 f.2 in Ok (Some c)), mkParser rest).
Proof.
  destruct f as [kind value]. intros (Hk & Hv & Hu). simpl in *.
  unfold next, enc_frame, enc_capsule. cbn [cp_buf fst snd].
  rewrite <- !app_assoc. rewrite get_varint_first by done. rewrite get_varint_second by done.
  unfold as_usize. rewrite Z.mod_small by (pose proof (zlen_nonneg value); lia).
  unfold o_cap. cbn [o_buf o_off]. rewrite !zlen_app. pose proof (zlen_nonneg rest).
  replace (_ <? _) with false by lia. rewrite !app_assoc, <- zlen_app.
  rewrite <- (app_assoc _ value rest), get_bytes_spec by done.
  f_equal. f_equal. cbn [o_off]. rewrite <- zlen_app, app_assoc. by apply zdrop_app_length.
Qed.

(** Everything that can be left in the buffer once all complete capsules are
    out: nothing, or a proper prefix of the capsule to come. *)
Definition partial (t : bytes) (fs : list (Z * bytes)) : Prop :=
  match fs with
  | [] => t = []
  | f :: _ => exists u, enc_frame f = t ++ u /\ u <> []
  end.

Lemma next_nil : next (mkParser []) = (Ok None, mkParser []).
Proof. done. Qed.

Lemma next_partial t fs : Forall frame_ok fs -> partial t fs -> next (mkParser t) = (Ok None, mkParser t).
Proof.
  destruct fs as [|[kind value] fs]; [intros _ ->; apply next_nil|].
  intros [(Hk & Hv & Hu) _]%Forall_cons_iff (u & E & Hne). simpl in *.
  unfold enc_frame, enc_capsule in E. simpl in E. unfold next. cbn [cp_buf].
  destruct (app_cut _ _ _ _ E) as [(e & Ee & Hee)|(e & -> & E2)].
  - by rewrite with_slice_nil, (get_varint_cut [] t e kind).
  - rewrite get_varint_first by done.
    destruct (app_cut _ _ _ _ E2) as [(e2 & Ee2 & Hee2)|(e2 & -> & E3)].
    + by rewrite (get_varint_cut _ e e2 (zlen value)).
    + rewrite get_varint_second by done. unfold as_usize, o_cap. cbn [o_buf o_off].
      rewrite Z.mod_small by (pose proof (zlen_nonneg value); lia).
      rewrite !zlen_app. assert (zlen e2 < zlen value).
      { rewrite E3, zlen_app. destruct u; [done|]. rewrite zlen_cons. pose proof (zlen_nonneg u). lia. }
      by replace (_ <? _) with true by lia.
Qed.

(** The loop both tunnels run after each [push]: capsules until the parser asks
    for more or fails. *)
Fixpoint drain (fuel : nat) (p : CapsuleParser) : list Capsule * CapsuleParser :=
  match fuel with
  | O => ([], p)
  | S fuel =>
      match next p with
      | (Ok (Some c), p) => let '(cs, p) := drain fuel p in (c :: cs, p)
      | (_, p) => ([], p)
      end
  end.

Definition decodes (f : Z * bytes) (c : Capsule) : Prop := classify f.1 f.2 = Ok c.

Lemma drain_frames fs cs t fs2 fuel :
  Forall frame_ok fs -> Forall2 decodes fs cs -> Forall frame_ok fs2 -> partial t fs2 ->
  (length fs < fuel)%nat ->
  drain fuel (mkParser (concat (map enc_frame fs) ++ t)) = (cs, mkParser t).
Proof.
  intros Hok Hcs. revert fuel Hok. induction Hcs as [|f c fs cs Hc Hcs IH]; intros fuel Hok Ht2 Ht Hf.
  - destruct fuel as [|fuel]; [simpl in Hf; lia|]. cbn [concat map drain app].
    by rewrite (next_partial t fs2).
  - destruct fuel as [|fuel]; [simpl in Hf; lia|]. apply Forall_cons_iff in Hok as [Hf1 Hok].
    cbn [concat map drain]. rewrite <- app_assoc, next_complete by done.
    unfold decodes in Hc. rewrite Hc. cbn [obind].
    rewrite IH; [done|done|done|done|]. simpl in Hf. lia.
Qed.

(** Where a prefix of a stream of capsules ends. *)
Lemma stream_prefix fs data future :
  data ++ future = concat (map enc_frame fs) ->
  exists fs1 fs2 t, fs = fs1 ++ fs2 /\ data = concat (map enc_frame fs1) ++ t /\ partial t fs2.
Proof.
  revert data. induction fs as [|f fs IH]; intros data E; simpl in E.
  - exists [], [], data. apply app_eq_nil in E as [-> _]. done.
  - apply eq_sym, app_cut in E as [(e & Ed & He)|(e & -> & Ef)].
    + exists [], (f :: fs), data. split_and!; [done|done|]. by exists e.
    + destruct (IH e) as (fs1 & fs2 & t & -> & -> & Ht); [done|].
      exists (f :: fs1), fs2, t. split_and!; [done| |done]. simpl. by rewrite <- app_assoc.
Qed.

(** The receive path: each chunk of the body is pushed, then drained. *)
Fixpoint feed (p : CapsuleParser) (chunks : list bytes) : list Capsule * CapsuleParser :=
  match chunks with
  | [] => ([], p)
  | c :: chunks =>
      let p := push p c in
      let '(cs, p) := drain (S (length (cp_buf p))) p in
      let '(cs', p) := feed p chunks in
      (cs ++ cs', p)
  end.

Lemma enc_frame_pos f : (1 <= length (enc_frame f))%nat.
Proof.
  unfold enc_frame, enc_capsule. rewrite length_app.
  pose proof (enc_varint_pos f.1) as Hp. unfold zlen in Hp. lia.
Qed.

Lemma frames_length fs : (length fs <= length (concat (map enc_frame fs)))%nat.
Proof.
  induction fs as [|f fs IH]; simpl; [lia|]. rewrite length_app.
  pose proof (enc_frame_pos f). lia.
Qed.

Lemma partial_short t f fs : partial t (f :: fs) -> zlen t < zlen (enc_frame f).
Proof.
  intros (u & -> & Hu). rewrite zlen_app. destruct u as [|x u]; [done|].
  rewrite zlen_cons. pose proof (zlen_nonneg u). lia.
Qed.

Lemma feed_stream chunks fs cs t :
  Forall frame_ok fs -> Forall2 decodes fs cs -> partial t fs ->
  t ++ concat chunks = concat (map enc_frame fs) ->
  (forall c f, In c chunks -> In f fs -> zlen c + zlen (enc_frame f) <= MAX_CAPSULE_BUF) ->
  feed (mkParser t) chunks = (cs, mkParser []).
Proof.
  revert fs cs t. induction chunks as [|c chunks IH]; intros fs cs t Hok Hcs Ht E Hmax;
    cbn [feed concat] in *.
  - rewrite app_nil_r in E. destruct fs as [|f fs].
    + simpl in Ht. subst. by inversion Hcs.
    + pose proof (partial_short _ _ _ Ht) as Hlt. exfalso. rewrite E in Hlt. simpl in Hlt.
      rewrite zlen_app in Hlt. pose proof (zlen_nonneg (concat (map enc_frame fs))). lia.
  - unfold push. cbn [cp_buf].
    assert (zlen t + zlen c <= MAX_CAPSULE_BUF) as Hfit.
    { destruct fs as [|f fs].
      - simpl in E, Ht. apply app_eq_nil in E as [-> [-> _]%app_eq_nil]. by vm_compute.
      - pose proof (partial_short _ _ _ Ht). 
        specialize (Hmax c f (or_introl eq_refl) (or_introl eq_refl)). lia. }
    replace (MAX_CAPSULE_BUF <? zlen t + zlen c) with false by lia. cbn [cp_buf].
    rewrite app_assoc in E.
    destruct (stream_prefix fs (t ++ c) (concat chunks) E) as (fs1 & fs2 & t2 & -> & Ed & Ht2).
    apply Forall_app in Hok as [Hok1 Hok2]. apply Forall2_app_inv_l in Hcs as (cs1 & cs2 & H1 & H2 & ->).
    rewrite Ed, (drain_frames fs1 cs1 t2 fs2) by
      (try done; rewrite length_app; pose proof (frames_length fs1); lia).
    rewrite (IH fs2 cs2 t2); [done|done|done|done| |].
    + rewrite Ed, map_app, concat_app, <- app_assoc in E. by apply app_inv_head in E.
    + intros c' f' Hc' Hf'. apply Hmax; [by right|]. apply in_app_iff. by right.
Qed.

End Parser.

(** ** Safety of the payload parsers and of the parser *)

Lemma addr_len_cases v : (exists n, addr_len v = Ok n /\ 4 <= n) \/ (exists e, addr_len v = Err e).
Proof. unfold addr_len. repeat case_match; (left; eexists; split; [done|lia]) || (right; eauto). Qed.

Lemma reads_assigned b : cursor_ok b -> reads 1 b (read_assigned b).
Proof.
  intros Hb. unfold read_assigned. apply reads_weaken with (1 + (1 + (4 + (1 + 0)))); [lia|].
  apply reads_bind; [auto with cursors|]. intros id b1 Hb1.
  apply reads_bind; [auto with cursors|]. intros version b2 Hb2.
  destruct (addr_len_cases version) as [(n & -> & Hn)|(e & ->)]; [|done]. cbn [obind].
  apply reads_bind.
  - apply reads_map_err, reads_weaken with n; [lia|]. apply reads_get_bytes; [done|lia].
  - intros address b3 Hb3. apply reads_bind; [auto with cursors|]. intros prefix b4 Hb4.
    by apply reads_ret.
Qed.

Lemma reads_route b : cursor_ok b -> reads 1 b (read_route b).
Proof.
  intros Hb. unfold read_route. apply reads_weaken with (1 + (4 + (4 + (1 + 0)))); [lia|].
  apply reads_bind; [auto with cursors|]. intros version b2 Hb2.
  destruct (addr_len_cases version) as [(n & -> & Hn)|(e & ->)]; [|done]. cbn [obind].
  assert (forall o, cursor_ok o -> reads 4 o (map_err oct (get_bytes n o))) as Hget.
  { intros o Ho. apply reads_map_err, reads_weaken with n; [lia|]. apply reads_get_bytes; [done|lia]. }
  apply reads_bind; [auto|]. intros start b3 Hb3.
  apply reads_bind; [auto|]. intros end_ b4 Hb4.
  apply reads_bind; [auto with cursors|]. intros protocol b5 Hb5. by apply reads_ret.
Qed.

Lemma read_all_returns {A} (item : Octets -> result (A * Octets)) fuel b :
  (forall o, cursor_ok o -> reads 1 o (item o)) ->
  cursor_ok b -> o_cap b <= Z.of_nat fuel -> returns (read_all item fuel b).
Proof.
  intros Hitem. revert b. induction fuel as [|fuel IH]; intros b Hb Hf; cbn [read_all].
  - by replace (o_cap b <=? 0) with true by lia.
  - destruct (o_cap b <=? 0); [done|]. specialize (Hitem b Hb).
    destruct (item b) as [[x b']| | |]; try done. destruct Hitem as [Hb' Hc]. cbn [obind].
    apply returns_bind; [apply IH; [done|lia]|done].
Qed.

Lemma classify_returns kind value : bytes_ok value -> returns (classify kind value).
Proof.
  intros Hv. assert (forall A (item : Octets -> result (A * Octets)),
    (forall o, cursor_ok o -> reads 1 o (item o)) ->
    returns (read_all item (length value) (with_slice value))) as Hall.
  { intros A item Hi. apply read_all_returns; [done|auto with cursors|]. unfold o_cap. simpl. unfold zlen. lia. }
  unfold classify, parse_address_assign, parse_route_advertisement.
  repeat case_match; try done; apply returns_bind; try done; apply Hall;
    auto using reads_assigned, reads_route.
Qed.

Lemma as_usize_bound `{Target} v : 0 <= as_usize v < 2 ^ usize_bits.
Proof. unfold as_usize. apply Z.mod_pos_bound. by destruct usize_bits_cases as [-> | ->]. Qed.

Lemma next_returns `{Target} p :
  bytes_ok (cp_buf p) ->
  returns (next p).1 /\ bytes_ok (cp_buf (next p).2) /\ zlen (cp_buf (next p).2) <= zlen (cp_buf p).
Proof.
  intros Hp. unfold next. pose proof (with_slice_ok _ Hp) as H0.
  destruct (get_varint_cases _ H0) as [-> |(kind & n & -> & _ & Hn & Hc)]; [simpl; split_and!; done|].
  pose proof (o_advance_ok _ n H0 ltac:(lia)) as H1.
  destruct (get_varint_cases _ H1) as [-> |(v & m & -> & _ & Hm & Hc1)]; [simpl; split_and!; done|].
  pose proof (o_advance_ok _ m H1 ltac:(lia)) as H2. cbv zeta.
  pose proof (as_usize_bound v) as Hu.
  pose proof (get_bytes_cases (as_usize v) _ H2 (proj1 Hu)) as Hg.
  destruct (o_cap _ <? as_usize v); [simpl; split_and!; done|].
  destruct Hg as (value & -> & _ & Hval). simpl. split_and!.
  - apply returns_bind; [by apply classify_returns|done].
  - by apply bytes_ok_zdrop.
  - rewrite zlen_zdrop. pose proof (zlen_nonneg (cp_buf p)). lia.
Qed.

(** A capsule that comes out leaves the buffer shorter. *)
Lemma next_progress `{Target} p c :
  bytes_ok (cp_buf p) -> (next p).1 = Ok (Some c) -> zlen (cp_buf (next p).2) < zlen (cp_buf p).
Proof.
  intros Hp. unfold next. pose proof (with_slice_ok _ Hp) as H0.
  destruct (get_varint_cases _ H0) as [-> |(kind & n & -> & _ & Hn & Hc)]; [done|].
  pose proof (o_advance_ok _ n H0 ltac:(lia)) as H1.
  destruct (get_varint_cases _ H1) as [-> |(v & m & -> & _ & Hm & Hc1)]; [done|].
  pose proof (o_advance_ok _ m H1 ltac:(lia)) as H2. cbv zeta.
  pose proof (as_usize_bound v) as Hu.
  pose proof (get_bytes_cases (as_usize v) _ H2 (proj1 Hu)) as Hg.
  destruct (o_cap _ <? as_usize v); [done|].
  destruct Hg as (value & -> & _ & Hval). intros _. cbn [snd cp_buf].
  rewrite zlen_zdrop. unfold o_cap, o_advance, with_slice in *. cbn [o_off o_buf] in *. lia.
Qed.

Lemma push_bound p data : zlen (cp_buf (push p data)) <= MAX_CAPSULE_BUF.
Proof. unfold push. case_match; simpl; [by vm_compute|]. rewrite zlen_app. lia. Qed.

(** ** The header checksum *)

(** The sum of the 16-bit words of a buffer, an odd last byte padded with zero. *)
Fixpoint words (h : bytes) : Z :=
  match h with
  | a :: b :: r => (a * 256 + b) + words r
  | [a] => a * 256
  | [] => 0
  end.

Lemma list_ind2 {A} (P : list A -> Prop) :
  P [] -> (forall a, P [a]) -> (forall a b l, P l -> P (a :: b :: l)) -> forall l, P l.
Proof.
  intros H0 H1 H2 l. enough (P l /\ forall a, P (a :: l)) by tauto.
  induction l as [|b l [IH1 IH2]]; split; auto.
Qed.

Lemma words_bound h : bytes_ok h -> 0 <= words h <= 65535 * zlen h.
Proof.
  induction h as [|a|a b l IH] using list_ind2; intros Hh.
  - split; by vm_compute.
  - apply bytes_ok_cons in Hh as [Ha _]. unfold is_u8 in Ha. change (zlen [a]) with 1. cbn [words]. lia.
  - apply bytes_ok_cons in Hh as [Ha Hh]. apply bytes_ok_cons in Hh as [Hb Hh].
    specialize (IH Hh). unfold is_u8 in *. rewrite !zlen_cons. cbn [words]. lia.
Qed.

Lemma sum_words_exact h sum :
  bytes_ok h -> 0 <= sum -> sum + 65535 * zlen h < 2 ^ 32 -> sum_words sum h = sum + words h.
Proof.
  revert sum. induction h as [|a|a b l IH] using list_ind2; intros sum Hh Hs Hb; cbn [sum_words words].
  - lia.
  - apply bytes_ok_cons in Hh as [Ha _]. unfold is_u8, as_u32 in *.
    change (zlen [a]) with 1 in Hb. rewrite Z.shiftl_mul_pow2 by lia. change (2 ^ 8) with 256.
    rewrite Z.mod_small by lia. lia.
  - apply bytes_ok_cons in Hh as [Ha Hh]. apply bytes_ok_cons in Hh as [Hb' Hh].
    unfold is_u8 in *. rewrite !zlen_cons in Hb. pose proof (zlen_nonneg l).
    unfold as_u32. rewrite Z.mod_small by lia. rewrite IH by (done || lia). lia.
Qed.

Lemma words_app h k : Nat.even (length h) = true -> words (h ++ k) = words h + words k.
Proof.
  induction h as [|a|a b l IH] using list_ind2; intros He; [done..|].
  cbn [app words]. rewrite IH by done. lia.
Qed.

(** One turn of the folding loop keeps the residue modulo 65535 and the sign. *)
Lemma fold_step s :
  0 <= s -> let s' := Z.land s 0xffff + Z.shiftr s 16 in
  s' = s mod 65536 + s / 65536 /\ s' mod 65535 = s mod 65535 /\ (s' = 0 <-> s = 0).
Proof.
  intros Hs. change (Z.land s 0xffff) with (Z.land s (Z.ones 16)). rewrite Z.land_ones, Z.shiftr_div_pow2 by lia.
  change (2 ^ 16) with 65536. cbv zeta. pose proof (Z.div_mod s 65536 ltac:(lia)).
  pose proof (Z.mod_pos_bound s 65536 ltac:(lia)). split_and!; [done| |lia].
  rewrite <- (Z.mod_add (s mod 65536 + s / 65536) (s / 65536)) by lia. f_equal. lia.
Qed.

Lemma fold_carries_spec s :
  0 <= s < 2 ^ 32 ->
  exists r, fold_carries 2 s = Some r /\ 0 <= r <= 65535 /\ r mod 65535 = s mod 65535 /\ (r = 0 <-> s = 0).
Proof.
  intros Hs.
  assert (forall x, 0 <= x -> Z.shiftr x 16 =? 0 = (x <? 65536)) as Hz.
  { intros x Hx. rewrite Z.shiftr_div_pow2 by lia. change (2 ^ 16) with 65536.
    pose proof (Z.div_mod x 65536). pose proof (Z.mod_pos_bound x 65536). lia. }
  cbn [fold_carries]. rewrite Hz by lia. destruct (s <? 65536) eqn:E0; [exists s; split_and!; try lia; done|].
  destruct (fold_step s ltac:(lia)) as (E1 & M1 & Z1).
  set (s1 := Z.land s 0xffff + Z.shiftr s 16) in *.
  assert (0 <= s1 <= 0x1fffe).
  { rewrite E1. pose proof (Z.mod_pos_bound s 65536). pose proof (Z.div_mod s 65536).
    assert (s / 65536 < 65536) by (apply Z.div_lt_upper_bound; lia).
    assert (0 <= s / 65536) by (apply Z.div_pos; lia). lia. }
  rewrite Hz by lia. destruct (s1 <? 65536) eqn:E2; [exists s1; split_and!; try lia; done|].
  destruct (fold_step s1 ltac:(lia)) as (E3 & M2 & Z2).
  set (s2 := Z.land s1 0xffff + Z.shiftr s1 16) in *.
  assert (0 <= s2 <= 0xffff).
  { rewrite E3. pose proof (Z.mod_pos_bound s1 65536). pose proof (Z.div_mod s1 65536).
    assert (s1 / 65536 = 1) as -> by (symmetry; apply Z.div_unique with (s1 - 65536); lia). lia. }
  rewrite Hz by lia. replace (s2 <? 65536) with true by lia.
  exists s2. split_and!; try lia; try done.
Qed.

Lemma ipv4_header_checksum_spec h :
  bytes_ok h -> zlen h <= 65535 ->
  exists c, ipv4_header_checksum h = Some c /\ 0 <= c <= 65535 /\
    (c + words h) mod 65535 = 0 /\ (c = 65535 <-> words h = 0).
Proof.
  intros Hh Hl. pose proof (words_bound h Hh). pose proof (zlen_nonneg h).
  unfold ipv4_header_checksum. rewrite sum_words_exact by (done || lia). rewrite Z.add_0_l.
  destruct (fold_carries_spec (words h)) as (r & -> & Hr & Hm & Hz); [lia|].
  cbn [opt_bind]. exists (0xffff - as_u16 r).
  assert (as_u16 r = r) as Hr16 by (apply Z.mod_small; lia). rewrite Hr16.
  split_and!; [done|lia|lia| |lia].
  rewrite Z.add_mod, <- Hm, <- Z.add_mod by lia. replace (0xffff - r + r) with 65535 by lia. done.
Qed.

(** Filling the checksum in makes the whole header sum to zero in ones'
    complement: what the receiver checks. *)
Lemma checksum_verifies h1 h2 c :
  bytes_ok h1 -> bytes_ok h2 -> Nat.even (length h1) = true -> zlen h1 + 2 + zlen h2 <= 65535 ->
  ipv4_header_checksum (h1 ++ [0; 0] ++ h2) = Some c ->
  ipv4_header_checksum (h1 ++ to_be 2 c ++ h2) = Some 0.
Proof.
  intros H1 H2 He Hl Hc.
  assert (forall m, words (h1 ++ to_be 2 m ++ h2) = words h1 + words (to_be 2 m) + words h2) as Hw.
  { intros m. rewrite words_app by done. rewrite words_app by done. lia. }
  assert (forall m, bytes_ok (h1 ++ to_be 2 m ++ h2) /\ zlen (h1 ++ to_be 2 m ++ h2) <= 65535) as Hok.
  { intros m. rewrite !bytes_ok_app, !zlen_app, zlen_to_be. split_and!; auto with slices; lia. }
  change [0; 0] with (to_be 2 0) in Hc.
  destruct (Hok 0) as [Hok0 Hl0]. destruct (ipv4_header_checksum_spec _ Hok0 Hl0) as (c0 & E & Hc0 & Hm & Hz).
  rewrite Hc in E. injection E as <-. rewrite Hw in Hm, Hz. change (words (to_be 2 0)) with 0 in *.
  destruct (Hok c) as [Hokc Hlc]. destruct (ipv4_header_checksum_spec _ Hokc Hlc) as (d & -> & Hd & Hmd & Hzd).
  rewrite Hw in Hmd, Hzd.
  assert (words (to_be 2 c) = c) as Hwc.
  { cbn [to_be words]. change (256 ^ Z.of_nat 1) with 256. change (256 ^ Z.of_nat 0) with 1.
    pose proof (Z.div_mod c 256). pose proof (Z.mod_pos_bound c 256). rewrite Z.div_1_r.
    assert (c / 256 < 256) by (apply Z.div_lt_upper_bound; lia).
    assert (0 <= c / 256) by (apply Z.div_pos; lia). rewrite (Z.mod_small (c / 256)) by lia. lia. }
  rewrite Hwc in Hmd, Hzd. f_equal.
  pose proof (words_bound h1 H1). pose proof (words_bound h2 H2).
  assert ((words h1 + c + words h2) mod 65535 = 0) as Hsum.
  { rewrite <- Hm. f_equal. lia. }
  rewrite Z.add_mod, Hsum, Z.add_0_r, Z.mod_mod in Hmd by lia.
  assert (d = 0 \/ d = 65535) as [?| ->]; [|done|].
  { destruct (Z.eq_dec d 65535); [by right|left]. rewrite Z.mod_small in Hmd by lia. done. }
  assert (words h1 + c + words h2 = 0) by tauto. assert (c = 65535) by (apply Hz; lia). lia.
Qed.

(** ** Recovering the packet from a DATAGRAM capsule *)

(** A packet no context id can be mistaken for: its first two bytes are not
    [0x40 0x00], the two-byte spelling of 0.  An IPv4 header always has a
    header length of at least five words, so its first byte is at least
    [0x45]. *)
Definition unambiguous (pkt : bytes) : Prop :=
  match pkt with a :: b :: _ => ~ (a = 0x40 /\ b = 0) | _ => True end.

Lemma looks_like_ip_shape pkt :
  looks_like_ip_packet pkt = true ->
  exists a b r, pkt = a :: b :: r /\ (a / 16 = 4 \/ a / 16 = 6) /\ 20 <= zlen pkt.
Proof.
  destruct pkt as [|a [|b r]]; simpl; [done| |].
  - intros H. change (zlen [a]) with 1 in H. lia.
  - intros H. exists a, b, r. rewrite Z.shiftr_div_pow2 in H by lia. change (2 ^ 4) with 16 in H.
    split_and!; [done|lia|lia].
Qed.

Lemma get_varint_tag1 a b r :
  64 <= a < 128 -> 0 <= b < 256 ->
  get_varint (with_slice (a :: b :: r)) = Ok (Z.land (a * 256 + b) 0x3fff, mkOctets (a :: b :: r) 2).
Proof.
  intros Ha Hb. unfold get_varint. rewrite with_slice_nil.
  change ([] ++ a :: b :: r) with ([] ++ (a :: []) ++ (b :: r)). rewrite peek_head. cbn [obind].
  unfold varint_parse_len. rewrite Z.shiftr_div_pow2 by lia.
  replace (a / 2 ^ 6) with 1 by (apply Z.div_unique with (a - 64); simpl; lia).
  unfold o_cap. cbn [o_buf o_off app]. rewrite !zlen_cons, zlen_nil. pose proof (zlen_nonneg r).
  replace (_ <? 2) with false by lia.
  pose proof (get_u_spec [] [a; b] r 2 eq_refl) as Hg. simpl app in Hg.
  change (zlen (@nil Z)) with 0 in Hg. by rewrite Hg.
Qed.

Lemma strip_bare pkt :
  bytes_ok pkt -> looks_like_ip_packet pkt = true -> unambiguous pkt ->
  strip_datagram_context pkt = Some pkt.
Proof.
  intros Hok Hip Hun. destruct (looks_like_ip_shape pkt Hip) as (a & b & r & -> & Ha & Hl).
  apply bytes_ok_cons in Hok as [Hua Hok]. apply bytes_ok_cons in Hok as [Hub _].
  unfold strip_datagram_context. enough (strip_with_context (a :: b :: r) = None) as -> by (by rewrite Hip).
  unfold strip_with_context. pose proof (Z.div_mod a 16). pose proof (Z.mod_pos_bound a 16).
  unfold is_u8 in *. rewrite get_varint_tag1 by lia.
  replace (_ =? CONNECT_IP_CONTEXT_ID) with false; [done|]. symmetry. apply Z.eqb_neq.
  change 0x3fff with (Z.ones 14). rewrite Z.land_ones by lia. change (2 ^ 14) with 16384.
  simpl in Hun. intros Hctx. unfold CONNECT_IP_CONTEXT_ID in Hctx.
  pose proof (Z.div_mod (a * 256 + b) 16384). apply Hun. lia.
Qed.

Lemma strip_framed pkt :
  looks_like_ip_packet pkt = true ->
  strip_datagram_context (enc_varint CONNECT_IP_CONTEXT_ID ++ pkt) = Some pkt.
Proof.
  intros Hip. change (enc_varint CONNECT_IP_CONTEXT_ID) with [0]. simpl app.
  unfold strip_datagram_context, strip_with_context.
  change (0 :: pkt) with (enc_varint CONNECT_IP_CONTEXT_ID ++ pkt) at 1.
  rewrite get_varint_first by apply context_is_varint. cbn [Z.eqb CONNECT_IP_CONTEXT_ID].
  unfold o_cap. cbn [o_buf o_off].
  replace (zdrop _ _) with pkt; [by rewrite Hip|].
  change (0 :: pkt) with ([0] ++ pkt). symmetry. apply zdrop_app_length.
  rewrite !zlen_app. change (zlen (enc_varint 0)) with 1. change (zlen [0]) with 1. lia.
Qed.

(** Only something that looks like an IP packet is ever handed on, and it is
    the end of what arrived. *)
Lemma strip_sound payload pkt :
  strip_datagram_context payload = Some pkt ->
  looks_like_ip_packet pkt = true /\ exists pre, payload = pre ++ pkt.
Proof.
  unfold strip_datagram_context. destruct payload as [|x payload]; [done|].
  destruct (strip_with_context _) as [inner|] eqn:E.
  - intros [= <-]. unfold strip_with_context in E. repeat case_match; simplify_eq.
    split; [done|]. eexists. symmetry. apply ztake_zdrop.
  - case_match; intros; simplify_eq. split; [done|]. by exists [].
Qed.

(** ** Address and route lists round trip *)

Definition addr_ok (version : Z) (a : bytes) : Prop :=
  version = 4 /\ zlen a = 4 \/ version = 6 /\ zlen a = 16.
Definition assigned_ok (a : AssignedAddress) : Prop :=
  is_varint (request_id a) /\ addr_ok (aa_version a) (aa_address a).
Definition route_ok (r : RouteAdvertisement) : Prop :=
  addr_ok (ra_version r) (ra_start r) /\ addr_ok (ra_version r) (ra_end r).
Definition enc_assigned (a : AssignedAddress) : bytes :=
  enc_varint (request_id a) ++ [aa_version a] ++ aa_address a ++ [aa_prefix_len a].
Definition enc_route (r : RouteAdvertisement) : bytes :=
  [ra_version r] ++ ra_start r ++ ra_end r ++ [ra_protocol r].

Lemma addr_len_ok v a : addr_ok v a -> addr_len v = Ok (zlen a).
Proof. by intros [[-> ->]|[-> ->]]. Qed.

(** Moves a field from the unread to the read part of the buffer. *)
Lemma cursor_shift (p m q : bytes) off :
  off = zlen p + zlen m ->
  mkOctets (p ++ m ++ q) off = mkOctets ((p ++ m) ++ q) (zlen (p ++ m)).
Proof. intros ->. by rewrite zlen_app, app_assoc. Qed.

Lemma read_byte p b q :
  get_u8 (mkOctets (p ++ b :: q) (zlen p)) = Ok (b, mkOctets ((p ++ [b]) ++ q) (zlen (p ++ [b]))).
Proof. rewrite get_u8_spec. do 2 f_equal. by apply (cursor_shift p [b] q). Qed.

Lemma read_field n p m q :
  n = zlen m ->
  get_bytes n (mkOctets (p ++ m ++ q) (zlen p)) =
  Ok (m, mkOctets ((p ++ m) ++ q) (zlen (p ++ m))).
Proof. intros. rewrite get_bytes_spec by done. do 2 f_equal. by apply cursor_shift. Qed.

Lemma read_assigned_spec a p q :
  assigned_ok a ->
  read_assigned (mkOctets (p ++ enc_assigned a ++ q) (zlen p)) =
  Ok (a, mkOctets ((p ++ enc_assigned a) ++ q) (zlen (p ++ enc_assigned a))).
Proof.
  destruct a as [id v addr pre]. intros [Hid Ha]. unfold enc_assigned, read_assigned. simpl in *.
  rewrite <- !app_assoc. rewrite get_varint_spec by done. cbn [map_err obind].
  rewrite cursor_shift by done. cbn [app]. rewrite read_byte. cbn [map_err obind].
  rewrite (addr_len_ok _ _ Ha). cbn [obind]. rewrite <- (app_assoc addr [pre] q), read_field by done.
  cbn [map_err obind app]. rewrite read_byte. cbn [map_err obind]. by rewrite <- !app_assoc.
Qed.

Lemma read_route_spec r p q :
  route_ok r ->
  read_route (mkOctets (p ++ enc_route r ++ q) (zlen p)) =
  Ok (r, mkOctets ((p ++ enc_route r) ++ q) (zlen (p ++ enc_route r))).
Proof.
  destruct r as [v s e proto]. intros [Hs He]. unfold enc_route, read_route. simpl in *.
  rewrite read_byte. cbn [map_err obind]. rewrite (addr_len_ok _ _ Hs). cbn [obind].
  rewrite <- (app_assoc s (e ++ [proto]) q), read_field by done. cbn [map_err obind].
  rewrite <- (app_assoc e [proto] q), read_field by (destruct Hs as [[? ?]|[? ?]], He as [[? ?]|[? ?]]; lia).
  cbn [map_err obind]. cbn [app]. rewrite read_byte. cbn [map_err obind].
  rewrite <- !app_assoc. cbn [app]. by rewrite <- !app_assoc.
Qed.

Lemma read_all_spec {A} (item : Octets -> result (A * Octets)) (enc : A -> bytes) (ok : A -> Prop) l p fuel :
  (forall x p q, ok x -> item (mkOctets (p ++ enc x ++ q) (zlen p)) =
     Ok (x, mkOctets ((p ++ enc x) ++ q) (zlen (p ++ enc x)))) ->
  (forall x, 1 <= zlen (enc x)) ->
  Forall ok l -> (length l <= fuel)%nat ->
  read_all item fuel (mkOctets (p ++ concat (map enc l)) (zlen p)) = Ok l.
Proof.
  intros Hitem Hpos Hl. revert p fuel. induction Hl as [|x l Hx Hl IH]; intros p fuel Hf.
  - cbn [concat map]. rewrite app_nil_r. destruct fuel; cbn [read_all]; unfold o_cap; cbn [o_buf o_off];
      by replace (zlen p - zlen p <=? 0) with true by lia.
  - destruct fuel as [|fuel]; [simpl in Hf; lia|]. cbn [read_all concat map].
    unfold o_cap. cbn [o_buf o_off]. rewrite !zlen_app. specialize (Hpos x).
    pose proof (zlen_nonneg (concat (map enc l))). replace (_ <=? 0) with false by lia.
    rewrite Hitem by done. cbn [obind]. rewrite IH by (simpl in Hf; lia). done.
Qed.

Lemma concat_enc_length {A} (enc : A -> bytes) l :
  (forall x, 1 <= zlen (enc x)) -> (length l <= length (concat (map enc l)))%nat.
Proof.
  intros Hp. induction l as [|x l IH]; simpl; [lia|]. rewrite length_app. specialize (Hp x).
  unfold zlen in Hp. lia.
Qed.

Lemma enc_assigned_pos a : 1 <= zlen (enc_assigned a).
Proof.
  unfold enc_assigned. rewrite zlen_app. pose proof (enc_varint_pos (request_id a)).
  pose proof (zlen_nonneg ([aa_version a] ++ aa_address a ++ [aa_prefix_len a])). lia.
Qed.

Lemma enc_route_pos r : 1 <= zlen (enc_route r).
Proof.
  unfold enc_route. cbn [app]. rewrite zlen_cons.
  pose proof (zlen_nonneg (ra_start r ++ ra_end r ++ [ra_protocol r])). lia.
Qed.

(** ** Properties *)

(** An IP packet sent in an HTTP/3 datagram on any stream is encoded
    without error and read back unchanged by the receiver of that stream; a
    receiver whose stream has another quarter id ignores it. *)
Theorem datagram_roundtrip (s : Z) (pkt : bytes) :
  0 <= s < 2 ^ 64 ->
  exists d, encode_ip_datagram s pkt = Ok d /\
    decode_ip_datagram d s = Ok (Some pkt) /\
    forall s', quarter_stream_id s' <> quarter_stream_id s -> decode_ip_datagram d s' = Ok None.
Proof.
  intros Hs. exists (enc_datagram s pkt). rewrite encode_ip_datagram_spec by done.
  split_and!; [done| |]; intros; rewrite decode_enc_datagram by done.
  - by rewrite Z.eqb_refl.
  - by replace (_ =? _) with false by lia.
Qed.

Lemma datagram_roundtrip_witness :
  exists d, encode_ip_datagram 8 [69; 0; 0; 24] = Ok d /\
    decode_ip_datagram d 8 = Ok (Some [69; 0; 0; 24]) /\
    forall s', quarter_stream_id s' <> quarter_stream_id 8 -> decode_ip_datagram d s' = Ok None.
Proof. apply (datagram_roundtrip 8 [69; 0; 0; 24]). lia. Defined.

(** C1: cut a sequence of capsules into chunks in any way, with no chunk so
    large that together with one of the capsules it exceeds the parser's
    buffer of 256 KiB (a parser that holds more is reset): pushing the chunks
    one by one and draining the parser after each yields exactly the capsules
    that were encoded, in order, and leaves the parser empty. *)
Theorem capsule_stream_chunking `{Target} (chunks : list bytes) (fs : list (Z * bytes)) (cs : list Capsule) :
  Forall frame_ok fs -> Forall2 decodes fs cs ->
  concat chunks = concat (map enc_frame fs) ->
  (forall c f, In c chunks -> In f fs -> zlen c + zlen (enc_frame f) <= MAX_CAPSULE_BUF) ->
  Forall (fun f => encode_capsule f.1 f.2 = Ok (enc_frame f)) fs /\
  feed parser_new chunks = (cs, parser_new).
Proof.
  intros Hok Hcs Hc Hm. split.
  - eapply Forall_impl; [|exact Hok]. intros f (? & ? & ?). by apply encode_capsule_spec.
  - destruct fs as [|f fs].
    + by apply (feed_stream chunks [] cs []).
    + apply (feed_stream chunks (f :: fs) cs []); try done. exists (enc_frame f).
      split; [done|]. pose proof (enc_frame_pos f). intros E. rewrite E in *. simpl in *. lia.
Qed.

Lemma capsule_stream_chunking_witness :
  feed (H := target64) parser_new [[0; 3; 1]; [2; 3; 0]; [0]] =
  ([Datagram [1; 2; 3]; Datagram []], parser_new).
Proof.
  apply (capsule_stream_chunking (H := target64) [[0; 3; 1]; [2; 3; 0]; [0]] [(0, [1; 2; 3]); (0, [])]
    [Datagram [1; 2; 3]; Datagram []]).
  - repeat constructor; vm_compute; done.
  - repeat constructor; vm_compute; done.
  - reflexivity.
  - intros c f [<-|[<-|[<-|[]]]] [<-|[<-|[]]]; vm_compute; done.
Defined.

(** The states a parser reaches under pushes of arbitrary bytes and calls of
    [next]. *)
Inductive parser_reach `{Target} : CapsuleParser -> Prop :=
| reach_new : parser_reach parser_new
| reach_push p data : parser_reach p -> bytes_ok data -> parser_reach (push p data)
| reach_next p : parser_reach p -> parser_reach (next p).2.

(** C38: whatever bytes the peer sends, the capsule parser's buffer stays within
    256 KiB and every call of [next] returns to its caller: no panic, and the
    payload loops end. *)
Theorem capsule_parser_safe `{Target} (p : CapsuleParser) :
  parser_reach p -> zlen (cp_buf p) <= MAX_CAPSULE_BUF /\ bytes_ok (cp_buf p) /\ returns (next p).1.
Proof.
  intros Hp. enough (zlen (cp_buf p) <= MAX_CAPSULE_BUF /\ bytes_ok (cp_buf p)) as [Hl Hb].
  { split_and!; [done..|]. by apply next_returns. }
  induction Hp as [|p data Hp [Hl Hb] Hd|p Hp [Hl Hb]].
  - split; [by vm_compute|constructor].
  - split; [apply push_bound|]. unfold push. case_match; [constructor|]. by apply bytes_ok_app.
  - destruct (next_returns p Hb) as (_ & Hb' & Hl'). split; [lia|done].
Qed.

Lemma capsule_parser_safe_witness :
  zlen (cp_buf (push parser_new [1; 1; 9])) <= MAX_CAPSULE_BUF /\
  bytes_ok (cp_buf (push parser_new [1; 1; 9])) /\
  returns (next (H := target32) (push parser_new [1; 1; 9])).1.
Proof.
  apply (capsule_parser_safe (H := target32)). constructor; [constructor|].
  repeat constructor; vm_compute; done.
Defined.

(** The IP packet of a DATAGRAM capsule is recovered whether the edge sends
    it bare or behind a zero context id; and nothing that does not look like an
    IP packet is ever handed to the network stack. *)
Theorem strip_recovers_packet (pkt : bytes) :
  bytes_ok pkt -> looks_like_ip_packet pkt = true -> unambiguous pkt ->
  strip_datagram_context pkt = Some pkt /\
  strip_datagram_context (enc_varint CONNECT_IP_CONTEXT_ID ++ pkt) = Some pkt /\
  forall payload q, strip_datagram_context payload = Some q ->
    looks_like_ip_packet q = true /\ exists pre, payload = pre ++ q.
Proof. intros. split_and!; [by apply strip_bare|by apply strip_framed|apply strip_sound]. Qed.

Definition sample_packet : bytes :=
  [0x45; 0; 0; 24; 0; 0; 0; 0; 64; 17; 0; 0; 198; 18; 0; 1; 1; 1; 1; 1; 0; 0; 0; 0].

Lemma strip_recovers_packet_witness :
  strip_datagram_context sample_packet = Some sample_packet /\
  strip_datagram_context (0 :: sample_packet) = Some sample_packet.
Proof.
  destruct (strip_recovers_packet sample_packet) as (H1 & H2 & _).
  - repeat constructor; vm_compute; done.
  - reflexivity.
  - simpl. lia.
  - split; [exact H1|exact H2].
Defined.

(** The list an ADDRESS_ASSIGN or ROUTE_ADVERTISEMENT capsule carries is
    read back entry by entry. *)
Theorem address_lists_roundtrip (la : list AssignedAddress) (lr : list RouteAdvertisement) :
  Forall assigned_ok la -> Forall route_ok lr ->
  parse_address_assign (concat (map enc_assigned la)) = Ok la /\
  parse_route_advertisement (concat (map enc_route lr)) = Ok lr.
Proof.
  intros Ha Hr. split.
  - apply (read_all_spec read_assigned enc_assigned assigned_ok la []);
      auto using read_assigned_spec, enc_assigned_pos, concat_enc_length.
  - apply (read_all_spec read_route enc_route route_ok lr []);
      auto using read_route_spec, enc_route_pos, concat_enc_length.
Qed.

Lemma address_lists_roundtrip_witness :
  parse_address_assign [1; 4; 172; 16; 0; 2; 32] = Ok [mkAssigned 1 4 [172; 16; 0; 2] 32] /\
  parse_route_advertisement [4; 0; 0; 0; 0; 255; 255; 255; 255; 0] =
    Ok [mkRoute 4 [0; 0; 0; 0] [255; 255; 255; 255] 0].
Proof.
  apply (address_lists_roundtrip [mkAssigned 1 4 [172; 16; 0; 2] 32]
    [mkRoute 4 [0; 0; 0; 0] [255; 255; 255; 255] 0]).
  - repeat constructor; vm_compute; done.
  - repeat constructor; vm_compute; done.
Defined.

Lemma looks_like_v4 r : 19 <= zlen r -> looks_like_ip_packet (0x45 :: r) = true.
Proof.
  intros. unfold looks_like_ip_packet. rewrite zlen_cons. by replace (20 <=? 1 + zlen r) with true by lia.
Qed.

(** The DNS probe is a well-formed IPv4 packet: its total length field is
    its length, and its header sums to zero in ones' complement. *)
Theorem probe_packet_valid (src : bytes) (id sport dns_id : Z) :
  length src = 4%nat -> bytes_ok src ->
  exists pkt, build_dns_probe_packet src id sport dns_id = Some pkt /\
    of_be (zdrop 2 (ztake 4 pkt)) = zlen pkt /\
    ipv4_header_checksum (ztake 20 pkt) = Some 0 /\
    looks_like_ip_packet pkt = true.
Proof.
  intros Hl Hs. unfold build_dns_probe_packet. cbv zeta.
  set (dns := probe_dns_query dns_id).
  assert (zlen dns = 32) as Hd.
  { unfold dns, probe_dns_query. rewrite !zlen_app, zlen_to_be. reflexivity. }
  rewrite Hd. change (as_u16 (20 + (8 + 32))) with 60.
  set (h1 := [0x45; 0] ++ to_be 2 60 ++ to_be 2 id ++ [0; 0] ++ [64; 17]).
  set (h2 := src ++ [8; 8; 8; 8]).
  assert (forall c, probe_ip_header src 60 id c = h1 ++ to_be 2 c ++ h2) as Hh.
  { intros c. unfold probe_ip_header, h1, h2. by rewrite <- !app_assoc. }
  assert (bytes_ok h1 /\ bytes_ok h2) as [Hb1 Hb2].
  { unfold h1, h2. rewrite !bytes_ok_app. split_and!; auto with slices; repeat constructor; vm_compute; done. }
  assert (zlen h2 = 8) as Hl2 by (unfold h2; rewrite zlen_app; unfold zlen at 1; rewrite Hl; done).
  destruct (ipv4_header_checksum_spec (h1 ++ to_be 2 0 ++ h2)) as (c & Hc & Hcb & _).
  { rewrite !bytes_ok_app. auto with slices. }
  { rewrite !zlen_app, zlen_to_be, Hl2. by vm_compute. }
  rewrite Hh, Hc. cbn [opt_bind]. eexists. split; [done|]. rewrite Hh.
  split_and!.
  - rewrite !zlen_app, !zlen_to_be, Hl2, Hd. reflexivity.
  - rewrite <- !app_assoc.
    replace (h1 ++ to_be 2 c ++ h2 ++ _) with ((h1 ++ to_be 2 c ++ h2) ++ to_be 2 sport ++ to_be 2 53 ++
      to_be 2 (as_u16 (8 + 32)) ++ [0; 0] ++ dns) by (by rewrite <- !app_assoc).
    rewrite ztake_app_length by (rewrite !zlen_app, zlen_to_be, Hl2; reflexivity).
    apply checksum_verifies; try done. rewrite Hl2. by vm_compute.
  - unfold h1. cbn [app]. apply looks_like_v4. autorewrite with slices. rewrite Hl2, Hd. by vm_compute.
Qed.

Lemma probe_packet_valid_witness :
  exists pkt, build_dns_probe_packet [172; 16; 0; 2] 7 30000 9 = Some pkt /\
    of_be (zdrop 2 (ztake 4 pkt)) = zlen pkt /\
    ipv4_header_checksum (ztake 20 pkt) = Some 0 /\
    looks_like_ip_packet pkt = true.
Proof.
  apply (probe_packet_valid [172; 16; 0; 2] 7 30000 9); [reflexivity|].
  repeat constructor; vm_compute; done.
Defined.

(** On a 32-bit target the declared length of a capsule is cut to 32 bits:
    a DATAGRAM capsule that announces a multiple of 4 GiB is taken for an
    empty one at once, and the bytes of its value are then read as capsules of
    their own, where a 64-bit build waits for the value. *)
Theorem capsule_length_wraps_on_32_bits (k : Z) (rest : bytes) :
  0 < k < 2 ^ 30 -> zlen rest < k * 2 ^ 32 ->
  let buf := enc_varint CAPSULE_DATAGRAM ++ enc_varint (k * 2 ^ 32) ++ rest in
  next (H := target32) (mkParser buf) = (Ok (Some (Datagram [])), mkParser rest) /\
  next (H := target64) (mkParser buf) = (Ok None, mkParser buf).
Proof.
  intros Hk Hr. cbv zeta. assert (is_varint (k * 2 ^ 32)) as Hv by (unfold is_varint, MAX_VAR_INT; lia).
  assert (is_varint CAPSULE_DATAGRAM) as H0 by by vm_compute.
  unfold next. cbn [cp_buf]. rewrite get_varint_first by done. rewrite get_varint_second by done.
  unfold as_usize, o_cap. cbn [usize_bits target32 target64 o_buf o_off].
  rewrite Z.mod_mul by lia. rewrite (Z.mod_small (k * 2 ^ 32)) by lia. rewrite !zlen_app.
  pose proof (zlen_nonneg rest). split; [|by replace (_ <? k * 2 ^ 32) with true by lia].
  replace (_ <? 0) with false by lia.
  rewrite app_assoc, <- zlen_app, <- (app_nil_l rest), get_bytes_spec by done.
  cbn [classify obind o_off app]. f_equal. f_equal.
  change (zlen (@nil Z)) with 0. rewrite Z.add_0_r. by apply zdrop_app_length.
Qed.

Lemma capsule_length_wraps_on_32_bits_witness :
  next (H := target32) (mkParser (enc_varint CAPSULE_DATAGRAM ++ enc_varint (1 * 2 ^ 32) ++ [2; 0])) =
    (Ok (Some (Datagram [])), mkParser [2; 0]).
Proof. apply (capsule_length_wraps_on_32_bits 1 [2; 0]); vm_compute; done. Defined.
