(* ===== verification/H2Tunnel.v ===== *)
(** * The MASQUE tunnel over HTTP/2

    Models masque_h2.rs: the timeouts it reads from the environment, the
    delivery of capsules to the network stack ([drain_capsules]), the endpoint
    check ([verify_h2]'s receive loop) and the event loop of [run] as a step
    function.  The HTTP/2 library, TLS and the clock are outside: an event
    carries the result of the library call it stands for, and the time at which
    the loop is entered is an argument.  [tokio::select!] is taken to pick any
    branch that is enabled. *)

From S2P Require Import Prelude RustStr NetAddr Errors Channels Octets Masque.
From Stdlib Require Import ZArith Lia ZifyBool String List.
From stdpp Require Import base list numbers option decidable.
Open Scope Z_scope.

(** ** Settings *)

Definition data_check_enabled (env : Env) : bool :=
  match env (str "SOILDTUNNEL_MASQUE_NO_DATA_CHECK") with None => true | Some _ => false end.
Definition validation_timeout (env : Env) : Z :=
  env_positive env (str "SOILDTUNNEL_MASQUE_VALIDATE_SECS") 10.
Definition h2_keepalive_interval (env : Env) : Z :=
  env_positive env (str "SOILDTUNNEL_MASQUE_H2_KEEPALIVE_SECS") 15.
Definition h2_keepalive_timeout (env : Env) : Z :=
  env_positive env (str "SOILDTUNNEL_MASQUE_H2_KEEPALIVE_TIMEOUT_SECS") 20.
Definition DATA_PROBE_REQUIRED_SUCCESSES : Z := 2.

(** [rand] is the random [u64]; saturating arithmetic, then a remainder. *)
Definition jittered_keepalive (env : Env) (rand : Z) : Z :=
  let base := Z.max (h2_keepalive_interval env) 8 in
  let span := base / 2 in
  let low := Z.max (Z.max 0 (base - span)) 5 in
  let high := Z.min (base + span) (2 ^ 64 - 1) in
  low + rand mod (high - low + 1).

Definition enabled `{UnicodeTables} (env : Env) : bool :=
  match env (str "SOILDTUNNEL_MASQUE_HTTP2") with
  | Some v =>
      let v := to_lowercase (trim v) in
      bool_decide (v = str "1") || bool_decide (v = str "true") || bool_decide (v = str "h2")
      || bool_decide (v = str "yes") || bool_decide (v = str "on")
  | None => false
  end.

Definition h2_peer (env : Env) (quic_peer : SocketAddr) : SocketAddr :=
  match env (str "SOILDTUNNEL_MASQUE_H2_PEER") with
  | Some v => match parse_socket_addr (trim v) with Some a => a | None => quic_peer end
  | None => quic_peer
  end.

(** The request line and headers of [build_connect_request]. *)
Record ConnectRequest : Type := mkRequest { method : bytes; uri : bytes; headers : list (bytes * bytes) }.
Definition build_connect_request (authority : bytes) : ConnectRequest :=
  mkRequest (str "CONNECT") (str "https://" ++ (authority ++ str ":443"))
    [(str "cf-connect-proto", CF_CONNECT_PROTOCOL); (str "pq-enabled", str "false"); (str "user-agent", [])].

(** ** Delivering capsules *)

Record AssignedAddr : Type := mkAddr { ad_ip : IpAddr; ad_prefix : Z }.

Definition bytes_to_ip (version : Z) (b : bytes) : option IpAddr :=
  match version with
  | 4 => if zlen b =? 4 then Some (V4 b) else None
  | 6 => if zlen b =? 16 then Some (V6 b) else None
  | _ => None
  end.

Fixpoint deliver_addrs (addr_tx : option (Chan AssignedAddr)) (addrs : list AssignedAddress)
    : option (Chan AssignedAddr) :=
  match addrs with
  | [] => addr_tx
  | a :: addrs =>
      let addr_tx :=
        match bytes_to_ip (aa_version a) (aa_address a), addr_tx with
        | Some ip, Some tx => Some (try_send tx (mkAddr ip (aa_prefix_len a))).2
        | _, tx => tx
        end in
      deliver_addrs addr_tx addrs
  end.

(** The two channels and the parser [drain_capsules] works on. *)
Record Sinks : Type := mkSinks {
  capsules : CapsuleParser; inbound_tx : Chan bytes; addr_tx : option (Chan AssignedAddr) }.

(** [drain_capsules]: [Ok delivered], with the loop bounded by [fuel]. *)
Fixpoint drain_capsules `{Target} (fuel : nat) (delivered : bool) (s : Sinks) : result bool * Sinks :=
  match fuel with
  | O => (OutOfFuel, s)
  | S fuel =>
      let '(r, p) := next (capsules s) in
      match r with
      | Ok (Some (Datagram payload)) =>
          match strip_datagram_context payload with
          | None => drain_capsules fuel delivered (mkSinks p (inbound_tx s) (addr_tx s))
          | Some pkt =>
              let '(r, tx) := try_send (inbound_tx s) pkt in
              match r with
              | Sent | Full => drain_capsules fuel true (mkSinks p tx (addr_tx s))
              | Closed => (Ok true, mkSinks p tx (addr_tx s))
              end
          end
      | Ok (Some (AddressAssign addrs)) =>
          drain_capsules fuel delivered (mkSinks p (inbound_tx s) (deliver_addrs (addr_tx s) addrs))
      | Ok (Some _) => drain_capsules fuel delivered (mkSinks p (inbound_tx s) (addr_tx s))
      | Ok None => (Ok delivered, mkSinks p (inbound_tx s) (addr_tx s))
      | Err _ => (Ok delivered, mkSinks p (inbound_tx s) (addr_tx s))
      | Panic => (Panic, s)
      | OutOfFuel => (OutOfFuel, s)
      end
  end.

(** Every capsule takes at least two bytes of the buffer. *)
Definition drain_fuel (s : Sinks) : nat := S (length (cp_buf (capsules s))).

(** ** Sending a capsule

    What the HTTP/2 library answers to one [send_capsule]: the capacity after
    [reserve_capacity], the results of the [poll_capacity] calls that follow
    (with the capacity they leave), and the result of [send_data].  Errors of
    the library are their texts. *)
Record SendIo : Type := mkIoAns {
  si_capacity : Z; si_polls : list (option (Z + bytes)); si_send : unit + bytes }.

(** The [while] loop: [None] while the library has not answered. *)
Fixpoint wait_capacity (len capacity : Z) (polls : list (option (Z + bytes))) : option (result unit) :=
  if capacity <? len then
    match polls with
    | [] => None
    | Some (inl capacity) :: polls => wait_capacity len capacity polls
    | Some (inr e) :: _ => Some (Err (Masque (str "h2 capacity: " ++ e)))
    | None :: _ => Some (Err (Masque (str "h2 stream closed")))
    end
  else Some (Ok tt).

(** [wire] is the DATA frames the library accepted, oldest first. *)
Definition send_capsule (io : SendIo) (wire : list bytes) (data : bytes) : option (result unit * list bytes) :=
  let len := zlen data in
  if len =? 0 then Some (Ok tt, wire)
  else let? r := wait_capacity len (si_capacity io) (si_polls io) in
       match r with
       | Ok _ =>
           match si_send io with
           | inl _ => Some (Ok tt, wire ++ [data])
           | inr e => Some (Err (Masque (str "h2 send_data: " ++ e)), wire)
           end
       | r => Some (r, wire)
       end.

(** ** The endpoint check

    [verify_h2] from the answer to the CONNECT request on.  [None]: the
    library has not answered yet, which the caller's timeout ends. *)
Inductive body_event : Type :=
| Chunk (c : bytes)
| BodyError (e : bytes)
| BodyEnd.

Inductive verify_progress : Type :=
| More (successes : Z) (p : CapsuleParser)
| Verdict (r : result unit).

Definition send_packet (probe : bytes) (io : SendIo) (wire : list bytes) : option (result unit * list bytes) :=
  match encode_datagram_capsule probe with
  | Ok framed => send_capsule io wire framed
  | _ => Some (Panic, wire)
  end.

(** The inner loop; [io] answers the follow-up probe. *)
Fixpoint verify_drain `{Target} (fuel : nat) (probe : bytes) (io : SendIo) (successes : Z) (p : CapsuleParser)
    : option verify_progress :=
  match fuel with
  | O => Some (Verdict OutOfFuel)
  | S fuel =>
      let '(r, p) := next p in
      match r with
      | Ok (Some (Datagram _)) =>
          let successes := successes + 1 in
          if DATA_PROBE_REQUIRED_SUCCESSES <=? successes then Some (Verdict (Ok tt))
          else let? '(r, _) := send_packet probe io [] in
               match r with
               | Ok _ => verify_drain fuel probe io successes p
               | r => Some (Verdict r)
               end
      | Ok (Some _) => verify_drain fuel probe io successes p
      | Ok None | Err _ => Some (More successes p)
      | Panic => Some (Verdict Panic)
      | OutOfFuel => Some (Verdict OutOfFuel)
      end
  end.

(** The outer loop over what the response body yields. *)
Fixpoint verify_loop `{Target} (evs : list body_event) (probe : bytes) (io : SendIo) (successes : Z)
    (p : CapsuleParser) : option (result unit) :=
  match evs with
  | [] => None
  | Chunk c :: evs =>
      let p := push p c in
      let? v := verify_drain (S (length (cp_buf p))) probe io successes p in
      match v with
      | More successes p => verify_loop evs probe io successes p
      | Verdict r => Some r
      end
  | BodyError e :: _ => Some (Err (Masque (str "h2 body: " ++ e)))
  | BodyEnd :: _ => Some (Err (Masque (str "h2 stream closed before data")))
  end.

Definition is_success (status : Z) : bool := (200 <=? status) && (status <? 300).
Definition bad_status (status : Z) : SoildTunnelError :=
  Masque (str "h2 connect-ip status " ++ dec_str status).

Definition verify_h2 `{Target} (data_check : bool) (status : Z) (probe : bytes) (io1 io2 : SendIo)
    (evs : list body_event) : option (result unit) :=
  if negb (is_success status) then Some (Err (bad_status status))
  else if negb data_check then Some (Ok tt)
  else let? '(r, _) := send_packet probe io1 [] in
       match r with
       | Ok _ => verify_loop evs probe io2 0 parser_new
       | r => Some r
       end.

(** ** The event loop of [run] *)

Inductive Control : Type := Migrate_ | Close.

(** What the loop reads of its configuration; times are in milliseconds. *)
Record RunConfig : Type := mkRun {
  data_check : bool; probe_packet : bytes; validate_ms : Z; keepalive_timeout : Z }.

Record Tunnel : Type := mkTunnel {
  sinks : Sinks;
  ready_fired : bool;
  ready_tx : bool;            (* the sender is still there to be taken *)
  ready_signals : Z;          (* how often it was used *)
  validate_successes : Z;
  validate_deadline : option Z;
  awaiting_pong : bool;
  pong_deadline : option Z;
  wire : list bytes;
  end_of_stream : bool }.

Definition set_sinks (t : Tunnel) (s : Sinks) : Tunnel :=
  mkTunnel s (ready_fired t) (ready_tx t) (ready_signals t) (validate_successes t) (validate_deadline t)
    (awaiting_pong t) (pong_deadline t) (wire t) (end_of_stream t).
Definition set_wire (t : Tunnel) (w : list bytes) : Tunnel :=
  mkTunnel (sinks t) (ready_fired t) (ready_tx t) (ready_signals t) (validate_successes t)
    (validate_deadline t) (awaiting_pong t) (pong_deadline t) w (end_of_stream t).
Definition set_pong (t : Tunnel) (awaiting : bool) (dl : option Z) : Tunnel :=
  mkTunnel (sinks t) (ready_fired t) (ready_tx t) (ready_signals t) (validate_successes t)
    (validate_deadline t) awaiting dl (wire t) (end_of_stream t).
Definition set_successes (t : Tunnel) (n : Z) : Tunnel :=
  mkTunnel (sinks t) (ready_fired t) (ready_tx t) (ready_signals t) n (validate_deadline t)
    (awaiting_pong t) (pong_deadline t) (wire t) (end_of_stream t).
Definition set_deadline (t : Tunnel) (dl : option Z) : Tunnel :=
  mkTunnel (sinks t) (ready_fired t) (ready_tx t) (ready_signals t) (validate_successes t) dl
    (awaiting_pong t) (pong_deadline t) (wire t) (end_of_stream t).
(** [send_stream.send_data(Bytes::new(), true)]. *)
Definition close_stream (t : Tunnel) : Tunnel :=
  mkTunnel (sinks t) (ready_fired t) (ready_tx t) (ready_signals t) (validate_successes t)
    (validate_deadline t) (awaiting_pong t) (pong_deadline t) (wire t) true.
(** [ready_fired = true; if let Some(tx) = ready_tx.take() { tx.send(()) }]. *)
Definition fire_ready (t : Tunnel) : Tunnel :=
  mkTunnel (sinks t) true false (if ready_tx t then ready_signals t + 1 else ready_signals t)
    (validate_successes t) (validate_deadline t) (awaiting_pong t) (pong_deadline t) (wire t)
    (end_of_stream t).

(** A branch of the [select!], with the answers of the calls it makes. *)
Inductive event : Type :=
| KeepaliveTick (ping : unit + bytes)
| Pong (r : unit + bytes)
| ProbeTick (io : SendIo)
| Ctrl (c : option Control)
| Outbound (pkt : option bytes) (io : SendIo)
| Body (b : body_event) (io : SendIo).

Inductive step_result : Type :=
| Continue (t : Tunnel)
| Return (r : result unit) (t : Tunnel).

(** The [if] conditions of the branches. *)
Definition ev_enabled (c : RunConfig) (t : Tunnel) (ev : event) : bool :=
  match ev with
  | KeepaliveTick _ => ready_fired t && negb (awaiting_pong t)
  | Pong _ => awaiting_pong t
  | ProbeTick _ => data_check c && negb (ready_fired t)
  | _ => true
  end.

Definition fresh_tunnel (s : Sinks) (has_ready_tx : bool) : Tunnel :=
  mkTunnel s false has_ready_tx 0 0 None false None [] false.

(** From the answer to the CONNECT request to the first turn of the loop. *)
Definition run_start (c : RunConfig) (status : Z) (now : Z) (io : SendIo) (s : Sinks) (has_ready_tx : bool)
    : option step_result :=
  let t := fresh_tunnel s has_ready_tx in
  if negb (is_success status) then Some (Return (Err (bad_status status)) t)
  else if data_check c then
    let? '(_, w) := send_packet (probe_packet c) io (wire t) in
    Some (Continue (set_deadline (set_wire t w) (Some (now + validate_ms c))))
  else Some (Continue (fire_ready t)).

Definition past (now : Z) (dl : option Z) : bool :=
  match dl with Some dl => dl <=? now | None => false end.

(** The two checks at the head of the loop.  Nothing wakes the loop for them:
    they are made when a branch of [select!] has let it begin another turn. *)
Definition loop_head (c : RunConfig) (now : Z) (t : Tunnel) : step_result :=
  if data_check c && negb (ready_fired t) && past now (validate_deadline t) then
    Return (Err (Masque (str "h2 data-plane validation timeout (handshake ok, no traffic)"))) (close_stream t)
  else if past now (pong_deadline t) then
    Return (Err (Masque (str "h2 keepalive timeout"))) (close_stream t)
  else Continue t.

(** A chunk of the body: the capsules it completes, then the readiness count. *)
Definition on_chunk `{Target} (c : RunConfig) (t : Tunnel) (chunk : bytes) (io : SendIo) : option step_result :=
  let s := mkSinks (push (capsules (sinks t)) chunk) (inbound_tx (sinks t)) (addr_tx (sinks t)) in
  let '(r, s) := drain_capsules (drain_fuel s) false s in
  let t := set_sinks t s in
  match r with
  | Ok got_data =>
      if got_data && negb (ready_fired t) then
        let t := set_successes t (as_u32 (validate_successes t + 1)) in
        if DATA_PROBE_REQUIRED_SUCCESSES <=? validate_successes t then
          Some (Continue (fire_ready (set_deadline t None)))
        else let? '(_, w) := send_packet (probe_packet c) io (wire t) in
             Some (Continue (set_wire t w))
      else Some (Continue t)
  | Err e => Some (Return (Err e) t)
  | Panic => Some (Return Panic t)
  | OutOfFuel => Some (Return OutOfFuel t)
  end.

Definition handle `{Target} (c : RunConfig) (now : Z) (ev : event) (t : Tunnel) : option step_result :=
  match ev with
  | KeepaliveTick (inl _) => Some (Continue (set_pong t true (Some (now + keepalive_timeout c))))
  | KeepaliveTick _ => Some (Continue t)
  | Pong (inl _) => Some (Continue (set_pong t false None))
  | Pong (inr e) => Some (Return (Err (Masque (str "h2 keepalive: " ++ e))) (close_stream t))
  | ProbeTick io =>
      let? '(_, w) := send_packet (probe_packet c) io (wire t) in Some (Continue (set_wire t w))
  | Ctrl (Some Close) | Ctrl None => Some (Return (Ok tt) (close_stream t))
  | Ctrl (Some Migrate_) => Some (Continue t)
  | Outbound (Some ip_packet) io =>
      let? '(r, w) := send_packet ip_packet io (wire t) in
      match r with
      | Ok _ => Some (Continue (set_wire t w))
      | r => Some (Return r (set_wire t w))
      end
  | Outbound None _ => Some (Return (Ok tt) (close_stream t))
  | Body (Chunk chunk) io => on_chunk c t chunk io
  | Body (BodyError e) _ => Some (Return (Err (Masque (str "h2 body: " ++ e))) t)
  | Body BodyEnd _ => Some (Return (Ok tt) t)
  end.

(** One turn of the loop; [head] and [now] are the two readings of the clock. *)
Definition turn `{Target} (c : RunConfig) (head now : Z) (ev : event) (t : Tunnel) : option step_result :=
  match loop_head c head t with
  | Continue t => handle c now ev t
  | Return r t => Some (Return r t)
  end.

(** ** [drain_capsules] against the plain draining loop *)

(** The packets the capsules of a drain carry. *)
Definition packets_of (cs : list Capsule) : list bytes :=
  omap (fun c => match c with Datagram payload => strip_datagram_context payload | _ => None end) cs.

Lemma drain_capsules_returns `{Target} fuel d s :
  bytes_ok (cp_buf (capsules s)) -> zlen (cp_buf (capsules s)) < Z.of_nat fuel ->
  exists b s', drain_capsules fuel d s = (Ok b, s') /\ bytes_ok (cp_buf (capsules s')) /\
    zlen (cp_buf (capsules s')) <= zlen (cp_buf (capsules s)).
Proof.
  revert d s. induction fuel as [|fuel IH]; intros d s Hb Hf.
  { pose proof (zlen_nonneg (cp_buf (capsules s))). lia. }
  cbn [drain_capsules]. pose proof (next_returns _ Hb) as (Hr & Hb' & Hl).
  pose proof (next_progress (capsules s)) as Hp.
  destruct (next (capsules s)) as [r p] eqn:En. simpl in *.
  assert (forall d tx a, r <> Ok None -> (exists c, r = Ok (Some c)) ->
    exists b s', drain_capsules fuel d (mkSinks p tx a) = (Ok b, s') /\ bytes_ok (cp_buf (capsules s')) /\
      zlen (cp_buf (capsules s')) <= zlen (cp_buf (capsules s))) as Hgo.
  { intros d0 tx a _ [c ->]. specialize (Hp c Hb eq_refl).
    destruct (IH d0 (mkSinks p tx a)) as (b & s' & ? & ? & ?); simpl in *; [done|lia|].
    exists b, s'. split_and!; [done|done|lia]. }
  destruct r as [[[]|]|e| |]; try done; eauto 10.
  destruct (strip_datagram_context payload); [|eauto 10].
  destruct (try_send (inbound_tx s) l) as [[] tx]; eauto 10.
Qed.

Lemma drain_capsules_delivers `{Target} fuel d s cs p :
  ch_open (inbound_tx s) = true ->
  bytes_ok (cp_buf (capsules s)) -> zlen (cp_buf (capsules s)) < Z.of_nat fuel ->
  drain fuel (capsules s) = (cs, p) ->
  (length (ch_queue (inbound_tx s)) + length (packets_of cs) <= ch_cap (inbound_tx s))%nat ->
  exists a, drain_capsules fuel d s =
    (Ok (d || negb (bool_decide (packets_of cs = []))),
     mkSinks p (mkChan (ch_queue (inbound_tx s) ++ packets_of cs) (ch_cap (inbound_tx s)) true) a).
Proof.
  revert d s cs p. induction fuel as [|fuel IH]; intros d s cs p Ho Hb Hf Hd Hc.
  { pose proof (zlen_nonneg (cp_buf (capsules s))). lia. }
  cbn [drain_capsules drain] in *. pose proof (next_returns _ Hb) as (Hr & Hb' & Hl).
  pose proof (next_progress (capsules s)) as Hp.
  destruct (next (capsules s)) as [r p0] eqn:En. simpl in *.
  assert (forall o : Chan bytes, ch_open o = true -> mkChan (ch_queue o ++ []) (ch_cap o) true = o) as Hid.
  { intros [q k o] E. simpl in *. by rewrite app_nil_r, E. }
  destruct r as [[c|]|e| |]; try done.
  2-3: simplify_eq; exists (addr_tx s); cbn [packets_of omap list_omap]; rewrite (Hid _ Ho), bool_decide_true by done; by destruct d.
  destruct (drain fuel p0) as [cs' p'] eqn:Hd'. simplify_eq. specialize (Hp c Hb eq_refl).
  destruct c as [addrs| |payload|routes|k v]; simpl in Hc |- *;
    try (eapply (IH d (mkSinks _ _ _)); simpl; try done; lia).
  destruct (strip_datagram_context payload) as [pkt|]; [|eapply (IH d (mkSinks _ _ _)); simpl; try done; lia].
  simpl in Hc. unfold try_send. rewrite Ho. cbn [negb].
  replace (_ <=? _)%nat with false by (symmetry; apply Nat.leb_gt; lia).
  destruct (IH true (mkSinks p0 (mkChan (ch_queue (inbound_tx s) ++ [pkt]) (ch_cap (inbound_tx s)) true)
    (addr_tx s)) cs' p) as [a Ha]; simpl; try done; [lia|rewrite length_app; simpl; lia|].
  exists a. simpl in Ha. by rewrite Ha, <- app_assoc, orb_true_r.
Qed.

(** The receive path of the loop on the chunks of a body. *)
Definition receive `{Target} (s : Sinks) (chunk : bytes) : Sinks :=
  let s := mkSinks (push (capsules s) chunk) (inbound_tx s) (addr_tx s) in
  (drain_capsules (drain_fuel s) false s).2.

Lemma push_ok p data : bytes_ok (cp_buf p) -> bytes_ok data -> bytes_ok (cp_buf (push p data)).
Proof. intros. unfold push. case_match; simpl; [constructor|]. by apply bytes_ok_app. Qed.

Lemma receive_feed `{Target} chunks s cs p :
  ch_open (inbound_tx s) = true -> bytes_ok (cp_buf (capsules s)) -> Forall bytes_ok chunks ->
  feed (capsules s) chunks = (cs, p) ->
  (length (ch_queue (inbound_tx s)) + length (packets_of cs) <= ch_cap (inbound_tx s))%nat ->
  ch_queue (inbound_tx (fold_left receive chunks s)) = ch_queue (inbound_tx s) ++ packets_of cs /\
  capsules (fold_left receive chunks s) = p.
Proof.
  revert s cs p. induction chunks as [|c chunks IH]; intros s cs p Ho Hb Hcs Hf Hc; cbn [feed fold_left] in *.
  { simplify_eq. by rewrite app_nil_r. }
  apply Forall_cons_iff in Hcs as [Hc1 Hcs]. pose proof (push_ok _ _ Hb Hc1) as Hpu.
  destruct (drain _ _) as [cs1 p1] eqn:Hd. destruct (feed p1 chunks) as [cs2 p2] eqn:Hf2. simplify_eq.
  unfold packets_of in Hc. rewrite omap_app, length_app in Hc. fold (packets_of cs1) (packets_of cs2) in Hc.
  set (s1 := mkSinks (push (capsules s) c) (inbound_tx s) (addr_tx s)).
  destruct (drain_capsules_delivers (drain_fuel s1) false s1 cs1 p1) as [a Ha];
    [done|done|unfold drain_fuel, zlen; lia|done|simpl; lia|].
  assert (receive s c = mkSinks p1 (mkChan (ch_queue (inbound_tx s) ++ packets_of cs1) (ch_cap (inbound_tx s)) true) a)
    as ->. { unfold receive. fold s1. by rewrite Ha. }
  destruct (drain_capsules_returns (drain_fuel s1) false s1) as (b & s' & Hs' & Hb' & _);
    [done|unfold drain_fuel, zlen; lia|]. rewrite Ha in Hs'. simplify_eq.
  edestruct IH as [-> ->]; [done|done|done|exact Hf2|simpl; rewrite length_app; lia|].
  split; [|done]. simpl. unfold packets_of. by rewrite omap_app, app_assoc.
Qed.

(** A packet as an edge may send it: with a context id before it, or bare. *)
Definition payload_of (p : bool * bytes) : bytes :=
  if p.1 then enc_varint CONNECT_IP_CONTEXT_ID ++ p.2 else p.2.
Definition packet_frame (p : bool * bytes) : Z * bytes := (CAPSULE_DATAGRAM, payload_of p).
Definition packet_ok (p : bool * bytes) : Prop :=
  bytes_ok p.2 /\ looks_like_ip_packet p.2 = true /\ unambiguous p.2 /\ zlen p.2 <= 65535.

Lemma zlen_payload_of p : zlen p.2 <= zlen (payload_of p) <= 1 + zlen p.2.
Proof.
  destruct p as [[] pkt]; unfold payload_of; cbn [fst snd]; rewrite ?zlen_app; [|lia].
  change (zlen (enc_varint CONNECT_IP_CONTEXT_ID)) with 1. lia.
Qed.

Lemma datagram_frame_ok `{Target} payload : zlen payload <= 65536 -> frame_ok (CAPSULE_DATAGRAM, payload).
Proof.
  intros Hl. pose proof (zlen_nonneg payload).
  split_and!; cbn [fst snd]; [by vm_compute|unfold is_varint, MAX_VAR_INT; lia|].
  destruct usize_bits_cases as [-> | ->]; lia.
Qed.

Lemma datagram_frame_len payload :
  0 <= zlen payload <= 65536 -> zlen (enc_capsule CAPSULE_DATAGRAM payload) <= 65545.
Proof.
  intros. unfold enc_capsule. rewrite !zlen_app. change (zlen (enc_varint CAPSULE_DATAGRAM)) with 1.
  destruct (varint_cases (zlen payload)) as [[? ->]|[[? ->]|[[? ->]|[? ->]]]]; rewrite zlen_to_be; lia.
Qed.

Lemma packets_of_frames ps :
  Forall packet_ok ps -> packets_of (map (fun p => Datagram (payload_of p)) ps) = map snd ps.
Proof.
  induction 1 as [|[tag pkt] ps (Hb & Hip & Hu & _) Hps IH]; [done|]. unfold packets_of in *. cbn [map omap list_omap].
  assert (strip_datagram_context (payload_of (tag, pkt)) = Some pkt) as ->; [|by rewrite IH].
  destruct tag; unfold payload_of; simpl; [by apply strip_framed|by apply strip_bare].
Qed.

(** C2: however the HTTP/2 body is cut into chunks, the IP packets an edge
    sends in DATAGRAM capsules, with or without a context id, reach the network
    stack's queue complete, unchanged and in order, when the queue has room. *)
Theorem h2_inbound_delivery `{Target} (ps : list (bool * bytes)) (chunks : list bytes) (s : Sinks) :
  Forall packet_ok ps -> Forall bytes_ok chunks ->
  concat chunks = concat (map (fun p => enc_frame (packet_frame p)) ps) ->
  Forall (fun c => zlen c <= 131072) chunks ->
  capsules s = parser_new -> ch_open (inbound_tx s) = true ->
  (length (ch_queue (inbound_tx s)) + length ps <= ch_cap (inbound_tx s))%nat ->
  ch_queue (inbound_tx (fold_left receive chunks s)) = ch_queue (inbound_tx s) ++ map snd ps.
Proof.
  intros Hps Hb Hc Hm Hcp Ho Hq. rewrite <- packets_of_frames by done.
  assert (forall p, In p ps -> zlen (payload_of p) <= 65536) as Hl.
  { intros p Hp. pose proof (zlen_payload_of p). rewrite Forall_forall in Hps.
    destruct (Hps p) as (_ & _ & _ & ?); [done|]. lia. }
  apply receive_feed with (p := parser_new); [done|by rewrite Hcp; constructor|done| |].
  - rewrite Hcp. assert (concat chunks = concat (map enc_frame (map packet_frame ps))) as Hc'.
    { by rewrite map_map. }
    apply (feed_stream chunks (map packet_frame ps)); [| | |done|].
    + apply Forall_map, Forall_forall. intros p Hp. apply datagram_frame_ok, Hl, Hp.
    + clear. induction ps; simpl; constructor; done.
    + destruct ps as [|p ps]; [done|]. exists (enc_frame (packet_frame p)). split; [done|].
      pose proof (enc_frame_pos (packet_frame p)). intros E. rewrite E in *. simpl in *. lia.
    + intros c f Hcc (p & <- & Hp)%in_map_iff. rewrite Forall_forall in Hm.
      specialize (Hm c Hcc).
      pose proof (datagram_frame_len (payload_of p)). specialize (Hl p Hp).
      pose proof (zlen_nonneg (payload_of p)). unfold enc_frame, packet_frame, MAX_CAPSULE_BUF. cbn [fst snd]. lia.
  - rewrite packets_of_frames by done. by rewrite length_map.
Qed.

Definition sample_ip : bytes := 0x45 :: replicate 19 1.
Definition sample_sinks : Sinks := mkSinks parser_new (mkChan [] 4 true) None.

Lemma h2_inbound_delivery_witness :
  ch_queue (inbound_tx (fold_left (receive (H := target64))
    [[0; 21; 0; 0x45]; replicate 19 1 ++ [0]; [20] ++ sample_ip] sample_sinks)) = [sample_ip; sample_ip].
Proof.
  apply (h2_inbound_delivery (H := target64) [(true, sample_ip); (false, sample_ip)]
    [[0; 21; 0; 0x45]; replicate 19 1 ++ [0]; [20] ++ sample_ip] sample_sinks).
  - repeat constructor; try (vm_compute; congruence); intros [? ?]; lia.
  - repeat constructor; vm_compute; congruence.
  - reflexivity.
  - repeat constructor; vm_compute; congruence.
  - reflexivity.
  - reflexivity.
  - simpl; lia.
Defined.

(** ** The states the event loop reaches

    [padded x l k]: [k] is [l] with copies of [x] put in between. *)
Inductive padded {A : Type} (x : A) : list A -> list A -> Prop :=
| padded_nil : padded x [] []
| padded_keep a l k : padded x l k -> padded x (l ++ [a]) (k ++ [a])
| padded_add l k : padded x l k -> padded x l (k ++ [x]).

Section Loop.
Context `{Target} (c : RunConfig) (has_tx : bool) (start : Z).

(** Whether a turn on [ev] delivers a packet. *)
Definition delivers (t : Tunnel) (ev : event) : Z :=
  match ev with
  | Body (Chunk chunk) _ =>
      let s := mkSinks (push (capsules (sinks t)) chunk) (inbound_tx (sinks t)) (addr_tx (sinks t)) in
      match (drain_capsules (drain_fuel s) false s).1 with Ok true => 1 | _ => 0 end
  | _ => 0
  end.
Definition accepted (ev : event) : list bytes :=
  match ev with Outbound (Some p) _ => [p] | _ => [] end.
Definition ev_ok (ev : event) : Prop :=
  match ev with
  | Body (Chunk chunk) _ => bytes_ok chunk
  | Outbound (Some p) _ => zlen p <= 65535
  | _ => True
  end.

(** [reach t n log]: the loop that was entered at time [start] is in state [t]
    after [n] chunks that delivered packets, and has taken the packets [log]
    from the network stack. *)
Inductive reach : Tunnel -> Z -> list bytes -> Prop :=
| reach_start status io s t :
    capsules s = parser_new -> run_start c status start io s has_tx = Some (Continue t) -> reach t 0 []
| reach_turn t n log head now ev t' :
    reach t n log -> ev_enabled c t ev = true -> ev_ok ev ->
    turn c head now ev t = Some (Continue t') ->
    reach t' (n + delivers t ev) (log ++ accepted ev).

Definition frame (pkt : bytes) : bytes := enc_capsule CAPSULE_DATAGRAM pkt.

Record loop_inv (t : Tunnel) (n : Z) (log : list bytes) : Prop := {
  inv_buf : bytes_ok (cp_buf (capsules (sinks t)));
  inv_pong : awaiting_pong t = bool_decide (is_Some (pong_deadline t));
  inv_ready : ready_fired t = if data_check c then 2 <=? n else true;
  inv_count : 0 <= n /\ (ready_fired t = false -> validate_successes t = n);
  inv_signal : ready_tx t = has_tx && negb (ready_fired t) /\
    ready_signals t = if has_tx && ready_fired t then 1 else 0;
  inv_deadline : ready_fired t = false -> validate_deadline t = Some (start + validate_ms c);
  inv_open : end_of_stream t = false;
  inv_wire : exists sent, padded (probe_packet c) log sent /\ wire t = map frame sent;
  inv_log : Forall (fun p => zlen p <= 65535) log }.

Hypothesis probe_small : zlen (probe_packet c) <= 65535.

Lemma send_packet_cases pkt io w r w' :
  zlen pkt <= 65535 -> send_packet pkt io w = Some (r, w') ->
  returns r /\ match r with Ok _ => w' = w ++ [frame pkt] | _ => w' = w end.
Proof.
  intros Hl. pose proof (zlen_nonneg pkt). unfold send_packet, encode_datagram_capsule.
  rewrite encode_capsule_spec by (unfold is_varint, MAX_VAR_INT, CAPSULE_DATAGRAM; lia).
  unfold send_capsule. fold (frame pkt).
  assert (zlen (frame pkt) =? 0 = false) as ->.
  { unfold frame. pose proof (enc_frame_pos (CAPSULE_DATAGRAM, pkt)) as Hp. unfold enc_frame, zlen in *. cbn [fst snd] in Hp. lia. }
  assert (forall polls cap r, wait_capacity (zlen (frame pkt)) cap polls = Some r -> returns r) as Hw.
  { induction polls as [|[[]|] polls IH]; simpl; intros cap r0; repeat case_match; intros; simplify_eq; eauto; done. }
  destruct (wait_capacity _ _ _) as [r0|] eqn:E; [|done]. simpl. apply Hw in E.
  destruct r0; try done; repeat case_match; intros; simplify_eq; done.
Qed.

Lemma padded_send log sent io w r w' :
  padded (probe_packet c) log sent -> w = map frame sent ->
  send_packet (probe_packet c) io w = Some (r, w') ->
  exists sent, padded (probe_packet c) log sent /\ w' = map frame sent.
Proof.
  intros Hp -> [_ Hs]%send_packet_cases; [|done]. destruct r; subst; eauto.
  exists (sent ++ [probe_packet c]). split; [by constructor|]. by rewrite map_app.
Qed.

Lemma inv_start status io s t :
  capsules s = parser_new -> run_start c status start io s has_tx = Some (Continue t) -> loop_inv t 0 [].
Proof.
  intros Hs. unfold run_start. case_match; [done|].
  assert (bytes_ok (cp_buf (capsules s))) as Hb by (rewrite Hs; constructor).
  destruct (data_check c) eqn:Hd.
  - destruct (send_packet _ _ _) as [[r w]|] eqn:E; [|done]. intros [= <-].
    eapply padded_send in E as (sent & ? & ->); [|constructor|done].
    constructor; simpl; rewrite ?Hd; eauto; by destruct has_tx.
  - intros [= <-]. constructor; simpl; rewrite ?Hd; try (by destruct has_tx).
    exists []. split; [constructor|done].
Qed.

Lemma loop_head_continue now t t' : loop_head c now t = Continue t' -> t' = t.
Proof. unfold loop_head. repeat case_match; congruence. Qed.

(** A chunk: the parser's state, the readiness count and its consequences. *)
Lemma inv_chunk t n log chunk io t' :
  loop_inv t n log -> bytes_ok chunk -> on_chunk c t chunk io = Some (Continue t') ->
  loop_inv t' (n + delivers t (Body (Chunk chunk) io)) log.
Proof.
  intros [Hb Hpo Hr [Hn Hc] [Hs1 Hs2] Hd Ho (sent & Hw & Hw') Hlog] Hch. unfold on_chunk, delivers.
  set (s := mkSinks _ _ _).
  destruct (drain_capsules_returns (drain_fuel s) false s) as (b & s' & E & Hb' & _);
    [by apply push_ok|unfold drain_fuel, zlen; lia|].
  rewrite E. cbn [fst]. destruct b; cbn [andb].
  2:{ intros [= <-]. rewrite Z.add_0_r. constructor; simpl; eauto. }
  change (ready_fired (set_sinks t s')) with (ready_fired t).
  change (validate_successes (set_sinks t s')) with (validate_successes t).
  destruct (ready_fired t) eqn:Hf; cbn [negb].
  { intros [= <-]. constructor; simpl; rewrite ?Hf; eauto; [|split; [lia|done]].
    destruct (data_check c); [lia|done]. }
  destruct (data_check c) eqn:Hdc; [|done]. specialize (Hc eq_refl). rewrite Hc.
  assert (as_u32 (n + 1) = n + 1) as -> by (unfold as_u32; apply Z.mod_small; lia).
  cbn [validate_successes set_successes]. change DATA_PROBE_REQUIRED_SUCCESSES with 2.
  destruct (2 <=? n + 1) eqn:H2.
  - intros [= <-]. constructor; simpl; rewrite ?Hdc; eauto; try done; [by split; [lia|]|].
    rewrite Hs1, Hs2. by destruct has_tx.
  - destruct (send_packet _ _ _) as [[r w]|] eqn:E'; [|done]. intros [= <-].
    eapply padded_send in E' as (sent' & ? & ->); [|done|done].
    constructor; simpl; rewrite ?Hf, ?Hdc; eauto. split; [lia|done].
Qed.

Lemma reach_inv t n log : reach t n log -> loop_inv t n log.
Proof.
  induction 1 as [|t n log head now ev t' Hre Hi Hen Hok Ht]; [by eapply inv_start|].
  unfold turn in Ht. destruct (loop_head c head t) as [t0|] eqn:Hh; [|done].
  apply loop_head_continue in Hh as ->.
  destruct ev as [[]|[]|io|[[]|]|[pkt|] io|[chunk|e|] io]; simpl in Ht, Hen; simplify_eq;
    try (rewrite ?Z.add_0_r, ?app_nil_r; done).
  all: try (change (accepted _) with (@nil bytes); rewrite app_nil_r).
  - destruct Hi as [? ? ? ? ? ? ? ? ?]. rewrite Z.add_0_r. by constructor.
  - destruct Hi as [? ? ? ? ? ? ? ? ?]. rewrite Z.add_0_r. by constructor.
  - destruct (send_packet _ _ _) as [[r w]|] eqn:E; [|done]. simpl in Ht. simplify_eq.
    destruct Hi as [? ? ? ? ? ? ? (sent & Hw & Hw') ?]. rewrite Z.add_0_r.
    eapply padded_send in E; [|done|done]. by constructor.
  - destruct (send_packet _ _ _) as [[r w]|] eqn:E; [|done]. simpl in Ht, Hok.
    apply send_packet_cases in E as [_ E]; [|done]. destruct r; simplify_eq.
    destruct Hi as [? ? ? ? ? ? ? (sent & Hw & Hw') ?]. rewrite Z.add_0_r. constructor; try done; simpl.
    + exists (sent ++ [pkt]). split; [by constructor|]. by rewrite map_app, Hw'.
    + apply Forall_app. split; [done|]. by repeat constructor.
  - by eapply inv_chunk.
Qed.

(** A ping is outstanding only once the tunnel is ready. *)
Lemma chunk_keeps_ready t chunk io t' : on_chunk c t chunk io = Some (Continue t') ->
  awaiting_pong t' = awaiting_pong t /\ (ready_fired t = true -> ready_fired t' = true).
Proof.
  unfold on_chunk. destruct (drain_capsules _ _ _) as [[got| | |] s]; try done. cbn [ready_fired set_sinks].
  destruct (got && _); [|by intros [= <-]]. destruct (_ <=? _); [by intros [= <-]|].
  destruct (send_packet _ _ _) as [[r w]|]; [|done]. by intros [= <-].
Qed.
Lemma awaited_ready t n log : reach t n log -> awaiting_pong t = true -> ready_fired t = true.
Proof.
  induction 1 as [status io s t Hs E|t n log head now ev t' Hre IH Hen Hok Ht].
  - revert E. unfold run_start. case_match; [done|]. destruct (data_check c); [|by intros [= <-]].
    destruct (send_packet _ _ _) as [[r w]|]; [|done]. by intros [= <-].
  - unfold turn in Ht. destruct (loop_head c head t) as [t0|] eqn:Hh; [|done]. apply loop_head_continue in Hh as ->.
    destruct ev as [[]|[]|io|[[]|]|[pkt|] io|[chunk|e|] io]; simpl in Ht, Hen; simplify_eq; try done.
    + simpl. intros _. by apply andb_true_iff in Hen as [? _].
    + destruct (send_packet _ _ _) as [[r w]|]; [|done]. simpl in Ht. by simplify_eq.
    + destruct (send_packet _ _ _) as [[r w]|]; [|done]. simpl in Ht. by destruct r; simplify_eq.
    + apply chunk_keeps_ready in Ht as [-> Hr]. auto.
Qed.

Lemma turn_returns t n log head now ev r t' :
  reach t n log -> ev_ok ev -> turn c head now ev t = Some (Return r t') -> returns r.
Proof.
  intros Hre%reach_inv Hok. unfold turn. destruct (loop_head c head t) as [t0|r0 t0] eqn:Hh.
  2:{ intros [= <- <-]. unfold loop_head in Hh. repeat case_match; simplify_eq; done. }
  apply loop_head_continue in Hh as ->.
  destruct ev as [[]|[]|io|[[]|]|[pkt|] io|[chunk|e|] io]; simpl in Hok |- *; intros Ht; simplify_eq; try done.
  - destruct (send_packet _ _ _) as [[]|]; done.
  - destruct (send_packet _ _ _) as [[r' w]|] eqn:E; [|done]. apply send_packet_cases in E as [E _]; [|done].
    simpl in Ht. destruct r'; simplify_eq; done.
  - unfold on_chunk in Ht. set (s := mkSinks _ _ _) in Ht.
    destruct (drain_capsules_returns (drain_fuel s) false s) as (b & s' & E & _);
      [apply push_ok; [apply Hre|done]|unfold drain_fuel, zlen; lia|].
    rewrite E in Ht. case_match; [|done]. case_match; [done|].
    destruct (send_packet _ _ _) as [[]|]; done.
Qed.

(** The loop on a given sequence of clock readings and events. *)
Fixpoint run_trace (evs : list (Z * Z * event)) (t : Tunnel) (n : Z) (log : list bytes)
    : option (Tunnel * Z * list bytes) :=
  match evs with
  | [] => Some (t, n, log)
  | (head, now, ev) :: evs =>
      if ev_enabled c t ev then
        match turn c head now ev t with
        | Some (Continue t') => run_trace evs t' (n + delivers t ev) (log ++ accepted ev)
        | _ => None
        end
      else None
  end.

Lemma trace_reach evs t n log t' n' log' :
  reach t n log -> Forall (fun e => ev_ok e.2) evs -> run_trace evs t n log = Some (t', n', log') ->
  reach t' n' log'.
Proof.
  intros Hr Hok. revert t n log Hr. induction Hok as [|[[head now] ev] evs Hev Hok IH]; intros t n log Hr; simpl.
  - congruence.
  - destruct (ev_enabled c t ev) eqn:?; [|done]. destruct (turn c head now ev t) as [[]|] eqn:?; try done.
    apply IH. by eapply reach_turn.
Qed.

End Loop.

(** A run in which the edge answers both probes. *)
Definition sample_io : SendIo := mkIoAns 4096 [] (inl tt).
Definition sample_cfg : RunConfig := mkRun true sample_ip 10000 20000.
Definition sample_answer : bytes := enc_capsule CAPSULE_DATAGRAM sample_ip.
Definition sample_events : list (Z * Z * event) :=
  [(5, 5, ProbeTick sample_io); (9, 9, Body (Chunk sample_answer) sample_io);
   (10, 11, Outbound (Some [1; 2]) sample_io); (15, 15, Body (Chunk sample_answer) sample_io);
   (16, 16, KeepaliveTick (inl tt))].
Definition sample_state (evs : list (Z * Z * event)) : option (Tunnel * Z * list bytes) :=
  match run_start sample_cfg 200 0 sample_io sample_sinks true with
  | Some (Continue t) => run_trace (H := target64) sample_cfg evs t 0 []
  | _ => None
  end.

Lemma sample_reach evs t n log :
  Forall (fun e => ev_ok e.2) evs -> sample_state evs = Some (t, n, log) ->
  reach (H := target64) sample_cfg true 0 t n log.
Proof.
  intros Hok. unfold sample_state. destruct (run_start _ _ _ _ _ _) as [[t0|]|] eqn:E; try done.
  apply trace_reach; [|done]. eapply reach_start; [|exact E]; reflexivity.
Qed.

Lemma sample_value : exists t, sample_state sample_events = Some (t, 2, [[1; 2]]) /\
  awaiting_pong t = true /\ pong_deadline t = Some 20016.
Proof. eexists. split; [vm_compute; reflexivity|split; reflexivity]. Qed.

Lemma sample_events_ok : Forall (fun e => ev_ok e.2) sample_events.
Proof. repeat constructor; vm_compute; congruence. Qed.

(** With the data check on, the tunnel is reported ready exactly when two
    chunks from the edge have delivered IP packets, and the report is made
    once; with it off, it is ready at once. *)
Theorem ready_after_two_deliveries `{Target} (c : RunConfig) (start : Z) (t : Tunnel) (n : Z) (log : list bytes) :
  zlen (probe_packet c) <= 65535 -> reach c true start t n log ->
  ready_fired t = (if data_check c then 2 <=? n else true) /\
  ready_signals t = (if ready_fired t then 1 else 0).
Proof.
  intros Hp Hr. apply reach_inv in Hr as [_ _ -> _ [_ ->] _ _ _ _]; [|done]. done.
Qed.

Lemma ready_after_two_deliveries_witness : exists t,
  sample_state sample_events = Some (t, 2, [[1; 2]]) /\ ready_fired t = true /\
  ready_signals t = (if ready_fired t then 1 else 0).
Proof.
  destruct sample_value as (t & E & _). exists t. split; [exact E|].
  apply (ready_after_two_deliveries (H := target64) sample_cfg 0 t 2 [[1; 2]]).
  - vm_compute; congruence.
  - apply (sample_reach sample_events); [apply sample_events_ok|exact E].
Defined.

(** A turn that begins after the deadline of the validation, or after that of
    an outstanding ping, ends the tunnel with an error and the stream closed,
    whatever event would come next; a ping is never outstanding without a
    deadline.  It says nothing of when such a turn begins. *)
Theorem stalled_tunnel_ends `{Target} (c : RunConfig) (has_tx : bool) (start : Z) (t : Tunnel) (n : Z)
    (log : list bytes) (head now : Z) (ev : event) :
  zlen (probe_packet c) <= 65535 -> reach c has_tx start t n log ->
  ((data_check c = true -> n < 2 -> start + validate_ms c <= head ->
    exists msg t', turn c head now ev t = Some (Return (Err (Masque msg)) t') /\ end_of_stream t' = true) /\
   (awaiting_pong t = true -> exists dl, pong_deadline t = Some dl /\
      (dl <= head -> exists msg t', turn c head now ev t = Some (Return (Err (Masque msg)) t') /\
         end_of_stream t' = true))).
Proof.
  intros Hp Hr. apply reach_inv in Hr as [_ Hpo Hre _ _ Hd _ _ _]; [|done]. split.
  - intros Hc Hn Hh. rewrite Hc in Hre. replace (2 <=? n) with false in Hre by lia.
    unfold turn, loop_head. rewrite Hc, Hre, (Hd Hre). simpl. replace (_ <=? head) with true by lia.
    cbn. eauto.
  - intros Ha. rewrite Ha in Hpo. symmetry in Hpo. apply bool_decide_eq_true in Hpo as [dl Hdl].
    exists dl. split; [done|]. intros Hh. unfold turn, loop_head. rewrite Hdl. simpl.
    replace (dl <=? head) with true by lia. destruct (_ && _); eauto.
Qed.

Lemma stalled_tunnel_ends_witness : exists t,
  sample_state sample_events = Some (t, 2, [[1; 2]]) /\
  exists msg t', turn (H := target64) sample_cfg 20016 20016 (Ctrl None) t =
    Some (Return (Err (Masque msg)) t') /\ end_of_stream t' = true.
Proof.
  destruct sample_value as (t & E & Ha & Hd). exists t. split; [exact E|].
  destruct (stalled_tunnel_ends (H := target64) sample_cfg true 0 t 2 [[1; 2]] 20016 20016 (Ctrl None)) as [_ H1].
  - vm_compute; congruence.
  - apply (sample_reach sample_events); [apply sample_events_ok|exact E].
  - destruct (H1 Ha) as (dl & Hdl & H2). apply H2. rewrite Hdl in Hd. injection Hd as ->. lia.
Defined.

(** While a ping is outstanding no timer of the loop runs: only a pong, a packet
    or a word from outside begins another turn, so the deadline of a ping that
    is never answered passes unnoticed on an idle tunnel. *)
Theorem idle_stall_unnoticed `{Target} (c : RunConfig) (has_tx : bool) (start : Z) (t : Tunnel) (n : Z) (log : list bytes) (ev : event) :
  reach c has_tx start t n log -> awaiting_pong t = true -> ev_enabled c t ev = true ->
  match ev with KeepaliveTick _ | ProbeTick _ => False | Pong _ | Ctrl _ | Outbound _ _ | Body _ _ => True end.
Proof.
  intros Hr Ha. pose proof (awaited_ready _ _ _ _ _ _ Hr Ha) as Hf. unfold ev_enabled. rewrite Hf, Ha. by destruct ev; rewrite ?andb_false_r.
Qed.

Lemma feed_own_frames `{Target} ps :
  Forall (fun p => zlen p <= 65535) ps ->
  feed parser_new (map frame ps) = (map Datagram ps, parser_new).
Proof.
  intros Hps. rewrite List.Forall_forall in Hps.
  assert (forall fs, map frame fs = map enc_frame (map (pair CAPSULE_DATAGRAM) fs)) as Hm.
  { intros. by rewrite map_map. }
  apply (feed_stream _ (map (pair CAPSULE_DATAGRAM) ps)); [| | |by rewrite Hm|].
  - apply Forall_map, List.Forall_forall. intros p Hp. apply datagram_frame_ok. specialize (Hps p Hp). lia.
  - clear. induction ps; simpl; constructor; done.
  - destruct ps as [|p ps]; [done|]. exists (enc_frame (CAPSULE_DATAGRAM, p)). split; [done|].
    pose proof (enc_frame_pos (CAPSULE_DATAGRAM, p)). intros E. rewrite E in *. simpl in *. lia.
  - intros ch f (p & <- & Hp)%in_map_iff (q & <- & Hq)%in_map_iff.
    unfold enc_frame, frame. cbn [fst snd]. pose proof (datagram_frame_len p). pose proof (datagram_frame_len q).
    pose proof (zlen_nonneg p). pose proof (zlen_nonneg q). pose proof (Hps p Hp). pose proof (Hps q Hq).
    unfold MAX_CAPSULE_BUF. lia.
Qed.

Lemma padded_Forall {A} (x : A) (P : A -> Prop) l k : padded x l k -> P x -> Forall P l -> Forall P k.
Proof.
  induction 1 as [|a l k Hp IH|l k Hp IH]; intros Hx Hl; [done| |].
  - apply Forall_app in Hl as [? ?]. apply Forall_app. auto.
  - apply Forall_app. auto.
Qed.

(** C27: what a running tunnel has written is read by a capsule parser at the
    other end as the packets taken from the network stack, each once, whole and
    in order, with nothing else in between but copies of the probe. *)
Theorem outbound_in_order `{Target} (c : RunConfig) (has_tx : bool) (start : Z) (t : Tunnel) (n : Z)
    (log : list bytes) :
  zlen (probe_packet c) <= 65535 -> reach c has_tx start t n log ->
  exists sent, padded (probe_packet c) log sent /\
    feed parser_new (wire t) = (map Datagram sent, parser_new).
Proof.
  intros Hp Hr. apply reach_inv in Hr as [_ _ _ _ _ _ _ (sent & Hs & ->) Hlog]; [|done].
  exists sent. split; [done|]. apply feed_own_frames. by eapply padded_Forall.
Qed.

Lemma outbound_in_order_witness : exists t sent,
  sample_state sample_events = Some (t, 2, [[1; 2]]) /\
  padded sample_ip [[1; 2]] sent /\ feed (H := target64) parser_new (wire t) = (map Datagram sent, parser_new).
Proof.
  destruct sample_value as (t & E & _). exists t.
  destruct (outbound_in_order (H := target64) sample_cfg true 0 t 2 [[1; 2]]) as (sent & H1 & H2).
  - vm_compute; congruence.
  - apply (sample_reach sample_events); [apply sample_events_ok|exact E].
  - exists sent. split; [exact E|]. split; [exact H1|exact H2].
Defined.

(** ** The endpoint check accepts only an edge that answers *)

Definition is_datagram (c : Capsule) : bool := match c with Datagram _ => true | _ => false end.
Definition datagrams (cs : list Capsule) : Z := zlen (List.filter is_datagram cs).
Fixpoint body_chunks (evs : list body_event) : list bytes :=
  match evs with Chunk c :: evs => c :: body_chunks evs | _ => [] end.

Lemma datagrams_app a b : datagrams (a ++ b) = datagrams a + datagrams b.
Proof. unfold datagrams. by rewrite List.filter_app, zlen_app. Qed.
Lemma datagrams_nonneg a : 0 <= datagrams a.
Proof. apply zlen_nonneg. Qed.

Lemma verify_drain_spec `{Target} fuel probe io n p v :
  verify_drain fuel probe io n p = Some v ->
  match v with
  | More n' p' => drain fuel p = ((drain fuel p).1, p') /\ n' = n + datagrams (drain fuel p).1 /\ (n < 2 -> n' < 2)
  | Verdict (Ok _) => 2 <= n + datagrams (drain fuel p).1
  | _ => True
  end.
Proof.
  revert n p. induction fuel as [|fuel IH]; intros n p; cbn [verify_drain drain]; [by intros [= <-]|].
  destruct (next p) as [r p'] eqn:En.
  destruct r as [[cap|]|e| |]; try (by intros [= <-]);
    try (intros [= <-]; unfold datagrams; simpl; rewrite zlen_nil; split_and!; [done|lia|lia]).
  destruct (drain fuel p') as [cs p''] eqn:Ed.
  assert (forall n', verify_drain fuel probe io n' p' = Some v ->
    match v with
    | More m q => (cap :: cs, p'') = (cap :: cs, q) /\ m = n' + datagrams cs /\ (n' < 2 -> m < 2)
    | Verdict (Ok _) => 2 <= n' + datagrams cs
    | _ => True end) as Hgo.
  { intros n' Hv. specialize (IH n' p' Hv). rewrite Ed in IH. simpl in IH.
    destruct v; [|done]. destruct IH as (? & ? & ?). simplify_eq. done. }
  change (datagrams (cap :: cs, p'').1) with (datagrams ([cap] ++ cs)). rewrite datagrams_app.
  destruct cap; cbn [fst]; try (intros Hv; specialize (Hgo _ Hv); done).
  pose proof (datagrams_nonneg cs). change (datagrams [Datagram payload]) with 1.
  change DATA_PROBE_REQUIRED_SUCCESSES with 2.
  destruct (2 <=? n + 1) eqn:E2; [intros [= <-]; lia|].
  destruct (send_packet probe io []) as [[r w]|] eqn:Es; [|done]. cbn [opt_bind].
  destruct r; try (intros [= <-]; done). intros Hv. specialize (Hgo _ Hv).
  destruct v as [m q|[]]; [|lia|done|done|done]. destruct Hgo as (? & -> & ?). split_and!; [done|lia|lia].
Qed.

Lemma verify_loop_spec `{Target} evs probe io n p :
  verify_loop evs probe io n p = Some (Ok tt) -> 2 <= n + datagrams (feed p (body_chunks evs)).1.
Proof.
  revert n p. induction evs as [|[ch|e|] evs IH]; intros n p; cbn [verify_loop body_chunks feed]; try done.
  destruct (verify_drain _ _ _ _ _) as [v|] eqn:Ev; [|done]. apply verify_drain_spec in Ev. cbn [opt_bind].
  destruct (drain _ _) as [cs p'] eqn:Ed. destruct (feed p' (body_chunks evs)) as [cs' p''] eqn:Ef.
  cbn [fst]. rewrite datagrams_app. pose proof (datagrams_nonneg cs').
  destruct v as [m q|r]; [|intros [= ->]; simpl in Ev; lia].
  destruct Ev as (E1 & -> & _). simpl in E1. injection E1 as <-. intros Hv%IH. rewrite Ef in Hv. simpl in Hv. lia.
Qed.

(** The endpoint check succeeds with the data check on only for an edge
    that answered the CONNECT with a 2xx status and whose body, parsed as
    capsules, carries at least two DATAGRAMs. *)
Theorem verify_h2_sound `{Target} (status : Z) (probe : bytes) (io1 io2 : SendIo) (evs : list body_event) :
  verify_h2 true status probe io1 io2 evs = Some (Ok tt) ->
  200 <= status < 300 /\ 2 <= datagrams (feed parser_new (body_chunks evs)).1.
Proof.
  unfold verify_h2, is_success. destruct (_ && _) eqn:Hs; [|done]. cbn [negb].
  destruct (send_packet _ _ _) as [[r w]|]; [|done]. cbn [opt_bind]. destruct r; try done.
  intros Hv%verify_loop_spec. split; [lia|done].
Qed.

Lemma verify_h2_sound_witness :
  200 <= 200 < 300 /\
  2 <= datagrams (feed (H := target64) parser_new (body_chunks [Chunk sample_answer; Chunk sample_answer])).1.
Proof.
  apply (verify_h2_sound (H := target64) 200 sample_ip sample_io sample_io
    [Chunk sample_answer; Chunk sample_answer]).
  vm_compute; reflexivity.
Defined.

(** The delay before the next keepalive ping is at least five seconds and
    within half the configured period on either side of it, where a period
    below eight seconds counts as eight, and the sum does not overflow. *)
Theorem jittered_keepalive_bounds (env : Env) (rand : Z) :
  let base := Z.max (h2_keepalive_interval env) 8 in
  5 <= jittered_keepalive env rand < 2 ^ 64 /\
  base - base / 2 <= jittered_keepalive env rand <= base + base / 2.
Proof.
  intros base. unfold jittered_keepalive. fold base.
  pose proof (env_positive_bound env (str "SOILDTUNNEL_MASQUE_H2_KEEPALIVE_SECS") 15 ltac:(lia)) as He.
  fold (h2_keepalive_interval env) in He.
  assert (8 <= base < 2 ^ 64) by lia. clearbody base.
  pose proof (Z.div_mod base 2). pose proof (Z.mod_pos_bound base 2).
  set (m := Z.min (base + base / 2) (2 ^ 64 - 1) - Z.max (Z.max 0 (base - base / 2)) 5 + 1).
  pose proof (Z.mod_pos_bound rand m). subst m. lia.
Qed.

(** Whatever the edge sends and the library answers, a turn of the loop
    that ends the tunnel does so with a value or an error: it does not panic
    and the draining loop ends. *)
Theorem h2_turn_safe `{Target} (c : RunConfig) (has_tx : bool) (start : Z) (t : Tunnel) (n : Z)
    (log : list bytes) (head now : Z) (ev : event) (r : result unit) (t' : Tunnel) :
  zlen (probe_packet c) <= 65535 -> reach c has_tx start t n log -> ev_ok ev ->
  turn c head now ev t = Some (Return r t') -> returns r.
Proof. intros. by eapply turn_returns. Qed.

Lemma h2_turn_safe_witness : exists t r t',
  sample_state sample_events = Some (t, 2, [[1; 2]]) /\
  turn (H := target64) sample_cfg 20 20 (Body BodyEnd sample_io) t = Some (Return r t') /\ returns r.
Proof.
  destruct sample_value as (t & E & _ & Hd). exists t, (Ok tt), t.
  assert (turn (H := target64) sample_cfg 20 20 (Body BodyEnd sample_io) t = Some (Return (Ok tt) t)) as Ht.
  { vm_compute in E. injection E as <-. reflexivity. }
  split; [exact E|]. split; [exact Ht|].
  apply (h2_turn_safe (H := target64) sample_cfg true 0 t 2 [[1; 2]] 20 20 (Body BodyEnd sample_io) (Ok tt) t).
  - vm_compute; congruence.
  - apply (sample_reach sample_events); [apply sample_events_ok|exact E].
  - exact I.
  - exact Ht.
Defined.
