(* ===== verification/Quic.v ===== *)
(** * The HTTP/3 tunnel

    Models [run] of quic.rs as a step function, with [poll_h3],
    [drain_capsules] and [drain_datagrams].  The QUIC connection is quiche's:
    what it answers in a turn of the loop is the argument [QIo].  A migration
    only changes sockets, so [Control::Migrate] leaves the state alone; the
    choice of socket is in Detour, the endpoint check in QuicVerify. *)

From Stdlib Require Import ZArith Lia ZifyBool String List.
From stdpp Require Import base list numbers option decidable.
From S2P Require Import Prelude RustStr NetAddr Errors Channels Octets Masque H2Tunnel.
Open Scope Z_scope.

(** What the loop reads of its configuration; times are in milliseconds. *)
Record QConfig : Type := mkQConfig { q_data_check : bool; q_probe : bytes; q_validate_ms : Z }.

Record QTunnel : Type := mkQ {
  q_ready_fired : bool;
  q_ready_tx : bool;             (* the sender is still there to be taken *)
  q_ready_signals : Z;           (* how often it was used *)
  q_deadline : option Z;
  q_successes : Z;
  q_ech : option bytes;          (* [current_ech] *)
  q_h3 : bool;                   (* [h3_conn.is_some()] *)
  q_stream : option Z;           (* [req_stream] *)
  q_capsules : CapsuleParser;
  q_addr_tx : option (Chan AssignedAddr);
  q_inbound : Chan bytes;
  q_established_ever : bool;
  q_ech_retried : bool;
  q_ctrl_open : bool;
  q_outbound_open : bool;
  q_connects : Z;                (* connections opened, or tried *)
  q_dgrams : list bytes }.       (* datagrams the library took, in order *)

(** ** Draining *)

Fixpoint drain_control `{Target} (fuel : nat) (p : CapsuleParser) (addr_tx : option (Chan AssignedAddr))
    : outcome unit (CapsuleParser * option (Chan AssignedAddr)) :=
  match fuel with
  | O => OutOfFuel
  | S fuel =>
      let '(r, p) := next p in
      match r with
      | Ok (Some (AddressAssign addrs)) => drain_control fuel p (deliver_addrs addr_tx addrs)
      | Ok (Some _) => drain_control fuel p addr_tx
      | Ok None | Err _ => Ok (p, addr_tx)
      | Panic => Panic
      | OutOfFuel => OutOfFuel
      end
  end.

(** What [h3c.poll] yields in turn until it is done: the status header of a
    response, body bytes as [recv_body] returns them, other events, an error. *)
Inductive h3_event : Type :=
| Status (value : bytes)
| Data (stream : Z) (chunks : list bytes)
| OtherEvent
| PollError (code : Z).

Fixpoint push_body (chunks : list bytes) (p : CapsuleParser) : CapsuleParser :=
  match chunks with
  | [] => p
  | [] :: _ => p
  | chunk :: chunks => push_body chunks (push p chunk)
  end.

Fixpoint poll_h3 `{Target} (events : list h3_event) (req_stream : Z) (p : CapsuleParser)
    (addr_tx : option (Chan AssignedAddr)) : result (CapsuleParser * option (Chan AssignedAddr)) :=
  match events with
  | [] => Ok (p, addr_tx)
  | Status _ :: events | OtherEvent :: events => poll_h3 events req_stream p addr_tx
  | PollError code :: _ => Err (H3 code)
  | Data stream chunks :: events =>
      if negb (stream =? req_stream) then poll_h3 events req_stream p addr_tx
      else
        let p := push_body chunks p in
        match drain_control (S (length (cp_buf p))) p addr_tx with
        | Ok (p, addr_tx) => poll_h3 events req_stream p addr_tx
        | Err _ | Panic => Panic
        | OutOfFuel => OutOfFuel
        end
  end.

(** [drain_datagrams] on the datagrams [dgram_recv] yields. *)
Fixpoint drain_datagrams (dgrams : list bytes) (sid : Z) (delivered : bool) (tx : Chan bytes) : bool * Chan bytes :=
  match dgrams with
  | [] => (delivered, tx)
  | d :: dgrams =>
      match decode_ip_datagram d sid with
      | Ok (Some ip_packet) =>
          match try_send tx ip_packet with
          | (Closed, tx) => (true, tx)
          | (_, tx) => drain_datagrams dgrams sid true tx
          end
      | _ => drain_datagrams dgrams sid delivered tx
      end
  end.

(** ** The loop *)

(** The branch [select!] takes; a flag says whether [dgram_send] succeeds. *)
Inductive q_event : Type :=
| QKeepalive
| QProbe (sent : bool)
| QPacket
| QCtrl (c : option Control)
| QOutbound (pkt : option bytes) (sent : bool)
| QTimeout.

(** What the library answers in the rest of the turn. *)
Record QIo : Type := mkQIo {
  io_established : bool;
  io_request : result Z;            (* [with_transport] and [send_request] *)
  io_h3 : list h3_event;
  io_dgrams : list bytes;
  io_flush : result unit;
  io_closed : bool;
  io_retry : option bytes;          (* [extract_ech_retry_configs] *)
  io_reconnect : result unit }.     (* [connect], [inject_ech] and [flush] *)

(** The end of a turn: the state it leaves, and the result when [run] returns. *)
Inductive q_step : Type :=
| QContinue (t : QTunnel)
| QReturn (r : result unit) (t : QTunnel).

Definition q_enabled (c : QConfig) (t : QTunnel) (ev : q_event) : bool :=
  match ev with
  | QProbe _ => q_data_check c && negb (q_ready_fired t)
  | QCtrl _ => q_ctrl_open t
  | QOutbound _ _ => q_outbound_open t
  | _ => true
  end.

Definition set_dgrams (t : QTunnel) (l : list bytes) : QTunnel :=
  mkQ (q_ready_fired t) (q_ready_tx t) (q_ready_signals t) (q_deadline t) (q_successes t) (q_ech t) (q_h3 t) (q_stream t)
    (q_capsules t) (q_addr_tx t) (q_inbound t) (q_established_ever t) (q_ech_retried t) (q_ctrl_open t)
    (q_outbound_open t) (q_connects t) l.
Definition set_open (t : QTunnel) (ctrl outbound : bool) : QTunnel :=
  mkQ (q_ready_fired t) (q_ready_tx t) (q_ready_signals t) (q_deadline t) (q_successes t) (q_ech t) (q_h3 t) (q_stream t)
    (q_capsules t) (q_addr_tx t) (q_inbound t) (q_established_ever t) (q_ech_retried t) ctrl outbound (q_connects t)
    (q_dgrams t).
Definition set_control (t : QTunnel) (p : CapsuleParser) (addr_tx : option (Chan AssignedAddr)) : QTunnel :=
  mkQ (q_ready_fired t) (q_ready_tx t) (q_ready_signals t) (q_deadline t) (q_successes t) (q_ech t) (q_h3 t) (q_stream t)
    p addr_tx (q_inbound t) (q_established_ever t) (q_ech_retried t) (q_ctrl_open t) (q_outbound_open t) (q_connects t)
    (q_dgrams t).
Definition set_inbound (t : QTunnel) (tx : Chan bytes) : QTunnel :=
  mkQ (q_ready_fired t) (q_ready_tx t) (q_ready_signals t) (q_deadline t) (q_successes t) (q_ech t) (q_h3 t) (q_stream t)
    (q_capsules t) (q_addr_tx t) tx (q_established_ever t) (q_ech_retried t) (q_ctrl_open t) (q_outbound_open t)
    (q_connects t) (q_dgrams t).
Definition set_validation (t : QTunnel) (deadline : option Z) (successes : Z) : QTunnel :=
  mkQ (q_ready_fired t) (q_ready_tx t) (q_ready_signals t) deadline successes (q_ech t) (q_h3 t) (q_stream t)
    (q_capsules t) (q_addr_tx t) (q_inbound t) (q_established_ever t) (q_ech_retried t) (q_ctrl_open t)
    (q_outbound_open t) (q_connects t) (q_dgrams t).
(** [ready_fired = true; if let Some(tx) = ready_tx.take() { tx.send(()) }]. *)
Definition q_fire_ready (t : QTunnel) : QTunnel :=
  mkQ true false (if q_ready_tx t then q_ready_signals t + 1 else q_ready_signals t) (q_deadline t) (q_successes t)
    (q_ech t) (q_h3 t) (q_stream t) (q_capsules t) (q_addr_tx t) (q_inbound t) (q_established_ever t) (q_ech_retried t)
    (q_ctrl_open t) (q_outbound_open t) (q_connects t) (q_dgrams t).

(** A packet put into a datagram of the request stream, once there is one. *)
Definition send_ip (t : QTunnel) (pkt : bytes) (sent : bool) : QTunnel :=
  match q_stream t with
  | Some sid =>
      match encode_ip_datagram sid pkt with
      | Ok framed => if sent then set_dgrams t (q_dgrams t ++ [framed]) else t
      | _ => t
      end
  | None => t
  end.

Definition on_event (c : QConfig) (ev : q_event) (t : QTunnel) : QTunnel :=
  match ev with
  | QKeepalive | QPacket | QTimeout => t
  | QProbe sent => send_ip t (q_probe c) sent
  | QCtrl (Some Migrate_) => t
  | QCtrl (Some Close) | QCtrl None => set_open t false (q_outbound_open t)
  | QOutbound (Some pkt) sent => send_ip t pkt sent
  | QOutbound None _ => set_open t (q_ctrl_open t) false
  end.

(** The handshake is complete for the first time: the request is sent. *)
Definition on_established (c : QConfig) (now : Z) (io : QIo) (t : QTunnel) : result QTunnel :=
  if io_established io && negb (q_h3 t) then
    let! sid := io_request io in
    let t := mkQ (q_ready_fired t) (q_ready_tx t) (q_ready_signals t) (q_deadline t) (q_successes t) (q_ech t) true
               (Some sid) (q_capsules t) (q_addr_tx t) (q_inbound t) true (q_ech_retried t) (q_ctrl_open t)
               (q_outbound_open t) (q_connects t) (q_dgrams t) in
    Ok (if q_data_check c then set_validation t (Some (now + q_validate_ms c)) (q_successes t)
        else if negb (q_ready_fired t) then q_fire_ready t else t)
  else Ok t.

Definition on_control `{Target} (io : QIo) (t : QTunnel) : result QTunnel :=
  match q_h3 t, q_stream t with
  | true, Some sid =>
      let! '(p, addr_tx) := poll_h3 (io_h3 io) sid (q_capsules t) (q_addr_tx t) in Ok (set_control t p addr_tx)
  | _, _ => Ok t
  end.

Definition on_datagrams (io : QIo) (t : QTunnel) : bool * QTunnel :=
  match q_stream t with
  | Some sid => let '(got, tx) := drain_datagrams (io_dgrams io) sid false (q_inbound t) in (got, set_inbound t tx)
  | None => (false, t)
  end.

Definition count_success (got_data : bool) (t : QTunnel) : QTunnel :=
  if got_data && negb (q_ready_fired t) then
    let n := q_successes t + 1 in
    if DATA_PROBE_REQUIRED_SUCCESSES <=? n then q_fire_ready (set_validation t None n)
    else set_validation t (q_deadline t) n
  else t.

(** The connection is closed: once, before any handshake has completed, the
    server's ECH configuration is tried. *)
Definition on_closed (io : QIo) (t : QTunnel) : q_step :=
  match io_retry io with
  | Some retry =>
      if negb (q_established_ever t) && negb (q_ech_retried t) && bool_decide (is_Some (q_ech t)) then
        let t := mkQ (q_ready_fired t) (q_ready_tx t) (q_ready_signals t) (q_deadline t) (q_successes t) (Some retry)
                   false None parser_new (q_addr_tx t) (q_inbound t) (q_established_ever t) true (q_ctrl_open t)
                   (q_outbound_open t) (q_connects t + 1) (q_dgrams t) in
        match io_reconnect io with Ok _ => QContinue t | r => QReturn r t end
      else QReturn (Ok tt) t
  | None => QReturn (Ok tt) t
  end.

(** A part of a turn, from the state [t]. *)
Definition lift {A : Type} (r : result A) (t : QTunnel) (k : A -> q_step) : q_step :=
  match r with
  | Ok a => k a
  | Err e => QReturn (Err e) t
  | Panic => QReturn Panic t
  | OutOfFuel => QReturn OutOfFuel t
  end.

Definition validation_failed : SoildTunnelError :=
  Masque (str "data-plane validation timeout (handshake ok, no traffic)").
Definition overdue (c : QConfig) (head : Z) (t : QTunnel) : bool :=
  q_data_check c && negb (q_ready_fired t) && past head (q_deadline t).

(** One turn; [head] and [now] are two readings of the clock. *)
Definition q_turn `{Target} (c : QConfig) (head now : Z) (ev : q_event) (io : QIo) (t : QTunnel) : q_step :=
  if overdue c head t then QReturn (Err validation_failed) t
  else
    let t := on_event c ev t in
    lift (on_established c now io t) t (fun t =>
    lift (on_control io t) t (fun t =>
    let '(got_data, t) := on_datagrams io t in
    let t := count_success got_data t in
    lift (io_flush io) t (fun _ => if io_closed io then on_closed io t else QContinue t))).

Definition q_start (ech : option bytes) (inbound : Chan bytes) (addr_tx : option (Chan AssignedAddr)) : QTunnel :=
  mkQ false true 0 None 0 ech false None parser_new addr_tx inbound false false true true 1 [].

(** ** Executions *)

(** Whether some datagram carries an IP packet of the stream. *)
Definition carries (sid : Z) (dgrams : list bytes) : bool :=
  existsb (fun d => match decode_ip_datagram d sid with Ok (Some _) => true | _ => false end) dgrams.

Lemma drain_datagrams_got dgrams sid : forall d tx,
  (drain_datagrams dgrams sid d tx).1 = d || carries sid dgrams.
Proof.
  induction dgrams as [|x dgrams IH]; intros d tx; cbn [drain_datagrams]; [by rewrite orb_false_r|].
  unfold carries. cbn [existsb]. fold (carries sid dgrams).
  destruct (decode_ip_datagram x sid) as [[p|]| | |]; try apply IH.
  destruct (try_send tx p) as [[] tx']; [by rewrite IH, orb_true_r|by rewrite IH, orb_true_r|by rewrite orb_true_r].
Qed.

(** The request stream in the rest of a turn. *)
Definition stream_after (io : QIo) (t : QTunnel) : option Z :=
  if io_established io && negb (q_h3 t) then match io_request io with Ok sid => Some sid | _ => None end else q_stream t.
(** Whether a turn delivers, and the packet it takes for the wire. *)
Definition turn_delivers (io : QIo) (t : QTunnel) : bool :=
  match stream_after io t with Some sid => carries sid (io_dgrams io) | None => false end.
Definition taken (c : QConfig) (ev : q_event) (t : QTunnel) : list bytes :=
  match ev, q_stream t with
  | QProbe true, Some _ => [q_probe c]
  | QOutbound (Some pkt) true, Some _ => [pkt]
  | _, _ => []
  end.

(** The states a tunnel goes through, with the number of turns that delivered
    and the packets taken for the wire.  Stream ids are 62-bit. *)
Inductive q_reach `{Target} (c : QConfig) : QTunnel -> Z -> list bytes -> Prop :=
| q_reach_start ech inbound addr_tx : q_reach c (q_start ech inbound addr_tx) 0 []
| q_reach_turn t n sent head now ev io t' :
    q_reach c t n sent -> q_enabled c t ev = true -> (forall sid, io_request io = Ok sid -> 0 <= sid < 2 ^ 62) ->
    q_turn c head now ev io t = QContinue t' ->
    q_reach c t' (if turn_delivers io t then n + 1 else n) (sent ++ taken c ev t).

Definition q_next (s : q_step) : QTunnel := match s with QContinue t | QReturn _ t => t end.
(** Whether a turn comes to draining the datagrams. *)
Definition turn_drained `{Target} (c : QConfig) (now : Z) (ev : q_event) (io : QIo) (t : QTunnel) : bool :=
  match on_established c now io (on_event c ev t) with
  | Ok t => match on_control io t with Ok _ => true | _ => false end
  | _ => false
  end.
(** The state in which [run] returns. *)
Inductive q_over `{Target} (c : QConfig) : QTunnel -> Z -> list bytes -> result unit -> Prop :=
| q_over_late t n sent head now ev io t' r :
    q_reach c t n sent -> overdue c head t = true -> q_turn c head now ev io t = QReturn r t' -> q_over c t' n sent r
| q_over_turn t n sent head now ev io t' r :
    q_reach c t n sent -> q_enabled c t ev = true -> (forall sid, io_request io = Ok sid -> 0 <= sid < 2 ^ 62) ->
    overdue c head t = false -> q_turn c head now ev io t = QReturn r t' ->
    q_over c t' (if turn_drained c now ev io t && turn_delivers io t then n + 1 else n) (sent ++ taken c ev t) r.

Record q_inv (c : QConfig) (t : QTunnel) (n : Z) (sent : list bytes) : Prop := {
  qi_signals : q_ready_signals t = (if q_ready_fired t then 1 else 0) /\ q_ready_tx t = negb (q_ready_fired t);
  qi_check : q_data_check c = true ->
    if q_ready_fired t then DATA_PROBE_REQUIRED_SUCCESSES <= n else q_successes t = n /\ n < DATA_PROBE_REQUIRED_SUCCESSES;
  qi_nocheck : q_data_check c = false -> q_ready_fired t = q_h3 t;
  qi_h3 : q_h3 t = bool_decide (is_Some (q_stream t)) /\ q_established_ever t = q_h3 t;
  qi_connects : q_connects t = 1 + (if q_ech_retried t then 1 else 0);
  qi_dgrams : match q_stream t with
              | Some sid => 0 <= sid < 2 ^ 62 /\ Forall2 (fun d p => decode_ip_datagram d sid = Ok (Some p)) (q_dgrams t) sent
              | None => q_dgrams t = [] /\ sent = [] end }.

Ltac q_simpl := cbn [q_ready_fired q_ready_tx q_ready_signals q_deadline q_successes q_ech q_h3 q_stream q_capsules q_addr_tx
  q_inbound q_established_ever q_ech_retried q_ctrl_open q_outbound_open q_connects q_dgrams set_dgrams set_open set_control
  set_inbound set_validation q_fire_ready q_start].

Lemma q_inv_start c ech inbound addr_tx : q_inv c (q_start ech inbound addr_tx) 0 [].
Proof. constructor; q_simpl; try done. Qed.

Lemma send_ip_inv c t n sent pkt ok :
  q_inv c t n sent ->
  q_inv c (send_ip t pkt ok) n (sent ++ match q_stream t with Some _ => if ok then [pkt] else [] | None => [] end).
Proof.
  intros [I1 I2 I3 I4 I5 I6]. unfold send_ip. destruct (q_stream t) as [sid|] eqn:Es.
  2:{ rewrite app_nil_r. constructor; try done; by rewrite Es. }
  destruct I6 as [Hs Hd]. rewrite (encode_ip_datagram_spec sid pkt) by lia. destruct ok.
  - constructor; try done; q_simpl; rewrite ?Es; [done|]. split; [done|]. apply Forall2_app; [done|]. repeat constructor.
    rewrite decode_enc_datagram by lia. by rewrite Z.eqb_refl.
  - rewrite app_nil_r. constructor; try done; by rewrite Es.
Qed.

Lemma on_event_inv c ev t n sent :
  q_inv c t n sent -> q_inv c (on_event c ev t) n (sent ++ taken c ev t).
Proof.
  intros I. assert (q_inv c t n (sent ++ [])) as I0 by (by rewrite app_nil_r).
  destruct ev as [|ok| |[[]|]|[pkt|] ok|]; cbn [on_event taken]; try done.
  - pose proof (send_ip_inv c t n sent (q_probe c) ok I) as I'. by destruct ok, (q_stream t).
  - by destruct I0.
  - by destruct I0.
  - pose proof (send_ip_inv c t n sent pkt ok I) as I'. by destruct ok, (q_stream t).
  - by destruct I0.
Qed.

(** An event changes neither the stream nor the handshake. *)
Lemma on_event_stream c ev t : q_stream (on_event c ev t) = q_stream t /\ q_h3 (on_event c ev t) = q_h3 t.
Proof.
  unfold on_event, send_ip. destruct ev as [|ok| |[[]|]|[pkt|] ok|]; try done;
    (destruct (q_stream t) as [sid|] eqn:Es; [|done]); destruct (encode_ip_datagram sid _); try done; by destruct ok.
Qed.

Lemma on_established_inv c now io t n sent t' :
  (forall sid, io_request io = Ok sid -> 0 <= sid < 2 ^ 62) ->
  q_inv c t n sent -> on_established c now io t = Ok t' -> q_inv c t' n sent /\ q_stream t' = stream_after io t.
Proof.
  intros Hsid I. unfold on_established, stream_after. destruct (io_established io && negb (q_h3 t)) eqn:E; [|by intros [= <-]].
  destruct (io_request io) as [sid| | |]; try done. cbn [obind]. specialize (Hsid sid eq_refl). intros [= <-].
  apply andb_prop in E as [_ Eh%negb_true_iff]. destruct I as [[I1 I1'] I2 I3 [I4 I4'] I5 I6].
  rewrite Eh in I4. symmetry in I4. apply bool_decide_eq_false in I4. destruct (q_stream t) as [x|]; [by exfalso; apply I4; eexists|].
  destruct I6 as [Hd ->]. cbn [q_ready_fired].
  destruct (q_data_check c) eqn:Ec; [|rewrite (I3 eq_refl), Eh in *; cbn [negb]].
  - split; [|done]. constructor; q_simpl; try done; try congruence; [by intros _; apply I2|]. split; [done|]. by rewrite Hd.
  - split; [|done]. constructor; q_simpl; try done; try congruence; [by rewrite I1', I1|]. split; [done|]. by rewrite Hd.
Qed.

Lemma on_control_inv `{Target} c io t n sent t' :
  q_inv c t n sent -> on_control io t = Ok t' -> q_inv c t' n sent /\ q_stream t' = q_stream t.
Proof.
  intros I. unfold on_control. destruct (q_h3 t) eqn:Eh; [|by intros [= <-]].
  destruct (q_stream t) as [sid|] eqn:Es; [|by intros [= <-]].
  destruct (poll_h3 _ _ _ _) as [[p a]| | |]; try done. cbn [obind]. intros [= <-]. split; [|done].
  destruct I as [I1 I2 I3 I4 I5 I6]. rewrite Es in I4, I6. constructor; q_simpl; rewrite ?Es; done.
Qed.

(** A turn that delivers counts, until the tunnel is ready. *)
Lemma count_success_inv c (got : bool) t n sent :
  q_inv c t n sent -> (got = true -> is_Some (q_stream t)) ->
  q_inv c (count_success got t) (if got then n + 1 else n) sent.
Proof.
  intros [[I1 I1'] I2 I3 [I4 I4'] I5 I6] Hg. unfold count_success, DATA_PROBE_REQUIRED_SUCCESSES in *.
  destruct got; cbn [andb]; [|done]. destruct (q_ready_fired t) eqn:Ef; cbn [negb].
  { constructor; try done; rewrite ?Ef; try done. intros Hc. specialize (I2 Hc). unfold DATA_PROBE_REQUIRED_SUCCESSES. lia. }
  assert (q_data_check c = true) as Hc.
  { destruct (q_data_check c); [done|]. specialize (I3 eq_refl). rewrite I4, bool_decide_true in I3; auto. }
  specialize (I2 Hc) as [Hs Hn]. rewrite Hs.
  destruct (2 <=? n + 1) eqn:E; constructor; q_simpl; unfold DATA_PROBE_REQUIRED_SUCCESSES; rewrite ?Ef; try done; try congruence.
  - by rewrite I1', I1.
  - intros _. lia.
  - intros _. split; [done|lia].
Qed.

Lemma on_datagrams_inv c io t n sent :
  q_inv c t n sent ->
  q_inv c (on_datagrams io t).2 n sent /\ q_stream (on_datagrams io t).2 = q_stream t /\
  (on_datagrams io t).1 = match q_stream t with Some sid => carries sid (io_dgrams io) | None => false end.
Proof.
  intros I. unfold on_datagrams. destruct (q_stream t) as [sid|] eqn:Es; [|done].
  pose proof (drain_datagrams_got (io_dgrams io) sid false (q_inbound t)) as Hg.
  destruct (drain_datagrams _ _ _ _) as [got tx]. cbn [fst snd] in *. split_and!; [|done|done].
  destruct I as [I1 I2 I3 I4 I5 I6]. rewrite Es in I4, I6. constructor; q_simpl; rewrite ?Es; done.
Qed.

Lemma on_closed_inv c io t n sent : q_inv c t n sent -> q_inv c (q_next (on_closed io t)) n sent.
Proof.
  intros I. pose proof I as [I1 I2 I3 [I4 I4'] I5 I6]. unfold on_closed. destruct (io_retry io) as [retry|]; [|done].
  destruct (negb (q_established_ever t) && negb (q_ech_retried t) && _) eqn:E; [|done].
  apply andb_prop in E as [[Ee%negb_true_iff Er%negb_true_iff]%andb_prop _]. rewrite Ee in I4'. symmetry in I4'.
  rewrite I4' in I4. symmetry in I4. apply bool_decide_eq_false in I4. destruct (q_stream t) as [x|]; [by exfalso; apply I4; eexists|].
  rewrite Er in I5. destruct (io_reconnect io); cbn [q_next]; constructor; q_simpl; try done; try lia; intros Hc; by rewrite (I3 Hc).
Qed.

Lemma q_turn_inv `{Target} c head now ev io t n sent :
  (forall sid, io_request io = Ok sid -> 0 <= sid < 2 ^ 62) -> q_inv c t n sent -> overdue c head t = false ->
  q_inv c (q_next (q_turn c head now ev io t)) (if turn_drained c now ev io t && turn_delivers io t then n + 1 else n)
    (sent ++ taken c ev t) /\
  (forall t', q_turn c head now ev io t = QContinue t' -> turn_drained c now ev io t = true).
Proof.
  intros Hsid I Hd. unfold q_turn, turn_drained. rewrite Hd. clear Hd.
  apply (on_event_inv c ev) in I. destruct (on_event_stream c ev t) as [Es Eh]. set (t1 := on_event c ev t) in *.
  assert (turn_delivers io t = match stream_after io t1 with Some sid => carries sid (io_dgrams io) | None => false end) as ->.
  { unfold turn_delivers, stream_after. by rewrite Eh, Es. }
  destruct (on_established c now io t1) as [t2| | |] eqn:E2; try done. cbn [lift].
  destruct (on_established_inv c now io t1 _ _ t2 Hsid I E2) as [I2 <-].
  destruct (on_control io t2) as [t3| | |] eqn:E3; try done. cbn [lift andb].
  destruct (on_control_inv c io t2 _ _ t3 I2 E3) as [I3 <-].
  destruct (on_datagrams_inv c io t3 _ _ I3) as (I4 & Es4 & <-). destruct (on_datagrams io t3) as [got t4] eqn:E4.
  cbn [fst snd] in *.
  assert (q_inv c (count_success got t4) (if got then n + 1 else n) (sent ++ taken c ev t)) as I5.
  { apply count_success_inv; [done|]. intros ->. rewrite Es4. unfold on_datagrams in E4.
    destruct (q_stream t3); [done|]. by simplify_eq. }
  split; [|done]. destruct (io_flush io); try done. cbn [lift]. destruct (io_closed io); [by apply on_closed_inv|done].
Qed.

Lemma continues_in_time `{Target} c head now ev io t t' : q_turn c head now ev io t = QContinue t' -> overdue c head t = false.
Proof. unfold q_turn. by destruct (overdue c head t). Qed.
Lemma q_reach_inv `{Target} c t n sent : q_reach c t n sent -> q_inv c t n sent.
Proof.
  induction 1 as [|t n sent head now ev io t' _ IH _ Hs E]; [apply q_inv_start|].
  destruct (q_turn_inv c head now ev io t n sent Hs IH (continues_in_time _ _ _ _ _ _ _ E)) as [I Hd].
  rewrite (Hd _ E), E in I. exact I.
Qed.
(** The states of an execution, the one in which [run] returns included. *)
Definition q_seen `{Target} (c : QConfig) (t : QTunnel) (n : Z) (sent : list bytes) : Prop :=
  q_reach c t n sent \/ exists r, q_over c t n sent r.
Lemma q_seen_inv `{Target} c t n sent : q_seen c t n sent -> q_inv c t n sent.
Proof.
  intros [Hr|(r & Ho)]; [by apply q_reach_inv|]. destruct Ho as [t n sent head now ev io t' r Hr Hd E|t n sent head now ev io t' r Hr _ Hs Hd E].
  - unfold q_turn in E. rewrite Hd in E. injection E as _ <-. by apply q_reach_inv.
  - destruct (q_turn_inv c head now ev io t n sent Hs (q_reach_inv _ _ _ _ Hr) Hd) as [I _]. by rewrite E in I.
Qed.

(** *** When a handshake is retried *)

Definition connection (t : QTunnel) : bool * bool * Z := (q_established_ever t, q_ech_retried t, q_connects t).
Lemma on_event_connection c ev t : connection (on_event c ev t) = connection t.
Proof. unfold on_event, send_ip. by repeat case_match. Qed.
Lemma on_control_connection `{Target} io t t' : on_control io t = Ok t' -> connection t' = connection t.
Proof.
  unfold on_control. destruct (q_h3 t), (q_stream t) as [sid|]; intros E; simplify_eq; try done.
  apply obind_Ok in E as ([p a] & _ & E). by simplify_eq.
Qed.
Lemma on_datagrams_connection io t : connection (on_datagrams io t).2 = connection t.
Proof. unfold on_datagrams. destruct (q_stream t); [|done]. by destruct (drain_datagrams _ _ _ _). Qed.
Lemma count_success_connection got t : connection (count_success got t) = connection t.
Proof. unfold count_success. by repeat case_match. Qed.
Lemma on_established_connection c now io t t' : on_established c now io t = Ok t' ->
  connection t' = if io_established io && negb (q_h3 t) then (true, q_ech_retried t, q_connects t) else connection t.
Proof.
  unfold on_established. destruct (_ && _); [|by intros [= <-]]. intros E. apply obind_Ok in E as (sid & _ & E).
  destruct (q_data_check c); simplify_eq; [done|]. by destruct (negb _).
Qed.

(** A turn opens a connection only as long as no handshake has completed. *)
Lemma turn_connection `{Target} c head now ev io t n sent : q_inv c t n sent -> let t' := q_next (q_turn c head now ev io t) in
  (q_established_ever t = true -> q_established_ever t' = true) /\
  (q_connects t' = q_connects t \/ q_connects t' = 2 /\ q_established_ever t' = false /\ io_established io = false).
Proof.
  intros I t'. assert (forall x, connection x = connection t -> q_established_ever x = q_established_ever t /\ q_connects x = q_connects t) as Hk
    by (intros x [= ? _ ?]; done). subst t'. unfold q_turn. destruct (overdue c head t); [split; [done|by left]|]. pose proof (on_event_connection c ev t) as C1.
  destruct (on_event_stream c ev t) as [_ Eh]. set (t1 := on_event c ev t) in *. destruct (Hk t1 C1) as [K1 K2].
  destruct (on_established c now io t1) as [t2| | |] eqn:E2; cbn [lift q_next]; try (rewrite K1, K2; by auto).
  apply on_established_connection in E2. rewrite Eh, C1 in E2.
  assert (exists b, connection t2 = (b, q_ech_retried t, q_connects t) /\ (q_established_ever t = true -> b = true) /\ (io_established io = true -> b = true)) as (b & C2 & Hb & Hio).
  { pose proof (qi_h3 _ _ _ _ I) as [_ He]. destruct (io_established io && negb (q_h3 t)) eqn:Ee; [exists true|exists (q_established_ever t)].
    - split_and!; [|done|done]. rewrite E2. by injection C1 as _ -> ->.
    - split_and!; [done|done|]. intros Hio. rewrite Hio in Ee. rewrite He. by destruct (q_h3 t). }
  assert (forall x, connection x = connection t2 -> (q_established_ever t = true -> q_established_ever x = true) /\ q_connects x = q_connects t) as Hx.
  { intros x Ex. rewrite C2 in Ex. injection Ex as -> _ ->. by split. }
  destruct (on_control io t2) as [t3| | |] eqn:E3; cbn [lift q_next]; try (destruct (Hx t2 eq_refl); by auto).
  apply on_control_connection in E3. pose proof (on_datagrams_connection io t3) as C4. destruct (on_datagrams io t3) as [got t4]. cbn [snd] in C4.
  pose proof (count_success_connection got t4) as C5. set (t5 := count_success got t4) in *.
  assert (connection t5 = connection t2) as C by congruence. destruct (Hx t5 C) as [H5 H6].
  destruct (io_flush io); cbn [lift q_next]; auto. destruct (io_closed io); cbn [q_next]; auto. unfold on_closed.
  destruct (io_retry io) as [retry|]; cbn [q_next]; auto. destruct (negb (q_established_ever t5) && negb (q_ech_retried t5) && _) eqn:Ec; cbn [q_next]; auto.
  apply andb_prop in Ec as [[Ec%negb_true_iff Er%negb_true_iff]%andb_prop _]. rewrite C2 in C. injection C as C Cr _. rewrite Ec in C.
  rewrite Er in Cr. pose proof (qi_connects _ _ _ _ I) as Hc. rewrite <- Cr in Hc.
  destruct (io_reconnect io); cbn [q_next q_established_ever q_connects]; (split; [auto|]); right; rewrite Ec, H6, Hc; split_and!; try done;
    destruct (io_established io); auto; exfalso; specialize (Hio eq_refl); congruence.
Qed.

(** C30: in every execution of the HTTP/3 tunnel, the state in which it returns
    included, the caller is told at most once that it is ready: with the data
    check on, exactly when two turns have delivered IP packets of the request
    stream; with it off, exactly when the request is sent.  At most two
    connections are opened, and the second only as long as no handshake has
    completed: a turn that opens one has found none complete, and that one has
    completed is never forgotten.  What the tunnel has put into datagrams is
    read at the other end of the stream as the packets taken, each once, whole
    and in order. *)
Theorem quic_tunnel_discipline `{Target} (c : QConfig) (t : QTunnel) (n : Z) (sent : list bytes) :
  q_seen c t n sent ->
  q_ready_signals t = (if q_ready_fired t then 1 else 0) /\
  (q_data_check c = true -> (q_ready_fired t = true <-> DATA_PROBE_REQUIRED_SUCCESSES <= n)) /\
  (q_data_check c = false -> (q_ready_fired t = true <-> is_Some (q_stream t))) /\
  q_connects t <= 2 /\
  (forall head now ev io, let t' := q_next (q_turn c head now ev io t) in
     (q_established_ever t = true -> q_established_ever t' = true /\ q_connects t' = q_connects t) /\
     (q_connects t' <> q_connects t -> q_established_ever t' = false /\ io_established io = false)) /\
  match q_stream t with
  | Some sid => Forall2 (fun d p => decode_ip_datagram d sid = Ok (Some p)) (q_dgrams t) sent
  | None => q_dgrams t = []
  end.
Proof.
  intros I%q_seen_inv. pose proof I as [[I1 _] I2 I3 [I4 _] I5 I6]. split_and!; [done| | | | |].
  - intros Hc. specialize (I2 Hc). destruct (q_ready_fired t); [done|]. split; [done|lia].
  - intros Hc. rewrite (I3 Hc), I4. apply bool_decide_eq_true.
  - rewrite I5. destruct (q_ech_retried t); lia.
  - intros head now ev io t'. destruct (turn_connection c head now ev io t n sent I) as [H1 H2]. fold t' in H1, H2. split.
    + intros He. specialize (H1 He). split; [done|]. destruct H2 as [?|(_ & H2 & _)]; [done|congruence].
    + intros Hne. by destruct H2 as [?|(_ & ? & ?)].
  - destruct (q_stream t); by destruct I6.
Qed.

Definition quiet_io : QIo := mkQIo true (Ok 0) [] [] (Ok tt) false None (Ok tt).
Definition answering_io (pkt : bytes) : QIo := mkQIo true (Ok 0) [] [enc_datagram 0 pkt] (Ok tt) false None (Ok tt).
Definition sample_q : QConfig := mkQConfig true [69; 1] 10000.
Definition q_state (r : q_step) (d : QTunnel) : QTunnel := match r with QContinue t => t | QReturn _ _ => d end.
Definition sample_q0 : QTunnel := q_start None (mkChan [] 4 true) None.
Definition sample_q1 `{Target} : QTunnel := q_state (q_turn sample_q 0 0 QPacket quiet_io sample_q0) sample_q0.
Definition sample_q2 `{Target} : QTunnel :=
  q_state (q_turn sample_q 5 5 (QOutbound (Some [69; 2]) true) (answering_io [69; 3]) sample_q1) sample_q0.

Lemma sample_q_reach : q_reach (H := target64) sample_q (sample_q2 (H := target64)) 1 [[69; 2]].
Proof.
  pose proof (q_reach_start (H := target64) sample_q None (mkChan [] 4 true) None) as R0.
  assert (forall io sid, io_request io = Ok 0 -> io_request io = Ok sid -> 0 <= sid < 2 ^ 62) as Hs
    by (intros io sid E1 E2; rewrite E1 in E2; simplify_eq; lia).
  pose proof (q_reach_turn (H := target64) _ _ _ _ 0 0 QPacket quiet_io (sample_q1 (H := target64)) R0 eq_refl
    (fun sid => Hs quiet_io sid eq_refl) eq_refl) as R1.
  pose proof (q_reach_turn (H := target64) _ _ _ _ 5 5 (QOutbound (Some [69; 2]) true) (answering_io [69; 3])
    (sample_q2 (H := target64)) R1 eq_refl (fun sid => Hs (answering_io [69; 3]) sid eq_refl)) as R2.
  assert (q_turn (H := target64) sample_q 5 5 (QOutbound (Some [69; 2]) true) (answering_io [69; 3]) (sample_q1 (H := target64))
    = QContinue (sample_q2 (H := target64))) as E by (vm_compute; reflexivity).
  specialize (R2 E).
  assert (turn_delivers (answering_io [69; 3]) (sample_q1 (H := target64)) = true) as Hd by (vm_compute; reflexivity).
  rewrite Hd in R2. exact R2.
Qed.

Lemma quic_tunnel_discipline_witness :
  Forall2 (fun d p => decode_ip_datagram d 0 = Ok (Some p)) (q_dgrams (sample_q2 (H := target64))) [[69; 2]].
Proof. exact (proj2 (proj2 (proj2 (proj2 (proj2 (quic_tunnel_discipline (H := target64) sample_q _ 1 [[69; 2]] (or_introl sample_q_reach))))))). Defined.

(** With the data check off, a tunnel whose edge refuses the CONNECT is
    reported ready and goes on: the status of the response is only logged, so
    the turn is the same whatever it is, where the HTTP/2 tunnel ends with an
    error. *)
Theorem refused_quic_edge_reported_ready `{Target}
    (c : QConfig) (head now sid : Z) (ech : option bytes) (inbound : Chan bytes) (addr_tx : option (Chan AssignedAddr))
    (status : bytes) :
  q_data_check c = false ->
  let io := mkQIo true (Ok sid) [Status status] [] (Ok tt) false None (Ok tt) in
  exists t, q_turn c head now QPacket io (q_start ech inbound addr_tx) = QContinue t /\
    q_ready_fired t = true /\ q_ready_signals t = 1 /\ q_stream t = Some sid.
Proof.
  intros Hc io. unfold q_turn, overdue. rewrite Hc. cbn [andb on_event]. unfold on_established, q_start. cbn. rewrite Hc. cbn.
  eexists. split; [reflexivity|done].
Qed.

Lemma refused_quic_edge_reported_ready_witness :
  let io := mkQIo true (Ok 0) [Status (str "403")] [] (Ok tt) false None (Ok tt) in
  exists t, q_turn (H := target64) (mkQConfig false [69; 1] 10000) 0 0 QPacket io sample_q0 = QContinue t /\
    q_ready_fired t = true /\ q_ready_signals t = 1 /\ q_stream t = Some 0.
Proof.
  apply (refused_quic_edge_reported_ready (H := target64) (mkQConfig false [69; 1] 10000) 0 0 0 None (mkChan [] 4 true) None
    (str "403")). reflexivity.
Defined.
