(* ===== verification/QuicVerify.v ===== *)
(** * The verification of a MASQUE gateway

    Models verify_masque of quic.rs and quick_verify_masque_peer of lib.rs.  The
    QUIC connection is quiche's: what it answers in a turn of the loop is the
    argument [VTurn].  Instants are in milliseconds. *)

From Stdlib Require Import ZArith Lia ZifyBool String List.
From stdpp Require Import base list numbers option decidable.
From S2P Require Import Prelude RustStr NetAddr Errors Channels Octets Masque H2Tunnel.
Open Scope Z_scope.

Inductive vact : Type :=
| VRequest (sid : Z)          (* the CONNECT-IP request was sent *)
| VAccepted (sid : Z)         (* its status is 200 *)
| VSent (framed : bytes)      (* a datagram handed to the library *)
| VDelivered (pkt : bytes).   (* an IP packet came back *)

Record VConfig : Type := mkVConfig { v_data_check : bool; v_probe : bytes; v_start : Z; v_timeout : Z }.

Record VState : Type := mkVState {
  v_stream : option Z;         (* [req_stream]; [h3_conn] is there when it is *)
  v_ok : bool;                 (* [connect_ip_ok] *)
  v_last : Z;                  (* [last_probe] *)
  v_successes : Z;
  v_log : list vact }.

Definition v_init (now : Z) : VState := mkVState None false now 0 [].
Definition v_does (s : VState) (a : vact) : VState :=
  mkVState (v_stream s) (v_ok s) (v_last s) (v_successes s) (v_log s ++ [a]).

(** What a poll of the HTTP/3 connection gives, until it is done. *)
Inductive vpoll : Type :=
| VHeaders (stream : Z) (headers : list (bytes * bytes))
| VOther
| VPollError (code : Z).

(** The branch the turn takes: a datagram, handled by the library whether it is
    well formed or not, an error of the socket, or the end of the wait. *)
Inductive vevent : Type := VDatagram | VSocketError (e : io_error) | VWaited.

(** [vt_head]: the clock at the head of the turn; [vt_polled], [vt_checked] and
    [vt_drained]: where it is read later. *)
Record VTurn : Type := mkVTurn {
  vt_head : Z; vt_event : vevent; vt_established : bool; vt_request : result Z;
  vt_polls : list vpoll; vt_polled : Z; vt_checked : Z; vt_dgrams : list bytes; vt_drained : Z;
  vt_flush : result unit; vt_closed : bool }.

Inductive vstep : Type := VGo (s : VState) | VStop (s : VState) (r : result Z).
Definition vthen (m : vstep) (k : VState -> vstep) : vstep := match m with VGo s => k s | VStop s r => VStop s r end.

(** A probe on the request stream; what [dgram_send] says is not looked at. *)
Definition v_send_probe (c : VConfig) (now : Z) (s : VState) : VState :=
  let s := match v_stream s with
           | Some sid => match encode_ip_datagram sid (v_probe c) with Ok framed => v_does s (VSent framed) | _ => s end
           | None => s
           end in
  mkVState (v_stream s) (v_ok s) now (v_successes s) (v_log s).

Definition v_accept (s : VState) (sid : Z) : VState :=
  mkVState (v_stream s) true (v_last s) (v_successes s) (v_log s ++ [VAccepted sid]).

(** The headers of the response, in order. *)
Fixpoint v_headers (c : VConfig) (now sid : Z) (headers : list (bytes * bytes)) (s : VState) : vstep :=
  match headers with
  | [] => VGo s
  | (name, value) :: headers =>
      if bool_decide (name = str ":status") then
        if bool_decide (value = str "200") then
          let s := v_accept s sid in
          if negb (v_data_check c) then VStop s (Ok (now - v_start c))
          else v_headers c now sid headers (v_send_probe c now s)
        else VStop s (Err (Other (str "status " ++ from_utf8_lossy value)))
      else v_headers c now sid headers s
  end.

Fixpoint v_polls (c : VConfig) (now sid : Z) (polls : list vpoll) (s : VState) : vstep :=
  match polls with
  | [] => VGo s
  | VHeaders stream headers :: polls =>
      if stream =? sid then vthen (v_headers c now sid headers s) (v_polls c now sid polls) else v_polls c now sid polls s
  | VOther :: polls => v_polls c now sid polls s
  | VPollError code :: _ => VStop s (Err (H3 code))
  end.

Fixpoint v_drain (c : VConfig) (now sid : Z) (dgrams : list bytes) (s : VState) : vstep :=
  match dgrams with
  | [] => VGo s
  | d :: dgrams =>
      match decode_ip_datagram d sid with
      | Ok (Some pkt) =>
          let s := mkVState (v_stream s) (v_ok s) (v_last s) (v_successes s + 1) (v_log s ++ [VDelivered pkt]) in
          if DATA_PROBE_REQUIRED_SUCCESSES <=? v_successes s then VStop s (Ok (now - v_start c))
          else v_drain c now sid dgrams (v_send_probe c now s)
      | _ => v_drain c now sid dgrams s
      end
  end.

(** The request, once the handshake is complete. *)
Definition v_request (t : VTurn) (s : VState) : vstep :=
  match v_stream s with
  | None =>
      if vt_established t then
        match vt_request t with
        | Ok sid => VGo (mkVState (Some sid) (v_ok s) (v_last s) (v_successes s) (v_log s ++ [VRequest sid]))
        | Err e => VStop s (Err e)
        | Panic => VStop s Panic
        | OutOfFuel => VStop s OutOfFuel
        end
      else VGo s
  | Some _ => VGo s
  end.

Definition v_data (c : VConfig) (t : VTurn) (s : VState) : vstep :=
  if v_ok s then
    let s := if 700 <=? vt_checked t - v_last s then v_send_probe c (vt_checked t) s else s in
    match v_stream s with
    | Some sid => v_drain c (vt_drained t) sid (vt_dgrams t) s
    | None => VGo s
    end
  else VGo s.

Definition v_finish (t : VTurn) (s : VState) : vstep :=
  match vt_flush t with
  | Ok _ => if vt_closed t then VStop s (Err (Other (str "closed before data-plane confirmation"))) else VGo s
  | Err e => VStop s (Err e)
  | Panic => VStop s Panic
  | OutOfFuel => VStop s OutOfFuel
  end.

Definition v_turn (c : VConfig) (t : VTurn) (s : VState) : vstep :=
  if v_start c + v_timeout c <=? vt_head t then VStop s (Err (Other (str "verify timeout")))
  else
    match vt_event t with
    | VSocketError e => VStop s (Err (Io e))
    | _ =>
        vthen (v_request t s) (fun s =>
        vthen (match v_stream s with Some sid => v_polls c (vt_polled t) sid (vt_polls t) s | None => VGo s end) (fun s =>
        vthen (v_data c t s) (v_finish t)))
    end.

Fixpoint v_loop (c : VConfig) (turns : list VTurn) (s : VState) : VState * option (result Z) :=
  match turns with
  | [] => (s, None)
  | t :: turns =>
      match v_turn c t s with
      | VGo s => v_loop c turns s
      | VStop s r => (s, Some r)
      end
  end.

(** [vw_setup]: the socket, the detour, the configuration and [quiche::connect];
    [vw_created]: the clock when [last_probe] is first set; [vw_flush]: the
    first flush. *)
Record VWorld : Type := mkVWorld {
  vw_setup : result unit; vw_created : Z; vw_flush : result unit; vw_turns : list VTurn }.

Definition verify_masque (c : VConfig) (w : VWorld) : VState * option (result Z) :=
  let s := v_init (vw_created w) in
  match (let! _ := vw_setup w in vw_flush w) with
  | Ok _ => v_loop c (vw_turns w) s
  | Err e => (s, Some (Err e))
  | Panic => (s, Some Panic)
  | OutOfFuel => (s, Some OutOfFuel)
  end.

Definition is_ok {A : Type} (r : result A) : bool := match r with Ok _ => true | _ => false end.

(** [h2]: what [verify_h2] gives, for the transport over HTTP/2. *)
Definition quick_verify_masque_peer (h2_enabled : bool) (h2 : option (result unit)) (c : VConfig) (w : VWorld) : option bool :=
  if h2_enabled then let? r := h2 in Some (is_ok r)
  else let? r := (verify_masque c w).2 in Some (is_ok r).

(** ** What a success means *)

Definition is_request (a : vact) : bool := match a with VRequest _ => true | _ => false end.
Definition is_back (a : vact) : bool := match a with VDelivered _ => true | _ => false end.
Definition vcount (p : vact -> bool) (l : list vact) : Z := zlen (List.filter p l).
Lemma vcount_app p l l' : vcount p (l ++ l') = vcount p l + vcount p l'.
Proof. unfold vcount. by rewrite List.filter_app, zlen_app. Qed.

Lemma vcount_skip p l a : p a = false -> vcount p (l ++ [a]) = vcount p l.
Proof. intros Hp. rewrite vcount_app. unfold vcount at 2. simpl. rewrite Hp. apply Z.add_0_r. Qed.

(** The log up to the acceptance of the request, and [n] packets since. *)
Definition accepted_then (sid n : Z) (l : list vact) : Prop :=
  exists before after, l = before ++ VAccepted sid :: after /\ vcount is_back before = 0 /\ vcount is_back after = n.

Lemma accepted_more sid n l l' : accepted_then sid n l -> accepted_then sid (n + vcount is_back l') (l ++ l').
Proof.
  intros (before & after & -> & Hb & Ha). exists before, (after ++ l'). rewrite <- app_assoc. split; [done|].
  split; [done|]. rewrite vcount_app. lia.
Qed.

Record v_inv (c : VConfig) (s : VState) : Prop := mkVInv {
  vi_requests : vcount is_request (v_log s) = (match v_stream s with Some _ => 1 | None => 0 end);
  vi_sent : forall framed, In (VSent framed) (v_log s) ->
    exists sid, v_stream s = Some sid /\ encode_ip_datagram sid (v_probe c) = Ok framed;
  vi_ok : if v_ok s then exists sid, v_stream s = Some sid /\ accepted_then sid (v_successes s) (v_log s)
          else v_successes s = 0 /\ vcount is_back (v_log s) = 0 }.

(** How a success leaves the log. *)
Definition v_won (c : VConfig) (s : VState) : Prop :=
  exists sid n, v_stream s = Some sid /\ accepted_then sid n (v_log s) /\
    (v_data_check c = true -> DATA_PROBE_REQUIRED_SUCCESSES <= n).

(** A part of a turn keeps the invariant, and succeeds only as [v_won] says. *)
Definition v_fine (c : VConfig) (m : vstep) : Prop :=
  match m with
  | VGo s => v_inv c s
  | VStop s r => v_inv c s /\ forall d, r = Ok d -> v_won c s
  end.

Lemma vthen_fine c m k : v_fine c m -> (forall s, v_inv c s -> v_fine c (k s)) -> v_fine c (vthen m k).
Proof. destruct m; simpl; eauto. Qed.
Lemma stop_fine c s e : v_inv c s -> v_fine c (VStop s (Err e)).
Proof. intros Hi. by split. Qed.

Lemma probe_inv c now s : v_inv c s -> v_inv c (v_send_probe c now s) /\
  v_stream (v_send_probe c now s) = v_stream s /\ v_ok (v_send_probe c now s) = v_ok s.
Proof.
  intros Hi. unfold v_send_probe. destruct (v_stream s) as [sid|] eqn:Es; [|by destruct Hi; split].
  destruct (encode_ip_datagram sid (v_probe c)) as [framed|e| |] eqn:Ee; try (by destruct Hi; split).
  split; [|done]. destruct Hi as [Hr Hs Ho]. rewrite Es in *. split; simpl; rewrite ?Es.
  - by rewrite vcount_skip.
  - intros f [Hf|[[= <-]|[]]]%in_app_iff; [by apply Hs|]. by exists sid.
  - destruct (v_ok s).
    + destruct Ho as (sid' & Hs' & Ha). exists sid'. split; [done|].
      apply (accepted_more _ _ _ [VSent framed]) in Ha. by rewrite Z.add_0_r in Ha.
    + by rewrite vcount_skip.
Qed.

Lemma accept_inv c s sid : v_inv c s -> v_stream s = Some sid -> v_inv c (v_accept s sid).
Proof.
  intros [Hr Hs Ho] Es. split; simpl.
  - by rewrite vcount_skip.
  - intros f [Hf|[[=]|[]]]%in_app_iff. by apply Hs.
  - exists sid. split; [done|]. destruct (v_ok s).
    + destruct Ho as (sid' & Hs' & Ha). rewrite Es in Hs'. injection Hs' as <-.
      apply (accepted_more _ _ _ [VAccepted sid]) in Ha. by rewrite Z.add_0_r in Ha.
    + destruct Ho as [-> Hb]. by exists (v_log s), [].
Qed.

Lemma headers_fine c now sid headers : forall s, v_inv c s -> v_stream s = Some sid ->
  match v_headers c now sid headers s with
  | VGo s' => v_inv c s' /\ v_stream s' = Some sid
  | m => v_fine c m
  end.
Proof.
  induction headers as [|[name value] headers IH]; intros s Hi Es; cbn [v_headers]; [done|].
  case_bool_decide; [|by apply IH]. case_bool_decide; [|by apply stop_fine].
  pose proof (accept_inv c s sid Hi Es) as Ha. destruct (v_data_check c) eqn:Ed; simpl.
  - destruct (probe_inv c now _ Ha) as (Hp & Hs & _). apply IH; [done|]. by rewrite Hs.
  - split; [done|]. intros d _. destruct (vi_ok c _ Ha) as (sid' & Hs & Hc). exists sid', (v_successes s).
    split; [done|]. split; [done|]. congruence.
Qed.

Lemma polls_fine c now sid polls : forall s, v_inv c s -> v_stream s = Some sid -> v_fine c (v_polls c now sid polls s).
Proof.
  induction polls as [|[stream headers| |code] polls IH]; intros s Hi Es; cbn [v_polls]; [done| |by apply IH|by apply stop_fine].
  destruct (stream =? sid); [|by apply IH]. pose proof (headers_fine c now sid headers s Hi Es) as Hh.
  destruct (v_headers c now sid headers s); [|done]. destruct Hh. by apply IH.
Qed.

Lemma drain_fine c now sid dgrams : forall s, v_inv c s -> v_ok s = true -> v_stream s = Some sid ->
  v_fine c (v_drain c now sid dgrams s).
Proof.
  induction dgrams as [|d dgrams IH]; intros s Hi Ho Es; cbn [v_drain]; [done|].
  destruct (decode_ip_datagram d sid) as [[pkt|]|e| |]; try (by apply IH).
  set (s1 := mkVState _ _ _ _ _). destruct Hi as [Hr Hs Hok]. rewrite Ho in Hok. destruct Hok as (sid' & Hs' & Ha).
  apply (accepted_more _ _ _ [VDelivered pkt]) in Ha.
  assert (v_inv c s1) as H1.
  { split; unfold s1; simpl.
    - by rewrite vcount_skip.
    - intros f [Hf|[[=]|[]]]%in_app_iff. by apply Hs.
    - rewrite Ho. by exists sid'. }
  destruct (_ <=? v_successes s1) eqn:E.
  - split; [done|]. intros d' _. exists sid', (v_successes s + 1). split; [done|]. split; [done|].
    intros _. unfold s1 in E. simpl in E. lia.
  - destruct (probe_inv c now s1 H1) as (H2 & Hst & Hk). apply IH; [done| |]; [by rewrite Hk|by rewrite Hst].
Qed.

Lemma request_fine c t s : v_inv c s -> v_fine c (v_request t s).
Proof.
  intros Hi. unfold v_request. destruct (v_stream s) as [sid|] eqn:Es; [done|]. destruct (vt_established t); [|done].
  destruct (vt_request t) as [sid|e| |]; try by split.
  destruct Hi as [Hr Hs Ho]. rewrite Es in *. split; simpl.
  - rewrite vcount_app, Hr. done.
  - intros f [Hf|[[=]|[]]]%in_app_iff. by destruct (Hs f Hf) as (? & ? & ?).
  - destruct (v_ok s); [by destruct Ho as (? & ? & ?)|]. by rewrite vcount_skip.
Qed.

Lemma data_fine c t s : v_inv c s -> v_fine c (v_data c t s).
Proof.
  intros Hi. unfold v_data. destruct (v_ok s) eqn:Ho; [|done].
  destruct (700 <=? _).
  - destruct (probe_inv c (vt_checked t) s Hi) as (Hp & Hs & Hk). destruct (v_stream (v_send_probe _ _ _)) eqn:Es; [|done].
    apply drain_fine; [done|by rewrite Hk|done].
  - destruct (v_stream s) eqn:Es; [|done]. by apply drain_fine.
Qed.

Lemma turn_fine c t s : v_inv c s -> v_fine c (v_turn c t s).
Proof.
  intros Hi. unfold v_turn. destruct (_ <=? _); [by apply stop_fine|]. destruct (vt_event t); [|by apply stop_fine|];
  (apply vthen_fine; [by apply request_fine|]; intros s1 H1; apply vthen_fine;
    [destruct (v_stream s1) eqn:Es; [by apply polls_fine|done]|]; intros s2 H2; apply vthen_fine; [by apply data_fine|];
    intros s3 H3; unfold v_finish; destruct (vt_flush t); [destruct (vt_closed t); [by apply stop_fine|done]| |by split|by split];
    by apply stop_fine).
Qed.

Lemma loop_fine c turns : forall s s' r, v_inv c s -> v_loop c turns s = (s', r) ->
  v_inv c s' /\ forall d, r = Some (Ok d) -> v_won c s'.
Proof.
  induction turns as [|t turns IH]; intros s s' r Hi; cbn [v_loop]; [by intros [= <- <-]|].
  pose proof (turn_fine c t s Hi) as Ht. destruct (v_turn c t s) as [s1|s1 r1]; [by apply IH|].
  intros [= <- <-]. destruct Ht as [H1 Hw]. split; [done|]. intros d [= ->]. by apply (Hw d).
Qed.

Lemma verified_won c w s d : verify_masque c w = (s, Some (Ok d)) -> v_won c s.
Proof.
  unfold verify_masque. destruct (let! _ := vw_setup w in vw_flush w); try done. intros E.
  destruct (loop_fine c _ _ _ _ (mkVInv c (v_init (vw_created w)) eq_refl ltac:(done) ltac:(done)) E) as [_ Hw]. by apply (Hw d).
Qed.


(** The verification of a gateway ends by its deadline, whatever the
    connection does: the first turn that starts past it is the last. *)
Theorem masque_verification_ends c w :
  Exists (fun t => v_start c + v_timeout c <= vt_head t) (vw_turns w) -> (verify_masque c w).2 <> None.
Proof.
  intros He. unfold verify_masque. destruct (let! _ := vw_setup w in vw_flush w); try done.
  generalize (v_init (vw_created w)). revert He. generalize (vw_turns w).
  intros turns. induction turns as [|t turns IH]; intros He s; [by apply Exists_nil in He|]. cbn [v_loop]. unfold v_turn.
  destruct (_ <=? _) eqn:E; [done|]. apply Exists_cons in He as [He|He]; [lia|].
  match goal with |- (match ?m with VGo _ => _ | VStop _ _ => _ end).2 <> None => destruct m end; [by apply IH|done].
Qed.

(** ** A verification, evaluated *)

Definition demo_vconfig : VConfig := mkVConfig true [69; 1] 0 5000.
Definition idle_turn (head : Z) : VTurn := mkVTurn head VWaited true (Ok 0) [] head head [] head (Ok tt) false.
Definition demo_vturns : list VTurn := [
  mkVTurn 10 VDatagram true (Ok 0) [VHeaders 0 [(str ":status", str "200")]] 20 30 [enc_datagram 0 [69; 2]] 40 (Ok tt) false;
  mkVTurn 50 VDatagram true (Ok 0) [] 60 70 [enc_datagram 4 [69; 3]; enc_datagram 0 [69; 4]] 80 (Ok tt) false;
  idle_turn 6000 ].
Definition demo_vworld : VWorld := mkVWorld (Ok tt) 0 (Ok tt) demo_vturns.


Lemma masque_verification_ends_witness : (verify_masque demo_vconfig (mkVWorld (Ok tt) 0 (Ok tt) [idle_turn 6000])).2 <> None.
Proof.
  apply masque_verification_ends. apply Exists_cons_hd. simpl. lia.
Defined.
