(* ===== verification/Dns.v ===== *)
(** * DNS messages

    Models dns.rs (the bootstrap resolver that fetches an ECHConfigList) and
    the DNS half of socks.rs (the in-tunnel resolver): queries, the test that a
    reply belongs to a query, the walk over the answer section and the two
    exchanges, over UDP and over TCP.  Sockets are outside: an exchange is given
    what they deliver.  Positions are [usize] values; a message is at most as
    long as the 4096-byte and 65535-byte buffers it is read into, so that their
    sums stay far from the end of the type. *)

From Stdlib Require Import ZArith Lia ZifyBool String List.
From stdpp Require Import base list numbers option decidable.
From S2P Require Import Prelude RustStr NetAddr Errors.
Open Scope Z_scope.

Definition RR_HTTPS : Z := 65.
Definition SVCPARAM_ECH : Z := 5.
Definition QTYPE_A : Z := 1.

(** [u16::from_be_bytes([m[i], m[i + 1]])]. *)
Definition be16 (m : bytes) (i : Z) : outcome unit Z :=
  let! a := idx m i in let! b := idx m (i + 1) in Ok (a * 256 + b).

Definition dots : Z -> bool := Z.eqb 46.

(** ** Queries

    [id] is the random identifier.  [build_query] of dns.rs leaves empty labels
    out, [build_dns_query] of socks.rs does not. *)
Definition push_label (label : bytes) : bytes := as_u8 (zlen label) :: label.

Definition query_head (id : Z) : bytes := to_be 2 id ++ [1; 0] ++ [0; 1] ++ [0; 0; 0; 0; 0; 0].
Definition build_query (id : Z) (name : bytes) (qtype : Z) : bytes * Z :=
  (query_head id
   ++ concat (map push_label (List.filter (fun l => negb (is_empty l)) (split dots name)))
   ++ [0] ++ to_be 2 qtype ++ [0; 1], id).
Definition build_dns_query (id : Z) (name : bytes) (qtype : Z) : bytes * Z :=
  (query_head id ++ concat (map push_label (split dots name)) ++ [0] ++ to_be 2 qtype ++ [0; 1], id).

(** ** Does a reply belong to a query? *)

(** The [for] loop over the labels: the position after them, or [None] where
    the source returns [false]. *)
Fixpoint match_labels `{Target} (msg : bytes) (labels : list bytes) (pos : Z) : outcome unit (option Z) :=
  match labels with
  | [] => Ok (Some pos)
  | label :: labels =>
      if is_empty label then match_labels msg labels pos
      else match zget msg pos with
           | None => Ok None
           | Some len =>
               if negb (len =? zlen label) then Ok None
               else match checked_add (pos + 1) len with
                    | Some e =>
                        if e <=? zlen msg then
                          let! s := idx_range msg (pos + 1) e in
                          if eq_ignore_ascii_case s label then match_labels msg labels e else Ok None
                        else Ok None
                    | None => Ok None
                    end
           end
  end.

Definition response_matches `{Target} (msg : bytes) (expected_id : Z) (expected_name : bytes)
    (expected_qtype : Z) : outcome unit bool :=
  if zlen msg <? 12 then Ok false
  else let! id := be16 msg 0 in
  if negb (id =? expected_id) then Ok false
  else let! flags := idx msg 2 in
  if Z.land flags 0x80 =? 0 then Ok false
  else let! qdcount := be16 msg 4 in
  if negb (qdcount =? 1) then Ok false
  else let! p := match_labels msg (split dots expected_name) 12 in
  match p with
  | None => Ok false
  | Some pos =>
      if negb (bool_decide (zget msg pos = Some 0)) then Ok false
      else if zlen msg <? pos + 1 + 4 then Ok false
      else let! qtype := be16 msg (pos + 1) in Ok (qtype =? expected_qtype)
  end.

(** The copy of the same function in socks.rs. *)
Definition dns_response_matches `{Target} (resp : bytes) (expected_id : Z) (expected_name : bytes)
    (expected_qtype : Z) : outcome unit bool :=
  response_matches resp expected_id expected_name expected_qtype.

(** ** Walking the answer section *)

(** [skip_name]; [Err] is the source's [None].  Every turn moves on, so the
    length of the message bounds the loop. *)
Fixpoint skip_name_fuel (fuel : nat) (buf : bytes) (pos : Z) : outcome unit Z :=
  match fuel with
  | O => OutOfFuel
  | S fuel =>
      match zget buf pos with
      | None => Err tt
      | Some len =>
          if Z.land len 0xc0 =? 0xc0 then Ok (pos + 2)
          else if len =? 0 then Ok (pos + 1)
          else skip_name_fuel fuel buf (pos + (1 + len))
      end
  end.
Definition skip_name (buf : bytes) (pos : Z) : outcome unit Z := skip_name_fuel (S (length buf)) buf pos.

(** [for _ in 0..qd]. *)
Fixpoint skip_questions `{Target} (n : nat) (msg : bytes) (pos : Z) : outcome unit Z :=
  match n with
  | O => Ok pos
  | S n =>
      let! pos := skip_name msg pos in
      let! pos := ok_or (checked_add pos 4) tt in
      skip_questions n msg pos
  end.

(** [for _ in 0..an]; [pick rtype pos rdlen] is what the loop does with one
    record whose data lies at [pos]. *)
Fixpoint walk_answers {A : Type} (pick : Z -> Z -> Z -> outcome unit (option A)) (n : nat) (msg : bytes) (pos : Z)
    : outcome unit A :=
  match n with
  | O => Err tt
  | S n =>
      let! pos := skip_name msg pos in
      if zlen msg <? pos + 10 then Err tt
      else let! rtype := be16 msg pos in
      let! rdlen := be16 msg (pos + 8) in
      let pos := pos + 10 in
      if zlen msg <? pos + rdlen then Err tt
      else let! r := pick rtype pos rdlen in
      match r with
      | Some a => Ok a
      | None => walk_answers pick n msg (pos + rdlen)
      end
  end.

Definition walk_message `{Target} {A : Type} (pick : Z -> Z -> Z -> outcome unit (option A)) (msg : bytes)
    : outcome unit A :=
  if zlen msg <? 12 then Err tt
  else let! qd := be16 msg 4 in
  let! an := be16 msg 6 in
  let! pos := skip_questions (Z.to_nat qd) msg 12 in
  walk_answers pick (Z.to_nat an) msg pos.

Definition pick_a (resp : bytes) (rtype pos rdlen : Z) : outcome unit (option IpAddr) :=
  if (rtype =? 1) && (rdlen =? 4) then
    let! a := idx resp pos in let! b := idx resp (pos + 1) in
    let! c := idx resp (pos + 2) in let! d := idx resp (pos + 3) in
    Ok (Some (V4 [a; b; c; d]))
  else Ok None.

Definition parse_dns_a `{Target} (resp : bytes) : outcome unit IpAddr := walk_message (pick_a resp) resp.

(** The [while] loop of [parse_svcparams_ech]. *)
Fixpoint svcparams (fuel : nat) (msg : bytes) (p e : Z) : outcome unit bytes :=
  if p + 4 <=? e then
    match fuel with
    | O => OutOfFuel
    | S fuel =>
        let! key := be16 msg p in
        let! len := be16 msg (p + 2) in
        let p := p + 4 in
        if e <? p + len then Err tt
        else if key =? SVCPARAM_ECH then idx_range msg p (p + len)
        else svcparams fuel msg (p + len) e
    end
  else Err tt.

Definition parse_svcparams_ech (msg : bytes) (rdata_start rdlen : Z) : outcome unit bytes :=
  let e := rdata_start + rdlen in
  if e <? rdata_start + 2 then Err tt
  else let! p := skip_name msg (rdata_start + 2) in
       svcparams (length msg) msg p e.

(** [if let Some(ech) = parse_svcparams_ech(..)]. *)
Definition to_opt {A : Type} (o : outcome unit A) : outcome unit (option A) :=
  match o with
  | Ok a => Ok (Some a)
  | Err _ => Ok None
  | Panic => Panic
  | OutOfFuel => OutOfFuel
  end.
Definition pick_ech (msg : bytes) (rtype pos rdlen : Z) : outcome unit (option bytes) :=
  if rtype =? RR_HTTPS then to_opt (parse_svcparams_ech msg pos rdlen) else Ok None.

Definition parse_https_ech `{Target} (msg : bytes) : outcome unit bytes := walk_message (pick_ech msg) msg.

(** ** Exchanges *)

(** What a receive yields: a datagram, an I/O error, or the end of the wait. *)
Inductive recv_event : Type :=
| Datagram_ (b : bytes)
| RecvError (e : io_error)
| Deadline.

(** The receive loop of [query_ech]; [None] while nothing has decided it. *)
Fixpoint query_ech `{Target} (evs : list recv_event) (id : Z) (host : bytes) : option (result bytes) :=
  match evs with
  | [] => None
  | Deadline :: _ => Some (Err (Ech (str "dns timeout")))
  | RecvError e :: _ => Some (Err (Io e))
  | Datagram_ buf :: evs =>
      match response_matches buf id host RR_HTTPS with
      | Ok true => Some (map_err (fun _ => Ech (str "no ech svcparam")) (parse_https_ech buf))
      | Ok false | Err _ => query_ech evs id host
      | Panic => Some Panic
      | OutOfFuel => Some OutOfFuel
      end
  end.

Definition BOOTSTRAP_DNS : list bytes := [str "1.1.1.1:53"; str "1.0.0.1:53"; str "8.8.8.8:53"].
Definition ECH_HOSTS : list bytes := [str "cloudflare-ech.com"; str "crypto.cloudflare.com"].

(** The two nested [for] loops; [query] stands for the exchange with a server. *)
Fixpoint fetch_from (query : SocketAddr -> bytes -> result bytes) (pairs : list (bytes * bytes)) : result bytes :=
  match pairs with
  | [] => Err (Ech (str "no ECHConfigList resolved"))
  | (host, server) :: pairs =>
      match parse_socket_addr server with
      | None => fetch_from query pairs
      | Some addr =>
          match query addr host with
          | Ok ech => if is_empty ech then fetch_from query pairs else Ok ech
          | Err _ => fetch_from query pairs
          | Panic => Panic
          | OutOfFuel => OutOfFuel
          end
      end
  end.
Definition fetch_ech_config (query : SocketAddr -> bytes -> result bytes) : result bytes :=
  fetch_from query (flat_map (fun host => map (pair host) BOOTSTRAP_DNS) ECH_HOSTS).

(** [resolver_addresses], on the value of [SOILDTUNNEL_DNS]. *)
Definition resolver_entry (token : bytes) : option SocketAddr :=
  let entry := trim token in
  if is_empty entry then None
  else match parse_socket_addr entry with
       | Some a => Some a
       | None => match parse_ip entry with Some ip => Some (sock_new ip 53) | None => None end
       end.
Definition dns_default : list SocketAddr :=
  [sock_new (V4 [1; 1; 1; 1]) 53; sock_new (V4 [1; 0; 0; 1]) 53].
Definition resolver_addresses (env : Env) : list SocketAddr :=
  let configured := unwrap_or_default (env (str "SOILDTUNNEL_DNS")) in
  let servers := fold_left (fun servers token =>
      match resolver_entry token with
      | Some s => if bool_decide (s ∈ servers) then servers else servers ++ [s]
      | None => servers
      end) (split (fun b => (b =? 44) || (b =? 32) || (b =? 59)) configured) [] in
  if is_empty servers then dns_default else servers.

(** The inner [for] of [dns_exchange]: [None] when no query matches. *)
Fixpoint dns_match_any `{Target} (ids : list Z) (name resp : bytes) : option (result IpAddr) :=
  match ids with
  | [] => None
  | id :: ids =>
      match dns_response_matches resp id name QTYPE_A with
      | Ok true => Some (map_err (fun _ => Other (str "no A record for " ++ name)) (parse_dns_a resp))
      | Ok false | Err _ => dns_match_any ids name resp
      | Panic => Some Panic
      | OutOfFuel => Some OutOfFuel
      end
  end.

(** What the stack's channel yields: a datagram, its end, or the deadline. *)
Inductive chan_event (A : Type) : Type :=
| Received (a : A)
| ChanClosed
| ChanTimeout.
Arguments Received {A} a.
Arguments ChanClosed {A}.
Arguments ChanTimeout {A}.

(** [dns_exchange] after the sends: [ids] are those of the queries that could
    be sent. *)
Fixpoint dns_exchange_loop `{Target} (evs : list (chan_event bytes)) (ids : list Z) (name : bytes)
    : option (result IpAddr) :=
  match evs with
  | [] => None
  | ChanClosed :: _ => Some (Err (Other (str "dns channel closed")))
  | ChanTimeout :: _ => Some (Err (Other (str "dns timeout for " ++ name)))
  | Received resp :: evs =>
      match dns_match_any ids name resp with
      | Some r => Some r
      | None => dns_exchange_loop evs ids name
      end
  end.
Definition dns_exchange `{Target} (evs : list (chan_event bytes)) (sends : list (Z * bool)) (name : bytes)
    : option (result IpAddr) :=
  let queries := map fst (List.filter snd sends) in
  if is_empty queries then Some (Err (Other (str "dns send failed")))
  else dns_exchange_loop evs queries name.

(** The two [while buf.len() < n] loops of [dns_exchange_tcp]: the buffer and
    the chunks not yet read. *)
Fixpoint read_until (n : Z) (buf : bytes) (chunks : list (chan_event bytes))
    : option (result (bytes * list (chan_event bytes))) :=
  if zlen buf <? n then
    match chunks with
    | [] => None
    | Received c :: chunks => read_until n (buf ++ c) chunks
    | ChanClosed :: _ => Some (Err (Other (str "dns tcp closed")))
    | ChanTimeout :: _ => Some (Err (Other (str "dns tcp timeout")))
    end
  else Some (Ok (buf, chunks)).

Definition dns_tcp_frame (query : bytes) : bytes := to_be 2 (as_u16 (zlen query)) ++ query.

(** One attempt of [dns_exchange_tcp] once the query was sent. *)
Definition dns_tcp_attempt `{Target} (chunks : list (chan_event bytes)) (id : Z) (name : bytes)
    : option (result IpAddr) :=
  let? r := read_until 2 [] chunks in
  match r with
  | Ok (buf, chunks) =>
      match be16 buf 0 with
      | Ok len =>
          if 4096 <? len then Some (Err (Other (str "dns tcp reply too large")))
          else let? r := read_until (2 + len) buf chunks in
          match r with
          | Ok (buf, _) =>
              match idx_range (E := unit) buf 2 (2 + len) with
              | Ok body =>
                  match dns_response_matches body id name QTYPE_A with
                  | Ok true => Some (map_err (fun _ => Other (str "no A record for " ++ name)) (parse_dns_a body))
                  | Ok false | Err _ => Some (Err (Other (str "dns tcp mismatch for " ++ name)))
                  | Panic => Some Panic
                  | OutOfFuel => Some OutOfFuel
                  end
              | _ => Some Panic
              end
          | Err e => Some (Err e)
          | Panic => Some Panic
          | OutOfFuel => Some OutOfFuel
          end
      | _ => Some Panic
      end
  | Err e => Some (Err e)
  | Panic => Some Panic
  | OutOfFuel => Some OutOfFuel
  end.

(** [dns_exchange_tcp]: the servers in turn; [attempt] is one of them. *)
Fixpoint dns_exchange_tcp (attempt : SocketAddr -> result IpAddr) (servers : list SocketAddr)
    (last : SoildTunnelError) : result IpAddr :=
  match servers with
  | [] => Err last
  | server :: servers =>
      match attempt server with
      | Ok ip => Ok ip
      | Err e => dns_exchange_tcp attempt servers e
      | Panic => Panic
      | OutOfFuel => OutOfFuel
      end
  end.

(** ** Matching, exactly *)

Section Matching.
Context `{Target}.

Definition nonempty (labels : list bytes) : list bytes := List.filter (fun l => negb (is_empty l)) labels.

(** The labels of a question that are those of a name, up to ASCII case. *)
Definition same_labels (labels question : list bytes) : Prop :=
  Forall2 (fun l q => eq_ignore_ascii_case q l = true) (nonempty labels) question /\
  Forall (fun q => zlen q < 256) question.

Lemma eq_ignore_length a b : eq_ignore_ascii_case a b = true -> zlen a = zlen b.
Proof.
  unfold eq_ignore_ascii_case, to_ascii_lowercase. intros E%bool_decide_eq_true%(f_equal zlen).
  by rewrite !zlen_map in E.
Qed.

Lemma push_label_small q : zlen q < 256 -> push_label q = zlen q :: q.
Proof. intros. unfold push_label, as_u8. rewrite Z.mod_small; [done|]. pose proof (zlen_nonneg q). lia. Qed.

Lemma checked_add_small a b : a + b <= usize_max -> checked_add a b = Some (a + b).
Proof. intros. unfold checked_add. by replace (_ <=? _) with true by lia. Qed.

Lemma match_labels_complete labels question p t :
  same_labels labels question -> zlen (p ++ concat (map push_label question) ++ t) <= usize_max ->
  match_labels (p ++ concat (map push_label question) ++ t) labels (zlen p) =
  Ok (Some (zlen (p ++ concat (map push_label question)))).
Proof.
  revert question p. induction labels as [|l labels IH]; intros question p [Hs Hl] Hu; simpl.
  { inversion Hs. simpl. by rewrite app_nil_r. }
  destruct l as [|b l]; cbn [is_empty]; [by apply IH|].
  unfold nonempty in Hs. simpl in Hs. apply Forall2_cons_inv_l in Hs as (q & question' & Hq & Hs & ->).
  apply Forall_cons_iff in Hl as [Hl1 Hl]. cbn [map concat] in *. rewrite push_label_small in * by done.
  rewrite <- !app_assoc in *. simpl app in *.
  rewrite zget_app_r, Z.sub_diag by lia. change (zget (?a :: _) 0) with (Some a).
  pose proof (eq_ignore_length _ _ Hq) as Hlen. cbn [negb]. replace (zlen q =? zlen (b :: l)) with true by lia. cbn [negb].
  set (rest := concat (map push_label question') ++ t) in *.
  rewrite !zlen_app, zlen_cons, zlen_app in Hu. pose proof (zlen_nonneg rest).
  rewrite checked_add_small by lia.
  replace (_ <=? _) with true by (rewrite zlen_app, zlen_cons, zlen_app; lia).
  unfold idx_range. change (zlen q :: q ++ rest) with ([zlen q] ++ q ++ rest). rewrite (app_assoc p [zlen q]).
  rewrite (get_range_mid (p ++ [zlen q]) q rest) by (rewrite zlen_app; change (zlen [_]) with 1; lia).
  cbn [obind]. rewrite Hq.
  specialize (IH question' (p ++ [zlen q] ++ q)). rewrite <- !app_assoc in IH. simpl app in IH. fold rest in IH.
  replace (zlen (p ++ zlen q :: q)) with (zlen p + 1 + zlen q) in IH by (rewrite zlen_app, zlen_cons; lia).
  rewrite <- app_assoc. simpl app. rewrite IH; [|by split|by rewrite zlen_app, zlen_cons, zlen_app].
  done.
Qed.

Lemma match_labels_sound labels p s e :
  bytes_ok s -> match_labels (p ++ s) labels (zlen p) = Ok (Some e) ->
  exists question t, same_labels labels question /\ s = concat (map push_label question) ++ t /\
    e = zlen (p ++ concat (map push_label question)).
Proof.
  revert p s. induction labels as [|l labels IH]; intros p s Hb; simpl.
  { intros [= <-]. exists [], s. rewrite app_nil_r. split_and!; [by split; constructor|done|done]. }
  destruct l as [|b l]; cbn [is_empty]; [intros Hm; destruct (IH p s Hb Hm) as (q & t & ? & ? & ?); by exists q, t|].
  rewrite zget_app_r, Z.sub_diag by lia. destruct s as [|len s]; [done|]. change (zget (?a :: _) 0) with (Some a).
  apply bytes_ok_cons in Hb as [Hlen Hb]. cbn [negb].
  destruct (len =? zlen (b :: l)) eqn:El; [|done]. cbn [negb]. apply Z.eqb_eq in El.
  unfold checked_add. destruct (_ <=? usize_max); [|done].
  destruct (zlen p + 1 + len <=? zlen (p ++ len :: s)) eqn:Ee; [|done].
  rewrite zlen_app, zlen_cons in Ee. pose proof (zlen_nonneg p). pose proof (zlen_nonneg s).
  pose proof (ztake_zdrop s len) as Hs. set (q := ztake len s) in *. set (r := zdrop len s) in *.
  assert (zlen q = len) as Hq by (subst q; rewrite zlen_ztake; unfold is_u8 in Hlen; lia).
  unfold idx_range. rewrite <- Hs.
  replace (p ++ len :: q ++ r) with ((p ++ [len]) ++ q ++ r) by (by rewrite <- app_assoc).
  rewrite (get_range_mid (p ++ [len]) q r) by (rewrite zlen_app; change (zlen [_]) with 1; lia).
  cbn [obind]. destruct (eq_ignore_ascii_case q (b :: l)) eqn:Heq; [|done].
  rewrite app_assoc. replace (zlen p + 1 + len) with (zlen ((p ++ [len]) ++ q))
    by (rewrite !zlen_app; change (zlen [_]) with 1; lia).
  rewrite <- Hs in Hb. apply bytes_ok_app in Hb as [_ Hb]. intros Hm.
  destruct (IH _ _ Hb Hm) as (question & t & [Hs1 Hs2] & Hr & ->).
  exists (q :: question), t. unfold is_u8 in Hlen. cbn [map concat]. rewrite push_label_small by lia.
  split_and!.
  - split; [by constructor|constructor; [lia|done]].
  - rewrite Hr, Hq. simpl. by rewrite <- app_assoc.
  - rewrite Hq. by rewrite <- !app_assoc.
Qed.

Lemma match_labels_returns labels msg pos : 0 <= pos -> bytes_ok msg -> exists r, match_labels msg labels pos = Ok r.
Proof.
  intros Hp Hb. revert pos Hp. induction labels as [|l labels IH]; intros pos Hp; simpl; [by eexists|].
  destruct l as [|b l]; cbn [is_empty]; [by apply IH|].
  destruct (zget msg pos) as [len|] eqn:Hg; [|by eexists]. pose proof (zget_ok _ _ _ Hb Hg) as Hlen.
  unfold is_u8 in Hlen. destruct (negb _); [by eexists|]. unfold checked_add.
  destruct (_ <=? usize_max); [|by eexists]. destruct (_ <=? zlen msg) eqn:Hle; [|by eexists].
  assert (returns (@idx_range unit Z msg (pos + 1) (pos + 1 + len))) as Hr by (apply idx_range_returns; lia).
  destruct (idx_range _ _ _) as [s| | |] eqn:E; simpl in Hr; try done.
  - simpl. case_match; [|by eexists]. apply IH. lia.
  - unfold idx_range in E. by case_match.
Qed.

(** A reply that answers a question: identifier, response bit, one question,
    and the question itself. *)
Definition answers (msg : bytes) (id : Z) (labels : list bytes) (qtype : Z) : Prop :=
  exists f2 f3 counts question class rest,
    msg = to_be 2 id ++ [f2; f3; 0; 1] ++ counts ++ concat (map push_label question)
          ++ [0] ++ to_be 2 qtype ++ class ++ rest /\
    Z.land f2 0x80 <> 0 /\ zlen counts = 6 /\ zlen class = 2 /\ same_labels labels question.

Lemma be16_mid p v q : 0 <= v < 65536 -> be16 (p ++ to_be 2 v ++ q) (zlen p) = Ok v.
Proof.
  intros Hv. unfold be16, idx. rewrite zget_app_r, Z.sub_diag by lia.
  change (to_be 2 v ++ q) with ((v / 256) mod 256 :: (v / 1) mod 256 :: q).
  change (zget (?a :: _) 0) with (Some a). cbn [obind].
  rewrite zget_app_r by lia. rewrite zget_cons_pos by lia.
  replace (zlen p + 1 - zlen p - 1) with 0 by lia. change (zget (?a :: _) 0) with (Some a). cbn [obind].
  f_equal. rewrite Z.div_1_r. pose proof (Z.div_mod v 256). rewrite (Z.mod_small (v / 256)); [lia|].
  split; [apply Z.div_pos; lia|]. apply Z.div_lt_upper_bound; lia.
Qed.

Lemma be16_inv p s v :
  bytes_ok s -> be16 (p ++ s) (zlen p) = Ok v -> exists r, s = to_be 2 v ++ r /\ 0 <= v < 65536.
Proof.
  intros Hb. unfold be16, idx. rewrite !zget_app_r by lia. rewrite Z.sub_diag.
  destruct s as [|a [|b r]]; [done| |].
  - change (zget [a] 0) with (Some a). cbn [obind]. rewrite zget_cons_pos by lia.
    by replace (zlen p + 1 - zlen p - 1) with 0 by lia.
  - change (zget (?x :: _) 0) with (Some x). cbn [obind]. rewrite zget_cons_pos by lia.
    replace (zlen p + 1 - zlen p - 1) with 0 by lia. change (zget (?x :: _) 0) with (Some x). cbn [obind].
    intros [= <-]. apply bytes_ok_cons in Hb as [Ha Hb]. apply bytes_ok_cons in Hb as [Hbb _].
    unfold is_u8 in *. exists r. split; [|lia].
    change (to_be 2 (a * 256 + b)) with [((a * 256 + b) / 256) mod 256; ((a * 256 + b) / 1) mod 256].
    rewrite Z.div_1_r, Z.div_add_l, Z.div_small, Z.add_0_r by lia.
    rewrite Z.mod_small by lia. rewrite Z.add_comm, Z.mod_add, Z.mod_small by lia. done.
Qed.

Lemma header_split (msg : bytes) : 12 <= zlen msg ->
  exists b0 b1 b2 b3 b4 b5 b6 b7 b8 b9 b10 b11 s,
    msg = [b0; b1; b2; b3; b4; b5; b6; b7; b8; b9; b10; b11] ++ s.
Proof.
  intros Hl. do 12 (destruct msg as [|? msg]; [exfalso; rewrite ?zlen_cons, zlen_nil in Hl; lia|]).
  simpl. by repeat eexists.
Qed.

Lemma to_be_2 a b : is_u8 a -> is_u8 b -> to_be 2 (a * 256 + b) = [a; b].
Proof.
  unfold is_u8. intros.
  change (to_be 2 (a * 256 + b)) with [((a * 256 + b) / 256) mod 256; ((a * 256 + b) / 1) mod 256].
  rewrite Z.div_1_r, Z.div_add_l, Z.div_small, Z.add_0_r by lia.
  rewrite Z.mod_small by lia. by rewrite Z.add_comm, Z.mod_add, Z.mod_small by lia.
Qed.

Lemma response_matches_sound msg id name qtype :
  bytes_ok msg -> response_matches msg id name qtype = Ok true -> answers msg id (split dots name) qtype.
Proof.
  intros Hb. unfold response_matches. destruct (zlen msg <? 12) eqn:Hl; [done|].
  destruct (header_split msg) as (b0&b1&b2&b3&b4&b5&b6&b7&b8&b9&b10&b11&s&->); [lia|].
  set (h := [b0; b1; b2; b3; b4; b5; b6; b7; b8; b9; b10; b11]) in *.
  change (be16 (h ++ s) 0) with (@Ok unit Z (b0 * 256 + b1)). change (idx (h ++ s) 2) with (@Ok unit Z b2).
  change (be16 (h ++ s) 4) with (@Ok unit Z (b4 * 256 + b5)). cbn [obind].
  destruct (b0 * 256 + b1 =? id) eqn:Hid; [|done]. destruct (Z.land b2 0x80 =? 0) eqn:Hqr; [done|].
  destruct (b4 * 256 + b5 =? 1) eqn:Hqd; [|done]. cbn [negb].
  apply bytes_ok_app in Hb as [Hh Hs]. change 12 with (zlen h).
  destruct (match_labels _ _ _) as [[pos|]| | |] eqn:Hm; try done. cbn [obind].
  apply match_labels_sound in Hm as (question & t & Hq & -> & ->); [|done].
  set (ls := concat (map push_label question)) in *. rewrite app_assoc, zget_app_r, Z.sub_diag by lia.
  destruct (bool_decide _) eqn:Hz; [|done]. apply bool_decide_eq_true in Hz. cbn [negb].
  destruct t as [|x t]; [done|]. change (zget (x :: t) 0) with (Some x) in Hz. injection Hz as ->.
  destruct (zlen ((h ++ ls) ++ 0 :: t) <? zlen (h ++ ls) + 1 + 4) eqn:Hlen; [done|]. rewrite (zlen_app (h ++ ls)), zlen_cons in Hlen.
  change (0 :: t) with ([0] ++ t). rewrite (app_assoc (h ++ ls) [0] t).
  replace (zlen (h ++ ls) + 1) with (zlen ((h ++ ls) ++ [0])) by (rewrite (zlen_app _ [0]); done).
  destruct (be16 _ _) as [q| | |] eqn:Hbe; try done. cbn [obind]. intros [= Hqt%Z.eqb_eq]. subst q.
  apply bytes_ok_app in Hs as [_ Hs]. apply bytes_ok_cons in Hs as [_ Hs].
  apply be16_inv in Hbe as (r & -> & _); [|done].
  rewrite (zlen_app (to_be 2 qtype)), zlen_to_be in Hlen.
  repeat (apply bytes_ok_cons in Hh as [? Hh]). unfold is_u8 in *.
  exists b2, b3, [b6; b7; b8; b9; b10; b11], question, (ztake 2 r), (zdrop 2 r).
  rewrite ztake_zdrop. assert (b4 = 0 /\ b5 = 1) as [-> ->] by lia. apply Z.eqb_eq in Hid. subst id.
  rewrite to_be_2 by (unfold is_u8; lia). split_and!; [|lia|done|rewrite zlen_ztake; lia|done].
  unfold h. rewrite <- !app_assoc. done.
Qed.

(** Also when the reply repeats the question with another type. *)
Lemma response_matches_complete msg id name qtype expected :
  0 <= id < 65536 -> 0 <= qtype < 65536 -> zlen msg <= usize_max ->
  answers msg id (split dots name) qtype -> response_matches msg id name expected = Ok (qtype =? expected).
Proof.
  intros Hid Hq Hu (f2 & f3 & counts & question & class & rest & -> & Hqr & Hc & Hcl & Hs).
  set (ls := concat (map push_label question)) in *.
  do 6 (destruct counts as [|? counts]; [rewrite ?zlen_cons, zlen_nil in Hc; lia|]).
  destruct counts; [|rewrite ?zlen_cons in Hc; pose proof (zlen_nonneg counts); lia].
  unfold response_matches.
  pose proof (be16_mid [] id ([f2; f3; 0; 1] ++ [z; z0; z1; z2; z3; z4] ++ ls ++ [0] ++ to_be 2 qtype ++ class ++ rest) Hid) as H0.
  change (zlen (@nil Z)) with 0 in H0. rewrite app_nil_l in H0. rewrite H0. cbn [obind]. rewrite Z.eqb_refl. cbn [negb].
  set (h := to_be 2 id ++ [f2; f3; 0; 1] ++ [z; z0; z1; z2; z3; z4]).
  replace (to_be 2 id ++ [f2; f3; 0; 1] ++ [z; z0; z1; z2; z3; z4] ++ ls ++ [0] ++ to_be 2 qtype ++ class ++ rest)
    with (h ++ ls ++ [0] ++ to_be 2 qtype ++ class ++ rest) in * by (unfold h; by rewrite <- !app_assoc).
  rewrite !zlen_app in Hu. rewrite !zlen_app, zlen_to_be. change (zlen h) with 12 in *. change (zlen [0]) with 1 in *.
  pose proof (zlen_nonneg ls). pose proof (zlen_nonneg rest).
  replace (_ <? 12) with false by lia.
  change (idx (h ++ ?s) 2) with (@Ok unit Z f2). change (be16 (h ++ ?s) 4) with (@Ok unit Z 1). cbn [obind].
  replace (Z.land f2 128 =? 0) with false by lia. cbn [negb Z.eqb]. change 12 with (zlen h) at 1.
  subst ls. rewrite match_labels_complete; [|done|rewrite !zlen_app; change (zlen h) with 12; change (zlen [0]) with 1; lia].
  set (ls := concat (map push_label question)) in *. cbn [obind Pos.eqb negb].
  rewrite app_assoc, zget_app_r, Z.sub_diag by lia. rewrite bool_decide_true by done. cbn [negb].
  rewrite zlen_app. change (zlen h) with 12. rewrite zlen_to_be in Hu. replace (_ <? _) with false by lia.
  rewrite (app_assoc (h ++ ls) [0]). replace (12 + zlen ls + 1) with (zlen ((h ++ ls) ++ [0]))
    by (rewrite !zlen_app; done).
  by rewrite be16_mid by done.
Qed.

Lemma response_matches_returns msg id name qtype :
  bytes_ok msg -> exists b, response_matches msg id name qtype = Ok b.
Proof.
  intros Hb. unfold response_matches. destruct (zlen msg <? 12) eqn:Hl; [by eexists|].
  destruct (header_split msg) as (b0&b1&b2&b3&b4&b5&b6&b7&b8&b9&b10&b11&s&->); [lia|].
  set (h := [b0; b1; b2; b3; b4; b5; b6; b7; b8; b9; b10; b11]) in *.
  change (be16 (h ++ s) 0) with (@Ok unit Z (b0 * 256 + b1)). change (idx (h ++ s) 2) with (@Ok unit Z b2).
  change (be16 (h ++ s) 4) with (@Ok unit Z (b4 * 256 + b5)). cbn [obind].
  repeat (case_match; [by eexists|]).
  destruct (match_labels_returns (split dots name) (h ++ s) 12 ltac:(lia) Hb) as [[pos|] Hr]; rewrite Hr; cbn [obind];
    [|by eexists].
  destruct (bool_decide _) eqn:Hz; [|by eexists]. apply bool_decide_eq_true, zget_Some_lt in Hz. cbn [negb].
  destruct (zlen (h ++ s) <? pos + 1 + 4) eqn:Hlen; [by eexists|]. unfold be16, idx.
  destruct (zget_lt_Some (h ++ s) (pos + 1)) as [x ->]; [lia|]. cbn [obind].
  destruct (zget_lt_Some (h ++ s) (pos + 1 + 1)) as [y ->]; [lia|]. by eexists.
Qed.

End Matching.

(** ** The walk returns *)

Section Walk.
Context `{Target}.

Lemma skip_name_fuel_returns fuel buf pos :
  bytes_ok buf -> 0 <= pos -> Z.max 0 (zlen buf - pos) < Z.of_nat fuel ->
  match skip_name_fuel fuel buf pos with Ok p => pos < p | Err _ => True | _ => False end.
Proof.
  intros Hb. revert pos. induction fuel as [|fuel IH]; intros pos Hp Hf; simpl.
  - lia.
  - destruct (zget buf pos) as [len|] eqn:Hg; [|done]. pose proof (zget_Some_lt _ _ _ Hg). pose proof (zget_ok _ _ _ Hb Hg) as Hl. unfold is_u8 in Hl.
    destruct (Z.land len 192 =? 192); [lia|]. destruct (len =? 0) eqn:?; [lia|].
    specialize (IH (pos + (1 + len)) ltac:(lia) ltac:(lia)).
    destruct (skip_name_fuel fuel buf (pos + (1 + len))); try done. lia.
Qed.

Lemma skip_name_returns buf pos :
  bytes_ok buf -> 0 <= pos -> match skip_name buf pos with Ok p => pos < p | Err _ => True | _ => False end.
Proof. intros. apply skip_name_fuel_returns; [done|done|]. unfold zlen. lia. Qed.

Lemma be16_returns m i : bytes_ok m -> 0 <= i -> i + 2 <= zlen m -> exists v, be16 m i = Ok v /\ 0 <= v < 65536.
Proof.
  intros Hb Hi Hl. unfold be16, idx. destruct (zget_lt_Some m i) as [a Ha]; [lia|].
  destruct (zget_lt_Some m (i + 1)) as [b Hb']; [lia|]. rewrite Ha, Hb'. cbn [obind]. eexists. split; [done|].
  pose proof (zget_ok _ _ _ Hb Ha). pose proof (zget_ok _ _ _ Hb Hb'). unfold is_u8 in *. lia.
Qed.

Lemma skip_questions_returns n msg pos :
  bytes_ok msg -> 0 <= pos ->
  match skip_questions n msg pos with Ok p => 0 <= p | Err _ => True | _ => False end.
Proof.
  intros Hb. revert pos. induction n as [|n IH]; intros pos Hp; simpl; [done|].
  pose proof (skip_name_returns msg pos Hb Hp). destruct (skip_name msg pos) as [p| | |]; try done. cbn [obind].
  unfold checked_add. destruct (_ <=? _); [|done]. cbn [ok_or obind]. apply IH. lia.
Qed.

(** [pick] may look at the data of the record it is given. *)
Definition pick_safe {A : Type} (pick : Z -> Z -> Z -> outcome unit (option A)) (msg : bytes) : Prop :=
  forall rtype pos rdlen, 0 <= pos -> 0 <= rdlen -> pos + rdlen <= zlen msg ->
    exists r, pick rtype pos rdlen = Ok r.

Lemma walk_answers_returns {A} (pick : Z -> Z -> Z -> outcome unit (option A)) n msg pos :
  bytes_ok msg -> pick_safe pick msg -> 0 <= pos -> returns (walk_answers pick n msg pos).
Proof.
  intros Hb Hpick. revert pos. induction n as [|n IH]; intros pos Hp; simpl; [done|].
  pose proof (skip_name_returns msg pos Hb Hp). destruct (skip_name msg pos) as [p| | |]; try done. cbn [obind].
  destruct (zlen msg <? p + 10) eqn:Hl; [done|].
  destruct (be16_returns msg p) as (t & -> & _); [done|lia|lia|]. cbn [obind].
  destruct (be16_returns msg (p + 8)) as (l & -> & Hl'); [done|lia|lia|]. cbn [obind].
  destruct (zlen msg <? p + 10 + l) eqn:Hl2; [done|].
  destruct (Hpick t (p + 10) l) as [[a|] ->]; [lia|lia|lia|done|]. cbn [obind]. apply IH. lia.
Qed.

Lemma walk_message_returns {A} (pick : Z -> Z -> Z -> outcome unit (option A)) msg :
  bytes_ok msg -> pick_safe pick msg -> returns (walk_message pick msg).
Proof.
  intros Hb Hp. unfold walk_message. destruct (zlen msg <? 12) eqn:Hl; [done|].
  destruct (be16_returns msg 4) as (qd & -> & _); [done|lia|lia|].
  destruct (be16_returns msg 6) as (an & -> & _); [done|lia|lia|]. cbn [obind].
  pose proof (skip_questions_returns (Z.to_nat qd) msg 12 Hb ltac:(lia)).
  destruct (skip_questions _ _ _); try done. cbn [obind]. by apply walk_answers_returns.
Qed.

Lemma pick_a_safe msg : pick_safe (pick_a msg) msg.
Proof.
  intros rtype pos rdlen Hp Hr Hl. unfold pick_a. destruct (_ && _) eqn:E; [|by eexists].
  unfold idx. destruct (zget_lt_Some msg pos) as [a ->]; [lia|].
  destruct (zget_lt_Some msg (pos + 1)) as [b ->]; [lia|]. destruct (zget_lt_Some msg (pos + 2)) as [c ->]; [lia|].
  destruct (zget_lt_Some msg (pos + 3)) as [d ->]; [lia|]. by eexists.
Qed.

Lemma svcparams_returns fuel msg p e :
  bytes_ok msg -> 0 <= p -> e <= zlen msg -> e - p <= Z.of_nat fuel -> returns (svcparams fuel msg p e).
Proof.
  intros Hb. revert p. induction fuel as [|fuel IH]; intros p Hp He Hf; simpl.
  - by replace (p + 4 <=? e) with false by lia.
  - destruct (p + 4 <=? e) eqn:Hle; [|done].
    destruct (be16_returns msg p) as (k & -> & _); [done|lia|lia|].
    destruct (be16_returns msg (p + 2)) as (l & -> & Hl); [done|lia|lia|]. cbn [obind].
    destruct (e <? p + 4 + l) eqn:Hlt; [done|]. destruct (k =? SVCPARAM_ECH).
    + apply idx_range_returns; lia.
    + apply IH; lia.
Qed.

Lemma pick_ech_safe msg : bytes_ok msg -> pick_safe (pick_ech msg) msg.
Proof.
  intros Hb rtype pos rdlen Hp Hr Hl. unfold pick_ech. case_match; [|by eexists].
  assert (returns (parse_svcparams_ech msg pos rdlen)) as Hret.
  { unfold parse_svcparams_ech. destruct (_ <? pos + 2) eqn:?; [done|].
    pose proof (skip_name_returns msg (pos + 2) Hb ltac:(lia)). destruct (skip_name _ _); try done. cbn [obind].
    apply svcparams_returns; [done|lia|lia|unfold zlen in *; lia]. }
  destruct (parse_svcparams_ech msg pos rdlen); simpl in *; try done; by eexists.
Qed.

(** ** The walk finds the record *)

(** A name on the wire: labels, ended by a zero or by a compression pointer. *)
Inductive wire_name : bytes -> Prop :=
| wire_end : wire_name [0]
| wire_pointer a b : 192 <= a < 256 -> wire_name [a; b]
| wire_label l n : 0 < zlen l < 64 -> wire_name n -> wire_name (push_label l ++ n).

(** A property of the bytes in a range, by evaluation. *)
Lemma seqZ_check (f : Z -> bool) lo n v :
  forallb f (seqZ lo n) = true -> lo <= v < lo + n -> f v = true.
Proof.
  rewrite forallb_forall. intros Hf Hv. apply Hf. apply list_elem_of_In, elem_of_seqZ. lia.
Qed.

Lemma land_c0 v : 0 <= v < 64 -> Z.land v 192 = 0.
Proof.
  intros. apply Z.eqb_eq, (seqZ_check (fun v => Z.land v 192 =? 0) 0 64); [by vm_compute|lia].
Qed.

Lemma land_c0_high v : 192 <= v < 256 -> Z.land v 192 = 192.
Proof.
  intros. apply Z.eqb_eq, (seqZ_check (fun v => Z.land v 192 =? 192) 192 64); [by vm_compute|lia].
Qed.

Lemma skip_name_fuel_wire fuel p n q :
  wire_name n -> zlen n < Z.of_nat fuel -> skip_name_fuel fuel (p ++ n ++ q) (zlen p) = Ok (zlen p + zlen n).
Proof.
  intros Hn. revert fuel p. induction Hn as [|a b Ha|l n Hl Hn IH]; intros fuel p Hf.
  - destruct fuel as [|fuel]; [change (zlen [0]) with 1 in Hf; lia|]. cbn [skip_name_fuel].
    rewrite zget_app_r, Z.sub_diag by lia. done.
  - destruct fuel as [|fuel]; [change (zlen [a; b]) with 2 in Hf; lia|]. cbn [skip_name_fuel].
    rewrite zget_app_r, Z.sub_diag by lia. change (zget ([a; b] ++ q) 0) with (Some a). cbv iota beta.
    by rewrite land_c0_high by lia.
  - destruct fuel as [|fuel]; [pose proof (zlen_nonneg (push_label l ++ n)); lia|].
    rewrite push_label_small in * by lia. cbn [skip_name_fuel]. simpl app in *.
    rewrite zget_app_r, Z.sub_diag by lia. change (zget (?x :: _) 0) with (Some x). cbv iota beta.
    rewrite land_c0 by lia. replace (zlen l =? 0) with false by lia. cbn [Z.eqb].
    rewrite zlen_cons, zlen_app in Hf. specialize (IH fuel (p ++ zlen l :: l) ltac:(lia)).
    rewrite <- app_assoc in IH. simpl app in IH. rewrite <- app_assoc, zlen_cons, zlen_app.
    rewrite zlen_app, zlen_cons in IH. rewrite IH. f_equal. lia.
Qed.

Lemma skip_name_wire p n q : wire_name n -> skip_name (p ++ n ++ q) (zlen p) = Ok (zlen p + zlen n).
Proof.
  intros Hn. apply skip_name_fuel_wire; [done|]. unfold zlen. rewrite !length_app. lia.
Qed.

End Walk.

(** A resource record and a message made of questions and records. *)
Record RR : Type := mkRR { rr_name : bytes; rr_type : Z; rr_meta : bytes; rr_data : bytes }.
Definition rr_ok (r : RR) : Prop :=
  wire_name (rr_name r) /\ 0 <= rr_type r < 65536 /\ zlen (rr_meta r) = 6 /\ zlen (rr_data r) < 65536.
Definition enc_rr (r : RR) : bytes :=
  rr_name r ++ to_be 2 (rr_type r) ++ rr_meta r ++ to_be 2 (zlen (rr_data r)) ++ rr_data r.
Definition question_ok (q : bytes * bytes) : Prop := wire_name q.1 /\ zlen q.2 = 4.
Definition enc_question (q : bytes * bytes) : bytes := q.1 ++ q.2.

Record Message : Type := mkMessage {
  m_head : bytes; m_questions : list (bytes * bytes); m_answers : list RR; m_counts : bytes; m_rest : bytes }.
Definition message_ok (m : Message) : Prop :=
  zlen (m_head m) = 4 /\ zlen (m_counts m) = 4 /\ Forall question_ok (m_questions m) /\
  Forall rr_ok (m_answers m) /\ zlen (m_questions m) < 65536 /\ zlen (m_answers m) < 65536.
Definition enc_message (m : Message) : bytes :=
  m_head m ++ to_be 2 (zlen (m_questions m)) ++ to_be 2 (zlen (m_answers m)) ++ m_counts m
  ++ concat (map enc_question (m_questions m)) ++ concat (map enc_rr (m_answers m)) ++ m_rest m.

Section Answers.
Context `{Target}.

Lemma skip_questions_wire p qs q :
  Forall question_ok qs -> zlen (p ++ concat (map enc_question qs) ++ q) <= usize_max ->
  skip_questions (length qs) (p ++ concat (map enc_question qs) ++ q) (zlen p) =
  Ok (zlen (p ++ concat (map enc_question qs))).
Proof.
  intros Hq. revert p. induction Hq as [|[n c] qs [Hn Hc] Hqs IH]; intros p Hu; cbn [concat map length skip_questions].
  { by rewrite app_nil_r. }
  cbn [map concat] in Hu. change (enc_question (n, c)) with (n ++ c) in *. cbn [fst snd] in *.
  rewrite <- !app_assoc in *. rewrite skip_name_wire by done. cbn [obind].
  pose proof (zlen_nonneg (concat (map enc_question qs) ++ q)).
  rewrite !(zlen_app p), !(zlen_app n), !(zlen_app c) in Hu.
  rewrite checked_add_small by lia. cbn [ok_or obind].
  specialize (IH (p ++ n ++ c)). rewrite <- !app_assoc in IH.
  replace (zlen (p ++ n ++ c)) with (zlen p + zlen n + 4) in IH by (rewrite !zlen_app; lia).
  apply IH. rewrite !(zlen_app p), !(zlen_app n), !(zlen_app c). lia.
Qed.

(** The first result [spec] gives on a list of records. *)
Fixpoint first_some {A B : Type} (spec : A -> option B) (l : list A) : option B :=
  match l with
  | [] => None
  | a :: l => match spec a with Some b => Some b | None => first_some spec l end
  end.

Lemma walk_answers_wire {A} (pick : Z -> Z -> Z -> outcome unit (option A)) (spec : RR -> option A) p rs q msg :
  msg = p ++ concat (map enc_rr rs) ++ q -> Forall rr_ok rs ->
  (forall r p' q', In r rs -> msg = p' ++ rr_data r ++ q' -> pick (rr_type r) (zlen p') (zlen (rr_data r)) = Ok (spec r)) ->
  walk_answers pick (length rs) msg (zlen p) = ok_or (first_some spec rs) tt.
Proof.
  intros Hm Hrs. revert p Hm. induction Hrs as [|r rs (Hn & Ht & Hme & Hd) Hrs IH]; intros p Hm Hpick;
    cbn [length walk_answers first_some]; [done|].
  cbn [map concat] in Hm. unfold enc_rr at 1 in Hm. rewrite <- !app_assoc in Hm.
  set (q' := concat (map enc_rr rs) ++ q) in *.
  rewrite Hm at 1. rewrite skip_name_wire by done. cbn [obind]. rewrite <- zlen_app.
  pose proof (zlen_nonneg q'). pose proof (zlen_nonneg (rr_data r)). pose proof (zlen_nonneg p).
  assert (zlen msg = zlen (p ++ rr_name r) + 10 + zlen (rr_data r) + zlen q') as Hlen.
  { rewrite Hm, !zlen_app, !zlen_to_be. lia. }
  replace (zlen msg <? _) with false by lia.
  rewrite Hm at 1. rewrite (app_assoc p), be16_mid by done. cbn [obind].
  replace (be16 msg (zlen (p ++ rr_name r) + 8)) with (@Ok unit Z (zlen (rr_data r))).
  2:{ symmetry. rewrite Hm. rewrite (app_assoc p), (app_assoc (p ++ _)), (app_assoc ((p ++ _) ++ _)).
      replace (_ + 8) with (zlen (((p ++ rr_name r) ++ to_be 2 (rr_type r)) ++ rr_meta r))
        by (rewrite (zlen_app (_ ++ _)), (zlen_app (_ ++ _) (to_be 2 _)), zlen_to_be; lia).
      apply be16_mid. lia. }
  cbn [obind]. replace (zlen msg <? _) with false by lia.
  replace (zlen (p ++ rr_name r) + 10) with
    (zlen (p ++ rr_name r ++ to_be 2 (rr_type r) ++ rr_meta r ++ to_be 2 (zlen (rr_data r))))
    by (rewrite !zlen_app, !zlen_to_be; lia).
  rewrite (Hpick r _ q'); [|by left|by rewrite Hm, <- !app_assoc]. cbn [obind].
  destruct (spec r) as [a|]; [done|]. rewrite <- zlen_app.
  apply IH; [by rewrite Hm, <- !app_assoc|]. intros r' p' q'' Hin. apply Hpick. by right.
Qed.

Lemma walk_message_wire {A} (pick : Z -> Z -> Z -> outcome unit (option A)) (spec : RR -> option A) m :
  message_ok m -> zlen (enc_message m) <= usize_max ->
  (forall r p' q', In r (m_answers m) -> enc_message m = p' ++ rr_data r ++ q' ->
     pick (rr_type r) (zlen p') (zlen (rr_data r)) = Ok (spec r)) ->
  walk_message pick (enc_message m) = ok_or (first_some spec (m_answers m)) tt.
Proof.
  intros (Hh & Hc & Hqs & Hrs & Hnq & Hna) Hu Hpick. unfold walk_message.
  set (h := m_head m ++ to_be 2 (zlen (m_questions m)) ++ to_be 2 (zlen (m_answers m)) ++ m_counts m).
  assert (enc_message m = h ++ concat (map enc_question (m_questions m)) ++ concat (map enc_rr (m_answers m)) ++ m_rest m) as Hm.
  { unfold enc_message, h. by rewrite <- !app_assoc. }
  assert (zlen h = 12) as Hh12 by (unfold h; rewrite !zlen_app, !zlen_to_be; lia).
  assert (12 <= zlen (enc_message m)) as H12.
  { rewrite Hm, zlen_app, Hh12. pose proof (zlen_nonneg (concat (map enc_question (m_questions m)) ++ concat (map enc_rr (m_answers m)) ++ m_rest m)). lia. }
  replace (_ <? 12) with false by lia.
  assert (be16 (enc_message m) 4 = Ok (zlen (m_questions m))) as ->.
  { unfold enc_message. rewrite <- Hh. apply be16_mid. split; [apply zlen_nonneg|done]. }
  assert (be16 (enc_message m) 6 = Ok (zlen (m_answers m))) as ->.
  { unfold enc_message. rewrite app_assoc. replace 6 with (zlen (m_head m ++ to_be 2 (zlen (m_questions m))))
      by (rewrite zlen_app, zlen_to_be; lia). apply be16_mid. split; [apply zlen_nonneg|done]. }
  cbn [obind]. unfold zlen at 1 2. rewrite !Nat2Z.id. rewrite Hm at 1. rewrite <- Hh12.
  rewrite skip_questions_wire by (done || by rewrite <- Hm). cbn [obind].
  eapply walk_answers_wire; [rewrite Hm, app_assoc; done|done|done].
Qed.

Definition a_of (r : RR) : option IpAddr :=
  if (rr_type r =? 1) && (zlen (rr_data r) =? 4) then Some (V4 (rr_data r)) else None.

Lemma pick_a_wire r p q : pick_a (p ++ rr_data r ++ q) (rr_type r) (zlen p) (zlen (rr_data r)) = Ok (a_of r).
Proof.
  unfold pick_a, a_of. destruct (_ && _) eqn:E; [|done]. apply andb_true_iff in E as [_ E%Z.eqb_eq].
  destruct (rr_data r) as [|a [|b [|c [|d [|]]]]]; rewrite ?zlen_cons, ?zlen_nil in E; try (pose proof (zlen_nonneg l)); try lia.
  unfold idx. set (l := [a; b; c; d] ++ q).
  assert (forall i, 0 <= i -> zget (p ++ l) (zlen p + i) = zget l i) as Hi.
  { intros i Hi. rewrite zget_app_r by lia. f_equal. lia. }
  rewrite !Hi by lia. replace (zlen p) with (zlen p + 0) by lia. by rewrite Hi by lia.
Qed.

(** The ECH parameter of an HTTPS record. *)
Definition enc_param (kv : Z * bytes) : bytes := to_be 2 kv.1 ++ to_be 2 (zlen kv.2) ++ kv.2.
Definition param_ok (kv : Z * bytes) : Prop := 0 <= kv.1 < 65536 /\ zlen kv.2 < 65536.
Definition enc_https (prio target : bytes) (params : list (Z * bytes)) : bytes :=
  prio ++ target ++ concat (map enc_param params).
Definition ech_param (kv : Z * bytes) : option bytes := if kv.1 =? SVCPARAM_ECH then Some kv.2 else None.

Lemma svcparams_wire fuel p params q :
  Forall param_ok params -> (length params < fuel)%nat ->
  svcparams fuel (p ++ concat (map enc_param params) ++ q) (zlen p) (zlen (p ++ concat (map enc_param params))) =
  ok_or (first_some ech_param params) tt.
Proof.
  intros Hps. revert fuel p. induction Hps as [|[k v] params [Hk Hv] Hps IH]; intros fuel p Hf;
    cbn [map concat first_some].
  { rewrite app_nil_r. destruct fuel; simpl; by replace (_ <=? _) with false by lia. }
  destruct fuel as [|fuel]; [simpl in Hf; lia|]. cbn [svcparams].
  change (enc_param (k, v)) with (to_be 2 k ++ to_be 2 (zlen v) ++ v) in *.
  cbn [fst snd] in *. set (r := concat (map enc_param params)). rewrite <- !app_assoc.
  pose proof (zlen_nonneg v). pose proof (zlen_nonneg r).
  replace (_ <=? _) with true by (rewrite !zlen_app, !zlen_to_be; lia).
  rewrite be16_mid by done. cbn [obind].
  rewrite (app_assoc p). replace (zlen p + 2) with (zlen (p ++ to_be 2 k)) by (rewrite zlen_app, zlen_to_be; lia).
  rewrite be16_mid by lia. cbn [obind].
  replace (_ <? _) with false by (rewrite !zlen_app, !zlen_to_be; lia).
  unfold ech_param at 1. cbn [fst snd]. destruct (k =? SVCPARAM_ECH).
  - unfold idx_range. rewrite (app_assoc (p ++ _)).
    rewrite (get_range_mid ((p ++ to_be 2 k) ++ to_be 2 (zlen v)) v (r ++ q)); [done| |]; rewrite !zlen_app, !zlen_to_be; lia.
  - specialize (IH fuel (p ++ to_be 2 k ++ to_be 2 (zlen v) ++ v)). fold r in IH. rewrite <- !app_assoc in IH.
    rewrite <- !app_assoc. replace (zlen p + 4 + zlen v) with (zlen (p ++ to_be 2 k ++ to_be 2 (zlen v) ++ v))
      by (rewrite !zlen_app, !zlen_to_be; lia). apply IH. simpl in Hf. lia.
Qed.

(** What a record says of ECH: nothing unless it is an HTTPS record. *)
Definition says_ech (r : RR) (o : option bytes) : Prop :=
  if rr_type r =? RR_HTTPS then
    exists prio target params, rr_data r = enc_https prio target params /\ zlen prio = 2 /\
      wire_name target /\ Forall param_ok params /\ o = first_some ech_param params
  else o = None.

Lemma pick_ech_wire r p q o :
  says_ech r o -> pick_ech (p ++ rr_data r ++ q) (rr_type r) (zlen p) (zlen (rr_data r)) = Ok o.
Proof.
  unfold says_ech, pick_ech. destruct (_ =? _); [|by intros ->].
  intros (prio & target & params & -> & Hp & Ht & Hps & ->). unfold parse_svcparams_ech, enc_https.
  set (ps := concat (map enc_param params)). rewrite !(zlen_app prio), !(zlen_app target).
  pose proof (zlen_nonneg target). pose proof (zlen_nonneg ps).
  replace (_ <? zlen p + 2) with false by lia. rewrite <- !app_assoc, (app_assoc p).
  replace (zlen p + 2) with (zlen (p ++ prio)) by (rewrite zlen_app; lia).
  rewrite skip_name_wire by done. cbn [obind]. rewrite (app_assoc (p ++ prio)).
  replace (zlen (p ++ prio) + zlen target) with (zlen ((p ++ prio) ++ target)) by (by rewrite (zlen_app (_ ++ _))).
  replace (zlen p + (zlen prio + (zlen target + zlen ps))) with (zlen (((p ++ prio) ++ target) ++ ps))
    by (rewrite !zlen_app; lia).
  unfold ps. rewrite svcparams_wire; [by destruct (first_some _ _)|done|].
  assert (4 * length params <= length (concat (map enc_param params)))%nat.
  { clear. induction params as [|[k v] l IH]; simpl; [lia|]. rewrite length_app. simpl. lia. }
  rewrite !length_app. assert (zlen prio = 2) by done. unfold zlen in Hp. lia.
Qed.

End Answers.

(** ** Reading a reply over TCP *)

Lemma read_until_chunks n buf chunks rest :
  n <= zlen (buf ++ concat chunks) ->
  exists got left', read_until n buf (map Received chunks ++ rest) = Some (Ok (got, left')) /\
    n <= zlen got /\ exists k, got = buf ++ concat (take k chunks) /\ left' = map Received (drop k chunks) ++ rest.
Proof.
  revert buf. induction chunks as [|c chunks IH]; intros buf Hn; simpl.
  - rewrite app_nil_r in Hn. exists buf, rest. split_and!; [|done|].
    + destruct rest; simpl; by replace (zlen buf <? n) with false by lia.
    + exists 0%nat. simpl. by rewrite app_nil_r.
  - destruct (zlen buf <? n) eqn:E.
    + destruct (IH (buf ++ c)) as (got & l & -> & ? & k & -> & ->); [by rewrite <- app_assoc|].
      eexists _, _. split_and!; [done|done|]. exists (S k). simpl. by rewrite <- app_assoc.
    + eexists _, _. split_and!; [done|lia|]. exists 0%nat. simpl. by rewrite app_nil_r.
Qed.

(** The verdict on a complete reply. *)
Definition dns_verdict `{Target} (body : bytes) (id : Z) (name : bytes) : result IpAddr :=
  match dns_response_matches body id name QTYPE_A with
  | Ok true => map_err (fun _ => Other (str "no A record for " ++ name)) (parse_dns_a body)
  | Ok false | Err _ => Err (Other (str "dns tcp mismatch for " ++ name))
  | Panic => Panic
  | OutOfFuel => OutOfFuel
  end.

(** ** Properties *)

(** C32: a datagram is taken as the reply to a query exactly when it carries the
    query's identifier, the response bit, one question, and in it the labels of
    the name, up to ASCII case, and the query type. *)
Theorem reply_matching_exact `{Target} (msg : bytes) (id : Z) (name : bytes) (qtype : Z) :
  bytes_ok msg -> zlen msg <= usize_max -> 0 <= id < 65536 -> 0 <= qtype < 65536 ->
  exists b, response_matches msg id name qtype = Ok b /\
    (b = true <-> answers msg id (split dots name) qtype).
Proof.
  intros Hb Hu Hid Hq. destruct (response_matches_returns msg id name qtype Hb) as [b Hr].
  exists b. split; [done|]. split.
  - intros ->. by apply response_matches_sound.
  - intros Ha. rewrite (response_matches_complete _ _ _ qtype), Z.eqb_refl in Hr by done. congruence.
Qed.

Definition sample_reply : bytes :=
  [18; 52; 0x81; 0x80; 0; 1; 0; 1; 0; 0; 0; 0] ++ [1; 65; 2; 99; 111; 0] ++ [0; 1; 0; 1]
  ++ [0xc0; 12] ++ [0; 1; 0; 1; 0; 0; 0; 60; 0; 4] ++ [10; 0; 0; 7].

Lemma sample_reply_ok : bytes_ok sample_reply.
Proof. repeat constructor; vm_compute; congruence. Qed.

Lemma reply_matching_exact_witness :
  exists b, response_matches (H := target64) sample_reply 4660 (str "a.co") 1 = Ok b /\
    (b = true <-> answers sample_reply 4660 (split dots (str "a.co")) 1).
Proof.
  apply (reply_matching_exact (H := target64) sample_reply 4660 (str "a.co") 1).
  - apply sample_reply_ok.
  - vm_compute; congruence.
  - lia.
  - lia.
Defined.

(** Whatever arrives, testing whether it is the reply and looking for an
    address or an ECHConfigList in it returns: no index is out of range and the
    walks over names, records and parameters end. *)
Theorem dns_parsers_safe `{Target} (msg : bytes) (id : Z) (name : bytes) (qtype : Z) :
  bytes_ok msg ->
  returns (response_matches msg id name qtype) /\ returns (parse_dns_a msg) /\ returns (parse_https_ech msg).
Proof.
  intros Hb. split_and!.
  - by destruct (response_matches_returns msg id name qtype Hb) as [b ->].
  - apply walk_message_returns; [done|]. apply pick_a_safe.
  - apply walk_message_returns; [done|]. by apply pick_ech_safe.
Qed.

Lemma dns_parsers_safe_witness :
  returns (response_matches (H := target64) sample_reply 1 [] 1) /\
  returns (parse_dns_a (H := target64) sample_reply) /\ returns (parse_https_ech (H := target64) sample_reply).
Proof. apply (dns_parsers_safe (H := target64)), sample_reply_ok. Defined.

(** C24: of a well-formed message, with compressed names or not, the resolver
    returns the address of the first A record, and the bootstrap the ECH
    parameter of the first HTTPS record that has one; without one they return
    nothing. *)
Theorem first_record_found `{Target} (m : Message) (spec : RR -> option bytes) :
  message_ok m -> zlen (enc_message m) <= usize_max ->
  (forall r, In r (m_answers m) -> says_ech r (spec r)) ->
  parse_dns_a (enc_message m) = ok_or (first_some a_of (m_answers m)) tt /\
  parse_https_ech (enc_message m) = ok_or (first_some spec (m_answers m)) tt.
Proof.
  intros Hm Hu Hs. split; apply walk_message_wire; try done; intros r p q Hr ->.
  - apply pick_a_wire.
  - by apply pick_ech_wire, Hs.
Qed.

Definition sample_message : Message :=
  mkMessage [18; 52; 0x81; 0x80] [([1; 97; 0], [0; 65; 0; 1])]
    [mkRR [0xc0; 12] 5 [0; 1; 0; 0; 0; 9] [1; 98; 0];
     mkRR [1; 98; 0] 65 [0; 1; 0; 0; 0; 9] (enc_https [0; 1] [0] [(1, [2; 104; 50]); (5, [7; 8; 9])]);
     mkRR [1; 98; 0] 1 [0; 1; 0; 0; 0; 9] [192; 0; 2; 1]] [0; 0; 0; 0] [].

Lemma first_record_found_witness :
  parse_dns_a (H := target64) (enc_message sample_message) = Ok (V4 [192; 0; 2; 1]) /\
  parse_https_ech (H := target64) (enc_message sample_message) = Ok [7; 8; 9].
Proof.
  apply (first_record_found (H := target64) sample_message
    (fun r => if rr_type r =? 65 then Some [7; 8; 9] else None)).
  - assert (wire_name [1; 97; 0] /\ wire_name [1; 98; 0]) as [H1 H2].
    { split; [apply (wire_label [97] [0])|apply (wire_label [98] [0])]; try apply wire_end;
        vm_compute; split; congruence. }
    split_and!; try (vm_compute; congruence); repeat constructor; simpl; try lia; try exact H1; try exact H2.
  - vm_compute; congruence.
  - intros r [<-|[<-|[<-|[]]]]; [reflexivity| |reflexivity].
    exists [0; 1], [0], [(1, [2; 104; 50]); (5, [7; 8; 9])].
    split_and!; try reflexivity; [apply wire_end|]. repeat constructor; vm_compute; congruence.
Defined.

(** A reply of up to 4096 bytes that comes over TCP with its length before
    it is judged the same however the stream is cut into chunks, and whatever
    follows it. *)
Theorem dns_tcp_chunking `{Target} (body extra : bytes) (chunks : list bytes) (id : Z) (name : bytes) :
  zlen body <= 4096 -> concat chunks = to_be 2 (zlen body) ++ body ++ extra ->
  dns_tcp_attempt (map Received chunks) id name = Some (dns_verdict body id name).
Proof.
  intros Hl Hc. pose proof (zlen_nonneg body). pose proof (zlen_nonneg extra). unfold dns_tcp_attempt.
  destruct (read_until_chunks 2 [] chunks []) as (got & rest & Hr & Hg & k & Hgot & ->).
  { rewrite app_nil_l, Hc, !zlen_app, zlen_to_be. lia. }
  rewrite app_nil_r in Hr. rewrite Hr. cbn [opt_bind]. rewrite app_nil_l in Hgot.
  assert (exists more, got ++ more = to_be 2 (zlen body) ++ body ++ extra) as [more Hmore].
  { exists (concat (drop k chunks)). by rewrite Hgot, <- concat_app, take_drop. }
  assert (be16 got 0 = Ok (zlen body)) as ->.
  { transitivity (be16 (got ++ more) 0).
    - unfold be16, idx. by rewrite !zget_app_l by lia.
    - rewrite Hmore. apply (be16_mid [] (zlen body)). lia. }
  replace (4096 <? zlen body) with false by lia.
  destruct (read_until_chunks (2 + zlen body) got (drop k chunks) []) as (got2 & rest2 & Hr2 & Hg2 & k2 & Hgot2 & ->).
  { rewrite Hgot, <- concat_app, take_drop, Hc, !zlen_app, zlen_to_be. lia. }
  rewrite Hr2. cbn [opt_bind].
  assert (exists more2, got2 ++ more2 = to_be 2 (zlen body) ++ body ++ extra) as [more2 Hmore2].
  { exists (concat (drop k2 (drop k chunks))).
    by rewrite Hgot2, Hgot, <- app_assoc, <- concat_app, take_drop, <- concat_app, take_drop. }
  assert (get_range got2 2 (2 + zlen body) = Some body) as E.
  { apply get_range_Some. split_and!; [lia|lia|lia|].
    assert (ztake (2 + zlen body) got2 = to_be 2 (zlen body) ++ body) as ->; [|by rewrite zdrop_app_length].
    transitivity (ztake (2 + zlen body) (got2 ++ more2)).
    - unfold ztake, zlen in *. rewrite take_app_le; [done|lia].
    - rewrite Hmore2, app_assoc. apply ztake_app_length. rewrite zlen_app, zlen_to_be. lia. }
  unfold idx_range. rewrite E. unfold dns_verdict.
  destruct (dns_response_matches body id name QTYPE_A) as [[]| | |]; done.
Qed.

Lemma dns_tcp_chunking_witness :
  dns_tcp_attempt (H := target64) (map Received [[0]; 38 :: take 7 sample_reply; drop 7 sample_reply ++ [9]]) 4660 (str "a.co") =
  Some (dns_verdict (H := target64) sample_reply 4660 (str "a.co")).
Proof.
  apply (dns_tcp_chunking (H := target64) sample_reply [9]); [vm_compute; congruence|reflexivity].
Defined.

Lemma split_snoc p s c : p c = true -> split p (s ++ [c]) = split p s ++ [[]].
Proof. intros. by rewrite split_app. Qed.

Lemma same_labels_refl labels :
  Forall (fun l => 0 < zlen l < 256) labels -> nonempty labels = labels /\ same_labels labels labels.
Proof.
  intros Hl. assert (nonempty labels = labels) as Hn.
  { induction Hl as [|[|b l] labels Hb Hl IH]; [done|by destruct Hb|]. simpl. by rewrite IH. }
  split; [done|]. split.
  - rewrite Hn. clear. induction labels; constructor; [apply eq_ignore_ascii_case_refl|done].
  - eapply Forall_impl; [|exact Hl]. simpl. lia.
Qed.

(** For a name without empty labels, a reply that repeats the question the
    in-tunnel resolver sent is recognised; for the same name written with a
    final dot it is not, since the query then holds a stray zero byte and asks
    for type 0: such a name never resolves over the tunnel. *)
Theorem trailing_dot_query_unmatched `{Target} (name : bytes) (id f2 f3 : Z) (counts rest : bytes) :
  let reply q := to_be 2 id ++ [f2; f3; 0; 1] ++ counts ++ zdrop 12 q ++ rest in
  0 <= id < 65536 -> Z.land f2 0x80 <> 0 -> zlen counts = 6 ->
  Forall (fun l => 0 < zlen l < 256) (split dots name) ->
  zlen (reply (build_dns_query id name QTYPE_A).1) < usize_max ->
  dns_response_matches (reply (build_dns_query id name QTYPE_A).1) id name QTYPE_A = Ok true /\
  dns_response_matches (reply (build_dns_query id (name ++ [46]) QTYPE_A).1) id (name ++ [46]) QTYPE_A = Ok false.
Proof.
  intros reply Hid Hf Hc Hl. destruct (same_labels_refl _ Hl) as [Hn Hs]. unfold build_dns_query, reply. cbn [fst].
  rewrite split_snoc by done. rewrite map_app, concat_app. set (ls := concat (map push_label (split dots name))).
  change (concat (map push_label [[]])) with [0].
  rewrite !(zdrop_app_length (query_head id)) by done. intros Hu. split.
  - apply (response_matches_complete _ id name QTYPE_A); [done|done|lia|].
    exists f2, f3, counts, (split dots name), [0; 1], rest. split_and!; try done. by rewrite <- !app_assoc.
  - apply (response_matches_complete _ id (name ++ [46]) 0); [done|done| |].
    + rewrite !zlen_app in *. change (zlen [0]) with 1 in *. lia.
    + exists f2, f3, counts, (split dots name), [1; 0], (1 :: rest).
      split_and!; try done; [by rewrite <- !app_assoc|]. rewrite split_snoc by done.
      destruct Hs as [Hs1 Hs2]. split; [|done]. unfold nonempty in *. by rewrite List.filter_app, app_nil_r.
Qed.

Lemma trailing_dot_query_unmatched_witness :
  let reply q := to_be 2 7 ++ [0x81; 0x80; 0; 1] ++ [0; 0; 0; 0; 0; 0] ++ zdrop 12 q ++ [] in
  dns_response_matches (H := target64) (reply (build_dns_query 7 (str "a.co") QTYPE_A).1) 7 (str "a.co") QTYPE_A = Ok true /\
  dns_response_matches (H := target64) (reply (build_dns_query 7 (str "a.co" ++ [46]) QTYPE_A).1) 7 (str "a.co" ++ [46]) QTYPE_A
    = Ok false.
Proof.
  apply (trailing_dot_query_unmatched (H := target64) (str "a.co") 7 0x81 0x80 [0; 0; 0; 0; 0; 0] []).
  - lia.
  - vm_compute; congruence.
  - reflexivity.
  - repeat constructor; vm_compute; congruence.
  - vm_compute; congruence.
Defined.
