(* ===== verification/Sniff.v ===== *)
(** * Reading a host name off the first bytes of a connection

    Models sniff.rs: the server name of a TLS ClientHello and the Host header
    of an HTTP request.  Every access of the source is a [get], so a function
    returns [None] where it would read past the end; the loops move on by at
    least three bytes a turn, and the length of the buffer bounds them. *)

From Stdlib Require Import ZArith Lia ZifyBool String List.
From stdpp Require Import base list numbers option decidable.
From S2P Require Import Prelude RustStr NetAddr.
Open Scope Z_scope.

Definition TLS_HANDSHAKE : Z := 0x16.
Definition TLS_CLIENT_HELLO : Z := 0x01.
Definition EXT_SERVER_NAME : Z := 0.
Definition SNI_HOST_NAME : Z := 0.
Definition MAX_HOST_LEN : Z := 253.
Definition PEEK_BUDGET : Z := 4096.

Definition get_be16 (buf : bytes) (at_ : Z) : option Z :=
  let? hi := zget buf at_ in
  let? lo := zget buf (at_ + 1) in
  Some (Z.lor (Z.shiftl hi 8) lo).

Definition get_be24 (buf : bytes) (at_ : Z) : option Z :=
  let? a := zget buf at_ in
  let? b := zget buf (at_ + 1) in
  let? c := zget buf (at_ + 2) in
  Some (Z.lor (Z.lor (Z.shiftl a 16) (Z.shiftl b 8)) c).

Definition host_char (b : Z) : bool := is_ascii_alphanumeric b || (b =? 45) || (b =? 46) || (b =? 95).

Definition plausible_host `{UnicodeTables} (raw : bytes) : option bytes :=
  if (zlen raw =? 0) || (MAX_HOST_LEN <? zlen raw) then None
  else let? s := from_utf8 raw in
  let name := trim_end_matches (Z.eqb 46) (trim s) in
  if (zlen name =? 0) || (MAX_HOST_LEN <? zlen name) then None
  else if negb (forallb host_char name) || negb (contains_char name 46) then None
  else match parse_ip name with
       | Some _ => None
       | None => Some (to_lowercase name)
       end.

(** The [while] loop of [first_server_name]. *)
Fixpoint server_names `{Target} `{UnicodeTables} (fuel : nat) (data : bytes) (at_ list_end : Z) : option bytes :=
  if at_ + 3 <=? list_end then
    match fuel with
    | O => None
    | S fuel =>
        let? kind := zget data at_ in
        let? len := get_be16 data (at_ + 1) in
        let start := at_ + 3 in
        let? e := checked_add start len in
        if list_end <? e then None
        else if kind =? SNI_HOST_NAME then let? raw := get_range data start e in plausible_host raw
        else server_names fuel data e list_end
    end
  else None.

Definition first_server_name `{Target} `{UnicodeTables} (data : bytes) : option bytes :=
  let? list_len := get_be16 data 0 in
  let? e := checked_add 2 list_len in
  server_names (length data) data 2 (Z.min e (zlen data)).

(** The [while] loop over the extensions. *)
Fixpoint find_server_name `{Target} `{UnicodeTables} (fuel : nat) (hello : bytes) (at_ extensions_end : Z) : option bytes :=
  if at_ + 4 <=? extensions_end then
    match fuel with
    | O => None
    | S fuel =>
        let? kind := get_be16 hello at_ in
        let? len := get_be16 hello (at_ + 2) in
        let data_start := at_ + 4 in
        let? data_end := checked_add data_start len in
        if extensions_end <? data_end then None
        else if as_u16 kind =? EXT_SERVER_NAME then
          let? data := get_range hello data_start data_end in first_server_name data
        else find_server_name fuel hello data_end extensions_end
    end
  else None.

Definition tls_sni `{Target} `{UnicodeTables} (buf : bytes) : option bytes :=
  let? first := zget buf 0 in
  if negb (first =? TLS_HANDSHAKE) then None
  else let? record_len := get_be16 buf 3 in
  let? e := checked_add 5 record_len in
  let? body := get_range buf 5 (Z.min e (zlen buf)) in
  let? first := zget body 0 in
  if negb (first =? TLS_CLIENT_HELLO) then None
  else let? hello_len := get_be24 body 1 in
  let? e := checked_add 4 hello_len in
  let? hello := get_range body 4 (Z.min e (zlen body)) in
  let at_ := 2 + 32 in
  let? session_len := zget hello at_ in
  let? at_ := checked_add at_ (1 + session_len) in
  let? cipher_len := get_be16 hello at_ in
  let? at_ := checked_add at_ (2 + cipher_len) in
  let? compression_len := zget hello at_ in
  let? at_ := checked_add at_ (1 + compression_len) in
  let? extensions_len := get_be16 hello at_ in
  let? at_ := checked_add at_ 2 in
  let? e := checked_add at_ extensions_len in
  find_server_name (length hello) hello at_ (Z.min e (zlen hello)).

Definition METHODS : list bytes :=
  [str "GET "; str "POST "; str "PUT "; str "HEAD "; str "DELETE "; str "OPTIONS "; str "PATCH ";
   str "TRACE "; str "CONNECT "].
Definition looks_like_http (line : bytes) : bool :=
  existsb (starts_with line) METHODS && contains line (str "HTTP/").

(** The [for] loop over the header lines. *)
Fixpoint host_header `{UnicodeTables} (lines : list bytes) : option bytes :=
  match lines with
  | [] => None
  | line :: lines =>
      match line with
      | [] => None
      | _ =>
          match split_once 58 line with
          | None => host_header lines
          | Some (name, value) =>
              if negb (eq_ignore_ascii_case name (str "host")) then host_header lines
              else
                let value := trim value in
                let without_port :=
                  match rsplit_once 58 value with
                  | Some (host, port) => if forallb is_ascii_digit port then host else value
                  | None => value
                  end in
                plausible_host without_port
          end
      end
  end.

Definition http_host `{UnicodeTables} (buf : bytes) : option bytes :=
  let head_end := Z.min (zlen buf) PEEK_BUDGET in
  let? head := get_range buf 0 head_end in
  let text := from_utf8_lossy head in
  match split_str [13; 10] text with
  | [] => None
  | request_line :: lines =>
      if negb (looks_like_http request_line) then None else host_header lines
  end.

Definition hostname `{Target} `{UnicodeTables} (buf : bytes) : option bytes :=
  match tls_sni buf with
  | Some name => Some name
  | None => http_host buf
  end.

(** ** Names that come out *)

(** What the routing rules may rely on. *)
Definition good_host (h : bytes) : Prop :=
  0 < zlen h <= MAX_HOST_LEN /\ contains_char h 46 = true /\
  Forall (fun b => host_char b = true /\ is_ascii_upper b = false) h.

Section Sound.
Context `{Target} `{UnicodeTables}.

Lemma host_char_ascii b : host_char b = true -> b < 128.
Proof. unfold host_char, is_ascii_alphanumeric, is_ascii_digit, is_ascii_upper, is_ascii_lower. lia. Qed.

Lemma ascii_lower_host b : host_char b = true -> host_char (ascii_lower b) = true /\ is_ascii_upper (ascii_lower b) = false.
Proof.
  unfold host_char, ascii_lower, is_ascii_alphanumeric, is_ascii_digit, is_ascii_upper, is_ascii_lower.
  destruct ((65 <=? b) && (b <=? 90)) eqn:?; lia.
Qed.

Lemma plausible_host_good raw h : plausible_host raw = Some h -> good_host h.
Proof.
  unfold plausible_host. destruct (_ || _); [done|]. destruct (from_utf8 raw) as [s|]; [|done]. cbn [opt_bind].
  set (name := trim_end_matches _ _). destruct ((zlen name =? 0) || _) eqn:Hl; [done|].
  destruct (negb (forallb host_char name) || negb (contains_char name 46)) eqn:Ha; [done|].
  apply orb_false_iff in Ha as [Hall%negb_false_iff Hdot%negb_false_iff]. destruct (parse_ip name); [done|]. intros [= <-].
  assert (Forall (fun b => host_char b = true) name) as Hf.
  { apply List.Forall_forall. by apply forallb_forall. }
  rewrite to_lowercase_ascii by (eapply Forall_impl; [|exact Hf]; intros; by apply host_char_ascii).
  unfold good_host, to_ascii_lowercase. rewrite zlen_map. split_and!.
  - pose proof (zlen_nonneg name). lia.
  - lia.
  - unfold contains_char in *. apply existsb_exists in Hdot as (x & Hx & ->%Z.eqb_eq%eq_sym).
    apply existsb_exists. exists 46. split; [|done]. by apply (in_map ascii_lower) in Hx.
  - apply Forall_map. eapply Forall_impl; [|exact Hf]. intros b Hb. by apply ascii_lower_host.
Qed.

Lemma server_names_good fuel data a e h : server_names fuel data a e = Some h -> good_host h.
Proof.
  revert a. induction fuel as [|fuel IH]; intros a; simpl; destruct (_ <=? _); try done.
  intros E. inv_bind. destruct (_ <? _); [done|]. destruct (_ =? _); [|by eapply IH].
  inv_bind. by eapply plausible_host_good.
Qed.

Lemma find_server_name_good fuel hello a e h : find_server_name fuel hello a e = Some h -> good_host h.
Proof.
  revert a. induction fuel as [|fuel IH]; intros a; simpl; destruct (_ <=? _); try done.
  intros E. inv_bind. destruct (_ <? _); [done|]. destruct (_ =? _); [|by eapply IH].
  inv_bind. unfold first_server_name in *. inv_bind. by eapply server_names_good.
Qed.

Lemma host_header_good lines h : host_header lines = Some h -> good_host h.
Proof.
  induction lines as [|line lines IH]; simpl; [done|]. destruct line; [done|].
  destruct (split_once _ _) as [[name value]|]; [|done]. destruct (negb _); [done|]. apply plausible_host_good.
Qed.

End Sound.

(** ** A ClientHello is read *)

Lemma get_be16_mid p v q : 0 <= v < 65536 -> get_be16 (p ++ to_be 2 v ++ q) (zlen p) = Some v.
Proof.
  intros Hv. unfold get_be16. rewrite zget_app_r, Z.sub_diag by lia.
  change (to_be 2 v ++ q) with ((v / 256) mod 256 :: (v / 1) mod 256 :: q).
  change (zget (?a :: _) 0) with (Some a). cbn [opt_bind].
  rewrite zget_app_r by lia. rewrite zget_cons_pos by lia. replace (zlen p + 1 - zlen p - 1) with 0 by lia.
  change (zget (?a :: _) 0) with (Some a). cbn [opt_bind]. f_equal.
  rewrite Z.div_1_r, lor_shiftl by (try apply Z.mod_pos_bound; lia). change (2 ^ 8) with 256.
  pose proof (Z.div_mod v 256). rewrite (Z.mod_small (v / 256)); [lia|].
  split; [apply Z.div_pos; lia|]. apply Z.div_lt_upper_bound; lia.
Qed.

Lemma get_be24_mid p v q : 0 <= v < 65536 -> get_be24 (p ++ to_be 3 v ++ q) (zlen p) = Some v.
Proof.
  intros Hv. unfold get_be24. change (to_be 3 v ++ q) with ((v / 65536) mod 256 :: (to_be 2 v ++ q)).
  rewrite (Z.div_small v 65536) by lia. change (0 mod 256) with 0.
  rewrite zget_app_r, Z.sub_diag by lia. change (zget (?a :: _) 0) with (Some a). cbn [opt_bind].
  pose proof (get_be16_mid (p ++ [0]) v q Hv) as Hg. unfold get_be16 in Hg.
  replace (zlen (p ++ [0])) with (zlen p + 1) in Hg by (rewrite zlen_app; done). rewrite <- app_assoc in Hg.
  simpl app in Hg. destruct (zget _ (zlen p + 1)); [|done]. cbn [opt_bind] in *.
  replace (zlen p + 2) with (zlen p + 1 + 1) by lia. destruct (zget _ (zlen p + 1 + 1)); [|done]. exact Hg.
Qed.

(** Entries of the server-name list, extensions, and the message around them. *)
Definition enc_entry (e : Z * bytes) : bytes := e.1 :: to_be 2 (zlen e.2) ++ e.2.
Definition enc_ext (e : Z * bytes) : bytes := to_be 2 e.1 ++ to_be 2 (zlen e.2) ++ e.2.
Definition enc_sni (others : list (Z * bytes)) (host rest : bytes) : bytes :=
  let l := concat (map enc_entry others) ++ enc_entry (SNI_HOST_NAME, host) ++ rest in
  to_be 2 (zlen l) ++ l.
Record Hello : Type := mkHello {
  h_fixed : bytes; h_session : bytes; h_ciphers : bytes; h_compression : bytes;
  h_exts : list (Z * bytes); h_sni : bytes; h_more : bytes }.
Definition enc_exts (h : Hello) : bytes :=
  concat (map enc_ext (h_exts h)) ++ enc_ext (EXT_SERVER_NAME, h_sni h) ++ h_more h.
Definition enc_hello (h : Hello) : bytes :=
  h_fixed h ++ [zlen (h_session h)] ++ h_session h ++ to_be 2 (zlen (h_ciphers h)) ++ h_ciphers h
  ++ [zlen (h_compression h)] ++ h_compression h ++ to_be 2 (zlen (enc_exts h)) ++ enc_exts h.
Definition enc_record (version : bytes) (h : Hello) : bytes :=
  let body := [TLS_CLIENT_HELLO] ++ to_be 3 (zlen (enc_hello h)) ++ enc_hello h in
  [TLS_HANDSHAKE] ++ version ++ to_be 2 (zlen body) ++ body.

Section Tls.
Context `{Target} `{UnicodeTables}.

Lemma checked_add_ok a b : a + b < 2 ^ 32 -> checked_add a b = Some (a + b).
Proof.
  intros. unfold checked_add, usize_max. destruct usize_bits_cases as [-> | ->];
    by replace (_ <=? _) with true by lia.
Qed.

Lemma server_names_host fuel p others host rest :
  Forall (fun e => e.1 <> SNI_HOST_NAME) others -> (length others < fuel)%nat ->
  zlen (p ++ concat (map enc_entry others) ++ enc_entry (SNI_HOST_NAME, host) ++ rest) < 65536 ->
  let data := p ++ concat (map enc_entry others) ++ enc_entry (SNI_HOST_NAME, host) ++ rest in
  server_names fuel data (zlen p) (zlen data) = plausible_host host.
Proof.
  intros Ho. revert fuel p. induction Ho as [|[k d] others Hk Ho IH]; intros fuel p Hf Hl data.
  - destruct fuel as [|fuel]; [simpl in Hf; lia|]. cbn [server_names]. subst data. cbn [map concat] in *.
    change (enc_entry (SNI_HOST_NAME, host)) with ([SNI_HOST_NAME] ++ to_be 2 (zlen host) ++ host) in *.
    rewrite app_nil_l in *. rewrite <- !app_assoc in Hl |- *.
    pose proof (zlen_nonneg p). pose proof (zlen_nonneg host). pose proof (zlen_nonneg rest).
    set (data := p ++ _) in *. assert (zlen data = zlen p + 3 + zlen host + zlen rest) as Hd
      by (subst data; autorewrite with slices; lia).
    rewrite Hd in *. replace (_ <=? _) with true by lia. subst data.
    rewrite zget_app_r, Z.sub_diag by lia. change (zget ([?a] ++ _) 0) with (Some a). cbn [opt_bind].
    rewrite (app_assoc p). replace (zlen p + 1) with (zlen (p ++ [SNI_HOST_NAME])) by (rewrite zlen_app; done).
    rewrite get_be16_mid by lia. cbn [opt_bind]. rewrite checked_add_ok by lia. cbn [opt_bind].
    replace (_ <? _) with false by lia. cbn [Z.eqb SNI_HOST_NAME].
    rewrite (app_assoc (p ++ _)), get_range_mid; [done| |]; autorewrite with slices; lia.
  - destruct fuel as [|fuel]; [simpl in Hf; lia|]. cbn [server_names]. subst data. cbn [map concat] in *.
    change (enc_entry (k, d)) with ([k] ++ to_be 2 (zlen d) ++ d) in *. rewrite <- !app_assoc in Hl |- *.
    specialize (IH fuel (p ++ [k] ++ to_be 2 (zlen d) ++ d)). cbv zeta in IH. rewrite <- !app_assoc in IH.
    specialize (IH ltac:(simpl in Hf; lia) Hl).
    set (r := concat (map enc_entry others) ++ enc_entry (SNI_HOST_NAME, host) ++ rest) in *.
    cbn [fst] in Hk. pose proof (zlen_nonneg p). pose proof (zlen_nonneg d). pose proof (zlen_nonneg r).
    replace (zlen (p ++ [k] ++ to_be 2 (zlen d) ++ d)) with (zlen p + 3 + zlen d) in IH
      by (autorewrite with slices; lia).
    set (data := p ++ _) in *. assert (zlen data = zlen p + 3 + zlen d + zlen r) as Hd
      by (subst data; autorewrite with slices; lia).
    replace (_ <=? _) with true by lia. subst data.
    rewrite zget_app_r, Z.sub_diag by lia. change (zget ([?a] ++ _) 0) with (Some a). cbn [opt_bind].
    assert (get_be16 (p ++ [k] ++ to_be 2 (zlen d) ++ d ++ r) (zlen p + 1) = Some (zlen d)) as ->.
    { rewrite (app_assoc p). replace (zlen p + 1) with (zlen (p ++ [k])) by (rewrite zlen_app; done).
      apply get_be16_mid. lia. }
    cbn [opt_bind]. rewrite checked_add_ok by lia. cbn [opt_bind]. replace (_ <? _) with false by lia.
    by replace (k =? SNI_HOST_NAME) with false by lia.
Qed.

Lemma first_server_name_host others host rest :
  Forall (fun e => e.1 <> SNI_HOST_NAME) others -> zlen (enc_sni others host rest) < 65536 ->
  first_server_name (enc_sni others host rest) = plausible_host host.
Proof.
  intros Ho Hl. unfold first_server_name, enc_sni in *.
  set (l := concat (map enc_entry others) ++ enc_entry (SNI_HOST_NAME, host) ++ rest) in *.
  pose proof (zlen_nonneg l). rewrite zlen_app, zlen_to_be in Hl.
  pose proof (get_be16_mid [] (zlen l) l ltac:(lia)) as Hb. rewrite app_nil_l in Hb. change (zlen (@nil Z)) with 0 in Hb.
  rewrite Hb. cbn [opt_bind]. rewrite checked_add_ok by lia. cbn [opt_bind].
  rewrite zlen_app, zlen_to_be, Z.min_id. change (Z.of_nat 2) with 2.
  replace 2 with (zlen (to_be 2 (zlen l))) at 3 by apply zlen_to_be.
  replace (2 + zlen l) with (zlen (to_be 2 (zlen l) ++ l)) by (rewrite zlen_app, zlen_to_be; lia).
  apply server_names_host; [done| |rewrite zlen_app, zlen_to_be; fold l; lia].
  rewrite length_app. change (length (to_be 2 (zlen l))) with 2%nat.
  enough (length others <= length l)%nat by lia.
  unfold l. rewrite length_app. pose proof (length_concat_map enc_entry others ltac:(intros; simpl; lia)). lia.
Qed.

Lemma find_server_name_host fuel p exts sni more :
  Forall (fun e => 0 < e.1 < 65536) exts -> (length exts < fuel)%nat ->
  zlen (p ++ concat (map enc_ext exts) ++ enc_ext (EXT_SERVER_NAME, sni) ++ more) < 65536 ->
  let hello := p ++ concat (map enc_ext exts) ++ enc_ext (EXT_SERVER_NAME, sni) ++ more in
  find_server_name fuel hello (zlen p) (zlen hello) = first_server_name sni.
Proof.
  intros Ho. revert fuel p. induction Ho as [|[k d] exts Hk Ho IH]; intros fuel p Hf Hl hello;
    (destruct fuel as [|fuel]; [simpl in Hf; lia|]); cbn [find_server_name]; subst hello; cbn [map concat] in *.
  - change (enc_ext (EXT_SERVER_NAME, sni)) with (to_be 2 EXT_SERVER_NAME ++ to_be 2 (zlen sni) ++ sni) in *.
    rewrite app_nil_l in *. rewrite <- !app_assoc in Hl |- *.
    pose proof (zlen_nonneg p). pose proof (zlen_nonneg sni). pose proof (zlen_nonneg more).
    set (hello := p ++ _) in *. assert (zlen hello = zlen p + 4 + zlen sni + zlen more) as Hd
      by (subst hello; autorewrite with slices; lia).
    rewrite Hd in *. replace (_ <=? _) with true by lia. subst hello.
    rewrite get_be16_mid by (by vm_compute). cbn [opt_bind]. rewrite (app_assoc p).
    replace (zlen p + 2) with (zlen (p ++ to_be 2 EXT_SERVER_NAME)) by (autorewrite with slices; lia).
    rewrite get_be16_mid by lia. cbn [opt_bind]. rewrite checked_add_ok by lia. cbn [opt_bind].
    replace (_ <? _) with false by lia. change (as_u16 EXT_SERVER_NAME =? EXT_SERVER_NAME) with true.
    rewrite (app_assoc (p ++ _)), get_range_mid; [done| |]; autorewrite with slices; lia.
  - change (enc_ext (k, d)) with (to_be 2 k ++ to_be 2 (zlen d) ++ d) in *. rewrite <- !app_assoc in Hl |- *.
    specialize (IH fuel (p ++ to_be 2 k ++ to_be 2 (zlen d) ++ d)). cbv zeta in IH. rewrite <- !app_assoc in IH.
    specialize (IH ltac:(simpl in Hf; lia) Hl).
    set (r := concat (map enc_ext exts) ++ enc_ext (EXT_SERVER_NAME, sni) ++ more) in *.
    cbn [fst] in Hk. pose proof (zlen_nonneg p). pose proof (zlen_nonneg d). pose proof (zlen_nonneg r).
    replace (zlen (p ++ to_be 2 k ++ to_be 2 (zlen d) ++ d)) with (zlen p + 4 + zlen d) in IH
      by (autorewrite with slices; lia).
    set (hello := p ++ _) in *. assert (zlen hello = zlen p + 4 + zlen d + zlen r) as Hd
      by (subst hello; autorewrite with slices; lia).
    replace (_ <=? _) with true by lia. subst hello.
    rewrite get_be16_mid by lia. cbn [opt_bind].
    assert (get_be16 (p ++ to_be 2 k ++ to_be 2 (zlen d) ++ d ++ r) (zlen p + 2) = Some (zlen d)) as ->.
    { rewrite (app_assoc p). replace (zlen p + 2) with (zlen (p ++ to_be 2 k)) by (autorewrite with slices; lia).
      apply get_be16_mid. lia. }
    cbn [opt_bind]. rewrite checked_add_ok by lia. cbn [opt_bind]. replace (_ <? _) with false by lia.
    unfold as_u16. rewrite Z.mod_small by lia. by replace (k =? EXT_SERVER_NAME) with false by (unfold EXT_SERVER_NAME; lia).
Qed.

(** The sizes a ClientHello can have. *)
Definition hello_ok (h : Hello) : Prop :=
  zlen (h_fixed h) = 34 /\ zlen (h_session h) < 256 /\ zlen (h_compression h) < 256 /\
  Forall (fun e => 0 < e.1 < 65536) (h_exts h) /\ zlen (enc_hello h) + 4 < 65536.

Lemma find_in_hello h :
  hello_ok h ->
  (let hello := enc_hello h in
   let at_ := 2 + 32 in
   let? session_len := zget hello at_ in
   let? at_ := checked_add at_ (1 + session_len) in
   let? cipher_len := get_be16 hello at_ in
   let? at_ := checked_add at_ (2 + cipher_len) in
   let? compression_len := zget hello at_ in
   let? at_ := checked_add at_ (1 + compression_len) in
   let? extensions_len := get_be16 hello at_ in
   let? at_ := checked_add at_ 2 in
   let? e := checked_add at_ extensions_len in
   find_server_name (length hello) hello at_ (Z.min e (zlen hello))) = first_server_name (h_sni h).
Proof.
  intros (Hf & Hs & Hc & He & Hl). cbv zeta.
  assert (zlen (enc_hello h) = 39 + zlen (h_session h) + zlen (h_ciphers h) + zlen (h_compression h)
    + zlen (enc_exts h) + 1) as Hlen.
  { unfold enc_hello. autorewrite with slices. lia. }
  pose proof (zlen_nonneg (h_session h)). pose proof (zlen_nonneg (h_ciphers h)).
  pose proof (zlen_nonneg (h_compression h)). pose proof (zlen_nonneg (enc_exts h)).
  assert (zget (enc_hello h) (2 + 32) = Some (zlen (h_session h))) as ->.
  { unfold enc_hello. rewrite zget_app_r by lia. by replace (2 + 32 - zlen (h_fixed h)) with 0 by lia. }
  cbn [opt_bind]. rewrite checked_add_ok by lia. cbn [opt_bind].
  set (p1 := h_fixed h ++ [zlen (h_session h)] ++ h_session h).
  assert (zlen p1 = 2 + 32 + (1 + zlen (h_session h))) as Hp1 by (unfold p1; autorewrite with slices; lia).
  rewrite <- Hp1. assert (get_be16 (enc_hello h) (zlen p1) = Some (zlen (h_ciphers h))) as ->.
  { unfold enc_hello. replace (_ ++ _) with (p1 ++ to_be 2 (zlen (h_ciphers h)) ++ h_ciphers h
      ++ [zlen (h_compression h)] ++ h_compression h ++ to_be 2 (zlen (enc_exts h)) ++ enc_exts h)
      by (unfold p1; by rewrite <- !app_assoc). apply get_be16_mid. lia. }
  cbn [opt_bind]. rewrite checked_add_ok by lia. cbn [opt_bind].
  set (p2 := p1 ++ to_be 2 (zlen (h_ciphers h)) ++ h_ciphers h).
  assert (zlen p2 = zlen p1 + (2 + zlen (h_ciphers h))) as Hp2 by (unfold p2; autorewrite with slices; lia).
  rewrite <- Hp2. assert (enc_hello h = p2 ++ [zlen (h_compression h)] ++ h_compression h
    ++ to_be 2 (zlen (enc_exts h)) ++ enc_exts h) as Hh2
    by (unfold enc_hello, p2, p1; by rewrite <- !app_assoc).
  assert (zget (enc_hello h) (zlen p2) = Some (zlen (h_compression h))) as ->.
  { rewrite Hh2, zget_app_r by lia. by rewrite Z.sub_diag. }
  cbn [opt_bind]. rewrite checked_add_ok by lia. cbn [opt_bind].
  set (p3 := p2 ++ [zlen (h_compression h)] ++ h_compression h).
  assert (zlen p3 = zlen p2 + (1 + zlen (h_compression h))) as Hp3 by (unfold p3; autorewrite with slices; lia).
  rewrite <- Hp3. assert (enc_hello h = p3 ++ to_be 2 (zlen (enc_exts h)) ++ enc_exts h) as Hh3
    by (rewrite Hh2; unfold p3; by rewrite <- !app_assoc).
  assert (get_be16 (enc_hello h) (zlen p3) = Some (zlen (enc_exts h))) as ->.
  { rewrite Hh3. apply get_be16_mid. lia. }
  cbn [opt_bind]. rewrite !checked_add_ok by lia. cbn [opt_bind]. rewrite checked_add_ok by lia. cbn [opt_bind].
  set (p4 := p3 ++ to_be 2 (zlen (enc_exts h))).
  assert (zlen p4 = zlen p3 + 2) as Hp4 by (unfold p4; autorewrite with slices; lia).
  assert (enc_hello h = p4 ++ enc_exts h) as Hh4 by (rewrite Hh3; unfold p4; by rewrite <- !app_assoc).
  rewrite <- Hp4. rewrite Z.min_r by (rewrite Hh4, zlen_app; lia). rewrite Hh4.
  unfold enc_exts. apply find_server_name_host; [done| |].
  - rewrite !length_app. pose proof (length_concat_map enc_ext (h_exts h) ltac:(intros; simpl; lia)).
    simpl. lia.
  - fold (enc_exts h). rewrite <- Hh4. lia.
Qed.

End Tls.

(** ** Properties *)

(** A name read off a connection, from TLS or from HTTP, is non-empty, at
    most 253 bytes long, has a dot, and consists of lower-case letters, digits,
    hyphens, dots and underscores. *)
Theorem sniffed_name_good `{Target} `{UnicodeTables} (buf h : bytes) : hostname buf = Some h -> good_host h.
Proof.
  unfold hostname. destruct (tls_sni buf) as [n|] eqn:E.
  - intros [= <-]. unfold tls_sni in E. inv_bind. destruct (negb _); [done|]. inv_bind.
    destruct (negb _); [done|]. inv_bind. by eapply find_server_name_good.
  - unfold http_host. intros E'. inv_bind. destruct (split_str _ _) as [|l ls]; [done|].
    destruct (negb _); [done|]. by eapply host_header_good.
Qed.

Definition crlf : bytes := [13; 10].
Definition sample_request : bytes :=
  str "GET / HTTP/1.1" ++ crlf ++ str "Accept: */*" ++ crlf ++ str "HOST:  Api.Example.com:8080 " ++ crlf ++ crlf.

Lemma sniffed_name_good_witness : good_host (str "api.example.com").
Proof.
  apply (sniffed_name_good (H := target64) (H0 := no_unicode) sample_request). vm_compute. reflexivity.
Defined.

(** C35: of a TLS record that holds a whole ClientHello, the server name read is
    the first host name of its server_name extension, provided it looks like
    one, whatever the other fields, the extensions before and after it, the
    entries of other types before the name and what follows it, and the bytes
    that follow the record. *)
Theorem client_hello_name_found `{Target} `{UnicodeTables} (version : bytes) (h : Hello) (others : list (Z * bytes))
    (host rest trailing : bytes) :
  zlen version = 2 -> hello_ok h -> Forall (fun e => e.1 <> SNI_HOST_NAME) others ->
  h_sni h = enc_sni others host rest -> tls_sni (enc_record version h ++ trailing) = plausible_host host.
Proof.
  intros Hv Hh Ho Hsni. pose proof Hh as (Hf & Hs & Hc & He & Hl).
  rewrite <- (first_server_name_host others host rest); [|done|].
  2:{ rewrite <- Hsni. unfold enc_hello, enc_exts, enc_ext in Hl. autorewrite with slices in Hl.
      cbn [fst snd] in Hl. pose proof (zlen_nonneg (h_session h)). pose proof (zlen_nonneg (h_ciphers h)).
      pose proof (zlen_nonneg (h_compression h)). pose proof (zlen_nonneg (h_more h)).
      pose proof (zlen_nonneg (concat (map enc_ext (h_exts h)))). unfold enc_ext in *. lia. }
  rewrite <- Hsni, <- find_in_hello by done. unfold tls_sni, enc_record.
  set (hello := enc_hello h) in *. pose proof (zlen_nonneg hello). pose proof (zlen_nonneg trailing).
  set (body := [TLS_CLIENT_HELLO] ++ to_be 3 (zlen hello) ++ hello).
  assert (zlen body = 4 + zlen hello) as Hb by (unfold body; autorewrite with slices; lia).
  change (zget (([TLS_HANDSHAKE] ++ ?x) ++ trailing) 0) with (Some TLS_HANDSHAKE). cbn [opt_bind Z.eqb TLS_HANDSHAKE Pos.eqb negb].
  change 22 with TLS_HANDSHAKE. rewrite <- !app_assoc.
  set (p := [TLS_HANDSHAKE] ++ version). rewrite (app_assoc [TLS_HANDSHAKE]). fold p.
  assert (zlen p = 3) as Hp by (unfold p; autorewrite with slices; lia).
  rewrite <- Hp at 1. rewrite get_be16_mid by lia. cbn [opt_bind]. rewrite checked_add_ok by lia. cbn [opt_bind].
  rewrite Z.min_l by (autorewrite with slices; lia). rewrite (app_assoc p).
  rewrite get_range_mid by (autorewrite with slices; lia). cbn [opt_bind].
  change (zget body 0) with (Some TLS_CLIENT_HELLO). cbn [opt_bind Z.eqb TLS_CLIENT_HELLO Pos.eqb negb].
  unfold body. change 1 with (zlen [TLS_CLIENT_HELLO]) at 1. rewrite get_be24_mid by lia. cbn [opt_bind].
  rewrite checked_add_ok by lia. cbn [opt_bind]. rewrite Z.min_l by (autorewrite with slices; lia).
  rewrite (app_assoc [TLS_CLIENT_HELLO]), get_range_suffix by (autorewrite with slices; lia). done.
Qed.

Definition sample_hello : Hello :=
  mkHello (replicate 34 3) [1; 2; 3] [0x13; 1; 0x13; 2] [0] [(23, []); (10, [0; 29])]
    (enc_sni [(7, [9; 9])] (str "Www.Example.com") []) (enc_ext (16, [1; 2])).

Lemma client_hello_name_found_witness :
  tls_sni (H := target64) (H0 := no_unicode) (enc_record [3; 1] sample_hello ++ [20; 3; 3]) =
    plausible_host (H := no_unicode) (str "Www.Example.com").
Proof.
  apply (client_hello_name_found (H := target64) (H0 := no_unicode) [3; 1] sample_hello [(7, [9; 9])] _ [] [20; 3; 3]).
  - reflexivity.
  - split_and!; try (vm_compute; congruence). repeat constructor; vm_compute; congruence.
  - repeat constructor; vm_compute; congruence.
  - reflexivity.
Defined.
