(* ===== verification/Routing.v ===== *)
(** * Routing rules

    Models routing.rs: the rule language, how a rule matches a host and a port,
    the decision of a rule set and the rule file.  The crates [ipnet] (address
    ranges) and [regex] are parameters ([RouteLib]); [Net::contains] of a single
    address is all that is relied on. *)

From Stdlib Require Import ZArith Lia ZifyBool String List.
From stdpp Require Import base list numbers option decidable.
From S2P Require Import Prelude RustStr NetAddr.
Open Scope Z_scope.

(** The two crates. *)
Class RouteLib : Type := {
  IpNet : Type;
  parse_ipnet : bytes -> option IpNet;
  ipnet_from : IpAddr -> IpNet;
  ipnet_contains : IpNet -> IpAddr -> bool;
  Regex : Type;
  regex_new : bytes -> option Regex;
  is_match : Regex -> bytes -> bool
}.

Inductive Action : Type := Proxy | Direct | Block.
#[export] Instance Action_eq_dec : EqDecision Action.
Proof. solve_decision. Defined.

Inductive Host : Type :=
| HDomain (name : bytes)
| HIp (ip : IpAddr).

Definition is_private (ip : IpAddr) : bool :=
  match ip with
  | V4 o =>
      v4_is_private o || v4_is_loopback o || v4_is_link_local o || v4_is_broadcast o
      || v4_is_documentation o || v4_is_unspecified o
      || match o with a :: b :: _ => (a =? 100) && ((64 <=? b) && (b <? 128)) | _ => false end
  | V6 o =>
      v6_is_loopback o || v6_is_unspecified o
      || (Z.land (v6_segment0 o) 0xfe00 =? 0xfc00) || (Z.land (v6_segment0 o) 0xffc0 =? 0xfe80)
  end.

Section Rules.
Context `{UnicodeTables} `{RouteLib}.

Inductive Matcher : Type :=
| DomainSuffix (s : bytes)
| DomainFull (s : bytes)
| DomainKeyword (s : bytes)
| DomainRegex (r : Regex)
| Net (n : IpNet)
| Ports (lo hi : Z)
| Private.

Definition normalize_domain (value : bytes) : option bytes :=
  let cleaned := to_lowercase (trim_end_matches (Z.eqb 46) (trim_start_matches (Z.eqb 46)
                   (trim_start_matches (Z.eqb 42) (trim value)))) in
  match cleaned with [] => None | _ => Some cleaned end.

Definition parse_net (value : bytes) : option IpNet :=
  let value := trim value in
  match parse_ipnet value with
  | Some net => Some net
  | None => match parse_ip value with Some ip => Some (ipnet_from ip) | None => None end
  end.

Definition parse_ports (value : bytes) : option (Z * Z) :=
  let value := trim value in
  match split_once 45 value with
  | Some (lo, hi) =>
      let? lo := parse_u16 (trim lo) in
      let? hi := parse_u16 (trim hi) in
      Some (if hi <? lo then (hi, lo) else (lo, hi))
  | None => let? single := parse_u16 value in Some (single, single)
  end.

(** The kind of an entry and its value. *)
Definition entry_kind (entry : bytes) : bytes * bytes :=
  match split_once 58 entry with
  | Some (kind, value) =>
      if negb (contains_char kind 46) && negb (contains_char kind 47) then (to_lowercase (trim kind), trim value)
      else ([], entry)
  | None => ([], entry)
  end.

Definition is_any (s : bytes) (l : list bytes) : bool := existsb (fun k => bool_decide (s = k)) l.

Definition matcher_parse (entry : bytes) : option Matcher :=
  let entry := trim entry in
  if bool_decide (entry = []) || starts_with entry (str "#") then None
  else
    let '(kind, value) := entry_kind entry in
    if is_any kind [str "domain"; str "suffix"] then let? d := normalize_domain value in Some (DomainSuffix d)
    else if is_any kind [str "full"; str "exact"] then let? d := normalize_domain value in Some (DomainFull d)
    else if is_any kind [str "keyword"] then
      let needle := to_lowercase (trim value) in
      match needle with [] => None | _ => Some (DomainKeyword needle) end
    else if is_any kind [str "regexp"; str "regex"] then let? r := regex_new value in Some (DomainRegex r)
    else if is_any kind [str "ip"; str "cidr"] then let? n := parse_net value in Some (Net n)
    else if is_any kind [str "port"] then let? '(lo, hi) := parse_ports value in Some (Ports lo hi)
    else if is_any kind [str "geoip"; str "geosite"] then
      if eq_ignore_ascii_case value (str "private") then Some Private else None
    else if is_any kind [[]] then
      if eq_ignore_ascii_case value (str "private") then Some Private
      else match parse_net value with
           | Some net => Some (Net net)
           | None => let? d := normalize_domain value in Some (DomainSuffix d)
           end
    else None.

Definition matches (m : Matcher) (host : Host) (port : Z) : bool :=
  match m with
  | Ports lo hi => (lo <=? port) && (port <=? hi)
  | Private =>
      match host with
      | HIp ip => is_private ip
      | HDomain name => eq_ignore_ascii_case name (str "localhost")
      end
  | Net net => match host with HIp ip => ipnet_contains net ip | HDomain _ => false end
  | DomainSuffix suffix =>
      match host with
      | HDomain name =>
          let name := to_lowercase name in
          bool_decide (name = suffix) || ends_with name (str "." ++ suffix)
      | HIp _ => false
      end
  | DomainFull full => match host with HDomain name => eq_ignore_ascii_case name full | HIp _ => false end
  | DomainKeyword needle => match host with HDomain name => contains (to_lowercase name) needle | HIp _ => false end
  | DomainRegex pattern => match host with HDomain name => is_match pattern name | HIp _ => false end
  end.

Record RuleSet : Type := mkRules { rs_block : list Matcher; rs_direct : list Matcher }.

Definition list_sep (b : Z) : bool := (b =? 10) || (b =? 44) || (b =? 59).
Definition parse_list (raw : bytes) : list Matcher := omap matcher_parse (split list_sep raw).

Definition rules_parse (block direct : bytes) : RuleSet := mkRules (parse_list block) (parse_list direct).

Definition rules_is_empty (s : RuleSet) : bool :=
  match rs_block s, rs_direct s with [], [] => true | _, _ => false end.

Definition has_domain_rules (s : RuleSet) : bool :=
  existsb (fun rule => match rule with
    | DomainSuffix _ | DomainFull _ | DomainKeyword _ | DomainRegex _ => true
    | _ => false end) (rs_block s ++ rs_direct s).

Definition decide_action (s : RuleSet) (host : Host) (port : Z) : Action :=
  if existsb (fun rule => matches rule host port) (rs_block s) then Block
  else if existsb (fun rule => matches rule host port) (rs_direct s) then Direct
  else Proxy.

Definition push_list (target extra : bytes) : bytes :=
  match trim extra with
  | [] => target
  | _ => (match trim target with [] => target | _ => target ++ [10] end) ++ extra
  end.

(** The section a line of the rule file belongs to. *)
Inductive Section_ : Type := SBlock | SDirect.

Fixpoint split_sections_loop (lines : list bytes) (current : option Section_) (block direct : bytes)
    : bytes * bytes :=
  match lines with
  | [] => (block, direct)
  | line :: lines =>
      let trimmed := trim line in
      if bool_decide (trimmed = []) || starts_with trimmed (str "#") then
        split_sections_loop lines current block direct
      else
        let lowered := to_lowercase trimmed in
        if bool_decide (lowered = str "[block]") then split_sections_loop lines (Some SBlock) block direct
        else if bool_decide (lowered = str "[direct]") then split_sections_loop lines (Some SDirect) block direct
        else if starts_with lowered (str "[") then split_sections_loop lines None block direct
        else match current with
             | Some SBlock => split_sections_loop lines current (block ++ trimmed ++ [10]) direct
             | Some SDirect => split_sections_loop lines current block (direct ++ trimmed ++ [10])
             | None => split_sections_loop lines current block direct
             end
  end.
Definition split_sections (text : bytes) : bytes * bytes := split_sections_loop (lines text) None [] [].

(** [RuleSet::from_env]; [read_file] is [std::fs::read_to_string]. *)
Definition rules_from_env (env : Env) (read_file : bytes -> option bytes) : RuleSet :=
  let block := unwrap_or_default (env (str "SOILDTUNNEL_ROUTE_BLOCK")) in
  let direct := unwrap_or_default (env (str "SOILDTUNNEL_ROUTE_DIRECT")) in
  match env (str "SOILDTUNNEL_ROUTES_FILE") with
  | Some path =>
      match read_file path with
      | Some text =>
          let '(file_block, file_direct) := split_sections text in
          rules_parse (push_list block file_block) (push_list direct file_direct)
      | None => rules_parse block direct
      end
  | None => rules_parse block direct
  end.

End Rules.

(** ** Domain rules go by labels *)

Definition dot : Z -> bool := Z.eqb 46.

Section Domains.
Context `{UnicodeTables} `{RouteLib}.

Lemma ends_with_iff s p : ends_with s p = true <-> exists x, s = x ++ p.
Proof.
  unfold ends_with. rewrite andb_true_iff, !bool_decide_eq_true. split.
  - intros [Hl Hd]. exists (take (length s - length p) s). rewrite <- Hd at 2. by rewrite take_drop.
  - intros [x ->]. rewrite length_app. split; [lia|].
    replace (length x + length p - length p)%nat with (length x) by lia. apply drop_app_length.
Qed.

Lemma suffix_labels s n :
  (n = s \/ exists x, n = x ++ 46 :: s) <-> exists pre, split dot n = pre ++ split dot s.
Proof.
  split.
  - intros [-> |[x ->]]; [by exists []|]. exists (split dot x). by apply split_app.
  - intros [pre Hpre]. assert (n = join 46 (pre ++ split dot s)) as Hn by (rewrite <- Hpre; symmetry; apply join_split).
    destruct pre as [|w pre]; [left; rewrite Hn; apply join_split|]. right. exists (join 46 (w :: pre)).
    rewrite Hn, join_app by (done || apply split_nonempty). do 2 f_equal. apply join_split.
Qed.

Lemma suffix_matches s n port :
  matches (DomainSuffix s) (HDomain n) port = true <->
  exists pre, split dot (to_lowercase n) = pre ++ split dot s.
Proof.
  rewrite <- suffix_labels. simpl. rewrite orb_true_iff, bool_decide_eq_true, ends_with_iff.
  change (str "." ++ s) with (46 :: s). done.
Qed.

Lemma In_parse_list raw e m :
  In e (split list_sep raw) -> matcher_parse e = Some m -> In m (parse_list raw).
Proof.
  intros He Hm. apply list_elem_of_In. apply list_elem_of_omap. exists e. split; [|done].
  by apply list_elem_of_In.
Qed.

(** ** What normalization leaves *)

Lemma ascii_lower_dot b : ascii_lower b = 46 <-> b = 46.
Proof. unfold ascii_lower, is_ascii_upper. case_match; lia. Qed.

Lemma to_lowercase_last n x b :
  Forall (fun b => b < 128) n -> to_lowercase n = x ++ [b] -> exists y c, n = y ++ [c] /\ b = ascii_lower c.
Proof.
  intros Hn. rewrite to_lowercase_ascii by done. unfold to_ascii_lowercase. intros E.
  apply map_eq_app in E as (y & z & -> & _ & E). destruct z as [|c [|]]; simplify_eq/=. by exists y, c.
Qed.

Lemma normalize_no_final_dot v d x b :
  Forall (fun b => b < 128) v -> normalize_domain v = Some d -> d = x ++ [b] -> b <> 46.
Proof.
  unfold normalize_domain. set (s := trim_end_matches _ _). intros Hv.
  assert (Forall (fun b => b < 128) s) as Hs.
  { apply trim_end_matches_Forall, trim_start_matches_Forall, trim_start_matches_Forall, trim_Forall, Hv. }
  destruct (to_lowercase s) as [|c l] eqn:E; [done|]. intros [= <-] Ed. rewrite Ed in E.
  apply to_lowercase_last in E as (y & e & Hy & ->); [|done]. unfold s in Hy.
  apply trim_end_matches_last in Hy. rewrite ascii_lower_dot. lia.
Qed.

Lemma snoc_inj_last {A} (x y : list A) a b : x ++ [a] = y ++ [b] -> a = b.
Proof. by intros [_ ?]%app_inj_tail. Qed.

(** ** Entries of the rule list *)

Definition hex_group (h : bytes) : Prop := h <> [] /\ Forall (fun b => hex_digit b <> None) h /\ zlen h <= 4.

Lemma hex_digit_solid b : hex_digit b <> None -> solid b /\ b <> 35 /\ b <> 46 /\ b <> 47 /\ b <> 58 /\ ascii_lower b < 103.
Proof.
  unfold hex_digit, solid, is_ws1, is_ascii_digit, ascii_lower, is_ascii_upper. repeat case_match; intros; try done; lia.
Qed.

Lemma not_keyword kind l :
  Forall (fun b => b < 103) kind -> forallb (fun k => existsb (fun b => 103 <=? b) k) l = true -> is_any kind l = false.
Proof.
  intros Hk Hl. unfold is_any. apply not_true_is_false. rewrite existsb_exists.
  intros (k & Hin & <-%bool_decide_eq_true). rewrite forallb_forall in Hl. specialize (Hl kind Hin).
  apply existsb_exists in Hl as (b & Hb & Hge). rewrite List.Forall_forall in Hk. specialize (Hk b Hb). lia.
Qed.

Lemma hex_group_ends h : hex_group h -> exists b r c x, h = b :: r /\ h = x ++ [c] /\ solid b /\ solid c /\ b <> 35.
Proof.
  intros (Hne & Hall & _). destruct h as [|b r]; [done|]. destruct (@exists_last _ (b :: r)) as (x & c & Hx); [done|].
  exists b, r, c, x. rewrite Hx in Hall. apply Forall_app in Hall as [H1 H2]. apply Forall_cons_iff in H2 as [H2 _].
  destruct (hex_digit_solid c H2) as (? & _). split_and!; [done|done| |done|].
  all: assert (Forall (fun b => hex_digit b <> None) (b :: r)) as Hb by (rewrite Hx; apply Forall_app; split; [done|by constructor]).
  all: apply Forall_cons_iff in Hb as [Hb _]; by apply hex_digit_solid.
Qed.

Lemma hex_group_kind h rest :
  hex_group h -> exists value, entry_kind (trim (h ++ 58 :: rest)) = (to_lowercase h, value) /\
    trim (h ++ 58 :: rest) <> [] /\ starts_with (trim (h ++ 58 :: rest)) (str "#") = false.
Proof.
  intros Hh. destruct (hex_group_ends h Hh) as (b & r & c & x & Eb & Ec & Hb & Hc & Hnb). destruct Hh as (_ & Hall & _).
  unfold trim. rewrite Eb. cbn [app]. rewrite trim_start_solid by done. rewrite app_comm_cons, <- Eb.
  destruct (trim_end_solid h 58 rest) as [r' ->]; [done|].
  exists (trim r'). split_and!; [|by subst h|].
  - unfold entry_kind. assert (split_once 58 (h ++ 58 :: r') = Some (h, r')) as ->.
    { apply split_once_Some. split; [done|]. intros Hin. rewrite List.Forall_forall in Hall.
      specialize (Hall 58 Hin). apply hex_digit_solid in Hall. lia. }
    assert (forall k, k = 46 \/ k = 47 -> contains_char h k = false) as Hk.
    { intros k Hk. apply not_true_is_false. unfold contains_char. rewrite existsb_exists.
      intros (y & Hy & ->%Z.eqb_eq%eq_sym). rewrite List.Forall_forall in Hall. specialize (Hall k Hy).
      apply hex_digit_solid in Hall. lia. }
    rewrite !Hk by lia. cbn [negb andb]. by rewrite (trim_solid h b r c x).
  - rewrite Eb. unfold starts_with. apply bool_decide_eq_false. simpl. intros [= ->]. done.
Qed.

End Domains.

(** ** The rule file *)

Section File.
Context `{UnicodeTables} `{RouteLib}.

(** An entry of a section: not blank, no comment, no header, on one line. *)
Definition plain_entry (e : bytes) : Prop :=
  (exists b r, e = b :: r /\ solid b) /\ trim e = e /\ starts_with e (str "#") = false /\ starts_with (to_lowercase e) (str "[") = false /\
  ~ In 10 e.

Definition header (s : Section_) : bytes := match s with SBlock => str "[block]" | SDirect => str "[direct]" end.
Definition section_lines (s : Section_ * list bytes) : list bytes := header s.1 :: s.2.
Definition file_lines (l : list (Section_ * list bytes)) : list bytes := concat (map section_lines l).
Definition text_of (ls : list bytes) : bytes := concat (map (fun l => l ++ [10]) ls).
Definition entries_of (k : Section_) (l : list (Section_ * list bytes)) : list bytes :=
  concat (map (fun s => match k, s.1 with SBlock, SBlock | SDirect, SDirect => s.2 | _, _ => [] end) l).

Lemma no_newline l : ~ In 10 l -> forallb (fun b => negb (10 =? b)) l = true.
Proof. intros Hl. apply forallb_forall. intros x Hx. destruct (Z.eqb_spec 10 x); [by subst|done]. Qed.

Lemma nil_or_snoc {A} (l : list A) : l = [] \/ exists x a, l = x ++ [a].
Proof. destruct l as [|b l]; [by left|right]. destruct (@exists_last _ (b :: l)) as (x & a & ->); [done|by exists x, a]. Qed.

Lemma trimmed_no_cr e : trim e = e -> strip_cr e = e.
Proof.
  intros Ht. unfold strip_cr, strip_suffix. destruct (ends_with e [13]) eqn:E; [|done].
  apply ends_with_iff in E as [x ->]. exfalso. unfold trim, trim_end in Ht.
  destruct (trim_start_suffix (x ++ [13])) as [p Hp]. set (y := trim_start _) in *.
  clearbody y. destruct (nil_or_snoc y) as [-> |(z & c & ->)]; [by destruct x|].
  rewrite app_assoc in Hp. apply app_inj_tail in Hp as [-> <-]. rewrite rev_app_distr in Ht. cbn [rev app] in Ht.
  change (trim_start_rev (13 :: rev z)) with (trim_start_rev (rev z)) in Ht.
  destruct (trim_start_rev_suffix (rev z)) as [q Hq].
  apply (f_equal (@length Z)) in Hq, Ht. rewrite ?length_rev, ?length_app, ?length_rev in *. simpl in *. lia.
Qed.

Lemma lines_text ls : Forall (fun l => strip_cr l = l /\ ~ In 10 l) ls -> lines (text_of ls) = ls.
Proof.
  intros Hl. unfold lines, text_of. assert (split (Z.eqb 10) (concat (map (fun l => l ++ [10]) ls)) = ls ++ [[]]) as ->.
  { induction Hl as [|l ls [_ Hn] Hl IH]; [done|]. cbn [map concat]. rewrite <- app_assoc. cbn [app].
    rewrite split_app_sep by (done || by apply no_newline). by rewrite IH. }
  assert (drop_last_empty (ls ++ [[]]) = ls) as ->.
  { clear. induction ls as [|l [|l' ls] IH]; [done|done|]. cbn [app] in *.
    change (drop_last_empty (l :: l' :: ls ++ [[]])) with (l :: drop_last_empty (l' :: ls ++ [[]])). by rewrite IH. }
  induction Hl as [|l ls [Hs _] Hl IH]; simpl; [done|]. by rewrite Hs, IH.
Qed.

Lemma sections_entries es rest cur block direct :
  Forall plain_entry es ->
  split_sections_loop (es ++ rest) (Some cur) block direct =
  match cur with
  | SBlock => split_sections_loop rest (Some cur) (block ++ text_of es) direct
  | SDirect => split_sections_loop rest (Some cur) block (direct ++ text_of es)
  end.
Proof.
  intros He. revert block direct. induction He as [|e es ((b0 & r0 & Hne & _) & Ht & Hc & Hb & _) He IH]; intros block direct.
  { unfold text_of. simpl. rewrite !app_nil_r. by destruct cur. }
  cbn [app split_sections_loop]. rewrite Ht, Hc, bool_decide_false by (by subst e). cbn [orb].
  assert (forall h, starts_with h (str "[") = true -> to_lowercase e <> h) as Hh.
  { intros h Hs <-. congruence. }
  rewrite !bool_decide_false by (by apply Hh). rewrite Hb. unfold text_of in *. cbn [map concat].
  destruct cur; rewrite IH, <- !app_assoc; done.
Qed.

Lemma split_sections_file l block direct cur :
  Forall (fun s => Forall plain_entry s.2) l ->
  split_sections_loop (file_lines l) cur block direct =
  (block ++ text_of (entries_of SBlock l), direct ++ text_of (entries_of SDirect l)).
Proof.
  intros Hl. revert block direct cur. induction Hl as [|[k es] l Hes Hl IH]; intros block direct cur.
  { unfold text_of. simpl. by rewrite !app_nil_r. }
  unfold file_lines in *. cbn [map concat section_lines fst snd app].
  assert (forall h rest b d, split_sections_loop (header h :: rest) cur b d = split_sections_loop rest (Some h) b d) as Hh.
  { intros h rest b d. assert (to_lowercase (header h) = header h) as Hlow.
    { rewrite to_lowercase_ascii; [by destruct h|]. destruct h; repeat constructor. }
    cbn [split_sections_loop]. replace (trim (header h)) with (header h) by (by destruct h).
    rewrite Hlow. by destruct h. }
  rewrite Hh, sections_entries by done. unfold text_of, entries_of in *. cbn [map concat fst snd].
  destruct k; rewrite IH, !map_app, !concat_app, <- !app_assoc; done.
Qed.

Lemma parse_list_text es : parse_list (text_of es) = flat_map parse_list es.
Proof.
  unfold text_of. induction es as [|e es IH]; simpl.
  - unfold parse_list. simpl. done.
  - rewrite <- app_assoc. cbn [app]. unfold parse_list in *. rewrite split_app by done. rewrite omap_app. by rewrite IH.
Qed.

Lemma push_list_text es :
  Forall plain_entry es -> parse_list (push_list [] (text_of es)) = flat_map parse_list es.
Proof.
  intros Hes. rewrite <- parse_list_text. unfold push_list.
  destruct Hes as [|e es ((b & r & -> & Hb) & _) Hes]; [done|].
  unfold text_of, trim. cbn [map concat app]. rewrite trim_start_solid by done.
  destruct (trim_end_solid [] b ((r ++ [10]) ++ concat (map (fun l => l ++ [10]) es)) Hb) as [r' Hr'].
  cbn [app] in Hr'. by rewrite Hr'.
Qed.

End File.

(** ** Properties *)

(** C36: a domain rule matches a name exactly when the rule's labels are the
    last labels of the name in lower case (so the domain itself and its
    subdomains, never a name that merely ends in the same letters); and a name
    matched by such an entry of the block list is blocked, whatever the list of
    direct rules says. *)
Theorem domain_rule_by_labels `{UnicodeTables} `{RouteLib} (e d name block direct : bytes) (port : Z) :
  In e (split list_sep block) -> matcher_parse e = Some (DomainSuffix d) ->
  (matches (DomainSuffix d) (HDomain name) port = true <->
     exists pre, split dot (to_lowercase name) = pre ++ split dot d) /\
  ((exists pre, split dot (to_lowercase name) = pre ++ split dot d) ->
     decide_action (rules_parse block direct) (HDomain name) port = Block).
Proof.
  intros Hin Hp. split; [apply suffix_matches|]. intros Hm%(suffix_matches d name port).
  unfold decide_action, rules_parse. cbn [rs_block].
  assert (existsb (fun rule => matches rule (HDomain name) port) (parse_list block) = true) as ->; [|done].
  apply existsb_exists. exists (DomainSuffix d). split; [by eapply In_parse_list|done].
Qed.

(** A stand-in for the crates: ranges are single addresses, and no regular
    expression compiles. *)
Definition single_addresses : RouteLib := {|
  IpNet := IpAddr; parse_ipnet := fun _ => None; ipnet_from := fun ip => ip;
  ipnet_contains := fun a b => bool_decide (a = b);
  Regex := unit; regex_new := fun _ => None; is_match := fun _ _ => false |}.

Lemma domain_rule_by_labels_witness :
  decide_action (H := no_unicode) (H0 := single_addresses)
    (rules_parse (H := no_unicode) (H0 := single_addresses) (str "port:25, domain:*.Example.com.") (str "example.com"))
    (HDomain (str "cdn.EXAMPLE.com")) 443 = Block.
Proof.
  apply (domain_rule_by_labels (H := no_unicode) (H0 := single_addresses)
    (str " domain:*.Example.com.") (str "example.com")).
  - vm_compute. right. left. reflexivity.
  - vm_compute. reflexivity.
  - exists [str "cdn"]. vm_compute. reflexivity.
Defined.

(** No domain rule whose value is ASCII matches an ASCII name written with
    a final dot, although the rule's own final dots are removed: the absolute
    form of a blocked name is not blocked. *)
Theorem final_dot_evades_domain_rules `{UnicodeTables} `{RouteLib} (v d name : bytes) (port : Z) :
  Forall (fun b => b < 128) v -> normalize_domain v = Some d -> Forall (fun b => b < 128) name ->
  matches (DomainSuffix d) (HDomain (name ++ [46])) port = false /\
  matches (DomainFull d) (HDomain (name ++ [46])) port = false.
Proof.
  intros Hv Hd Hn. assert (d <> []) as Hne.
  { unfold normalize_domain in Hd. destruct (to_lowercase _); [done|]. by simplify_eq. }
  destruct (@exists_last _ d Hne) as (x & b & Ed). pose proof (normalize_no_final_dot v d x b Hv Hd Ed) as Hb.
  assert (to_lowercase (name ++ [46]) = to_ascii_lowercase name ++ [46]) as Hlow.
  { rewrite to_lowercase_ascii by (apply Forall_app; split; [done|by repeat constructor]).
    unfold to_ascii_lowercase. by rewrite map_app. }
  split; apply not_true_is_false; simpl.
  - rewrite Hlow, Ed, orb_true_iff, bool_decide_eq_true, ends_with_iff. change (str ".") with [46].
    intros [E|[y E]].
    + by apply snoc_inj_last in E.
    + rewrite app_comm_cons, app_assoc in E. by apply snoc_inj_last in E.
  - unfold eq_ignore_ascii_case. rewrite bool_decide_eq_true. unfold to_ascii_lowercase. rewrite Ed, !map_app.
    change (map ascii_lower [46]) with [46]. intros E.
    apply snoc_inj_last, eq_sym in E. by apply (proj1 (ascii_lower_dot b)) in E.
Qed.

Lemma final_dot_evades_domain_rules_witness :
  matches (H := no_unicode) (H0 := single_addresses) (DomainSuffix (str "example.com")) (HDomain (str "www.example.com" ++ [46])) 443 = false /\
  matches (H := no_unicode) (H0 := single_addresses) (DomainFull (str "example.com")) (HDomain (str "www.example.com" ++ [46])) 443 = false.
Proof.
  apply (final_dot_evades_domain_rules (H := no_unicode) (H0 := single_addresses) (str "example.com.")).
  - repeat constructor; vm_compute; congruence.
  - vm_compute. reflexivity.
  - repeat constructor; vm_compute; congruence.
Defined.

(** An entry of the rule lists that starts with a group of hexadecimal
    digits and a colon, as an IPv6 address or range without a kind does, is
    dropped without a word, also when it is a well-formed address. *)
Theorem bare_ipv6_entry_dropped `{UnicodeTables} `{RouteLib} (h rest : bytes) :
  hex_group h -> matcher_parse (h ++ 58 :: rest) = None.
Proof.
  intros Hh. destruct (hex_group_kind h rest Hh) as (value & Hk & Hne & Hc). unfold matcher_parse.
  rewrite Hk, Hc, bool_decide_false by done. cbn [orb]. destruct Hh as (Hn & Hall & _).
  rewrite (to_lowercase_ascii h).
  2:{ eapply Forall_impl; [|exact Hall]. intros b Hb. destruct (hex_digit_solid b Hb) as ([? _] & _). lia. }
  assert (Forall (fun b => b < 103) (to_ascii_lowercase h)) as Hlow.
  { apply Forall_map. eapply Forall_impl; [|exact Hall]. intros b Hb. simpl. by apply hex_digit_solid. }
  rewrite !not_keyword by (done || by vm_compute).
  unfold is_any. cbn [existsb]. rewrite bool_decide_false; [done|]. by destruct h.
Qed.

Lemma bare_ipv6_entry_dropped_witness :
  parse_ip (str "2001:db8::1") <> None /\
  matcher_parse (H := no_unicode) (H0 := single_addresses) (str "2001:db8::1") = None.
Proof.
  split; [vm_compute; congruence|].
  apply (bare_ipv6_entry_dropped (H := no_unicode) (H0 := single_addresses) (str "2001") (str "db8::1")).
  split; [vm_compute; congruence|]. split; [repeat constructor; vm_compute; congruence|vm_compute; congruence].
Defined.

(** The rules read from a file of [block] and [direct] sections, in any
    number and order, are those of the entries listed in them, in order, when
    no rules are set otherwise. *)
Theorem rule_file_read `{UnicodeTables} `{RouteLib} (l : list (Section_ * list bytes)) (env : Env)
    (path : bytes) (read_file : bytes -> option bytes) :
  Forall (fun s => Forall plain_entry s.2) l ->
  env (str "SOILDTUNNEL_ROUTE_BLOCK") = None -> env (str "SOILDTUNNEL_ROUTE_DIRECT") = None ->
  env (str "SOILDTUNNEL_ROUTES_FILE") = Some path -> read_file path = Some (text_of (file_lines l)) ->
  rules_from_env env read_file =
  mkRules (flat_map parse_list (entries_of SBlock l)) (flat_map parse_list (entries_of SDirect l)).
Proof.
  intros Hl Hb Hd Hp Hr. unfold rules_from_env. rewrite Hb, Hd, Hp, Hr. unfold split_sections. rewrite lines_text.
  - rewrite split_sections_file by done. rewrite !app_nil_l. unfold rules_parse. cbn [unwrap_or_default].
    assert (forall k, Forall plain_entry (entries_of k l)) as He.
    { intros k. unfold entries_of. apply Forall_concat, Forall_map. eapply Forall_impl; [|exact Hl].
      intros [[] es] Hes; destruct k; simpl; (done || constructor). }
    by rewrite !push_list_text.
  - unfold file_lines. apply Forall_concat, Forall_map. eapply Forall_impl; [|exact Hl].
    intros [k es] Hes. constructor.
    + destruct k; vm_compute; split; (done || intros Hin; repeat (destruct Hin as [Hin|Hin]; [done|]); done).
    + eapply Forall_impl; [|exact Hes]. intros e (_ & Ht & _ & _ & Hn). split; [by apply trimmed_no_cr|done].
Qed.

Definition sample_env : Env := fun k => if bool_decide (k = str "SOILDTUNNEL_ROUTES_FILE") then Some (str "r") else None.

Lemma rule_file_read_witness :
  rules_from_env (H := no_unicode) (H0 := single_addresses) sample_env
    (fun _ => Some (str "[block]" ++ [10] ++ str "ads.example,port:25" ++ [10] ++ str "[direct]" ++ [10] ++ str "private" ++ [10]))
  = mkRules (H0 := single_addresses) [DomainSuffix (H0 := single_addresses) (str "ads.example"); Ports (H0 := single_addresses) 25 25] [Private (H0 := single_addresses)].
Proof.
  apply (rule_file_read (H := no_unicode) (H0 := single_addresses)
    [(SBlock, [str "ads.example,port:25"]); (SDirect, [str "private"])] sample_env (str "r")).
  - repeat constructor; try (vm_compute; congruence); try (by eexists _, _; vm_compute; repeat split);
      vm_compute; intros Hin; repeat (destruct Hin as [Hin|Hin]; [congruence|]); exact Hin.
  - reflexivity.
  - reflexivity.
  - reflexivity.
  - reflexivity.
Defined.
