(* ===== verification/Tuic.v ===== *)
(** * The TUIC outbound

    Models outbound.rs: addresses and packets on the wire, how a UDP payload is
    cut into QUIC datagrams and put together again, the TCP relay slots and the
    stream table.  The QUIC library is outside: its answers are arguments.  Name
    resolution in [deliver] is the parameter [lookup]. *)

From Stdlib Require Import ZArith Lia ZifyBool String List.
From stdpp Require Import base list numbers option decidable gmap.
From S2P Require Import Prelude RustStr NetAddr Errors Channels.
Open Scope Z_scope.

Definition TUIC_VERSION : Z := 0x05.
Definition CMD_AUTHENTICATE : Z := 0x00.
Definition CMD_CONNECT : Z := 0x01.
Definition CMD_PACKET : Z := 0x02.
Definition CMD_DISSOCIATE : Z := 0x03.
Definition CMD_HEARTBEAT : Z := 0x04.
Definition ADDR_NONE : Z := 0xff.
Definition ADDR_NAME : Z := 0x00.
Definition ADDR_V4 : Z := 0x01.
Definition ADDR_V6 : Z := 0x02.
Definition PACKET_HEADER : Z := 10.
Definition ASSOC_ID : Z := 1.
Definition MAX_DGRAM_PAYLOAD : Z := 65535.
Definition CHANNEL_DEPTH : nat := 512.

(** ** Settings *)

Definition other {A : Type} (msg : bytes) : result A := Err (Other msg).

Definition split_host_port (raw : bytes) : result (bytes * Z) :=
  let trimmed := trim raw in
  match rsplit_once 58 trimmed with
  | None => other (str "expected host:port, got " ++ trimmed)
  | Some (host, port) =>
      match parse_u16 (trim port) with
      | None => other (str "bad port in " ++ trimmed)
      | Some port =>
          let host := trim (trim_end_matches (Z.eqb 93) (trim_start_matches (Z.eqb 91) (trim host))) in
          match host with
          | [] => other (str "missing host in " ++ trimmed)
          | _ => Ok (host, port)
          end
      end
  end.

(** The filter keeps hexadecimal digits only, so every pair reads as a byte. *)
Definition parse_uuid (raw : bytes) : result bytes :=
  let trimmed := trim raw in
  let compact := List.filter is_hex trimmed in
  if zlen compact =? 32 then
    match hex_decode compact with
    | Some out => Ok out
    | None => other (str "bad tuic uuid " ++ trimmed)
    end
  else if zlen trimmed =? 16 then Ok trimmed
  else other (str "tuic uuid must be16 bytes, got " ++ dec_str (zlen trimmed)).

(** ** Addresses *)

Definition name_too_long {A : Type} : result A := other (str "target name is too long for tuic").

Definition encode_address (host : bytes) (port : Z) : result bytes :=
  match parse_ipv4 host with
  | Some v4 => Ok ([ADDR_V4] ++ v4 ++ to_be 2 port)
  | None =>
      match parse_ipv6 host with
      | Some v6 => Ok ([ADDR_V6] ++ v6 ++ to_be 2 port)
      | None =>
          if 255 <? zlen host then name_too_long
          else Ok ([ADDR_NAME; as_u8 (zlen host)] ++ host ++ to_be 2 port)
      end
  end.

Inductive UdpTarget : Type :=
| UIp (a : SocketAddr)
| UName (name : bytes) (port : Z).

Definition encode_target (target : UdpTarget) : result bytes :=
  match target with
  | UIp addr =>
      match sa_ip addr with
      | V4 o => Ok ([ADDR_V4] ++ o ++ to_be 2 (sa_port addr))
      | V6 o => Ok ([ADDR_V6] ++ o ++ to_be 2 (sa_port addr))
      end
  | UName name port =>
      if 255 <? zlen name then name_too_long
      else Ok ([ADDR_NAME; as_u8 (zlen name)] ++ name ++ to_be 2 port)
  end.

Inductive PeerAddr : Type :=
| PNone
| PIp (a : SocketAddr)
| PName (name : bytes) (port : Z).

(** [u16::from_be_bytes([buf[i], buf[i + 1]])]. *)
Definition u16_at (buf : bytes) (i : Z) : result Z :=
  let! a := idx buf i in let! b := idx buf (i + 1) in Ok (a * 256 + b).

Definition decode_address (buf : bytes) : result (PeerAddr * Z) :=
  match buf with
  | [] => other (str "tuic address truncated")
  | kind :: _ =>
      if kind =? ADDR_NONE then Ok (PNone, 1)
      else if kind =? ADDR_V4 then
        if zlen buf <? 7 then other (str "tuic ipv4 address truncated")
        else let! ip := idx_range buf 1 5 in
             let! port := u16_at buf 5 in
             Ok (PIp (sock_new (V4 ip) port), 7)
      else if kind =? ADDR_V6 then
        if zlen buf <? 19 then other (str "tuic ipv6 address truncated")
        else let! raw := idx_range buf 1 17 in
             let! port := u16_at buf 17 in
             Ok (PIp (sock_new (V6 raw) port), 19)
      else if kind =? ADDR_NAME then
        match zget buf 1 with
        | None => other (str "tuic name address truncated")
        | Some len =>
            if zlen buf <? 4 + len then other (str "tuic name address truncated")
            else let! raw := idx_range buf 2 (2 + len) in
                 let! port := u16_at buf (2 + len) in
                 Ok (PName (from_utf8_lossy raw) port, 4 + len)
        end
      else other (str "unknown tuic address type")
  end.

(** ** Packets *)

Record PacketHead : Type := mkHead {
  ph_packet : Z; ph_total : Z; ph_index : Z; ph_size : Z; ph_address : PeerAddr; ph_consumed : Z }.

Definition parse_packet_head (buf : bytes) : result PacketHead :=
  if zlen buf <? PACKET_HEADER then other (str "tuic packet header truncated")
  else let! v := idx buf 0 in
  if negb (v =? TUIC_VERSION) then other (str "tuic version is not supported")
  else let! c := idx buf 1 in
  if negb (c =? CMD_PACKET) then other (str "unexpected tuic command")
  else let! packet := u16_at buf 4 in
  let! total := idx buf 6 in
  let! index := idx buf 7 in
  let! size := u16_at buf 8 in
  let! rest := idx_range buf PACKET_HEADER (zlen buf) in
  let! '(address, used) := decode_address rest in
  Ok (mkHead packet total index size address (PACKET_HEADER + used)).

Definition build_packet (packet index total : Z) (address payload : bytes) : bytes :=
  [TUIC_VERSION; CMD_PACKET] ++ to_be 2 ASSOC_ID ++ to_be 2 packet ++ [total; index]
  ++ to_be 2 (as_u16 (zlen payload)) ++ address ++ payload.

(** ** Sending UDP *)

(** The [for index in 0..total] loop: the frames handed to the library, up to
    the first it refuses ([dgram_send] answers for the n-th frame). *)
Fixpoint send_fragments (dgram_send : nat -> bool) (count : nat) (index packet total max_first max_rest : Z)
    (address payload : bytes) (offset : Z) : list bytes :=
  match count with
  | O => []
  | S count =>
      let want := Z.min (if index =? 0 then max_first else max_rest) (zlen payload - offset) in
      let frame_address := if index =? 0 then address else [ADDR_NONE] in
      let frame := build_packet packet (as_u8 index) (as_u8 total) frame_address
                     (zdrop offset (ztake (offset + want) payload)) in
      if dgram_send (Z.to_nat index) then
        frame :: send_fragments dgram_send count (index + 1) packet total max_first max_rest address payload (offset + want)
      else []
  end.

(** [writable] is [conn.dgram_max_writable_len()]. *)
Definition send_udp (writable : option Z) (dgram_send : nat -> bool) (packet : Z) (target : UdpTarget)
    (payload : bytes) : list bytes :=
  match encode_target target with
  | Ok address =>
      let budget := Z.min (match writable with Some w => w | None => MAX_DGRAM_PAYLOAD end) MAX_DGRAM_PAYLOAD in
      if budget <=? PACKET_HEADER + zlen address then []
      else
        let max_first := budget - PACKET_HEADER - zlen address in
        if zlen payload <=? max_first then
          if dgram_send 0%nat then [build_packet packet 0 1 address payload] else []
        else
          let max_rest := budget - PACKET_HEADER - 1 in
          if max_rest =? 0 then []
          else
            let extra := (Z.max 0 (zlen payload - max_first) + max_rest - 1) / max_rest in
            let total := 1 + extra in
            if 255 <? total then []
            else send_fragments dgram_send (Z.to_nat total) 0 packet total max_first max_rest address payload 0
  | _ => []
  end.

(** ** Receiving UDP *)

Record FragmentBox : Type := mkBox {
  fb_total : Z; fb_parts : list (option bytes); fb_filled : Z; fb_address : PeerAddr }.

Definition Fragments : Type := gmap (Z * Z) FragmentBox.

Definition join_parts (parts : list (option bytes)) : bytes :=
  concat (map (fun p => match p with Some b => b | None => [] end) parts).

(** One turn of the loop of [pump_datagrams]: what it hands to [deliver]. *)
Definition on_datagram (buf : bytes) (fragments : Fragments)
    : outcome unit (option (PeerAddr * bytes) * Fragments) :=
  let read := zlen buf in
  if (read <? PACKET_HEADER) || negb (bool_decide (zget buf 1 = Some CMD_PACKET)) then Ok (None, fragments)
  else
    match parse_packet_head buf with
    | Err _ => Ok (None, fragments)
    | Panic => Panic
    | OutOfFuel => OutOfFuel
    | Ok head =>
        if read <? ph_consumed head + ph_size head then Ok (None, fragments)
        else
          let! payload := idx_range buf (ph_consumed head) (ph_consumed head + ph_size head) in
          let key := (ASSOC_ID, ph_packet head) in
          if ph_total head <=? 1 then Ok (Some (ph_address head, payload), fragments)
          else if ph_total head <=? ph_index head then Ok (None, fragments)
          else
            let entry :=
              match fragments !! key with
              | Some entry => entry
              | None => mkBox (ph_total head) (replicate (Z.to_nat (ph_total head)) None) 0 PNone
              end in
            let entry :=
              if ph_index head =? 0 then mkBox (fb_total entry) (fb_parts entry) (fb_filled entry) (ph_address head)
              else entry in
            let! part := idx (fb_parts entry) (ph_index head) in
            let entry :=
              match part with
              | None => mkBox (fb_total entry) (<[Z.to_nat (ph_index head) := Some payload]> (fb_parts entry))
                          (fb_filled entry + 1) (fb_address entry)
              | Some _ => entry
              end in
            if fb_filled entry =? fb_total entry then
              Ok (Some (fb_address entry, join_parts (fb_parts entry)), delete key fragments)
            else Ok (None, <[key := entry]> fragments)
    end.

(** [deliver]; [lookup] is the resolver, [None] when it finds nothing. *)
Definition deliver (lookup : bytes -> Z -> option SocketAddr) (udp : option (Chan (SocketAddr * bytes)))
    (address : PeerAddr) (payload : bytes) : option (Chan (SocketAddr * bytes)) :=
  let source :=
    match address with
    | PIp addr => Some addr
    | PName name port => lookup name port
    | PNone => None
    end in
  match source, udp with
  | Some source, Some channel => Some (try_send channel (source, payload)).2
  | _, udp => udp
  end.

(** The loop, on the datagrams the library has queued. *)
Fixpoint pump_datagrams (lookup : bytes -> Z -> option SocketAddr) (dgrams : list bytes)
    (udp : option (Chan (SocketAddr * bytes))) (fragments : Fragments)
    : outcome unit (option (Chan (SocketAddr * bytes)) * Fragments) :=
  match dgrams with
  | [] => Ok (udp, fragments)
  | buf :: dgrams =>
      let! '(out, fragments) := on_datagram buf fragments in
      let udp := match out with Some (address, payload) => deliver lookup udp address payload | None => udp end in
      pump_datagrams lookup dgrams udp fragments
  end.

(** ** TCP relay slots *)

Record TcpSlot : Type := mkSlot {
  to_app : option (Chan bytes); pending : bytes; fin : bool; fin_sent : bool; remote_done : bool }.

(** An answer of the QUIC library. *)
Inductive quic_result (A : Type) : Type :=
| QOk (a : A)
| QDone
| QError.
Arguments QOk {A} a.
Arguments QDone {A}.
Arguments QError {A}.

(** The slot and the CONNECT command [open_stream] puts into it. *)
Definition open_stream (host : bytes) (port : Z) (stream_send : quic_result unit) : result TcpSlot :=
  let! address := encode_address host port in
  match stream_send with
  | QOk _ => Ok (mkSlot (Some (mkChan [] CHANNEL_DEPTH true)) ([TUIC_VERSION; CMD_CONNECT] ++ address) false false false)
  | QDone => Err (Quic (-1))
  | QError => Err (Quic 0)
  end.

(** [pump_outbound] for one stream: [chunks] are what [try_recv] yields before
    it is empty, [gone] whether the application's side is disconnected.  The
    second component is what the stream accepted: bytes, and whether with FIN. *)
Definition pump_out_slot (chunks : list bytes) (gone : bool) (capacity : option Z)
    (stream_send : bytes -> bool -> quic_result Z) (slot : TcpSlot) : TcpSlot * option (bytes * bool) :=
  let pending := pending slot ++ concat chunks in
  let fin := fin slot || gone in
  let slot := mkSlot (to_app slot) pending fin (fin_sent slot) (remote_done slot) in
  if bool_decide (pending = []) && negb (fin && negb (fin_sent slot)) then (slot, None)
  else
    let capacity := match capacity with Some c => c | None => 0 end in
    if (capacity =? 0) && negb (bool_decide (pending = [])) then (slot, None)
    else
      let take_ := Z.min capacity (zlen pending) in
      let last := fin && (take_ =? zlen pending) in
      match stream_send (ztake take_ pending) last with
      | QOk written =>
          (mkSlot (to_app slot) (zdrop written pending) fin (if last then true else fin_sent slot) (remote_done slot),
           Some (ztake written pending, last))
      | QDone => (slot, None)
      | QError => (mkSlot (to_app slot) [] true (fin_sent slot) (remote_done slot), None)
      end.

(** [pump_inbound] for one stream, on the library's answers in turn: bytes
    read and whether they end the stream.  The second component is what the
    application's side is given. *)
Fixpoint pump_in_slot (reads : list (quic_result (bytes * bool))) (slot : TcpSlot) : TcpSlot * list bytes :=
  match reads with
  | [] => (slot, [])
  | r :: reads =>
      if remote_done slot then (slot, [])
      else match to_app slot with
           | None => (slot, [])
           | Some tx =>
               if negb (ch_open tx) then (mkSlot None (pending slot) (fin slot) (fin_sent slot) (remote_done slot), [])
               else if (ch_cap tx <=? length (ch_queue tx))%nat then (slot, [])
               else match r with
                    | QOk (data, ended) =>
                        let given := if 0 <? zlen data then [data] else [] in
                        let tx := mkChan (ch_queue tx ++ given) (ch_cap tx) true in
                        if ended then (mkSlot None (pending slot) (fin slot) (fin_sent slot) true, given)
                        else
                          let '(slot, more) := pump_in_slot reads
                            (mkSlot (Some tx) (pending slot) (fin slot) (fin_sent slot) (remote_done slot)) in
                          (slot, given ++ more)
                    | QDone => (slot, [])
                    | QError => (mkSlot None (pending slot) (fin slot) (fin_sent slot) true, [])
                    end
           end
  end.

(** ** The stream table *)

Record Session : Type := mkSession { slots : gmap Z TcpSlot; next_stream : Z; stream_limit : Z }.

(** The [OpenTcp] command; the second component is the answer to the caller. *)
Definition open_tcp (s : Session) (host : bytes) (port : Z) (stream_send : quic_result unit)
    : Session * result Z :=
  if stream_limit s <=? Z.of_nat (size (slots s)) then (s, other (str "too many open tuic streams"))
  else
    let stream := next_stream s in
    match open_stream host port stream_send with
    | Ok slot => (mkSession (<[stream := slot]> (slots s)) (stream + 4) (stream_limit s), Ok stream)
    | Err e => (s, Err e)
    | Panic => (s, Panic)
    | OutOfFuel => (s, OutOfFuel)
    end.

(** [slots.retain(..)] at the end of a turn. *)
Definition finished (slot : TcpSlot) : bool :=
  remote_done slot && bool_decide (pending slot = []) && fin_sent slot.
Definition retain_slots (s : Session) : Session :=
  mkSession (filter (fun kv => finished kv.2 = false) (slots s)) (next_stream s) (stream_limit s).

(** [write_stream] with its answers in turn: what the stream accepted, bytes
    and whether with FIN, and the result, [None] while there are no answers
    left. *)
Fixpoint write_stream_loop (answers : list (quic_result Z)) (data : bytes) (offset stalled : Z)
    : list (bytes * bool) * option (result unit) :=
  match answers with
  | [] => ([], None)
  | a :: answers =>
      let last := zlen data <=? offset in
      if zlen data <? offset then ([], Some Panic)
      else match a with
      | QOk written =>
          let piece := (ztake written (zdrop offset data), last) in
          if last then ([piece], Some (Ok tt))
          else let '(more, r) := write_stream_loop answers data (offset + written) 0 in (piece :: more, r)
      | QDone =>
          if 32 <? stalled + 1 then ([], Some (other (str "tuic stream never became writable")))
          else write_stream_loop answers data offset (stalled + 1)
      | QError => ([], Some (Err (Quic 0)))
      end
  end.
Definition write_stream (answers : list (quic_result Z)) (data : bytes) (fin : bool)
    : list (bytes * bool) * option (result unit) :=
  if negb fin then ([], Some (Ok tt)) else write_stream_loop answers data 0 0.

(** ** UDP from the application *)

(** A datagram of the application with what the library answers for it. *)
Record AppDatagram : Type := mkAppDgram {
  ad_target : UdpTarget; ad_payload : bytes; ad_writable : option Z; ad_send : nat -> bool }.

(** The [try_recv] loop of [pump_from_app]: the frames sent, and [next_packet]. *)
Fixpoint pump_app_loop (queued : list AppDatagram) (next_packet : Z) : list bytes * Z :=
  match queued with
  | [] => ([], next_packet)
  | d :: queued =>
      let frames := send_udp (ad_writable d) (ad_send d) next_packet (ad_target d) (ad_payload d) in
      let '(more, next_packet) := pump_app_loop queued ((next_packet + 1) mod 65536) in
      (frames ++ more, next_packet)
  end.

Definition dissociate_frame : bytes := [TUIC_VERSION; CMD_DISSOCIATE] ++ to_be 2 ASSOC_ID.

(** [pump_from_app]: [gone] says that the application's side is disconnected,
    [answers] are the library's to the DISSOCIATE command.  The result is the
    channel, the frames sent, [next_packet], [next_uni] and what the stream
    [next_uni] accepted of the command. *)
Definition pump_from_app (udp : option (Chan (SocketAddr * bytes))) (queued : list AppDatagram) (gone : bool)
    (answers : list (quic_result Z)) (next_packet next_uni : Z)
    : outcome unit (option (Chan (SocketAddr * bytes)) * list bytes * Z * Z * list (Z * (bytes * bool))) :=
  match udp with
  | None => Ok (None, [], next_packet, next_uni, [])
  | Some channel =>
      let '(frames, next_packet) := pump_app_loop queued next_packet in
      if gone then
        let '(accepted, r) := write_stream answers dissociate_frame true in
        let written := map (pair next_uni) accepted in
        match r with
        | Some (Ok _) => Ok (None, frames, next_packet, as_u64 (next_uni + 4), written)
        | Some (Err _) => Ok (None, frames, next_packet, next_uni, written)
        | Some Panic => Panic
        | Some OutOfFuel | None => OutOfFuel
        end
      else Ok (Some channel, frames, next_packet, next_uni, [])
  end.

Definition authenticate_frame (uuid token : bytes) : bytes := [TUIC_VERSION; CMD_AUTHENTICATE] ++ uuid ++ token.

(** ** Addresses round trip *)

(** What a decoder makes of an encoded target. *)
Definition target_addr (t : UdpTarget) : PeerAddr :=
  match t with UIp a => PIp a | UName n p => PName n p end.
Definition target_ok (t : UdpTarget) : Prop :=
  match t with
  | UIp a => ip_ok (sa_ip a) /\ 0 <= sa_port a < 65536 /\ sa_scope a = 0
  | UName n p => zlen n <= 255 /\ utf8_valid n = true /\ 0 <= p < 65536
  end.

Lemma u16_at_mid p v q : 0 <= v < 65536 -> u16_at (p ++ to_be 2 v ++ q) (zlen p) = Ok v.
Proof.
  intros Hv. unfold u16_at, idx. rewrite zget_app_r, Z.sub_diag by lia.
  change (to_be 2 v ++ q) with ((v / 256) mod 256 :: (v / 1) mod 256 :: q).
  change (zget (?a :: _) 0) with (Some a). cbn [obind].
  rewrite zget_app_r by lia. rewrite zget_cons_pos by lia.
  replace (zlen p + 1 - zlen p - 1) with 0 by lia. change (zget (?a :: _) 0) with (Some a). cbn [obind].
  f_equal. rewrite Z.div_1_r. pose proof (Z.div_mod v 256). rewrite (Z.mod_small (v / 256)); [lia|].
  split; [apply Z.div_pos; lia|]. apply Z.div_lt_upper_bound; lia.
Qed.

Lemma decode_fixed kind o port rest n :
  zlen o = n -> 0 <= port < 65536 ->
  (let! ip := idx_range ([kind] ++ o ++ to_be 2 port ++ rest) 1 (1 + n) in
   let! p := u16_at ([kind] ++ o ++ to_be 2 port ++ rest) (1 + n) in @Ok SoildTunnelError _ (ip, p)) = Ok (o, port).
Proof.
  intros Ho Hp. unfold idx_range. rewrite (get_range_mid [kind] o) by (change (zlen [kind]) with 1; lia).
  cbn [obind]. rewrite (app_assoc [kind]). replace (1 + n) with (zlen ([kind] ++ o)) by (autorewrite with slices; lia).
  by rewrite u16_at_mid.
Qed.

Lemma decode_v4 o port rest :
  zlen o = 4 -> 0 <= port < 65536 ->
  decode_address ([ADDR_V4] ++ o ++ to_be 2 port ++ rest) = Ok (PIp (sock_new (V4 o) port), 7).
Proof.
  intros Ho Hp. pose proof (decode_fixed ADDR_V4 o port rest 4 Ho Hp) as Hd. pose proof (zlen_nonneg rest).
  apply obind_Ok in Hd as (ip & Hip & Hd). apply obind_Ok in Hd as (p & Hp' & Hd). injection Hd as -> ->.
  set (buf := [ADDR_V4] ++ _) in *. assert (zlen buf = 7 + zlen rest) as Hl by (unfold buf; autorewrite with slices; lia).
  transitivity (if zlen buf <? 7 then @other (PeerAddr * Z) (str "tuic ipv4 address truncated")
    else let! ip := idx_range buf 1 5 in let! port := u16_at buf 5 in Ok (PIp (sock_new (V4 ip) port), 7)); [done|].
  replace (_ <? 7) with false by lia. change (1 + 4) with 5 in *. rewrite Hip. cbn [obind]. by rewrite Hp'.
Qed.

Lemma decode_v6 o port rest :
  zlen o = 16 -> 0 <= port < 65536 ->
  decode_address ([ADDR_V6] ++ o ++ to_be 2 port ++ rest) = Ok (PIp (sock_new (V6 o) port), 19).
Proof.
  intros Ho Hp. pose proof (decode_fixed ADDR_V6 o port rest 16 Ho Hp) as Hd. pose proof (zlen_nonneg rest).
  apply obind_Ok in Hd as (ip & Hip & Hd). apply obind_Ok in Hd as (p & Hp' & Hd). injection Hd as -> ->.
  set (buf := [ADDR_V6] ++ _) in *. assert (zlen buf = 19 + zlen rest) as Hl by (unfold buf; autorewrite with slices; lia).
  transitivity (if zlen buf <? 19 then @other (PeerAddr * Z) (str "tuic ipv6 address truncated")
    else let! ip := idx_range buf 1 17 in let! port := u16_at buf 17 in Ok (PIp (sock_new (V6 ip) port), 19)); [done|].
  replace (_ <? 19) with false by lia. change (1 + 16) with 17 in *. rewrite Hip. cbn [obind]. by rewrite Hp'.
Qed.

Lemma decode_name name port rest :
  zlen name <= 255 -> utf8_valid name = true -> 0 <= port < 65536 ->
  decode_address ([ADDR_NAME; as_u8 (zlen name)] ++ name ++ to_be 2 port ++ rest) =
  Ok (PName name port, 4 + zlen name).
Proof.
  intros Hl Hu Hp. pose proof (zlen_nonneg rest). pose proof (zlen_nonneg name).
  assert (as_u8 (zlen name) = zlen name) as -> by (unfold as_u8; apply Z.mod_small; lia).
  set (h := [ADDR_NAME; zlen name]). set (buf := h ++ _).
  assert (zlen buf = 4 + zlen name + zlen rest) as Hb by (unfold buf, h; autorewrite with slices; lia).
  transitivity (if zlen buf <? 4 + zlen name then @other (PeerAddr * Z) (str "tuic name address truncated")
    else let! raw := idx_range buf 2 (2 + zlen name) in let! port := u16_at buf (2 + zlen name) in
         Ok (PName (from_utf8_lossy raw) port, 4 + zlen name)); [done|].
  replace (_ <? _) with false by lia. unfold buf, idx_range.
  rewrite (get_range_mid h name) by (change (zlen h) with 2; lia). cbn [obind]. rewrite (app_assoc h).
  replace (2 + zlen name) with (zlen (h ++ name)) by (unfold h; autorewrite with slices; lia).
  rewrite u16_at_mid by done. cbn [obind]. by rewrite from_utf8_lossy_valid.
Qed.

Lemma decode_encode t rest :
  target_ok t -> exists a, encode_target t = Ok a /\ decode_address (a ++ rest) = Ok (target_addr t, zlen a) /\
    4 <= zlen a <= 259.
Proof.
  destruct t as [[[o|o] port scope]|name port]; cbn [target_ok sa_ip sa_port sa_scope ip_ok encode_target target_addr].
  - intros ([Ho _] & Hp & ->). assert (zlen o = 4) as Hz by (unfold zlen; lia). eexists. split; [done|].
    rewrite <- !app_assoc, decode_v4 by done. split; [do 2 f_equal|]; autorewrite with slices; lia.
  - intros ([Ho _] & Hp & ->). assert (zlen o = 16) as Hz by (unfold zlen; lia). eexists. split; [done|].
    rewrite <- !app_assoc, decode_v6 by done. split; [do 2 f_equal|]; autorewrite with slices; lia.
  - intros (Hl & Hu & Hp). replace (255 <? zlen name) with false by lia. eexists. split; [done|].
    pose proof (zlen_nonneg name).
    rewrite <- !app_assoc, decode_name by done. split; [do 2 f_equal|]; autorewrite with slices; lia.
Qed.

(** ** Packets round trip *)

Lemma parse_build packet index total address payload a used :
  0 <= packet < 65536 -> zlen payload < 65536 ->
  decode_address (address ++ payload) = Ok (a, used) -> used = zlen address ->
  parse_packet_head (build_packet packet index total address payload) =
    Ok (mkHead packet total index (zlen payload) a (PACKET_HEADER + zlen address)) /\
  zlen (build_packet packet index total address payload) = PACKET_HEADER + zlen address + zlen payload /\
  zget (build_packet packet index total address payload) 1 = Some CMD_PACKET /\
  idx_range (E := unit) (build_packet packet index total address payload) (PACKET_HEADER + zlen address)
    (PACKET_HEADER + zlen address + zlen payload) = Ok payload.
Proof.
  intros Hpk Hpl Hd ->. pose proof (zlen_nonneg address). pose proof (zlen_nonneg payload).
  unfold build_packet. assert (as_u16 (zlen payload) = zlen payload) as -> by (unfold as_u16; apply Z.mod_small; lia).
  set (h4 := [TUIC_VERSION; CMD_PACKET] ++ to_be 2 ASSOC_ID).
  set (buf := _ ++ _). assert (zlen buf = PACKET_HEADER + zlen address + zlen payload) as Hl
    by (unfold buf, PACKET_HEADER; autorewrite with slices; lia).
  assert (buf = h4 ++ to_be 2 packet ++ [total; index] ++ to_be 2 (zlen payload) ++ address ++ payload) as Hb
    by (unfold buf, h4; by rewrite <- !app_assoc).
  split_and!; [|done|done|].
  - unfold parse_packet_head. replace (_ <? _) with false by (unfold PACKET_HEADER in *; lia).
    change (idx buf 0) with (@Ok SoildTunnelError Z TUIC_VERSION). change (idx buf 1) with (@Ok SoildTunnelError Z CMD_PACKET).
    cbn [obind Z.eqb TUIC_VERSION CMD_PACKET Pos.eqb negb].
    assert (u16_at buf 4 = Ok packet) as -> by (rewrite Hb; by apply (u16_at_mid h4)). cbn [obind].
    assert (idx buf 6 = @Ok SoildTunnelError Z total) as -> by done.
    assert (idx buf 7 = @Ok SoildTunnelError Z index) as -> by done. cbn [obind].
    assert (u16_at buf 8 = Ok (zlen payload)) as ->.
    { rewrite Hb. rewrite (app_assoc h4), (app_assoc (h4 ++ _)). apply (u16_at_mid ((h4 ++ to_be 2 packet) ++ [total; index])). lia. }
    cbn [obind]. unfold idx_range.
    assert (get_range buf PACKET_HEADER (zlen buf) = Some (address ++ payload)) as ->.
    { rewrite Hb. rewrite (app_assoc h4), (app_assoc (h4 ++ _)), (app_assoc ((h4 ++ _) ++ _)).
      apply get_range_suffix; [done|]. rewrite <- zlen_app. done. }
    cbn [obind]. rewrite Hd. done.
  - unfold idx_range. rewrite Hb. rewrite (app_assoc h4), (app_assoc (h4 ++ _)), (app_assoc ((h4 ++ _) ++ _)).
    rewrite (app_assoc (((h4 ++ _) ++ _) ++ _)), get_range_suffix; [done| |]; rewrite zlen_app; done.
Qed.

(** ** Reassembly in any order *)

Section Reassembly.
Context (packet : Z) (address : bytes) (target : PeerAddr) (ps : list bytes).
Context (packet_ok : 0 <= packet < 65536).
Context (address_ok : forall rest, decode_address (address ++ rest) = Ok (target, zlen address)).
Context (several : (2 <= length ps)%nat) (few : (length ps <= 255)%nat).
Context (parts_small : Forall (fun p => zlen p < 65536) ps).

Definition total : nat := length ps.
Definition key : Z * Z := (ASSOC_ID, packet).
Definition fragment (i : nat) : bytes :=
  build_packet packet (Z.of_nat i) (Z.of_nat total) (if bool_decide (i = 0%nat) then address else [ADDR_NONE])
    (default [] (ps !! i)).

(** The box once the fragments [seen] have arrived. *)
Definition parts_of (seen : list nat) : list (option bytes) :=
  map (fun i => if bool_decide (i ∈ seen) then ps !! i else None) (seq 0 total).
Definition box_of (seen : list nat) : FragmentBox :=
  mkBox (Z.of_nat total) (parts_of seen) (zlen seen) (if bool_decide (0%nat ∈ seen) then target else PNone).

Lemma parts_of_lookup seen i :
  parts_of seen !! i = if bool_decide (i < total)%nat then Some (if bool_decide (i ∈ seen) then ps !! i else None) else None.
Proof.
  unfold parts_of. rewrite list_lookup_fmap. case_bool_decide.
  - rewrite lookup_seq_lt by done. done.
  - rewrite lookup_seq_ge by lia. done.
Qed.

Lemma parts_of_nil : parts_of [] = replicate total None.
Proof.
  apply list_eq. intros j. rewrite parts_of_lookup. case_bool_decide.
  - rewrite bool_decide_false by apply not_elem_of_nil. by rewrite lookup_replicate_2.
  - symmetry. apply lookup_ge_None_2. rewrite length_replicate. lia.
Qed.

Lemma parts_of_insert seen i p :
  ps !! i = Some p -> <[i := Some p]> (parts_of seen) = parts_of (i :: seen).
Proof.
  intros Hp. assert (i < total)%nat by (by eapply lookup_lt_Some). apply list_eq. intros j.
  rewrite parts_of_lookup. destruct (decide (i = j)) as [<-|Hne].
  - rewrite list_lookup_insert_eq by (unfold parts_of; rewrite length_map, length_seq; done).
    rewrite bool_decide_true by done. rewrite bool_decide_true by set_solver. by rewrite Hp.
  - rewrite list_lookup_insert_ne, parts_of_lookup by done. case_bool_decide; [|done].
    f_equal. destruct (decide (j ∈ seen)); [rewrite !bool_decide_true by set_solver; done|].
    rewrite !bool_decide_false by set_solver. done.
Qed.

Lemma parts_of_all seen : (forall i, (i < total)%nat -> i ∈ seen) -> join_parts (parts_of seen) = concat ps.
Proof.
  intros Hall. unfold join_parts. f_equal. assert (parts_of seen = map Some ps) as ->.
  - apply list_eq. intros j. rewrite parts_of_lookup, list_lookup_fmap. case_bool_decide.
    + rewrite bool_decide_true by auto. destruct (lookup_lt_is_Some_2 ps j) as [p Hp]; [done|]. by rewrite Hp.
    + by rewrite lookup_ge_None_2 by (unfold total in *; lia).
  - rewrite map_map. apply map_id.
Qed.

Lemma fragment_parses i p :
  ps !! i = Some p ->
  let a := if bool_decide (i = 0%nat) then address else [ADDR_NONE] in
  let t := if bool_decide (i = 0%nat) then target else PNone in
  parse_packet_head (fragment i) =
    Ok (mkHead packet (Z.of_nat total) (Z.of_nat i) (zlen p) t (PACKET_HEADER + zlen a)) /\
  zlen (fragment i) = PACKET_HEADER + zlen a + zlen p /\
  zget (fragment i) 1 = Some CMD_PACKET /\
  idx_range (E := unit) (fragment i) (PACKET_HEADER + zlen a) (PACKET_HEADER + zlen a + zlen p) = Ok p.
Proof.
  intros Hp a t. assert (zlen p < 65536) as Hz by (rewrite Forall_lookup in parts_small; by eapply parts_small).
  unfold fragment. rewrite Hp. cbn [default]. apply (parse_build _ _ _ _ _ t (zlen a)); [done|done| |done].
  subst a t. case_bool_decide; [apply address_ok|done].
Qed.

Lemma on_fragment i p seen (fr : Fragments) :
  ps !! i = Some p -> i ∉ seen -> fr !! key = (if bool_decide (seen = []) then None else Some (box_of seen)) ->
  on_datagram (fragment i) fr =
  Ok (if zlen (i :: seen) =? Z.of_nat total
      then (Some (fb_address (box_of (i :: seen)), join_parts (parts_of (i :: seen))), delete key fr)
      else (None, <[key := box_of (i :: seen)]> fr)).
Proof.
  intros Hp Hi Hf. destruct (fragment_parses i p Hp) as (Hh & Hl & Hg & Hr).
  assert (i < total)%nat as Hlt by (by eapply lookup_lt_Some).
  set (a := if bool_decide (i = 0%nat) then address else [ADDR_NONE]) in *.
  pose proof (zlen_nonneg a). pose proof (zlen_nonneg p). unfold on_datagram.
  rewrite Hl, Hg, bool_decide_true by done. replace (_ <? PACKET_HEADER) with false by lia. cbn [orb negb].
  rewrite Hh. cbn [ph_consumed ph_size ph_packet ph_total ph_index ph_address].
  replace (_ <? _) with false by lia. rewrite Hr. cbn [obind]. fold key.
  replace (Z.of_nat total <=? 1) with false by (unfold total; lia). replace (_ <=? Z.of_nat i) with false by lia.
  rewrite Hf. set (entry := match (if bool_decide (seen = []) then _ else _) with Some e => e | None => _ end).
  assert (entry = box_of seen) as ->.
  { unfold entry. destruct seen as [|j seen]; [|done]. simpl. unfold box_of. by rewrite Nat2Z.id, parts_of_nil. }
  assert (fb_parts (box_of seen) = parts_of seen /\ fb_filled (box_of seen) = zlen seen /\ fb_total (box_of seen) = Z.of_nat total)
    as (H1 & H2 & H3) by done.
  set (e2 := if Z.of_nat i =? 0 then _ else _).
  assert (e2 = mkBox (Z.of_nat total) (parts_of seen) (zlen seen) (fb_address (box_of (i :: seen)))) as ->.
  { unfold e2, box_of. cbn [fb_total fb_parts fb_filled fb_address]. destruct (Z.eqb_spec (Z.of_nat i) 0) as [E|E].
    - f_equal. rewrite (bool_decide_true (i = 0%nat)) by lia. rewrite bool_decide_true; [done|].
      apply elem_of_cons. left. lia.
    - f_equal. erewrite bool_decide_ext; [done|]. rewrite elem_of_cons. split; [by right|]. intros [?|?]; [lia|done]. }
  cbn [fb_total fb_parts fb_filled fb_address]. unfold idx, zget. replace (Z.of_nat i <? 0) with false by lia.
  rewrite Nat2Z.id, parts_of_lookup, bool_decide_true, bool_decide_false by done. cbn [obind fb_total fb_parts fb_filled fb_address].
  rewrite (parts_of_insert seen i p Hp), zlen_cons, (Z.add_comm 1).
  destruct (_ =? _); [done|]. do 3 f_equal. unfold box_of. f_equal. rewrite zlen_cons. lia.
Qed.

Lemma pump_fragments lookup udp rest seen (fr : Fragments) :
  rest <> [] -> NoDup (rest ++ seen) -> Forall (fun i => (i < total)%nat) (rest ++ seen) ->
  (length rest + length seen = total)%nat ->
  fr !! key = (if bool_decide (seen = []) then None else Some (box_of seen)) ->
  pump_datagrams lookup (map fragment rest) udp fr = Ok (deliver lookup udp target (concat ps), delete key fr).
Proof.
  revert seen fr. induction rest as [|i rest IH]; intros seen fr Hne Hnd Hall Hlen Hf; [done|].
  cbn [app] in *. apply NoDup_cons in Hnd as [Hi Hnd]. apply Forall_cons_iff in Hall as [Hi' Hall].
  destruct (lookup_lt_is_Some_2 ps i) as [p Hp]; [done|]. cbn [map pump_datagrams].
  rewrite (on_fragment i p seen fr) by (done || (intros ?; apply Hi, elem_of_app; by right)).
  unfold zlen at 1. cbn [length]. destruct rest as [|j rest].
  - cbn [length] in Hlen. replace (_ =? _) with true by lia. cbn [obind map pump_datagrams].
    assert (forall k, (k < total)%nat -> k ∈ i :: seen) as Hin.
    { intros k Hk. destruct (decide (k ∈ i :: seen)) as [?|Hk']; [done|exfalso].
      assert (NoDup (k :: i :: seen)) as Hnd2 by (apply NoDup_cons; split; [done|apply NoDup_cons; split; done]).
      assert (k :: i :: seen ⊆+ seq 0 total) as Hsub%submseteq_length.
      { apply NoDup_submseteq; [done|]. intros x Hx. apply elem_of_seq.
        apply elem_of_cons in Hx as [-> |[-> |Hx]%elem_of_cons]; [lia|lia|].
        rewrite Forall_forall in Hall. specialize (Hall x Hx). lia. }
      rewrite length_seq in Hsub. cbn [length] in *. lia. }
    rewrite parts_of_all by done. unfold box_of at 1. cbn [fb_address]. rewrite bool_decide_true; [done|]. apply Hin. lia.
  - cbn [length] in *. replace (_ =? _) with false by lia. cbn [obind].
    rewrite (IH (i :: seen)); [|done| | |cbn [length]; lia|etrans; [apply lookup_insert_eq|done]].
    { do 2 f_equal. apply delete_insert_eq. }
    + rewrite <- (Permutation_middle (j :: rest) seen i). apply NoDup_cons. done.
    + rewrite <- (Permutation_middle (j :: rest) seen i). by constructor.
Qed.

End Reassembly.

(** ** Cutting a payload *)

Section Cutting.
Context (packet total_ max_first max_rest : Z) (address payload : bytes).
Context (first_ok : 0 < max_first < 65536) (rest_ok : 0 < max_rest < 65536) (total_ok : total_ <= 255).

Definition capacity (count : nat) (index : Z) : Z :=
  if index =? 0 then (if (count =? 0)%nat then 0 else max_first + (Z.of_nat count - 1) * max_rest)
  else Z.of_nat count * max_rest.

Lemma send_fragments_cut count index offset :
  0 <= index -> index + Z.of_nat count = total_ -> 0 <= offset <= zlen payload ->
  zlen payload - offset <= capacity count index ->
  exists parts, length parts = count /\ concat parts = zdrop offset payload /\
    Forall (fun p => zlen p < 65536) parts /\
    send_fragments (fun _ => true) count index packet total_ max_first max_rest address payload offset =
    map (fun k => build_packet packet (index + Z.of_nat k) total_
           (if index + Z.of_nat k =? 0 then address else [ADDR_NONE]) (default [] (parts !! k))) (seq 0 count).
Proof.
  revert index offset. induction count as [|count IH]; intros index offset Hi Ht Ho Hc.
  - exists []. split_and!; [done| |constructor|done]. unfold capacity in Hc. symmetry. apply zdrop_all.
    destruct (index =? 0); simpl in Hc; lia.
  - cbn [send_fragments]. set (want := Z.min _ _).
    assert (0 <= want < 65536 /\ offset + want <= zlen payload) as [Hw Hw2]
      by (unfold want; destruct (index =? 0); lia).
    destruct (IH (index + 1) (offset + want)) as (parts & Hl & Hcat & Hs & Hf); [lia|lia|lia| |].
    { unfold capacity in *. replace (index + 1 =? 0) with false by lia. unfold want.
      destruct (index =? 0) eqn:E; cbn [Nat.eqb] in Hc; nia. }
    set (p := zdrop offset (ztake (offset + want) payload)).
    exists (p :: parts). split_and!.
    + simpl. lia.
    + cbn [concat]. rewrite Hcat. unfold p, zdrop, ztake.
      rewrite <- (take_drop (Z.to_nat (offset + want)) payload) at 3.
      rewrite drop_app_le; [done|]. rewrite length_take. unfold zlen in *. lia.
    + constructor; [|done]. unfold p. rewrite zlen_zdrop, zlen_ztake. lia.
    + rewrite Hf. cbn [seq map]. rewrite <- seq_shift, map_map. f_equal.
      * f_equal; [|unfold as_u8; apply Z.mod_small; lia|]; [unfold as_u8; rewrite Z.mod_small by lia; lia|].
        rewrite Z.add_0_r. done.
      * apply map_ext. intros k. cbn [lookup list_lookup].
        replace (index + 1 + Z.of_nat k) with (index + Z.of_nat (S k)) by lia. done.
Qed.

End Cutting.

(** ** Properties *)

(** An address survives the wire: what the relay encodes for a UDP target
    is decoded as that target, whatever follows it, and the decoder returns on
    every input. *)
Theorem tuic_address_roundtrip (t : UdpTarget) (rest : bytes) :
  target_ok t -> bytes_ok rest ->
  (exists a, encode_target t = Ok a /\ decode_address (a ++ rest) = Ok (target_addr t, zlen a)) /\
  returns (decode_address rest).
Proof.
  intros Ht Hb. split.
  - destruct (decode_encode t rest Ht) as (a & ? & ? & _). by exists a.
  - unfold decode_address. destruct rest as [|k rest]; [done|]. set (buf := k :: rest) in *.
    assert (forall i, 0 <= i -> i + 2 <= zlen buf -> returns (u16_at buf i)) as Hu.
    { intros i Hi Hl. unfold u16_at. apply returns_bind; [apply idx_returns; lia|]. intros.
      apply returns_bind; [apply idx_returns; lia|done]. }
    destruct (k =? ADDR_NONE); [done|]. destruct (k =? ADDR_V4); [|destruct (k =? ADDR_V6)].
    1-2: case_match; [done|]; apply returns_bind; [apply idx_range_returns; lia|]; intros;
         apply returns_bind; [apply Hu; lia|done].
    destruct (k =? ADDR_NAME); [|done]. destruct (zget buf 1) as [len|] eqn:Hg; [|done].
    pose proof (zget_ok _ _ _ Hb Hg) as Hlen. unfold is_u8 in Hlen. destruct (_ <? _) eqn:E; [done|].
    apply returns_bind; [apply idx_range_returns; lia|]. intros. apply returns_bind; [apply Hu; lia|done].
Qed.

Lemma tuic_address_roundtrip_witness :
  (exists a, encode_target (UName (str "example.org") 443) = Ok a /\
     decode_address (a ++ [1; 2]) = Ok (target_addr (UName (str "example.org") 443), zlen a)) /\
  returns (decode_address [1; 2]).
Proof.
  apply (tuic_address_roundtrip (UName (str "example.org") 443) [1; 2]).
  - split_and!; vm_compute; congruence.
  - repeat constructor; vm_compute; congruence.
Defined.

(** A payload in one datagram is delivered at once. *)
Lemma pump_whole packet a payload target lookup udp fr :
  0 <= packet < 65536 -> zlen payload < 65536 -> (forall rest, decode_address (a ++ rest) = Ok (target, zlen a)) ->
  pump_datagrams lookup [build_packet packet 0 1 a payload] udp fr = Ok (deliver lookup udp target payload, fr).
Proof.
  intros Hpk Hp Hdec. cbn [pump_datagrams]. pose proof (zlen_nonneg payload). pose proof (zlen_nonneg a).
  destruct (parse_build packet 0 1 a payload target (zlen a)) as (Hh & Hl & Hg & Hr); [lia|lia|apply Hdec|done|].
  unfold on_datagram. rewrite Hl, Hg, bool_decide_true, Hh by done. unfold PACKET_HEADER in *.
  replace (_ <? 10) with false by lia. cbn [orb negb ph_consumed ph_size ph_packet ph_total ph_index ph_address].
  replace (_ <? _) with false by lia. rewrite Hr. done.
Qed.

(** [n.div_ceil(m)] pieces of length [m] are enough for [n] bytes. *)
Lemma div_ceil_enough n m : 0 < m -> 0 < n -> n <= (n + m - 1) / m * m /\ 1 <= (n + m - 1) / m.
Proof.
  intros Hm Hn. pose proof (Z.div_mod (n + m - 1) m ltac:(lia)). pose proof (Z.mod_pos_bound (n + m - 1) m Hm).
  split; [nia|]. apply Z.div_le_lower_bound; lia.
Qed.

(** C12: a UDP payload that the relay sends, in one QUIC datagram or cut into up
    to 255 of them, is delivered once, whole, and with its address, in whatever
    order the datagrams arrive, and leaves nothing behind in the fragment
    table. *)
Theorem tuic_udp_any_order (writable : option Z) (packet : Z) (t : UdpTarget) (payload : bytes)
    (arrived : list bytes) (lookup : bytes -> Z -> option SocketAddr)
    (udp : option (Chan (SocketAddr * bytes))) (fr : Fragments) :
  target_ok t -> 0 <= packet < 65536 -> fr !! (ASSOC_ID, packet) = None ->
  arrived ≡ₚ send_udp writable (fun _ => true) packet t payload -> arrived <> [] ->
  pump_datagrams lookup arrived udp fr = Ok (deliver lookup udp (target_addr t) payload, fr).
Proof.
  intros Ht Hpk Hfr Harr Hne. destruct (decode_encode t [] Ht) as (a & Ha & _ & Hla).
  assert (forall rest, decode_address (a ++ rest) = Ok (target_addr t, zlen a)) as Hdec.
  { intros rest. destruct (decode_encode t rest Ht) as (a' & Ha' & Hd & _). congruence. }
  unfold send_udp in Harr. rewrite Ha in Harr.
  set (budget := Z.min _ MAX_DGRAM_PAYLOAD) in *. unfold MAX_DGRAM_PAYLOAD in *.
  pose proof (zlen_nonneg payload).
  destruct (budget <=? _) eqn:Hb; [apply Permutation_nil_r in Harr; done|]. unfold PACKET_HEADER in *.
  destruct (zlen payload <=? _) eqn:Hp.
  - apply Permutation_singleton_r in Harr as ->. apply pump_whole; [done|lia|apply Hdec].
  - destruct (_ =? 0) eqn:Hr0; [apply Permutation_nil_r in Harr; done|].
    set (mf := budget - 10 - zlen a) in *. set (mr := budget - 10 - 1) in *.
    set (total_ := 1 + _) in *. destruct (255 <? total_) eqn:H255; [apply Permutation_nil_r in Harr; done|].
    assert (0 < mf < 65536 /\ 0 < mr < 65536) as [Hmf Hmr] by lia.
    assert (zlen payload - mf <= (total_ - 1) * mr /\ 1 <= total_ - 1) as [Htot Htot1].
    { unfold total_. rewrite Z.max_r by lia. pose proof (div_ceil_enough (zlen payload - mf) mr ltac:(lia) ltac:(lia)). lia. }
    destruct (send_fragments_cut packet total_ mf mr a payload ltac:(lia) ltac:(lia) ltac:(lia) (Z.to_nat total_) 0 0)
      as (parts & Hlen & Hcat & Hsmall & Hs); [lia|lia|lia| |].
    { unfold capacity. replace (Z.to_nat total_ =? 0)%nat with false by (symmetry; apply Nat.eqb_neq; lia). simpl. lia. }
    rewrite Hs in Harr.
    assert (arrived ≡ₚ map (fragment packet a parts) (seq 0 (Z.to_nat total_))) as Harr2.
    { rewrite Harr. erewrite map_ext; [done|]. intros k. unfold fragment, total. rewrite Hlen.
      replace (Z.of_nat (Z.to_nat total_)) with total_ by lia. rewrite Z.add_0_l.
      f_equal. destruct (Z.eqb_spec (Z.of_nat k) 0); [by rewrite bool_decide_true by lia|by rewrite bool_decide_false by lia]. }
    apply Permutation_map_inv in Harr2 as (order & -> & Hord).
    rewrite (pump_fragments packet a (target_addr t) parts) with (seen := []).
    + rewrite Hcat, zdrop_nonpos by lia. do 2 f_equal. apply delete_id. exact Hfr.
    + done.
    + apply Hdec.
    + lia.
    + lia.
    + done.
    + intros ->. done.
    + rewrite app_nil_r, <- Hord. apply NoDup_seq.
    + rewrite app_nil_r, <- Hord. apply Forall_forall. intros k Hk%elem_of_seq. unfold total. lia.
    + rewrite <- (Permutation_length Hord), length_seq. unfold total. simpl. lia.
    + exact Hfr.
Qed.

Definition sample_target : UdpTarget := UIp (sock_new (V4 [192; 0; 2; 9]) 53).

Lemma tuic_udp_any_order_witness :
  let frames := send_udp (Some 25) (fun _ => true) 7 sample_target (map Z.of_nat (seq 0 30)) in
  length frames = 3%nat /\
  pump_datagrams (fun _ _ => None) (rev frames) (Some (mkChan [] 4 true)) ∅ =
  Ok (Some (mkChan [(sock_new (V4 [192; 0; 2; 9]) 53, map Z.of_nat (seq 0 30))] 4 true), ∅).
Proof.
  intros frames. split; [vm_compute; reflexivity|].
  apply (tuic_udp_any_order (Some 25) 7 sample_target (map Z.of_nat (seq 0 30)) (rev frames)
    (fun _ _ => None) (Some (mkChan [] 4 true)) ∅).
  - split_and!; try (vm_compute; congruence). repeat constructor; vm_compute; congruence.
  - lia.
  - reflexivity.
  - symmetry. apply Permutation_rev.
  - vm_compute. congruence.
Defined.

(** C40: two fragments with the same packet number that disagree on how many
    there are bring the receive loop down: when the second one's index is
    outside the table made for the first, the index into it is out of range and
    the task panics, for every pair of counts with [t1 <= i < t2]. *)
Theorem fragment_count_mismatch_panics (packet t1 t2 i : Z) (p1 p2 : bytes)
    (lookup : bytes -> Z -> option SocketAddr) (udp : option (Chan (SocketAddr * bytes))) (fr : Fragments) :
  0 <= packet < 65536 -> 2 <= t1 -> t1 <= i -> i < t2 -> t2 <= 255 -> zlen p1 < 65536 -> zlen p2 < 65536 ->
  fr !! (ASSOC_ID, packet) = None ->
  pump_datagrams lookup [build_packet packet 1 t1 [ADDR_NONE] p1; build_packet packet i t2 [ADDR_NONE] p2] udp fr = Panic.
Proof.
  intros Hpk Ht1 Hi Ht2 H255 H1 H2 Hfr. pose proof (zlen_nonneg p1). pose proof (zlen_nonneg p2).
  cbn [pump_datagrams].
  destruct (parse_build packet 1 t1 [ADDR_NONE] p1 PNone 1) as (Hh1 & Hl1 & Hg1 & Hr1); [lia|lia|done|done|].
  destruct (parse_build packet i t2 [ADDR_NONE] p2 PNone 1) as (Hh2 & Hl2 & Hg2 & Hr2); [lia|lia|done|done|].
  change (zlen [ADDR_NONE]) with 1 in *. unfold PACKET_HEADER in *.
  set (box := mkBox t1 (<[1%nat := Some p1]> (replicate (Z.to_nat t1) None)) 1 PNone).
  assert (on_datagram (build_packet packet 1 t1 [ADDR_NONE] p1) fr = Ok (None, <[(ASSOC_ID, packet) := box]> fr)) as ->.
  { unfold on_datagram, PACKET_HEADER. rewrite Hl1, Hg1, bool_decide_true, Hh1 by done.
    replace (_ <? 10) with false by lia. cbn [orb negb ph_consumed ph_size ph_packet ph_total ph_index ph_address].
    replace (_ <? _) with false by lia. rewrite Hr1. cbn [obind].
    replace (t1 <=? 1) with false by lia. rewrite Hfr. cbn [fb_total fb_parts fb_filled fb_address Z.eqb].
    unfold idx, zget. cbn [Z.ltb Z.compare]. change (Z.to_nat 1) with 1%nat.
    rewrite lookup_replicate_2 by lia. cbn [obind fb_total fb_parts fb_filled fb_address].
    replace (0 + 1 =? t1) with false by lia. done. }
  cbn [obind]. unfold on_datagram, PACKET_HEADER. rewrite Hl2, Hg2, bool_decide_true, Hh2 by done.
  replace (_ <? 10) with false by lia. cbn [orb negb ph_consumed ph_size ph_packet ph_total ph_index ph_address].
  replace (_ <? _) with false by lia. rewrite Hr2. cbn [obind].
  replace (t2 <=? 1) with false by lia. replace (t2 <=? i) with false by lia.
  assert (<[(ASSOC_ID, packet) := box]> fr !! (ASSOC_ID, packet) = Some box) as -> by apply lookup_insert_eq.
  replace (i =? 0) with false by lia. unfold idx.
  assert (zget (fb_parts box) i = None) as ->; [|done].
  apply zget_None. right. unfold box, zlen. cbn [fb_parts]. rewrite length_insert, length_replicate. lia.
Qed.

Lemma fragment_count_mismatch_panics_witness :
  pump_datagrams (fun _ _ => None)
    [build_packet 3 1 2 [ADDR_NONE] [1]; build_packet 3 4 5 [ADDR_NONE] [2]] (Some (mkChan [] 4 true)) ∅ = Panic.
Proof.
  apply (fragment_count_mismatch_panics 3 2 5 4 [1] [2]); try lia; try reflexivity; vm_compute; reflexivity.
Defined.

(** ** The TCP relay *)

(** What is documented of [stream_send] on a stream with room for the data: it
    takes the data whole when it is asked to end the stream, and a prefix of it
    otherwise. *)
Definition send_contract (stream_send : bytes -> bool -> quic_result Z) : Prop :=
  forall data last written, stream_send data last = QOk written ->
    0 <= written <= zlen data /\ (last = true -> written = zlen data).

(** The slot after any number of pumps that met no stream error: what the
    application sent, whether its side is gone, and what the stream took. *)
Inductive relay (head : bytes) : TcpSlot -> list bytes -> bool -> list (bytes * bool) -> Prop :=
| relay_open tx : relay head (mkSlot tx head false false false) [] false []
| relay_pump slot app gone wire chunks gone' capacity stream_send :
    relay head slot app gone wire -> send_contract stream_send ->
    (forall d l, stream_send d l <> QError) -> (gone = true -> chunks = [] /\ gone' = true) ->
    (forall c, capacity = Some c -> 0 <= c) ->
    let r := pump_out_slot chunks gone' capacity stream_send slot in
    relay head r.1 (app ++ chunks) gone' (wire ++ match r.2 with Some w => [w] | None => [] end)
| relay_read slot app gone wire reads :
    relay head slot app gone wire -> relay head (pump_in_slot reads slot).1 app gone wire.

Record relay_inv (head : bytes) (slot : TcpSlot) (app : list bytes) (gone : bool) (wire : list (bytes * bool)) : Prop := {
  ri_bytes : concat (map fst wire) ++ pending slot = head ++ concat app;
  ri_fin : fin slot = gone;
  ri_sent : fin_sent slot = true -> pending slot = [] /\ gone = true;
  ri_count : zlen (List.filter snd wire) = if fin_sent slot then 1 else 0 }.

Lemma pump_in_keeps reads slot :
  pending (pump_in_slot reads slot).1 = pending slot /\ fin (pump_in_slot reads slot).1 = fin slot /\
  fin_sent (pump_in_slot reads slot).1 = fin_sent slot.
Proof.
  revert slot. induction reads as [|r reads IH]; intros slot; simpl; [done|].
  destruct (remote_done slot); [done|]. destruct (to_app slot) as [tx|]; [|done].
  destruct (negb (ch_open tx)); [done|]. destruct (_ <=? _)%nat; [done|].
  destruct r as [[data []]| |]; try done.
  match goal with |- context [pump_in_slot reads ?s] => specialize (IH s); destruct (pump_in_slot reads s) end. done.
Qed.

Lemma relay_holds head slot app gone wire : relay head slot app gone wire -> relay_inv head slot app gone wire.
Proof.
  induction 1 as [tx|slot app gone wire chunks gone' capacity stream_send Hr [Hb Hf Hs Hc] Hcon Hne Hg Hcap r
    |slot app gone wire reads Hr [Hb Hf Hs Hc]].
  - constructor; simpl; by rewrite ?app_nil_r.
  - subst r. unfold pump_out_slot. set (p := pending slot ++ concat chunks).
    assert (concat (map fst wire) ++ p = head ++ concat (app ++ chunks)) as Hb'
      by (unfold p; by rewrite concat_app, !app_assoc, Hb).
    assert (fin slot || gone' = gone') as ->.
    { rewrite Hf. destruct gone; [|done]. by destruct (Hg eq_refl) as [_ ->]. }
    assert (fin_sent slot = true -> p = [] /\ gone' = true) as Hs'.
    { intros E. destruct (Hs E) as [Hp Hgo]. destruct (Hg Hgo) as [-> ->]. unfold p. by rewrite Hp. }
    cbn [fin_sent]. destruct (bool_decide (p = []) && negb (gone' && negb (fin_sent slot))) eqn:E1.
    { constructor; cbn [fst snd pending fin fin_sent]; rewrite ?app_nil_r; auto. }
    destruct (_ && negb (bool_decide (p = []))) eqn:E2.
    { constructor; cbn [fst snd pending fin fin_sent]; rewrite ?app_nil_r; auto. }
    set (tk := Z.min _ (zlen p)). pose proof (zlen_nonneg p).
    assert (0 <= tk <= zlen p) as Htk by (unfold tk; destruct capacity as [c|]; [specialize (Hcap c eq_refl)|]; lia).
    assert (fin_sent slot = false) as Hns.
    { destruct (fin_sent slot) eqn:E; [|done]. destruct (Hs' eq_refl) as [Hp Hgo]. rewrite Hp, Hgo in E1. done. }
    destruct (stream_send _ _) as [written| |] eqn:Es; [|by constructor; cbn [fst snd pending fin fin_sent]; rewrite ?app_nil_r; auto|by apply Hne in Es].
    destruct (Hcon _ _ _ Es) as [Hw Hlast]. rewrite zlen_ztake in Hw, Hlast.
    constructor; cbn [fst snd pending fin fin_sent].
    + rewrite map_app, concat_app. cbn [map concat fst]. rewrite app_nil_r, <- app_assoc, ztake_zdrop. done.
    + done.
    + destruct (gone' && (tk =? zlen p)) eqn:El; [|by rewrite Hns].
      intros _. apply andb_prop in El as [-> El%Z.eqb_eq]. split; [|done].
      apply zdrop_all. specialize (Hlast eq_refl). lia.
    + rewrite List.filter_app, zlen_app, Hc, Hns. cbn [List.filter snd]. by destruct (gone' && (tk =? zlen p)).
  - destruct (pump_in_keeps reads slot) as (H1 & H2 & H3). constructor; rewrite ?H1, ?H2, ?H3; done.
Qed.

(** What the relay puts on a TUIC stream is the CONNECT command and then
    the bytes the application sent, in order and without loss or repetition;
    the stream is ended at most once, only after the application's side is gone
    and every byte of it is on the stream. *)
Theorem tuic_stream_intact (head : bytes) (slot : TcpSlot) (app : list bytes) (gone : bool) (wire : list (bytes * bool)) :
  relay head slot app gone wire ->
  concat (map fst wire) ++ pending slot = head ++ concat app /\
  zlen (List.filter snd wire) = (if fin_sent slot then 1 else 0) /\
  (fin_sent slot = true -> gone = true /\ concat (map fst wire) = head ++ concat app).
Proof.
  intros [Hb Hf Hs Hc]%relay_holds. split_and!; [done|done|]. intros E. destruct (Hs E) as [Hp Hg].
  split; [done|]. by rewrite <- Hb, Hp, app_nil_r.
Qed.

Definition take_four (data : bytes) (last : bool) : quic_result Z :=
  if last then QOk (zlen data) else QOk (Z.min 4 (zlen data)).

Lemma take_four_contract : send_contract take_four.
Proof.
  intros data last written. unfold take_four. pose proof (zlen_nonneg data).
  destruct last; intros [= <-]; split; try done; lia.
Qed.

Lemma tuic_stream_intact_witness :
  let s0 := mkSlot None [5; 1] false false false in
  let r1 := pump_out_slot [[1; 2]; [3]] false (Some 8) take_four s0 in
  let r2 := pump_out_slot [[4]] true (Some 8) take_four r1.1 in
  concat (map fst ([] ++ match r1.2 with Some w => [w] | None => [] end ++ match r2.2 with Some w => [w] | None => [] end))
    ++ pending r2.1 = [5; 1] ++ concat ([] ++ [[1; 2]; [3]] ++ [[4]]).
Proof.
  intros s0 r1 r2. rewrite !app_assoc.
  apply (tuic_stream_intact [5; 1] r2.1 (([] ++ [[1; 2]; [3]]) ++ [[4]]) true).
  assert (forall d l, take_four d l <> QError) as Hne by (intros d []; unfold take_four; congruence).
  apply (relay_pump [5; 1] r1.1 ([] ++ [[1; 2]; [3]]) false _ [[4]] true (Some 8) take_four);
    [|apply take_four_contract|exact Hne|discriminate|intros ? [= <-]; lia].
  apply (relay_pump [5; 1] s0 [] false [] [[1; 2]; [3]] false (Some 8) take_four);
    [apply relay_open|apply take_four_contract|exact Hne|discriminate|intros ? [= <-]; lia].
Defined.

(** ** Streams the application has left *)

(** A turn of the session for one slot. *)
Inductive slot_turn : TcpSlot -> TcpSlot -> Prop :=
| turn_out slot chunks gone capacity stream_send :
    slot_turn slot (pump_out_slot chunks gone capacity stream_send slot).1
| turn_in slot reads : slot_turn slot (pump_in_slot reads slot).1.

(** A turn for all of them, ending with the removal of the finished ones. *)
Definition session_turn (s s' : Session) : Prop :=
  exists f : Z -> TcpSlot -> TcpSlot,
    (forall k slot, slots s !! k = Some slot -> rtc slot_turn slot (f k slot)) /\
    s' = retain_slots (mkSession (map_imap (fun k slot => Some (f k slot)) (slots s)) (next_stream s) (stream_limit s)).

(** The application has dropped its receiver while the remote side has not
    ended the stream. *)
Definition abandoned (slot : TcpSlot) : Prop :=
  remote_done slot = false /\ match to_app slot with None => True | Some tx => ch_open tx = false end.

Lemma slot_turn_abandoned slot slot' : slot_turn slot slot' -> abandoned slot -> abandoned slot'.
Proof.
  unfold abandoned. destruct 1 as [slot chunks gone capacity stream_send|slot reads]; intros [Hd Ha].
  - unfold pump_out_slot. cbn [to_app remote_done].
    destruct (_ && negb _); [done|]. destruct (_ && negb _); [done|]. by destruct (stream_send _ _).
  - destruct reads as [|r reads]; [done|]. cbn [pump_in_slot]. rewrite Hd.
    destruct (to_app slot) as [tx|] eqn:E; [|by cbn [fst]; rewrite E]. by rewrite Ha.
Qed.

Lemma rtc_abandoned slot slot' : rtc slot_turn slot slot' -> abandoned slot -> abandoned slot'.
Proof. induction 1; [done|]. intros. eauto using slot_turn_abandoned. Qed.

Definition exhausted (s : Session) : Prop :=
  map_Forall (fun _ slot => abandoned slot) (slots s) /\ stream_limit s <= Z.of_nat (size (slots s)).

Lemma session_turn_exhausted s s' : session_turn s s' -> exhausted s -> exhausted s'.
Proof.
  intros (f & Hf & ->) [Ha Hl]. set (m := map_imap (fun k slot => Some (f k slot)) (slots s)).
  assert (map_Forall (fun _ slot => abandoned slot) m) as Hm.
  { intros k slot' E. unfold m in E. rewrite map_lookup_imap in E.
    destruct (slots s !! k) as [slot|] eqn:Ek; simplify_eq/=. eapply rtc_abandoned; [by apply Hf|by eapply Ha]. }
  assert (filter (fun kv : Z * TcpSlot => finished kv.2 = false) m = m) as Hfilter.
  { apply map_filter_id. intros k slot' E. destruct (Hm k slot' E) as [Hd _]. cbn. unfold finished. by rewrite Hd. }
  assert (size m = size (slots s)) as Hsize.
  { rewrite <- !size_dom. f_equal. apply dom_imap_L. intros k. rewrite elem_of_dom. unfold is_Some. naive_solver. }
  unfold exhausted, retain_slots. cbn [slots stream_limit]. rewrite Hfilter. split; [done|]. by rewrite Hsize.
Qed.

(** A stream whose receiver the application has dropped is never removed
    from the table, since its end of stream is no longer read: once as many
    streams are left that way as the session may have, every further
    connection is refused, whatever happens on the streams meanwhile. *)
Theorem abandoned_streams_exhaust_session (s s' : Session) (host : bytes) (port : Z) (answer : quic_result unit) :
  map_Forall (fun _ slot => abandoned slot) (slots s) -> stream_limit s <= Z.of_nat (size (slots s)) ->
  rtc session_turn s s' ->
  open_tcp s' host port answer = (s', other (str "too many open tuic streams")).
Proof.
  intros Ha Hl Hr. assert (exhausted s') as [_ Hl'].
  { assert (exhausted s) as Hs by done. clear Ha Hl. induction Hr; eauto using session_turn_exhausted. }
  unfold open_tcp. by replace (_ <=? _) with true by lia.
Qed.

Lemma abandoned_streams_exhaust_session_witness :
  let left := mkSlot (Some (mkChan [] CHANNEL_DEPTH false)) [] true true false in
  let s := mkSession {[ 0 := left ]} 4 1 in
  open_tcp s (str "example.com") 443 (QOk tt) = (s, other (str "too many open tuic streams")).
Proof.
  intros left s. apply (abandoned_streams_exhaust_session s s).
  - apply map_Forall_singleton. split; reflexivity.
  - vm_compute. congruence.
  - apply rtc_refl.
Defined.
