(* ===== verification/TuicSession.v ===== *)
(** * The TUIC session and its supervisor

    Models run_tuic of outbound.rs, the task behind [Outbound::tuic]: the
    handshake, the authentication, the limits of the server, and the loop over
    commands, packets and timers with the pumps of Tuic; the front that callers
    use; and the loop of run_tuic in lib.rs, which supervises it.  quiche answers
    through arguments; instants are in milliseconds. *)

From Stdlib Require Import ZArith Lia ZifyBool String List.
From stdpp Require Import base list numbers option decidable gmap.
From S2P Require Import Prelude RustStr NetAddr Errors Channels Tuic.
Open Scope Z_scope.

Definition FIRST_CLIENT_UNI : Z := 2.
Definition HANDSHAKE_DEADLINE : Z := 20000.
Definition HEARTBEAT : bytes := [TUIC_VERSION; CMD_HEARTBEAT].

(** ** The handshake *)

Definition tuic_sni (sni host : bytes) : bytes := if is_empty (trim sni) then host else trim sni.

(** What the connection was closed with: its peer's error or its own. *)
Record CloseInfo : Type := mkClose { ci_peer : option (Z * bytes); ci_local : option (Z * bytes) }.
Definition close_reason (hex : Z -> bytes) (c : CloseInfo) : bytes :=
  match ci_peer c, ci_local c with
  | Some (code, reason), _ => str "tuic peer closed with 0x" ++ hex code ++ str ": " ++ from_utf8_lossy reason
  | None, Some (code, reason) => str "tuic closed locally with 0x" ++ hex code ++ str ": " ++ from_utf8_lossy reason
  | None, None => str "tuic connection closed"
  end.

(** A turn of the handshake's loop as its head finds the connection. *)
Record HsTurn : Type := mkHsTurn { ht_established : bool; ht_closed : option CloseInfo; ht_now : Z }.
Fixpoint tuic_handshake (hex : Z -> bytes) (peer : SocketAddr) (deadline : Z) (turns : list HsTurn) : result unit :=
  match turns with
  | [] => OutOfFuel
  | t :: turns =>
      if ht_established t then Ok tt
      else match ht_closed t with
           | Some c => other (close_reason hex c)
           | None =>
               if deadline <=? ht_now t then other (str "tuic handshake with " ++ sock_str peer ++ str " timed out")
               else tuic_handshake hex peer deadline turns
           end
  end.

(** [token]: what the exporter gives for the uuid and the password; [answers]:
    quiche's to the write.  The result is what the first unidirectional stream
    accepted. *)
Definition authenticate (uuid_text password : bytes) (token : bytes -> bytes -> result bytes) (answers : list (quic_result Z))
  : result (list (Z * (bytes * bool))) :=
  let! uuid := parse_uuid uuid_text in
  let! token := token uuid password in
  let '(accepted, r) := write_stream answers (authenticate_frame uuid token) true in
  match r with
  | Some (Ok _) => Ok (map (pair FIRST_CLIENT_UNI) accepted)
  | Some (Err e) => Err e
  | Some Panic => Panic
  | Some OutOfFuel | None => OutOfFuel
  end.

(** What the server's transport parameters allow. *)
Record PeerParams : Type := mkParams { pp_streams : Z; pp_datagram : option Z }.
Definition tuic_stream_limit (p : option PeerParams) : Z := Z.min (default 64 (option_map pp_streams p)) 4096.
Definition datagram_budget (p : option PeerParams) : Z := default 0 (let? p := p in pp_datagram p).

(** ** The loop *)

Record TuicState : Type := mkTuicState {
  tu_session : Session;
  tu_next_uni : Z;
  tu_udp : option (Chan (SocketAddr * bytes));
  tu_fragments : Fragments;
  tu_next_packet : Z;
  tu_wire : list (Z * (bytes * bool));     (* what streams accepted: bytes, and whether with FIN *)
  tu_dgrams : list bytes;                  (* datagrams handed to quiche *)
  tu_replies : list (result Z) }.          (* answers to [OpenTcp] *)

Definition tuic_init (limit : Z) (written : list (Z * (bytes * bool))) : TuicState :=
  mkTuicState (mkSession ∅ 0 limit) (FIRST_CLIENT_UNI + 4) None ∅ 0 written [] [].

Inductive tuic_event : Type :=
| OpenTcp (host : bytes) (port : Z) (answer : quic_result unit)
| OpenUdp
| FrontGone                                (* every sender of commands was dropped *)
| PacketIn | Woken | QuicTimer
| HeartbeatTick (established : bool)
| BusyTick.

(** What the pumps meet for a stream. *)
Record SlotIo : Type := mkSlotIo {
  sl_chunks : list bytes; sl_gone : bool; sl_capacity : option Z; sl_send : bytes -> bool -> quic_result Z;
  sl_reads : list (quic_result (bytes * bool)) }.
Record TuicIo : Type := mkTuicIo {
  ti_slot : Z -> SlotIo; ti_lookup : bytes -> Z -> option SocketAddr; ti_dgrams : list bytes;
  ti_queued : list AppDatagram; ti_gone : bool; ti_dissociate : list (quic_result Z); ti_closed : bool }.

Definition with_session (s : TuicState) (x : Session) : TuicState :=
  mkTuicState x (tu_next_uni s) (tu_udp s) (tu_fragments s) (tu_next_packet s) (tu_wire s) (tu_dgrams s) (tu_replies s).

Definition out_step (io : TuicIo) (id : Z) (slot : TcpSlot) : TcpSlot * option (bytes * bool) :=
  let x := ti_slot io id in pump_out_slot (sl_chunks x) (sl_gone x) (sl_capacity x) (sl_send x) slot.
Definition pump_outbound (io : TuicIo) (s : TuicState) : TuicState :=
  let table := slots (tu_session s) in
  let written := omap (fun kv => option_map (pair kv.1) (out_step io kv.1 kv.2).2) (map_to_list table) in
  mkTuicState (mkSession (map_imap (fun id slot => Some (out_step io id slot).1) table) (next_stream (tu_session s)) (stream_limit (tu_session s)))
    (tu_next_uni s) (tu_udp s) (tu_fragments s) (tu_next_packet s) (tu_wire s ++ written) (tu_dgrams s) (tu_replies s).

Definition pump_inbound (io : TuicIo) (s : TuicState) : TuicState :=
  with_session s
    (mkSession (map_imap (fun id slot => Some (pump_in_slot (sl_reads (ti_slot io id)) slot).1) (slots (tu_session s)))
       (next_stream (tu_session s)) (stream_limit (tu_session s))).

(** The rest of a turn; [true]: the loop ends. *)
Definition tuic_pumps (io : TuicIo) (s : TuicState) : outcome unit (TuicState * bool) :=
  let s := pump_inbound io (pump_outbound io s) in
  let! '(udp, fragments) := pump_datagrams (ti_lookup io) (ti_dgrams io) (tu_udp s) (tu_fragments s) in
  let! '(udp, frames, next_packet, next_uni, written) :=
    pump_from_app udp (ti_queued io) (ti_gone io) (ti_dissociate io) (tu_next_packet s) (tu_next_uni s) in
  Ok (mkTuicState (retain_slots (tu_session s)) next_uni udp fragments next_packet (tu_wire s ++ written)
        (tu_dgrams s ++ frames) (tu_replies s), ti_closed io).

Definition tuic_turn (ev : tuic_event) (io : TuicIo) (s : TuicState) : outcome unit (TuicState * bool) :=
  match ev with
  | OpenTcp host port answer =>
      let full := stream_limit (tu_session s) <=? Z.of_nat (size (slots (tu_session s))) in
      let '(session, reply) := open_tcp (tu_session s) host port answer in
      let s := mkTuicState session (tu_next_uni s) (tu_udp s) (tu_fragments s) (tu_next_packet s) (tu_wire s) (tu_dgrams s)
                 (tu_replies s ++ [reply]) in
      if full then Ok (s, false) else tuic_pumps io s
  | OpenUdp =>
      tuic_pumps io (mkTuicState (tu_session s) (tu_next_uni s) (Some (mkChan [] CHANNEL_DEPTH true)) ∅ (tu_next_packet s)
                       (tu_wire s) (tu_dgrams s) (tu_replies s))
  | FrontGone => Ok (s, true)
  | HeartbeatTick established =>
      tuic_pumps io (mkTuicState (tu_session s) (tu_next_uni s) (tu_udp s) (tu_fragments s) (tu_next_packet s) (tu_wire s)
                       (tu_dgrams s ++ if established then [HEARTBEAT] else []) (tu_replies s))
  | PacketIn | Woken | QuicTimer | BusyTick => tuic_pumps io s
  end.

(** The loop: the state, and [Some] once it has ended. *)
Fixpoint tuic_loop (turns : list (tuic_event * TuicIo)) (s : TuicState) : TuicState * option (outcome unit unit) :=
  match turns with
  | [] => (s, None)
  | (ev, io) :: turns =>
      match tuic_turn ev io s with
      | Ok (s, false) => tuic_loop turns s
      | Ok (s, true) => (s, Some (Ok tt))
      | Err e => (s, Some (Err e))
      | Panic => (s, Some Panic)
      | OutOfFuel => (s, Some OutOfFuel)
      end
  end.

(** What the task meets before its loop: the resolver, the socket and quiche. *)
Record TuicWorld : Type := mkTuicWorld {
  tx_resolve : bytes -> Z -> result SocketAddr; tx_setup : result unit; tx_start : Z; tx_turns : list HsTurn;
  tx_token : bytes -> bytes -> result bytes; tx_auth : list (quic_result Z); tx_params : option PeerParams }.

(** Everything up to the loop: its state, or the error that ends the task. *)
Definition tuic_connect (hex : Z -> bytes) (server uuid password : bytes) (w : TuicWorld) : result TuicState :=
  let! '(host, port) := split_host_port server in
  let! peer := tx_resolve w host port in
  let! _ := tx_setup w in
  let! _ := tuic_handshake hex peer (tx_start w + HANDSHAKE_DEADLINE) (tx_turns w) in
  let! written := authenticate uuid password (tx_token w) (tx_auth w) in
  if datagram_budget (tx_params w) <? PACKET_HEADER + 32
  then other (str "the tuic server does not offer quic datagrams")
  else Ok (tuic_init (tuic_stream_limit (tx_params w)) written).
Definition run_tuic (hex : Z -> bytes) (server uuid password : bytes) (w : TuicWorld) (turns : list (tuic_event * TuicIo))
  : result (TuicState * option (outcome unit unit)) :=
  let! s := tuic_connect hex server uuid password w in
  Ok (tuic_loop turns s).

(** ** The front *)

(** What a caller of [open_tcp] or [open_udp] gets: [sent] is whether the task
    still takes commands. *)
Inductive waited (A : Type) : Type := Replied (r : result A) | Dropped | TimedOutWaiting.
Arguments Replied {A} r.
Arguments Dropped {A}.
Arguments TimedOutWaiting {A}.
Definition wait_for {A : Type} (w : waited A) : result A :=
  match w with
  | Replied r => r
  | Dropped => other (str "tuic tunnel dropped the request")
  | TimedOutWaiting => other (str "tuic tunnel did not answer in time")
  end.
Definition front_open {A : Type} (sent : bool) (w : waited A) : result A :=
  if sent then wait_for w else other (str "tuic tunnel is gone").

(** ** The supervisor *)

(** [run_tuic] of lib.rs waits for the servers it started and for the hint; the
    task of the session is nobody's. *)
Inductive sup_event : Type :=
| SessionEnded (r : result unit)
| ServerEnded (r : option (result unit + bytes))    (* [None]: no task is left; a text: the task failed *)
| SupTick (hint : bool).

Fixpoint supervise (evs : list sup_event) : option (result unit) :=
  match evs with
  | [] => None
  | SessionEnded _ :: evs => supervise evs
  | ServerEnded joined :: _ =>
      Some match joined with
           | Some (inl r) => r
           | Some (inr e) => other (str "tuic task failed: " ++ e)
           | None => Ok tt
           end
  | SupTick hint :: evs => if hint then Some (Err Migrate) else supervise evs
  end.

Inductive sup_act : Type := SupOpened | SupEnded (r : result unit) | SupSleep (ms : Z).
(** A round of the supervisor's loop; [Outbound::tuic] only starts the task, so
    that it always succeeds. *)
Fixpoint supervisor (delay : Z) (rounds : list (list sup_event)) : list sup_act :=
  match rounds with
  | [] => []
  | evs :: rounds =>
      SupOpened :: match supervise evs with
                   | Some r => SupEnded r :: SupSleep delay :: supervisor delay rounds
                   | None => []
                   end
  end.

(** ** The session *)

Definition opened (s : TuicState) : list Z := omap (fun r => match r with Ok id => Some id | _ => None end) (tu_replies s).

(** A part of a message. *)
Definition part_of (part msg : bytes) : Prop := exists before after, msg = before ++ part ++ after.
(** What the loop may write: to the stream of a connection, or a part of
    DISSOCIATE to a unidirectional stream of the client. *)
Definition written_by_loop (opened : list Z) (w : Z * (bytes * bool)) : Prop :=
  w.1 ∈ opened \/ w.1 mod 4 = 2 /\ part_of w.2.1 dissociate_frame.

Record tuic_inv (auth : list (Z * (bytes * bool))) (s : TuicState) : Prop := mkTuicInv {
  tn_next : 0 <= next_stream (tu_session s) /\ next_stream (tu_session s) mod 4 = 0;
  tn_slots : forall id, is_Some (slots (tu_session s) !! id) -> id ∈ opened s;
  tn_limit : Z.of_nat (size (slots (tu_session s))) <= Z.max 0 (stream_limit (tu_session s));
  tn_opened : forall id, id ∈ opened s -> 0 <= id < next_stream (tu_session s) /\ id mod 4 = 0;
  tn_fresh : NoDup (opened s);
  tn_wire : exists more, tu_wire s = auth ++ more /\ Forall (written_by_loop (opened s)) more;
  tn_uni : tu_next_uni s mod 4 = 2;
  tn_packet : 0 <= tu_next_packet s < 65536;
  tn_cap : stream_limit (tu_session s) <= 4096 }.

Lemma tuic_inv_init limit auth : limit <= 4096 -> tuic_inv auth (tuic_init limit auth).
Proof.
  intros Hlimit. split; unfold opened; simpl; try done; try lia.
  - intros id Hs. rewrite lookup_empty in Hs. by destruct Hs.
  - rewrite map_size_empty. lia.
  - intros id Hs. by apply elem_of_nil in Hs.
  - constructor.
  - exists []. by rewrite app_nil_r.
Qed.

(** More is written, or more connections are open. *)
Lemma wire_grows auth wire opened more : (exists rest, wire = auth ++ rest /\ Forall (written_by_loop opened) rest) ->
  Forall (written_by_loop opened) more -> exists rest, wire ++ more = auth ++ rest /\ Forall (written_by_loop opened) rest.
Proof. intros (rest & -> & Hr) Hm. exists (rest ++ more). split; [by rewrite app_assoc|by apply Forall_app]. Qed.
Lemma written_mono l l' w : l ⊆ l' -> written_by_loop l w -> written_by_loop l' w.
Proof. intros Hl [?|?]; [left; set_solver|by right]. Qed.

(** What [write_stream] hands over is made of parts of the message, and when it
    succeeds of all of it. *)
Lemma write_stream_parts answers data fin : Forall (fun w => part_of w.1 data) (write_stream answers data fin).1.
Proof.
  unfold write_stream. destruct (negb fin); [constructor|]. generalize 0 at 1. generalize 0.
  induction answers as [|a answers IH]; intros st off; cbn [write_stream_loop]; [constructor|]. destruct (_ <? off); [constructor|].
  assert (forall n, part_of (ztake n (zdrop off data)) data) as Hp.
  { intros n. exists (ztake off data), (zdrop n (zdrop off data)). by rewrite ztake_zdrop, ztake_zdrop. }
  destruct a as [n| |]; [|destruct (32 <? _); [constructor|apply IH]|constructor].
  destruct (_ <=? off); [constructor; [apply Hp|constructor]|]. specialize (IH 0 (off + n)).
  destruct (write_stream_loop answers data (off + n) 0) as [more r]. constructor; [apply Hp|exact IH].
Qed.
Definition counted (a : quic_result Z) : Prop := match a with QOk n => 0 <= n | _ => True end.
Lemma write_stream_all answers data l : Forall counted answers -> write_stream answers data true = (l, Some (Ok tt)) ->
  concat (map fst l) = data.
Proof.
  intros Ha. unfold write_stream. cbn [negb].
  assert (forall off st, 0 <= off -> write_stream_loop answers data off st = (l, Some (Ok tt)) -> concat (map fst l) = zdrop off data) as H.
  2: { intros E. rewrite (H 0 0 ltac:(lia) E). by apply zdrop_nonpos. }
  revert l. induction Ha as [|a answers Ha _ IH]; intros l off st Ho; cbn [write_stream_loop]; [done|]. destruct (_ <? off) eqn:Eo; [done|].
  destruct a as [n| |]; [|destruct (32 <? _); [done|by apply IH]|done]. simpl in Ha. destruct (_ <=? off) eqn:El.
  - intros [= <-]. simpl. assert (zdrop off data = []) as -> by (apply zdrop_all; lia). unfold ztake. by rewrite take_nil.
  - destruct (write_stream_loop answers data (off + n) 0) as [more r] eqn:E. intros [= <- ->]. simpl. rewrite (IH more (off + n) 0 ltac:(lia) E).
    rewrite <- (ztake_zdrop (zdrop off data) n) at 2. f_equal. unfold zdrop. rewrite drop_drop. f_equal. lia.
Qed.

(** Changes to the table that add no stream. *)
Lemma table_shrinks (f : Z -> TcpSlot -> option TcpSlot) (m : gmap Z TcpSlot) :
  (forall id, is_Some (map_imap f m !! id) -> is_Some (m !! id)) /\ (size (map_imap f m) <= size m)%nat.
Proof.
  assert (dom (map_imap f m) ⊆ dom m) as Hd by apply dom_imap_subseteq. split.
  - intros id Hs. apply elem_of_dom, Hd. by apply elem_of_dom.
  - rewrite <- !size_dom. by apply subseteq_size.
Qed.

Lemma retain_shrinks s :
  (forall id, is_Some (slots (retain_slots s) !! id) -> is_Some (slots s !! id)) /\
  (size (slots (retain_slots s)) <= size (slots s))%nat.
Proof.
  simpl. split.
  - intros id [slot Hs]. apply map_lookup_filter_Some in Hs as [Hs _]. by eexists.
  - apply map_subseteq_size, map_filter_subseteq.
Qed.

Lemma pump_outbound_inv auth io s : tuic_inv auth s -> tuic_inv auth (pump_outbound io s).
Proof.
  intros [Hn Hs Hl Ho Hf Hw Hu Hp Hc]. unfold pump_outbound.
  destruct (table_shrinks (fun id slot => Some (out_step io id slot).1) (slots (tu_session s))) as [Hdom Hsize].
  split; simpl; [done| | |done|done| |done|done|done].
  - intros id Hid. by apply Hs, Hdom.
  - lia.
  - apply wire_grows; [done|]. apply Forall_forall. intros [id w] Hnew. left. simpl.
    apply list_elem_of_omap in Hnew as ([id' slot] & Hin & Heq). apply elem_of_map_to_list in Hin.
    simpl in Heq. destruct (out_step io id' slot).2; [|done]. simpl in Heq. injection Heq as -> _. apply Hs. by eexists.
Qed.

Lemma pump_inbound_inv auth io s : tuic_inv auth s -> tuic_inv auth (pump_inbound io s).
Proof.
  intros [Hn Hs Hl Ho Hf Hw Hu Hp Hc]. unfold pump_inbound.
  destruct (table_shrinks (fun id slot => Some (pump_in_slot (sl_reads (ti_slot io id)) slot).1) (slots (tu_session s))) as [Hdom Hsize].
  split; simpl; [done| | |done|done|done|done|done|done]; [intros id Hid; by apply Hs, Hdom|lia].
Qed.

Lemma pump_app_packet queued : forall n, 0 <= n < 65536 -> 0 <= (pump_app_loop queued n).2 < 65536.
Proof.
  induction queued as [|d queued IH]; intros n Hn; [done|]. cbn [pump_app_loop].
  specialize (IH ((n + 1) mod 65536)). destruct (pump_app_loop queued _) as [more k]. apply IH.
  apply Z.mod_pos_bound. lia.
Qed.

Lemma next_uni_mod n : n mod 4 = 2 -> as_u64 (n + 4) mod 4 = 2.
Proof.
  intros Hn. unfold as_u64. change (2 ^ 64) with 18446744073709551616. Z.div_mod_to_equations. lia.
Qed.

Lemma pump_from_app_kept udp queued gone answers packet uni opened :
  0 <= packet < 65536 -> uni mod 4 = 2 ->
  match pump_from_app udp queued gone answers packet uni with
  | Ok (_, _, packet', uni', written) => 0 <= packet' < 65536 /\ uni' mod 4 = 2 /\ Forall (written_by_loop opened) written
  | _ => True
  end.
Proof.
  intros Hp Hu. unfold pump_from_app. destruct udp as [c|]; [|split_and!; (done || constructor || lia)]. pose proof (pump_app_packet queued packet Hp) as Hq.
  destruct (pump_app_loop queued packet) as [frames k]. simpl in Hq. destruct gone; [|split_and!; (done || constructor || lia)].
  pose proof (write_stream_parts answers dissociate_frame true) as Hparts.
  destruct (write_stream answers dissociate_frame true) as [l r]. simpl in Hparts.
  assert (Forall (written_by_loop opened) (map (pair uni) l)) as Hl.
  { apply Forall_map. eapply Forall_impl; [exact Hparts|]. intros w Hw. right. by split. }
  destruct r as [[]|]; try done; (split; [lia|]); (split; [by first [done|apply next_uni_mod]|exact Hl]).
Qed.

Lemma tuic_pumps_inv auth io s s' b : tuic_inv auth s -> tuic_pumps io s = Ok (s', b) ->
  tuic_inv auth s' /\ tu_replies s' = tu_replies s.
Proof.
  intros Hi Hp. unfold tuic_pumps in Hp.
  assert (tu_replies (pump_inbound io (pump_outbound io s)) = tu_replies s) as Hr by done.
  pose proof (pump_inbound_inv auth io _ (pump_outbound_inv auth io s Hi)) as [Hn Hs Hl Ho Hf Hw Hu Hk Hc].
  set (s1 := pump_inbound io (pump_outbound io s)) in *.
  apply obind_Ok in Hp as ([udp fragments] & _ & Hp).
  pose proof (pump_from_app_kept udp (ti_queued io) (ti_gone io) (ti_dissociate io) _ _ (opened s) Hk Hu) as Hkept.
  apply obind_Ok in Hp as ([[[[udp' frames] packet'] uni'] written] & Ep & Hp). rewrite Ep in Hkept. destruct Hkept as (Hk' & Hu' & Hw').
  injection Hp as <- _. destruct (retain_shrinks (tu_session s1)) as [Hdom Hsize]. split; [|done].
  split; simpl in *; [done| | |done|done|by apply wire_grows|done|done|done]; [intros id Hid; by apply Hs, Hdom|lia].
Qed.

(** The [OpenTcp] command. *)
Lemma open_tcp_inv auth s host port answer :
  tuic_inv auth s -> let '(session, reply) := open_tcp (tu_session s) host port answer in
  tuic_inv auth (mkTuicState session (tu_next_uni s) (tu_udp s) (tu_fragments s) (tu_next_packet s) (tu_wire s) (tu_dgrams s)
              (tu_replies s ++ [reply])).
Proof.
  intros [Hn Hs Hl Ho Hf Hw Hu Hp Hc].
  assert (forall reply, (forall id, reply <> Ok id) -> tuic_inv auth (mkTuicState (tu_session s) (tu_next_uni s) (tu_udp s)
    (tu_fragments s) (tu_next_packet s) (tu_wire s) (tu_dgrams s) (tu_replies s ++ [reply]))) as Hrefused.
  { intros reply Hr. set (s1 := mkTuicState _ _ _ _ _ _ _ _).
    assert (opened s1 = opened s) as Heq
      by (unfold opened, s1; simpl; rewrite omap_app; destruct reply; [by destruct (Hr a)|apply app_nil_r..]).
    by split; rewrite ?Heq. }
  unfold open_tcp. destruct (_ <=? _) eqn:Efull; [by apply Hrefused|].
  destruct (open_stream host port answer) as [slot|e| |]; [|by apply Hrefused..].
  set (s1 := mkTuicState _ _ _ _ _ _ _ _).
  assert (opened s1 = opened s ++ [next_stream (tu_session s)]) as Heq by (unfold opened, s1; simpl; by rewrite omap_app).
  assert (next_stream (tu_session s) ∉ opened s) as Hnew by (intros Hin%Ho; lia).
  split; rewrite ?Heq; unfold s1; simpl; try done.
  - destruct Hn as [H0 Hm]. split; [lia|]. rewrite <- Z.add_mod_idemp_l, Hm by lia. done.
  - intros id Hid. apply elem_of_app. destruct (decide (id = next_stream (tu_session s))) as [->|Hne]; [right; by apply list_elem_of_singleton|].
    rewrite lookup_insert_ne in Hid by done. left. by apply Hs.
  - rewrite map_size_insert_None; [lia|]. apply eq_None_not_Some. by intros Hin%Hs.
  - intros id [Hin|Hin]%elem_of_app; [destruct (Ho id Hin); split; [lia|done]|].
    apply list_elem_of_singleton in Hin as ->. destruct Hn. split; [lia|done].
  - apply NoDup_app. split_and!; [done| |apply NoDup_singleton]. intros id Hin ->%list_elem_of_singleton. done.
  - destruct Hw as (more & -> & Hm). exists more. split; [done|]. eapply Forall_impl; [exact Hm|].
    intros w. apply written_mono. set_solver.
Qed.

Lemma replied_inv auth s replies dgrams udp fragments : tuic_inv auth s -> replies = tu_replies s ->
  tuic_inv auth (mkTuicState (tu_session s) (tu_next_uni s) udp fragments (tu_next_packet s) (tu_wire s) dgrams replies).
Proof. intros [Hn Hs Hl Ho Hf Hw Hu Hp Hc] ->. by split. Qed.

Lemma tuic_turn_inv auth ev io s s' b : tuic_inv auth s -> tuic_turn ev io s = Ok (s', b) ->
  tuic_inv auth s' /\ exists more, tu_replies s' = tu_replies s ++ more.
Proof.
  intros Hi Ht.
  assert (forall s1, tuic_inv auth s1 -> tu_replies s1 = tu_replies s -> tuic_pumps io s1 = Ok (s', b) ->
    tuic_inv auth s' /\ exists more, tu_replies s' = tu_replies s ++ more) as Hpumps.
  { intros s1 H1 Hr [H2 Hr2]%(tuic_pumps_inv auth); [|done]. split; [done|]. exists []. by rewrite Hr2, Hr, app_nil_r. }
  destruct ev as [host port answer| | | | | |est|]; cbn [tuic_turn] in Ht.
  - pose proof (open_tcp_inv auth s host port answer Hi) as Ho. destruct (open_tcp _ _ _ _) as [session reply].
    destruct (_ <=? _); [injection Ht as <- _; split; [done|by exists [reply]]|].
    apply (tuic_pumps_inv auth) in Ht as [H2 Hr2]; [|done]. split; [done|]. by exists [reply].
  - refine (Hpumps _ _ _ Ht); [by apply replied_inv|done].
  - injection Ht as <- _. split; [done|]. exists []. by rewrite app_nil_r.
  - by eapply Hpumps.
  - by eapply Hpumps.
  - by eapply Hpumps.
  - refine (Hpumps _ _ _ Ht); [by apply replied_inv|done].
  - by eapply Hpumps.
Qed.

Lemma tuic_loop_inv auth turns : forall s, tuic_inv auth s -> tuic_inv auth (tuic_loop turns s).1.
Proof.
  induction turns as [|[ev io] turns IH]; intros s Hi; cbn [tuic_loop]; [done|].
  destruct (tuic_turn ev io s) as [[s1 b]|e| |] eqn:Ht; try done.
  apply (tuic_turn_inv auth) in Ht as [H1 _]; [|done]. destruct b; [done|by apply IH].
Qed.

Lemma connect_init hex server uuid password w s :
  tuic_connect hex server uuid password w = Ok s ->
  (exists auth, authenticate uuid password (tx_token w) (tx_auth w) = Ok auth /\ s = tuic_init (tuic_stream_limit (tx_params w)) auth) /\
  PACKET_HEADER + 32 <= datagram_budget (tx_params w).
Proof.
  unfold tuic_connect. intros Hc. apply obind_Ok in Hc as ([host port] & _ & Hc).
  do 3 (apply obind_Ok in Hc as (? & _ & Hc)). apply obind_Ok in Hc as (auth & Ha & Hc).
  destruct (_ <? _) eqn:E; [done|]. injection Hc as <-. split; [by exists auth|lia].
Qed.

(** The command is written to the first unidirectional stream, all of it. *)
Lemma authenticate_written uuid password token answers auth : authenticate uuid password token answers = Ok auth ->
  Forall (fun w => w.1 = FIRST_CLIENT_UNI) auth /\
  (Forall counted answers -> exists u t, parse_uuid uuid = Ok u /\ token u password = Ok t /\
     concat (map (fun w => w.2.1) auth) = authenticate_frame u t).
Proof.
  unfold authenticate. intros E. apply obind_Ok in E as (u & Eu & E). apply obind_Ok in E as (t & Et & E).
  destruct (write_stream answers (authenticate_frame u t) true) as [l r] eqn:Ew.
  destruct r as [[[]|e| |]|]; try done. injection E as <-. split; [apply Forall_map; by apply Forall_true|].
  intros Ha. exists u, t. split_and!; [done|done|]. rewrite map_map. by apply (write_stream_all answers).
Qed.


(** Nothing tells the supervisor that the session has ended: while its servers
    run and no hint is left, it waits, and every connection is refused. *)
Theorem session_end_unnoticed delay evs :
  Forall (fun ev => match ev with SessionEnded _ => True | ServerEnded _ => False | SupTick hint => hint = false end) evs ->
  supervisor delay [evs] = [SupOpened].
Proof.
  intros Hf. cbn [supervisor]. replace (supervise evs) with (@None (result unit)); [done|].
  induction Hf as [|ev evs He _ IH]; [done|]. destruct ev as [r|j|hint]; [done|done|]. subst. done.
Qed.

(** There is one UDP association: opening another takes the channel of the one
    before away, whoever still uses it. *)
Lemma second_udp_drops_first io s : ti_dgrams io = [] -> ti_gone io = false ->
  exists s', tuic_turn OpenUdp io s = Ok (s', ti_closed io) /\ tu_udp s' = Some (mkChan [] CHANNEL_DEPTH true).
Proof.
  intros Hd Hg. cbn [tuic_turn]. unfold tuic_pumps. rewrite Hd, Hg. cbn [pump_datagrams obind].
  unfold pump_from_app. simpl. destruct (pump_app_loop _ _) as [frames k]. by eexists.
Qed.

(** ** A session, evaluated *)

Definition demo_slot_io : SlotIo := mkSlotIo [str "hello"] false (Some 100) (fun data _ => QOk (zlen data)) [QDone].
Definition demo_tuic_io : TuicIo := mkTuicIo (fun _ => demo_slot_io) (fun _ _ => None) [] [] false [] false.
Definition demo_tuic_world : TuicWorld :=
  mkTuicWorld (fun _ port => Ok (sock_new (V4 [192; 0; 2; 1]) port)) (Ok tt) 0
    [mkHsTurn false None 10; mkHsTurn true None 20] (fun _ _ => Ok (replicate 32 9)) [QOk 50; QOk 0]
    (Some (mkParams 2 (Some 1200))).
Definition demo_open : tuic_event := OpenTcp (str "example.com") 443 (QOk tt).
Definition demo_tuic_run : result (TuicState * option (outcome unit unit)) :=
  run_tuic (fun _ => []) (str "tuic.example:8443") (str "00000000-0000-0000-0000-000000000001") (str "p") demo_tuic_world
    [(demo_open, demo_tuic_io); (demo_open, demo_tuic_io); (demo_open, demo_tuic_io)].

