(* ===== verification/Fragment.v ===== *)
(** * Fragmenting the ClientHello

    Models fragment.rs: the settings, the choice of chunk sizes and delays, and
    [FragmentingStream::poll_write].  The random generator is the parameter
    [gen_range], of which only its documented range is relied on; the stream
    below and the timer are answers given to a poll. *)

From Stdlib Require Import ZArith Lia ZifyBool String List.
From stdpp Require Import base list numbers option decidable.
From S2P Require Import Prelude RustStr Errors.
Open Scope Z_scope.

Record FragmentConfig : Type := mkFrag {
  enabled : bool; size_min : Z; size_max : Z; delay_min_ms : Z; delay_max_ms : Z }.

Definition disabled : FragmentConfig := mkFrag false 1 1 0 0.

Definition is_truthy `{UnicodeTables} (v : bytes) : bool :=
  existsb (fun k => bool_decide (to_lowercase (trim v) = k)) [str "1"; str "true"; str "yes"; str "on"].

Definition parse_or (s : bytes) (d : Z) : Z := match parse_u64 s with Some v => v | None => d end.

Definition parse_range (spec : bytes) (default_ : Z * Z) : Z * Z :=
  let spec := trim spec in
  match spec with
  | [] => default_
  | _ =>
      match split_once 45 spec with
      | Some (a, b) =>
          let lo := parse_or (trim a) default_.1 in
          let hi := parse_or (trim b) default_.2 in
          if hi <? lo then (hi, lo) else (lo, hi)
      | None => let v := parse_or spec default_.1 in (v, v)
      end
  end.

Definition from_env `{Target} `{UnicodeTables} (env : Env) : FragmentConfig :=
  let on := match env (str "SOILDTUNNEL_MASQUE_H2_FRAGMENT") with Some v => is_truthy v | None => false end in
  let '(smin, smax) := parse_range (unwrap_or_default (env (str "SOILDTUNNEL_MASQUE_H2_FRAGMENT_SIZE"))) (16, 32) in
  let '(dmin, dmax) := parse_range (unwrap_or_default (env (str "SOILDTUNNEL_MASQUE_H2_FRAGMENT_DELAY"))) (2, 10) in
  let smin := as_usize (Z.max smin 1) in
  let smax := as_usize (Z.max smax smin) in
  mkFrag on smin smax dmin (Z.max dmax dmin).

(** The answer to a poll. *)
Inductive poll (A : Type) : Type :=
| Ready (a : A)
| Pending.
Arguments Ready {A} a.
Arguments Pending {A}.

Section Writing.
(** [rand::Rng::gen_range(lo..=hi)]. *)
Context (gen_range : Z -> Z -> Z).

Definition pick_chunk_len (c : FragmentConfig) (remaining : Z) : Z :=
  let hi := Z.min (Z.max (size_max c) 1) remaining in
  let lo := Z.min (Z.max (size_min c) 1) hi in
  if hi <=? lo then hi else gen_range lo hi.

Definition pick_delay (c : FragmentConfig) : Z :=
  if delay_max_ms c =? 0 then 0
  else if delay_max_ms c <=? delay_min_ms c then delay_min_ms c
  else gen_range (delay_min_ms c) (delay_max_ms c).

Record FragmentingStream : Type := mkFs { fs_cfg : FragmentConfig; fragmenting : bool; pending_delay : bool }.
Definition new (c : FragmentConfig) : FragmentingStream := mkFs c (enabled c) false.

(** [poll_read] switches the fragmenting off, whatever the read yields. *)
Definition poll_read (s : FragmentingStream) : FragmentingStream := mkFs (fs_cfg s) false (pending_delay s).

(** [poll_write]: [timer] tells whether the pending sleep is over, [inner] is
    the write of the stream below.  [buf[..chunk_len]] panics out of range. *)
Definition poll_write (s : FragmentingStream) (buf : bytes) (timer : bool)
    (inner : bytes -> poll (Z + io_error)) : outcome unit (poll (Z + io_error) * FragmentingStream) :=
  if bool_decide (buf = []) || negb (fragmenting s) then Ok (inner buf, s)
  else if pending_delay s && negb timer then Ok (Pending, s)
  else
    let s := mkFs (fs_cfg s) (fragmenting s) false in
    let! chunk := idx_range buf 0 (pick_chunk_len (fs_cfg s) (zlen buf)) in
    match inner chunk with
    | Ready (inl n) =>
        let s := if (0 <? n) && negb (pick_delay (fs_cfg s) =? 0) then mkFs (fs_cfg s) (fragmenting s) true else s in
        Ok (Ready (inl n), s)
    | other => Ok (other, s)
    end.

(** [write_all] over it, the way the TLS library uses the stream: polls until
    the buffer is gone; [timers] answers the sleeps.  The result is the chunks
    the stream below received. *)
Fixpoint write_all (fuel : nat) (s : FragmentingStream) (buf : bytes) : outcome unit (list bytes) :=
  match buf, fuel with
  | [], _ => Ok []
  | _, O => OutOfFuel
  | _, S fuel =>
      let inner := fun chunk => Ready (inl (zlen chunk)) : poll (Z + io_error) in
      let! '(r, s') := poll_write s buf true inner in
      match r with
      | Ready (inl n) => let! rest := write_all fuel s' (zdrop n buf) in Ok (ztake n buf :: rest)
      | Ready (inr _) => Err tt
      | Pending => OutOfFuel
      end
  end.

Context (gen_range_in : forall lo hi, lo <= hi -> lo <= gen_range lo hi <= hi).

Lemma pick_chunk_bounds c n : 1 <= n -> 1 <= pick_chunk_len c n <= n /\ pick_chunk_len c n <= Z.max (size_max c) 1.
Proof.
  intros Hn. unfold pick_chunk_len. destruct (_ <=? _) eqn:E; [lia|].
  pose proof (gen_range_in (Z.min (Z.max (size_min c) 1) (Z.min (Z.max (size_max c) 1) n))
    (Z.min (Z.max (size_max c) 1) n)). lia.
Qed.

Lemma poll_write_fragment s buf :
  buf <> [] -> fragmenting s = true ->
  exists n d, poll_write s buf true (fun chunk => Ready (inl (zlen chunk))) =
    Ok (Ready (inl n), mkFs (fs_cfg s) true d) /\ 1 <= n <= zlen buf /\ n <= Z.max (size_max (fs_cfg s)) 1.
Proof.
  intros Hb Hf. unfold poll_write. rewrite bool_decide_false by done. rewrite Hf. cbn [negb orb].
  rewrite andb_false_r. cbn [fs_cfg].
  assert (1 <= zlen buf) as Hl by (destruct buf; [done|rewrite zlen_cons; pose proof (zlen_nonneg buf); lia]).
  destruct (pick_chunk_bounds (fs_cfg s) (zlen buf) Hl) as [Hn Hm]. set (n := pick_chunk_len _ _) in *.
  unfold idx_range. destruct (get_range buf 0 n) as [chunk|] eqn:E.
  2:{ apply get_range_None in E. exfalso. apply E. lia. }
  apply zlen_get_range in E. cbn [obind]. exists (zlen chunk). rewrite Z.sub_0_r in E. rewrite E.
  destruct (_ && _); eexists; (split; [reflexivity|lia]).
Qed.

End Writing.

(** With fragmenting on, a buffer written through the stream reaches the
    stream below whole and in order, as non-empty chunks of at most the largest
    configured size (or one byte where that is zero), whatever the settings and
    the random choices: no chunk runs past the buffer and the writing ends. *)
Theorem fragmented_write_complete (gen_range : Z -> Z -> Z) (c : FragmentConfig) (buf : bytes) :
  (forall lo hi, lo <= hi -> lo <= gen_range lo hi <= hi) -> enabled c = true ->
  exists chunks, write_all gen_range (length buf) (new c) buf = Ok chunks /\ concat chunks = buf /\
    Forall (fun ch => 1 <= zlen ch <= Z.max (size_max c) 1) chunks.
Proof.
  intros Hg Hc. unfold new. rewrite Hc.
  enough (forall fuel d buf, (length buf <= fuel)%nat ->
    exists chunks, write_all gen_range fuel (mkFs c true d) buf = Ok chunks /\ concat chunks = buf /\
      Forall (fun ch => 1 <= zlen ch <= Z.max (size_max c) 1) chunks) as H by (by apply H).
  clear buf. induction fuel as [|fuel IH]; intros d buf Hl.
  - destruct buf; [|simpl in Hl; lia]. by exists [].
  - destruct buf as [|b r]; [by exists []|]. set (buf := b :: r) in *.
    destruct (poll_write_fragment gen_range Hg (mkFs c true d) buf) as (n & d' & Hp & Hn & Hm); [done|done|].
    destruct (IH d' (zdrop n buf)) as (chunks & Hw & Hcat & Hall).
    { unfold zdrop. rewrite length_drop. unfold zlen in Hn. lia. }
    exists (ztake n buf :: chunks). split_and!.
    + change (write_all gen_range (S fuel) (mkFs c true d) buf) with
        (let! '(r, s') := poll_write gen_range (mkFs c true d) buf true (fun chunk => Ready (inl (zlen chunk))) in
         match r with
         | Ready (inl n) => let! rest := write_all gen_range fuel s' (zdrop n buf) in Ok (ztake n buf :: rest)
         | Ready (inr _) => Err tt
         | Pending => OutOfFuel
         end). rewrite Hp. cbn [obind fs_cfg]. by rewrite Hw.
    + cbn [concat]. rewrite Hcat. apply ztake_zdrop.
    + constructor; [|done]. rewrite zlen_ztake. cbn [fs_cfg] in Hm. lia.
Qed.

Lemma fragmented_write_complete_witness :
  exists chunks, write_all (fun lo hi => (lo + hi) / 2) 10 (new (mkFrag true 2 5 1 3)) (replicate 10 7) = Ok chunks /\
    concat chunks = replicate 10 7 /\ Forall (fun ch => 1 <= zlen ch <= Z.max 5 1) chunks.
Proof.
  apply (fragmented_write_complete (fun lo hi => (lo + hi) / 2) (mkFrag true 2 5 1 3) (replicate 10 7)).
  - intros lo hi H. split; [apply Z.div_le_lower_bound; lia|apply Z.div_le_upper_bound; lia].
  - reflexivity.
Defined.
