(* ===== verification/Stream.v ===== *)
(** * Byte streams with errors

    The state of a TCP connection as the handshakes of the engine see it: what
    the peer has sent and is not read yet, and what was written.  [read_exact]
    fails with [UnexpectedEof] when the peer ends the stream early.  [IO] is the
    monad of [async fn]s over one connection that return a [Result]. *)

From S2P Require Import Prelude Errors.
From Stdlib Require Import ZArith Lia ZifyBool List.
From stdpp Require Import base list numbers option decidable.
Open Scope Z_scope.

Record Stream : Type := mkStream { st_in : bytes; st_out : bytes }.
Definition IO (A : Type) : Type := Stream -> result A * Stream.

Definition ret {A : Type} (a : A) : IO A := fun s => (Ok a, s).
Definition fail {A : Type} (e : SoildTunnelError) : IO A := fun s => (Err e, s).
Definition io_bind {A B : Type} (m : IO A) (k : A -> IO B) : IO B := fun s =>
  let '(r, s) := m s in
  match r with
  | Ok a => k a s
  | Err e => (Err e, s)
  | Panic => (Panic, s)
  | OutOfFuel => (OutOfFuel, s)
  end.
Notation "'let*' x := m 'in' k" := (io_bind m (fun x => k))
  (at level 10, x name, m at level 100, k at level 200) : rust_scope.
Notation "'let*' ' p := m 'in' k" := (io_bind m (fun x => match x with p => k end))
  (at level 10, p strict pattern, m at level 100, k at level 200) : rust_scope.

Definition eof : SoildTunnelError := Io (mkIo UnexpectedEof None).
Definition read_exact (n : Z) : IO bytes := fun s =>
  if n <=? zlen (st_in s) then (Ok (ztake n (st_in s)), mkStream (zdrop n (st_in s)) (st_out s))
  else (Err eof, mkStream [] (st_out s)).
Definition write_all (b : bytes) : IO unit := fun s => (Ok tt, mkStream (st_in s) (st_out s ++ b)).
(** [l[i]] of a buffer that was read. *)
Definition at_index (l : bytes) (i : Z) : IO Z := fun s => (idx l i, s).

Lemma read_exact_app n x y out :
  n = zlen x -> read_exact n (mkStream (x ++ y) out) = (Ok x, mkStream y out).
Proof.
  intros ->. unfold read_exact. cbn [st_in st_out]. pose proof (zlen_nonneg y).
  replace (_ <=? _) with true by (rewrite zlen_app; lia).
  by rewrite ztake_app_length, zdrop_app_length.
Qed.

Lemma io_bind_Ok {A B} (m : IO A) (k : A -> IO B) s a s' : m s = (Ok a, s') -> io_bind m k s = k a s'.
Proof. intros E. unfold io_bind. by rewrite E. Qed.

(** A computation that returns whatever the peer has sent. *)
Definition io_safe {A : Type} (m : IO A) (post : A -> Prop) : Prop :=
  forall s, bytes_ok (st_in s) -> bytes_ok (st_in (m s).2) /\
    match (m s).1 with Ok a => post a | Err _ => True | Panic | OutOfFuel => False end.

Lemma safe_ret {A} (a : A) (post : A -> Prop) : post a -> io_safe (ret a) post.
Proof. by intros Hp s Hs. Qed.
Lemma safe_fail {A} e (post : A -> Prop) : io_safe (fail e) post.
Proof. by intros s Hs. Qed.
Lemma safe_write b (post : unit -> Prop) : post tt -> io_safe (write_all b) post.
Proof. by intros Hp s Hs. Qed.
Lemma safe_bind {A B} (m : IO A) (k : A -> IO B) post1 post2 :
  io_safe m post1 -> (forall a, post1 a -> io_safe (k a) post2) -> io_safe (io_bind m k) post2.
Proof.
  intros Hm Hk s Hs. unfold io_bind. destruct (Hm s Hs) as [Hs' Hp]. destruct (m s) as [[a| | |] s']; simpl in *; try done.
  by apply Hk.
Qed.
Lemma safe_read n : 0 <= n -> io_safe (read_exact n) (fun b => zlen b = n /\ bytes_ok b).
Proof.
  intros Hn s Hs. unfold read_exact. destruct (_ <=? _) eqn:E; simpl; [|split; [constructor|done]].
  split; [by apply bytes_ok_zdrop|]. split; [rewrite zlen_ztake; lia|by apply bytes_ok_ztake].
Qed.
Lemma safe_index l i (post : Z -> Prop) :
  0 <= i < zlen l -> bytes_ok l -> (forall b, is_u8 b -> zget l i = Some b -> post b) -> io_safe (at_index l i) post.
Proof.
  intros Hi Hl Hp s Hs. unfold at_index, idx. destruct (zget_lt_Some l i Hi) as [b Hb]. rewrite Hb. simpl.
  split; [done|]. apply Hp; [|done]. exact (zget_ok l i b Hl Hb).
Qed.

Create HintDb streams.
#[export] Hint Resolve safe_ret safe_fail safe_write safe_read : streams.
