(* ===== verification/Upstream.v ===== *)
(** * The upstream proxy

    Models upstream.rs: the proxy URL, the client side of the SOCKS5 and HTTP
    CONNECT handshakes, SOCKS5 UDP headers and the detour table.  The base64
    crate and the resolver are parameters. *)

From Stdlib Require Import ZArith Lia ZifyBool String List.
From stdpp Require Import base list numbers option decidable.
From S2P Require Import Prelude RustStr NetAddr Errors Stream Routing.
Open Scope Z_scope.

Definition VER : Z := 0x05.
Definition AUTH_NONE : Z := 0x00.
Definition AUTH_USERPASS : Z := 0x02.
Definition AUTH_REJECTED : Z := 0xff.
Definition CMD_CONNECT : Z := 0x01.
Definition CMD_ASSOCIATE : Z := 0x03.
Definition ATYP_V4 : Z := 0x01.
Definition ATYP_NAME : Z := 0x03.
Definition ATYP_V6 : Z := 0x04.
Definition REP_OK : Z := 0x00.

Inductive Kind : Type := Socks5 | Http.
#[export] Instance Kind_eq_dec : EqDecision Kind.
Proof. solve_decision. Defined.

Record Upstream : Type := mkUpstream {
  kind : Kind; host : bytes; port : Z; user : option bytes; password : option bytes }.

(** ** The URL *)

Definition malformed {A : Type} (endpoint : bytes) : result A :=
  Err (Other (endpoint ++ str " is not a host and port an upstream proxy can live at")).

Definition split_endpoint (endpoint : bytes) : result (bytes * Z) :=
  match strip_prefix endpoint [91] with
  | Some rest =>
      match split_once 93 rest with
      | None => malformed endpoint
      | Some (host, tail) =>
          match strip_prefix tail [58] with
          | None => malformed endpoint
          | Some port =>
              match parse_u16 port with
              | None => malformed endpoint
              | Some port => if bool_decide (host = []) || (port =? 0) then malformed endpoint else Ok (host, port)
              end
          end
      end
  | None =>
      match rsplit_once 58 endpoint with
      | None => malformed endpoint
      | Some (host, port) =>
          match parse_u16 port with
          | None => malformed endpoint
          | Some port => if bool_decide (host = []) || (port =? 0) then malformed endpoint else Ok (host, port)
          end
      end
  end.

(** [u8::from_str_radix] on two characters, which may be a sign and a digit. *)
Definition radix16_pair (a b : Z) : option Z :=
  match hex_digit a, hex_digit b with
  | Some x, Some y => Some (16 * x + y)
  | None, Some y => if a =? 43 then Some y else None
  | _, None => None
  end.

Fixpoint percent_bytes (s : bytes) : bytes :=
  match s with
  | [] => []
  | c :: r =>
      match r with
      | a :: b :: r2 =>
          if c =? 37 then
            match radix16_pair a b with
            | Some v => v :: percent_bytes r2
            | None => c :: percent_bytes r
            end
          else c :: percent_bytes r
      | _ => c :: percent_bytes r
      end
  end.
Definition percent_decode (value : bytes) : bytes := from_utf8_lossy (percent_bytes value).

Definition is_one_of (s : bytes) (l : list bytes) : bool := existsb (fun k => bool_decide (s = k)) l.

Definition parse_kind (scheme : bytes) : result Kind :=
  if is_one_of scheme [str "socks5"; str "socks5h"; str "socks"] then Ok Socks5
  else if is_one_of scheme [str "http"; str "https"] then Ok Http
  else Err (Other (scheme ++ str " is not an upstream proxy kind soildtunnel understands")).

Definition parse_credentials (credentials : option bytes) : option bytes * option bytes :=
  match credentials with
  | Some cred =>
      match split_once 58 cred with
      | Some (user, password) => (Some (percent_decode user), Some (percent_decode password))
      | None => (Some (percent_decode cred), None)
      end
  | None => (None, None)
  end.

Definition upstream_parse `{UnicodeTables} (raw : bytes) : result Upstream :=
  let raw := trim raw in
  let '(scheme, rest) :=
    match split_once_str (str "://") raw with
    | Some (scheme, rest) => (to_lowercase scheme, rest)
    | None => (str "socks5", raw)
    end in
  let! kind := parse_kind scheme in
  let '(credentials, endpoint) :=
    match rsplit_once 64 rest with
    | Some (credentials, endpoint) => (Some credentials, endpoint)
    | None => (None, rest)
    end in
  let! '(host, port) := split_endpoint (trim_end_matches (Z.eqb 47) endpoint) in
  let '(user, password) := parse_credentials credentials in
  Ok (mkUpstream kind host port user password).

Definition upstream_from_env `{UnicodeTables} (env : Env) : option Upstream :=
  let? raw := env (str "SOILDTUNNEL_UPSTREAM") in
  let trimmed := trim raw in
  match trimmed with
  | [] => None
  | _ => match upstream_parse trimmed with Ok u => Some u | _ => None end
  end.

Definition endpoint (u : Upstream) : bytes := host u ++ [58] ++ dec_str (port u).
Definition url (u : Upstream) : bytes :=
  let h := if contains_char (host u) 58 then [91] ++ host u ++ [93] else host u in
  let scheme := match kind u with Socks5 => str "socks5h" | Http => str "http" end in
  scheme ++ str "://" ++ h ++ [58] ++ dec_str (port u).

(** ** SOCKS5, client side *)

Definition encode_address (target : SocketAddr) : bytes :=
  match sa_ip target with V4 o => [ATYP_V4] ++ o | V6 o => [ATYP_V6] ++ o end ++ to_be 2 (sa_port target).
Definition encode_request (command : Z) (target : SocketAddr) : bytes := [VER; command; 0] ++ encode_address target.
Definition encode_udp_header (target : SocketAddr) : bytes := [0; 0; 0] ++ encode_address target.

(** [u16::from_be_bytes([buf[i], buf[i + 1]])]. *)
Definition port_at (buf : bytes) (i : Z) : outcome unit Z :=
  let! a := idx buf i in let! b := idx buf (i + 1) in Ok (a * 256 + b).

(** [Err] stands for the source's [None]. *)
Definition decode_udp_header (buf : bytes) : outcome unit (SocketAddr * Z) :=
  if zlen buf <? 4 then Err tt
  else let! rsv := idx buf 2 in
  if negb (rsv =? 0) then Err tt
  else let! atyp := idx buf 3 in
  if atyp =? ATYP_V4 then
    if zlen buf <? 10 then Err tt
    else let! ip := idx_range buf 4 8 in
         let! port := port_at buf 8 in
         Ok (sock_new (V4 ip) port, 10)
  else if atyp =? ATYP_V6 then
    if zlen buf <? 22 then Err tt
    else let! octets := idx_range buf 4 20 in
         let! port := port_at buf 20 in
         Ok (sock_new (V6 octets) port, 22)
  else if atyp =? ATYP_NAME then
    let! length := ok_or (zget buf 4) tt in
    let e := 5 + length in
    if zlen buf <? e + 2 then Err tt
    else let! port := port_at buf e in
         let! raw := idx_range buf 5 e in
         let! name := ok_or (from_utf8 raw) tt in
         let! ip := ok_or (parse_ip name) tt in
         Ok (sock_new ip port, e + 2)
  else Err tt.

(** [UdpRelay::recv_from] on the datagram read: the bytes copied into a buffer
    of length [room], and the origin. *)
Definition relay_recv (framed : bytes) (room : Z) : outcome unit (bytes * SocketAddr) :=
  let! '(origin, offset) := decode_udp_header framed in
  let! payload := idx_range framed offset (zlen framed) in
  Ok (ztake (Z.min (zlen payload) room) payload, origin).
Definition relay_send (payload : bytes) (target : SocketAddr) : bytes := encode_udp_header target ++ payload.

Definition socks_authenticate (u : Upstream) : IO unit :=
  let user := unwrap_or_default (user u) in
  let password := unwrap_or_default (password u) in
  if (255 <? zlen user) || (255 <? zlen password) then
    fail (Other (str "the upstream proxy credentials are longer than socks5 allows"))
  else
    let* _ := write_all ([1; as_u8 (zlen user)] ++ user ++ [as_u8 (zlen password)] ++ password) in
    let* answer := read_exact 2 in
    let* a1 := at_index answer 1 in
    if negb (a1 =? 0) then fail (Other (str "the upstream proxy refused the credentials supplied")) else ret tt.

Definition socks_greet (u : Upstream) : IO unit :=
  let greeting := match user u with Some _ => [VER; 2; AUTH_NONE; AUTH_USERPASS] | None => [VER; 1; AUTH_NONE] end in
  let* _ := write_all greeting in
  let* answer := read_exact 2 in
  let* a0 := at_index answer 0 in
  if negb (a0 =? VER) then fail (Other (str "the upstream proxy did not speak socks5"))
  else let* a1 := at_index answer 1 in
  if a1 =? AUTH_NONE then ret tt
  else if a1 =? AUTH_USERPASS then socks_authenticate u
  else if a1 =? AUTH_REJECTED then
    fail (Other (str "the upstream proxy rejected every authentication method offered"))
  else fail (Other (str "the upstream proxy asked for authentication method " ++ dec_str a1)).

Definition read_reply : IO SocketAddr :=
  let* head := read_exact 4 in
  let* h0 := at_index head 0 in
  if negb (h0 =? VER) then fail (Other (str "the upstream proxy answered with something other than socks5"))
  else let* h1 := at_index head 1 in
  if negb (h1 =? REP_OK) then fail (Other (str "the upstream proxy refused the request with code " ++ dec_str h1))
  else let* h3 := at_index head 3 in
  let* ip :=
    (if h3 =? ATYP_V4 then let* octets := read_exact 4 in ret (V4 octets)
     else if h3 =? ATYP_V6 then let* octets := read_exact 16 in ret (V6 octets)
     else if h3 =? ATYP_NAME then
       let* length := read_exact 1 in
       let* n := at_index length 0 in
       let* name := read_exact n in
       ret (match parse_ip (from_utf8_lossy name) with Some ip => ip | None => V4 [0; 0; 0; 0] end)
     else fail (Other (str "the upstream proxy sent an address type soildtunnel cannot read"))) in
  let* port := read_exact 2 in
  let* p0 := at_index port 0 in
  let* p1 := at_index port 1 in
  ret (sock_new ip (p0 * 256 + p1)).

(** The SOCKS5 half of [connect] and of [associate]. *)
Definition socks_connect (u : Upstream) (target : SocketAddr) : IO SocketAddr :=
  let* _ := socks_greet u in
  let* _ := write_all (encode_request CMD_CONNECT target) in
  read_reply.

(** [relay_address]; [lookup] is the resolver. *)
Definition relay_address (lookup : bytes -> Z -> result (list SocketAddr)) (bound : SocketAddr) (host : bytes) (port : Z)
    : result SocketAddr :=
  if negb (ip_is_unspecified (sa_ip bound)) && negb (sa_port bound =? 0) then Ok bound
  else
    let relay_port := if sa_port bound =? 0 then port else sa_port bound in
    match parse_ip host with
    | Some ip => Ok (sock_new ip relay_port)
    | None =>
        let! found := lookup host relay_port in
        match found with
        | a :: _ => Ok a
        | [] => Err (Other (host ++ str " does not resolve to a usable relay address"))
        end
    end.

(** ** HTTP CONNECT, client side *)

Definition http_status (head : bytes) : option Z :=
  let text := from_utf8_lossy head in
  match lines text with
  | [] => None
  | line :: _ =>
      match split_whitespace line with
      | version :: parts =>
          if negb (starts_with version (str "HTTP/")) then None
          else match parts with status :: _ => parse_u16 status | [] => None end
      | [] => None
      end
  end.

(** The loop that reads the answer's head byte by byte. *)
Fixpoint read_head (inp head : bytes) : result (bytes * bytes) :=
  if 8192 <? zlen head then Err (Other (str "the upstream proxy sent an oversized answer"))
  else match inp with
       | [] => Err (Other (str "the upstream proxy closed before answering the connect"))
       | b :: inp =>
           let head := head ++ [b] in
           if ends_with head [13; 10; 13; 10] then Ok (head, inp) else read_head inp head
       end.

Section HttpConnect.
(** The base64 crate's standard encoder. *)
Context (base64 : bytes -> bytes).

Definition connect_head (u : Upstream) (target : SocketAddr) : bytes :=
  let authority := sock_str target in
  str "CONNECT " ++ authority ++ str " HTTP/1.1" ++ [13; 10] ++ str "Host: " ++ authority ++ [13; 10]
  ++ str "Proxy-Connection: Keep-Alive" ++ [13; 10]
  ++ match user u with
     | Some user => str "Proxy-Authorization: Basic " ++ base64 (user ++ [58] ++ unwrap_or_default (password u)) ++ [13; 10]
     | None => []
     end
  ++ [13; 10].

Definition http_connect (u : Upstream) (target : SocketAddr) : IO unit := fun s =>
  let s := mkStream (st_in s) (st_out s ++ connect_head u target) in
  match read_head (st_in s) [] with
  | Ok (head, rest) =>
      let s := mkStream rest (st_out s) in
      match http_status head with
      | None => (Err (Other (str "the upstream proxy answer was not http")), s)
      | Some status =>
          if (200 <=? status) && (status <? 300) then (Ok tt, s)
          else (Err (Other (str "the upstream proxy answered " ++ dec_str status ++ str " to the connect")), s)
      end
  | Err e => (Err e, mkStream [] (st_out s))
  | Panic => (Panic, s)
  | OutOfFuel => (OutOfFuel, s)
  end.

End HttpConnect.

(** ** Detours *)

Record Detour : Type := mkDetour { dt_shim : SocketAddr; dt_peer : SocketAddr }.
(** The table of detours, by local address. *)
Definition Detours : Type := list (SocketAddr * Detour).
Fixpoint detour_get (m : Detours) (local : SocketAddr) : option Detour :=
  match m with
  | [] => None
  | (k, d) :: m => if bool_decide (k = local) then Some d else detour_get m local
  end.
Definition relay_target (m : Detours) (local intended : SocketAddr) : SocketAddr :=
  match detour_get m local with Some d => dt_shim d | None => intended end.
Definition real_source (m : Detours) (local observed : SocketAddr) : SocketAddr :=
  match detour_get m local with
  | Some d => if bool_decide (dt_shim d = observed) then dt_peer d else observed
  | None => observed
  end.
(** [attach_detour] once the relay is open: nothing for a private peer. *)
Definition attach_detour (m : Detours) (configured : option Upstream) (client shim peer : SocketAddr) : Detours :=
  match configured with
  | None => m
  | Some _ => if is_private (sa_ip peer) then m else (client, mkDetour shim peer) :: m
  end.

(** ** Lemmas *)

Lemma starts_with_prefix x y : starts_with (x ++ y) x = true.
Proof. unfold starts_with. apply bool_decide_eq_true. apply take_app_length. Qed.

Lemma strip_prefix_app x y : strip_prefix (x ++ y) x = Some y.
Proof. unfold strip_prefix. rewrite starts_with_prefix. by rewrite drop_app_length. Qed.

Lemma dec_str_ends v : 0 <= v < 2 ^ 64 -> exists x c, dec_str v = x ++ [c] /\ is_ascii_digit c = true /\
  Forall (fun b => is_ascii_digit b = true) (dec_str v).
Proof.
  intros Hv. destruct (dec_str_digits v) as (Hn & _ & Hall); [lia|].
  destruct (@exists_last _ (dec_str v) Hn) as (x & c & E). exists x, c. split_and!; [done| |done].
  rewrite E in Hall. apply Forall_app in Hall as [_ Hc]. by apply Forall_cons_iff in Hc as [? _].
Qed.

Lemma digit_solid c : is_ascii_digit c = true -> solid c /\ c <> 58 /\ c <> 64 /\ c <> 47 /\ c <> 93.
Proof. unfold is_ascii_digit, solid, is_ws1. lia. Qed.

Lemma trim_end_matches_keep p x c : p c = false -> trim_end_matches p (x ++ [c]) = x ++ [c].
Proof.
  intros Hc. unfold trim_end_matches. rewrite rev_app_distr. cbn [rev app trim_start_matches]. rewrite Hc.
  cbn [rev]. by rewrite rev_involutive.
Qed.

(** A host that can be written in a URL, in brackets where it has a colon. *)
Definition host_ok (h : bytes) : Prop :=
  h <> [] /\ Forall (fun b => b <> 64 /\ b <> 47 /\ b <> 93 /\ b <> 91) h.
Definition written_host (h : bytes) : bytes := if contains_char h 58 then [91] ++ h ++ [93] else h.
Definition written_endpoint (h : bytes) (p : Z) : bytes := written_host h ++ [58] ++ dec_str p.

Lemma split_endpoint_written h p :
  host_ok h -> 0 < p < 65536 -> split_endpoint (written_endpoint h p) = Ok (h, p).
Proof.
  intros [Hne Hall] Hp. unfold split_endpoint, written_endpoint, written_host. rewrite List.Forall_forall in Hall.
  destruct (dec_str_ends p ltac:(lia)) as (x & c & Ex & _ & Hd). rewrite List.Forall_forall in Hd.
  assert (~ In 58 (dec_str p)) as Hn58 by (intros Hi%Hd%digit_solid; lia).
  assert (parse_u16 (dec_str p) = Some p) as Hparse by (apply parse_dec_str; lia).
  assert (bool_decide (h = []) || (p =? 0) = false) as Hbad by (rewrite bool_decide_false by done; lia).
  destruct (contains_char h 58) eqn:Hc.
  - rewrite <- app_assoc. rewrite strip_prefix_app. rewrite <- app_assoc. cbn [app].
    assert (split_once 93 (h ++ 93 :: 58 :: dec_str p) = Some (h, 58 :: dec_str p)) as ->.
    { apply split_once_Some. split; [done|]. intros Hi%Hall. lia. }
    change (58 :: dec_str p) with ([58] ++ dec_str p). rewrite strip_prefix_app, Hparse, Hbad. done.
  - assert (strip_prefix (h ++ [58] ++ dec_str p) [91] = None) as ->.
    { unfold strip_prefix, starts_with. destruct h as [|b h]; [done|].
      rewrite bool_decide_false; [done|]. simpl. intros [= ->]. specialize (Hall 91 (or_introl eq_refl)). lia. }
    assert (rsplit_once 58 (h ++ [58] ++ dec_str p) = Some (h, dec_str p)) as -> by (apply rsplit_once_Some; done).
    by rewrite Hparse, Hbad.
Qed.

Lemma written_endpoint_clean h p :
  host_ok h -> 0 < p < 65536 ->
  ~ In 64 (written_endpoint h p) /\ exists x c, written_endpoint h p = x ++ [c] /\ solid c /\ c <> 47.
Proof.
  intros [Hne Hall] Hp. destruct (dec_str_ends p ltac:(lia)) as (x & c & Ex & Hc & Hd). split.
  - unfold written_endpoint, written_host. rewrite List.Forall_forall in Hall, Hd.
    assert (~ In 64 (dec_str p)) as Hn by (intros Hi%Hd%digit_solid; lia).
    assert (~ In 64 h) as Hh by (intros Hi%Hall; lia).
    destruct (contains_char h 58); rewrite ?in_app_iff; simpl; intuition lia.
  - exists (written_host h ++ [58] ++ x), c. unfold written_endpoint. rewrite Ex, <- !app_assoc.
    apply digit_solid in Hc as (? & _ & _ & ? & _). done.
Qed.

Definition scheme_of (k : Kind) : bytes := match k with Socks5 => str "socks5h" | Http => str "http" end.
Definition written_creds (c : option bytes) : bytes := match c with Some c => c ++ [64] | None => [] end.
Definition written_url (u : Upstream) (creds : option bytes) : bytes :=
  scheme_of (kind u) ++ str "://" ++ written_creds creds ++ written_endpoint (host u) (port u).

Lemma url_written u : url u = written_url u None.
Proof. unfold url, written_url, written_endpoint, written_host, written_creds. by destruct (kind u). Qed.

(** A proxy URL is read back: the URL the engine writes for a proxy, with
    any credentials put before the host, parses to the same kind, host and
    port, bracketed IPv6 hosts included, and to the percent-decoded
    credentials. *)
Theorem upstream_url_roundtrip `{UnicodeTables} (u : Upstream) (creds : option bytes) :
  host_ok (host u) -> 0 < port u < 65536 ->
  url u = written_url u None /\
  upstream_parse (written_url u creds) =
  Ok (mkUpstream (kind u) (host u) (port u) (parse_credentials creds).1 (parse_credentials creds).2).
Proof.
  intros Hh Hp. split; [apply url_written|].
  destruct (written_endpoint_clean (host u) (port u) Hh Hp) as (H64 & x & c & Ex & Hc & H47).
  set (rest := written_creds creds ++ written_endpoint (host u) (port u)).
  assert (trim (written_url u creds) = written_url u creds) as Ht.
  { unfold written_url. rewrite Ex. destruct (kind u).
    - apply (trim_solid _ 115 (str "ocks5h" ++ str "://" ++ written_creds creds ++ x ++ [c]) c
        (str "socks5h" ++ str "://" ++ written_creds creds ++ x)); [done|by rewrite <- !app_assoc|done|done].
    - apply (trim_solid _ 104 (str "ttp" ++ str "://" ++ written_creds creds ++ x ++ [c]) c
        (str "http" ++ str "://" ++ written_creds creds ++ x)); [done|by rewrite <- !app_assoc|done|done]. }
  unfold upstream_parse. rewrite Ht. unfold written_url. fold rest.
  change (str "://") with (58 :: [47; 47]).
  rewrite split_once_str_app
    by (try done; intros ? b ? [= <- _] Hb%list_elem_of_In ->; destruct (kind u); vm_compute in Hb; intuition lia).
  assert (parse_kind (to_lowercase (scheme_of (kind u))) = Ok (kind u)) as ->.
  { rewrite to_lowercase_ascii by (destruct (kind u); repeat constructor). by destruct (kind u). }
  cbn [obind]. unfold rest.
  assert (match rsplit_once 64 (written_creds creds ++ written_endpoint (host u) (port u)) with
          | Some (credentials, endpoint) => (Some credentials, endpoint)
          | None => (None, written_creds creds ++ written_endpoint (host u) (port u)) end
          = (creds, written_endpoint (host u) (port u))) as ->.
  { destruct creds as [cr|]; unfold written_creds.
    - rewrite <- app_assoc. cbn [app].
      assert (rsplit_once 64 (cr ++ 64 :: written_endpoint (host u) (port u)) = Some (cr, written_endpoint (host u) (port u))) as ->
        by (by apply rsplit_once_Some). done.
    - cbn [app]. destruct (rsplit_once _ _) as [[a b]|] eqn:E; [|done].
      apply rsplit_once_Some in E as [E _]. exfalso. apply H64. rewrite E. apply in_app_iff. right. by left. }
  rewrite Ex, trim_end_matches_keep, <- Ex, split_endpoint_written by (done || lia). cbn [obind].
  by destruct (parse_credentials creds).
Qed.

Lemma upstream_url_roundtrip_witness :
  let u := mkUpstream Socks5 (str "2001:db8::1") 1080 None None in
  url u = written_url u None /\
  upstream_parse (H := no_unicode) (written_url u (Some (str "me:p%40ss"))) =
  Ok (mkUpstream Socks5 (str "2001:db8::1") 1080 (parse_credentials (Some (str "me:p%40ss"))).1
        (parse_credentials (Some (str "me:p%40ss"))).2).
Proof.
  intros u. apply (upstream_url_roundtrip (H := no_unicode) u (Some (str "me:p%40ss"))).
  - split; [vm_compute; congruence|]. repeat constructor; vm_compute; congruence.
  - vm_compute. split; congruence.
Defined.

(** An escape whose first character is a plus sign is taken for a digit. *)
Lemma percent_plus_decoded d v r : hex_digit d = Some v -> percent_bytes (37 :: 43 :: d :: r) = v :: percent_bytes r.
Proof. intros Hd. cbn [percent_bytes Z.eqb Pos.eqb]. unfold radix16_pair. rewrite Hd. done. Qed.

(** ** UDP through the relay *)

Definition sock_ok (a : SocketAddr) : Prop := ip_ok (sa_ip a) /\ 0 <= sa_port a < 65536 /\ sa_scope a = 0.

Lemma port_at_mid p v q : 0 <= v < 65536 -> port_at (p ++ to_be 2 v ++ q) (zlen p) = Ok v.
Proof.
  intros Hv. unfold port_at, idx. rewrite zget_app_r, Z.sub_diag by lia.
  change (to_be 2 v ++ q) with ((v / 256) mod 256 :: (v / 1) mod 256 :: q).
  change (zget (?a :: _) 0) with (Some a). cbn [obind].
  rewrite zget_app_r by lia. rewrite zget_cons_pos by lia.
  replace (zlen p + 1 - zlen p - 1) with 0 by lia. change (zget (?a :: _) 0) with (Some a). cbn [obind].
  f_equal. rewrite Z.div_1_r. pose proof (Z.div_mod v 256). rewrite (Z.mod_small (v / 256)); [lia|].
  split; [apply Z.div_pos; lia|]. apply Z.div_lt_upper_bound; lia.
Qed.

Lemma decode_encode_udp t payload :
  sock_ok t -> decode_udp_header (encode_udp_header t ++ payload) = Ok (t, zlen (encode_udp_header t)).
Proof.
  destruct t as [[o|o] p sc]; intros ([Ho _] & Hp & Hs); cbn [sa_ip sa_port sa_scope] in *; subst sc;
    unfold encode_udp_header, encode_address; cbn [sa_ip sa_port]; rewrite <- !app_assoc.
  - assert (zlen o = 4) as Hz by (unfold zlen; lia). set (h := [0; 0; 0] ++ [ATYP_V4]).
    change ([0; 0; 0] ++ [ATYP_V4] ++ ?x) with (h ++ x). pose proof (zlen_nonneg payload).
    transitivity (if zlen (h ++ o ++ to_be 2 p ++ payload) <? 4 then Err tt
      else if zlen (h ++ o ++ to_be 2 p ++ payload) <? 10 then Err tt
      else let! ip := idx_range (h ++ o ++ to_be 2 p ++ payload) 4 8 in
           let! port := port_at (h ++ o ++ to_be 2 p ++ payload) 8 in Ok (sock_new (V4 ip) port, 10)); [done|].
    rewrite !zlen_app, zlen_to_be, Hz. change (zlen h) with 4. replace (_ <? 4) with false by lia.
    replace (_ <? 10) with false by lia. unfold idx_range.
    rewrite (get_range_mid h o) by (change (zlen h) with 4; lia). cbn [obind]. rewrite (app_assoc h).
    replace 8 with (zlen (h ++ o)) by (rewrite zlen_app; change (zlen h) with 4; lia). rewrite port_at_mid by done.
    done.
  - assert (zlen o = 16) as Hz by (unfold zlen; lia). set (h := [0; 0; 0] ++ [ATYP_V6]).
    change ([0; 0; 0] ++ [ATYP_V6] ++ ?x) with (h ++ x). pose proof (zlen_nonneg payload).
    transitivity (if zlen (h ++ o ++ to_be 2 p ++ payload) <? 4 then Err tt
      else if zlen (h ++ o ++ to_be 2 p ++ payload) <? 22 then Err tt
      else let! ip := idx_range (h ++ o ++ to_be 2 p ++ payload) 4 20 in
           let! port := port_at (h ++ o ++ to_be 2 p ++ payload) 20 in Ok (sock_new (V6 ip) port, 22)); [done|].
    rewrite !zlen_app, zlen_to_be, Hz. change (zlen h) with 4. replace (_ <? 4) with false by lia.
    replace (_ <? 22) with false by lia. unfold idx_range.
    rewrite (get_range_mid h o) by (change (zlen h) with 4; lia). cbn [obind]. rewrite (app_assoc h).
    replace 20 with (zlen (h ++ o)) by (rewrite zlen_app; change (zlen h) with 4; lia). rewrite port_at_mid by done.
    done.
Qed.

Lemma relay_recv_sent t payload room :
  sock_ok t -> zlen payload <= room -> relay_recv (relay_send payload t) room = Ok (payload, t).
Proof.
  intros Ht Hr. unfold relay_recv, relay_send. rewrite decode_encode_udp by done. cbn [obind]. unfold idx_range.
  rewrite get_range_suffix by (rewrite ?zlen_app; done). cbn [obind]. by rewrite Z.min_l, ztake_all by lia.
Qed.

(** A datagram sent through the SOCKS5 UDP relay with an address carries
    exactly its payload and that address for whoever reads it with the same
    code, and reading returns on every datagram, however malformed. *)
Theorem relay_datagram_roundtrip (t : SocketAddr) (payload junk : bytes) (room : Z) :
  sock_ok t -> zlen payload <= room -> bytes_ok junk ->
  relay_recv (relay_send payload t) room = Ok (payload, t) /\ returns (relay_recv junk room).
Proof.
  intros Ht Hr Hj. split.
  - by apply relay_recv_sent.
  - unfold relay_recv. assert (returns (decode_udp_header junk) /\
      forall a n, decode_udp_header junk = Ok (a, n) -> 0 <= n <= zlen junk) as [H1 H2].
    { unfold decode_udp_header. destruct (zlen junk <? 4) eqn:E4; [done|]. unfold port_at, idx.
      destruct (zget_lt_Some junk 2) as [r ->]; [lia|]. cbn [obind]. destruct (negb (r =? 0)); [done|].
      destruct (zget_lt_Some junk 3) as [k ->]; [lia|]. cbn [obind].
      assert (forall a b, 0 <= a <= b -> b <= zlen junk -> exists s, idx_range (E := unit) junk a b = Ok s) as Hrange.
      { intros a b Ha Hb. pose proof (idx_range_returns (E := unit) junk a b Ha Hb) as Hret. unfold idx_range in *.
        destruct (get_range junk a b); [by eexists|done]. }
      assert (forall i, 0 <= i -> i + 2 <= zlen junk -> exists a b, zget junk i = Some a /\ zget junk (i + 1) = Some b) as Hport.
      { intros i Hi Hl. destruct (zget_lt_Some junk i) as [a ->]; [lia|]. destruct (zget_lt_Some junk (i + 1)) as [b ->]; [lia|].
        by exists a, b. }
      destruct (k =? ATYP_V4); [|destruct (k =? ATYP_V6); [|destruct (k =? ATYP_NAME); [|done]]].
      - destruct (zlen junk <? 10) eqn:E; [done|]. destruct (Hrange 4 8) as [s ->]; [lia|lia|].
        destruct (Hport 8) as (a & b & -> & ->); [lia|lia|]. simpl. split; [done|]. intros ? ? [= _ <-]. lia.
      - destruct (zlen junk <? 22) eqn:E; [done|]. destruct (Hrange 4 20) as [s ->]; [lia|lia|].
        destruct (Hport 20) as (a & b & -> & ->); [lia|lia|]. simpl. split; [done|]. intros ? ? [= _ <-]. lia.
      - destruct (zget junk 4) as [n|] eqn:Hn; [|done]. pose proof (zget_ok _ _ _ Hj Hn) as Hu. unfold is_u8 in Hu.
        cbn [ok_or obind]. destruct (zlen junk <? 5 + n + 2) eqn:E; [done|].
        destruct (Hport (5 + n)) as (a & b & -> & ->); [lia|lia|]. destruct (Hrange 5 (5 + n)) as [s ->]; [lia|lia|].
        cbn [obind]. destruct (from_utf8 s) as [s'|]; [|done]. cbn [ok_or obind].
        destruct (parse_ip s'); [|done]. simpl. split; [done|]. intros ? ? [= _ <-]. lia. }
    destruct (decode_udp_header junk) as [[a n]| | |]; try done. cbn [obind].
    specialize (H2 a n eq_refl). apply returns_bind; [apply idx_range_returns; lia|done].
Qed.

Lemma relay_datagram_roundtrip_witness :
  relay_recv (relay_send [1; 2; 3] (sock_new (V4 [10; 0; 0; 1]) 4500)) 2048 = Ok ([1; 2; 3], sock_new (V4 [10; 0; 0; 1]) 4500) /\
  returns (relay_recv [0; 0; 0; 3; 9; 1] 2048).
Proof.
  apply (relay_datagram_roundtrip (sock_new (V4 [10; 0; 0; 1]) 4500) [1; 2; 3] [0; 0; 0; 3; 9; 1] 2048).
  - split; [split; [reflexivity|repeat constructor; vm_compute; congruence]|vm_compute; repeat split; congruence].
  - vm_compute; congruence.
  - repeat constructor; vm_compute; congruence.
Defined.
