(* ===== verification/Detour.v ===== *)
(** * Datagrams through the upstream proxy

    Models the part of upstream.rs that opens connections and relays:
    [configured], [connect], [associate], attach_detour as a whole,
    bind_via_upstream and [pump]; of quic.rs, the choice of a socket in [flush]
    and do_migrate; and of lib.rs the forwarder of spawn_udp_forwarder.

    A detour is a socket on the loopback interface, the shim, that the engine's
    socket sends to in place of its peer; [pump] moves datagrams between the
    shim and the relay of the proxy.  Both relays are step functions on events. *)

From Stdlib Require Import ZArith Lia ZifyBool String List.
From stdpp Require Import base list numbers option decidable.
From S2P Require Import Prelude RustStr NetAddr Errors Stream Routing Upstream.
Open Scope Z_scope.

(** ** Connections *)

(** The override first, then what the environment said at the first call: the
    second component is the [OnceLock]. *)
Definition configured `{UnicodeTables} (env : Env) (override : option Upstream) (once : option (option Upstream))
    : option Upstream * option (option Upstream) :=
  match override with
  | Some u => (Some u, once)
  | None =>
      let u := match once with Some u => u | None => upstream_from_env env end in (u, Some u)
  end.

(** An attempt within [HANDSHAKE_TIMEOUT]: [None] when it does not finish. *)
Definition HANDSHAKE_TIMEOUT : Z := 10.
Definition in_time {A : Type} (late : bytes) (r : option (result A)) : result A :=
  match r with Some r => r | None => Err (Other late) end.

(** The connection to the proxy: an error, or what the proxy sends over it. *)
Definition over {A : Type} (dialled : result bytes) (m : IO A) : result A * bytes :=
  match dialled with
  | Ok answer => let '(r, s) := m (mkStream answer []) in (r, st_out s)
  | Err e => (Err e, [])
  | Panic => (Panic, [])
  | OutOfFuel => (OutOfFuel, [])
  end.

Definition connect (base64 : bytes -> bytes) (u : Upstream) (target : SocketAddr) : IO unit :=
  match kind u with
  | Socks5 => let* _ := socks_connect u target in ret tt
  | Http => http_connect base64 u target
  end.
Definition upstream_connect (base64 : bytes -> bytes) (u : Upstream) (target : SocketAddr) (dialled : option (result bytes))
    : result unit :=
  in_time (str "the upstream proxy at " ++ endpoint u ++ str " did not answer in time")
    (option_map (fun d => (over d (connect base64 u target)).1) dialled).

Definition unspecified : SocketAddr := sock_new (V4 [0; 0; 0; 0]) 0.
(** [lookup] resolves the proxy's name, [bound] is the outcome of binding and
    connecting the socket. *)
Definition associate (u : Upstream) (lookup : bytes -> Z -> result (list SocketAddr)) (bound : result unit)
    (dialled : option (result bytes)) : result SocketAddr :=
  match kind u with
  | Http => Err (Other (str "only a socks5 proxy can carry udp, an http proxy cannot"))
  | Socks5 =>
      in_time (str "the upstream proxy at " ++ endpoint u ++ str " never opened a udp relay")
        (option_map (fun d =>
           let! bound_addr := (over d (let* _ := socks_greet u in
                                       let* _ := write_all (encode_request CMD_ASSOCIATE unspecified) in
                                       read_reply)).1 in
           let! relay := relay_address lookup bound_addr (host u) (port u) in
           let! _ := bound in Ok relay) dialled)
  end.

(** ** Detours *)

Record AttachIo : Type := mkAttachIo {
  ai_relay : result SocketAddr; ai_shim : result SocketAddr; ai_client : result SocketAddr }.

(** The detour made, if any, with the relay it leads to. *)
Definition attach (m : Detours) (u : option Upstream) (peer : SocketAddr) (io : AttachIo)
    : result (Detours * option (SocketAddr * Detour)) :=
  match u with
  | None => Ok (m, None)
  | Some _ =>
      if is_private (sa_ip peer) then Ok (m, None)
      else
        let! _ := ai_relay io in
        let! shim := ai_shim io in
        let! client := ai_client io in
        Ok (attach_detour m u client shim peer, Some (client, mkDetour shim peer))
  end.
(** The end of the pump: [map.remove(&client)]. *)
Definition detach (m : Detours) (client : SocketAddr) : Detours :=
  List.filter (fun e => negb (bool_decide (e.1 = client))) m.

(** The address a socket towards a peer is bound to. *)
Definition bind_addr_for (peer : SocketAddr) : SocketAddr :=
  match sa_ip peer with V4 _ => sock_new (V4 [0; 0; 0; 0]) 0 | V6 _ => sock_new (V6 (replicate 16 0)) 0 end.

(** [bind_via_upstream]: the port the system picked is an argument, and
    [local_addr] of a socket bound to every address has that address. *)
Definition bind_via_upstream (m : Detours) (u : option Upstream) (peer : SocketAddr) (port : Z) (relay shim : result SocketAddr)
    : result (Detours * SocketAddr * SocketAddr) :=
  let local := sock_new (sa_ip (bind_addr_for peer)) port in
  let! '(m, _) := attach m u peer (mkAttachIo relay shim (Ok local)) in
  Ok (m, local, relay_target m local peer).

(** ** The pump *)

Inductive pump_event : Type :=
| ShimGot (origin : SocketAddr) (payload : bytes) (fault : option io_error)   (* [fault]: the send that follows *)
| RelayGot (framed : bytes) (fault : option io_error)
| ShimFailed (e : io_error)
| RelayFailed (e : io_error).

Record Pump : Type := mkPump { pm_relayed : list bytes; pm_returned : list bytes }.

Definition malformed_header : io_error := mkIo InvalidData None.
Definition pump_turn (client peer : SocketAddr) (ev : pump_event) (p : Pump) : Pump + io_error :=
  match ev with
  | ShimGot origin payload fault =>
      if negb (bool_decide (origin = client)) then inl p
      else match fault with
           | Some e => inr e
           | None => inl (mkPump (pm_relayed p ++ [relay_send payload peer]) (pm_returned p))
           end
  | RelayGot framed fault =>
      match relay_recv framed 65535, fault with
      | Ok (payload, _), None => inl (mkPump (pm_relayed p) (pm_returned p ++ [payload]))
      | Ok _, Some e => inr e
      | _, _ => inr malformed_header
      end
  | ShimFailed e | RelayFailed e => inr e
  end.
Fixpoint pump (client peer : SocketAddr) (evs : list pump_event) (p : Pump) : Pump * option io_error :=
  match evs with
  | [] => (p, None)
  | ev :: evs =>
      match pump_turn client peer ev p with inl p => pump client peer evs p | inr e => (p, Some e) end
  end.

(** ** Sockets of the QUIC tunnel *)

(** [flush] picks the socket of the path, or any; [sockets] are its local
    addresses in the order of the table. *)
Definition flush_socket (m : Detours) (sockets : list SocketAddr) (from to : SocketAddr) : option (SocketAddr * SocketAddr) :=
  if bool_decide (from ∈ sockets) then Some (from, relay_target m from to)
  else match sockets with local :: _ => Some (local, relay_target m local to) | [] => None end.

(** [do_migrate]: what quiche says of spare connection ids, of the new path and
    of the move. *)
Record MigrateIo : Type := mkMigrateIo {
  mi_dcids : Z; mi_bound : result SocketAddr; mi_attach : SocketAddr -> result Detours; mi_probe : option Z; mi_move : option Z }.
Definition do_migrate (m : Detours) (sockets : list SocketAddr) (io : MigrateIo) : result unit * Detours * list SocketAddr :=
  if mi_dcids io =? 0 then (Err (Other (str "no spare dcids for migration")), m, sockets)
  else match mi_bound io with
  | Ok local =>
      match mi_attach io local with
      | Ok m =>
          let sockets := if bool_decide (local ∈ sockets) then sockets else sockets ++ [local] in
          (match mi_probe io, mi_move io with
           | Some code, _ | None, Some code => Err (Quic code)
           | None, None => Ok tt
           end, m, sockets)
      | Err e => (Err e, m, sockets)
      | Panic => (Panic, m, sockets)
      | OutOfFuel => (OutOfFuel, m, sockets)
      end
  | Err e => (Err e, m, sockets)
  | Panic => (Panic, m, sockets)
  | OutOfFuel => (OutOfFuel, m, sockets)
  end.

(** ** The forwarder of the inner tunnel *)

Record Forwarder : Type := mkForwarder {
  fw_peer : option SocketAddr; fw_up : list bytes; fw_down : list (SocketAddr * bytes) }.
Inductive fw_event : Type := LocalGot (from : SocketAddr) (data : bytes) | StackGot (data : bytes).
Definition forward_turn (ev : fw_event) (f : Forwarder) : Forwarder :=
  match ev with
  | LocalGot from data => mkForwarder (Some from) (fw_up f ++ [data]) (fw_down f)
  | StackGot data =>
      match fw_peer f with
      | Some dst => mkForwarder (fw_peer f) (fw_up f) (fw_down f ++ [(dst, data)])
      | None => f
      end
  end.
Definition forward (evs : list fw_event) : Forwarder := foldl (fun f ev => forward_turn ev f) (mkForwarder None [] []) evs.

(** ** What the pump carries *)

(** The datagrams of the client, and the payloads of the relay's. *)
Definition sent_by (client : SocketAddr) (evs : list pump_event) : list bytes :=
  omap (fun ev => match ev with ShimGot o x _ => if bool_decide (o = client) then Some x else None | _ => None end) evs.
Definition answers (evs : list pump_event) : list bytes :=
  omap (fun ev => match ev with
                  | RelayGot f _ => match relay_recv f 65535 with Ok (x, _) => Some x | _ => None end
                  | _ => None
                  end) evs.

Lemma pump_spec client peer evs : forall p p', pump client peer evs p = (p', None) ->
  pm_relayed p' = pm_relayed p ++ map (fun x => relay_send x peer) (sent_by client evs) /\
  pm_returned p' = pm_returned p ++ answers evs.
Proof.
  induction evs as [|ev evs IH]; intros p p'; simpl; [intros [= <-]; by rewrite !app_nil_r|].
  destruct (pump_turn client peer ev p) as [p1|e] eqn:E; [|done]. intros Hp. destruct (IH p1 p' Hp) as [-> ->]. clear IH Hp.
  destruct ev as [o x f|f fault|e|e]; simpl in E |- *; try done.
  - destruct (bool_decide (o = client)); simpl in E; [|by injection E as <-].
    destruct f; [done|]. injection E as <-. simpl. by rewrite <- app_assoc.
  - destruct (relay_recv f 65535) as [[x o]| | |]; try done. destruct fault; [done|]. injection E as <-. simpl.
    by rewrite <- app_assoc.
Qed.

Lemma attached_get m u peer io m' client d : attach m u peer io = Ok (m', Some (client, d)) ->
  detour_get m' client = Some d /\ dt_peer d = peer.
Proof.
  unfold attach, attach_detour. destruct u as [u|]; [|done]. destruct (is_private _); [done|]. intros E.
  apply obind_Ok in E as (? & _ & E). apply obind_Ok in E as (? & _ & E). apply obind_Ok in E as (? & _ & E). simplify_eq.
  simpl. by rewrite bool_decide_eq_true_2.
Qed.

(** A detour is transparent to a socket that sends from the very address it is
    bound to, while the pump meets no error.  The socket's datagrams reach the
    proxy's relay in order, each readable as its payload for the peer, and
    every answer comes back as its bare payload; towards the engine the shim
    stands for the peer in both directions, and what other sockets send to the
    shim is ignored.  The sockets of the engine are bound to every address and
    are not of this kind ([wildcard_socket_unheard]). *)
Theorem detour_transparent m u peer io m' client d evs p :
  attach m u peer io = Ok (m', Some (client, d)) -> sock_ok peer ->
  pump client peer evs (mkPump [] []) = (p, None) -> Forall (fun x => zlen x <= 65535) (sent_by client evs) ->
  relay_target m' client peer = dt_shim d /\ real_source m' client (dt_shim d) = peer /\
  map (fun f => relay_recv f 65535) (pm_relayed p) = map (fun x => Ok (x, peer)) (sent_by client evs) /\
  pm_returned p = answers evs.
Proof.
  intros [Hg Hp]%attached_get Hok Hr Hs. apply pump_spec in Hr as [Hr Hb]. simpl in Hr, Hb. unfold relay_target, real_source.
  rewrite Hg. split_and!; [done|by rewrite bool_decide_eq_true_2| |done].
  rewrite Hr, map_map. clear Hr Hb. induction Hs as [|x l Hx Hs IH]; [done|]. simpl. rewrite IH. f_equal.
  by apply relay_recv_sent.
Qed.

(** No datagram has the unspecified address as its source. *)
Definition real_origin (ev : pump_event) : Prop :=
  match ev with ShimGot o _ _ => ip_is_unspecified (sa_ip o) = false | _ => True end.

(** A socket that is bound to every address is never heard: the pump compares
    the source of a datagram with the address the socket is bound to, and the
    two always differ.  Every socket of the engine is bound that way. *)
Theorem wildcard_socket_unheard m u peer port relay shim m' local target evs p :
  bind_via_upstream m u peer port relay shim = Ok (m', local, target) -> Forall real_origin evs ->
  pm_relayed (pump local peer evs p).1 = pm_relayed p.
Proof.
  unfold bind_via_upstream. intros E Hf. apply obind_Ok in E as ([m1 made] & _ & E). injection E as <- <- <-.
  set (local := sock_new _ _). assert (ip_is_unspecified (sa_ip local) = true) as Hl
    by (unfold local, bind_addr_for; by destruct (sa_ip peer)).
  revert p. induction Hf as [|ev evs Hev Hf IH]; intros p; [done|]. simpl.
  destruct ev as [o x f|f fault|e|e]; simpl; try done.
  - rewrite (bool_decide_eq_false_2 (o = local)); [by apply IH|]. intros ->. unfold real_origin in Hev. by rewrite Hl in Hev.
  - destruct (relay_recv f 65535) as [[x o]| | |]; try done. destruct fault; [done|]. by rewrite IH.
Qed.

(** An entry stays when its socket is gone: a later socket with the same local
    address and a private peer is led to the old shim. *)
Lemma stale_detour_followed m u io client d later m2 :
  detour_get m client = Some d -> is_private (sa_ip later) = true -> attach m u later io = Ok (m2, None) ->
  relay_target m2 client later = dt_shim d.
Proof.
  intros Hg Hp. unfold attach. rewrite Hp. intros E. assert (m2 = m) as -> by (destruct u; by simplify_eq).
  unfold relay_target. by rewrite Hg.
Qed.

(** The forwarder sends everything on in order. *)
Lemma forward_up evs : fw_up (forward evs) = omap (fun ev => match ev with LocalGot _ x => Some x | _ => None end) evs.
Proof.
  unfold forward. assert (forall f, fw_up (foldl (fun f ev => forward_turn ev f) f evs) =
    fw_up f ++ omap (fun ev => match ev with LocalGot _ x => Some x | _ => None end) evs) as G; [|apply G].
  induction evs as [|ev evs IH]; intros f; simpl; [by rewrite app_nil_r|]. rewrite IH. destruct ev as [from x|x]; simpl.
  - by rewrite <- app_assoc.
  - by destruct (fw_peer f).
Qed.
(** Answers go to whoever sent last: any process on the device that sends a
    datagram to the forwarder's port takes the tunnel's answers over. *)
Lemma last_sender_gets_answers evs from x y : exists down,
  fw_down (forward (evs ++ [LocalGot from x; StackGot y])) = down ++ [(from, y)].
Proof. unfold forward. rewrite foldl_app. simpl. by eexists. Qed.

(** *** An example: a socket on the loopback interface *)

Definition demo_peer : SocketAddr := sock_new (V4 [162; 159; 198; 1]) 443.
Definition demo_client : SocketAddr := sock_new (V4 [127; 0; 0; 1]) 50000.
Definition demo_shim : SocketAddr := sock_new (V4 [127; 0; 0; 1]) 50001.
Definition demo_io : AttachIo := mkAttachIo (Ok (sock_new (V4 [10; 0; 0; 1]) 1080)) (Ok demo_shim) (Ok demo_client).
Definition demo_upstream : Upstream := mkUpstream Socks5 (str "10.0.0.1") 1080 None None.
Definition demo_events : list pump_event :=
  [ShimGot demo_client [1; 2] None; RelayGot (relay_send [3] demo_peer) None; ShimGot demo_shim [9] None; ShimGot demo_client [4] None].

Lemma detour_transparent_witness :
  let p := (pump demo_client demo_peer demo_events (mkPump [] [])).1 in
  map (fun f => relay_recv f 65535) (pm_relayed p) = [Ok ([1; 2], demo_peer); Ok ([4], demo_peer)] /\ pm_returned p = [[3]].
Proof.
  destruct (detour_transparent [] (Some demo_upstream) demo_peer demo_io [(demo_client, mkDetour demo_shim demo_peer)] demo_client
    (mkDetour demo_shim demo_peer) demo_events (pump demo_client demo_peer demo_events (mkPump [] [])).1) as (_ & _ & Hr & Hb).
  - vm_compute. reflexivity.
  - split; [split; [reflexivity|repeat constructor; vm_compute; congruence]|vm_compute; repeat split; congruence].
  - vm_compute. reflexivity.
  - repeat constructor; vm_compute; congruence.
  - split; [exact Hr|exact Hb].
Defined.
