(* ===== verification/Socks.v ===== *)
(** * The SOCKS5 and HTTP proxies

    Models socks.rs apart from its DNS half (see Dns.v): the server side of the
    SOCKS5 handshake, routing of CONNECT requests with name sniffing and the
    gateway proxy, the UDP association and the HTTP proxy's request line.  What
    sockets and the network stack answer is an argument; writes to the client
    are taken to succeed. *)

From Stdlib Require Import ZArith Lia ZifyBool String List.
From stdpp Require Import base list numbers option decidable.
From S2P Require Import Prelude RustStr NetAddr Errors Stream Routing Sniff Upstream.
Open Scope Z_scope.

Definition CMD_UDP_ASSOCIATE : Z := 0x03.
Definition ATYP_DOMAIN : Z := 0x03.
Definition REP_GENERAL : Z := 0x01.
Definition REP_NOT_ALLOWED : Z := 0x02.
Definition REP_NOT_SUPPORTED : Z := 0x07.

Inductive SocksTarget : Type :=
| TIp (ip : IpAddr)
| TDomain (name : bytes).

(** [copy_pipe] on what the reader yields, an error included: the bytes written
    and the count returned. *)
Fixpoint copy_pipe (reads : list (bytes + io_error)) (total : Z) : bytes * (Z + io_error) :=
  match reads with
  | [] => ([], inl total)
  | inl [] :: _ => ([], inl total)
  | inl chunk :: reads => let '(out, r) := copy_pipe reads (as_u64 (total + zlen chunk)) in (chunk ++ out, r)
  | inr e :: _ => ([], inr e)
  end.

(** The delay in milliseconds before the listener accepts again; [None] ends
    it.  The numbers are Linux's EMFILE, ENFILE, ENOBUFS and ENOMEM. *)
Definition accept_backoff (e : io_error) : option Z :=
  match io_kind e with
  | ConnectionAborted | ConnectionReset | ConnectionRefused | Interrupted | WouldBlock | TimedOut
  | PermissionDenied => Some 0
  | _ =>
      match io_os e with
      | Some code => if (code =? 24) || (code =? 23) || (code =? 105) || (code =? 12) then Some 100 else None
      | None => None
      end
  end.

(** ** SOCKS5, server side *)

Definition handshake : IO unit :=
  let* prefix := read_exact 2 in
  let* v := at_index prefix 0 in
  if negb (v =? VER) then fail (Other (str "bad greeting version"))
  else let* nmethods := at_index prefix 1 in
  let* _ := read_exact nmethods in
  write_all [VER; 0].

Definition read_target (atyp : Z) : IO (SocksTarget * Z) :=
  let* target :=
    (if atyp =? ATYP_V4 then let* b := read_exact 4 in ret (TIp (V4 b))
     else if atyp =? ATYP_V6 then let* b := read_exact 16 in ret (TIp (V6 b))
     else if atyp =? ATYP_DOMAIN then
       let* len := read_exact 1 in
       let* n := at_index len 0 in
       let* name := read_exact n in
       ret (TDomain (from_utf8_lossy name))
     else fail (Other (str "bad atyp"))) in
  let* port := read_exact 2 in
  let* p0 := at_index port 0 in
  let* p1 := at_index port 1 in
  ret (target, p0 * 256 + p1).

Definition reply_bytes (code : Z) : bytes := [VER; code; 0; ATYP_V4; 0; 0; 0; 0; 0; 0].
Definition reply (code : Z) : IO unit := write_all (reply_bytes code).
Definition reply_bound_bytes (bound : SocketAddr) : bytes :=
  [VER; REP_OK; 0] ++ match sa_ip bound with V4 o => [ATYP_V4] ++ o | V6 o => [ATYP_V6] ++ o end
  ++ to_be 2 (sa_port bound).
Definition reply_bound (bound : SocketAddr) : IO unit := write_all (reply_bound_bytes bound).

Inductive Command : Type :=
| Connect (t : SocksTarget) (port : Z)
| UdpAssociate (t : SocksTarget) (port : Z).

(** [handle_client] up to the command's own handler. *)
Definition handle_client : IO Command :=
  let* _ := handshake in
  let* head := read_exact 4 in
  let* v := at_index head 0 in
  if negb (v =? VER) then fail (Other (str "bad socks version"))
  else let* cmd := at_index head 1 in
  let* atyp := at_index head 3 in
  let* '(target, port) := read_target atyp in
  if cmd =? CMD_CONNECT then ret (Connect target port)
  else if cmd =? CMD_UDP_ASSOCIATE then ret (UdpAssociate target port)
  else let* _ := reply REP_NOT_SUPPORTED in fail (Other (str "unsupported socks command")).

(** ** The gateway proxy *)

(** The two statics: [GATEWAY_PROXY] can be set once, [GATEWAY_HEALTHY] only
    goes from true to false. *)
Record Gateway : Type := mkGateway { gw_proxy : option SocketAddr; gw_healthy : bool }.
Definition gateway_init : Gateway := mkGateway None true.
Definition set_gateway_proxy (g : Gateway) (address : bytes) : Gateway :=
  let trimmed := trim address in
  match trimmed with
  | [] => g
  | _ =>
      match parse_socket_addr trimmed, gw_proxy g with
      | Some parsed, None => mkGateway (Some parsed) (gw_healthy g)
      | _, _ => g
      end
  end.
Definition gateway_proxy (g : Gateway) : option SocketAddr := if gw_healthy g then gw_proxy g else None.
Definition retire_gateway (g : Gateway) : Gateway := mkGateway (gw_proxy g) false.
Definition should_use_gateway (port : Z) : bool := (port =? 80) || (port =? 443).

Definition UA_REGISTER : bytes := str "WARP for Android".

Definition build_proxy_connect (target : bytes) (port : Z) : bytes :=
  let authority :=
    if contains_char target 58 && negb (starts_with target [91]) then [91] ++ target ++ [93; 58] ++ dec_str port
    else target ++ [58] ++ dec_str port in
  str "CONNECT " ++ authority ++ str " HTTP/1.1" ++ [13; 10] ++ str "Host: " ++ authority ++ [13; 10]
  ++ str "User-Agent: " ++ UA_REGISTER ++ [13; 10; 13; 10].

Definition proxy_connect_succeeded (head : bytes) : option bool :=
  let text := from_utf8_lossy head in
  let? '(line, _) := split_once_str [13; 10] text in
  match split_whitespace line with
  | _ :: status :: _ =>
      let? status := parse_u16 status in Some ((200 <=? status) && (status <? 300))
  | _ => None
  end.

Definition GATEWAY_HEAD_LIMIT : Z := 8192.

(** [windows(4).position(..).map(|at| at + 4)]. *)
Fixpoint find_head_end (buffer : bytes) : option Z :=
  match buffer with
  | [] => None
  | _ :: r =>
      if starts_with buffer [13; 10; 13; 10] then Some 4
      else let? n := find_head_end r in Some (n + 1)
  end.

(** The receive loop of [open_through_gateway]: the bytes after the head. *)
Inductive gw_event : Type := GwChunk (b : bytes) | GwTimeout | GwClosed.
Fixpoint gateway_loop (evs : list gw_event) (head : bytes) : option (result bytes) :=
  match evs with
  | [] => None
  | GwTimeout :: _ => Some (Err (Other (str "gateway did not answer in time")))
  | GwClosed :: _ => Some (Err (Other (str "gateway closed the connection")))
  | GwChunk chunk :: evs =>
      let head := head ++ chunk in
      match find_head_end head with
      | Some at_ =>
          match proxy_connect_succeeded head with
          | None => Some (Err (Other (str "gateway sent a malformed response")))
          | Some false => Some (Err (Other (str "gateway refused")))
          | Some true => Some (Ok (zdrop at_ head))
          end
      | None =>
          if GATEWAY_HEAD_LIMIT <? zlen head then Some (Err (Other (str "gateway sent an oversized response head")))
          else gateway_loop evs head
      end
  end.

(** ** CONNECT *)

Section Connect.
Context `{Target} `{UnicodeTables} `{RouteLib}.

Definition host_of (t : SocksTarget) : Host := match t with TDomain name => HDomain name | TIp ip => HIp ip end.

Definition decide_route (set : RuleSet) (t : SocksTarget) (sniffed : option bytes) (port : Z) : Action :=
  match sniffed with
  | Some name =>
      match decide_action set (HDomain name) port with
      | Proxy => decide_action set (host_of t) port
      | decided => decided
      end
  | None => decide_action set (host_of t) port
  end.

Definition sniff_enabled (env : Env) : bool :=
  match env (str "SOILDTUNNEL_ROUTE_SNIFF") with
  | Some v => negb (is_any v [str "0"; str "off"; str "false"])
  | None => true
  end.

Definition sniff_window (env : Env) : Z :=
  match env (str "SOILDTUNNEL_ROUTE_SNIFF_MS") with
  | Some v => match parse_u64 (trim v) with Some n => if 0 <? n then n else 400 | None => 400 end
  | None => 400
  end.

(** What the socket and the dials answer. *)
Record ConnectIo : Type := mkConnectIo {
  io_sniff : option bytes;          (* [read_sniff_head] *)
  io_gateway : result bytes;        (* [open_through_gateway]: the leftover *)
  io_open : result unit;            (* [backend.open_tcp] *)
  io_direct : bool }.               (* whether the direct dial connects *)

(** What the handler does: the replies written to the client, the bytes sent
    ahead to the other side and to the client, the route, and its result. *)
Record ConnectOut : Type := mkOut {
  out_replies : list bytes; out_ahead : bytes; out_leftover : bytes; out_route : option Action;
  out_gateway : Gateway; out_result : result unit }.

Definition bound_any : bytes := reply_bound_bytes (sock_new (V4 [0; 0; 0; 0]) 0).

Definition handle_direct (g : Gateway) (io : ConnectIo) (head : bytes) (replied : list bytes) : ConnectOut :=
  let once code := match replied with [] => [code] | _ => replied end in
  if io_direct io then mkOut (once bound_any) head [] (Some Direct) g (Ok tt)
  else mkOut (once (reply_bytes REP_GENERAL)) [] [] None g (Ok tt).

Definition handle_connect (env : Env) (rules : RuleSet) (g : Gateway) (io : ConnectIo) (t : SocksTarget) (port : Z)
    : ConnectOut :=
  let sniffing := match t with TIp _ => sniff_enabled env && has_domain_rules rules | TDomain _ => false end in
  let after (head : bytes) (named : option bytes) (replied : list bytes) :=
    let once r := match replied with [] => [r] | _ => replied end in
    match decide_route rules t named port with
    | Block => mkOut (once (reply_bytes REP_NOT_ALLOWED)) [] [] None g (Ok tt)
    | Direct => handle_direct g io head replied
    | Proxy =>
        let via := if should_use_gateway port then gateway_proxy g else None in
        let open_plain g :=
          match io_open io with
          | Ok _ => mkOut (once bound_any) head [] (Some Proxy) g (Ok tt)
          | r => mkOut (replied ++ [reply_bytes REP_GENERAL]) [] [] None g r
          end in
        match via with
        | Some _ =>
            match io_gateway io with
            | Ok leftover => mkOut (once bound_any) head leftover (Some Proxy) g (Ok tt)
            | _ => open_plain (retire_gateway g)
            end
        | None => open_plain g
        end
    end in
  if sniffing then
    match io_sniff io with
    | None => mkOut [bound_any] [] [] None g (Ok tt)
    | Some head => after head (match head with [] => None | _ => hostname head end) [bound_any]
    end
  else after [] None [].

End Connect.

(** ** UDP association *)

Definition normalize_ip (ip : IpAddr) : IpAddr :=
  match ip with
  | V6 v6 => match to_ipv4_mapped v6 with Some v4 => V4 v4 | None => V6 v6 end
  | other => other
  end.

Definition expected_udp_source (control_peer : SocketAddr) (requested : SocksTarget) : IpAddr :=
  match requested with
  | TIp ip => if negb (ip_is_unspecified ip) then normalize_ip ip else normalize_ip (sa_ip control_peer)
  | TDomain _ => normalize_ip (sa_ip control_peer)
  end.

Definition udp_source_allowed (expected_ip : IpAddr) (latched : option SocketAddr) (from : SocketAddr) : bool :=
  match latched with
  | Some known => bool_decide (known = from)
  | None => bool_decide (normalize_ip (sa_ip from) = normalize_ip expected_ip)
  end.

(** [Err] stands for the source's [None]. *)
Definition parse_udp_request (buf : bytes) : outcome unit (SocksTarget * (Z * bytes)) :=
  if zlen buf <? 4 then Err tt
  else let! frag := idx buf 2 in
  if negb (frag =? 0) then Err tt
  else let! atyp := idx buf 3 in
  let! '(target, pos) :=
    (if atyp =? ATYP_V4 then
       if zlen buf <? 4 + 4 then Err tt else let! ip := idx_range buf 4 8 in Ok (TIp (V4 ip), 8)
     else if atyp =? ATYP_V6 then
       if zlen buf <? 4 + 16 then Err tt else let! ip := idx_range buf 4 20 in Ok (TIp (V6 ip), 20)
     else if atyp =? ATYP_DOMAIN then
       let! len := ok_or (zget buf 4) tt in
       if zlen buf <? 5 + len then Err tt
       else let! name := idx_range buf 5 (5 + len) in Ok (TDomain (from_utf8_lossy name), 5 + len)
     else Err tt) in
  if zlen buf <? pos + 2 then Err tt
  else let! port := port_at buf pos in
       let! payload := idx_range buf (pos + 2) (zlen buf) in
       Ok (target, (port, payload)).

Definition build_udp_reply (src : SocketAddr) (data : bytes) : bytes :=
  [0; 0; 0] ++ match sa_ip src with V4 o => [ATYP_V4] ++ o | V6 o => [ATYP_V6] ++ o end
  ++ to_be 2 (sa_port src) ++ data.

Section Associate.
Context `{UnicodeTables} `{RouteLib}.
(** [tokio::net::lookup_host(..).next()]. *)
Context (lookup : bytes -> Z -> option SocketAddr).

Record Assoc : Type := mkAssoc { as_client : option SocketAddr; as_refused : Z }.

Inductive assoc_event : Type :=
| FromClient (from : SocketAddr) (data : bytes)
| FromStack (src : SocketAddr) (data : bytes)
| FromDirect (src : SocketAddr) (data : bytes).

(** What a turn of the loop sends. *)
Inductive assoc_action : Type :=
| ToTunnel (t : SocksTarget) (port : Z) (data : bytes)
| ToDirect (dst : SocketAddr) (data : bytes)
| ToClient (c : SocketAddr) (pkt : bytes).

Definition assoc_turn (rules : RuleSet) (expected_ip : IpAddr) (ev : assoc_event) (a : Assoc)
    : outcome unit (Assoc * list assoc_action) :=
  match ev with
  | FromClient from buf =>
      if negb (udp_source_allowed expected_ip (as_client a) from) then
        Ok (mkAssoc (as_client a) (as_u64 (as_refused a + 1)), [])
      else
        let a := match as_client a with None => mkAssoc (Some from) (as_refused a) | Some _ => a end in
        match parse_udp_request buf with
        | Ok (dst, (dst_port, payload)) =>
            match decide_action rules (host_of dst) dst_port with
            | Block => Ok (a, [])
            | Direct =>
                let outside := match dst with TIp ip => Some (sock_new ip dst_port) | TDomain name => lookup name dst_port end in
                match outside with
                | Some addr => Ok (a, [ToDirect addr payload])
                | None => Ok (a, [])
                end
            | Proxy => Ok (a, [ToTunnel dst dst_port payload])
            end
        | Err _ => Ok (a, [])
        | Panic => Panic
        | OutOfFuel => OutOfFuel
        end
  | FromStack src data | FromDirect src data =>
      match as_client a with
      | Some c => Ok (a, [ToClient c (build_udp_reply src data)])
      | None => Ok (a, [])
      end
  end.

End Associate.

(** ** The HTTP proxy's request line *)

Record HttpRequestLine : Type := mkLine {
  rl_method : bytes; rl_authority : bytes; rl_port : Z; rl_rewritten : option bytes }.

Definition parse_authority (raw : bytes) (default_port : Z) : option (bytes * Z) :=
  let raw := trim raw in
  match raw with
  | [] => None
  | _ =>
      match strip_prefix raw [91] with
      | Some rest =>
          let? '(host, tail) := split_once 93 rest in
          match host with
          | [] => None
          | _ =>
              match strip_prefix tail [58] with
              | Some value => let? port := parse_u16 value in Some (host, port)
              | None => Some (host, default_port)
              end
          end
      | None =>
          match rsplit_once 58 raw with
          | Some (host, port) =>
              if negb (contains_char host 58) then
                match host with [] => None | _ => let? port := parse_u16 port in Some (host, port) end
              else Some (raw, default_port)
          | None => Some (raw, default_port)
          end
      end
  end.

Definition parse_request_line (line : bytes) : option HttpRequestLine :=
  match split_whitespace line with
  | method :: target :: more =>
      let version := match more with v :: _ => v | [] => str "HTTP/1.1" end in
      if eq_ignore_ascii_case method (str "CONNECT") then
        let? '(authority, port) := parse_authority target 443 in Some (mkLine method authority port None)
      else
        let? without_scheme :=
          match strip_prefix target (str "http://") with
          | Some r => Some r
          | None => strip_prefix target (str "HTTP://")
          end in
        let '(authority_part, path) :=
          match split_once 47 without_scheme with
          | Some (a, p) => (a, 47 :: p)
          | None => (without_scheme, [47])
          end in
        let? '(authority, port) := parse_authority authority_part 80 in
        Some (mkLine method authority port (Some (method ++ [32] ++ path ++ [32] ++ version ++ [13; 10])))
  | _ => None
  end.

Definition HTTP_HEAD_LIMIT : Z := 16 * 1024.

(** [read_head]: the head and the bytes after it. *)
Fixpoint read_request_head (inp head : bytes) : result (bytes * bytes) :=
  match inp with
  | [] => Err (Other (str "the http client closed before sending a request"))
  | b :: inp =>
      let head := head ++ [b] in
      if ends_with head [13; 10; 13; 10] then Ok (head, inp)
      else if HTTP_HEAD_LIMIT <? zlen head then Err (Other (str "http request head too large"))
      else read_request_head inp head
  end.

(** What [handle_http_client] sends ahead to the origin server: the request
    with its line rewritten to the origin form. *)
Definition http_preamble (r : HttpRequestLine) (head : bytes) : option bytes :=
  match rl_rewritten r with
  | Some line =>
      let rest := match split_once_str [13; 10] (from_utf8_lossy head) with Some (_, tail) => tail | None => [] end in
      Some (line ++ rest)
  | None => None
  end.

Definition http_reply (status : bytes) : bytes := str "HTTP/1.1 " ++ status ++ [13; 10].
Definition BAD_REQUEST : bytes := http_reply (str "400 Bad Request") ++ str "Connection: close" ++ [13; 10; 13; 10].
Definition FORBIDDEN : bytes := http_reply (str "403 Forbidden") ++ str "Connection: close" ++ [13; 10; 13; 10].
Definition BAD_GATEWAY : bytes := http_reply (str "502 Bad Gateway") ++ str "Connection: close" ++ [13; 10; 13; 10].
Definition ESTABLISHED : bytes := http_reply (str "200 Connection established") ++ [13; 10].

Section HttpProxy.
Context `{UnicodeTables} `{RouteLib}.

(** [open_tunneled]: the leftover of the gateway's answer, and the gateway. *)
Definition open_tunneled (g : Gateway) (io : ConnectIo) (port : Z) : result bytes * Gateway :=
  let plain g := (let! _ := io_open io in Ok [], g) in
  match (if should_use_gateway port then gateway_proxy g else None) with
  | Some _ => match io_gateway io with Ok leftover => (Ok leftover, g) | _ => plain (retire_gateway g) end
  | None => plain g
  end.

(** What [handle_http_client] does up to the relaying: what it writes to the
    client, what it sends ahead to the origin, the route, the bytes of the
    client not read yet, and its result. *)
Record HttpOut : Type := mkHttpOut {
  ho_client : bytes; ho_ahead : bytes; ho_route : option Action; ho_unread : bytes; ho_gateway : Gateway;
  ho_result : result unit }.

Definition http_target (r : HttpRequestLine) : SocksTarget :=
  match parse_ip (rl_authority r) with Some ip => TIp ip | None => TDomain (rl_authority r) end.

(** [relay_http_direct] up to the relaying. *)
Definition relay_http_direct (g : Gateway) (io : ConnectIo) (r : HttpRequestLine) (head unread : bytes) : HttpOut :=
  if io_direct io then
    match http_preamble r head with
    | Some ahead => mkHttpOut [] ahead (Some Direct) unread g (Ok tt)
    | None => mkHttpOut ESTABLISHED [] (Some Direct) unread g (Ok tt)
    end
  else mkHttpOut BAD_GATEWAY [] None unread g (Err (Io (mkIo OtherKind None))).

Definition handle_http_client (rules : RuleSet) (g : Gateway) (io : ConnectIo) (inp : bytes) : HttpOut :=
  match read_request_head inp [] with
  | Ok (head, unread) =>
      let text := from_utf8_lossy head in
      let first_line := match lines text with l :: _ => l | [] => [] end in
      match parse_request_line first_line with
      | None =>
          mkHttpOut BAD_REQUEST [] None unread g (Err (Other (str "unsupported http proxy request: " ++ first_line)))
      | Some request =>
          match decide_action rules (host_of (http_target request)) (rl_port request) with
          | Block => mkHttpOut FORBIDDEN [] None unread g (Ok tt)
          | Direct => relay_http_direct g io request head unread
          | Proxy =>
              match open_tunneled g io (rl_port request) with
              | (Ok leftover, g) =>
                  match http_preamble request head with
                  | Some ahead => mkHttpOut leftover ahead (Some Proxy) unread g (Ok tt)
                  | None => mkHttpOut (ESTABLISHED ++ leftover) [] (Some Proxy) unread g (Ok tt)
                  end
              | (Err e, g) => mkHttpOut BAD_GATEWAY [] None unread g (Err e)
              | (Panic, g) => mkHttpOut [] [] None unread g Panic
              | (OutOfFuel, g) => mkHttpOut [] [] None unread g OutOfFuel
              end
          end
      end
  | Err e => mkHttpOut [] [] None [] g (Err e)
  | Panic => mkHttpOut [] [] None [] g Panic
  | OutOfFuel => mkHttpOut [] [] None [] g OutOfFuel
  end.

(** The HTTP proxy, too, opens connections only where the rules say. *)
Lemma http_follows_rules rules g io inp a :
  ho_route (handle_http_client rules g io inp) = Some a ->
  a <> Block /\ exists head unread request,
    read_request_head inp [] = Ok (head, unread) /\
    parse_request_line (match lines (from_utf8_lossy head) with l :: _ => l | [] => [] end) = Some request /\
    decide_action rules (host_of (http_target request)) (rl_port request) = a.
Proof.
  unfold handle_http_client. destruct (read_request_head inp []) as [[head unread]| | |] eqn:Eh; try done.
  destruct (parse_request_line _) as [request|] eqn:Er; [|done].
  destruct (decide_action _ _ _) eqn:Ed; [| |done].
  all: intros Ha; assert (a <> Block /\ decide_action rules (host_of (http_target request)) (rl_port request) = a) as [Hn Hd];
    [rewrite Ed; revert Ha; unfold relay_http_direct; repeat case_match; simpl; intros; simplify_eq; done|].
  all: split; [done|]; exists head, unread, request; done.
Qed.

End HttpProxy.

(** ** CONNECT: replies and routes *)

Section ConnectSpec.
Context `{Target} `{UnicodeTables} `{RouteLib}.

(** Whether the connection is answered before its route is known, and the name
    its first bytes announce. *)
Definition sniffs (env : Env) (rules : RuleSet) (t : SocksTarget) : bool :=
  match t with TIp _ => sniff_enabled env && has_domain_rules rules | TDomain _ => false end.
Definition announced (env : Env) (rules : RuleSet) (t : SocksTarget) (io : ConnectIo) : option bytes :=
  if sniffs env rules t then match io_sniff io with Some (b :: r) => hostname (b :: r) | _ => None end else None.
Definition swallowed (env : Env) (rules : RuleSet) (t : SocksTarget) (io : ConnectIo) : bytes :=
  if sniffs env rules t then unwrap_or_default (io_sniff io) else [].

(** C21: a CONNECT goes only where the rules say.  A connection is opened by a
    route only if that is the rules' decision for the target and the name its
    first bytes announce, never for a blocked one, and then the client has
    exactly one reply, success, and the bytes read for sniffing are passed on;
    without a route nothing is passed on in either direction.  The client gets
    exactly one reply, apart from a second, failing one after an early
    success.  A retired gateway stays retired. *)
Theorem connect_follows_rules (env : Env) (rules : RuleSet) (g : Gateway) (io : ConnectIo) (t : SocksTarget) (port : Z) :
  let out := handle_connect env rules g io t port in
  match out_route out with
  | Some a =>
      decide_route rules t (announced env rules t io) port = a /\ a <> Block /\
      out_replies out = [bound_any] /\ out_ahead out = swallowed env rules t io
  | None => out_ahead out = [] /\ out_leftover out = []
  end /\
  (length (out_replies out) = 1%nat \/
   sniffs env rules t = true /\ out_replies out = [bound_any; reply_bytes REP_GENERAL]) /\
  gw_proxy (out_gateway out) = gw_proxy g /\ (gw_healthy (out_gateway out) = true -> gw_healthy g = true).
Proof.
  unfold handle_connect, handle_direct, announced, swallowed, sniffs.
  destruct (match t with TIp _ => _ | TDomain _ => false end).
  - destruct (io_sniff io) as [[|b head]|]; [| |simpl; split_and!; auto];
      cbn [unwrap_or_default]; destruct (decide_route _ _ _ _) eqn:Ed; repeat case_match; simpl in *; simplify_eq; split_and!; auto; done.
  - destruct (decide_route _ _ _ _) eqn:Ed; repeat case_match; simpl in *; simplify_eq; split_and!; auto; done.
Qed.

(** The exception.  When sniffing has already answered with success and
    the tunnel then cannot open the connection, a second SOCKS reply is
    written: the client, for whom the handshake was over, reads ten bytes of
    it as the start of the server's data. *)
Theorem sniffed_connect_replied_twice
    (env : Env) (rules : RuleSet) (g : Gateway) (io : ConnectIo) (t : SocksTarget) (port : Z) (head : bytes) e :
  sniffs env rules t = true -> io_sniff io = Some head ->
  decide_route rules t (announced env rules t io) port = Proxy ->
  io_gateway io = Err e -> io_open io = Err e ->
  let out := handle_connect env rules g io t port in
  out_replies out = [bound_any; reply_bytes REP_GENERAL] /\ out_route out = None /\ out_result out = Err e.
Proof.
  unfold announced. intros Hs Hh Hd Hg Ho. rewrite Hs, Hh in Hd.
  unfold handle_connect. fold (sniffs env rules t). rewrite Hs, Hh. rewrite Ho, Hg.
  replace (match head with [] => None | _ => hostname head end)
    with (match head with [] => None | b :: r => hostname (b :: r) end) by (by destruct head).
  rewrite Hd. by repeat case_match.
Qed.

End ConnectSpec.

Lemma sniffed_connect_replied_twice_witness :
  let rules := mkRules (H0 := single_addresses) [DomainSuffix (str "example.com")] [] in
  let e := Other (str "refused") in
  let io := mkConnectIo (Some [22; 3; 1]) (Err e) (Err e) false in
  let out := handle_connect (H := target64) (H0 := no_unicode) (H1 := single_addresses)
    (fun _ => None) rules gateway_init io (TIp (V4 [192; 0; 2; 1])) 443 in
  out_replies out = [bound_any; reply_bytes REP_GENERAL] /\ out_route out = None /\ out_result out = Err e.
Proof.
  intros rules e io.
  apply (sniffed_connect_replied_twice (H := target64) (H0 := no_unicode) (H1 := single_addresses)
    (fun _ => None) rules gateway_init io (TIp (V4 [192; 0; 2; 1])) 443 [22; 3; 1] e); vm_compute; reflexivity.
Defined.

(** ** The association refines its specification *)

Lemma parse_udp_request_returns buf : bytes_ok buf -> returns (parse_udp_request buf).
Proof.
  intros Hb. unfold parse_udp_request, port_at. destruct (zlen buf <? 4) eqn:E4; [done|].
  apply returns_bind; [apply idx_returns; lia|]. intros frag _. destruct (negb _); [done|].
  apply returns_bind; [apply idx_returns; lia|]. intros atyp _.
  assert (forall t pos, 0 <= pos -> returns (if zlen buf <? pos + 2 then Err tt
    else let! port := (let! a := idx buf pos in let! b := idx buf (pos + 1) in Ok (a * 256 + b)) in
         let! payload := idx_range buf (pos + 2) (zlen buf) in Ok (t : SocksTarget, (port, payload)))) as Htail.
  { intros t pos Hpos. destruct (zlen buf <? pos + 2) eqn:E; [done|].
    apply returns_bind; [|intros; apply returns_bind; [apply idx_range_returns; lia|done]].
    apply returns_bind; [apply idx_returns; lia|]. intros. apply returns_bind; [apply idx_returns; lia|done]. }
  assert (forall (m : outcome unit (SocksTarget * Z)), returns m -> (forall t pos, m = Ok (t, pos) -> 0 <= pos) ->
    returns (let! '(target, pos) := m in if zlen buf <? pos + 2 then Err tt
      else let! port := (let! a := idx buf pos in let! b := idx buf (pos + 1) in Ok (a * 256 + b)) in
           let! payload := idx_range buf (pos + 2) (zlen buf) in Ok (target, (port, payload)))) as Hwrap.
  { intros m Hm Hpos. apply returns_bind; [done|]. intros [t pos] E. apply Htail. by eapply Hpos. }
  apply Hwrap; (destruct (atyp =? ATYP_V4); [|destruct (atyp =? ATYP_V6); [|destruct (atyp =? ATYP_DOMAIN); [|done]]]).
  - destruct (zlen buf <? 4 + 4) eqn:E; [done|]. apply returns_bind; [apply idx_range_returns; lia|done].
  - destruct (zlen buf <? 4 + 16) eqn:E; [done|]. apply returns_bind; [apply idx_range_returns; lia|done].
  - destruct (zget buf 4) as [n|] eqn:En; [|done]. cbn [ok_or obind]. destruct (zlen buf <? 5 + n) eqn:E; [done|].
    pose proof (zget_ok _ _ _ Hb En) as Hu. unfold is_u8 in Hu.
    apply returns_bind; [apply idx_range_returns; lia|done].
  - intros t pos. destruct (zlen buf <? 4 + 4); [done|]. destruct (idx_range buf 4 8); simpl; intros; simplify_eq; lia.
  - intros t pos. destruct (zlen buf <? 4 + 16); [done|]. destruct (idx_range buf 4 20); simpl; intros; simplify_eq; lia.
  - intros t pos. destruct (zget buf 4) as [n|] eqn:En; [|done]. cbn [ok_or obind]. destruct (zlen buf <? 5 + n); [done|].
    pose proof (zget_ok _ _ _ Hb En) as Hu. unfold is_u8 in Hu.
    destruct (idx_range buf 5 (5 + n)); simpl; intros; simplify_eq; lia.
Qed.

Section AssocSpec.
Context `{UnicodeTables} `{RouteLib}.
Context (lookup : bytes -> Z -> option SocketAddr) (rules : RuleSet) (expected_ip : IpAddr).

Definition ev_ok (ev : assoc_event) : Prop := match ev with FromClient _ b => bytes_ok b | _ => True end.

Fixpoint assoc_run (evs : list assoc_event) (a : Assoc) : outcome unit (Assoc * list assoc_action) :=
  match evs with
  | [] => Ok (a, [])
  | ev :: evs =>
      let! '(a, sent) := assoc_turn lookup rules expected_ip ev a in
      let! '(a, more) := assoc_run evs a in
      Ok (a, sent ++ more)
  end.

(** What a request datagram asks for, and what an association of the client
    [c] does with an event. *)
Definition served (buf : bytes) : list assoc_action :=
  match parse_udp_request buf with
  | Ok (dst, (port, payload)) =>
      match decide_action rules (host_of dst) port, dst with
      | Block, _ => []
      | Proxy, _ => [ToTunnel dst port payload]
      | Direct, TIp ip => [ToDirect (sock_new ip port) payload]
      | Direct, TDomain name => match lookup name port with Some addr => [ToDirect addr payload] | None => [] end
      end
  | _ => []
  end.
Definition relayed (c : SocketAddr) (ev : assoc_event) : list assoc_action :=
  match ev with
  | FromClient from buf => if bool_decide (c = from) then served buf else []
  | FromStack src data | FromDirect src data => [ToClient c (build_udp_reply src data)]
  end.

(** The specification: the first datagram from the expected address makes its
    sender the client for good, and everything else is dropped. *)
Fixpoint association (evs : list assoc_event) : list assoc_action :=
  match evs with
  | [] => []
  | FromClient from buf :: rest =>
      if bool_decide (normalize_ip (sa_ip from) = normalize_ip expected_ip) then concat (map (relayed from) evs)
      else association rest
  | _ :: rest => association rest
  end.

Lemma turn_client c n ev : ev_ok ev -> exists n',
  assoc_turn lookup rules expected_ip ev (mkAssoc (Some c) n) = Ok (mkAssoc (Some c) n', relayed c ev).
Proof.
  destruct ev as [from buf|src data|src data]; intros Hok; [|by exists n|by exists n].
  cbn [assoc_turn relayed as_client as_refused udp_source_allowed]. destruct (bool_decide (c = from)) eqn:Ec; [|by eexists].
  exists n. cbn [negb]. unfold served. pose proof (parse_udp_request_returns buf Hok) as Hr.
  destruct (parse_udp_request buf) as [[dst [port payload]]| | |]; try done.
  destruct (decide_action _ _ _), dst; try done. by destruct (lookup _ _).
Qed.

Lemma run_client evs : forall c n, Forall ev_ok evs -> exists n',
  assoc_run evs (mkAssoc (Some c) n) = Ok (mkAssoc (Some c) n', concat (map (relayed c) evs)).
Proof.
  induction evs as [|ev evs IH]; intros c n Hok; [by exists n|]. apply List.Forall_cons_iff in Hok as [He Hok].
  destruct (turn_client c n ev He) as [n1 E1]. destruct (IH c n1 Hok) as [n2 E2]. exists n2.
  cbn [assoc_run map concat]. rewrite E1. cbn [obind]. by rewrite E2.
Qed.

(** The first turn of an accepted client is a turn of its association. *)
Lemma turn_latches from buf n :
  normalize_ip (sa_ip from) = normalize_ip expected_ip ->
  assoc_turn lookup rules expected_ip (FromClient from buf) (mkAssoc None n) =
  assoc_turn lookup rules expected_ip (FromClient from buf) (mkAssoc (Some from) n).
Proof. intros E. cbn [assoc_turn as_client udp_source_allowed]. by rewrite !bool_decide_true by done. Qed.

(** C17: the UDP association refines its specification: whatever datagrams
    arrive in whatever order, the loop returns and sends exactly what the
    specification sends.  Only the first sender with the expected address is
    ever served or answered. *)
Theorem udp_association_refines (evs : list assoc_event) (n : Z) :
  Forall ev_ok evs -> exists a, assoc_run evs (mkAssoc None n) = Ok (a, association evs).
Proof.
  revert n. induction evs as [|ev evs IH]; intros n Hok; [by eexists|]. pose proof Hok as Hall.
  apply List.Forall_cons_iff in Hok as [He Hok].
  destruct ev as [from buf|src data|src data]; [|by destruct (IH n Hok) as [a E]; exists a; simpl; rewrite E..].
  cbn [association]. destruct (bool_decide _) eqn:Ec.
  - apply bool_decide_eq_true in Ec. destruct (run_client _ from n Hall) as [n' E].
    eexists. rewrite <- E. cbn [assoc_run]. by rewrite turn_latches.
  - destruct (IH (as_u64 (n + 1)) Hok) as [a E]. exists a. cbn [assoc_run assoc_turn as_client udp_source_allowed].
    rewrite Ec. cbn [negb obind as_refused]. by rewrite E.
Qed.

End AssocSpec.

Lemma udp_association_refines_witness :
  let evs := [FromClient (sock_new (V4 [10; 0; 0; 9]) 7) [0; 0; 0; 1; 1; 1; 1; 1; 0; 53; 42];
              FromClient (sock_new (V6 [0; 0; 0; 0; 0; 0; 0; 0; 0; 0; 255; 255; 127; 0; 0; 1]) 7) [0; 0; 0; 1; 1; 1; 1; 1; 0; 53; 43];
              FromStack (sock_new (V4 [1; 1; 1; 1]) 53) [44]] in
  exists a, assoc_run (H := no_unicode) (H0 := single_addresses) (fun _ _ => None) (mkRules [] [])
    (V4 [127; 0; 0; 1]) evs (mkAssoc None 0) = Ok (a, association (H := no_unicode) (H0 := single_addresses)
      (fun _ _ => None) (mkRules [] []) (V4 [127; 0; 0; 1]) evs).
Proof.
  intros evs. apply (udp_association_refines (H := no_unicode) (H0 := single_addresses)).
  repeat constructor; vm_compute; congruence.
Defined.

(** ** The client of upstream.rs against this server *)

Ltac io_step := erewrite io_bind_Ok; [|reflexivity].

Definition ip_octets (ip : IpAddr) : bytes := match ip with V4 o | V6 o => o end.
Definition ip_atyp (ip : IpAddr) : Z := match ip with V4 _ => ATYP_V4 | V6 _ => ATYP_V6 end.

Lemma address_bytes t : encode_address t = ip_atyp (sa_ip t) :: ip_octets (sa_ip t) ++ to_be 2 (sa_port t).
Proof. unfold encode_address. by destruct (sa_ip t). Qed.
Lemma reply_bound_address t : reply_bound_bytes t = [VER; REP_OK; 0] ++ encode_address t.
Proof. done. Qed.
Lemma udp_reply_relayed src data : build_udp_reply src data = relay_send data src.
Proof. unfold build_udp_reply, relay_send, encode_udp_header, encode_address. by rewrite <- !app_assoc. Qed.

Lemma to_be2_port v : 0 <= v < 65536 -> exists a b, to_be 2 v = [a; b] /\ a * 256 + b = v.
Proof.
  intros Hv. exists ((v / 256) mod 256), (v mod 256). split; [by rewrite <- (Z.div_1_r v) at 3|].
  pose proof (Z.div_mod v 256). rewrite (Z.mod_small (v / 256)); [lia|].
  split; [apply Z.div_pos; lia|]. apply Z.div_lt_upper_bound; lia.
Qed.

Lemma read_target_encoded t later out :
  sock_ok t ->
  read_target (ip_atyp (sa_ip t))
    (mkStream (ip_octets (sa_ip t) ++ to_be 2 (sa_port t) ++ later) out) = (Ok (TIp (sa_ip t), sa_port t), mkStream later out).
Proof.
  intros (Hip & Hp & _). destruct (to_be2_port _ Hp) as (a & b & -> & Hab). unfold read_target.
  destruct (sa_ip t) as [o|o]; destruct Hip as [Ho _]; cbn [ip_octets ip_atyp];
    (erewrite io_bind_Ok; [|change (ATYP_V4 =? ATYP_V4) with true; change (ATYP_V6 =? ATYP_V4) with false;
       change (ATYP_V6 =? ATYP_V6) with true; cbv iota; erewrite io_bind_Ok; [reflexivity|apply read_exact_app; unfold zlen; lia]]);
    (erewrite io_bind_Ok; [|by apply (read_exact_app 2 [a; b])]); do 2 io_step; unfold ret; by rewrite Hab.
Qed.

Lemma read_reply_bound t later out :
  sock_ok t -> read_reply (mkStream (reply_bound_bytes t ++ later) out) = (Ok t, mkStream later out).
Proof.
  intros (Hip & Hp & Hs). rewrite reply_bound_address, address_bytes.
  destruct (to_be2_port _ Hp) as (a & b & -> & Hab). unfold read_reply.
  destruct t as [[o|o] p sc]; cbn [sa_ip sa_port sa_scope ip_atyp ip_octets] in *; destruct Hip as [Ho _]; subst sc;
    cbn [app]; rewrite <- app_assoc; cbn [app];
    (erewrite io_bind_Ok; [|by apply (read_exact_app 4 [_; _; _; _])]); io_step; cbn [VER Z.eqb Pos.eqb negb]; io_step;
    cbn [REP_OK Z.eqb negb]; io_step;
    (erewrite io_bind_Ok; [|cbn [ATYP_V4 ATYP_V6 Z.eqb Pos.eqb]; erewrite io_bind_Ok; [reflexivity|
      apply read_exact_app; unfold zlen; lia]]);
    (erewrite io_bind_Ok; [|by apply (read_exact_app 2 [a; b])]); do 2 io_step; unfold ret; by rewrite Hab.
Qed.

Lemma parse_udp_relayed t payload :
  sock_ok t -> parse_udp_request (relay_send payload t) = Ok (TIp (sa_ip t), (sa_port t, payload)).
Proof.
  intros (Hip & Hp & _). unfold relay_send, encode_udp_header. rewrite address_bytes. rewrite <- app_assoc.
  set (o := ip_octets (sa_ip t)). set (h := [0; 0; 0; ip_atyp (sa_ip t)]).
  change ([0; 0; 0] ++ (?a :: ?x) ++ payload) with ([0; 0; 0; a] ++ x ++ payload). fold h. rewrite <- app_assoc.
  set (buf := h ++ o ++ to_be 2 (sa_port t) ++ payload).
  assert (forall pos, pos = 4 + zlen o ->
    zlen buf = pos + 2 + zlen payload /\ idx_range (E := unit) buf 4 pos = Ok o /\
    port_at buf pos = Ok (sa_port t) /\ idx_range (E := unit) buf (pos + 2) (zlen buf) = Ok payload) as Hbuf.
  { intros pos ->. assert (zlen buf = 4 + zlen o + 2 + zlen payload) as Hl.
    { unfold buf. rewrite !zlen_app, zlen_to_be. change (zlen h) with 4. lia. }
    split_and!; [done| | |].
    - unfold idx_range, buf. by rewrite (get_range_mid h o) by (change (zlen h) with 4; lia).
    - unfold buf. rewrite (app_assoc h). replace (4 + zlen o) with (zlen (h ++ o)) by (rewrite zlen_app; done).
      by rewrite port_at_mid.
    - unfold idx_range. rewrite Hl. unfold buf. rewrite !app_assoc.
      rewrite get_range_suffix; [done| |]; autorewrite with slices; change (zlen h) with 4; rewrite ?zlen_to_be; lia. }
  pose proof (zlen_nonneg payload). unfold parse_udp_request. destruct (Hbuf (4 + zlen o) eq_refl) as (Hl & H1 & H2 & H3).
  pose proof (zlen_nonneg o). replace (zlen buf <? 4) with false by lia.
  change (idx buf 2) with (@Ok unit Z 0). change (idx buf 3) with (@Ok unit Z (ip_atyp (sa_ip t))). cbn [obind Z.eqb negb].
  unfold o in *. destruct (sa_ip t) as [x|x]; destruct Hip as [Ho _]; cbn [ip_octets ip_atyp ATYP_V4 ATYP_V6 Z.eqb Pos.eqb] in *.
  - assert (zlen x = 4) as Hx by (unfold zlen; lia). rewrite Hx in *. replace (zlen buf <? 4 + 4) with false by lia.
    change 8 with (4 + 4). rewrite H1. cbn [obind]. replace (zlen buf <? 4 + 4 + 2) with false by lia.
    rewrite H2. cbn [obind]. by rewrite H3.
  - assert (zlen x = 16) as Hx by (unfold zlen; lia). rewrite Hx in *. replace (zlen buf <? 4 + 16) with false by lia.
    change 20 with (4 + 16). rewrite H1. cbn [obind]. replace (zlen buf <? 4 + 16 + 2) with false by lia.
    rewrite H2. cbn [obind]. by rewrite H3.
Qed.

Lemma handshake_greeted offered later out :
  zlen offered < 256 ->
  handshake (mkStream ([VER; zlen offered] ++ offered ++ later) out) = (Ok tt, mkStream later (out ++ [VER; 0])).
Proof.
  intros Hn. unfold handshake. erewrite io_bind_Ok; [|by apply (read_exact_app 2 [_; _])].
  io_step. cbn [VER Z.eqb Pos.eqb negb]. io_step.
  erewrite io_bind_Ok; [|by apply read_exact_app]. done.
Qed.

Lemma handle_client_request cmd offered t later out :
  zlen offered < 256 -> sock_ok t -> (cmd = CMD_CONNECT \/ cmd = CMD_UDP_ASSOCIATE) ->
  handle_client (mkStream ([VER; zlen offered] ++ offered ++ encode_request cmd t ++ later) out) =
  (Ok ((if cmd =? CMD_CONNECT then Connect else UdpAssociate) (TIp (sa_ip t)) (sa_port t)), mkStream later (out ++ [VER; 0])).
Proof.
  intros Hn Ht Hcmd. unfold handle_client. erewrite io_bind_Ok; [|by apply handshake_greeted].
  unfold encode_request. rewrite address_bytes, <- app_assoc. cbn [app]. rewrite <- app_assoc.
  erewrite io_bind_Ok; [|by apply (read_exact_app 4 [_; _; _; _])].
  io_step. cbn [VER Z.eqb Pos.eqb negb]. do 2 io_step.
  erewrite io_bind_Ok; [|by apply read_target_encoded]. by destruct Hcmd as [-> | ->].
Qed.

(** The greeting [socks_greet] writes. *)
Definition greeting (u : Upstream) : bytes :=
  match user u with Some _ => [VER; 2; AUTH_NONE; AUTH_USERPASS] | None => [VER; 1; AUTH_NONE] end.

Lemma socks_connect_answered u t answer later out :
  socks_connect u t (mkStream ([VER; 0] ++ answer ++ later) out) =
  read_reply (mkStream (answer ++ later) (out ++ greeting u ++ encode_request CMD_CONNECT t)).
Proof.
  unfold socks_connect, socks_greet, greeting.
  erewrite io_bind_Ok.
  2:{ io_step. erewrite io_bind_Ok; [|by apply (read_exact_app 2 [VER; 0])]. io_step. cbn [VER Z.eqb Pos.eqb negb].
      io_step. reflexivity. }
  io_step. cbn [st_in st_out]. by rewrite <- app_assoc.
Qed.

(** C39: the engine's SOCKS5 client and server agree.  The server reads from
    what the client writes exactly the command and the target the client was
    given, leaving later bytes unread; the client reads from the server's
    answer exactly the address it was bound to, and a refusal as a refusal
    with its code.  Datagrams agree in both directions too. *)
Theorem socks_client_server_agree (u : Upstream) (t bound : SocketAddr) (code : Z) (later payload : bytes) (room : Z) :
  sock_ok t -> sock_ok bound -> 0 < code < 256 -> zlen payload <= room ->
  let said := greeting u ++ encode_request CMD_CONNECT t in
  handle_client (mkStream (said ++ later) []) = (Ok (Connect (TIp (sa_ip t)) (sa_port t)), mkStream later [VER; 0]) /\
  socks_connect u t (mkStream ([VER; 0] ++ reply_bound_bytes bound ++ later) []) = (Ok bound, mkStream later said) /\
  (socks_connect u t (mkStream ([VER; 0] ++ reply_bytes code ++ later) [])).1 =
    Err (Other (str "the upstream proxy refused the request with code " ++ dec_str code)) /\
  parse_udp_request (relay_send payload t) = Ok (TIp (sa_ip t), (sa_port t, payload)) /\
  relay_recv (build_udp_reply t payload) room = Ok (payload, t).
Proof.
  intros Ht Hb Hc Hr said. split_and!.
  - unfold said. rewrite <- app_assoc. unfold greeting. destruct (user u) as [x|].
    + by apply (handle_client_request CMD_CONNECT [AUTH_NONE; AUTH_USERPASS] t later []); [|done|left].
    + by apply (handle_client_request CMD_CONNECT [AUTH_NONE] t later []); [|done|left].
  - rewrite socks_connect_answered. by apply read_reply_bound.
  - rewrite socks_connect_answered. unfold read_reply.
    erewrite io_bind_Ok; [|by apply (read_exact_app 4 [_; _; _; _])]. io_step. cbn [VER Z.eqb Pos.eqb negb]. io_step.
    by replace (code =? REP_OK) with false by (unfold REP_OK; lia).
  - by apply parse_udp_relayed.
  - rewrite udp_reply_relayed. by apply relay_recv_sent.
Qed.

Lemma socks_client_server_agree_witness :
  let u := mkUpstream Socks5 (str "proxy") 1080 (Some (str "me")) None in
  let t := sock_new (V4 [192; 0; 2; 7]) 443 in
  let said := greeting u ++ encode_request CMD_CONNECT t in
  handle_client (mkStream (said ++ [22]) []) = (Ok (Connect (TIp (sa_ip t)) (sa_port t)), mkStream [22] [VER; 0]) /\
  socks_connect u t (mkStream ([VER; 0] ++ reply_bound_bytes t ++ [22]) []) = (Ok t, mkStream [22] said) /\
  (socks_connect u t (mkStream ([VER; 0] ++ reply_bytes 2 ++ [22]) [])).1 =
    Err (Other (str "the upstream proxy refused the request with code " ++ dec_str 2)) /\
  parse_udp_request (relay_send [1; 2] t) = Ok (TIp (sa_ip t), (sa_port t, [1; 2])) /\
  relay_recv (build_udp_reply t [1; 2]) 64 = Ok ([1; 2], t).
Proof.
  intros u t. assert (sock_ok t) as Ht.
  { split; [split; [reflexivity|repeat constructor; vm_compute; congruence]|vm_compute; repeat split; congruence]. }
  apply (socks_client_server_agree u t t 2 [22] [1; 2] 64); [exact Ht|exact Ht|lia|vm_compute; congruence].
Defined.
