(* ===== verification/Netstack.v ===== *)
(** * The user-space network stack

    Models netstack.rs: the connection tables, the commands and data of the
    application, the service loops over TCP and UDP sockets, deferral of data
    under backpressure and the packet queues of the device.

    The sockets themselves are the smoltcp crate's: the class [Smoltcp] has the
    calls the engine makes, and [SmoltcpLaws] the documented facts the theorems
    rely on.  The order in which a [HashMap] yields its keys is an argument. *)

From Stdlib Require Import ZArith Lia ZifyBool String List.
From stdpp Require Import base list numbers option decidable gmap.
From S2P Require Import Prelude RustStr NetAddr Errors Channels.
Open Scope Z_scope.

(** smoltcp's [tcp::State]. *)
Inductive tcp_state : Type :=
| SClosed | SListen | SSynSent | SSynReceived | SEstablished | SFinWait1 | SFinWait2 | SCloseWait | SClosing
| SLastAck | STimeWait.
#[export] Instance tcp_state_eq_dec : EqDecision tcp_state.
Proof. solve_decision. Defined.

Definition IpEndpoint : Type := IpAddr * Z.

Class Smoltcp : Type := {
  TcpSock : Type;
  UdpSock : Type;
  tcp_connect : IpEndpoint -> Z -> option TcpSock;      (* [connect] on a new socket, by local port *)
  udp_bind : Z -> option UdpSock;                       (* [bind] on a new socket *)
  state_of : TcpSock -> tcp_state;
  can_send : TcpSock -> bool;
  can_recv : TcpSock -> bool;
  send_slice : TcpSock -> bytes -> option Z * TcpSock;  (* [None] on an error *)
  close : TcpSock -> TcpSock;
  recv_all : TcpSock -> option bytes * TcpSock;         (* [recv] with a closure that takes all it is shown *)
  udp_send : UdpSock -> bytes -> IpEndpoint -> UdpSock;
  udp_can_recv : UdpSock -> bool;
  udp_recv : UdpSock -> option (bytes * IpEndpoint) * UdpSock;
  new_handle : gset Z -> Z;                             (* the handle [SocketSet::add] picks *)
  addr_accepted : IpAddr -> bool                        (* the check of [update_ip_addrs], which panics otherwise *)
}.

(** [is_multicast] of std's addresses. *)
Definition is_multicast (ip : IpAddr) : bool :=
  match ip with
  | V4 (o :: _) => (224 <=? o) && (o <? 240)
  | V6 (o :: _) => o =? 255
  | _ => false
  end.

(** Documented behaviour of the crate: a handle is not in use when it is given
    out, a send takes at most what it is offered, only [close] changes the
    connection's state, and an interface is not given a multicast address. *)
Class SmoltcpLaws `{Smoltcp} : Prop := {
  new_handle_fresh m : new_handle m ∉ m;
  send_slice_bound k data n k' : send_slice k data = (Some n, k') -> 0 <= n <= zlen data;
  send_slice_state k data : state_of (send_slice k data).2 = state_of k;
  recv_state k : state_of (recv_all k).2 = state_of k;
  close_state k : state_of (close k) =
    match state_of k with
    | SListen | SSynSent => SClosed
    | SSynReceived | SEstablished => SFinWait1
    | SCloseWait => SLastAck
    | t => t
    end;
  multicast_refused ip : is_multicast ip = true -> addr_accepted ip = false
}.

(** ** Addresses *)

Definition strip_cidr (s : bytes) : bytes := match split_once 47 s with Some (ip, _) => ip | None => s end.
Definition cidr_prefix (s : bytes) : option Z := let? '(_, p) := split_once 47 s in parse_u8 p.
Definition to_ip_endpoint (addr : SocketAddr) : IpEndpoint := (sa_ip addr, sa_port addr).
Definition endpoint_to_socketaddr (ep : IpEndpoint) : SocketAddr := sock_new ep.1 ep.2.

Definition parse_v4 (s : bytes) : result (option (bytes * Z)) :=
  match s with
  | [] => Ok None
  | _ =>
      match parse_ipv4 (strip_cidr s) with
      | Some ip => Ok (Some (ip, match cidr_prefix s with Some p => p | None => 32 end))
      | None => Err (Other (str "bad ipv4 " ++ s))
      end
  end.
Definition parse_v6 (s : bytes) : result (option (bytes * Z)) :=
  match s with
  | [] => Ok None
  | _ =>
      match parse_ipv6 (strip_cidr s) with
      | Some ip => Ok (Some (ip, match cidr_prefix s with Some p => p | None => 128 end))
      | None => Err (Other (str "bad ipv6 " ++ s))
      end
  end.
Definition routable_prefix_v4 (p : Z) : Z := if 31 <=? p then 24 else p.
Definition routable_prefix_v6 (p : Z) : Z := if 127 <=? p then 64 else p.

(** What the interface keeps: its addresses and the two default routes. *)
Record Iface : Type := mkIface {
  if_addrs : list (IpAddr * Z); if_route4 : option bytes; if_route6 : option bytes }.

(** The other host of a point-to-point link: the address with its last octet
    replaced by 1, or by 2 where it is 1. *)
Definition other_end (o : bytes) : bytes :=
  let n := (length o - 1)%nat in
  take n o ++ [if bool_decide (o !! n = Some 1) then 2 else 1].

(** The addresses that are pushed. *)
Definition new_addrs (v4 v6 : option (bytes * Z)) : list (IpAddr * Z) :=
  match v4 with Some (ip, p) => [(V4 ip, routable_prefix_v4 p)] | None => [] end
  ++ match v6 with Some (ip, p) => [(V6 ip, routable_prefix_v6 p)] | None => [] end.

(** [update_ip_addrs] panics after the closure when an address is none an
    interface can have; the routes are set after it. *)
Definition apply_addrs `{Smoltcp} {E : Type} (iface : Iface) (v4 v6 : option (bytes * Z)) : outcome E Iface :=
  let addrs := new_addrs v4 v6 in
  if forallb (fun a => addr_accepted a.1) addrs then
    Ok (mkIface addrs
      (match v4 with Some (ip, _) => Some (other_end ip) | None => if_route4 iface end)
      (match v6 with Some (ip, _) => Some (other_end ip) | None => if_route6 iface end))
  else Panic.

Definition alloc_port (p : Z) : Z * Z := (p, if 65000 <=? p then 49152 else p + 1).

(** ** The stack *)

Section Stack.
Context `{Target} `{Smoltcp}.
(** The sizes chosen by sysprofile.rs. *)
Context (tcp_buf app_queue : Z).

Definition max_tcp_pending : Z := Z.max (Z.min (tcp_buf * 2) usize_max) (64 * 1024).
Definition MAX_RECV_CHUNKS : nat := 128.
Definition MAX_INGEST_PER_TICK : nat := 512.

Inductive Socket : Type :=
| Tcp (s : TcpSock)
| Udp (s : UdpSock).

(** [connect_resp] and [from_stack_rx] are taken together: [waiting] says that
    the caller has no answer yet. *)
Record TcpState : Type := mkTcp {
  ts_handle : Z; to_app : Chan bytes; waiting : bool; pending : bytes; established : bool; half_closed : bool }.
Record UdpState : Type := mkUdp { us_handle : Z; us_to_app : Chan (SocketAddr * bytes) }.

Record NetStack : Type := mkStack {
  iface : Iface; dev_rx : list bytes; dev_tx : list bytes; sockets : gmap Z Socket;
  tcp_conns : gmap Z TcpState; udp_conns : gmap Z UdpState; next_id : Z; next_port : Z }.

Definition set_sockets (s : NetStack) (m : gmap Z Socket) : NetStack :=
  mkStack (iface s) (dev_rx s) (dev_tx s) m (tcp_conns s) (udp_conns s) (next_id s) (next_port s).
Definition set_tcp (s : NetStack) (m : gmap Z TcpState) : NetStack :=
  mkStack (iface s) (dev_rx s) (dev_tx s) (sockets s) m (udp_conns s) (next_id s) (next_port s).
Definition set_udp (s : NetStack) (m : gmap Z UdpState) : NetStack :=
  mkStack (iface s) (dev_rx s) (dev_tx s) (sockets s) (tcp_conns s) m (next_id s) (next_port s).

Inductive Cmd : Type :=
| OpenTcp (dst : SocketAddr)
| OpenUdp
| SetAddrs (v4 v6 : option (bytes * Z)).

Inductive DataIn : Type :=
| DTcp (id : Z) (data : bytes)
| DTcpClose (id : Z)
| DUdp (id : Z) (dst : SocketAddr) (data : bytes)
| DUdpClose (id : Z).

(** What the outside sees of a step. *)
Inductive effect : Type :=
| Connected (id : Z)                 (* the caller of [open_tcp] gets its connection *)
| Refused (id : Z)
| OpenFailed
| UdpOpened (id : Z)
| Accepted (id : Z) (data : bytes)   (* bytes of the application taken over *)
| SentOut (id : Z) (data : bytes)    (* bytes the TCP socket took *)
| Delivered (id : Z) (data : bytes). (* bytes handed to the application *)

(** [get_mut::<tcp::Socket>] and [get_mut::<udp::Socket>], which panic on a
    handle of another kind or of none. *)
Definition get_tcp (s : NetStack) (h : Z) : outcome unit TcpSock :=
  match sockets s !! h with Some (Tcp k) => Ok k | _ => Panic end.
Definition get_udp (s : NetStack) (h : Z) : outcome unit UdpSock :=
  match sockets s !! h with Some (Udp k) => Ok k | _ => Panic end.
(** [SocketSet::remove], which panics on a handle of none. *)
Definition remove_socket (s : NetStack) (h : Z) : outcome unit NetStack :=
  match sockets s !! h with Some _ => Ok (set_sockets s (delete h (sockets s))) | None => Panic end.

(** [spawn]'s initial state. *)
Definition initial {E : Type} (v4 v6 : option (bytes * Z)) : outcome E NetStack :=
  let! iface := apply_addrs (mkIface [] None None) v4 v6 in
  Ok (mkStack iface [] [] ∅ ∅ ∅ 1 49152).

Definition new_chan (A : Type) : Chan A := mkChan [] (Z.to_nat app_queue) true.

Definition handle_cmd (s : NetStack) (cmd : Cmd) : outcome unit (NetStack * list effect) :=
  match cmd with
  | OpenTcp dst =>
      let '(local_port, next_port) := alloc_port (next_port s) in
      match tcp_connect (to_ip_endpoint dst) local_port with
      | None =>
          Ok (mkStack (iface s) (dev_rx s) (dev_tx s) (sockets s) (tcp_conns s) (udp_conns s) (next_id s) next_port, [OpenFailed])
      | Some socket =>
          let handle := new_handle (dom (sockets s)) in
          Ok (mkStack (iface s) (dev_rx s) (dev_tx s) (<[handle := Tcp socket]> (sockets s))
             (<[next_id s := mkTcp handle (new_chan bytes) true [] false false]> (tcp_conns s))
             (udp_conns s) (next_id s + 1) next_port, [])
      end
  | OpenUdp =>
      let '(local_port, next_port) := alloc_port (next_port s) in
      match udp_bind local_port with
      | None =>
          Ok (mkStack (iface s) (dev_rx s) (dev_tx s) (sockets s) (tcp_conns s) (udp_conns s) (next_id s) next_port, [OpenFailed])
      | Some socket =>
          let handle := new_handle (dom (sockets s)) in
          Ok (mkStack (iface s) (dev_rx s) (dev_tx s) (<[handle := Udp socket]> (sockets s)) (tcp_conns s)
             (<[next_id s := mkUdp handle (new_chan (SocketAddr * bytes))]> (udp_conns s))
             (next_id s + 1) next_port, [UdpOpened (next_id s)])
      end
  | SetAddrs v4 v6 =>
      let! iface := apply_addrs (iface s) v4 v6 in
      Ok (mkStack iface (dev_rx s) (dev_tx s) (sockets s) (tcp_conns s) (udp_conns s) (next_id s) (next_port s), [])
  end.

Definition with_pending (st : TcpState) (p : bytes) : TcpState :=
  mkTcp (ts_handle st) (to_app st) (waiting st) p (established st) (half_closed st).

(** The data to defer, if any, is the third component. *)
Definition try_handle_data (s : NetStack) (d : DataIn) : outcome unit (NetStack * list effect * option DataIn) :=
  match d with
  | DTcp id data =>
      match tcp_conns s !! id with
      | Some st =>
          if max_tcp_pending <=? zlen (pending st) then Ok (s, [], Some (DTcp id data))
          else
            let space := max_tcp_pending - zlen (pending st) in
            if zlen data <=? space then
              Ok (set_tcp s (<[id := with_pending st (pending st ++ data)]> (tcp_conns s)), [Accepted id data], None)
            else
              let! first := idx_range data 0 space in
              let! rest := idx_range data space (zlen data) in
              Ok (set_tcp s (<[id := with_pending st (pending st ++ first)]> (tcp_conns s)),
                  [Accepted id first], Some (DTcp id rest))
      | None => Ok (s, [], None)
      end
  | DTcpClose id =>
      match tcp_conns s !! id with
      | Some st =>
          Ok (set_tcp s (<[id := mkTcp (ts_handle st) (to_app st) (waiting st) (pending st) (established st) true]>
                (tcp_conns s)), [], None)
      | None => Ok (s, [], None)
      end
  | DUdp id dst data =>
      match udp_conns s !! id with
      | Some st =>
          let! sock := get_udp s (us_handle st) in
          Ok (set_sockets s (<[us_handle st := Udp (udp_send sock data (to_ip_endpoint dst))]> (sockets s)), [], None)
      | None => Ok (s, [], None)
      end
  | DUdpClose id =>
      match udp_conns s !! id with
      | Some st =>
          let! s := remove_socket (set_udp s (delete id (udp_conns s))) (us_handle st) in Ok (s, [], None)
      | None => Ok (s, [], None)
      end
  end.

(** ** Service loops *)

(** The receive loop of [service_tcp] with [n] chunks left: the channel, the
    socket, the chunks handed over, whether the channel was full and whether
    the application is gone. *)
Fixpoint recv_loop (n : nat) (tx : Chan bytes) (sock : TcpSock) : Chan bytes * TcpSock * list bytes * bool * bool :=
  match n with
  | O => (tx, sock, [], false, false)
  | S n =>
      if negb (ch_open tx) then (tx, sock, [], false, true)
      else if (ch_cap tx <=? length (ch_queue tx))%nat then (tx, sock, [], true, false)
      else if negb (can_recv sock) then (tx, sock, [], false, false)
      else match recv_all sock with
           | (Some (b :: chunk), sock) =>
               let '(tx, sock, chunks, full, gone) :=
                 recv_loop n (mkChan (ch_queue tx ++ [b :: chunk]) (ch_cap tx) (ch_open tx)) sock in
               (tx, sock, (b :: chunk) :: chunks, full, gone)
           | (_, sock) => (tx, sock, [], false, false)
           end
  end.

Definition gone_state (t : tcp_state) : bool := bool_decide (t = SClosed \/ t = STimeWait).

(** The sending half: the state, the socket and what it took. *)
Definition push_pending (st : TcpState) (sock : TcpSock) : outcome unit (TcpState * TcpSock * bytes) :=
  if can_send sock && negb (bool_decide (pending st = [])) then
    let '(r, sock) := send_slice sock (pending st) in
    let sent := match r with Some n => n | None => 0 end in
    if 0 <? sent then
      if zlen (pending st) <? sent then Panic
      else Ok (with_pending st (zdrop sent (pending st)), sock, ztake sent (pending st))
    else Ok (st, sock, [])
  else Ok (st, sock, []).

(** [service_tcp] for one connection; the flag says that its channel is full. *)
Definition service_conn (id : Z) (s : NetStack) : outcome unit (NetStack * bool * list effect) :=
  match tcp_conns s !! id with
  | None => Ok (s, false, [])
  | Some st =>
      let handle := ts_handle st in
      let! sock := get_tcp s handle in
      let state := state_of sock in
      let up := negb (established st) && bool_decide (state = SEstablished) in
      let answered := if up && waiting st then [Connected id] else [] in
      let st := if up then mkTcp handle (to_app st) false (pending st) true (half_closed st) else st in
      if negb (established st) && gone_state state then
        let! s := remove_socket s handle in
        Ok (set_tcp s (delete id (tcp_conns s)), false, if waiting st then [Refused id] else [])
      else
        let! '(st, sock, sent) := push_pending st sock in
        let sock := if half_closed st && bool_decide (pending st = []) then close sock else sock in
        let '(tx, sock, chunks, full, app_gone) := recv_loop MAX_RECV_CHUNKS (to_app st) sock in
        let sock := if app_gone then close sock else sock in
        let st_state := state_of sock in
        let sock := if bool_decide (st_state = SCloseWait) then close sock else sock in
        let kept := if bool_decide (st_state = STimeWait) then [] else pending st in
        let st := mkTcp handle tx (waiting st) kept (established st) (half_closed st) in
        let effects := answered ++ (match sent with [] => [] | _ => [SentOut id sent] end) ++ map (Delivered id) chunks in
        if gone_state st_state && established st then
          let! s := remove_socket s handle in
          Ok (set_tcp s (delete id (tcp_conns s)), full, effects)
        else
          Ok (set_tcp (set_sockets s (<[handle := Tcp sock]> (sockets s))) (<[id := st]> (tcp_conns s)), full, effects)
  end.

Fixpoint service_tcp (ids : list Z) (s : NetStack) : outcome unit (NetStack * bool * list effect) :=
  match ids with
  | [] => Ok (s, false, [])
  | id :: ids =>
      let! '(s, full, effects) := service_conn id s in
      let! '(s, more, effects') := service_tcp ids s in
      Ok (s, full || more, effects ++ effects')
  end.

Fixpoint udp_recv_loop (n : nat) (tx : Chan (SocketAddr * bytes)) (sock : UdpSock) : Chan (SocketAddr * bytes) * UdpSock * bool :=
  match n with
  | O => (tx, sock, false)
  | S n =>
      if negb (ch_open tx) then (tx, sock, false)
      else if (ch_cap tx <=? length (ch_queue tx))%nat then (tx, sock, true)
      else if negb (udp_can_recv sock) then (tx, sock, false)
      else match udp_recv sock with
           | (Some (data, ep), sock) =>
               udp_recv_loop n (mkChan (ch_queue tx ++ [(endpoint_to_socketaddr ep, data)]) (ch_cap tx) (ch_open tx)) sock
           | (None, sock) => (tx, sock, false)
           end
  end.

Fixpoint service_udp (ids : list Z) (s : NetStack) : outcome unit (NetStack * bool) :=
  match ids with
  | [] => Ok (s, false)
  | id :: ids =>
      match udp_conns s !! id with
      | None => service_udp ids s
      | Some st =>
          let! sock := get_udp s (us_handle st) in
          let '(tx, sock, full) := udp_recv_loop MAX_RECV_CHUNKS (us_to_app st) sock in
          let s := set_udp (set_sockets s (<[us_handle st := Udp sock]> (sockets s)))
                     (<[id := mkUdp (us_handle st) tx]> (udp_conns s)) in
          let! '(s, more) := service_udp ids s in
          Ok (s, full || more)
      end
  end.

(** [flush_tx] on the packets of the device: what is left of them, the channel
    and the number dropped. *)
Fixpoint flush_tx (tx : list bytes) (out : Chan bytes) : list bytes * Chan bytes * Z :=
  match tx with
  | [] => ([], out, 0)
  | pkt :: tx =>
      match try_send out pkt with
      | (Sent, out) => flush_tx tx out
      | (Full, out) => let '(tx, out, dropped) := flush_tx tx out in (tx, out, dropped + 1)
      | (Closed, out) => (tx, out, 0)
      end
  end.

(** The loop over [deferred] in [run]. *)
Fixpoint drain_deferred (deferred : list DataIn) (s : NetStack) : outcome unit (NetStack * list effect * list DataIn) :=
  match deferred with
  | [] => Ok (s, [], [])
  | d :: rest =>
      let! '(s, effects, back) := try_handle_data s d in
      match back with
      | Some back => Ok (s, effects, back :: rest)
      | None => let! '(s, more, deferred) := drain_deferred rest s in Ok (s, effects ++ more, deferred)
      end
  end.

(** The [data_in_rx] branch of [run], taken when nothing is deferred: [queued]
    is what [recv] and [try_recv] yield in turn; the last component is what is
    left in the channel. *)
Fixpoint ingest (queued : list DataIn) (s : NetStack) : outcome unit (NetStack * list effect * list DataIn * list DataIn) :=
  match queued with
  | [] => Ok (s, [], [], [])
  | d :: queued =>
      let! '(s, effects, back) := try_handle_data s d in
      match back with
      | Some back => Ok (s, effects, [back], queued)
      | None => let! '(s, more, deferred, unread) := ingest queued s in Ok (s, effects ++ more, deferred, unread)
      end
  end.

(** The [inbound_rx] branch: the packets put into the device and those left. *)
Definition ingest_packets (queued : list bytes) (s : NetStack) : NetStack * list bytes :=
  (mkStack (iface s) (dev_rx s ++ take (S MAX_INGEST_PER_TICK) queued) (dev_tx s) (sockets s) (tcp_conns s) (udp_conns s)
     (next_id s) (next_port s), drop (S MAX_INGEST_PER_TICK) queued).

(** ** Well-formed stacks *)

Record wf (s : NetStack) : Prop := {
  wf_tcp id st : tcp_conns s !! id = Some st ->
    id < next_id s /\ zlen (pending st) <= max_tcp_pending /\ exists k, sockets s !! ts_handle st = Some (Tcp k);
  wf_udp id st : udp_conns s !! id = Some st -> id < next_id s /\ exists k, sockets s !! us_handle st = Some (Udp k);
  wf_tcp_inj i j st st' : tcp_conns s !! i = Some st -> tcp_conns s !! j = Some st' -> ts_handle st = ts_handle st' -> i = j;
  wf_udp_inj i j st st' : udp_conns s !! i = Some st -> udp_conns s !! j = Some st' -> us_handle st = us_handle st' -> i = j;
  wf_tcp_owned h k : sockets s !! h = Some (Tcp k) -> exists id st, tcp_conns s !! id = Some st /\ ts_handle st = h;
  wf_udp_owned h k : sockets s !! h = Some (Udp k) -> exists id st, udp_conns s !! id = Some st /\ us_handle st = h }.

Lemma max_pending_pos : 0 < max_tcp_pending.
Proof. unfold max_tcp_pending. lia. Qed.

Lemma wf_initial {E : Type} v4 v6 s : initial (E := E) v4 v6 = Ok s -> wf s.
Proof. unfold initial. intros E0. apply obind_Ok in E0 as (i & _ & E0). simplify_eq. constructor; intros; set_solver. Qed.

(** A command is handled, or it assigns an address no interface can have. *)
Definition refused (cmd : Cmd) : bool :=
  match cmd with SetAddrs v4 v6 => negb (forallb (fun a => addr_accepted a.1) (new_addrs v4 v6)) | _ => false end.
Lemma handle_cmd_cases s cmd : (exists s' e, handle_cmd s cmd = Ok (s', e)) /\ refused cmd = false \/ handle_cmd s cmd = Panic /\ refused cmd = true.
Proof.
  destruct cmd as [dst| |v4 v6]; simpl.
  - left. destruct (tcp_connect _ _); eauto.
  - left. destruct (udp_bind _); eauto.
  - unfold apply_addrs. destruct (forallb _ _); simpl; [left|right]; eauto.
Qed.

(** A connection and its socket change. *)
Lemma wf_update_tcp s id st st' k :
  wf s -> tcp_conns s !! id = Some st -> ts_handle st' = ts_handle st -> zlen (pending st') <= max_tcp_pending ->
  wf (set_tcp (set_sockets s (<[ts_handle st := Tcp k]> (sockets s))) (<[id := st']> (tcp_conns s))).
Proof.
  intros [W1 W2 W3 W4 W5 W6] Hst Hh Hp. constructor; cbn [sockets tcp_conns udp_conns next_id set_tcp set_sockets].
  - intros i x. rewrite lookup_insert_Some. intros [[<- <-]|[Hne E]].
    + split; [by eapply W1|]. split; [done|]. exists k. rewrite Hh. by simplify_map_eq.
    + destruct (W1 i x E) as (? & ? & k' & E'). split_and!; [done|done|]. exists k'.
      rewrite lookup_insert_ne; [done|]. intros Hx. apply Hne. by eapply W3.
  - intros i x E. destruct (W2 i x E) as (? & k' & E'). split; [done|]. exists k'.
    rewrite lookup_insert_ne; [done|]. intros Hx. destruct (W1 id st Hst) as (_ & _ & k2 & E2). congruence.
  - intros i j x y. rewrite !lookup_insert_Some. intros [[<- <-]|[? E1]] [[<- <-]|[? E2]] E; [done| | |by eapply W3].
    + eapply W3; [done|done|congruence].
    + symmetry. eapply W3; [done|done|congruence].
  - done.
  - intros h k'. rewrite lookup_insert_Some. intros [[<- _]|[? E]].
    + exists id, st'. by simplify_map_eq.
    + destruct (W5 h k' E) as (i & x & E' & <-). destruct (decide (i = id)) as [->|]; [congruence|].
      exists i, x. by rewrite lookup_insert_ne.
  - intros h k'. rewrite lookup_insert_Some. intros [[_ ?]|[? E]]; [done|by eapply W6].
Qed.

Lemma set_sockets_id s h k : sockets s !! h = Some k -> set_sockets s (<[h := k]> (sockets s)) = s.
Proof. intros E. destruct s. unfold set_sockets. cbn in *. f_equal. by apply insert_id. Qed.

(** A connection alone changes. *)
Lemma wf_update_conn s id st st' :
  wf s -> tcp_conns s !! id = Some st -> ts_handle st' = ts_handle st -> zlen (pending st') <= max_tcp_pending ->
  wf (set_tcp s (<[id := st']> (tcp_conns s))).
Proof.
  intros W Hst Hh Hp. destruct (wf_tcp s W id st Hst) as (_ & _ & k & Ek).
  pose proof (wf_update_tcp s id st st' k W Hst Hh Hp) as W'. by rewrite set_sockets_id in W'.
Qed.

Lemma wf_remove_tcp s id st :
  wf s -> tcp_conns s !! id = Some st ->
  wf (set_tcp (set_sockets s (delete (ts_handle st) (sockets s))) (delete id (tcp_conns s))).
Proof.
  intros [W1 W2 W3 W4 W5 W6] Hst. constructor; cbn [sockets tcp_conns udp_conns next_id set_tcp set_sockets].
  - intros i x. rewrite lookup_delete_Some. intros [Hne E]. destruct (W1 i x E) as (? & ? & k & E'). split_and!; [done|done|].
    exists k. rewrite lookup_delete_ne; [done|]. intros Hx. apply Hne. by eapply W3.
  - intros i x E. destruct (W2 i x E) as (? & k & E'). split; [done|]. exists k. rewrite lookup_delete_ne; [done|].
    intros Hx. destruct (W1 id st Hst) as (_ & _ & k2 & E2). congruence.
  - intros i j x y. rewrite !lookup_delete_Some. intros [_ E1] [_ E2]. by eapply W3.
  - done.
  - intros h k. rewrite lookup_delete_Some. intros [Hne E]. destruct (W5 h k E) as (i & x & E' & <-).
    exists i, x. split; [|done]. apply lookup_delete_Some. split; [|done]. intros ->. congruence.
  - intros h k. rewrite lookup_delete_Some. intros [_ E]. by eapply W6.
Qed.

(** The same for UDP. *)
Lemma wf_update_udp s id st st' k :
  wf s -> udp_conns s !! id = Some st -> us_handle st' = us_handle st ->
  wf (set_udp (set_sockets s (<[us_handle st := Udp k]> (sockets s))) (<[id := st']> (udp_conns s))).
Proof.
  intros [W1 W2 W3 W4 W5 W6] Hst Hh. constructor; cbn [sockets tcp_conns udp_conns next_id set_udp set_sockets].
  - intros i x E. destruct (W1 i x E) as (? & ? & k' & E'). split_and!; [done|done|]. exists k'.
    rewrite lookup_insert_ne; [done|]. intros Hx. destruct (W2 id st Hst) as (_ & k2 & E2). congruence.
  - intros i x. rewrite lookup_insert_Some. intros [[<- <-]|[Hne E]].
    + split; [by eapply W2|]. exists k. rewrite Hh. by simplify_map_eq.
    + destruct (W2 i x E) as (? & k' & E'). split; [done|]. exists k'.
      rewrite lookup_insert_ne; [done|]. intros Hx. apply Hne. by eapply W4.
  - done.
  - intros i j x y. rewrite !lookup_insert_Some. intros [[<- <-]|[? E1]] [[<- <-]|[? E2]] E; [done| | |by eapply W4].
    + eapply W4; [done|done|congruence].
    + symmetry. eapply W4; [done|done|congruence].
  - intros h k'. rewrite lookup_insert_Some. intros [[_ ?]|[? E]]; [done|by eapply W5].
  - intros h k'. rewrite lookup_insert_Some. intros [[<- _]|[? E]].
    + exists id, st'. by simplify_map_eq.
    + destruct (W6 h k' E) as (i & x & E' & <-). destruct (decide (i = id)) as [->|]; [congruence|].
      exists i, x. by rewrite lookup_insert_ne.
Qed.

Lemma wf_remove_udp s id st :
  wf s -> udp_conns s !! id = Some st ->
  wf (set_sockets (set_udp s (delete id (udp_conns s))) (delete (us_handle st) (sockets s))).
Proof.
  intros [W1 W2 W3 W4 W5 W6] Hst. constructor; cbn [sockets tcp_conns udp_conns next_id set_udp set_sockets].
  - intros i x E. destruct (W1 i x E) as (? & ? & k & E'). split_and!; [done|done|]. exists k. rewrite lookup_delete_ne; [done|].
    intros Hx. destruct (W2 id st Hst) as (_ & k2 & E2). congruence.
  - intros i x. rewrite lookup_delete_Some. intros [Hne E]. destruct (W2 i x E) as (? & k & E'). split; [done|].
    exists k. rewrite lookup_delete_ne; [done|]. intros Hx. apply Hne. by eapply W4.
  - done.
  - intros i j x y. rewrite !lookup_delete_Some. intros [_ E1] [_ E2]. by eapply W4.
  - intros h k. rewrite lookup_delete_Some. intros [_ E]. by eapply W5.
  - intros h k. rewrite lookup_delete_Some. intros [Hne E]. destruct (W6 h k E) as (i & x & E' & <-).
    exists i, x. split; [|done]. apply lookup_delete_Some. split; [|done]. intros ->. congruence.
Qed.

(** Polling the interface changes sockets, not which ones there are. *)
Definition same_kind (a b : Socket) : Prop :=
  match a, b with Tcp _, Tcp _ | Udp _, Udp _ => True | _, _ => False end.
Definition same_kinds (m m' : gmap Z Socket) : Prop :=
  forall h, match m !! h, m' !! h with Some a, Some b => same_kind a b | None, None => True | _, _ => False end.
Definition polled (s : NetStack) (rx tx : list bytes) (m : gmap Z Socket) : NetStack :=
  mkStack (iface s) rx tx m (tcp_conns s) (udp_conns s) (next_id s) (next_port s).

Lemma wf_polled s rx tx m : wf s -> same_kinds (sockets s) m -> wf (polled s rx tx m).
Proof.
  intros [W1 W2 W3 W4 W5 W6] Hm. constructor; cbn [sockets tcp_conns udp_conns next_id polled]; [| |done|done| |].
  - intros i x E. destruct (W1 i x E) as (? & ? & k & Ek). split_and!; [done|done|]. specialize (Hm (ts_handle x)).
    rewrite Ek in Hm. destruct (m !! ts_handle x) as [[k'|]|]; try done. by exists k'.
  - intros i x E. destruct (W2 i x E) as (? & k & Ek). split; [done|]. specialize (Hm (us_handle x)).
    rewrite Ek in Hm. destruct (m !! us_handle x) as [[|k']|]; try done. by exists k'.
  - intros h k Ek. specialize (Hm h). rewrite Ek in Hm. destruct (sockets s !! h) as [[k'|]|] eqn:E; try done. by eapply W5.
  - intros h k Ek. specialize (Hm h). rewrite Ek in Hm. destruct (sockets s !! h) as [[|k']|] eqn:E; try done. by eapply W6.
Qed.

Context `{!SmoltcpLaws}.

Lemma fresh_socket s : sockets s !! new_handle (dom (sockets s)) = None.
Proof. apply not_elem_of_dom. apply new_handle_fresh. Qed.

Lemma wf_handle_cmd s cmd s' e : wf s -> handle_cmd s cmd = Ok (s', e) -> wf s'.
Proof.
  intros W. destruct W as [W1 W2 W3 W4 W5 W6] eqn:EW. clear EW. pose proof (fresh_socket s) as Hf.
  set (h := new_handle (dom (sockets s))) in *. pose proof max_pending_pos as Hpos.
  destruct cmd as [dst| |v4 v6]; unfold handle_cmd; fold h;
    [| |intros E; apply obind_Ok in E as (i & _ & E); simplify_eq; by constructor].
  - destruct (alloc_port _) as [lp np]. destruct (tcp_connect _ _) as [k|]; intros [= <- _]; [|by constructor].
    constructor; cbn [fst sockets tcp_conns udp_conns next_id].
    + intros i x. rewrite lookup_insert_Some. intros [[<- <-]|[Hne E]].
      * cbn [pending ts_handle]. split_and!; [lia|unfold zlen; simpl; lia|]. exists k. by simplify_map_eq.
      * destruct (W1 i x E) as (? & ? & k' & E'). split_and!; [lia|done|]. exists k'. rewrite lookup_insert_ne; congruence.
    + intros i x E. destruct (W2 i x E) as (? & k' & E'). split; [lia|]. exists k'. rewrite lookup_insert_ne; congruence.
    + intros i j x y. rewrite !lookup_insert_Some. intros [[<- <-]|[? E1]] [[<- <-]|[? E2]] E; [done| | |by eapply W3].
      * exfalso. destruct (W1 j y E2) as (_ & _ & k' & E'). cbn in E. congruence.
      * exfalso. destruct (W1 i x E1) as (_ & _ & k' & E'). cbn in E. congruence.
    + done.
    + intros h' k'. rewrite lookup_insert_Some. intros [[<- _]|[? E]].
      * eexists (next_id s), _. split; [apply lookup_insert_eq|done].
      * destruct (W5 h' k' E) as (i & x & E' & <-). exists i, x. rewrite lookup_insert_ne; [done|].
        destruct (W1 i x E'). lia.
    + intros h' k'. rewrite lookup_insert_Some. intros [[_ ?]|[? E]]; [done|by eapply W6].
  - destruct (alloc_port _) as [lp np]. destruct (udp_bind _) as [k|]; intros [= <- _]; [|by constructor].
    constructor; cbn [fst sockets tcp_conns udp_conns next_id].
    + intros i x E. destruct (W1 i x E) as (? & ? & k' & E'). split_and!; [lia|done|]. exists k'. rewrite lookup_insert_ne; congruence.
    + intros i x. rewrite lookup_insert_Some. intros [[<- <-]|[Hne E]].
      * cbn [us_handle]. split; [lia|]. exists k. by simplify_map_eq.
      * destruct (W2 i x E) as (? & k' & E'). split; [lia|]. exists k'. rewrite lookup_insert_ne; congruence.
    + done.
    + intros i j x y. rewrite !lookup_insert_Some. intros [[<- <-]|[? E1]] [[<- <-]|[? E2]] E; [done| | |by eapply W4].
      * exfalso. destruct (W2 j y E2) as (_ & k' & E'). cbn in E. congruence.
      * exfalso. destruct (W2 i x E1) as (_ & k' & E'). cbn in E. congruence.
    + intros h' k'. rewrite lookup_insert_Some. intros [[_ ?]|[? E]]; [done|by eapply W5].
    + intros h' k'. rewrite lookup_insert_Some. intros [[<- _]|[? E]].
      * eexists (next_id s), _. split; [apply lookup_insert_eq|done].
      * destruct (W6 h' k' E) as (i & x & E' & <-). exists i, x. rewrite lookup_insert_ne; [done|].
        destruct (W2 i x E'). lia.
Qed.

(** ** Bytes on their way to the network *)

(** Of connection [id]: the bytes taken over from the application, those its
    socket took, and those in a sequence of data for the stack. *)
Definition accepted_of (id : Z) (l : list effect) : bytes :=
  concat (map (fun e => match e with Accepted i b => if i =? id then b else [] | _ => [] end) l).
Definition sent_of (id : Z) (l : list effect) : bytes :=
  concat (map (fun e => match e with SentOut i b => if i =? id then b else [] | _ => [] end) l).
Definition data_of (id : Z) (l : list DataIn) : bytes :=
  concat (map (fun d => match d with DTcp i b => if i =? id then b else [] | _ => [] end) l).

Lemma accepted_app id l l' : accepted_of id (l ++ l') = accepted_of id l ++ accepted_of id l'.
Proof. unfold accepted_of. by rewrite map_app, concat_app. Qed.
Lemma sent_app id l l' : sent_of id (l ++ l') = sent_of id l ++ sent_of id l'.
Proof. unfold sent_of. by rewrite map_app, concat_app. Qed.
Lemma data_app id l l' : data_of id (l ++ l') = data_of id l ++ data_of id l'.
Proof. unfold data_of. by rewrite map_app, concat_app. Qed.
Lemma delivered_quiet id i chunks : sent_of id (map (Delivered i) chunks) = [] /\ accepted_of id (map (Delivered i) chunks) = [].
Proof. unfold sent_of, accepted_of. induction chunks as [|c chunks IH]; [done|]. exact IH. Qed.

(** A step of the stack: every connection there is afterwards was there before
    and has the bytes it had and was given, less those its socket took. *)
Record moved (s : NetStack) (e : list effect) (s' : NetStack) : Prop := {
  mv_id : next_id s' = next_id s;
  mv_conn id st' : tcp_conns s' !! id = Some st' ->
    exists st, tcp_conns s !! id = Some st /\ pending st ++ accepted_of id e = sent_of id e ++ pending st';
  mv_quiet id : tcp_conns s !! id = None -> sent_of id e = [] /\ accepted_of id e = [] }.

Lemma moved_trans s1 e1 s2 e2 s3 : moved s1 e1 s2 -> moved s2 e2 s3 -> moved s1 (e1 ++ e2) s3.
Proof.
  intros [A1 A2 A3] [B1 B2 B3]. constructor; [congruence| |].
  - intros id st3 E3. destruct (B2 id st3 E3) as (st2 & E2 & P2). destruct (A2 id st2 E2) as (st1 & E1 & P1).
    exists st1. split; [done|]. by rewrite accepted_app, sent_app, app_assoc, P1, <- !app_assoc, P2.
  - intros id E1. rewrite sent_app, accepted_app. destruct (A3 id E1) as [-> ->]. apply B3. destruct (tcp_conns s2 !! id) as [st2|] eqn:E2; [|done].
    destruct (A2 id st2 E2) as (st1 & ? & _). congruence.
Qed.

(** A step that leaves all TCP connections alone. *)
Lemma moved_same s s' : next_id s' = next_id s -> tcp_conns s' = tcp_conns s -> moved s [] s'.
Proof. intros E1 E2. constructor; [done| |done]. intros id st. rewrite E2. intros E. exists st. by rewrite app_nil_r. Qed.

(** One connection changes. *)
Lemma moved_one s s' id st st' e :
  next_id s' = next_id s -> tcp_conns s !! id = Some st -> tcp_conns s' = <[id := st']> (tcp_conns s) ->
  pending st ++ accepted_of id e = sent_of id e ++ pending st' ->
  (forall i, i <> id -> sent_of i e = [] /\ accepted_of i e = []) ->
  moved s e s'.
Proof.
  intros E1 Hst E2 Hp Hq. constructor; [done| |].
  - intros i x. rewrite E2, lookup_insert_Some. intros [[<- <-]|[Hne E]]; [by exists st|].
    exists x. destruct (Hq i) as [-> ->]; [done|]. by rewrite app_nil_r.
  - intros i E. apply Hq. intros ->. congruence.
Qed.

Lemma moved_removed s s' id st e :
  next_id s' = next_id s -> tcp_conns s !! id = Some st -> tcp_conns s' = delete id (tcp_conns s) ->
  (forall i, i <> id -> sent_of i e = [] /\ accepted_of i e = []) ->
  moved s e s'.
Proof.
  intros E1 Hst E2 Hq. constructor; [done| |].
  - intros i x. rewrite E2, lookup_delete_Some. intros [Hne E].
    exists x. destruct (Hq i) as [-> ->]; [done|]. by rewrite app_nil_r.
  - intros i E. apply Hq. intros ->. congruence.
Qed.

Lemma push_pending_ok st sock : exists st' sock' sent,
  push_pending st sock = Ok (st', sock', sent) /\ pending st = sent ++ pending st' /\ state_of sock' = state_of sock /\
  st' = with_pending st (pending st').
Proof.
  unfold push_pending. assert (st = with_pending st (pending st)) as Hid by by destruct st.
  destruct (can_send sock && _); [|by eexists _, _, _]. destruct (send_slice sock (pending st)) as [r sock'] eqn:Es.
  assert (state_of sock' = state_of sock) as Hs by (pose proof (send_slice_state sock (pending st)) as Hx; by rewrite Es in Hx).
  destruct r as [n|]; [|by eexists _, _, _]. destruct (0 <? n) eqn:E0; [|by eexists _, _, _].
  pose proof (send_slice_bound sock (pending st) n sock' Es). replace (zlen (pending st) <? n) with false by lia.
  eexists _, _, _. split; [done|]. cbn [pending with_pending]. split_and!; [by rewrite ztake_zdrop|done|done].
Qed.

Lemma recv_loop_state n : forall tx sock tx' sock' chunks full gone,
  recv_loop n tx sock = (tx', sock', chunks, full, gone) -> state_of sock' = state_of sock.
Proof.
  induction n as [|n IH]; intros tx sock tx' sock' chunks full gone; cbn [recv_loop]; [by intros [= _ <-]|].
  destruct (negb (ch_open tx)); [by intros [= _ <-]|]. destruct (_ <=? _)%nat; [by intros [= _ <-]|].
  destruct (negb (can_recv sock)); [by intros [= _ <-]|]. pose proof (recv_state sock) as Hs.
  destruct (recv_all sock) as [[[|b chunk]|] sock1]; cbn [snd] in Hs; [by intros [= _ <-]| |by intros [= _ <-]].
  destruct (recv_loop n _ sock1) as [[[[tx2 sock2] chunks2] full2] gone2] eqn:E. intros [= _ <- _ _ _].
  rewrite <- Hs. by eapply IH.
Qed.

Lemma close_not_time_wait k : state_of k <> STimeWait -> state_of (close k) <> STimeWait.
Proof. rewrite close_state. by destruct (state_of k). Qed.

Lemma remove_socket_ok s h k : sockets s !! h = Some k -> remove_socket s h = Ok (set_sockets s (delete h (sockets s))).
Proof. intros E. unfold remove_socket. by rewrite E. Qed.

(** What a service pass reports of a connection. *)
Lemma conn_effects id sent chunks (up : bool) :
  let effects := (if up then [Connected id] else []) ++
    (match sent with [] => [] | _ => [SentOut id sent] end) ++ map (Delivered id) chunks in
  (forall i, accepted_of i effects = []) /\ (forall i, sent_of i effects = if id =? i then sent else []).
Proof.
  intros effects. split; intros i; unfold effects; destruct (delivered_quiet i id chunks) as [E1 E2].
  - rewrite !accepted_app, E2. by destruct up, sent.
  - rewrite !sent_app, E1. destruct up, sent; unfold sent_of; simpl; destruct (id =? i); by rewrite ?app_nil_r.
Qed.

Lemma service_conn_ok id s : wf s -> exists s' full e,
  service_conn id s = Ok (s', full, e) /\ wf s' /\ moved s e s' /\ forall i, accepted_of i e = [].
Proof.
  intros W. unfold service_conn. destruct (tcp_conns s !! id) as [st|] eqn:Hst.
  2:{ eexists _, _, _. split; [done|]. split; [done|]. split; [by apply moved_same|done]. }
  destruct (wf_tcp s W id st Hst) as (Hid & Hp & sock & Hsock). unfold get_tcp. rewrite Hsock. cbn [obind].
  set (up := negb (established st) && _).
  set (st1 := if up then mkTcp (ts_handle st) (to_app st) false (pending st) true (half_closed st) else st).
  assert (pending st1 = pending st /\ ts_handle st1 = ts_handle st) as [Hp1 Hh1] by (unfold st1; by destruct up).
  destruct (negb (established st1) && gone_state (state_of sock)) eqn:Eref.
  { rewrite (remove_socket_ok s _ _ Hsock). cbn [obind]. eexists _, _, _. split; [done|].
    split; [exact (wf_remove_tcp s id st W Hst)|]. split; [|intros i; by destruct (waiting st1)].
    eapply moved_removed; [done|done|done|]. intros i _. by destruct (waiting st1). }
  destruct (push_pending_ok st1 sock) as (st2 & sock2 & sent & -> & Hsplit & Hs2 & Hst2). cbn [obind].
  set (sock3 := if half_closed st2 && _ then close sock2 else sock2).
  destruct (recv_loop MAX_RECV_CHUNKS (to_app st2) sock3) as [[[[tx sock4] chunks] full] gone] eqn:Er.
  pose proof (recv_loop_state _ _ _ _ _ _ _ _ Er) as Hs4. set (sock5 := if gone then close sock4 else sock4).
  set (effects := (if up && waiting st then [Connected id] else []) ++
    (match sent with [] => [] | _ => [SentOut id sent] end) ++ map (Delivered id) chunks).
  destruct (conn_effects id sent chunks (up && waiting st)) as [Hacc Hsent]. fold effects in Hacc, Hsent.
  assert (forall i, i <> id -> sent_of i effects = [] /\ accepted_of i effects = []) as Hquiet.
  { intros i Hi. rewrite Hsent, Hacc. by replace (id =? i) with false by lia. }
  destruct (gone_state (state_of sock5) && established _) eqn:Eg.
  { rewrite (remove_socket_ok s _ _ Hsock). cbn [obind]. eexists _, _, _. split; [done|].
    split; [exact (wf_remove_tcp s id st W Hst)|]. split; [by eapply moved_removed|done]. }
  assert (state_of sock5 <> STimeWait) as Hnt.
  { intros Htw. cbn [established] in Eg. rewrite Htw in Eg.
    assert (established st1 = false) as He by (rewrite Hst2 in Eg; exact Eg).
    rewrite He in Eref. cbn [negb andb] in Eref. apply bool_decide_eq_false in Eref. revert Htw.
    assert (state_of sock2 <> STimeWait) as N2 by (rewrite Hs2; tauto).
    assert (state_of sock3 <> STimeWait) as N3 by (unfold sock3; destruct (half_closed st2 && bool_decide (pending st2 = [])); [by apply close_not_time_wait|done]).
    unfold sock5. destruct gone; [apply close_not_time_wait|]; by rewrite Hs4. }
  rewrite (bool_decide_eq_false_2 (state_of sock5 = STimeWait)) by done.
  eexists _, _, _. split; [done|]. pose proof (zlen_nonneg sent).
  assert (zlen (pending st1) = zlen sent + zlen (pending st2)) as Hl by (rewrite Hsplit; apply zlen_app).
  split; [|split; [|done]].
  - refine (wf_update_tcp s id st _ _ W Hst _ _); [done|]. cbn [pending]. rewrite Hp1 in Hl. lia.
  - eapply moved_one; [done|exact Hst|done| |exact Hquiet].
    rewrite Hsent, Hacc, Z.eqb_refl, app_nil_r, <- Hp1. exact Hsplit.
Qed.

Lemma service_tcp_ok ids : forall s, wf s -> exists s' full e,
  service_tcp ids s = Ok (s', full, e) /\ wf s' /\ moved s e s' /\ forall i, accepted_of i e = [].
Proof.
  induction ids as [|id ids IH]; intros s W; cbn [service_tcp].
  - eexists _, _, _. split; [done|]. split; [done|]. split; [by apply moved_same|done].
  - destruct (service_conn_ok id s W) as (s1 & f1 & e1 & -> & W1 & M1 & A1). cbn [obind].
    destruct (IH s1 W1) as (s2 & f2 & e2 & -> & W2 & M2 & A2). cbn [obind].
    eexists _, _, _. split; [done|]. split; [done|]. split; [by eapply moved_trans|].
    intros i. by rewrite accepted_app, A1, A2.
Qed.

Lemma service_udp_ok ids : forall s, wf s -> exists s' full,
  service_udp ids s = Ok (s', full) /\ wf s' /\ moved s [] s'.
Proof.
  induction ids as [|id ids IH]; intros s W; cbn [service_udp].
  - eexists _, _. split; [done|]. split; [done|by apply moved_same].
  - destruct (udp_conns s !! id) as [st|] eqn:Hst; [|by apply IH].
    destruct (wf_udp s W id st Hst) as (_ & k & Hk). unfold get_udp. rewrite Hk. cbn [obind].
    destruct (udp_recv_loop _ _ _) as [[tx k'] full].
    match goal with |- context [service_udp ids ?x] => set (s1 := x) end.
    assert (wf s1) as W1 by (refine (wf_update_udp s id st _ _ W Hst _); done).
    destruct (IH s1 W1) as (s2 & f2 & -> & W2 & M2). cbn [obind]. eexists _, _. split; [done|]. split; [done|].
    apply (moved_trans s [] s1 [] s2); [by apply moved_same|done].
Qed.

Definition back_list (back : option DataIn) : list DataIn := match back with Some d => [d] | None => [] end.

(** What was to be handled is taken over or put back, in that order. *)
Record handled (s' : NetStack) (todo : list DataIn) (e : list effect) (rest : list DataIn) : Prop := {
  hd_split id : is_Some (tcp_conns s' !! id) -> data_of id todo = accepted_of id e ++ data_of id rest;
  hd_fresh id : data_of id todo = [] -> data_of id rest = [] }.

Lemma one_data id i data : data_of id [DTcp i data] = if i =? id then data else [].
Proof. unfold data_of. simpl. by rewrite app_nil_r. Qed.
Lemma one_accepted id i data : accepted_of id [Accepted i data] = if i =? id then data else [].
Proof. unfold accepted_of. simpl. by rewrite app_nil_r. Qed.

(** Data that fits is taken over. *)
Lemma take_over s id st data :
  wf s -> tcp_conns s !! id = Some st -> zlen data <= max_tcp_pending - zlen (pending st) ->
  let s' := set_tcp s (<[id := with_pending st (pending st ++ data)]> (tcp_conns s)) in wf s' /\ moved s [Accepted id data] s'.
Proof.
  intros W Hst Hd s'. split.
  - refine (wf_update_conn s id st _ W Hst _ _); [done|]. cbn [pending with_pending]. rewrite zlen_app. lia.
  - eapply moved_one; [done|exact Hst|done| |].
    + rewrite one_accepted, Z.eqb_refl. done.
    + intros i Hi. rewrite one_accepted. by replace (id =? i) with false by lia.
Qed.

Lemma try_handle_ok s d : wf s -> exists s' e back,
  try_handle_data s d = Ok (s', e, back) /\ wf s' /\ moved s e s' /\ handled s' [d] e (back_list back).
Proof.
  intros W. destruct d as [id data|id|id dst data|id]; cbn [try_handle_data].
  - destruct (tcp_conns s !! id) as [st|] eqn:Hst.
    2:{ eexists _, _, _. split; [done|]. split; [done|]. split; [by apply moved_same|]. constructor; [|done].
        intros i [x Hx]. rewrite one_data. replace (id =? i) with false; [done|]. destruct (Z.eqb_spec id i); congruence. }
    destruct (wf_tcp s W id st Hst) as (_ & Hp & _). pose proof (zlen_nonneg data).
    destruct (max_tcp_pending <=? zlen (pending st)) eqn:Ef.
    { eexists _, _, _. split; [done|]. split; [done|]. split; [by apply moved_same|]. by constructor. }
    set (space := max_tcp_pending - zlen (pending st)).
    pose proof (fun data' => take_over s id st data' W Hst) as Hput. fold space in Hput.
    destruct (zlen data <=? space) eqn:Es.
    + destruct (Hput data ltac:(lia)) as [W' M']. eexists _, _, _. split; [done|]. split; [done|]. split; [done|].
      constructor; [|done]. intros i _. rewrite one_data, one_accepted. by destruct (id =? i); [rewrite app_nil_r|].
    + assert (zlen (ztake space data) = space) as Hz by (rewrite zlen_ztake; lia).
      assert (get_range data 0 space = Some (ztake space data)) as E1.
      { pose proof (get_range_mid [] (ztake space data) (zdrop space data) 0 space) as Hg. cbn [app] in Hg.
        rewrite ztake_zdrop in Hg. apply Hg; [done|]. by rewrite Hz. }
      assert (get_range data space (zlen data) = Some (zdrop space data)) as E2.
      { pose proof (get_range_suffix (ztake space data) (zdrop space data) space (zlen data)) as Hg.
        rewrite ztake_zdrop in Hg. apply Hg; [done|]. rewrite Hz, zlen_zdrop. lia. }
      unfold idx_range. rewrite E1, E2. cbn [obind].
      destruct (Hput (ztake space data) ltac:(lia)) as [W' M']. eexists _, _, _. split; [done|]. split; [done|]. split; [done|].
      constructor; intros i; cbn [back_list]; rewrite !one_data, ?one_accepted.
      * intros _. destruct (id =? i); [by rewrite ztake_zdrop|done].
      * destruct (id =? i); [|done]. intros ->. unfold zdrop. by rewrite drop_nil.
  - destruct (tcp_conns s !! id) as [st|] eqn:Hst; (eexists _, _, _; split; [done|]).
    2:{ split; [done|]. split; [by apply moved_same|by constructor]. }
    destruct (wf_tcp s W id st Hst) as (_ & Hp & _). split; [by refine (wf_update_conn s id st _ W Hst _ _)|].
    split; [|by constructor]. eapply moved_one; [done|exact Hst|done|by rewrite app_nil_r|done].
  - destruct (udp_conns s !! id) as [st|] eqn:Hst.
    2:{ eexists _, _, _. split; [done|]. split; [done|]. split; [by apply moved_same|by constructor]. }
    destruct (wf_udp s W id st Hst) as (_ & k & Hk). unfold get_udp. rewrite Hk. cbn [obind]. eexists _, _, _. split; [done|].
    split; [|split; [by apply moved_same|by constructor]].
    pose proof (wf_update_udp s id st st (udp_send k data (to_ip_endpoint dst)) W Hst eq_refl) as W'.
    assert (<[id := st]> (udp_conns s) = udp_conns s) as Eu by (by apply insert_id). rewrite Eu in W'. exact W'.
  - destruct (udp_conns s !! id) as [st|] eqn:Hst.
    2:{ eexists _, _, _. split; [done|]. split; [done|]. split; [by apply moved_same|by constructor]. }
    destruct (wf_udp s W id st Hst) as (_ & k & Hk).
    rewrite (remove_socket_ok (set_udp s (delete id (udp_conns s))) _ _ Hk). cbn [obind]. eexists _, _, _. split; [done|].
    split; [exact (wf_remove_udp s id st W Hst)|]. split; [by apply moved_same|by constructor].
Qed.

Lemma moved_present s e s' id : moved s e s' -> is_Some (tcp_conns s' !! id) -> is_Some (tcp_conns s !! id).
Proof. intros M [st' E]. destruct (mv_conn _ _ _ M id st' E) as (st & ? & _). by exists st. Qed.

Lemma drain_deferred_ok d : forall s, wf s -> exists s' e d',
  drain_deferred d s = Ok (s', e, d') /\ wf s' /\ moved s e s' /\ handled s' d e d'.
Proof.
  induction d as [|x d IH]; intros s W; cbn [drain_deferred].
  { eexists _, _, _. split; [done|]. split; [done|]. split; [by apply moved_same|by constructor]. }
  destruct (try_handle_ok s x W) as (s1 & e1 & back & -> & W1 & M1 & [D1 F1]). cbn [obind]. destruct back as [back|].
  - eexists _, _, _. split; [done|]. split; [done|]. split; [done|]. change (x :: d) with ([x] ++ d).
    change (back :: d) with ([back] ++ d). cbn [back_list] in D1, F1.
    constructor; intros i; rewrite !data_app; [intros Hi; by rewrite D1, <- app_assoc|].
    intros [E1 E2]%app_nil. by rewrite (F1 i E1), E2.
  - destruct (IH s1 W1) as (s2 & e2 & d' & -> & W2 & M2 & [D2 F2]). cbn [obind]. eexists _, _, _. split; [done|].
    split; [done|]. split; [by eapply moved_trans|]. change (x :: d) with ([x] ++ d).
    constructor; intros i; rewrite data_app, ?accepted_app.
    + intros Hi. rewrite D1 by (by eapply moved_present). rewrite (D2 i Hi). cbn [back_list]. by rewrite app_nil_r, app_assoc.
    + intros [_ E2]%app_nil. auto.
Qed.

Lemma ingest_ok q : forall s, wf s -> exists s' e d' taken unread,
  ingest q s = Ok (s', e, d', unread) /\ q = taken ++ unread /\ wf s' /\ moved s e s' /\ handled s' taken e d'.
Proof.
  induction q as [|x q IH]; intros s W; cbn [ingest].
  { eexists _, _, _, [], _. split; [done|]. split; [done|]. split; [done|]. split; [by apply moved_same|by constructor]. }
  destruct (try_handle_ok s x W) as (s1 & e1 & back & -> & W1 & M1 & [D1 F1]). cbn [obind]. destruct back as [back|].
  - eexists _, _, _, [x], _. split; [done|]. split; [done|]. split; [done|]. split; [done|]. by constructor.
  - destruct (IH s1 W1) as (s2 & e2 & d' & taken & unread & -> & -> & W2 & M2 & [D2 F2]). cbn [obind].
    eexists _, _, _, (x :: taken), _. split; [done|]. split; [done|]. split; [done|]. split; [by eapply moved_trans|].
    change (x :: taken) with ([x] ++ taken). constructor; intros i; rewrite data_app, ?accepted_app.
    + intros Hi. rewrite D1 by (by eapply moved_present). rewrite (D2 i Hi). cbn [back_list]. by rewrite app_nil_r, app_assoc.
    + intros [_ E2]%app_nil. auto.
Qed.

(** ** Executions *)

(** The application knows only connections that were opened. *)
Definition addressed (s : NetStack) (d : DataIn) : Prop :=
  match d with DTcp id _ | DTcpClose id | DUdp id _ _ | DUdpClose id => id < next_id s end.

(** The stack, the deferred data, all data received from the application and
    the effects so far.  The network and the application act in [reach_poll],
    [reach_app] and [reach_app_udp]; the other steps are those of [run]. *)
Inductive reach : NetStack -> list DataIn -> list DataIn -> list effect -> Prop :=
| reach_init v4 v6 s : initial (E := unit) v4 v6 = Ok s -> reach s [] [] []
| reach_poll s d a l rx tx m : reach s d a l -> same_kinds (sockets s) m -> reach (polled s rx tx m) d a l
| reach_app s d a l id st tx :
    reach s d a l -> tcp_conns s !! id = Some st ->
    reach (set_tcp s (<[id := mkTcp (ts_handle st) tx (waiting st) (pending st) (established st) (half_closed st)]>
      (tcp_conns s))) d a l
| reach_app_udp s d a l id st tx :
    reach s d a l -> udp_conns s !! id = Some st ->
    reach (set_udp s (<[id := mkUdp (us_handle st) tx]> (udp_conns s))) d a l
| reach_packets s d a l queued : reach s d a l -> reach (ingest_packets queued s).1 d a l
| reach_flush s d a l out : reach s d a l -> reach (polled s (dev_rx s) (flush_tx (dev_tx s) out).1.1 (sockets s)) d a l
| reach_cmd s d a l cmd s' e : reach s d a l -> handle_cmd s cmd = Ok (s', e) -> reach s' d a (l ++ e)
| reach_tcp s d a l ids s' full e : reach s d a l -> service_tcp ids s = Ok (s', full, e) -> reach s' d a (l ++ e)
| reach_udp s d a l ids s' full : reach s d a l -> service_udp ids s = Ok (s', full) -> reach s' d a l
| reach_deferred s d a l s' e d' : reach s d a l -> drain_deferred d s = Ok (s', e, d') -> reach s' d' a (l ++ e)
| reach_data s a l taken unread s' e d' :
    reach s [] a l -> Forall (addressed s) taken -> ingest (taken ++ unread) s = Ok (s', e, d', unread) ->
    reach s' d' (a ++ taken) (l ++ e).

Record inv (s : NetStack) (d a : list DataIn) (l : list effect) : Prop := {
  iv_wf : wf s;
  iv_conn id st : tcp_conns s !! id = Some st ->
    data_of id a = accepted_of id l ++ data_of id d /\ accepted_of id l = sent_of id l ++ pending st;
  iv_fresh id : next_id s <= id -> data_of id a = [] /\ data_of id d = [] /\ accepted_of id l = [] /\ sent_of id l = [] }.

(** A step that moves bytes along. *)
Lemma inv_moved s d a l s' e d' taken :
  inv s d a l -> wf s' -> moved s e s' -> handled s' (d ++ taken) e d' ->
  (forall id, next_id s <= id -> data_of id taken = []) ->
  inv s' d' (a ++ taken) (l ++ e).
Proof.
  intros [W C F] W' M [D Fr] Ht. constructor; [done| |].
  - intros id st' E. destruct (mv_conn _ _ _ M id st' E) as (st & E0 & Hp). destruct (C id st E0) as [C1 C2].
    pose proof (D id (ex_intro _ st' E)) as HD. rewrite data_app in HD. rewrite data_app, accepted_app, sent_app, C1, <- !app_assoc, HD.
    split; [done|]. by rewrite C2, <- app_assoc, Hp.
  - intros id Hid. rewrite (mv_id _ _ _ M) in Hid. destruct (F id Hid) as (F1 & F2 & F3 & F4).
    rewrite data_app, accepted_app, sent_app, F1, F3, F4, (Ht id Hid).
    assert (tcp_conns s !! id = None) as En.
    { destruct (tcp_conns s !! id) as [st|] eqn:E; [|done]. destruct (wf_tcp s W id st E). lia. }
    destruct (mv_quiet _ _ _ M id En) as [-> ->]. split_and!; [done| |done|done].
    apply Fr. by rewrite data_app, F2, (Ht id Hid).
Qed.

Lemma handled_nothing s d : handled s (d ++ []) [] d.
Proof. constructor; intros i; by rewrite app_nil_r. Qed.

(** A step that leaves the bytes where they are. *)
Lemma inv_still s d a l s' : inv s d a l -> wf s' -> moved s [] s' -> inv s' d a l.
Proof.
  intros I W M. rewrite <- (app_nil_r a), <- (app_nil_r l).
  eapply inv_moved; [done|done|done|apply handled_nothing|done].
Qed.

Lemma addressed_fresh s taken id : Forall (addressed s) taken -> next_id s <= id -> data_of id taken = [].
Proof.
  intros Ha Hid. induction Ha as [|x taken Hx Ha IH]; [done|]. change (x :: taken) with ([x] ++ taken).
  rewrite data_app, IH, app_nil_r. destruct x; try done. rewrite one_data. simpl in Hx. by replace (_ =? _) with false by lia.
Qed.

Lemma same_kinds_refl m : same_kinds m m.
Proof. intros h. destruct (m !! h) as [[]|]; done. Qed.

(** What a command does to the tables. *)
Lemma handle_cmd_moves s cmd s' e : handle_cmd s cmd = Ok (s', e) ->
  next_id s <= next_id s' /\ (forall id, accepted_of id e = [] /\ sent_of id e = []) /\
  (forall id st, tcp_conns s' !! id = Some st -> tcp_conns s !! id = Some st \/ id = next_id s /\ pending st = []) /\
  (forall id, is_Some (udp_conns s !! id) -> is_Some (udp_conns s' !! id)).
Proof.
  unfold handle_cmd. destruct cmd as [dst| |v4 v6].
  - destruct (alloc_port _), (tcp_connect _ _); intros [= <- <-]; (split_and!; [simpl; lia|done| |done]); [|by left].
    cbn [tcp_conns]. intros id st. rewrite lookup_insert_Some. intros [[<- <-]|[_ E]]; [by right|by left].
  - destruct (alloc_port _), (udp_bind _); intros [= <- <-]; (split_and!; [simpl; lia|done|by left|]); [|done].
    intros id Hid. apply lookup_insert_is_Some'. by right.
  - intros E. apply obind_Ok in E as (i & _ & E). simplify_eq. split_and!; [done|done|by left|done].
Qed.

Lemma inv_cmd s d a l cmd s' e : inv s d a l -> handle_cmd s cmd = Ok (s', e) -> inv s' d a (l ++ e).
Proof.
  intros [W C F] E. destruct (handle_cmd_moves _ _ _ _ E) as (Hn & Hq & Ht & _).
  assert (forall id, accepted_of id (l ++ e) = accepted_of id l /\ sent_of id (l ++ e) = sent_of id l) as Hl.
  { intros id. destruct (Hq id) as [Q1 Q2]. by rewrite accepted_app, sent_app, Q1, Q2, !app_nil_r. }
  constructor; [by eapply wf_handle_cmd| |].
  - intros id st E0. destruct (Hl id) as [-> ->]. destruct (Ht id st E0) as [E1|[-> Hp]]; [by apply C|].
    destruct (F (next_id s) ltac:(lia)) as (-> & -> & -> & ->). by rewrite Hp.
  - intros id Hid. destruct (Hl id) as [-> ->]. apply F. lia.
Qed.

Lemma stack_inv s d a l : reach s d a l -> inv s d a l.
Proof.
  induction 1 as [v4 v6 s E|s d a l rx tx m _ IH Hm|s d a l id st tx _ IH Hst|s d a l id st tx _ IH Hst|s d a l queued _ IH
    |s d a l out _ IH|s d a l cmd s' e _ IH E|s d a l ids s' full e _ IH E|s d a l ids s' full _ IH E|s d a l s' e d' _ IH E
    |s a l taken unread s' e d' _ IH Ha E].
  - pose proof (wf_initial v4 v6 s E) as W. unfold initial in E. apply obind_Ok in E as (i & _ & E). simplify_eq. by constructor.
  - eapply inv_still; [done|apply wf_polled; [apply IH|done]|by apply moved_same].
  - pose proof (iv_wf _ _ _ _ IH) as W. destruct (wf_tcp s W id st Hst) as (_ & Hp & _).
    eapply inv_still; [done|by refine (wf_update_conn s id st _ W Hst _ _)|].
    eapply moved_one; [done|exact Hst|done|by rewrite app_nil_r|done].
  - pose proof (iv_wf _ _ _ _ IH) as W. destruct (wf_udp s W id st Hst) as (_ & k & Hk).
    pose proof (wf_update_udp s id st (mkUdp (us_handle st) tx) k W Hst eq_refl) as W'. rewrite set_sockets_id in W' by done.
    eapply inv_still; [done|done|by apply moved_same].
  - eapply inv_still; [done| |by apply moved_same]. refine (wf_polled s _ _ _ (iv_wf _ _ _ _ IH) (same_kinds_refl _)).
  - eapply inv_still; [done| |by apply moved_same]. apply wf_polled; [apply IH|apply same_kinds_refl].
  - by eapply inv_cmd.
  - destruct (service_tcp_ok ids s (iv_wf _ _ _ _ IH)) as (s2 & f2 & e2 & E2 & W2 & M2 & A2). rewrite E in E2. simplify_eq.
    rewrite <- (app_nil_r a). eapply inv_moved; [done|done|done| |done].
    constructor; intros i; rewrite app_nil_r; [|done]. by rewrite A2.
  - destruct (service_udp_ok ids s (iv_wf _ _ _ _ IH)) as (s2 & f2 & E2 & W2 & M2). rewrite E in E2. simplify_eq.
    by eapply inv_still.
  - destruct (drain_deferred_ok d s (iv_wf _ _ _ _ IH)) as (s2 & e2 & d2 & E2 & W2 & M2 & H2). rewrite E in E2. simplify_eq.
    rewrite <- (app_nil_r a). eapply inv_moved; [done|done|done| |done]. by rewrite app_nil_r.
  - destruct (ingest_ok (taken ++ unread) s (iv_wf _ _ _ _ IH)) as (s2 & e2 & d2 & tk & un & E2 & Eq & W2 & M2 & H2).
    rewrite E in E2. simplify_eq. apply app_inv_tail in Eq as <-.
    eapply inv_moved; [done|done|done|done|]. intros id. by apply addressed_fresh.
Qed.

Lemma returns_Ok {E A} (m : outcome E A) a : m = Ok a -> returns m.
Proof. by intros ->. Qed.

(** The stack's tables are sound and leak no socket.  In every execution each
    service pass, whatever the order of the table, and the handling of all
    deferred and new data returns without panic: every handle the tables hold
    is a socket of its kind.  Every socket belongs to a connection.  (The
    command that changes the addresses of the interface is apart: StackRun
    says when it panics.) *)
Theorem netstack_never_panics (s : NetStack) (d a : list DataIn) (l : list effect) :
  reach s d a l ->
  (forall ids, returns (service_tcp ids s) /\ returns (service_udp ids s)) /\
  returns (drain_deferred d s) /\ (forall queued, returns (ingest queued s)) /\
  (forall h k, sockets s !! h = Some (Tcp k) -> exists id st, tcp_conns s !! id = Some st /\ ts_handle st = h) /\
  (forall h k, sockets s !! h = Some (Udp k) -> exists id st, udp_conns s !! id = Some st /\ us_handle st = h).
Proof.
  intros W%stack_inv%iv_wf. split_and!.
  - intros ids. destruct (service_tcp_ok ids s W) as (? & ? & ? & E1 & _). destruct (service_udp_ok ids s W) as (? & ? & E2 & _).
    eauto using returns_Ok.
  - destruct (drain_deferred_ok d s W) as (? & ? & ? & E & _). eauto using returns_Ok.
  - intros q. destruct (ingest_ok q s W) as (? & ? & ? & ? & ? & E & _). eauto using returns_Ok.
  - apply (wf_tcp_owned s W).
  - apply (wf_udp_owned s W).
Qed.

(** Nothing an application sends is lost, repeated or reordered on its way
    through the stack: for every open connection the data received for it is,
    in order, what its socket has taken, what is pending and what is deferred,
    and no more than [max_tcp_pending] bytes are ever pending. *)
Theorem uplink_intact (s : NetStack) (d a : list DataIn) (l : list effect) (id : Z) (st : TcpState) :
  reach s d a l -> tcp_conns s !! id = Some st ->
  data_of id a = sent_of id l ++ pending st ++ data_of id d /\ zlen (pending st) <= max_tcp_pending.
Proof.
  intros [W C _]%stack_inv E. destruct (C id st E) as [-> ->]. destruct (wf_tcp s W id st E) as (_ & ? & _).
  by rewrite <- app_assoc.
Qed.

Lemma recv_loop_full n tx sock :
  n <> O -> ch_open tx = true -> length (ch_queue tx) = ch_cap tx -> recv_loop n tx sock = (tx, sock, [], true, false).
Proof. destruct n as [|n]; [done|]. intros _ Ho Hf. cbn [recv_loop]. by rewrite Ho, Hf, Nat.leb_refl. Qed.

(** A download is cut short when the application is slow.  A connection
    whose socket is closed is removed in the same pass that finds the
    application's queue full, with whatever the socket still had to be read:
    nothing is delivered, and the socket is gone. *)
Theorem backpressured_tail_lost (s : NetStack) (id : Z) (st : TcpState) (sock : TcpSock) :
  tcp_conns s !! id = Some st -> sockets s !! ts_handle st = Some (Tcp sock) ->
  established st = true -> pending st = [] -> half_closed st = false -> gone_state (state_of sock) = true ->
  ch_open (to_app st) = true -> length (ch_queue (to_app st)) = ch_cap (to_app st) -> can_recv sock = true ->
  exists s', service_conn id s = Ok (s', true, []) /\ tcp_conns s' !! id = None /\ sockets s' !! ts_handle st = None.
Proof.
  intros Hst Hk He Hp Hh Hg Ho Hf _. unfold service_conn, get_tcp. rewrite Hst, Hk. cbn [obind]. rewrite He. cbn [negb andb].
  rewrite He. cbn [negb andb]. unfold push_pending. rewrite Hp, andb_false_r. cbn [obind andb].
  rewrite Hh. cbn [andb]. rewrite recv_loop_full by (done || lia).
  rewrite Hg. cbn [established andb]. rewrite He. cbn [andb].
  rewrite (remove_socket_ok s _ _ Hk). cbn [obind app map]. eexists. split; [done|]. cbn [tcp_conns sockets set_tcp set_sockets].
  split; apply lookup_delete_eq.
Qed.

End Stack.

(** ** A stand-in for the crate

    Sockets that connect at once, take four bytes at a time and have the given
    bytes to read. *)

Definition max_handle (m : gset Z) : Z := fold_right Z.max 0 (elements m).

Lemma max_handle_ge m x : x ∈ m -> x <= max_handle m.
Proof.
  unfold max_handle. rewrite <- elem_of_elements. induction (elements m) as [|y l IH]; [by intros ?%not_elem_of_nil|].
  intros [->|Hx]%elem_of_cons; simpl; [lia|]. specialize (IH Hx). lia.
Qed.

Definition closed_by (t : tcp_state) : tcp_state :=
  match t with
  | SListen | SSynSent => SClosed
  | SSynReceived | SEstablished => SFinWait1
  | SCloseWait => SLastAck
  | t => t
  end.

Definition pipe_sockets : Smoltcp := {|
  TcpSock := tcp_state * bytes; UdpSock := unit;
  tcp_connect := fun _ _ => Some (SEstablished, []); udp_bind := fun _ => Some tt;
  state_of := fst; can_send := fun k => bool_decide (k.1 = SEstablished); can_recv := fun k => negb (bool_decide (k.2 = []));
  send_slice := fun k data => (Some (Z.min 4 (zlen data)), k); close := fun k => (closed_by k.1, k.2);
  recv_all := fun k => (Some k.2, (k.1, [])); udp_send := fun k _ _ => k; udp_can_recv := fun _ => false;
  udp_recv := fun k => (None, k); new_handle := fun m => max_handle m + 1; addr_accepted := fun ip => negb (is_multicast ip) |}.

Lemma pipe_sockets_laws : SmoltcpLaws (H := pipe_sockets).
Proof.
  constructor.
  - intros m Hm%max_handle_ge. cbn in Hm. lia.
  - intros k data n k'. cbn. intros [= <- <-]. pose proof (zlen_nonneg data). lia.
  - intros k data. reflexivity.
  - intros k. reflexivity.
  - intros [[] b]; reflexivity.
  - intros ip Hm. cbn. by rewrite Hm.
Qed.

Section Samples.
#[local] Existing Instance target64.
#[local] Existing Instance pipe_sockets.
#[local] Existing Instance pipe_sockets_laws.

Definition sample_spawned : NetStack := mkStack (mkIface [] None None) [] [] ∅ ∅ ∅ 1 49152.
Definition sample_open : NetStack :=
  match handle_cmd 512 sample_spawned (OpenTcp (sock_new (V4 [192; 0; 2; 1]) 80)) with Ok (s, _) => s | _ => sample_spawned end.
Definition sample_data : list DataIn := [DTcp 1 [1; 2; 3]; DTcp 1 [4; 5; 6]].
Definition sample_sent : NetStack * list effect :=
  match ingest 131072 sample_data sample_open with
  | Ok (s, e, _, _) => match service_tcp [1] s with Ok (s, _, e') => (s, e ++ e') | _ => (s, e) end
  | _ => (sample_open, [])
  end.

Lemma sample_stack_reach : reach 131072 512 sample_sent.1 [] sample_data sample_sent.2.
Proof.
  assert (reach 131072 512 sample_open [] [] []) as R1.
  { refine (reach_cmd 131072 512 _ _ _ _ (OpenTcp (sock_new (V4 [192; 0; 2; 1]) 80)) _ _ (reach_init 131072 512 None None sample_spawned eq_refl) _).
    reflexivity. }
  destruct (ingest 131072 (sample_data ++ []) sample_open) as [[[[s1 e1] d1] u1]| | |] eqn:E1; try (vm_compute in E1; discriminate).
  assert (d1 = [] /\ u1 = []) as [-> ->] by (vm_compute in E1; by simplify_eq).
  pose proof (reach_data 131072 512 _ _ _ sample_data [] _ _ _ R1 ltac:(repeat constructor) E1) as R2.
  destruct (service_tcp [1] s1) as [[[s2 f2] e2]| | |] eqn:E2; [|exfalso; vm_compute in E1; simplify_eq; vm_compute in E2; discriminate..].
  pose proof (reach_tcp 131072 512 _ _ _ _ [1] _ _ _ R2 E2) as R3.
  assert (sample_sent = (s2, e1 ++ e2)) as ->; [|exact R3].
  unfold sample_sent. rewrite app_nil_r in E1. by rewrite E1, E2.
Qed.
End Samples.

Lemma netstack_never_panics_witness :
  returns (service_tcp (H0 := pipe_sockets) [1; 7] sample_sent.1) /\
  returns (ingest (H := target64) (H0 := pipe_sockets) 131072 [DTcpClose 1; DUdpClose 9] sample_sent.1).
Proof.
  pose proof (netstack_never_panics (H := target64) (H0 := pipe_sockets) 131072 512 (H1 := pipe_sockets_laws)
    _ _ _ _ sample_stack_reach) as (A & _ & B & _).
  split; [apply A|apply B].
Defined.

Lemma uplink_intact_witness :
  exists st, tcp_conns sample_sent.1 !! 1 = Some st /\
  data_of 1 sample_data = sent_of 1 sample_sent.2 ++ pending st ++ data_of 1 [] /\
  zlen (pending st) <= max_tcp_pending (H := target64) 131072.
Proof.
  eexists. split; [vm_compute; reflexivity|].
  apply (uplink_intact (H := target64) (H0 := pipe_sockets) 131072 512 (H1 := pipe_sockets_laws) _ _ _ _ 1 _ sample_stack_reach).
  vm_compute. reflexivity.
Defined.

Definition sample_full : TcpState := mkTcp 1 (mkChan [[1]; [2]] 2 true) false [] true false.
Definition sample_tail : NetStack (H0 := pipe_sockets) :=
  mkStack (H0 := pipe_sockets) (mkIface [] None None) [] [] {[ 1 := Tcp (H0 := pipe_sockets) (SClosed, [3; 4; 5]) ]}
    {[ 1 := sample_full ]} ∅ 2 49153.

Lemma backpressured_tail_lost_witness :
  exists s', service_conn (H0 := pipe_sockets) 1 sample_tail = Ok (s', true, []) /\
    tcp_conns s' !! 1 = None /\ sockets s' !! 1 = None.
Proof.
  apply (backpressured_tail_lost (H0 := pipe_sockets) sample_tail 1 sample_full (SClosed, [3; 4; 5]));
    vm_compute; reflexivity.
Defined.
