(* ===== verification/StackRun.v ===== *)
(** * The task of the network stack

    Models the rest of netstack.rs: [spawn], the loop of [run] over the service
    passes of Netstack.v, the handles it gives to the application (TcpConn,
    TcpSender, UdpConn, UdpSender, StackHandle), and, of lib.rs, the bridge of
    establish_masque that hands the addresses an edge assigns to the stack.

    A step is a turn of the loop, with what smoltcp's [poll] did and the branch
    [select!] took, or a move of the application: a receive, a send that
    completes, the [try_send] of a [Drop].  Times are in microseconds. *)

From Stdlib Require Import ZArith Lia ZifyBool String List.
From stdpp Require Import base list numbers option decidable gmap.
From S2P Require Import Prelude RustStr NetAddr Errors Channels H2Tunnel Netstack.
Open Scope Z_scope.

(** ** Handles *)

Record TcpConn : Type := mkTcpConn { tc_id : Z; tc_split : bool }.
Record TcpSender : Type := mkTcpSender { tx_id : Z }.
Record UdpConn : Type := mkUdpConn { uc_id : Z; uc_split : bool }.
Record UdpSender : Type := mkUdpSender { ux_id : Z }.

(** The halves of a connection: the sender, and the receiver, which stays
    behind in the connection that is dropped at the end of [into_split]. *)
Definition tcp_into_split (c : TcpConn) : TcpSender * TcpConn := (mkTcpSender (tc_id c), mkTcpConn (tc_id c) true).
Definition udp_into_split (c : UdpConn) : UdpSender * UdpConn := (mkUdpSender (uc_id c), mkUdpConn (uc_id c) true).

(** What a [Drop] tries to send. *)
Definition drop_tcp_conn (c : TcpConn) : list DataIn := if tc_split c then [] else [DTcpClose (tc_id c)].
Definition drop_tcp_sender (c : TcpSender) : list DataIn := [DTcpClose (tx_id c)].
Definition drop_udp_conn (c : UdpConn) : list DataIn := if uc_split c then [] else [DUdpClose (uc_id c)].
Definition drop_udp_sender (c : UdpSender) : list DataIn := [DUdpClose (ux_id c)].

(** A request to the task: whether the command was taken and what came back;
    [None] when the task ended without an answer. *)
Definition netstack_closed : SoildTunnelError := Other (str "netstack closed").
Definition ask_stack {A : Type} (taken : bool) (reply : option (A + bytes)) : result A :=
  if negb taken then Err netstack_closed
  else match reply with
       | None => Err (Other (str "netstack dropped"))
       | Some (inl a) => Ok a
       | Some (inr text) => Err (Other text)
       end.
Definition set_addrs (taken : bool) : result unit := if taken then Ok tt else Err netstack_closed.

(** The bridge: one command for each assigned address. *)
Definition bridge_cmd (a : AssignedAddr) : Cmd :=
  match ad_ip a with
  | V4 ip => SetAddrs (Some (ip, ad_prefix a)) None
  | V6 ip => SetAddrs None (Some (ip, ad_prefix a))
  end.

(** ** The loop *)

Definition DROP_REPORT_STEP : Z := 512.
Definition BACKPRESSURE_RETRY : Z := 2000.
Definition MAX_IDLE_TICK : Z := 250000.

Section Loop.
Context `{Target} `{Smoltcp}.
Context (tcp_buf app_queue : Z).

(** The state of the task: the last three fields are what the application has
    sent, what of it the task has taken, and the effects so far. *)
Record Loop : Type := mkLoop {
  lp_stack : NetStack; lp_deferred : list DataIn; lp_out : Chan bytes; lp_dropped : Z; lp_next_report : Z;
  lp_data : Chan DataIn; lp_sent : list DataIn; lp_taken : list DataIn; lp_log : list effect }.

Definition spawn (ipv4 ipv6 : bytes) (out : Chan bytes) : result Loop :=
  let! v4 := parse_v4 ipv4 in
  let! v6 := parse_v6 ipv6 in
  let! s := initial v4 v6 in
  Ok (mkLoop s [] out 0 DROP_REPORT_STEP (mkChan [] (Z.to_nat app_queue) true) [] [] []).

(** [poll] returned, or panicked and was caught: the queues of the device and
    the sockets it left. *)
Inductive poll_outcome : Type :=
| Polled (rx tx : list bytes) (m : gmap Z Socket)
| PollPanicked (m : gmap Z Socket).
Definition after_poll (p : poll_outcome) (s : NetStack) : NetStack :=
  match p with Polled rx tx m => polled s rx tx m | PollPanicked m => polled s [] [] m end.

(** The branch of [select!]; [Packets] is what the tunnel's queue held. *)
Inductive branch : Type :=
| Packets (queued : list bytes)
| PacketsEnd
| Command (cmd : Cmd)
| CommandsEnd
| DataReady
| Slept.

Record Turn : Type := mkTurn {
  tn_poll : poll_outcome; tn_tcp : list Z; tn_udp : list Z; tn_poll_delay : option Z; tn_branch : branch }.

Definition turn_delay (busy : bool) (deferred : list DataIn) (poll_delay : option Z) (s : NetStack) : option Z :=
  if busy || negb (bool_decide (deferred = [])) then Some BACKPRESSURE_RETRY
  else if bool_decide (tcp_conns s = ∅) && bool_decide (udp_conns s = ∅) then poll_delay
  else Some (match poll_delay with None => MAX_IDLE_TICK | Some d => Z.min d MAX_IDLE_TICK end).

(** The head of the loop, up to [select!]: the state and the longest wait. *)
Definition loop_head (t : Turn) (l : Loop) : outcome unit (Loop * option Z) :=
  let s := after_poll (tn_poll t) (lp_stack l) in
  let! '(s, tcp_busy, e1) := service_tcp (tn_tcp t) s in
  let! '(s, udp_busy) := service_udp (tn_udp t) s in
  let '(tx, out, dropped) := flush_tx (dev_tx s) (lp_out l) in
  let s := polled s (dev_rx s) tx (sockets s) in
  let tx_dropped := if 0 <? dropped then Z.min (lp_dropped l + dropped) usize_max else lp_dropped l in
  let next_report :=
    if (0 <? dropped) && (lp_next_report l <=? tx_dropped) then as_usize (tx_dropped + DROP_REPORT_STEP)
    else lp_next_report l in
  let! '(s, e2, deferred) := drain_deferred tcp_buf (lp_deferred l) s in
  Ok (mkLoop s deferred out tx_dropped next_report (lp_data l) (lp_sent l) (lp_taken l) (lp_log l ++ e1 ++ e2),
      turn_delay (tcp_busy || udp_busy) deferred (tn_poll_delay t) s).

Definition with_stack (l : Loop) (s : NetStack) : Loop :=
  mkLoop s (lp_deferred l) (lp_out l) (lp_dropped l) (lp_next_report l) (lp_data l) (lp_sent l) (lp_taken l) (lp_log l).
Definition with_data (l : Loop) (c : Chan DataIn) (sent : list DataIn) : Loop :=
  mkLoop (lp_stack l) (lp_deferred l) (lp_out l) (lp_dropped l) (lp_next_report l) c sent (lp_taken l) (lp_log l).

(** The branch: whether [run] returns; [None] when the branch is not ready. *)
Definition loop_select (b : branch) (l : Loop) : option (outcome unit (Loop * bool)) :=
  match b with
  | Packets [] => None
  | Packets queued => Some (Ok (with_stack l (ingest_packets queued (lp_stack l)).1, false))
  | PacketsEnd | CommandsEnd => Some (Ok (l, true))
  | Command cmd =>
      Some
        (let! '(s, e) := handle_cmd app_queue (lp_stack l) cmd in
         Ok (mkLoop s (lp_deferred l) (lp_out l) (lp_dropped l) (lp_next_report l) (lp_data l) (lp_sent l) (lp_taken l)
               (lp_log l ++ e), false))
  | DataReady =>
      if negb (bool_decide (lp_deferred l = [])) || bool_decide (ch_queue (lp_data l) = []) then None
      else Some
        (let! '(s, e, deferred, unread) := ingest tcp_buf (ch_queue (lp_data l)) (lp_stack l) in
         let taken := take (length (ch_queue (lp_data l)) - length unread) (ch_queue (lp_data l)) in
         Ok (mkLoop s deferred (lp_out l) (lp_dropped l) (lp_next_report l)
               (mkChan unread (ch_cap (lp_data l)) (ch_open (lp_data l))) (lp_sent l) (lp_taken l ++ taken) (lp_log l ++ e), false))
  | Slept => Some (Ok (l, false))
  end.

(** Moves of the task and of the application, which knows only connections
    that were opened. *)
Inductive move : Type :=
| LoopTurn (t : Turn)
| AppTcp (id : Z) (tx : Chan bytes)            (* the receiver of a connection, after what was done with it *)
| AppUdp (id : Z) (tx : Chan (SocketAddr * bytes))
| AppSends (d : DataIn)                        (* [send(..).await] completes *)
| AppDrops (d : DataIn).                       (* [try_send] in a [Drop] *)

Definition known (d : DataIn) (s : NetStack) : bool :=
  match d with DTcp id _ | DTcpClose id | DUdp id _ _ | DUdpClose id => id <? next_id s end.

Definition push_data (d : DataIn) (l : Loop) : send_result * Loop :=
  let '(r, c) := try_send (lp_data l) d in
  (r, with_data l c (lp_sent l ++ match r with Sent => [d] | _ => [] end)).

Definition kinds_kept (p : poll_outcome) (s : NetStack) : Prop :=
  match p with Polled _ _ m | PollPanicked m => same_kinds (sockets s) m end.

Definition step (m : move) (l : Loop) : option (outcome unit (Loop * bool)) :=
  match m with
  | LoopTurn t =>
      match loop_head t l with
      | Ok (l, _) => loop_select (tn_branch t) l
      | Err e => Some (Err e)
      | Panic => Some Panic
      | OutOfFuel => Some OutOfFuel
      end
  | AppTcp id tx =>
      let? st := tcp_conns (lp_stack l) !! id in
      Some (Ok (with_stack l (set_tcp (lp_stack l)
        (<[id := mkTcp (ts_handle st) tx (waiting st) (pending st) (established st) (half_closed st)]> (tcp_conns (lp_stack l)))), false))
  | AppUdp id tx =>
      let? st := udp_conns (lp_stack l) !! id in
      Some (Ok (with_stack l (set_udp (lp_stack l) (<[id := mkUdp (us_handle st) tx]> (udp_conns (lp_stack l)))), false))
  | AppSends d =>
      if known d (lp_stack l) then
        match push_data d l with (Sent, l) => Some (Ok (l, false)) | _ => None end
      else None
  | AppDrops d => if known d (lp_stack l) then Some (Ok ((push_data d l).2, false)) else None
  end.
End Loop.

(** ** The loop keeps the stack well-formed *)

Section Sound.
Context `{Target} `{!Smoltcp} `{!SmoltcpLaws}.
Context (tcp_buf app_queue : Z).
#[local] Notation step := (step tcp_buf app_queue).
#[local] Notation loop_head := (loop_head tcp_buf).

(** [poll] changes sockets, not which ones there are. *)
Definition fair (m : move) (l : Loop) : Prop :=
  match m with LoopTurn t => kinds_kept (tn_poll t) (lp_stack l) | _ => True end.

(** Executions: the state and whether [run] has returned. *)
Inductive runs (ipv4 ipv6 : bytes) : Loop -> bool -> Prop :=
| runs_spawn out l : spawn app_queue ipv4 ipv6 out = Ok l -> runs ipv4 ipv6 l false
| runs_step m l l' ended :
    runs ipv4 ipv6 l false -> fair m l -> step m l = Some (Ok (l', ended)) -> runs ipv4 ipv6 l' ended.

Record lp_inv (l : Loop) : Prop := mkLpInv {
  li_reach : reach tcp_buf app_queue (lp_stack l) (lp_deferred l) (lp_taken l) (lp_log l);
  li_sent : lp_sent l = lp_taken l ++ ch_queue (lp_data l);
  li_known : Forall (addressed (lp_stack l)) (ch_queue (lp_data l)) }.

Lemma spawn_inv ipv4 ipv6 out l : spawn app_queue ipv4 ipv6 out = Ok l -> lp_inv l.
Proof.
  unfold spawn. intros E. apply obind_Ok in E as (v4 & _ & E). apply obind_Ok in E as (v6 & _ & E). apply obind_Ok in E as (s & Es & E).
  simplify_eq. assert (initial (E := unit) v4 v6 = Ok s) as Eu.
  { revert Es. unfold initial, apply_addrs. destruct (forallb _ _); simpl; [|done]. by intros [= <-]. }
  constructor; [by eapply reach_init|done|constructor].
Qed.

Lemma addressed_mono s s' q : next_id s <= next_id s' -> Forall (addressed s) q -> Forall (addressed s') q.
Proof. intros Hn Hq. eapply Forall_impl; [exact Hq|]. intros []; simpl; lia. Qed.

Lemma after_poll_id p s : next_id (after_poll p s) = next_id s.
Proof. by destruct p. Qed.

Lemma head_ok t l : lp_inv l -> kinds_kept (tn_poll t) (lp_stack l) ->
  exists l' d, loop_head t l = Ok (l', d) /\ lp_inv l' /\ lp_data l' = lp_data l /\
    next_id (lp_stack l') = next_id (lp_stack l) /\
    (lp_deferred l' <> [] -> d = Some BACKPRESSURE_RETRY) /\
    (tcp_conns (lp_stack l') <> ∅ \/ udp_conns (lp_stack l') <> ∅ -> exists n, d = Some n /\ n <= MAX_IDLE_TICK).
Proof.
  intros [Hr Hs Hk] Hp. unfold StackRun.loop_head. set (s1 := after_poll (tn_poll t) (lp_stack l)).
  assert (reach tcp_buf app_queue s1 (lp_deferred l) (lp_taken l) (lp_log l)) as R1.
  { unfold s1. destruct (tn_poll t); by apply reach_poll. }
  destruct (service_tcp_ok tcp_buf (tn_tcp t) s1 (iv_wf _ _ _ _ _ (stack_inv _ _ _ _ _ _ R1))) as (s2 & b1 & e1 & E1 & W2 & M2 & _).
  rewrite E1. simpl. pose proof (reach_tcp _ _ _ _ _ _ _ _ _ _ R1 E1) as R2.
  destruct (service_udp_ok tcp_buf (tn_udp t) s2 W2) as (s3 & b2 & E2 & W3 & M3). rewrite E2. simpl.
  pose proof (reach_udp _ _ _ _ _ _ _ _ _ R2 E2) as R3. pose proof (reach_flush _ _ _ _ _ _ (lp_out l) R3) as R4.
  destruct (flush_tx (dev_tx s3) (lp_out l)) as [[tx out] dropped]. simpl in R4.
  set (s4 := polled s3 (dev_rx s3) tx (sockets s3)) in *.
  destruct (drain_deferred_ok tcp_buf (lp_deferred l) s4 (iv_wf _ _ _ _ _ (stack_inv _ _ _ _ _ _ R4)))
    as (s5 & e2 & d & E3 & W5 & M5 & _).
  rewrite E3. simpl. pose proof (reach_deferred _ _ _ _ _ _ _ _ _ R4 E3) as R5. rewrite <- app_assoc in R5.
  assert (next_id s5 = next_id (lp_stack l)) as Hid.
  { rewrite (mv_id _ _ _ M5). simpl. rewrite (mv_id _ _ _ M3), (mv_id _ _ _ M2). apply after_poll_id. }
  eexists _, _. split; [reflexivity|]. simpl. split_and!; [|done|done| |].
  - constructor; simpl; [done|done|]. eapply addressed_mono; [|done]. lia.
  - intros Hd. unfold turn_delay. rewrite (bool_decide_eq_false_2 (d = [])) by done. by rewrite orb_true_r.
  - intros Hc. unfold turn_delay. destruct (_ || _); [by eexists|].
    replace (bool_decide (tcp_conns s5 = ∅) && bool_decide (udp_conns s5 = ∅)) with false
      by (symmetry; rewrite andb_false_iff, !bool_decide_eq_false; tauto).
    destruct (tn_poll_delay t); eexists; (split; [reflexivity|lia]).
Qed.

Lemma push_inv d l : lp_inv l -> known d (lp_stack l) = true -> lp_inv (push_data d l).2.
Proof.
  intros [Hr Hs Hk] Hd. unfold push_data. destruct (try_send (lp_data l) d) as [r c] eqn:E.
  pose proof (try_send_queue (lp_data l) d) as Q. rewrite E in Q. simpl in Q.
  constructor; simpl; [done|by rewrite Q, Hs, <- app_assoc|]. rewrite Q. apply Forall_app. split; [done|].
  destruct r; [|constructor..]. apply Forall_singleton. destruct d; simpl in *; lia.
Qed.

(** The branch asks for an address no interface can have. *)
Definition refuses (b : branch) : Prop := exists cmd, b = Command cmd /\ refused cmd = true.

Lemma select_ok b l r : lp_inv l -> loop_select tcp_buf app_queue b l = Some r ->
  (exists l' ended, r = Ok (l', ended) /\ lp_inv l' /\ ~ refuses b /\ (ended = true -> b = PacketsEnd \/ b = CommandsEnd)) \/
  r = Panic /\ refuses b.
Proof.
  assert (forall c, (forall cmd, c <> Command cmd) -> ~ refuses c) as Hno by (intros c Hc (cmd & -> & _); by eapply Hc).
  intros [Hr Hs Hk]. destruct b as [queued| |cmd| | |]; simpl.
  - destruct queued as [|p q]; [done|]. intros [= <-]. left. eexists _, _. split; [done|]. split; [|split; [by apply Hno|done]].
    constructor; simpl; [by refine (reach_packets _ _ _ _ _ _ (p :: q) _)|done|]. eapply addressed_mono; [|done]. done.
  - intros [= <-]. left. eexists _, _. split; [done|]. split; [done|]. split; [by apply Hno|by left].
  - intros [= <-]. destruct (handle_cmd_cases app_queue (lp_stack l) cmd) as [[(s & e & E) Hc]|[E Hc]]; rewrite E; simpl; [left|right].
    + eexists _, _. split; [done|]. split; [|split; [intros (c & [= <-] & ?); congruence|done]].
      pose proof (reach_cmd _ _ _ _ _ _ _ _ _ Hr E) as R. constructor; simpl; [done|done|].
      eapply addressed_mono; [|done]. by destruct (handle_cmd_moves _ _ _ _ _ E).
    + split; [done|]. by exists cmd.
  - intros [= <-]. left. eexists _, _. split; [done|]. split; [done|]. split; [by apply Hno|by right].
  - destruct (negb (bool_decide (lp_deferred l = []))) eqn:Ed; [done|]. destruct (bool_decide (ch_queue _ = [])); [done|]. simpl.
    apply negb_false_iff, bool_decide_eq_true in Ed. rewrite Ed in Hr. intros [= <-]. left.
    destruct (ingest_ok tcp_buf (ch_queue (lp_data l)) (lp_stack l) (iv_wf _ _ _ _ _ (stack_inv _ _ _ _ _ _ Hr)))
      as (s & e & d & tk & un & E & Eq & W & M & _).
    rewrite E. simpl. eexists _, _. split; [reflexivity|]. split; [|split; [by apply Hno|done]].
    rewrite Eq, length_app, (Nat.add_sub (length tk) (length un)), take_app_length.
    rewrite Eq in Hk, Hs. apply Forall_app in Hk as [Hk1 Hk2]. constructor; simpl.
    + by eapply reach_data; [| |rewrite <- Eq].
    + by rewrite Hs, app_assoc.
    + eapply addressed_mono; [|done]. rewrite (mv_id _ _ _ M). lia.
  - intros [= <-]. left. eexists _, _. split; [done|]. split; [done|]. split; [by apply Hno|done].
Qed.

(** A turn that carries out such a command. *)
Definition misassigned (m : move) : Prop := exists t, m = LoopTurn t /\ refuses (tn_branch t).

Lemma step_ok m l r : lp_inv l -> fair m l -> step m l = Some r ->
  (exists l' ended, r = Ok (l', ended) /\ lp_inv l' /\ ~ misassigned m /\
    (ended = true -> exists t, m = LoopTurn t /\ (tn_branch t = PacketsEnd \/ tn_branch t = CommandsEnd))) \/
  r = Panic /\ misassigned m.
Proof.
  assert (forall c, (forall t, c <> LoopTurn t) -> ~ misassigned c) as Hno by (intros c Hc (t & -> & _); by eapply Hc).
  intros Hi Hf. destruct m as [t|id tx|id tx|d|d]; simpl.
  - destruct (head_ok t l Hi Hf) as (l1 & d & E & Hi1 & _). rewrite E. intros Hr.
    destruct (select_ok _ _ _ Hi1 Hr) as [(l' & b & -> & Hi' & Hn & Hb)|[-> Hn]]; [left|right; split; [done|by exists t]].
    eexists _, _. split; [done|]. split; [done|]. split; [by intros (? & [= <-] & ?)|eauto].
  - destruct (tcp_conns (lp_stack l) !! id) as [st|] eqn:E; [|done]. intros [= <-]. left. eexists _, _. split; [done|].
    split; [|split; [by apply Hno|done]].
    destruct Hi as [Hr Hs Hk]. constructor; simpl; [by apply reach_app|done|]. eapply addressed_mono; [|done]. done.
  - destruct (udp_conns (lp_stack l) !! id) as [st|] eqn:E; [|done]. intros [= <-]. left. eexists _, _. split; [done|].
    split; [|split; [by apply Hno|done]].
    destruct Hi as [Hr Hs Hk]. constructor; simpl; [by apply reach_app_udp|done|]. eapply addressed_mono; [|done]. done.
  - destruct (known d (lp_stack l)) eqn:Ek; [|done]. pose proof (push_inv d l Hi Ek) as Hp.
    destruct (push_data d l) as [[] l1]; intros [= <-]. left. eexists _, _. split; [done|]. split; [done|]. split; [by apply Hno|done].
  - destruct (known d (lp_stack l)) eqn:Ek; [|done]. pose proof (push_inv d l Hi Ek) as Hp. intros [= <-]. left. eexists _, _.
    split; [done|]. split; [done|]. split; [by apply Hno|done].
Qed.

Lemma runs_inv ipv4 ipv6 l b : runs ipv4 ipv6 l b -> lp_inv l.
Proof.
  induction 1 as [out l E|m l l' b _ IH Hf E]; [by eapply spawn_inv|].
  by destruct (step_ok m l _ IH Hf E) as [(? & ? & [= <- <-] & ? & _)|[? _]].
Qed.

(** Every byte an application has sent is somewhere on its way. *)
Lemma loop_uplink l id st : lp_inv l -> tcp_conns (lp_stack l) !! id = Some st ->
  data_of id (lp_sent l) =
    sent_of id (lp_log l) ++ pending st ++ data_of id (lp_deferred l) ++ data_of id (ch_queue (lp_data l)).
Proof.
  intros [Hr Hs _] E. destruct (iv_conn _ _ _ _ _ (stack_inv _ _ _ _ _ _ Hr) id st E) as [C1 C2].
  by rewrite Hs, data_app, C1, C2, <- !app_assoc.
Qed.

(** C3: the task of the network stack runs for as long as it is needed and
    accounts for every byte of an upload.  Whatever poll, the tunnel and the
    applications do, in whatever order, a turn panics exactly when it carries
    out a command to assign an address that smoltcp's interface refuses (one
    that is not unicast), and [run] returns only when the tunnel's queue or
    the last handle is gone; for every open connection the bytes the
    application has sent are, in order, what the socket took, what is pending,
    what is deferred and what waits in the queue; and the head of a turn always
    completes, with a wait of at most 250 ms while there is a connection and of
    2 ms while data is deferred. *)
Theorem stack_loop_sound ipv4 ipv6 l b :
  runs ipv4 ipv6 l b ->
  (forall m r, fair m l -> step m l = Some r ->
     (r = Panic <-> misassigned m) /\
     (r <> Panic -> exists l' ended, r = Ok (l', ended) /\
       (ended = true -> exists t, m = LoopTurn t /\ (tn_branch t = PacketsEnd \/ tn_branch t = CommandsEnd)))) /\
  (forall id st, tcp_conns (lp_stack l) !! id = Some st ->
     data_of id (lp_sent l) =
       sent_of id (lp_log l) ++ pending st ++ data_of id (lp_deferred l) ++ data_of id (ch_queue (lp_data l))) /\
  (forall t, kinds_kept (tn_poll t) (lp_stack l) -> exists l' delay, loop_head t l = Ok (l', delay) /\
     (lp_deferred l' <> [] -> delay = Some BACKPRESSURE_RETRY) /\
     (tcp_conns (lp_stack l') <> ∅ \/ udp_conns (lp_stack l') <> ∅ -> exists n, delay = Some n /\ n <= MAX_IDLE_TICK)).
Proof.
  intros Hi%runs_inv. split_and!.
  - intros m r Hf Hr. destruct (step_ok m l r Hi Hf Hr) as [(l' & e & -> & _ & Hn & ?)|[-> Hn]]; [|by split].
    split; [by split|eauto].
  - intros id st. by apply loop_uplink.
  - intros t Hk. destruct (head_ok t l Hi Hk) as (l' & d & ? & _ & _ & _ & ? & ?). eauto.
Qed.

(** An edge that assigns a multicast address in an ADDRESS_ASSIGN capsule ends
    the stack: the turn that carries out the bridge's command panics. *)
Theorem multicast_assignment_panics ipv4 ipv6 l t a :
  runs ipv4 ipv6 l false -> kinds_kept (tn_poll t) (lp_stack l) ->
  tn_branch t = Command (bridge_cmd a) -> is_multicast (ad_ip a) = true -> step (LoopTurn t) l = Some Panic.
Proof.
  intros Hi%runs_inv Hk Ht Ha. simpl. destruct (head_ok t l Hi Hk) as (l' & d & -> & _). rewrite Ht. simpl.
  destruct (handle_cmd_cases app_queue (lp_stack l') (bridge_cmd a)) as [[_ Hc]|[-> _]]; [|done]. exfalso. revert Hc.
  destruct a as [[ip|ip] p]; simpl in *; by rewrite multicast_refused.
Qed.
End Sound.

(** ** Handles that close *)

(** However a connection is taken apart, dropping its parts tries to close it
    exactly once. *)
Lemma tcp_closed_once c : tc_split c = false ->
  drop_tcp_conn c = [DTcpClose (tc_id c)] /\
  drop_tcp_conn (tcp_into_split c).2 ++ drop_tcp_sender (tcp_into_split c).1 = [DTcpClose (tc_id c)].
Proof. unfold drop_tcp_conn. by intros ->. Qed.
Lemma udp_closed_once c : uc_split c = false ->
  drop_udp_conn c = [DUdpClose (uc_id c)] /\
  drop_udp_conn (udp_into_split c).2 ++ drop_udp_sender (udp_into_split c).1 = [DUdpClose (uc_id c)].
Proof. unfold drop_udp_conn. by intros ->. Qed.

(** ** Addresses from the edge *)

Section Bridge.
Context `{Target} `{Smoltcp}.
Context (app_queue : Z).

Fixpoint bridged (l : list AssignedAddr) (s : NetStack) : outcome unit NetStack :=
  match l with
  | [] => Ok s
  | a :: l => let! '(s, _) := handle_cmd app_queue s (bridge_cmd a) in bridged l s
  end.
Lemma bridged_app l l' : forall s, bridged (l ++ l') s = let! s := bridged l s in bridged l' s.
Proof.
  induction l as [|a l IH]; intros s; [done|]. simpl. destruct (handle_cmd _ _ _) as [[s1 e]| | |]; simpl; [apply IH|done..].
Qed.

Definition routable (a : AssignedAddr) : IpAddr * Z :=
  (ad_ip a, match ad_ip a with V4 _ => routable_prefix_v4 (ad_prefix a) | V6 _ => routable_prefix_v6 (ad_prefix a) end).

(** Each assigned address replaces all others, also those of the other family:
    after an edge has assigned an IPv4 and an IPv6 address, only the one that
    came last is left on the interface. *)
Theorem last_assigned_address_only l a s s' : bridged (l ++ [a]) s = Ok s' -> if_addrs (iface s') = [routable a].
Proof.
  rewrite bridged_app. intros E. apply obind_Ok in E as (s1 & _ & E). simpl in E. apply obind_Ok in E as ([s2 e] & E2 & E).
  simplify_eq. unfold routable. destruct a as [[ip|ip] p]; simpl in *; apply obind_Ok in E2 as (i & Ei & E2); simplify_eq; simpl;
    revert Ei; unfold apply_addrs; (destruct (forallb _ _); [|done]); by intros [= <-].
Qed.
End Bridge.

(** ** A close that is lost *)

Section Leak.
Context `{Target} `{!Smoltcp} `{!SmoltcpLaws}.
Context (tcp_buf app_queue : Z).
#[local] Notation step := (step tcp_buf app_queue).

Lemma remove_socket_udp s h s' : remove_socket s h = Ok s' -> udp_conns s' = udp_conns s.
Proof. unfold remove_socket. intros E. destruct (sockets s !! h); by simplify_eq. Qed.
Lemma service_conn_udp id s s' f e : service_conn id s = Ok (s', f, e) -> udp_conns s' = udp_conns s.
Proof.
  unfold service_conn. destruct (tcp_conns s !! id) as [st|]; [|by intros [= <-]]. intros E.
  apply obind_Ok in E as (sock & _ & E). destruct (negb _ && gone_state _).
  - apply obind_Ok in E as (s1 & E1 & E). simplify_eq. simpl. by eapply remove_socket_udp.
  - apply obind_Ok in E as ([[st1 sock1] sent] & _ & E). destruct (recv_loop _ _ _) as [[[[tx sock2] chunks] full] gone].
    destruct (gone_state _ && _); [|by simplify_eq]. apply obind_Ok in E as (s1 & E1 & E). simplify_eq. simpl.
    by eapply remove_socket_udp.
Qed.
Lemma service_tcp_udp ids : forall s s' f e, service_tcp ids s = Ok (s', f, e) -> udp_conns s' = udp_conns s.
Proof.
  induction ids as [|id ids IH]; intros s s' f e E; cbn [service_tcp] in E; [by simplify_eq|].
  apply obind_Ok in E as ([[s1 f1] e1] & E1 & E). apply obind_Ok in E as ([[s2 f2] e2] & E2 & E). simplify_eq.
  rewrite (IH _ _ _ _ E2). by eapply service_conn_udp.
Qed.
Lemma service_udp_kept ids id : forall s s' f, service_udp ids s = Ok (s', f) ->
  is_Some (udp_conns s !! id) -> is_Some (udp_conns s' !! id).
Proof.
  induction ids as [|i ids IH]; intros s s' f E; cbn [service_udp] in E; [by simplify_eq|].
  destruct (udp_conns s !! i) as [st|]; [|by eapply IH]. apply obind_Ok in E as (sock & _ & E).
  destruct (udp_recv_loop _ _ _) as [[tx k] full]. apply obind_Ok in E as ([s1 f1] & E1 & E). simplify_eq.
  intros Hs. eapply IH; [done|]. simpl. apply lookup_insert_is_Some'. by right.
Qed.

Definition no_close (id : Z) (l : list DataIn) : Prop := DUdpClose id ∉ l.

Lemma try_handle_udp s d s' e back id : try_handle_data tcp_buf s d = Ok (s', e, back) -> d <> DUdpClose id ->
  (is_Some (udp_conns s !! id) -> is_Some (udp_conns s' !! id)) /\ no_close id (back_list back).
Proof.
  unfold try_handle_data, no_close. intros E Hd. destruct d as [i data|i|i dst data|i].
  - destruct (tcp_conns s !! i) as [st|]; [|simplify_eq; set_solver]. destruct (_ <=? zlen (pending st)); [simplify_eq; set_solver|].
    destruct (zlen data <=? _); [simplify_eq; set_solver|].
    apply obind_Ok in E as (? & _ & E). apply obind_Ok in E as (? & _ & E). simplify_eq. set_solver.
  - destruct (tcp_conns s !! i) as [st|]; simplify_eq; set_solver.
  - destruct (udp_conns s !! i) as [st|]; [|simplify_eq; set_solver]. apply obind_Ok in E as (? & _ & E). simplify_eq. set_solver.
  - destruct (udp_conns s !! i) as [st|]; [|simplify_eq; set_solver]. apply obind_Ok in E as (s1 & E1 & E). simplify_eq.
    apply remove_socket_udp in E1. rewrite E1. simpl. rewrite lookup_delete_ne by congruence. split; [done|set_solver].
Qed.

Lemma drain_udp id d : forall s s' e d', drain_deferred tcp_buf d s = Ok (s', e, d') -> no_close id d ->
  (is_Some (udp_conns s !! id) -> is_Some (udp_conns s' !! id)) /\ no_close id d'.
Proof.
  induction d as [|x d IH]; intros s s' e d' E Hn; simpl in E; [by simplify_eq|].
  apply not_elem_of_cons in Hn as [Hx Hn]. apply obind_Ok in E as ([[s1 e1] back] & E1 & E).
  destruct (try_handle_udp _ _ _ _ _ id E1) as [K1 K2]; [done|]. destruct back as [x'|].
  - simplify_eq. split; [done|]. unfold no_close in *. set_solver.
  - apply obind_Ok in E as ([[s2 e2] d2] & E2 & E). simplify_eq. destruct (IH _ _ _ _ E2 Hn). naive_solver.
Qed.
Lemma ingest_udp id q : forall s s' e d' u, ingest tcp_buf q s = Ok (s', e, d', u) -> no_close id q ->
  (is_Some (udp_conns s !! id) -> is_Some (udp_conns s' !! id)) /\ no_close id d' /\ no_close id u.
Proof.
  induction q as [|x q IH]; intros s s' e d' u E Hn; simpl in E; [by simplify_eq|].
  apply not_elem_of_cons in Hn as [Hx Hn]. apply obind_Ok in E as ([[s1 e1] back] & E1 & E).
  destruct (try_handle_udp _ _ _ _ _ id E1) as [K1 K2]; [done|]. destruct back as [x'|].
  - simplify_eq. done.
  - apply obind_Ok in E as ([[[s2 e2] d2] u2] & E2 & E). simplify_eq. destruct (IH _ _ _ _ _ E2 Hn). naive_solver.
Qed.

(** The UDP connection is in the table and nothing on its way closes it. *)
Definition stuck (id : Z) (l : Loop) : Prop :=
  is_Some (udp_conns (lp_stack l) !! id) /\ no_close id (lp_deferred l) /\ no_close id (ch_queue (lp_data l)).
Definition closes (id : Z) (m : move) : Prop := m = AppSends (DUdpClose id) \/ m = AppDrops (DUdpClose id).

Lemma head_stuck id t l l' d : loop_head tcp_buf t l = Ok (l', d) -> stuck id l -> stuck id l'.
Proof.
  unfold loop_head. intros E (K1 & K2 & K3). apply obind_Ok in E as ([[s1 b1] e1] & E1 & E).
  apply obind_Ok in E as ([s2 b2] & E2 & E). destruct (flush_tx _ _) as [[tx out] dropped].
  apply obind_Ok in E as ([[s3 e3] d3] & E3 & E). simplify_eq. destruct (drain_udp id _ _ _ _ _ E3 K2) as [K4 K5].
  split_and!; simpl; [|done|done]. apply K4. simpl. eapply service_udp_kept; [done|].
  rewrite (service_tcp_udp _ _ _ _ _ E1). by destruct (tn_poll t).
Qed.

Lemma push_stuck id d l : d <> DUdpClose id -> stuck id l -> stuck id (push_data d l).2.
Proof.
  intros Hd (K1 & K2 & K3). unfold push_data. pose proof (try_send_queue (lp_data l) d) as Q.
  destruct (try_send (lp_data l) d) as [r c]. simpl in Q. split_and!; [done|done|]. simpl. unfold no_close in *. rewrite Q.
  destruct r; set_solver.
Qed.

Lemma select_stuck id b l l' e : loop_select tcp_buf app_queue b l = Some (Ok (l', e)) -> stuck id l -> stuck id l'.
Proof.
  intros E (K1 & K2 & K3). destruct b as [[|p q]| |cmd| | |]; simpl in E; simplify_eq; try done.
  - destruct (handle_cmd app_queue (lp_stack l) cmd) as [[s x]| | |] eqn:Ec; simpl in E; simplify_eq. split_and!; [|done|done]. simpl.
    destruct (handle_cmd_moves _ _ _ _ _ Ec) as (_ & _ & _ & K). by apply K.
  - destruct (_ || _); [done|]. injection E as E. apply obind_Ok in E as ([[[s x] d] u] & E1 & E). simplify_eq.
    destruct (ingest_udp id _ _ _ _ _ _ E1 K3) as (K4 & K5 & K6). split_and!; simpl; auto.
Qed.

Lemma step_stuck id m l l' e : step m l = Some (Ok (l', e)) -> ~ closes id m -> stuck id l -> stuck id l'.
Proof.
  intros E Hc Hs. destruct m as [t|i tx|i tx|d|d]; simpl in E.
  - destruct (loop_head tcp_buf t l) as [[l1 d]| | |] eqn:E1; try done. eapply select_stuck; [done|]. by eapply head_stuck.
  - destruct (tcp_conns _ !! i); simpl in E; by simplify_eq.
  - destruct (udp_conns (lp_stack l) !! i) as [st|]; simpl in E; simplify_eq. destruct Hs as (K1 & K2 & K3).
    split_and!; [|done|done]. simpl. apply lookup_insert_is_Some'. by right.
  - destruct (known d _); [|done]. assert (d <> DUdpClose id) as Hd by (intros ->; apply Hc; by left).
    pose proof (push_stuck id d l Hd Hs) as Hp. destruct (push_data d l) as [[] l1]; by simplify_eq.
  - destruct (known d _); [|done]. assert (d <> DUdpClose id) as Hd by (intros ->; apply Hc; by right).
    simplify_eq. by apply push_stuck.
Qed.

(** The steps after a state, by the moves made. *)
Inductive steps : list move -> Loop -> Loop -> Prop :=
| steps_nil l : steps [] l l
| steps_cons m ms l l1 l2 e : step m l = Some (Ok (l1, e)) -> steps ms l1 l2 -> steps (m :: ms) l l2.

(** A UDP connection that is dropped while the queue to the task is full is
    never closed: its [try_send] fails, nobody else can close it, and its entry
    and its socket stay for as long as the task runs. *)
Theorem lost_udp_close_leaks id l l1 e ms l2 :
  ch_open (lp_data l) = true -> (ch_cap (lp_data l) <= length (ch_queue (lp_data l)))%nat -> stuck id l ->
  step (AppDrops (DUdpClose id)) l = Some (Ok (l1, e)) -> Forall (fun m => ~ closes id m) ms -> steps ms l1 l2 ->
  is_Some (udp_conns (lp_stack l2) !! id).
Proof.
  intros Ho Hf Hs E Hn Hm. assert (stuck id l1) as K1.
  { simpl in E. destruct (id <? _); [|done]. injection E as E _. revert E. unfold push_data, try_send. rewrite Ho. simpl.
    replace (_ <=? _)%nat with true by (symmetry; apply Nat.leb_le; done). intros <-. done. }
  clear E Hs. induction Hm as [l'|m ms l' la lb e' E Hm IH]; [apply K1|].
  apply Forall_cons in Hn as [Hc Hn]. apply IH; [done|]. by eapply step_stuck.
Qed.
End Leak.

(** ** An example: a connection that is opened and written to *)

Section Demo.
#[local] Existing Instance target64.
#[local] Existing Instance pipe_sockets.
#[local] Existing Instance pipe_sockets_laws.

Definition quiet_turn (b : branch) (l : Loop) : move :=
  LoopTurn (mkTurn (Polled [] [] (sockets (lp_stack l))) [1] [] None b).
Definition demo_moves : list (Loop -> move) := [
  quiet_turn (Command (OpenTcp (sock_new (V4 [192; 0; 2; 1]) 80)));
  (fun _ => AppSends (DTcp 1 [1; 2; 3; 4; 5; 6])); quiet_turn DataReady; quiet_turn Slept].

Fixpoint exec (ms : list (Loop -> move)) (l : Loop) : option Loop :=
  match ms with
  | [] => Some l
  | f :: ms => match step 131072 512 (f l) l with Some (Ok (l, false)) => exec ms l | _ => None end
  end.
Definition demo_loop : option Loop :=
  match spawn 512 (str "172.16.0.2/32") [] (mkChan [] 8 true) with Ok l => exec demo_moves l | _ => None end.

Lemma exec_runs a b ms : Forall (fun f => forall l, fair (f l) l) ms -> forall l l',
  runs 131072 512 a b l false -> exec ms l = Some l' -> runs 131072 512 a b l' false.
Proof.
  induction 1 as [|f ms Hf _ IH]; intros l l' Hr; simpl; [by intros [= <-]|].
  destruct (step 131072 512 (f l) l) as [[[l1 []]| | |]|] eqn:E; try done. apply IH. by eapply runs_step.
Qed.
Lemma demo_runs l : demo_loop = Some l -> runs 131072 512 (str "172.16.0.2/32") [] l false.
Proof.
  unfold demo_loop. destruct (spawn _ _ _ _) as [l0| | |] eqn:E; try done. apply exec_runs.
  - repeat constructor; intros l1; try apply same_kinds_refl; done.
  - by eapply runs_spawn.
Qed.
End Demo.

Lemma stack_loop_sound_witness :
  exists l, demo_loop = Some l /\ sent_of 1 (lp_log l) = [1; 2; 3; 4] /\
    (forall st, tcp_conns (lp_stack l) !! 1 = Some st ->
       data_of 1 (lp_sent l) =
         sent_of 1 (lp_log l) ++ pending st ++ data_of 1 (lp_deferred l) ++ data_of 1 (ch_queue (lp_data l))).
Proof.
  destruct demo_loop as [l|] eqn:E; [|vm_compute in E; discriminate]. exists l. split; [done|]. split.
  - vm_compute in E. simplify_eq. reflexivity.
  - intros st. apply (stack_loop_sound (H := target64) (H0 := pipe_sockets) (H1 := pipe_sockets_laws)
      131072 512 _ _ l false (demo_runs l E)).
Defined.
