(* ===== verification/WireGuard.v ===== *)
(** * The WireGuard tunnel

    Models wireguard.rs: the client id in the reserved bytes of a message, the
    data-plane probe, the four tasks of [WgTunnel::run] as one step function
    over their interleaved events.  The cryptographic session is the boringtun
    crate's [Tunn], a parameter; a packet it asks to be written starts at the
    beginning of the buffer it was given.  The obfuscation of soildnoize.rs
    appears as an action.  The verification of an endpoint is in WgVerify. *)

From Stdlib Require Import ZArith Lia ZifyBool String List.
From stdpp Require Import base list numbers option decidable.
From S2P Require Import Prelude RustStr NetAddr Errors Masque.
Open Scope Z_scope.

Definition WG_MSG_TYPE_MIN : Z := 1.
Definition WG_MSG_TYPE_MAX : Z := 4.
Definition MAX_TRANSIENT_RECV_ERRORS : Z := 64.

Definition is_transient_socket_error (e : io_error) : bool :=
  match io_kind e with
  | ConnectionRefused | ConnectionReset | ConnectionAborted | HostUnreachable | NetworkUnreachable
  | Interrupted | WouldBlock | TimedOut => true
  | _ => false
  end.

(** ** The client id *)

(** [pkt[1..4].copy_from_slice(id)] on a message. *)
Definition put_reserved (pkt id : bytes) : bytes := ztake 1 pkt ++ id ++ zdrop 4 pkt.

Definition is_message (pkt : bytes) : bool :=
  negb (zlen pkt <? 4) &&
  match pkt with t :: _ => negb ((t <? WG_MSG_TYPE_MIN) || (WG_MSG_TYPE_MAX <? t)) | [] => false end.

Definition inject_client_id (pkt client_id : bytes) : bytes := if is_message pkt then put_reserved pkt client_id else pkt.
Definition strip_client_id (pkt : bytes) : bytes := if is_message pkt then put_reserved pkt [0; 0; 0] else pkt.

(** ** Probes *)

Definition wg_stale_timeout (env : Env) : Z := env_positive env (str "SOILDTUNNEL_WG_STALE_SECS") 10.

(** The query, the checksum and the packet are written out again in
    wireguard.rs, word for word as in masque.rs. *)
Definition build_dns_query (id : Z) : bytes := probe_dns_query id.
Definition ipv4_checksum (header : bytes) : option Z := ipv4_header_checksum header.
Definition build_dataplane_probe (src : bytes) (id sport dns_id : Z) : option bytes :=
  let dns := build_dns_query dns_id in
  let udp_len := 8 + zlen dns in
  let total_len := 20 + udp_len in
  let? csum := ipv4_checksum (probe_ip_header src (as_u16 total_len) id 0) in
  Some (probe_ip_header src (as_u16 total_len) id csum
        ++ to_be 2 sport ++ to_be 2 53 ++ to_be 2 (as_u16 udp_len) ++ [0; 0] ++ dns).

(** ** The tunnel *)

Inductive TunnResult : Type :=
| Done
| TunnErr (e : bytes)
| WriteToNetwork (pkt : bytes)
| WriteToTunnel (pkt : bytes).   (* V4 and V6 *)

Class Tunn : Type := {
  Session : Type;
  encapsulate : Session -> bytes -> TunnResult * Session;
  decapsulate : Session -> bytes -> TunnResult * Session;
  update_timers : Session -> TunnResult * Session }.

(** What the tasks use of the configuration: the client id, the probe, whether
    obfuscation is on and wants junk after the handshake, and the stale time. *)
Record WgConfig : Type := mkWgConfig {
  wg_client_id : bytes; wg_probe : bytes; wg_obfuscation : bool; wg_jc_after_hs : Z; wg_stale : Z }.

Section Run.
Context `{Tunn}.

Record Wg : Type := mkWg {
  wg_tunn : Session; last_valid_rx : Z; transient_errors : Z; obf_sent : bool; post_hs_junk_sent : bool }.

(** An event of one of the four tasks; times are instants. *)
Inductive wg_event : Type :=
| Received (now : Z) (datagram : bytes)
| ReceiveFailed (e : io_error)
| FromStack (ip_packet : bytes)
| StackClosed
| TimerTick
| HealthTick (now : Z).

Inductive wg_action : Type :=
| ToWire (pkt : bytes)
| ToStack (pkt : bytes)
| Obfuscation
| KeepaliveJunk
| PostHandshakeJunk.

Inductive wg_step : Type :=
| Running (w : Wg) (actions : list wg_action)
| Ended (r : result unit).

Definition stale : SoildTunnelError := Other (str "wireguard tunnel stale: no valid data from peer").

(** A message of the session for the wire, with the client id. *)
Definition outgoing (cfg : WgConfig) (r : TunnResult) : option bytes :=
  match r with
  | WriteToNetwork pkt =>
      let pkt := inject_client_id pkt (wg_client_id cfg) in if 0 <? zlen pkt then Some pkt else None
  | _ => None
  end.

(** [recv_task] on a datagram. *)
Definition on_receive (cfg : WgConfig) (now : Z) (datagram : bytes) (w : Wg) : wg_step :=
  let '(r, tunn) := decapsulate (wg_tunn w) (strip_client_id datagram) in
  let last := match r with TunnErr _ => last_valid_rx w | _ => now end in
  let w := mkWg tunn last 0 (obf_sent w) (post_hs_junk_sent w) in
  Running w (match outgoing cfg r with Some pkt => [ToWire pkt] | None => [] end
             ++ match r with WriteToTunnel pkt => [ToStack pkt] | _ => [] end).

(** [recv_task] on an error. *)
Definition on_receive_error (e : io_error) (w : Wg) : wg_step :=
  if is_transient_socket_error e then
    if MAX_TRANSIENT_RECV_ERRORS <? transient_errors w + 1 then Ended (Ok tt)
    else Running (mkWg (wg_tunn w) (last_valid_rx w) (transient_errors w + 1) (obf_sent w) (post_hs_junk_sent w)) []
  else Ended (Ok tt).

(** [send_task]. *)
Definition on_send (cfg : WgConfig) (ip_packet : bytes) (w : Wg) : wg_step :=
  let '(r, tunn) := encapsulate (wg_tunn w) ip_packet in
  match outgoing cfg r with
  | None => Running (mkWg tunn (last_valid_rx w) (transient_errors w) (obf_sent w) (post_hs_junk_sent w)) []
  | Some pkt =>
      let obfuscate := negb (obf_sent w) && wg_obfuscation cfg in
      let junk := (0 <? wg_jc_after_hs cfg) && negb (post_hs_junk_sent w) in
      Running (mkWg tunn (last_valid_rx w) (transient_errors w) (obf_sent w || obfuscate) (post_hs_junk_sent w || junk))
        ((if obfuscate then [Obfuscation] else []) ++ [ToWire pkt] ++ (if junk then [PostHandshakeJunk] else []))
  end.

(** [timer_task]. *)
Definition on_timer (cfg : WgConfig) (w : Wg) : wg_step :=
  let '(r, tunn) := update_timers (wg_tunn w) in
  let w := mkWg tunn (last_valid_rx w) (transient_errors w) (obf_sent w) (post_hs_junk_sent w) in
  match outgoing cfg r with
  | None => Running w []
  | Some pkt => Running w ((if wg_obfuscation cfg then [KeepaliveJunk] else []) ++ [ToWire pkt])
  end.

(** [health_task]. *)
Definition on_health (cfg : WgConfig) (now : Z) (w : Wg) : wg_step :=
  if wg_stale cfg <=? now - last_valid_rx w then Ended (Err stale)
  else
    let '(r, tunn) := encapsulate (wg_tunn w) (wg_probe cfg) in
    Running (mkWg tunn (last_valid_rx w) (transient_errors w) (obf_sent w) (post_hs_junk_sent w))
      (match outgoing cfg r with Some pkt => [ToWire pkt] | None => [] end).

(** [run]: the first task to end ends the tunnel. *)
Definition wg_turn (cfg : WgConfig) (ev : wg_event) (w : Wg) : wg_step :=
  match ev with
  | Received now datagram => on_receive cfg now datagram w
  | ReceiveFailed e => on_receive_error e w
  | FromStack ip_packet => on_send cfg ip_packet w
  | StackClosed => Ended (Ok tt)
  | TimerTick => on_timer cfg w
  | HealthTick now => on_health cfg now w
  end.

(** The actions of a whole run, and how it stands. *)
Fixpoint wg_run (cfg : WgConfig) (evs : list wg_event) (w : Wg) : list wg_action * (Wg + result unit) :=
  match evs with
  | [] => ([], inl w)
  | ev :: evs =>
      match wg_turn cfg ev w with
      | Running w actions => let '(more, r) := wg_run cfg evs w in (actions ++ more, r)
      | Ended r => ([], inr r)
      end
  end.

(** ** The run *)

(** A message on the wire carries the client id. *)
Definition stamped (id pkt : bytes) : Prop := is_message pkt = true -> zdrop 1 (ztake 4 pkt) = id.

Lemma message_parts pkt : is_message pkt = true -> exists t a b c r, pkt = t :: a :: b :: c :: r.
Proof.
  unfold is_message. intros [Hl _]%andb_prop. destruct pkt as [|t [|a [|b [|c r]]]]; try done. by exists t, a, b, c, r.
Qed.

Lemma put_reserved_parts t a b c r x y z : put_reserved (t :: a :: b :: c :: r) [x; y; z] = t :: x :: y :: z :: r.
Proof. done. Qed.

Lemma is_message_head t a b c r x y z s : is_message (t :: a :: b :: c :: r) = true -> is_message (t :: x :: y :: z :: s) = true.
Proof.
  unfold is_message. intros [_ Ht]%andb_prop. apply andb_true_intro. split; [|done].
  unfold zlen. cbn [length]. lia.
Qed.

Lemma three_bytes (id : bytes) : zlen id = 3 -> exists x y z, id = [x; y; z].
Proof. destruct id as [|x [|y [|z [|? ?]]]]; unfold zlen; simpl; try lia. intros _. by exists x, y, z. Qed.

Lemma inject_stamped (pkt id : bytes) : zlen id = 3 -> stamped id (inject_client_id pkt id).
Proof.
  intros (x & y & z & ->)%three_bytes. unfold stamped, inject_client_id. destruct (is_message pkt) eqn:E; [|congruence].
  intros _. destruct (message_parts pkt E) as (t & a & b & c & r & ->). by rewrite put_reserved_parts.
Qed.

(** What one end stamps the other removes: a message of the session, whose
    reserved bytes are zero, is what it was. *)
Lemma strip_inject (t : Z) (r id : bytes) : zlen id = 3 -> strip_client_id (inject_client_id (t :: 0 :: 0 :: 0 :: r) id) = t :: 0 :: 0 :: 0 :: r.
Proof.
  intros (x & y & z & ->)%three_bytes. unfold inject_client_id. destruct (is_message (t :: 0 :: 0 :: 0 :: r)) eqn:E.
  - rewrite put_reserved_parts. unfold strip_client_id.
    by rewrite (is_message_head _ _ _ _ _ x y z r E), put_reserved_parts.
  - unfold strip_client_id. by rewrite E.
Qed.

Lemma outgoing_stamped cfg r pkt : zlen (wg_client_id cfg) = 3 -> outgoing cfg r = Some pkt -> stamped (wg_client_id cfg) pkt.
Proof.
  intros Hid. unfold outgoing. destruct r; try done. case_match; [|done]. intros [= <-]. by apply inject_stamped.
Qed.

Definition is_obfuscation (a : wg_action) : bool := match a with Obfuscation => true | _ => false end.
Definition is_junk (a : wg_action) : bool := match a with PostHandshakeJunk => true | _ => false end.
Definition count (p : wg_action -> bool) (l : list wg_action) : Z := zlen (List.filter p l).
Definition spent (sent : bool) : Z := if sent then 1 else 0.

Lemma count_app p l l' : count p (l ++ l') = count p l + count p l'.
Proof. unfold count. by rewrite List.filter_app, zlen_app. Qed.

(** What a turn that goes on does. *)
Lemma turn_running cfg ev w w' acts :
  zlen (wg_client_id cfg) = 3 -> wg_turn cfg ev w = Running w' acts ->
  (forall pkt, In (ToWire pkt) acts -> stamped (wg_client_id cfg) pkt) /\
  spent (obf_sent w) + count is_obfuscation acts = spent (obf_sent w') /\
  spent (post_hs_junk_sent w) + count is_junk acts = spent (post_hs_junk_sent w').
Proof.
  intros Hid. pose proof (fun r pkt => outgoing_stamped cfg r pkt Hid) as Hout.
  destruct ev as [now b|e|b| | |now]; cbn [wg_turn].
  - unfold on_receive. destruct (decapsulate _ _) as [r tunn]. intros [= <- <-].
    destruct (outgoing cfg r) as [q|] eqn:Eo; destruct r as [| |p|p]; cbn; (split; [|by destruct (obf_sent w), (post_hs_junk_sent w)]);
      intros pkt; cbn; intros; intuition (simplify_eq; eauto).
  - unfold on_receive_error. destruct (is_transient_socket_error e); [|done]. case_match; [done|]. intros [= <- <-].
    cbn. split; [done|]. by destruct (obf_sent w), (post_hs_junk_sent w).
  - unfold on_send. destruct (encapsulate _ _) as [r tunn]. destruct (outgoing cfg r) as [q|] eqn:Eo; intros [= <- <-].
    + split.
      * intros pkt. rewrite !in_app_iff. destruct (negb _ && _), (_ && negb _); cbn; intros; intuition (simplify_eq; eauto).
      * destruct (obf_sent w), (post_hs_junk_sent w), (wg_obfuscation cfg), (0 <? wg_jc_after_hs cfg); done.
    + cbn. split; [done|]. by destruct (obf_sent w), (post_hs_junk_sent w).
  - done.
  - unfold on_timer. destruct (update_timers _) as [r tunn]. destruct (outgoing cfg r) as [q|] eqn:Eo; intros [= <- <-].
    + split; [|by destruct (wg_obfuscation cfg), (obf_sent w), (post_hs_junk_sent w)].
      intros pkt. destruct (wg_obfuscation cfg); cbn; intros; intuition (simplify_eq; eauto).
    + cbn. split; [done|]. by destruct (obf_sent w), (post_hs_junk_sent w).
  - unfold on_health. case_match; [done|]. destruct (encapsulate _ _) as [r tunn]. intros [= <- <-].
    destruct (outgoing cfg r) as [q|] eqn:Eo; cbn; (split; [|by destruct (obf_sent w), (post_hs_junk_sent w)]);
      intros pkt; cbn; intros; intuition (simplify_eq; eauto).
Qed.

(** The only error a turn ends with. *)
Lemma turn_error cfg ev w e : wg_turn cfg ev w = Ended (Err e) ->
  e = stale /\ exists now, ev = HealthTick now /\ wg_stale cfg <= now - last_valid_rx w.
Proof.
  destruct ev as [now b|e'|b| | |now]; cbn [wg_turn]; unfold on_receive, on_receive_error, on_send, on_timer, on_health;
    repeat case_match; intros; simplify_eq; try done.
  split; [done|]. exists now. split; [done|]. lia.
Qed.


End Run.

(** A session that wraps packets in type-4 messages. *)
Definition plain_tunn : Tunn := {|
  Session := unit;
  encapsulate := fun _ b => (WriteToNetwork (4 :: 0 :: 0 :: 0 :: b), tt);
  decapsulate := fun _ b => (match b with 4 :: 0 :: 0 :: 0 :: b => WriteToTunnel b | _ => TunnErr [] end, tt);
  update_timers := fun _ => (Done, tt) |}.

Definition sample_wg : WgConfig := mkWgConfig [7; 8; 9] [69; 0] true 2 10.
Definition sample_wg_events : list wg_event :=
  [FromStack [69; 1]; FromStack [69; 2]; Received 5 [4; 7; 8; 9; 69]; HealthTick 9; HealthTick 16].

