(* ===== verification/Prober.v ===== *)
(** * Scanning for endpoints

    Models prober.rs (MASQUE gateways) and wg_prober.rs (WireGuard endpoints):
    scan modes and strategies, address ranges and their sampling, the order of
    the candidates, and the scans themselves.  A scan polls a stream of
    verifications with [buffer_unordered]; which verification finishes next
    and what the clock shows are events, so that every schedule is a list of
    turns.  Verification of one endpoint (a tunnel, in the end) is an argument.

    Random draws are a list of numbers, the ones the generator will give;
    [None] as a result means that the list was too short.  Arithmetic wraps
    around, as in the release build the application ships. *)

From Stdlib Require Import ZArith Lia ZifyBool String List Sorted.
From stdpp Require Import base list numbers option decidable countable gmap.
From S2P Require Import Prelude RustStr NetAddr Errors.
Open Scope Z_scope.

(** ** Durations, instants and hash sets of addresses *)

(** A [Duration] or an [Instant] is a number of nanoseconds. *)
Definition from_millis (n : Z) : Z := n * 1000000.
Definition from_secs (n : Z) : Z := n * 1000000000.
Definition saturating_duration_since (later earlier : Z) : Z := Z.max 0 (later - earlier).

#[export] Instance IpAddr_countable : Countable IpAddr.
Proof.
  refine (inj_countable'
            (fun ip => match ip with V4 o => inl o | V6 o => inr o end)
            (fun s : bytes + bytes => match s with inl o => V4 o | inr o => V6 o end) _).
  by intros [].
Defined.
#[export] Instance SocketAddr_countable : Countable SocketAddr.
Proof.
  refine (inj_countable' (fun a => (sa_ip a, sa_port a, sa_scope a))
            (fun t => mkSock t.1.1 t.1.2 t.2) _).
  by intros [].
Defined.

(** ** Constants *)

Definition MASQUE_CIDRS_V4 : list bytes := map str [
  "162.159.196.0/24"; "162.159.195.0/24"; "162.159.192.0/24"; "162.159.193.0/24";
  "162.159.204.0/24"; "162.159.197.0/24"; "162.159.198.0/24"; "172.65.251.0/24";
  "188.114.96.0/24"; "188.114.97.0/24"; "188.114.98.0/24"; "188.114.99.0/24";
  "162.159.36.0/24"; "162.159.46.0/24"]%string.
Definition MASQUE_SEEDS : list bytes := map str [
  "162.159.196.1"; "162.159.195.1"; "162.159.192.1"; "162.159.197.3"; "162.159.197.1";
  "162.159.198.2"; "162.159.198.1"; "162.159.193.1"]%string.
Definition MASQUE_PORTS : list Z := [443; 500; 1701; 4500; 4443; 8443; 8095].
Definition MASQUE_CIDRS_V6 : list bytes := map str [
  "2606:4700:d0::/48"; "2606:4700:102::/48"; "2606:4700:d1::/48"]%string.
Definition MASQUE_ZT_CIDRS_V4 : list bytes := map str ["162.159.197.0/24"]%string.
Definition MASQUE_ZT_CIDRS_V6 : list bytes := map str ["2606:4700:102::/48"]%string.
Definition MASQUE_SEEDS_V6 : list bytes := map str [
  "2606:4700:d0::a29f:c602"; "2606:4700:d1::a29f:c602"; "2606:4700:d0::a29f:c601";
  "2606:4700:d0::a29f:c001"]%string.

Definition WG_PREFIXES_V4 : list bytes := map str [
  "162.159.192.0/24"; "162.159.195.0/24"; "188.114.96.0/24"; "188.114.97.0/24";
  "188.114.98.0/24"; "188.114.99.0/24"; "162.159.193.0/24"]%string.
Definition WG_PREFIXES_V6 : list bytes := map str [
  "2606:4700:d0::/64"; "2606:4700:d1::/64"; "2606:4700:100::/48"]%string.
Definition WG_ZT_PREFIXES_V4 : list bytes := map str ["162.159.193.0/24"]%string.
Definition WG_ZT_PREFIXES_V6 : list bytes := map str ["2606:4700:100::/48"]%string.
Definition WG_PORTS : list Z := [
  2408; 500; 1701; 4500; 854; 859; 864; 878; 880; 890; 891; 894; 903; 908; 928; 934; 939;
  942; 943; 945; 946; 955; 968; 987; 988; 1002; 1010; 1014; 1018; 1070; 1074; 1180; 1387;
  1843; 2371; 2506; 3138; 3476; 3581; 3854; 4177; 4198; 4233; 5279; 5956; 7103; 7152; 7156;
  7281; 7559; 8319; 8742; 8854; 8886].
Definition WG_SEEDS_V4 : list bytes := map str [
  "162.159.192.1"; "162.159.195.1"; "188.114.96.1"; "188.114.97.1"; "162.159.193.1"]%string.
Definition WG_SEEDS_V6 : list bytes := map str [
  "2606:4700:d0::a29f:c001"; "2606:4700:d1::a29f:c001"; "2606:4700:d0::a29f:c301";
  "2606:4700:d0::bc72:6001"]%string.

(** ** Ranges first for an organization *)

Definition zero_trust_mode (env : Env) : bool :=
  match env (str "SOILDTUNNEL_TEAM") with
  | Some value => negb (bool_decide (trim value = []))
  | None => false
  end.

(** Appends the entries that are not there yet. *)
Definition push_missing (out : list bytes) (entry : bytes) : list bytes :=
  if decide (entry ∈ out) then out else out ++ [entry].
Definition prioritize (env : Env) (all first : list bytes) : list bytes :=
  if negb (zero_trust_mode env) then all
  else
    let out := fold_left (fun out entry => if decide (entry ∈ all) then out ++ [entry] else out) first [] in
    fold_left push_missing all out.

Definition masque_cidrs_v4 (env : Env) : list bytes := prioritize env MASQUE_CIDRS_V4 MASQUE_ZT_CIDRS_V4.
Definition masque_cidrs_v6 (env : Env) : list bytes := prioritize env MASQUE_CIDRS_V6 MASQUE_ZT_CIDRS_V6.
Definition wg_prefixes_v4 (env : Env) : list bytes := prioritize env WG_PREFIXES_V4 WG_ZT_PREFIXES_V4.
Definition wg_prefixes_v6 (env : Env) : list bytes := prioritize env WG_PREFIXES_V6 WG_ZT_PREFIXES_V6.
Definition wg_seeds_v4 (env : Env) : list bytes := prioritize env WG_SEEDS_V4 [str "162.159.193.1"].

(** ** Scan modes *)

Inductive IpScan : Type := ScanV4 | ScanV6 | ScanBoth.
Inductive ScanMode : Type := Turbo | Balanced | Thorough | Stealth | Ironclad.
#[export] Instance ScanMode_eq_dec : EqDecision ScanMode.
Proof. solve_decision. Defined.

Definition one_of (s : bytes) (names : list string) : bool :=
  existsb (fun n => bool_decide (s = str n)) names.

Section Parsing.
Context `{UnicodeTables}.

Definition IpScan_parse (s : bytes) : IpScan :=
  let s := to_lowercase (trim s) in
  if one_of s ["6"; "v6"; "ipv6"]%string then ScanV6
  else if one_of s ["both"; "all"; "dual"]%string then ScanBoth
  else ScanV4.

Definition ScanMode_parse (s : bytes) : ScanMode :=
  let s := to_lowercase (trim s) in
  if one_of s ["turbo"; "fast"]%string then Turbo
  else if one_of s ["thorough"; "deep"; "pro"]%string then Thorough
  else if one_of s ["stealth"; "quiet"]%string then Stealth
  else if one_of s ["ironclad"; "real"; "verify"; "guaranteed"]%string then Ironclad
  else Balanced.

(** [WgScanMode] has the same five modes and the same names. *)
Definition WgScanMode_parse (s : bytes) : ScanMode := ScanMode_parse s.
End Parsing.

Definition want_v4 (ip : IpScan) : bool := match ip with ScanV4 | ScanBoth => true | ScanV6 => false end.
Definition want_v6 (ip : IpScan) : bool := match ip with ScanV6 | ScanBoth => true | ScanV4 => false end.

Record Strategy : Type := mkStrategy {
  concurrency : Z; per_probe_timeout : Z; overall_deadline : Z; quiet_after_first : Z;
  target_successes : Z; early_exit_first : bool; full_subnet : bool; sample_per_cidr : Z }.
Definition strategy (mode : ScanMode) : Strategy :=
  match mode with
  | Turbo => mkStrategy 20 (from_millis 6000) (from_secs 45) (from_secs 0) 1 true false 64
  | Balanced => mkStrategy 16 (from_millis 6000) (from_secs 120) (from_secs 20) 6 false false 140
  | Thorough => mkStrategy 20 (from_millis 10000) (from_secs 300) (from_secs 30) 0 false true 0
  | Stealth => mkStrategy 3 (from_millis 12000) (from_secs 180) (from_secs 25) 4 false false 64
  | Ironclad => mkStrategy 4 (from_millis 15000) (from_secs 180) (from_secs 15) 3 false false 140
  end.

Record WgStrategy : Type := mkWgStrategy { wg_base : Strategy; pool_port_waves : Z }.
Definition wg_strategy (mode : ScanMode) : WgStrategy :=
  match mode with
  | Turbo => mkWgStrategy (mkStrategy 12 (from_millis 5000) (from_secs 30) (from_secs 0) 1 true false 40) 1
  | Balanced => mkWgStrategy (mkStrategy 8 (from_millis 7000) (from_secs 80) (from_secs 12) 5 false false 120) 3
  | Thorough => mkWgStrategy (mkStrategy 10 (from_millis 9000) (from_secs 250) (from_secs 25) 0 false true 0) 4
  | Stealth => mkWgStrategy (mkStrategy 3 (from_millis 10000) (from_secs 150) (from_secs 20) 3 false false 50) 2
  | Ironclad => mkWgStrategy (mkStrategy 4 (from_millis 15000) (from_secs 180) (from_secs 15) 3 false false 120) 3
  end.

(** [sysprofile::cap_concurrency] under the cap of the device. *)
Definition with_concurrency (st : Strategy) (n : Z) : Strategy :=
  mkStrategy n (per_probe_timeout st) (overall_deadline st) (quiet_after_first st)
    (target_successes st) (early_exit_first st) (full_subnet st) (sample_per_cidr st).
Definition cap_concurrency (cap requested : Z) : Z := Z.min requested cap.

(** ** Ranges *)

Definition parse_cidr_v4 (cidr : bytes) : option (Z * Z) :=
  let? '(ip, prefix) := split_once 47 cidr in
  let? o := parse_ipv4 ip in
  let? p := parse_u8 prefix in
  Some (of_be o, p).

Definition enumerate_cidr_v4 (cidr : bytes) : list bytes :=
  match parse_cidr_v4 cidr with
  | None => []
  | Some (base, prefix) =>
      let host_bits := Z.max 0 (32 - prefix) in
      if host_bits =? 0 then [to_be 4 base]
      else if 12 <? host_bits then []
      else
        let size := Z.shiftl 1 host_bits in
        map (fun off => to_be 4 (as_u32 (base + off))) (seqZ 1 (Z.max 0 (size - 1) - 1))
  end.

Abbreviation Rng := (list Z).

(** The [while] of [sample_cidr_v4]: draws offsets until there are [want]
    different ones. *)
Fixpoint sample_loop (rng : Rng) (base usable want : Z) (chosen : gset Z) (out : list bytes)
  : option (list bytes * Rng) :=
  if want <=? as_u32 (zlen out) then Some (out, rng)
  else
    match rng with
    | [] => None
    | v :: rng =>
        let off := 1 + v mod usable in
        if decide (off ∈ chosen) then sample_loop rng base usable want chosen out
        else sample_loop rng base usable want ({[off]} ∪ chosen) (out ++ [to_be 4 (as_u32 (base + off))])
    end.
Definition sample_cidr_v4 (cidr : bytes) (n : Z) (rng : Rng) : option (list bytes * Rng) :=
  match parse_cidr_v4 cidr with
  | None => Some ([], rng)
  | Some (base, prefix) =>
      let host_bits := Z.max 0 (32 - prefix) in
      let size := if 32 <=? host_bits then 2 ^ 32 - 1 else Z.shiftl 1 host_bits in
      if size <=? 2 then Some ([to_be 4 base], rng)
      else
        let usable := size - 2 in
        let want := Z.min (as_u32 n) usable in
        sample_loop rng base usable want ∅ []
  end.

Definition parse_cidr_v6 (cidr : bytes) : option (Z * Z) :=
  let? '(ip, prefix) := split_once 47 cidr in
  let? o := parse_ipv6 ip in
  let? p := parse_u8 prefix in
  Some (of_be o, p).

(** One address of [sample_cidr_v6]: an IPv4 address of one of the ranges in
    the low bits.  The shift count of a [u32] is taken modulo 32. *)
Definition embedded_v4 (v4 : list (Z * Z)) (rng : Rng) : option (Z * Rng) :=
  match v4, rng with
  | [], v :: rng => Some (as_u32 v, rng)
  | _ :: _, i :: rng =>
      let? '(b, p) := zget v4 (i mod zlen v4) in
      let host_bits := Z.max 0 (32 - p) in
      if host_bits =? 0 then Some (Z.lor b 0, rng)
      else
        match rng with
        | v :: rng => Some (Z.lor b (Z.land (as_u32 v) (as_u32 (Z.shiftl 1 (host_bits mod 32) - 1))), rng)
        | [] => None
        end
  | _, [] => None
  end.
Fixpoint sample_v6_loop (n : nat) (base : Z) (v4 : list (Z * Z)) (out : list bytes) (rng : Rng)
  : option (list bytes * Rng) :=
  match n with
  | O => Some (out, rng)
  | S n =>
      let? '(embedded, rng) := embedded_v4 v4 rng in
      sample_v6_loop n base v4 (out ++ [to_be 16 (Z.lor base embedded)]) rng
  end.
Definition sample_cidr_v6 (cidr : bytes) (n : Z) (v4_cidrs : list bytes) (rng : Rng)
  : option (list bytes * Rng) :=
  match parse_cidr_v6 cidr with
  | None => Some ([], rng)
  | Some (base, prefix) =>
      if Z.max 0 (128 - prefix) =? 0 then Some ([to_be 16 base], rng)
      else sample_v6_loop (Z.to_nat n) base (omap parse_cidr_v4 v4_cidrs) [] rng
  end.

(** [.iter().map(f).collect()] where [f] draws random numbers. *)
Fixpoint map_rng {A B : Type} (f : A -> Rng -> option (B * Rng)) (l : list A) (rng : Rng)
  : option (list B * Rng) :=
  match l with
  | [] => Some ([], rng)
  | x :: l =>
      let? '(y, rng) := f x rng in
      let? '(ys, rng) := map_rng f l rng in
      Some (y :: ys, rng)
  end.

(** The nested loops that take the first address of every range, then the
    second of every range, and so on. *)
Definition interleave {A : Type} (lists : list (list A)) : list A :=
  let max_len := foldr Nat.max 0%nat (map length lists) in
  concat (map (fun i => omap (fun l => l !! i) lists) (seq 0 max_len)).

(** The hosts of every IPv4 range of the scan, range by range. *)
Definition cidr_hosts (st : Strategy) (cidrs : list bytes) (rng : Rng) : option (list (list bytes) * Rng) :=
  map_rng (fun c rng =>
    if full_subnet st then Some (enumerate_cidr_v4 c, rng) else sample_cidr_v4 c (sample_per_cidr st) rng)
    cidrs rng.

(** ** Manual ranges *)

Definition app_normalize_cidr_v4 (raw : bytes) : option bytes :=
  let v := trim raw in
  if bool_decide (v = []) then None
  else
    match split_once 47 v with
    | Some (ip, prefix) =>
        let? addr := parse_ipv4 (trim ip) in
        let? bits := parse_u8 (trim prefix) in
        if 32 <? bits then None else Some (v4_str addr ++ str "/" ++ dec_str bits)
    | None =>
        if ends_with v (str ".x") || ends_with v (str ".X") || ends_with v (str ".*") then
          let? addr := parse_ipv4 (ztake (zlen v - 1) v ++ str "0") in
          Some (v4_str addr ++ str "/24")
        else
          let? addr := parse_ipv4 v in
          Some (v4_str addr ++ str "/32")
    end.

(** A variable that is set to more than white space. *)
Definition env_nonblank (env : Env) (key : bytes) : option bytes :=
  match env key with
  | Some s => if bool_decide (trim s = []) then None else Some s
  | None => None
  end.
Definition custom_cidrs_v4 (env : Env) (key : bytes) : option (list bytes) :=
  let? raw := match env_nonblank env key with
              | Some s => Some s
              | None => env_nonblank env (str "SOILDTUNNEL_SCAN_CIDRS")
              end in
  let list := omap app_normalize_cidr_v4 (split (fun c => (c =? 44) || (c =? 59) || (c =? 32) || (c =? 10)) raw) in
  match list with [] => None | _ => Some list end.
Definition custom_masque_cidrs_v4 (env : Env) : option (list bytes) :=
  custom_cidrs_v4 env (str "SOILDTUNNEL_MASQUE_CIDRS").
Definition custom_wg_cidrs_v4 (env : Env) : option (list bytes) :=
  custom_cidrs_v4 env (str "SOILDTUNNEL_WG_CIDRS").

(** ** Candidates *)

Abbreviation Candidate := (IpAddr * Z)%type.

(** [seen] and [out] of the builders. *)
Record Cands : Type := mkCands { seen : gset Candidate; out : list Candidate }.
Definition no_cands : Cands := mkCands ∅ [].
(** [if seen.insert(c) { out.push(c) }]. *)
Definition offer (s : Cands) (c : Candidate) : Cands :=
  if decide (c ∈ seen s) then s else mkCands ({[c]} ∪ seen s) (out s ++ [c]).
Definition offer_all (s : Cands) (cs : list Candidate) : Cands := fold_left offer cs s.

(** Every address on one port; every address on every other port. *)
Definition on_port (port : Z) (ips : list IpAddr) : list Candidate := map (fun ip => (ip, port)) ips.
Definition on_other_ports (primary : Z) (ports : list Z) (ips : list IpAddr) : list Candidate :=
  concat (map (fun ip => map (fun p => (ip, p)) (filter (fun p => p <> primary) ports)) ips).
Definition primary_port (ports : list Z) : Z := match ports with p :: _ => p | [] => 443 end.

Definition manual_masque_candidates (st : Strategy) (ports : list Z) (cidrs : list bytes) (rng : Rng)
  : option (list Candidate * Rng) :=
  let primary := primary_port ports in
  let? '(lists, rng) := cidr_hosts st cidrs rng in
  let hosts := map V4 (interleave lists) in
  let s := offer_all no_cands (on_port primary hosts) in
  let s := offer_all s (on_other_ports primary ports hosts) in
  Some (out s, rng).

Definition build_candidates (env : Env) (st : Strategy) (ports : list Z) (ip : IpScan) (rng : Rng)
  : option (list Candidate * Rng) :=
  let primary := primary_port ports in
  match (if want_v4 ip then custom_masque_cidrs_v4 env else None) with
  | Some cidrs => manual_masque_candidates st ports cidrs rng
  | None =>
      let seeds := map V4 (omap parse_ipv4 MASQUE_SEEDS) in
      let seeds6 := map V6 (omap parse_ipv6 MASQUE_SEEDS_V6) in
      let? '(s, rng) :=
        (if want_v4 ip then
           let s := offer_all no_cands (on_port primary seeds) in
           let? '(lists, rng) := cidr_hosts st (masque_cidrs_v4 env) rng in
           Some (offer_all s (on_port primary (map V4 (interleave lists))), rng)
         else Some (no_cands, rng)) in
      let? '(s, rng) :=
        (if want_v6 ip then
           let s := offer_all s (on_port primary seeds6) in
           let per := if sample_per_cidr st =? 0 then 96 else sample_per_cidr st in
           let? '(lists, rng) := map_rng (fun c => sample_cidr_v6 c per MASQUE_CIDRS_V4) (masque_cidrs_v6 env) rng in
           Some (offer_all s (on_port primary (map V6 (interleave lists))), rng)
         else Some (s, rng)) in
      let s := if want_v4 ip then offer_all s (on_other_ports primary ports seeds) else s in
      let s := if want_v6 ip then offer_all s (on_other_ports primary ports seeds6) else s in
      Some (out s, rng)
  end.

(** Keeps the first occurrence of every port. *)
Fixpoint dedup_ports (seen_port : gset Z) (ports : list Z) : list Z :=
  match ports with
  | [] => []
  | p :: ports =>
      if decide (p ∈ seen_port) then dedup_ports seen_port ports
      else p :: dedup_ports ({[p]} ∪ seen_port) ports
  end.

(** The closure [push] of [build_wg_candidates]. *)
Definition push_wg (excluded : gset SocketAddr) (s : Cands) (c : Candidate) : Cands :=
  if decide (sock_new c.1 c.2 ∈ excluded) then s else offer s c.
(** [ports[(idx + wave) % port_count]]. *)
Definition wave_port (ports : list Z) (idx wave : nat) : Z :=
  nth ((idx + wave) mod length ports) ports 0.
Definition wave (ports : list Z) (ips : list IpAddr) (w : nat) : list Candidate :=
  imap (fun idx ip => (ip, wave_port ports idx w)) ips.
Definition waves (ports : list Z) (ips : list IpAddr) (n : nat) : list Candidate :=
  concat (map (wave ports ips) (seq 0 n)).
Definition wave_count (st : WgStrategy) : nat := Z.to_nat (Z.max 1 (pool_port_waves st)).

Definition manual_wg_candidates (st : WgStrategy) (ports : list Z) (cidrs : list bytes)
    (excluded : gset SocketAddr) (rng : Rng) : option (list Candidate * Rng) :=
  let? '(lists, rng) := cidr_hosts (wg_base st) cidrs rng in
  let ips := map V4 (interleave lists) in
  let ports := match ports with [] => [2408] | _ => ports end in
  Some (out (fold_left (push_wg excluded) (waves ports ips (wave_count st)) no_cands), rng).

Definition build_wg_candidates (env : Env) (st : WgStrategy) (ports : list Z) (ip : IpScan)
    (excluded : gset SocketAddr) (rng : Rng) : option (list Candidate * Rng) :=
  let ports := match dedup_ports ∅ ports with [] => [2408] | deduped => deduped end in
  match (if want_v4 ip then custom_wg_cidrs_v4 env else None) with
  | Some cidrs => manual_wg_candidates st ports cidrs excluded rng
  | None =>
      let? '(anchors4, pool4, rng) :=
        (if want_v4 ip then
           let? '(lists, rng) := cidr_hosts (wg_base st) (wg_prefixes_v4 env) rng in
           Some (map V4 (omap parse_ipv4 (wg_seeds_v4 env)), map V4 (interleave lists), rng)
         else Some ([], [], rng)) in
      let? '(anchors6, pool6, rng) :=
        (if want_v6 ip then
           let per := if sample_per_cidr (wg_base st) =? 0 then 80 else sample_per_cidr (wg_base st) in
           let? '(lists, rng) := map_rng (fun c => sample_cidr_v6 c per WG_PREFIXES_V4) (wg_prefixes_v6 env) rng in
           Some (map V6 (omap parse_ipv6 WG_SEEDS_V6), map V6 (interleave lists), rng)
         else Some ([], [], rng)) in
      let ips := (anchors4 ++ anchors6) ++ (pool4 ++ pool6) in
      Some (out (fold_left (push_wg excluded) (waves ports ips (wave_count st)) no_cands), rng)
  end.

(** ** The stream of verifications *)

Record ProbeResult : Type := mkProbe { pr_ip : IpAddr; pr_port : Z; pr_rtt : Z }.
Definition pr_addr (pr : ProbeResult) : SocketAddr := sock_new (pr_ip pr) (pr_port pr).

(** [futures::stream::iter(..).buffer_unordered(n)]: at most [n] of the
    verifications run at a time, in the order of the candidates; the next item
    is any of those that run.  [pick] says which one finishes first. *)
Record Buffered : Type := mkBuffered { queued : list Candidate; in_progress : list Candidate; limit : nat }.
Definition refill (b : Buffered) : Buffered :=
  let room := (limit b - length (in_progress b))%nat in
  mkBuffered (drop room (queued b)) (in_progress b ++ take room (queued b)) (limit b).
Definition poll_next (b : Buffered) (pick : nat) : option Candidate * Buffered :=
  let b := refill b in
  match in_progress b with
  | [] => (None, b)
  | c :: cs =>
      let i := (pick mod length (c :: cs))%nat in
      (Some (nth i (c :: cs) c), mkBuffered (queued b) (take i (c :: cs) ++ drop (S i) (c :: cs)) (limit b))
  end.

(** One turn of a scan loop: the clock at its head, then the item of the
    stream (with the clock when it is handled) or the end of the sleep. *)
Inductive scan_event : Type :=
| NextItem (pick : nat) (now : Z)
| Slept.
Abbreviation Turns := (list (Z * scan_event)).

(** What verifying an endpoint gives: the round-trip time of a working one.
    [verify_one] chooses among the checks of the other modules. *)
Record Checks : Type := mkChecks {
  masque_http_ping : SocketAddr -> result Z;
  verify_h2_shallow : SocketAddr -> result Z;
  check_h2 : SocketAddr -> result Z;
  check_masque : SocketAddr -> result Z;
  check_wg : SocketAddr -> result Z;
  wg_http_ping : SocketAddr -> result Z }.

Definition probed (c : Candidate) (r : result Z) : option ProbeResult :=
  match r with Ok rtt => Some (mkProbe c.1 c.2 rtt) | _ => None end.
Definition verify_one (k : Checks) (h2_enabled ironclad shallow : bool) (c : Candidate) : option ProbeResult :=
  let peer := sock_new c.1 c.2 in
  if ironclad then probed c (masque_http_ping k peer)
  else if h2_enabled then probed c (if shallow then verify_h2_shallow k peer else check_h2 k peer)
  else probed c (check_masque k peer).
Definition verify_one_wg (k : Checks) (ironclad : bool) (c : Candidate) : option ProbeResult :=
  let peer := sock_new c.1 c.2 in
  match check_wg k peer with
  | Ok rtt => if negb ironclad then Some (mkProbe c.1 c.2 rtt) else probed c (wg_http_ping k peer)
  | _ => None
  end.

(** ** Scanning for the best gateway *)

Record Hunt : Type := mkHunt { best : option ProbeResult; found : Z; quiet_until : option Z }.
Inductive hunt_step (S : Type) : Type :=
| Continue (s : S)
| Break (s : S)
| Return (pr : ProbeResult).
Arguments Continue {S}.
Arguments Break {S}.
Arguments Return {S}.

Definition better (best : option ProbeResult) (pr : ProbeResult) : ProbeResult :=
  match best with
  | Some cur => if pr_rtt cur <=? pr_rtt pr then cur else pr
  | None => pr
  end.
(** The handling of [Some(Some(pr))]. *)
Definition on_gateway (st : Strategy) (excluded : gset SocketAddr) (now : Z) (h : Hunt) (pr : ProbeResult)
  : hunt_step Hunt :=
  if decide (pr_addr pr ∈ excluded) then Continue h
  else if early_exit_first st then Return pr
  else
    let best := Some (better (best h) pr) in
    let found := found h + 1 in
    if (0 <? target_successes st) && (target_successes st <=? found) && bool_decide (quiet_until h = None) then
      if negb (quiet_after_first st =? 0)
      then Continue (mkHunt best found (Some (now + quiet_after_first st)))
      else Break (mkHunt best found (quiet_until h))
    else Continue (mkHunt best found (quiet_until h)).

Definition effective_deadline (quiet_until : option Z) (deadline : Z) : Z :=
  match quiet_until with Some q => Z.min q deadline | None => deadline end.

(** The loop shared by the scans: [expired] says when the head of the loop
    gives up, [on_item] handles a verified candidate. *)
Section Scan.
Context {S : Type} (deadline_of : S -> Z) (verify : Candidate -> option ProbeResult)
  (on_item : Z -> S -> ProbeResult -> hunt_step S).

Fixpoint scan_loop (turns : Turns) (b : Buffered) (s : S) : option (hunt_step S) :=
  match turns with
  | [] => None
  | (head, ev) :: turns =>
      if saturating_duration_since (deadline_of s) head =? 0 then Some (Break s)
      else
        match ev with
        | Slept => Some (Break s)
        | NextItem pick now =>
            let '(item, b) := poll_next b pick in
            match item with
            | None => Some (Break s)
            | Some c =>
                match verify c with
                | None => scan_loop turns b s
                | Some pr =>
                    match on_item now s pr with
                    | Continue s => scan_loop turns b s
                    | stop => Some stop
                    end
                end
            end
        end
  end.
End Scan.

(** IPv6 is scanned only by a host that has a route for it. *)
Definition effective_ip (ip : IpScan) (host_has_ipv6 : bool) : option IpScan :=
  if want_v6 ip && negb host_has_ipv6 then
    if want_v4 ip then Some ScanV4 else None
  else Some ip.

(** What a scan reads of its surroundings: variables, the device's cap, the
    IPv6 route, random draws, whether HTTP/2 is selected, and the checks. *)
Record World : Type := mkWorld {
  w_env : Env; w_cap : Z; w_ipv6 : bool; w_rng : Rng; w_h2 : bool; w_checks : Checks }.

(** [None]: the turns given end before the scan does. *)
Definition hunt_best_gateway (w : World) (ports : list Z) (ip : IpScan) (mode : ScanMode)
    (excluded : gset SocketAddr) (start : Z) (turns : Turns) : option (result ProbeResult) :=
  let st := strategy mode in
  let st := with_concurrency st (cap_concurrency (w_cap w) (concurrency st)) in
  match effective_ip ip (w_ipv6 w) with
  | None => Some (Err NoCleanEndpoint)
  | Some ip =>
      let? '(candidates, _) := build_candidates (w_env w) st ports ip (w_rng w) in
      let ironclad := bool_decide (mode = Ironclad) in
      let deadline := start + overall_deadline st in
      let? stop := scan_loop (fun h => effective_deadline (quiet_until h) deadline)
                     (verify_one (w_checks w) (w_h2 w) ironclad false) (on_gateway st excluded)
                     turns (mkBuffered candidates [] (Z.to_nat (concurrency st))) (mkHunt None 0 None) in
      Some match stop with
           | Return pr => Ok pr
           | Continue h | Break h => match best h with Some pr => Ok pr | None => Err NoCleanEndpoint end
           end
  end.

(** ** Ranked gateways *)

(** [sort_by] and [sort_by_key] on the round-trip time, which are stable. *)
Fixpoint insert_by_rtt (pr : ProbeResult) (l : list ProbeResult) : list ProbeResult :=
  match l with
  | [] => [pr]
  | x :: l => if pr_rtt pr <=? pr_rtt x then pr :: x :: l else x :: insert_by_rtt pr l
  end.
Definition sort_by_rtt (l : list ProbeResult) : list ProbeResult := foldr insert_by_rtt [] l.

Definition on_ranked (excluded : gset SocketAddr) (want : Z) (now : Z) (collected : list ProbeResult)
    (pr : ProbeResult) : hunt_step (list ProbeResult) :=
  if decide (pr_addr pr ∈ excluded) then Continue collected
  else
    let collected := collected ++ [pr] in
    if want <=? zlen collected then Break collected else Continue collected.

Definition hunt_ranked_gateways (w : World) (ports : list Z) (ip : IpScan) (mode : ScanMode)
    (excluded : gset SocketAddr) (want : Z) (start : Z) (turns : Turns)
  : option (result (list ProbeResult)) :=
  let st := strategy mode in
  let st := with_concurrency st (cap_concurrency (w_cap w) (concurrency st)) in
  match effective_ip ip (w_ipv6 w) with
  | None => Some (Err NoCleanEndpoint)
  | Some ip =>
      let? '(candidates, _) := build_candidates (w_env w) st ports ip (w_rng w) in
      let ironclad := bool_decide (mode = Ironclad) in
      let deadline := start + overall_deadline st in
      let? stop := scan_loop (fun _ => deadline)
                     (verify_one (w_checks w) (w_h2 w) ironclad true) (on_ranked excluded want)
                     turns (mkBuffered candidates [] (Z.to_nat (concurrency st))) [] in
      Some (Ok match stop with
               | Continue l | Break l => ztake want (sort_by_rtt l)
               | Return pr => [pr]
               end)
  end.

(** ** WireGuard endpoints *)

Fixpoint first_per_ip (seen : gset IpAddr) (l : list ProbeResult) : list ProbeResult :=
  match l with
  | [] => []
  | pr :: l =>
      if decide (pr_ip pr ∈ seen) then first_per_ip seen l
      else pr :: first_per_ip ({[pr_ip pr]} ∪ seen) l
  end.
Definition distinct_by_ip (found : list ProbeResult) : list ProbeResult := first_per_ip ∅ (sort_by_rtt found).

Record WgHunt : Type := mkWgHunt { verified : list ProbeResult; wg_found : Z; wg_quiet_until : option Z }.
Definition on_endpoint (early : bool) (target quiet want : Z) (now : Z) (h : WgHunt) (pr : ProbeResult)
  : hunt_step WgHunt :=
  if early then Return pr
  else
    let verified := verified h ++ [pr] in
    let found := wg_found h + 1 in
    if (want <=? zlen (distinct_by_ip verified)) && (1 <? want)
    then Break (mkWgHunt verified found (wg_quiet_until h))
    else if (0 <? target) && (target <=? found) && bool_decide (wg_quiet_until h = None) then
      if negb (quiet =? 0) then Continue (mkWgHunt verified found (Some (now + quiet)))
      else Break (mkWgHunt verified found (wg_quiet_until h))
    else Continue (mkWgHunt verified found (wg_quiet_until h)).

Definition hunt_wg_endpoints (w : World) (ports : list Z) (ip : IpScan) (excluded : gset SocketAddr)
    (mode : ScanMode) (want : Z) (start : Z) (turns : Turns) : option (result (list ProbeResult)) :=
  let want := Z.max 1 want in
  let wst := wg_strategy mode in
  let st := with_concurrency (wg_base wst) (cap_concurrency (w_cap w) (concurrency (wg_base wst))) in
  match effective_ip ip (w_ipv6 w) with
  | None => Some (Err NoCleanEndpoint)
  | Some ip =>
      let? '(candidates, _) :=
        build_wg_candidates (w_env w) (mkWgStrategy st (pool_port_waves wst)) ports ip excluded (w_rng w) in
      let ironclad := bool_decide (mode = Ironclad) in
      let early := early_exit_first st && negb (1 <? want) in
      let target := if 1 <? want then Z.max (target_successes st) (want * 3) else target_successes st in
      let deadline := start + overall_deadline st in
      let? stop := scan_loop (fun h => effective_deadline (wg_quiet_until h) deadline)
                     (verify_one_wg (w_checks w) ironclad)
                     (on_endpoint early target (quiet_after_first st) want)
                     turns (mkBuffered candidates [] (Z.to_nat (concurrency st))) (mkWgHunt [] 0 None) in
      Some match stop with
           | Return pr => Ok [pr]
           | Continue h | Break h =>
               match distinct_by_ip (verified h) with
               | [] => Err NoCleanEndpoint
               | picked => Ok (ztake want picked)
               end
           end
  end.

Definition hunt_best_wg_endpoint (w : World) (ports : list Z) (ip : IpScan) (excluded : gset SocketAddr)
    (mode : ScanMode) (start : Z) (turns : Turns) : option (result ProbeResult) :=
  let? r := hunt_wg_endpoints w ports ip excluded mode 1 start turns in
  Some (let! l := r in ok_or (head l) NoCleanEndpoint).

(** ** Candidates: lemmas *)

Definition cands_ok (s : Cands) : Prop := NoDup (out s) /\ seen s = list_to_set (out s).

Lemma offer_ok s c : cands_ok s -> cands_ok (offer s c).
Proof.
  intros [Hn Hs]. unfold offer. destruct (decide (c ∈ seen s)) as [|Hc]; [done|].
  rewrite Hs, elem_of_list_to_set in Hc. split; simpl.
  - apply NoDup_app. split_and!; [done| |apply NoDup_singleton].
    intros x Hx ->%list_elem_of_singleton. done.
  - rewrite Hs, list_to_set_app_L. set_solver.
Qed.

Lemma offer_elem s c x : cands_ok s -> x ∈ out (offer s c) <-> x ∈ out s \/ x = c.
Proof.
  intros [_ Hs]. unfold offer. destruct (decide (c ∈ seen s)) as [Hc|]; simpl.
  - rewrite Hs, elem_of_list_to_set in Hc. naive_solver.
  - by rewrite elem_of_app, list_elem_of_singleton.
Qed.

Lemma offer_all_ok cs s : cands_ok s -> cands_ok (offer_all s cs).
Proof. revert s. induction cs as [|c cs IH]; intros s Hs; [done|]. by apply IH, offer_ok. Qed.

Lemma offer_all_elem cs s x : cands_ok s -> x ∈ out (offer_all s cs) <-> x ∈ out s \/ x ∈ cs.
Proof.
  revert s. induction cs as [|c cs IH]; intros s Hs; simpl; [set_solver|].
  unfold offer_all in *. simpl. rewrite IH by (by apply offer_ok). rewrite offer_elem by done. set_solver.
Qed.

Lemma offer_all_prefix cs s : exists k, out (offer_all s cs) = out s ++ k.
Proof.
  revert s. induction cs as [|c cs IH]; intros s; simpl; [exists []; by rewrite app_nil_r|].
  unfold offer_all in *. simpl. destruct (IH (offer s c)) as [k ->]. unfold offer.
  destruct (decide _); simpl; [by exists k|]. exists (c :: k). by rewrite <- app_assoc.
Qed.

Lemma no_cands_ok : cands_ok no_cands.
Proof. split; [constructor|done]. Qed.

Create HintDb cands.
#[export] Hint Resolve no_cands_ok offer_ok offer_all_ok : cands.

Lemma push_wg_filter excluded cs s :
  fold_left (push_wg excluded) cs s = offer_all s (filter (fun c => sock_new c.1 c.2 ∉ excluded) cs).
Proof.
  revert s. induction cs as [|c cs IH]; intros s; [done|]. rewrite filter_cons. simpl.
  unfold push_wg at 2. destruct (decide (sock_new c.1 c.2 ∈ excluded)), (decide (sock_new c.1 c.2 ∉ excluded));
    try done; rewrite IH; done.
Qed.

(** ** The stream of verifications: lemmas *)

Definition pending (b : Buffered) : list Candidate := in_progress b ++ queued b.

Lemma poll_next_Some b pick c b' :
  poll_next b pick = (Some c, b') -> c :: pending b' ≡ₚ pending b /\ limit b' = limit b.
Proof.
  unfold poll_next. destruct (in_progress (refill b)) as [|d ds] eqn:He; [done|].
  set (i := (pick mod length (d :: ds))%nat).
  assert (i < length (d :: ds))%nat as Hi by (apply Nat.mod_upper_bound; done).
  destruct (lookup_lt_is_Some_2 (d :: ds) i Hi) as [x Hx].
  assert (nth i (d :: ds) d = x) as -> by (rewrite nth_lookup, Hx; done).
  intros [= <- <-]. split; [|done].
  assert (pending b ≡ₚ (d :: ds) ++ queued (refill b)) as ->.
  { rewrite <- He. unfold pending, refill. simpl. by rewrite <- app_assoc, take_drop. }
  unfold pending. simpl in_progress. simpl queued.
  rewrite (app_comm_cons _ _ x). f_equiv.
  pose proof (take_drop_middle _ _ _ Hx) as Hm. simpl drop in Hm. rewrite <- Hm at 2.
  apply Permutation_middle.
Qed.

Lemma poll_next_None b pick b' :
  (0 < limit b)%nat -> poll_next b pick = (None, b') -> pending b = [].
Proof.
  intros Hl. unfold poll_next. destruct (in_progress (refill b)) eqn:He; [|done]. intros _.
  unfold refill in He. simpl in He. apply app_eq_nil in He as [Hi Ht]. unfold pending. rewrite Hi in *.
  simpl in *. rewrite Nat.sub_0_r in Ht. destruct (limit b); [lia|]. by destruct (queued b).
Qed.

(** The rule for a scan loop: an invariant of the candidates verified so far
    and of the state holds when the loop ends, and the loop ends because the
    candidates are used up, because of the clock, or because of the last one. *)
Section ScanRule.
Context {S : Type} (deadline_of : S -> Z) (verify : Candidate -> option ProbeResult)
  (on_item : Z -> S -> ProbeResult -> hunt_step S) (Inv : list Candidate -> S -> Prop).
Hypothesis Inv_fail : forall fin s c, Inv fin s -> verify c = None -> Inv (fin ++ [c]) s.
Hypothesis Inv_item : forall fin s c pr now s',
  Inv fin s -> verify c = Some pr ->
  on_item now s pr = Continue s' \/ on_item now s pr = Break s' -> Inv (fin ++ [c]) s'.

(** The clock ran out at the head of some turn, or during its sleep. *)
Definition timed_out (turns : Turns) (s : S) : Prop :=
  exists head ev, (head, ev) ∈ turns /\ (ev = Slept \/ deadline_of s <= head).

(** What is known when the loop ends: [more] is what it verified after [fin]. *)
Definition scanned (turns : Turns) (b : Buffered) (fin : list Candidate) (stop : hunt_step S) : Prop :=
  exists more rest, pending b ≡ₚ more ++ rest /\
    match stop with
    | Continue _ => False
    | Break s' => Inv (fin ++ more) s' /\
        (rest = [] \/ timed_out turns s' \/ exists now s0 pr, on_item now s0 pr = Break s')
    | Return pr => exists c fin0 s0 now, fin ++ more = fin0 ++ [c] /\ Inv fin0 s0 /\
        exists pr0, verify c = Some pr0 /\ on_item now s0 pr0 = Return pr
    end.

Lemma scanned_cons turn turns b b' c fin stop :
  c :: pending b' ≡ₚ pending b -> scanned turns b' (fin ++ [c]) stop -> scanned (turn :: turns) b fin stop.
Proof using Type.
  intros Hp (more & rest & Hm & Hst). exists (c :: more), rest. split; [by rewrite <- Hp, Hm|].
  rewrite <- app_assoc in Hst. simpl in Hst. destruct stop; [done| |done].
  destruct Hst as [? [|[(h & e & ? & ?)|]]]; split; auto. right; left. exists h, e. split; [by right|done].
Qed.

Lemma scan_loop_rule turns b s fin stop :
  (0 < limit b)%nat -> Inv fin s -> scan_loop deadline_of verify on_item turns b s = Some stop ->
  scanned turns b fin stop.
Proof using Inv_fail Inv_item.
  revert b s fin. induction turns as [|[head ev] turns IH]; intros b s fin Hl HI; [done|]. simpl.
  destruct (saturating_duration_since _ _ =? 0) eqn:Hd.
  { intros [= <-]. exists [], (pending b). rewrite app_nil_r. split; [done|]. split; [done|]. right; left.
    exists head, ev. split; [left|]. right. unfold saturating_duration_since in Hd. lia. }
  destruct ev as [pick now|].
  2: { intros [= <-]. exists [], (pending b). rewrite app_nil_r. split; [done|]. split; [done|]. right; left.
       exists head, Slept. split; [left|]. by left. }
  destruct (poll_next b pick) as [[c|] b'] eqn:Hp.
  2: { intros [= <-]. apply poll_next_None in Hp; [|done]. exists [], []. rewrite Hp, !app_nil_r.
       split; [done|]. split; auto. }
  apply poll_next_Some in Hp as [Hp Hl']. rewrite <- Hl' in Hl.
  destruct (verify c) as [pr|] eqn:Hv; [|intros Hs; apply (scanned_cons _ _ _ _ _ _ _ Hp); eauto].
  destruct (on_item now s pr) as [s'|s'|pr'] eqn:Ho.
  - intros Hs. apply (scanned_cons _ _ _ _ _ _ _ Hp). eauto.
  - intros [= <-]. exists [c], (pending b'). split; [by rewrite <- Hp|]. split; [eauto 10|]. eauto 10.
  - intros [= <-]. exists [c], (pending b'). split; [by rewrite <- Hp|]. exists c, fin, s, now. eauto.
Qed.

(** A scan ends, after one turn more than there are candidates at the latest. *)
Lemma scan_loop_ends turns b s :
  (0 < limit b)%nat -> (length (pending b) < length turns)%nat ->
  scan_loop deadline_of verify on_item turns b s <> None.
Proof using Type.
  revert b s. induction turns as [|[head ev] turns IH]; intros b s Hl Hn; simpl in *; [lia|].
  destruct (_ =? 0); [done|]. destruct ev as [pick now|]; [|done].
  destruct (poll_next b pick) as [[c|] b'] eqn:Hp; [|done].
  apply poll_next_Some in Hp as [Hp Hl']. assert (length (pending b') < length turns)%nat as Hn'.
  { apply Permutation_length in Hp. simpl in Hp. lia. }
  destruct (verify c) as [pr|]; [|apply IH; lia]. destruct (on_item now s pr); [apply IH; lia|done|done].
Qed.
End ScanRule.

(** ** Results of the scans *)

(** The working endpoints among the candidates that were verified. *)
Definition usable (verify : Candidate -> option ProbeResult) (excluded : gset SocketAddr) (fin : list Candidate)
  : list ProbeResult := filter (fun pr => pr_addr pr ∉ excluded) (omap verify fin).
Definition fastest (l : list ProbeResult) (pr : ProbeResult) : Prop :=
  pr ∈ l /\ forall x, x ∈ l -> pr_rtt pr <= pr_rtt x.

Lemma usable_snoc verify excluded fin c :
  usable verify excluded (fin ++ [c]) =
  usable verify excluded fin ++
  match verify c with
  | Some pr => if decide (pr_addr pr ∈ excluded) then [] else [pr]
  | None => []
  end.
Proof.
  unfold usable. rewrite omap_app, filter_app. f_equal. simpl. destruct (verify c) as [pr|]; [|done].
  rewrite filter_cons, filter_nil.
  destruct (decide (pr_addr pr ∈ excluded)), (decide (pr_addr pr ∉ excluded)); done.
Qed.

Lemma better_fastest l o pr :
  match o with Some b => fastest l b | None => l = [] end -> fastest (l ++ [pr]) (better o pr).
Proof.
  unfold fastest, better. destruct o as [b|].
  - intros [Hb Hl]. destruct (Z.leb_spec (pr_rtt b) (pr_rtt pr)); split; try set_solver.
    all: intros x [Hx| ->%list_elem_of_singleton]%elem_of_app; try lia; specialize (Hl x Hx); lia.
  - intros ->. simpl. split; [set_solver|]. intros x ->%list_elem_of_singleton. lia.
Qed.

(** The invariant of [hunt_best_gateway]. *)
Definition hunt_inv (st : Strategy) (verify : Candidate -> option ProbeResult) (excluded : gset SocketAddr)
    (fin : list Candidate) (h : Hunt) : Prop :=
  let l := usable verify excluded fin in
  match best h with Some b => fastest l b | None => l = [] end /\
  found h = zlen l /\
  (early_exit_first st = true -> l = []) /\
  (quiet_until h = None \/ 0 < target_successes st <= zlen l).

Lemma hunt_inv_init st verify excluded : hunt_inv st verify excluded [] (mkHunt None 0 None).
Proof. unfold hunt_inv. simpl. split_and!; auto. Qed.

Lemma hunt_inv_fail st verify excluded fin h c :
  hunt_inv st verify excluded fin h -> verify c = None -> hunt_inv st verify excluded (fin ++ [c]) h.
Proof. unfold hunt_inv. intros H Hv. by rewrite usable_snoc, Hv, app_nil_r. Qed.

Lemma hunt_inv_item st verify excluded fin h c pr now h' :
  hunt_inv st verify excluded fin h -> verify c = Some pr ->
  on_gateway st excluded now h pr = Continue h' \/ on_gateway st excluded now h pr = Break h' ->
  hunt_inv st verify excluded (fin ++ [c]) h'.
Proof.
  unfold hunt_inv, on_gateway. intros (Hb & Hf & He & Hq) Hv Ho. rewrite usable_snoc, Hv.
  destruct (decide (pr_addr pr ∈ excluded)) as [|_].
  { rewrite app_nil_r. destruct Ho as [[= <-]|[=]]. done. }
  destruct (early_exit_first st) eqn:Hearly; [by destruct Ho|].
  pose proof (better_fastest _ _ pr Hb). autorewrite with slices.
  destruct (_ && _ && _) eqn:Hc; [destruct (negb _)|]; destruct Ho as [[= <-]|[= <-]]; simpl;
    (split_and!; [done|lia|done|]); try (right; lia).
  destruct Hq as [->|]; [by left|right; lia].
Qed.

(** No strategy stops at the target without waiting for better gateways. *)
Lemma strategy_quiet mode : early_exit_first (strategy mode) = true \/ quiet_after_first (strategy mode) <> 0.
Proof. destruct mode; [by left|right..]; done. Qed.

Lemma on_gateway_break st excluded now h pr h' :
  early_exit_first st = true \/ quiet_after_first st <> 0 -> on_gateway st excluded now h pr <> Break h'.
Proof.
  unfold on_gateway. intros Hq. destruct (decide _); [done|]. destruct (early_exit_first st); [done|].
  destruct (_ && _ && _); [|done]. destruct (Z.eqb_spec (quiet_after_first st) 0); [|done].
  destruct Hq; done.
Qed.

Lemma on_gateway_return st excluded now h pr pr' :
  on_gateway st excluded now h pr = Return pr' ->
  pr' = pr /\ pr_addr pr ∉ excluded /\ early_exit_first st = true.
Proof.
  unfold on_gateway. destruct (decide _); [done|]. destruct (early_exit_first st); [by intros [= <-]|].
  destruct (_ && _ && _); [by destruct (negb _)|done].
Qed.

Definition cap (w : World) (st : Strategy) : Strategy :=
  with_concurrency st (cap_concurrency (w_cap w) (concurrency st)).

Lemma cap_positive w mode : 0 < w_cap w -> (0 < Z.to_nat (concurrency (cap w (strategy mode))))%nat.
Proof. intros. unfold cap, with_concurrency, cap_concurrency. simpl. destruct mode; simpl; lia. Qed.

Lemma wg_cap_positive w mode :
  0 < w_cap w -> (0 < Z.to_nat (concurrency (cap w (wg_base (wg_strategy mode)))))%nat.
Proof. intros. unfold cap, with_concurrency, cap_concurrency. simpl. destruct mode; simpl; lia. Qed.

Lemma gateway_scan w ports ip mode excluded start turns r :
  0 < w_cap w ->
  hunt_best_gateway w ports ip mode excluded start turns = Some r ->
  (effective_ip ip (w_ipv6 w) = None /\ r = Err NoCleanEndpoint) \/
  exists ip' candidates rng fin rest,
    effective_ip ip (w_ipv6 w) = Some ip' /\
    build_candidates (w_env w) (cap w (strategy mode)) ports ip' (w_rng w) = Some (candidates, rng) /\
    candidates ≡ₚ fin ++ rest /\
    (let l := usable (verify_one (w_checks w) (w_h2 w) (bool_decide (mode = Ironclad)) false) excluded fin in
     match r with
     | Ok pr => fastest l pr
     | Err e => e = NoCleanEndpoint /\ l = []
     | _ => False
     end /\
     (rest = [] \/ 0 < target_successes (strategy mode) <= zlen l \/
      exists head ev, (head, ev) ∈ turns /\ (ev = Slept \/ start + overall_deadline (strategy mode) <= head))).
Proof.
  intros Hcap Hh. unfold hunt_best_gateway in Hh. fold (cap w (strategy mode)) in Hh.
  destruct (effective_ip ip (w_ipv6 w)) as [ip'|]; [right|left; by simplify_eq].
  inv_bind. destruct a as [cands rng]. inv_bind. simplify_eq.
  set (verify := verify_one _ _ _ _) in *.
  assert (Hl := cap_positive w mode Hcap).
  pose proof (scan_loop_rule _ verify (on_gateway (cap w (strategy mode)) excluded)
    (hunt_inv (cap w (strategy mode)) verify excluded) (hunt_inv_fail _ _ _) (hunt_inv_item _ _ _)
    _ (mkBuffered cands [] _) _ [] _ Hl (hunt_inv_init _ _ _) E0) as (fin & rest & Hp & Hst).
  exists ip', cands, rng, fin, rest. split_and!; [done..|]. simpl in Hst.
  destruct a as [h|h|pr]; [done| |].
  - destruct Hst as [(Hb & Hf & He & Hq) Hr]. split; [destruct (best h); [done|by split]|].
    destruct Hr as [|[(head & ev & Hin & Hev)|(now & s0 & pr & Hbr)]]; [by left|right|].
    + unfold effective_deadline in Hev. destruct Hq as [Hq|Hq]; [|by left]. rewrite Hq in Hev.
      right. by exists head, ev.
    + exfalso. eapply on_gateway_break; [|done]. apply strategy_quiet.
  - destruct Hst as (c & fin0 & s0 & now & -> & (_ & _ & He & _) & pr0 & Hv & Ho).
    apply on_gateway_return in Ho as (-> & Hx & Hearly). rewrite usable_snoc, Hv, (He Hearly).
    destruct (decide _); [done|]. split; [split; [set_solver|]; intros x ->%list_elem_of_singleton; lia|].
    right; left. destruct mode; by try done.
Qed.

(** C19: a gateway scan decides among the candidates it verified: it returns the
    one with the least round-trip time among those that work and are not
    avoided, or reports that there is none; and unless it ran into its
    deadline or had found as many as the mode asks for, these are all the
    candidates. *)
Theorem gateway_scan_correct w ports ip mode excluded start turns r :
  0 < w_cap w ->
  hunt_best_gateway w ports ip mode excluded start turns = Some r ->
  (effective_ip ip (w_ipv6 w) = None /\ r = Err NoCleanEndpoint) \/
  exists ip' candidates rng fin rest,
    effective_ip ip (w_ipv6 w) = Some ip' /\
    build_candidates (w_env w) (cap w (strategy mode)) ports ip' (w_rng w) = Some (candidates, rng) /\
    candidates ≡ₚ fin ++ rest /\
    (let l := usable (verify_one (w_checks w) (w_h2 w) (bool_decide (mode = Ironclad)) false) excluded fin in
     match r with
     | Ok pr => fastest l pr
     | Err e => e = NoCleanEndpoint /\ l = []
     | _ => False
     end /\
     (rest = [] \/ 0 < target_successes (strategy mode) <= zlen l \/
      exists head ev, (head, ev) ∈ turns /\ (ev = Slept \/ start + overall_deadline (strategy mode) <= head))).
Proof. apply gateway_scan. Qed.

(** ** Sorting *)

Definition rtt_le (a b : ProbeResult) : Prop := pr_rtt a <= pr_rtt b.

Lemma insert_by_rtt_perm pr l : insert_by_rtt pr l ≡ₚ pr :: l.
Proof.
  induction l as [|x l IH]; simpl; [done|]. destruct (_ <=? _); [done|]. rewrite IH. apply Permutation_swap.
Qed.

Lemma sort_by_rtt_perm l : sort_by_rtt l ≡ₚ l.
Proof. induction l as [|x l IH]; simpl; [done|]. by rewrite insert_by_rtt_perm, IH. Qed.

Lemma insert_by_rtt_sorted pr l : StronglySorted rtt_le l -> StronglySorted rtt_le (insert_by_rtt pr l).
Proof.
  unfold rtt_le. induction l as [|x l IH]; simpl; intros Hs; [by repeat constructor|].
  apply StronglySorted_inv in Hs as [Hs Hx]. destruct (Z.leb_spec (pr_rtt pr) (pr_rtt x)).
  - constructor; [by constructor|]. constructor; [done|]. eapply Forall_impl; [done|]. simpl. lia.
  - constructor; [by apply IH|]. rewrite insert_by_rtt_perm. constructor; [lia|done].
Qed.

Lemma sort_by_rtt_sorted l : StronglySorted rtt_le (sort_by_rtt l).
Proof. induction l; simpl; [constructor|by apply insert_by_rtt_sorted]. Qed.

Lemma first_per_ip_sublist seen l : first_per_ip seen l `sublist_of` l.
Proof.
  revert seen. induction l as [|x l IH]; intros seen; simpl; [done|].
  destruct (decide _); [by apply sublist_cons|by apply sublist_skip].
Qed.

Lemma first_per_ip_fresh seen l pr : pr ∈ first_per_ip seen l -> pr_ip pr ∉ seen.
Proof.
  revert seen. induction l as [|x l IH]; intros seen; simpl; [set_solver|].
  destruct (decide _) as [|Hx]; [apply IH|]. intros [->|Hp]%elem_of_cons; [done|]. apply IH in Hp. set_solver.
Qed.

Lemma first_per_ip_NoDup seen l : NoDup (map pr_ip (first_per_ip seen l)).
Proof.
  revert seen. induction l as [|x l IH]; intros seen; simpl; [constructor|].
  destruct (decide _); [apply IH|]. simpl. constructor; [|apply IH].
  intros (y & Hy & Hin)%list_elem_of_fmap. apply first_per_ip_fresh in Hin. rewrite <- Hy in Hin. set_solver.
Qed.

(** Every address that is met is kept, with the first of its entries. *)
Lemma first_per_ip_complete seen l pr :
  StronglySorted rtt_le l -> pr ∈ l -> pr_ip pr ∉ seen ->
  exists x, x ∈ first_per_ip seen l /\ pr_ip x = pr_ip pr /\ pr_rtt x <= pr_rtt pr.
Proof.
  revert seen. induction l as [|x l IH]; intros seen Hs Hin Hf; [set_solver|].
  apply StronglySorted_inv in Hs as [Hs Hx]. simpl.
  destruct (decide (pr_ip pr = pr_ip x)) as [He|Hne].
  - exists x. rewrite He in Hf. destruct (decide _); [done|]. split_and!; [set_solver|done|].
    apply elem_of_cons in Hin as [->|Hin]; [lia|]. rewrite Forall_forall in Hx. by apply Hx.
  - apply elem_of_cons in Hin as [->|Hin]; [done|].
    destruct (decide _); [by apply IH|]. destruct (IH ({[pr_ip x]} ∪ seen)) as (y & ? & ?); [done..|set_solver|].
    exists y. split; [by right|done].
Qed.

Lemma StronglySorted_sublist {A} (R : relation A) l k : sublist l k -> StronglySorted R k -> StronglySorted R l.
Proof.
  induction 1 as [|x l k Hs IH|x l k Hs IH]; intros Hk; [done|..]; apply StronglySorted_inv in Hk as [Hk Hx].
  - constructor; [by apply IH|]. rewrite Forall_forall in *. intros y Hy. apply Hx. by eapply elem_of_sublist.
  - by apply IH.
Qed.

(** [distinct_by_ip] keeps the fastest entry of every address, in order. *)
Lemma distinct_by_ip_spec found :
  NoDup (map pr_ip (distinct_by_ip found)) /\
  StronglySorted rtt_le (distinct_by_ip found) /\
  (forall x, x ∈ distinct_by_ip found -> x ∈ found) /\
  (forall pr, pr ∈ found -> exists x, x ∈ distinct_by_ip found /\ pr_ip x = pr_ip pr /\ pr_rtt x <= pr_rtt pr).
Proof.
  unfold distinct_by_ip. split_and!.
  - apply first_per_ip_NoDup.
  - eapply StronglySorted_sublist; [apply first_per_ip_sublist|apply sort_by_rtt_sorted].
  - intros x Hx. rewrite <- sort_by_rtt_perm. eapply elem_of_sublist; [done|apply first_per_ip_sublist].
  - intros pr Hp. apply first_per_ip_complete; [apply sort_by_rtt_sorted| |set_solver]. by rewrite sort_by_rtt_perm.
Qed.

(** The [want] fastest endpoints of [V] on different addresses. *)
Definition picked (want : Z) (V l : list ProbeResult) : Prop :=
  NoDup (map pr_ip l) /\ StronglySorted rtt_le l /\ zlen l <= want /\
  (forall x, x ∈ l -> x ∈ V /\ forall y, y ∈ V -> pr_ip y = pr_ip x -> pr_rtt x <= pr_rtt y) /\
  (forall y, y ∈ V -> (exists x, x ∈ l /\ pr_ip x = pr_ip y) \/
                   zlen l = want /\ forall x, x ∈ l -> pr_rtt x <= pr_rtt y).

Lemma distinct_by_ip_nil V : distinct_by_ip V = [] <-> V = [].
Proof.
  split; [|by intros ->]. destruct V as [|pr V]; [done|]. intros Hn.
  destruct (distinct_by_ip_spec (pr :: V)) as (_ & _ & _ & H). destruct (H pr) as (x & Hx & _); [left|].
  rewrite Hn in Hx. set_solver.
Qed.

Lemma ips_determine l x y : NoDup (map pr_ip l) -> x ∈ l -> y ∈ l -> pr_ip x = pr_ip y -> x = y.
Proof.
  induction l as [|z l IH]; [set_solver|]. simpl. intros [Hz Hn]%NoDup_cons Hx Hy He.
  apply elem_of_cons in Hx as [->|Hx], Hy as [->|Hy]; [done|..]; try (by apply IH).
  - exfalso. apply Hz. rewrite He. by apply list_elem_of_fmap_2.
  - exfalso. apply Hz. rewrite <- He. by apply list_elem_of_fmap_2.
Qed.

Lemma sorted_app_le l k x y : StronglySorted rtt_le (l ++ k) -> x ∈ l -> y ∈ k -> pr_rtt x <= pr_rtt y.
Proof.
  induction l as [|z l IH]; simpl; [set_solver|]. intros [Hs Hz]%StronglySorted_inv Hx Hy.
  apply elem_of_cons in Hx as [->|Hx]; [|by apply IH].
  rewrite Forall_forall in Hz. apply (Hz y). set_solver.
Qed.

Lemma picked_ztake want V : 0 <= want -> picked want V (ztake want (distinct_by_ip V)).
Proof.
  intros Hw. destruct (distinct_by_ip_spec V) as (Hn & Hs & Hin & Hc). set (d := distinct_by_ip V) in *.
  assert (Hsub : ztake want d `sublist_of` d) by apply sublist_take. unfold picked. split_and!.
  - eapply sublist_NoDup; [done|]. by apply (fmap_sublist pr_ip).
  - by eapply StronglySorted_sublist.
  - autorewrite with slices. lia.
  - intros x Hx. assert (x ∈ d) as Hd by (by eapply elem_of_sublist). split; [by apply Hin|].
    intros y Hy He. destruct (Hc y Hy) as (z & Hz & Hzy & Hle).
    assert (z = x) as -> by (apply (ips_determine d); congruence). done.
  - intros y Hy. destruct (Hc y Hy) as (z & Hz & Hzy & Hle). rewrite <- (ztake_zdrop d want) in Hz.
    apply elem_of_app in Hz as [Hz|Hz]; [left; by exists z|right]. split.
    + assert (0 < zlen (zdrop want d)) by (destruct (zdrop want d); [set_solver|by vm_compute]).
      rewrite zlen_zdrop in *. rewrite zlen_ztake. lia.
    + intros x Hx. rewrite <- (ztake_zdrop d want) in Hs. pose proof (sorted_app_le _ _ x z Hs Hx Hz). lia.
Qed.

Lemma picked_decides want V :
  0 <= want ->
  match distinct_by_ip V with [] => V = [] | d => V <> [] /\ picked want V (ztake want d) end.
Proof.
  intros Hw. pose proof (distinct_by_ip_nil V). pose proof (picked_ztake want V Hw).
  destruct (distinct_by_ip V); naive_solver.
Qed.

(** ** WireGuard candidates *)

Lemma dedup_ports_elem seen ports p : p ∈ dedup_ports seen ports <-> p ∈ ports /\ p ∉ seen.
Proof.
  revert seen. induction ports as [|q ports IH]; intros seen; simpl; [set_solver|].
  destruct (decide (q ∈ seen)); rewrite ?elem_of_cons, IH; [set_solver|].
  destruct (decide (p = q)); set_solver.
Qed.

Lemma dedup_ports_NoDup seen ports : NoDup (dedup_ports seen ports).
Proof.
  revert seen. induction ports as [|q ports IH]; intros seen; simpl; [constructor|].
  destruct (decide _); [apply IH|]. constructor; [|apply IH]. rewrite dedup_ports_elem. set_solver.
Qed.

Lemma waves_elem ports ips n c :
  c ∈ waves ports ips n <->
  exists w idx, (w < n)%nat /\ ips !! idx = Some c.1 /\ c.2 = wave_port ports idx w.
Proof.
  unfold waves, wave. rewrite list_elem_of_In, in_concat. split.
  - intros (l & Hl & Hc). apply in_map_iff in Hl as (w & <- & Hw). apply in_seq in Hw.
    rewrite <- list_elem_of_In in Hc. apply elem_of_lookup_imap in Hc as (i & ip & -> & Hi).
    exists w, i. split_and!; [lia|done..].
  - intros (w & idx & Hw & Hi & Hp). eexists. split.
    + apply in_map_iff. exists w. split; [done|]. apply in_seq. lia.
    + rewrite <- list_elem_of_In. apply elem_of_lookup_imap. exists idx, c.1. split; [|done].
      destruct c; simpl in *; congruence.
Qed.

(** The ports one address is tried on are different ones. *)
Lemma wave_ports_NoDup ps idx n :
  NoDup ps -> (n <= length ps)%nat -> NoDup (map (wave_port ps idx) (seq 0 n)).
Proof.
  intros Hn Hl. apply NoDup_fmap_2_strong; [|apply NoDup_seq].
  intros x y Hx%elem_of_seq Hy%elem_of_seq He. unfold wave_port in He.
  assert (length ps <> 0)%nat by lia.
  apply (proj1 (NoDup_nth ps 0)) in He; [| |by apply Nat.mod_upper_bound..].
  2: by rewrite <- NoDup_ListNoDup.
  assert (forall a b, a < b < length ps -> (idx + a) mod length ps <> (idx + b) mod length ps)%nat as Hm.
  { intros a b Hab E. pose proof (Nat.div_mod_eq (idx + a) (length ps)) as Ha.
    pose proof (Nat.div_mod_eq (idx + b) (length ps)) as Hb. rewrite E in Ha.
    generalize dependent ((idx + a) / length ps)%nat. intros q1 Ha.
    generalize dependent ((idx + b) / length ps)%nat. intros q2 Hb.
    assert (q1 < q2)%nat by nia. assert (length ps * S q1 <= length ps * q2)%nat by nia. lia. }
  destruct (Nat.lt_trichotomy x y) as [|[|]]; [exfalso; by apply (Hm x y); [lia|]|done|].
  exfalso. apply (Hm y x); [lia|done].
Qed.

(** The addresses and ports behind a list of candidates. *)
Lemma build_wg_candidates_shape env st ports ip excluded rng cands rng' :
  build_wg_candidates env st ports ip excluded rng = Some (cands, rng') ->
  exists ips ps,
    ps <> [] /\ NoDup ps /\ (forall p, p ∈ ps <-> p ∈ ports \/ ports = [] /\ p = 2408) /\
    (want_v4 ip = true -> custom_wg_cidrs_v4 env = None ->
     map V4 (omap parse_ipv4 (wg_seeds_v4 env)) `prefix_of` ips) /\
    cands = out (offer_all no_cands
                   (filter (fun c => sock_new c.1 c.2 ∉ excluded) (waves ps ips (wave_count st)))).
Proof.
  unfold build_wg_candidates.
  set (ps := match dedup_ports ∅ ports with [] => [2408] | deduped => deduped end).
  assert (Hps : ps <> [] /\ NoDup ps /\ (forall p, p ∈ ps <-> p ∈ ports \/ ports = [] /\ p = 2408)).
  { pose proof (dedup_ports_NoDup ∅ ports). pose proof (fun p => dedup_ports_elem ∅ ports p) as He.
    subst ps. destruct (dedup_ports ∅ ports) as [|q qs].
    - split_and!; [done|apply NoDup_singleton|]. destruct ports as [|p0 ports]; [set_solver|].
      specialize (He p0). set_solver.
    - split_and!; [done..|]. intros p. rewrite He. destruct ports; set_solver. }
  destruct Hps as (H1 & H2 & H3). destruct (if want_v4 ip then _ else _) as [cidrs|] eqn:Hcu.
  - unfold manual_wg_candidates. intros Hm. inv_bind. destruct a as [lists rng1]. simplify_eq/=.
    exists (map V4 (interleave lists)), ps. split_and!; try done.
    + intros Hv Hc. by rewrite Hv, Hc in Hcu.
    + rewrite push_wg_filter. by destruct ps.
  - intros Hm. inv_bind. destruct a as [[an4 po4] rng1]. inv_bind. destruct a as [[an6 po6] rng2].
    simplify_eq/=. exists ((an4 ++ an6) ++ po4 ++ po6), ps. split_and!; try done.
    + intros Hv _. rewrite Hv in E. inv_bind. destruct a as [lists rng3]. simplify_eq/=.
      rewrite <- app_assoc. by apply prefix_app_r.
    + by rewrite push_wg_filter.
Qed.

Lemma wg_candidates_allowed env st ports ip excluded rng cands rng' c :
  build_wg_candidates env st ports ip excluded rng = Some (cands, rng') ->
  c ∈ cands -> sock_new c.1 c.2 ∉ excluded.
Proof.
  intros (ips & ps & _ & _ & _ & _ & ->)%build_wg_candidates_shape.
  rewrite offer_all_elem by apply no_cands_ok. rewrite list_elem_of_filter. simpl. set_solver.
Qed.

(** WireGuard candidates: no endpoint twice, none that is excluded; the
    built-in anchors come first; every candidate is an address on one of the
    ports, and every address is tried on as many different ports as the mode
    has waves, or on all of them if there are fewer. *)
Theorem wg_candidates_rotate env st ports ip excluded rng cands rng' :
  build_wg_candidates env st ports ip excluded rng = Some (cands, rng') ->
  NoDup cands /\ (forall c, c ∈ cands -> sock_new c.1 c.2 ∉ excluded) /\
  exists ips ps,
    ps <> [] /\ (forall p, p ∈ ps <-> p ∈ ports \/ ports = [] /\ p = 2408) /\
    (want_v4 ip = true -> custom_wg_cidrs_v4 env = None ->
     map V4 (omap parse_ipv4 (wg_seeds_v4 env)) `prefix_of` ips) /\
    (forall c, c ∈ cands -> c.1 ∈ ips /\ c.2 ∈ ps) /\
    forall idx a, ips !! idx = Some a ->
      exists tried, NoDup tried /\ length tried = Nat.min (wave_count st) (length ps) /\
        forall p, p ∈ tried -> p ∈ ps /\ (sock_new a p ∈ excluded \/ (a, p) ∈ cands).
Proof.
  intros H. apply build_wg_candidates_shape in H as (ips & ps & H1 & H2 & H3 & H4 & ->).
  split; [by apply offer_all_ok, no_cands_ok|].
  assert (Hin : forall c, c ∈ out (offer_all no_cands (filter (fun c => sock_new c.1 c.2 ∉ excluded)
            (waves ps ips (wave_count st)))) <-> sock_new c.1 c.2 ∉ excluded /\ c ∈ waves ps ips (wave_count st)).
  { intros c. rewrite offer_all_elem by apply no_cands_ok. rewrite list_elem_of_filter. set_solver. }
  assert (Hport : forall idx w, wave_port ps idx w ∈ ps).
  { intros idx w. unfold wave_port. rewrite list_elem_of_In. apply nth_In, Nat.mod_upper_bound. by destruct ps. }
  split; [intros c Hc; by apply Hin in Hc as [? _]|]. exists ips, ps. split_and!; [done..| |].
  - intros c [_ (w & idx & _ & Hi & ->)%waves_elem]%Hin. split; [by eapply list_elem_of_lookup_2|apply Hport].
  - intros idx a Ha. exists (map (wave_port ps idx) (seq 0 (Nat.min (wave_count st) (length ps)))).
    split_and!; [apply wave_ports_NoDup; [done|lia]|by rewrite length_map, length_seq|].
    intros p (w & -> & Hw%elem_of_seq)%list_elem_of_fmap. split; [apply Hport|].
    destruct (decide (sock_new a (wave_port ps idx w) ∈ excluded)); [by left|right]. apply Hin. split; [done|].
    apply waves_elem. exists w, idx. split_and!; [lia|done..].
Qed.

(** ** WireGuard scans *)

(** The invariant of [hunt_wg_endpoints]. *)
Definition wg_hunt_inv (early : bool) (target : Z) (verify : Candidate -> option ProbeResult)
    (fin : list Candidate) (h : WgHunt) : Prop :=
  let V := omap verify fin in
  verified h = V /\ wg_found h = zlen V /\ (early = true -> V = []) /\
  (wg_quiet_until h = None \/ 0 < target <= zlen V).

Lemma wg_hunt_inv_fail early target verify fin h c :
  wg_hunt_inv early target verify fin h -> verify c = None -> wg_hunt_inv early target verify (fin ++ [c]) h.
Proof. unfold wg_hunt_inv. intros H Hv. rewrite omap_app. simpl. by rewrite Hv, app_nil_r. Qed.

Lemma wg_hunt_inv_item early target quiet want verify fin h c pr now h' :
  wg_hunt_inv early target verify fin h -> verify c = Some pr ->
  on_endpoint early target quiet want now h pr = Continue h' \/
  on_endpoint early target quiet want now h pr = Break h' ->
  wg_hunt_inv early target verify (fin ++ [c]) h'.
Proof.
  unfold wg_hunt_inv, on_endpoint. intros (Hv & Hf & He & Hq) Hc Ho.
  rewrite omap_app. simpl. rewrite Hc. destruct early; [by destruct Ho|]. autorewrite with slices.
  destruct (_ && (1 <? want)); [|destruct (_ && _ && _) eqn:Ht; [destruct (negb _)|]];
    destruct Ho as [[= <-]|[= <-]]; simpl; (split_and!; [by rewrite Hv|lia|done|]); try (right; lia);
    (destruct Hq as [->|]; [by left|right; lia]).
Qed.

Lemma wg_hunt_inv_init early target verify : wg_hunt_inv early target verify [] (mkWgHunt [] 0 None).
Proof. unfold wg_hunt_inv. simpl. auto. Qed.

Lemma on_endpoint_return early target quiet want now h pr pr' :
  on_endpoint early target quiet want now h pr = Return pr' -> pr' = pr /\ early = true.
Proof.
  unfold on_endpoint. destruct early; [by intros [= <-]|].
  destruct (_ && (1 <? want)); [done|]. destruct (_ && _ && _); [by destruct (negb _)|done].
Qed.

Lemma verify_one_wg_addr k ironclad c pr : verify_one_wg k ironclad c = Some pr -> pr_addr pr = sock_new c.1 c.2.
Proof.
  unfold verify_one_wg, probed. destruct (check_wg k _); [|done..].
  destruct (negb ironclad); [|destruct (wg_http_ping k _)]; by intros [= <-].
Qed.

(** Why a scan for WireGuard endpoints stops at an endpoint. *)
Lemma on_endpoint_break early target quiet want now h pr h' :
  on_endpoint early target quiet want now h pr = Break h' ->
  1 < want <= zlen (distinct_by_ip (verified h')) \/ 0 < target <= wg_found h'.
Proof.
  unfold on_endpoint. destruct early; [done|]. destruct (_ && (1 <? want)) eqn:Hw.
  { intros [= <-]. left. simpl. lia. }
  destruct (_ && _ && _) eqn:Ht; [|done]. destruct (negb _); [done|]. intros [= <-]. right. simpl. lia.
Qed.

Definition wg_target (mode : ScanMode) (want : Z) : Z :=
  let t := target_successes (wg_base (wg_strategy mode)) in if 1 <? want then Z.max t (want * 3) else t.

Lemma wg_scan w ports ip excluded mode want start turns r :
  0 < w_cap w -> 1 <= want ->
  hunt_wg_endpoints w ports ip excluded mode want start turns = Some r ->
  (effective_ip ip (w_ipv6 w) = None /\ r = Err NoCleanEndpoint) \/
  exists ip' candidates rng fin rest,
    effective_ip ip (w_ipv6 w) = Some ip' /\
    build_wg_candidates (w_env w)
      (mkWgStrategy (cap w (wg_base (wg_strategy mode))) (pool_port_waves (wg_strategy mode)))
      ports ip' excluded (w_rng w) = Some (candidates, rng) /\
    candidates ≡ₚ fin ++ rest /\
    (let V := omap (verify_one_wg (w_checks w) (bool_decide (mode = Ironclad))) fin in
     match r with
     | Ok l => V <> [] /\ picked want V l /\ forall x, x ∈ l -> pr_addr x ∉ excluded
     | Err e => e = NoCleanEndpoint /\ V = []
     | _ => False
     end /\
     (rest = [] \/ 0 < wg_target mode want <= zlen V \/ 1 < want <= zlen (distinct_by_ip V) \/
      exists head ev, (head, ev) ∈ turns /\
        (ev = Slept \/ start + overall_deadline (wg_base (wg_strategy mode)) <= head))).
Proof.
  intros Hcap Hwant Hh. unfold hunt_wg_endpoints in Hh. rewrite Z.max_r in Hh by lia.
  fold (cap w (wg_base (wg_strategy mode))) in Hh.
  destruct (effective_ip ip (w_ipv6 w)) as [ip'|]; [right|left; by simplify_eq].
  inv_bind. destruct a as [cands rng]. inv_bind. simplify_eq.
  set (verify := verify_one_wg _ _) in *. change (if 1 <? want then _ else _) with (wg_target mode want) in *.
  assert (Hl := wg_cap_positive w mode Hcap).
  set (early := _ && _) in E0.
  pose proof (scan_loop_rule _ verify (on_endpoint early (wg_target mode want) _ want)
    (wg_hunt_inv early (wg_target mode want) verify) (wg_hunt_inv_fail _ _ _)
    (fun fin s c pr now s' => wg_hunt_inv_item _ _ _ _ _ fin s c pr now s')
    _ (mkBuffered cands [] _) _ [] _ Hl (wg_hunt_inv_init _ _ _) E0) as (fin & rest & Hp & Hst).
  exists ip', cands, rng, fin, rest. split_and!; [done..|]. simpl in Hst. change (cands ≡ₚ fin ++ rest) in Hp.
  assert (Hx : forall l, picked want (omap verify fin) l -> forall x, x ∈ l -> pr_addr x ∉ excluded).
  { intros l (_ & _ & _ & Hpl & _) x Hx. apply Hpl in Hx as [(c & Hc & Hv)%list_elem_of_omap _].
    rewrite (verify_one_wg_addr _ _ _ _ Hv). eapply wg_candidates_allowed; [done|]. rewrite Hp. set_solver. }
  destruct a as [h|h|pr]; [done| |].
  - destruct Hst as [(Hv & Hf & He & Hq) Hr]. rewrite Hv in *. split.
    + pose proof (picked_decides want (omap verify fin) ltac:(lia)) as Hpk.
      destruct (distinct_by_ip (omap verify fin)) eqn:Hd; [by split|]. destruct Hpk. eauto.
    + destruct Hr as [|[(head & ev & Hin & Hev)|(now & s0 & pr & Hbr)]]; [by left|right|right].
      * unfold effective_deadline in Hev. destruct Hq as [Hq|Hq]; [|by left]. rewrite Hq in Hev.
        right; right. by exists head, ev.
      * apply on_endpoint_break in Hbr. rewrite Hv, Hf in Hbr. destruct Hbr; auto.
  - destruct Hst as (c & fin0 & s0 & now & Hfin & (_ & _ & He & _) & pr0 & Hv & Ho). simpl in Hfin. subst fin.
    apply on_endpoint_return in Ho as [-> Hearly]. specialize (He Hearly).
    assert (HV : omap verify (fin0 ++ [c]) = [pr0]) by (rewrite omap_app, He; simpl; by rewrite Hv).
    assert (want = 1) as -> by (unfold early in Hearly; lia).
    pose proof (picked_ztake 1 [pr0] ltac:(lia)) as Hpk. rewrite HV in *. split.
    + split_and!; [done|exact Hpk|by apply Hx].
    + right; left. destruct mode; try done.
Qed.

(** C23: a WireGuard scan for [want] endpoints returns the fastest ones it
    verified that are on different addresses, in ascending order of their
    round-trip times and none of them excluded, or reports that there is none;
    and unless it ran into its deadline or had found enough, it verified all
    the candidates. *)
Theorem wg_scan_correct w ports ip excluded mode want start turns r :
  0 < w_cap w -> 1 <= want ->
  hunt_wg_endpoints w ports ip excluded mode want start turns = Some r ->
  (effective_ip ip (w_ipv6 w) = None /\ r = Err NoCleanEndpoint) \/
  exists ip' candidates rng fin rest,
    effective_ip ip (w_ipv6 w) = Some ip' /\
    build_wg_candidates (w_env w)
      (mkWgStrategy (cap w (wg_base (wg_strategy mode))) (pool_port_waves (wg_strategy mode)))
      ports ip' excluded (w_rng w) = Some (candidates, rng) /\
    candidates ≡ₚ fin ++ rest /\
    (let V := omap (verify_one_wg (w_checks w) (bool_decide (mode = Ironclad))) fin in
     match r with
     | Ok l => V <> [] /\ picked want V l /\ forall x, x ∈ l -> pr_addr x ∉ excluded
     | Err e => e = NoCleanEndpoint /\ V = []
     | _ => False
     end /\
     (rest = [] \/ 0 < wg_target mode want <= zlen V \/ 1 < want <= zlen (distinct_by_ip V) \/
      exists head ev, (head, ev) ∈ turns /\
        (ev = Slept \/ start + overall_deadline (wg_base (wg_strategy mode)) <= head))).
Proof. apply wg_scan. Qed.

(** ** Ranked gateways *)

Lemma on_ranked_fail excluded verify fin l c :
  l = usable verify excluded fin -> verify c = None -> l = usable verify excluded (fin ++ [c]).
Proof. intros -> Hv. by rewrite usable_snoc, Hv, app_nil_r. Qed.

Lemma on_ranked_inv excluded want verify fin l c pr now l' :
  l = usable verify excluded fin -> verify c = Some pr ->
  on_ranked excluded want now l pr = Continue l' \/ on_ranked excluded want now l pr = Break l' ->
  l' = usable verify excluded (fin ++ [c]).
Proof.
  intros -> Hv. rewrite usable_snoc, Hv. unfold on_ranked.
  destruct (decide _); [rewrite app_nil_r|destruct (_ <=? _)]; by intros [[= <-]|[= <-]].
Qed.

(** A ranked scan returns the working gateways it found, fastest first, at most
    [want] of them. *)
Lemma ranked_scan w ports ip mode excluded want start turns r :
  0 < w_cap w -> hunt_ranked_gateways w ports ip mode excluded want start turns = Some r ->
  r = Err NoCleanEndpoint \/
  exists l, r = Ok l /\ StronglySorted rtt_le l /\ (length l <= Z.to_nat want)%nat /\
    forall pr, pr ∈ l -> pr_addr pr ∉ excluded.
Proof.
  intros Hcap Hh. unfold hunt_ranked_gateways in Hh. fold (cap w (strategy mode)) in Hh.
  destruct (effective_ip ip (w_ipv6 w)) as [ip'|]; [right|left; by simplify_eq].
  inv_bind. destruct a as [cands rng]. inv_bind. simplify_eq. set (verify := verify_one _ _ _ _) in *.
  pose proof (scan_loop_rule _ verify (on_ranked excluded want) (fun fin l => l = usable verify excluded fin)
    (on_ranked_fail excluded verify) (on_ranked_inv excluded want verify)
    _ (mkBuffered cands [] _) _ [] _ (cap_positive w mode Hcap) eq_refl E0) as (fin & rest & _ & Hst).
  destruct a as [l|l|pr]; [done| |].
  - destruct Hst as [-> _]. eexists. split; [done|]. split_and!.
    + eapply StronglySorted_sublist; [apply sublist_take|apply sort_by_rtt_sorted].
    + unfold ztake. rewrite length_take. lia.
    + intros pr Hp. assert (pr ∈ usable verify excluded fin) as Hu.
      { rewrite <- sort_by_rtt_perm. eapply elem_of_sublist; [done|apply sublist_take]. }
      by apply list_elem_of_filter in Hu as [? _].
  - destruct Hst as (c & fin0 & s0 & now & _ & _ & pr0 & _ & Ho). unfold on_ranked in Ho.
    destruct (decide _); [done|]. by destruct (_ <=? _).
Qed.

(** C37: every scan ends: it has decided after one turn more than there are
    candidates, whatever finishes first and whatever the clock shows. *)
Theorem scans_terminate w ports ip excluded mode want start turns :
  0 < w_cap w ->
  (forall ip' candidates rng,
     effective_ip ip (w_ipv6 w) = Some ip' ->
     build_candidates (w_env w) (cap w (strategy mode)) ports ip' (w_rng w) = Some (candidates, rng) ->
     (length candidates < length turns)%nat ->
     hunt_best_gateway w ports ip mode excluded start turns <> None /\
     hunt_ranked_gateways w ports ip mode excluded want start turns <> None) /\
  (forall ip' candidates rng,
     effective_ip ip (w_ipv6 w) = Some ip' ->
     build_wg_candidates (w_env w)
       (mkWgStrategy (cap w (wg_base (wg_strategy mode))) (pool_port_waves (wg_strategy mode)))
       ports ip' excluded (w_rng w) = Some (candidates, rng) ->
     (length candidates < length turns)%nat ->
     hunt_wg_endpoints w ports ip excluded mode want start turns <> None).
Proof.
  intros Hcap. split; intros ip' cands rng Hip Hc Hn.
  - assert (forall S dl verify on_item (s : S),
      scan_loop dl verify on_item turns
        (mkBuffered cands [] (Z.to_nat (concurrency (cap w (strategy mode))))) s <> None) as Hs.
    { intros. apply scan_loop_ends; [by apply cap_positive|done]. }
    unfold hunt_best_gateway, hunt_ranked_gateways. fold (cap w (strategy mode)).
    rewrite Hip, Hc. simpl. split; (destruct (scan_loop _ _ _ _ _ _) eqn:E; [done|by apply Hs in E]).
  - unfold hunt_wg_endpoints. fold (cap w (wg_base (wg_strategy mode))). rewrite Hip, Hc. simpl.
    destruct (scan_loop _ _ _ _ _ _) eqn:E; [done|].
    apply scan_loop_ends in E; [done|by apply wg_cap_positive|done].
Qed.

(** ** What a caller needs of the scans *)

Lemma best_gateway_allowed w ports ip mode excluded start turns pr :
  0 < w_cap w -> hunt_best_gateway w ports ip mode excluded start turns = Some (Ok pr) -> pr_addr pr ∉ excluded.
Proof.
  intros Hc Hh. apply gateway_scan in Hh as [[_ Hh]|(? & ? & ? & ? & ? & _ & _ & _ & [Hf _] & _)]; [done| |done].
  by apply list_elem_of_filter in Hf as [? _].
Qed.

Lemma wg_endpoints_allowed w ports ip excluded mode want start turns l :
  0 < w_cap w -> 1 <= want -> hunt_wg_endpoints w ports ip excluded mode want start turns = Some (Ok l) ->
  l <> [] /\ NoDup (map pr_ip l) /\ forall x, x ∈ l -> pr_addr x ∉ excluded.
Proof.
  intros Hc Hw Hh. apply wg_scan in Hh as [[_ Hh]|(? & ? & ? & ? & ? & _ & _ & _ & (HV & Hp & Hx) & _)]; [done| |done..].
  destruct Hp as (Hn & _ & _ & _ & Hall). split_and!; [|done..]. intros ->.
  destruct (omap _ _) as [|y V]; [done|]. destruct (Hall y) as [(z & Hin & _)|[Hz _]]; [left|set_solver|].
  rewrite zlen_nil in Hz. lia.
Qed.

Lemma best_wg_allowed w ports ip excluded mode start turns pr :
  0 < w_cap w -> hunt_best_wg_endpoint w ports ip excluded mode start turns = Some (Ok pr) -> pr_addr pr ∉ excluded.
Proof.
  intros Hc Hh. unfold hunt_best_wg_endpoint in Hh. inv_bind. destruct a as [l|e| |]; [|done..].
  apply wg_endpoints_allowed in E as (_ & _ & Hx); [|done..]. simpl in Hh. destruct l; [done|]. simpl in Hh.
  simplify_eq. apply Hx. left.
Qed.

(** ** Ranges: lemmas *)

Lemma of_be_to_be4 v : 0 <= v < 2 ^ 32 -> of_be (to_be 4 v) = v.
Proof. intros. apply of_be_to_be_small. by change (256 ^ Z.of_nat 4) with (2 ^ 32). Qed.

Lemma parse_cidr_v4_bounds cidr base prefix :
  parse_cidr_v4 cidr = Some (base, prefix) -> 0 <= base < 2 ^ 32 /\ 0 <= prefix.
Proof.
  unfold parse_cidr_v4. intros H. inv_bind. destruct a as [ip pre]. inv_bind. simplify_eq.
  apply parse_ipv4_ok in E0 as [Hl Ho]. apply of_be_bound in Ho. unfold zlen in Ho. rewrite Hl in Ho.
  split; [exact Ho|]. by eapply parse_uint_nonneg.
Qed.

(** The draws that are left decide whether sampling finishes: it does when
    enough different offsets are still to come. *)
Definition host_at (base off : Z) : bytes := to_be 4 (as_u32 (base + off)).
Lemma sample_loop_spec rng base usable want (offs : list Z) :
  0 < usable < 2 ^ 32 - 1 -> zlen offs <= want <= usable ->
  NoDup offs -> Forall (fun off => 1 <= off <= usable) offs ->
  match sample_loop rng base usable want (list_to_set offs) (map (host_at base) offs) with
  | Some (hosts, _) => exists offs', hosts = map (host_at base) offs' /\ NoDup offs' /\ zlen offs' = want /\
      Forall (fun off => 1 <= off <= usable) offs'
  | None => Z.of_nat (size (list_to_set (offs ++ map (fun v => 1 + v mod usable) rng) : gset Z)) < want
  end.
Proof.
  intros Hu. revert offs. induction rng as [|v rng IH]; intros offs Hw Hn Ho; cbn [sample_loop].
  all: unfold as_u32 at 1; rewrite zlen_map, Z.mod_small by (pose proof (zlen_nonneg offs); lia).
  all: destruct (Z.leb_spec want (zlen offs)); [exists offs; split_and!; by try lia|].
  { simpl. rewrite app_nil_r, size_list_to_set by done. exact H. }
  cbn zeta. destruct (decide _) as [Hin|Hout].
  - specialize (IH offs Hw Hn Ho). destruct (sample_loop rng _ _ _ _ _) as [[hosts rng']|]; [done|].
    eapply Z.le_lt_trans; [|exact IH]. apply Nat2Z.inj_le, subseteq_size. set_solver.
  - rewrite elem_of_list_to_set in Hout.
    specialize (IH (offs ++ [1 + v mod usable])). rewrite map_app, list_to_set_app_L in IH.
    replace (list_to_set offs ∪ list_to_set [1 + v mod usable] : gset Z)
      with ({[1 + v mod usable]} ∪ list_to_set offs : gset Z) in IH by set_solver.
    rewrite <- app_assoc in IH. apply IH.
    + autorewrite with slices. lia.
    + apply NoDup_app. split_and!; [done|set_solver|apply NoDup_singleton].
    + apply Forall_app. split; [done|]. constructor; [|done].
      pose proof (Z.mod_pos_bound v usable ltac:(lia)). lia.
Qed.

Lemma range_top base prefix :
  0 <= base < 2 ^ 32 -> 0 <= prefix <= 32 -> base mod 2 ^ (32 - prefix) = 0 -> base + 2 ^ (32 - prefix) <= 2 ^ 32.
Proof.
  intros Hb Hp Ha. apply Z.div_exact in Ha; [|lia].
  assert (2 ^ 32 = 2 ^ (32 - prefix) * 2 ^ prefix) as Hs by (rewrite <- Z.pow_add_r by lia; f_equal; lia).
  set (size := 2 ^ (32 - prefix)) in *. assert (0 < size) by (apply Z.pow_pos_nonneg; lia).
  assert (base / size + 1 <= 2 ^ prefix) by (apply Z.lt_succ_r, Z.lt_succ_l in Hs || nia). nia.
Qed.

Lemma host_at_inj base a b :
  0 <= base -> 0 <= a -> 0 <= b -> base + a < 2 ^ 32 -> base + b < 2 ^ 32 -> host_at base a = host_at base b -> a = b.
Proof.
  unfold host_at, as_u32. intros ????? He. rewrite !Z.mod_small in He by lia.
  apply (f_equal of_be) in He. rewrite !of_be_to_be4 in He by lia. lia.
Qed.

Lemma NoDup_hosts base size l :
  0 <= base -> base + size <= 2 ^ 32 -> Forall (fun off => 1 <= off <= size - 2) l -> NoDup l ->
  NoDup (map (host_at base) l).
Proof.
  intros Hb Hs Hl Hn. apply NoDup_fmap_2_strong; [|done]. rewrite Forall_forall in Hl.
  intros x y Hx%Hl Hy%Hl. apply host_at_inj; lia.
Qed.

Section Range.
Context (cidr : bytes) (base prefix : Z) (Hc : parse_cidr_v4 cidr = Some (base, prefix))
  (Hp : 1 <= prefix <= 30) (Ha : base mod 2 ^ (32 - prefix) = 0).
Let usable : Z := 2 ^ (32 - prefix) - 2.
Let host (h : bytes) : Prop := exists off, 1 <= off <= usable /\ h = to_be 4 (base + off).

Lemma range_facts :
  0 <= base /\ base + 2 ^ (32 - prefix) <= 2 ^ 32 /\ 2 <= usable < 2 ^ 31 /\
  forall off, 1 <= off <= usable -> host (host_at base off).
Proof using Hc Hp Ha.
  pose proof (parse_cidr_v4_bounds _ _ _ Hc) as [Hb _].
  pose proof (range_top base prefix Hb ltac:(lia) Ha) as Htop.
  assert (4 <= 2 ^ (32 - prefix)) by (change 4 with (2 ^ 2); apply Z.pow_le_mono_r; lia).
  assert (2 ^ (32 - prefix) <= 2 ^ 31) by (apply Z.pow_le_mono_r; lia).
  unfold usable. split_and!; [lia..|]. intros off Ho. exists off. split; [done|].
  unfold host_at, as_u32. by rewrite Z.mod_small by lia.
Qed.

Lemma enumerate_range :
  20 <= prefix -> NoDup (enumerate_cidr_v4 cidr) /\ forall h, h ∈ enumerate_cidr_v4 cidr <-> host h.
Proof using Hc Hp Ha.
  intros H20. destruct range_facts as (Hb & Htop & Hu & Hhost).
  unfold enumerate_cidr_v4. rewrite Hc, Z.max_r by lia.
  destruct (Z.eqb_spec (32 - prefix) 0); [lia|]. destruct (Z.ltb_spec 12 (32 - prefix)); [lia|].
  unfold usable in Hu. rewrite Z.shiftl_1_l, Z.max_r by lia.
  change (fun off => to_be 4 (as_u32 (base + off))) with (host_at base). split.
  - apply (NoDup_hosts _ (2 ^ (32 - prefix))); [lia..| |apply NoDup_seqZ].
    apply Forall_forall. intros x Hx%elem_of_seqZ. lia.
  - intros h. split.
    + intros (off & -> & Ho%elem_of_seqZ)%list_elem_of_fmap. apply Hhost. unfold usable. lia.
    + intros (off & Ho & ->). unfold usable in Ho. apply list_elem_of_fmap. exists off.
      unfold host_at, as_u32. rewrite Z.mod_small by lia. split; [done|]. apply elem_of_seqZ. lia.
Qed.

Lemma sample_range n rng :
  0 <= n < 2 ^ 32 ->
  match sample_cidr_v4 cidr n rng with
  | Some (hosts, _) => NoDup hosts /\ zlen hosts = Z.min n usable /\ forall h, h ∈ hosts -> host h
  | None => Z.of_nat (size (list_to_set (map (fun v => 1 + v mod usable) rng) : gset Z)) < Z.min n usable
  end.
Proof using Hc Hp Ha.
  intros Hn. destruct range_facts as (Hb & Htop & Hu & Hhost).
  unfold sample_cidr_v4. rewrite Hc, Z.max_r by lia.
  destruct (Z.leb_spec 32 (32 - prefix)); [lia|]. rewrite Z.shiftl_1_l.
  destruct (Z.leb_spec (2 ^ (32 - prefix)) 2); [unfold usable in Hu; lia|]. fold usable.
  unfold as_u32. rewrite Z.mod_small by lia.
  pose proof (sample_loop_spec rng base usable (Z.min n usable) [] ltac:(lia) ltac:(rewrite zlen_nil; lia)
    ltac:(constructor) ltac:(constructor)) as Hs. simpl in Hs.
  destruct (sample_loop _ _ _ _ _ _) as [[hosts rng']|]; [|done].
  destruct Hs as (offs & -> & Hno & Hlen & Hf). rewrite zlen_map. split_and!; [|done|].
  - by apply (NoDup_hosts _ (2 ^ (32 - prefix))); [lia..|exact Hf|].
  - intros h (off & -> & Ho)%list_elem_of_fmap. apply Hhost. rewrite Forall_forall in Hf. by apply Hf.
Qed.
End Range.

(** The hosts of an IPv4 range of at least four addresses that starts on a
    boundary of its size: enumeration gives each address but the first and the
    last once; sampling gives different ones of them, as many as asked for or
    as there are, as soon as the draws contain enough different offsets. *)
Theorem range_hosts_correct cidr base prefix n rng :
  parse_cidr_v4 cidr = Some (base, prefix) -> 1 <= prefix <= 30 ->
  base mod 2 ^ (32 - prefix) = 0 -> 0 <= n < 2 ^ 32 ->
  let usable := 2 ^ (32 - prefix) - 2 in
  let host h := exists off, 1 <= off <= usable /\ h = to_be 4 (base + off) in
  (20 <= prefix -> NoDup (enumerate_cidr_v4 cidr) /\ forall h, h ∈ enumerate_cidr_v4 cidr <-> host h) /\
  match sample_cidr_v4 cidr n rng with
  | Some (hosts, _) => NoDup hosts /\ zlen hosts = Z.min n usable /\ forall h, h ∈ hosts -> host h
  | None => Z.of_nat (size (list_to_set (map (fun v => 1 + v mod usable) rng) : gset Z)) < Z.min n usable
  end.
Proof. intros Hc Hp Ha Hn. split; [by apply enumerate_range|by apply sample_range]. Qed.

Lemma range_hosts_correct_witness :
  (forall h, h ∈ enumerate_cidr_v4 (str "188.114.96.0/30") <-> exists off, 1 <= off <= 2 /\ h = to_be 4 (3161612288 + off)) /\
  sample_cidr_v4 (str "188.114.96.0/30") 9 [5; 1; 3; 8] = Some ([[188; 114; 96; 2]; [188; 114; 96; 1]], []).
Proof.
  pose proof (range_hosts_correct (str "188.114.96.0/30") 3161612288 30 9 [5; 1; 3; 8]
    ltac:(vm_compute; reflexivity) ltac:(lia) ltac:(reflexivity) ltac:(lia)) as [He _].
  split; [apply He; lia|vm_compute; reflexivity].
Defined.

(** A range that does not start on a boundary of its size is scanned past its
    end: with the last address the user could mean, 188.114.96.255, goes
    188.114.97.198. *)
Lemma unaligned_range_scanned_outside :
  app_normalize_cidr_v4 (str "188.114.96.200/24") = Some (str "188.114.96.200/24") /\
  [188; 114; 97; 198] ∈ enumerate_cidr_v4 (str "188.114.96.200/24") /\
  [188; 114; 96; 100] ∉ enumerate_cidr_v4 (str "188.114.96.200/24").
Proof.
  split; [vm_compute; reflexivity|]. split.
  - apply list_elem_of_In. vm_compute. repeat (try (left; reflexivity); right).
  - apply (bool_decide_unpack _). vm_compute. exact I.
Qed.

(** A manual range of more than 4096 addresses, or of two, has no candidates in
    a scan that enumerates. *)
Lemma wide_range_not_enumerated :
  enumerate_cidr_v4 (str "188.114.0.0/16") = [] /\ enumerate_cidr_v4 (str "188.114.96.0/31") = [].
Proof. split; vm_compute; reflexivity. Qed.

(** ** A scan of a small range, evaluated *)

Definition demo_env : Env := fun key =>
  if bool_decide (key = str "SOILDTUNNEL_SCAN_CIDRS") then Some (str "188.114.96.0/30") else None.
(** 188.114.96.1 answers in 30 ms, 188.114.96.2 in 20 ms, on their first ports. *)
Definition demo_check (a : SocketAddr) : result Z :=
  match sa_ip a with
  | V4 [188; 114; 96; 1] => Ok (from_millis 30)
  | V4 [188; 114; 96; 2] => Ok (from_millis 20)
  | _ => Err NoCleanEndpoint
  end.
Definition demo_world : World :=
  mkWorld demo_env 4 false [] false (mkChecks demo_check demo_check demo_check demo_check demo_check demo_check).
Definition demo_turns : Turns := replicate 5 (0, NextItem 0 0).

Lemma gateway_scan_correct_witness :
  exists fin rest, [(V4 [188; 114; 96; 1], 443); (V4 [188; 114; 96; 2], 443)] ≡ₚ fin ++ rest /\
    fastest (usable (verify_one (w_checks demo_world) false false false) ∅ fin)
      (mkProbe (V4 [188; 114; 96; 2]) 443 (from_millis 20)).
Proof.
  destruct (gateway_scan_correct demo_world [443] ScanV4 Thorough ∅ 0 demo_turns
    (Ok (mkProbe (V4 [188; 114; 96; 2]) 443 (from_millis 20)))
    ltac:(done) ltac:(vm_compute; reflexivity)) as [[H _]|(ip & cands & rng & fin & rest & H1 & H2 & H3 & H4 & _)].
  - discriminate H.
  - exists fin, rest. injection H1 as <-. vm_compute in H2. injection H2 as <- <-. by split.
Defined.

Lemma wg_candidates_rotate_witness :
  build_wg_candidates demo_env (wg_strategy Thorough) [2408; 500] ScanV4 {[sock_new (V4 [188; 114; 96; 2]) 500]} []
    = Some ([(V4 [188; 114; 96; 1], 2408); (V4 [188; 114; 96; 1], 500); (V4 [188; 114; 96; 2], 2408)], []) /\
  NoDup [(V4 [188; 114; 96; 1], 2408); (V4 [188; 114; 96; 1], 500); (V4 [188; 114; 96; 2], 2408)].
Proof.
  assert (H : build_wg_candidates demo_env (wg_strategy Thorough) [2408; 500] ScanV4
    {[sock_new (V4 [188; 114; 96; 2]) 500]} [] =
    Some ([(V4 [188; 114; 96; 1], 2408); (V4 [188; 114; 96; 1], 500); (V4 [188; 114; 96; 2], 2408)], []))
    by (vm_compute; reflexivity).
  split; [exact H|]. exact (proj1 (wg_candidates_rotate _ _ _ _ _ _ _ _ H)).
Defined.

Lemma wg_scan_correct_witness :
  exists fin rest, [(V4 [188; 114; 96; 1], 2408); (V4 [188; 114; 96; 2], 2408)] ≡ₚ fin ++ rest /\
    picked 2 (omap (verify_one_wg (w_checks demo_world) false) fin)
      [mkProbe (V4 [188; 114; 96; 2]) 2408 (from_millis 20); mkProbe (V4 [188; 114; 96; 1]) 2408 (from_millis 30)].
Proof.
  destruct (wg_scan_correct demo_world [2408] ScanV4 ∅ Thorough 2 0 demo_turns
    (Ok [mkProbe (V4 [188; 114; 96; 2]) 2408 (from_millis 20); mkProbe (V4 [188; 114; 96; 1]) 2408 (from_millis 30)])
    ltac:(done) ltac:(done) ltac:(vm_compute; reflexivity))
    as [[H _]|(ip & cands & rng & fin & rest & H1 & H2 & H3 & (_ & H4 & _) & _)].
  - discriminate H.
  - exists fin, rest. injection H1 as <-. vm_compute in H2. injection H2 as <- <-. by split.
Defined.

Lemma scans_terminate_witness :
  hunt_best_gateway demo_world [443] ScanV4 Thorough ∅ 0 demo_turns <> None /\
  hunt_wg_endpoints demo_world [2408] ScanV4 ∅ Thorough 2 0 demo_turns <> None.
Proof.
  split.
  - apply (proj1 (scans_terminate demo_world [443] ScanV4 ∅ Thorough 2 0 demo_turns ltac:(done)) ScanV4
             [(V4 [188; 114; 96; 1], 443); (V4 [188; 114; 96; 2], 443)] []);
      [reflexivity|vm_compute; reflexivity|simpl; lia].
  - apply (proj2 (scans_terminate demo_world [2408] ScanV4 ∅ Thorough 2 0 demo_turns ltac:(done)) ScanV4
             [(V4 [188; 114; 96; 1], 2408); (V4 [188; 114; 96; 2], 2408)] []);
      [reflexivity|vm_compute; reflexivity|simpl; lia].
Defined.
