(* ===== verification/Noize.v ===== *)
(** * Obfuscation

    Models noize.rs (junk before a QUIC handshake) and soildnoize.rs (junk
    around a WireGuard session): the profiles, the small language of packet
    specifications, and the packets each routine sends, with the pauses
    between them.

    Random choices are arguments: [size lo hi] is [gen_range(lo..=hi)], [fill n]
    is what [fill_bytes] writes to a buffer of [n] bytes, [pick n] is
    [gen_range(0..n)], [nonce] is [rand::random]; [now] is the time in seconds.
    A list of packets is produced with one such [Rand] per packet. *)

From Stdlib Require Import ZArith Lia ZifyBool String List.
From stdpp Require Import base list numbers option decidable.
From S2P Require Import Prelude RustStr WireGuard.
Open Scope Z_scope.

(** ** Random choices *)

Record Rand : Type := mkRand {
  gen_incl : Z -> Z -> Z; fill : Z -> bytes; pick_at : Z -> Z -> Z; nonce : Z; clock : Z }.
(** What the generator promises: a number of the range, a full buffer. *)
Class RandOk (r : Rand) : Prop := {
  gen_incl_range : forall lo hi, lo <= hi -> lo <= gen_incl r lo hi <= hi;
  fill_len : forall n, 0 <= n -> zlen (fill r n) = n;
  fill_bytes_ok : forall n, bytes_ok (fill r n);
  pick_at_range : forall i n, 0 < n -> 0 <= pick_at r i n < n }.

Definition one_rand : Rand :=
  mkRand (fun lo _ => lo) (fun n => replicate (Z.to_nat n) 2) (fun i n => i mod n) 7 1700000000.
#[export] Instance one_rand_ok : RandOk one_rand.
Proof.
  split; simpl.
  - lia.
  - intros n Hn. rewrite zlen_replicate. lia.
  - intros n. apply Forall_replicate. unfold is_u8. lia.
  - intros i n Hn. by apply Z.mod_pos_bound.
Qed.

(** A packet sent, and the pause after it in milliseconds. *)
Record Sent : Type := mkSent { s_packet : bytes; s_pause : Z }.

(** [for _ in 0..n { let pkt = gen(); send(pkt); sleep(..) }] with a generator
    state per packet. *)
Definition send_each (rs : list Rand) (n : Z) (f : Rand -> Sent) : list Sent := map f (ztake n rs).

(** ** noize.rs *)

Module ForQuic.

Record NoizeConfig : Type := mkNoize {
  jc_before_hs : Z; jc_after_i1 : Z; jmin : Z; jmax : Z; i1 : option bytes; i2 : option bytes; junk_interval : Z }.

Definition off : NoizeConfig := mkNoize 0 0 0 0 None None 0.
Definition firewall : NoizeConfig :=
  mkNoize 2 2 48 190 (Some (str "<b 0d0a0d0a><t><r 24>")) (Some (str "<r 48>")) 4.
Definition light : NoizeConfig := mkNoize 1 0 32 96 (Some (str "<b 0d0a0d0a><t><r 16>")) None 3.
Definition gfw : NoizeConfig :=
  mkNoize 2 1 64 256 (Some (str "<b 0d0a0d0a><t><r 24>")) (Some (str "<r 32>")) 5.

Definition is_enabled (c : NoizeConfig) : bool :=
  (0 <? jc_before_hs c) || (0 <? jc_after_i1 c) || match i1 c with Some _ => true | None => false end.

Definition from_profile (name : bytes) : NoizeConfig :=
  if bool_decide (name = str "off") || bool_decide (name = str "none") then off
  else if bool_decide (name = str "light") then light
  else if bool_decide (name = str "gfw") || bool_decide (name = str "aggressive") || bool_decide (name = str "heavy")
  then gfw
  else firewall.

Definition junk_packet (c : NoizeConfig) (r : Rand) : bytes :=
  let '(lo, hi) := if (jmin c <? jmax c) && (0 <? jmin c) then (jmin c, jmax c) else (40, 90) in
  fill r (gen_incl r lo hi).

Section Cps.
Context `{Target} (r : Rand).

(** One tag of a specification. *)
Definition tag_bytes (tag data : bytes) : bytes :=
  if bool_decide (tag = str "b") then
    match hex_decode (concat (split_whitespace data)) with Some decoded => decoded | None => [] end
  else if bool_decide (tag = str "t") then to_be 4 (as_u32 (clock r))
  else if bool_decide (tag = str "n") then to_be 8 (nonce r)
  else if bool_decide (tag = str "r") then
    let len := Z.min (default 0 (parse_usize data)) 1024 in
    if 0 <? len then fill r len else []
  else [].

(** [inner.splitn(2, char::is_whitespace)]: up to the first white space, and
    what follows it. *)
Fixpoint split_ws (s : bytes) : bytes * bytes :=
  match s with
  | [] => ([], [])
  | b :: s' =>
      if is_ws1 b then ([], s')
      else
        match s' with
        | c :: s2 =>
            if is_ws2 b c then ([], s2)
            else match s2 with
                 | d :: s3 => if is_ws3 b c d then ([], s3)
                              else let '(x, y) := split_ws s' in (b :: x, y)
                 | [] => let '(x, y) := split_ws s' in (b :: x, y)
                 end
        | [] => ([b], [])
        end
  end.

(** The [while] of [parse_cps]; [spec] is what lies after the index, and the
    fuel is its length. *)
Fixpoint parse_cps_fuel (fuel : nat) (spec : bytes) : bytes :=
  match fuel, spec with
  | S fuel, b :: rest =>
      if negb (b =? 60) then parse_cps_fuel fuel rest
      else
        match split_once 62 rest with
        | None => []
        | Some (inner, rest) =>
            let '(tag, data) := split_ws (trim inner) in
            tag_bytes tag (trim data) ++ parse_cps_fuel fuel rest
        end
  | _, _ => []
  end.
Definition parse_cps (spec : bytes) : bytes := parse_cps_fuel (length spec) spec.
End Cps.

(** [pre_handshake]: the packets it sends; [rs] are the random choices for the
    junk before and after the first signature, [r1] and [r2] for the two
    signatures. *)
Definition pre_handshake `{Target} (c : NoizeConfig) (before after : list Rand) (r1 r2 : Rand) : list Sent :=
  if negb (is_enabled c) then []
  else
    send_each before (jc_before_hs c) (fun r => mkSent (junk_packet c r) (junk_interval c))
    ++ match i1 c with
       | Some i => match parse_cps r1 i with [] => [] | pkt => [mkSent pkt 2] end
       | None => []
       end
    ++ send_each after (jc_after_i1 c) (fun r => mkSent (junk_packet c r) (junk_interval c))
    ++ match i2 c with
       | Some i => match parse_cps r2 i with [] => [] | pkt => [mkSent pkt 0] end
       | None => []
       end.

End ForQuic.

(** ** soildnoize.rs *)

Module ForWg.

Record SoildNoizeConfig : Type := mkSoild {
  i1 : option bytes; i2 : option bytes; i3 : option bytes; i4 : option bytes; i5 : option bytes;
  jc : Z; jc_before_hs : Z; jc_after_i1 : Z; jc_after_hs : Z; jmin : Z; jmax : Z;
  junk_interval : Z; handshake_delay : Z; allow_zero_size : bool }.

Definition off : SoildNoizeConfig := mkSoild None None None None None 0 0 0 0 0 0 0 0 false.
Definition light : SoildNoizeConfig :=
  mkSoild (Some (str "<b 0d0a0d0a><t><r 20-32>")) (Some (str "<rc 24-48>")) None None None
    4 2 1 1 48 190 3 5 false.
Definition balanced : SoildNoizeConfig :=
  mkSoild (Some (str "<b 0d0a0d0a><t><rc 20-40>")) (Some (str "<b 504f5354><rd 10-20><rc 20-30>"))
    (Some (str "<r 30-50>")) None None 6 3 2 1 64 256 2 8 false.
Definition aggressive : SoildNoizeConfig :=
  mkSoild (Some (str "<b 0d0a0d0a><t><rc 40-64>")) (Some (str "<b 504f5354><t><rd 15-30><rc 30-50>"))
    (Some (str "<b 474554><rc 40-60>")) (Some (str "<r 60-100>")) (Some (str "<c><rd 20-40>"))
    10 4 3 3 80 384 1 12 false.

Definition is_enabled (c : SoildNoizeConfig) : bool :=
  (0 <? jc c) || match i1 c with Some _ => true | None => false end.

Definition from_profile (name : bytes) : SoildNoizeConfig :=
  if bool_decide (name = str "off") || bool_decide (name = str "none") then off
  else if bool_decide (name = str "light") then light
  else if bool_decide (name = str "aggressive") || bool_decide (name = str "heavy") then aggressive
  else balanced.

Definition parse_range `{Target} (data : bytes) (r : Rand) : Z :=
  let plain := Z.min (default 0 (parse_usize (trim data))) 2048 in
  match split (Z.eqb 45) data with
  | min_str :: max_str :: _ =>
      let min := default 0 (parse_usize (trim min_str)) in
      let max := default 0 (parse_usize (trim max_str)) in
      if (min <? max) && (0 <? min) then Z.min (gen_incl r min max) 2048 else plain
  | _ => plain
  end.

(** The regular expression of [parse_cps], an opening bracket, a group of
    lower-case letters, white space, a group of anything but a closing bracket,
    and that bracket: the two groups of each of its matches, in order.  The regex crate finds the
    leftmost match and goes on after it, so that on tags written one after the
    other it finds the tags. *)
Definition is_name (name : bytes) : Prop := name <> [] /\ Forall (fun b => is_ascii_lower b = true) name.
Definition is_data (data : bytes) : Prop :=
  Forall (fun b => b <> 62) data /\
  match data with b :: _ => is_ascii_lower b = false /\ 0 <= b < 128 /\ is_ws1 b = false | [] => True end.
Definition render_tag (t : bytes * bytes) : bytes :=
  60 :: t.1 ++ (match t.2 with [] => [] | _ => 32 :: t.2 end) ++ [62].
Class TagRegex : Type := {
  captures_iter : bytes -> list (bytes * bytes);
  captures_tags : forall ts, Forall (fun t => is_name t.1 /\ is_data t.2) ts ->
    captures_iter (concat (map render_tag ts)) = ts }.

Definition alphabet : bytes := str "abcdefghijklmnopqrstuvwxyzABCDEFGHIJKLMNOPQRSTUVWXYZ".
Definition digits : bytes := str "0123456789".
(** [len] characters of a set, each drawn on its own. *)
Definition drawn (chars : bytes) (len : Z) (r : Rand) : bytes :=
  map (fun i => default 0 (zget chars (pick_at r i (zlen chars)))) (seqZ 0 len).

(** One match in the loop of [parse_cps]. *)
Definition tag_bytes `{Target} (r : Rand) (tag data : bytes) : bytes :=
  if bool_decide (tag = str "b") then
    let hex_str := concat (split_whitespace data) in
    let clean := match strip_prefix hex_str (str "0x") with
                 | Some s => s
                 | None => default hex_str (strip_prefix hex_str (str "0X"))
                 end in
    match hex_decode clean with Some decoded => decoded | None => [] end
  else if bool_decide (tag = str "t") then to_be 4 (as_u32 (clock r))
  else if bool_decide (tag = str "c") then to_be 4 (as_u32 (clock r mod 0xFFFFFFFF))
  else if bool_decide (tag = str "r") then
    let len := parse_range data r in if 0 <? len then fill r len else []
  else if bool_decide (tag = str "rc") then
    let len := parse_range data r in if 0 <? len then drawn alphabet len r else []
  else if bool_decide (tag = str "rd") then
    let len := parse_range data r in if 0 <? len then drawn digits len r else []
  else [].
Definition parse_cps `{Target, TagRegex} (r : Rand) (spec : bytes) : bytes :=
  concat (map (fun t => tag_bytes r t.1 (trim t.2)) (captures_iter spec)).

Definition wrap_ikev2 (payload : bytes) (r : Rand) : bytes :=
  match payload with
  | [] => []
  | _ =>
      let initiator_spi := if 8 <=? zlen payload then ztake 8 payload else fill r 8 in
      let responder_spi := fill r 8 in
      let total_length := as_u32 (28 + 24 + as_u32 (zlen payload)) in
      let sa_payload_length := as_u16 (24 + as_u16 (zlen payload)) in
      initiator_spi ++ responder_spi ++ [0x21; 0x20; 0x22; 0x08] ++ [0; 0; 0; 0]
      ++ to_be 4 total_length
      ++ [0; 0] ++ to_be 2 sa_payload_length
      ++ [0x00; 0x00; 0x00; 0x14; 0x01; 0x01; 0x00; 0x04; 0x03; 0x00; 0x00; 0x08; 0x01; 0x00;
          0x00; 0x0c; 0x00; 0x00; 0x00; 0x00]
      ++ payload
  end.

Definition generate_junk (c : SoildNoizeConfig) (r : Rand) : bytes :=
  let nothing := if allow_zero_size c then [] else [0] in
  if (jmin c =? 0) && (jmax c =? 0) then nothing
  else
    let '(min_size, max_size) :=
      if (jmax c =? 0) && negb (allow_zero_size c) then (Z.max (jmin c) 1, Z.max (jmin c) 1)
      else if negb (allow_zero_size c) then (Z.max (jmin c) 1, Z.max (jmax c) (jmin c))
      else (jmin c, Z.max (jmax c) (jmin c)) in
    let size := if max_size =? min_size then min_size else gen_incl r min_size max_size in
    if size =? 0 then nothing else fill r size.

(** [apply_obfuscation]: the packets and the delay before the handshake. *)
Definition signature `{Target, TagRegex} (pause : Z) (i : option bytes) (r : Rand) : list Sent :=
  match i with
  | Some s => match parse_cps r s with [] => [] | pkt => [mkSent pkt pause] end
  | None => []
  end.
Definition apply_obfuscation `{Target, TagRegex} (c : SoildNoizeConfig) (after before : list Rand) (r : Rand)
  : list Sent * Z :=
  if negb (is_enabled c) then ([], 0)
  else
    (match i1 c with
     | Some s => match parse_cps r s with [] => [] | payload => [mkSent (wrap_ikev2 payload r) 2] end
     | None => []
     end
     ++ send_each after (jc_after_i1 c) (fun r => mkSent (generate_junk c r) (junk_interval c))
     ++ send_each before (jc_before_hs c) (fun r => mkSent (generate_junk c r) (junk_interval c))
     ++ signature 1 (i2 c) r ++ signature 1 (i3 c) r ++ signature 1 (i4 c) r ++ signature 1 (i5 c) r,
     handshake_delay c).

Definition send_post_handshake_junk (c : SoildNoizeConfig) (rs : list Rand) : list Sent :=
  send_each rs (jc_after_hs c) (fun r => mkSent (generate_junk c r) (junk_interval c)).

(** A first byte that would make the junk a WireGuard message is moved away. *)
Definition keepalive_packet (c : SoildNoizeConfig) (r : Rand) : bytes :=
  match generate_junk c r with
  | first :: rest => (if (1 <=? first) && (first <=? 4) then as_u8 (first + 0x40) else first) :: rest
  | [] => []
  end.
Definition send_keepalive_junk (c : SoildNoizeConfig) (rs : list Rand) (r0 : Rand) : list Sent :=
  if negb (is_enabled c) then []
  else
    let base := Z.max (jc_before_hs c) 1 in
    let extra := gen_incl r0 0 base in
    send_each rs (base + extra)
      (fun r => mkSent (keepalive_packet c r) (junk_interval c + gen_incl r 0 8)).

(** ** Properties *)

Lemma generate_junk_size c r :
  RandOk r -> 0 <= jmin c -> 0 <= jmax c -> allow_zero_size c = false ->
  1 <= zlen (generate_junk c r) <= Z.max 1 (Z.max (jmin c) (jmax c)).
Proof.
  intros Hr Hmin Hmax Ha. unfold generate_junk. rewrite Ha. simpl.
  destruct ((jmin c =? 0) && (jmax c =? 0)) eqn:E; [rewrite zlen_cons, zlen_nil; lia|].
  destruct (jmax c =? 0) eqn:E2; simpl.
  - rewrite Z.eqb_refl. destruct (Z.eqb_spec (Z.max (jmin c) 1) 0); [lia|]. rewrite fill_len by lia. lia.
  - set (lo := Z.max (jmin c) 1). set (hi := Z.max (jmax c) (jmin c)).
    assert (lo <= hi) by lia. pose proof (gen_incl_range lo hi ltac:(done)).
    destruct (Z.eqb_spec hi lo).
    + destruct (Z.eqb_spec lo 0); [lia|]. rewrite fill_len by lia. lia.
    + destruct (Z.eqb_spec (gen_incl r lo hi) 0); [lia|]. rewrite fill_len by lia. lia.
Qed.

(** No junk that is sent as a keepalive can be taken for a WireGuard
    message, whatever the profile and the random bytes are. *)
Theorem keepalive_junk_not_wireguard c rs r0 s :
  s ∈ send_keepalive_junk c rs r0 -> is_message (s_packet s) = false.
Proof.
  unfold send_keepalive_junk. destruct (negb _); [by intros ?%elem_of_nil|].
  intros (r & -> & _)%list_elem_of_fmap. simpl. unfold keepalive_packet.
  destruct (generate_junk c r) as [|b l]; [done|]. unfold is_message, WG_MSG_TYPE_MIN, WG_MSG_TYPE_MAX.
  destruct ((1 <=? b) && (b <=? 4)) eqn:E; [|lia]. unfold as_u8. rewrite Z.mod_small by lia. lia.
Qed.

Lemma keepalive_junk_not_wireguard_witness :
  exists s, send_keepalive_junk balanced (replicate 3 one_rand) one_rand = [s; s; s] /\ is_message (s_packet s) = false.
Proof.
  eexists. split; [vm_compute; reflexivity|].
  apply (keepalive_junk_not_wireguard balanced (replicate 3 one_rand) one_rand). vm_compute. left.
Defined.

(** The frame around the first signature: both length fields are right, and
    the payload is what follows the headers. *)
Lemma wrap_ikev2_well_formed payload r :
  RandOk r -> payload <> [] -> zlen payload < 65512 ->
  let pkt := wrap_ikev2 payload r in
  get_range pkt 24 28 = Some (to_be 4 (zlen pkt)) /\
  get_range pkt 30 32 = Some (to_be 2 (24 + zlen payload)) /\
  get_range pkt 52 (zlen pkt) = Some payload.
Proof.
  intros Hr Hp Hl. cbv zeta. unfold wrap_ikev2. destruct payload as [|b l]; [done|].
  set (payload := b :: l) in *. pose proof (zlen_nonneg payload).
  set (spi := if 8 <=? zlen payload then ztake 8 payload else fill r 8).
  assert (zlen spi = 8) as Hspi.
  { unfold spi. destruct (Z.leb_spec 8 (zlen payload)); [rewrite zlen_ztake|rewrite fill_len]; lia. }
  pose proof (fill_len (r := r) 8 ltac:(lia)) as Hresp. unfold as_u32, as_u16.
  rewrite !(Z.mod_small (zlen payload)), !(Z.mod_small (_ + zlen payload)) by lia. cbv zeta.
  set (body := [0x00; 0x00; 0x00; 0x14; 0x01; 0x01; 0x00; 0x04; 0x03; 0x00; 0x00; 0x08; 0x01; 0x00;
    0x00; 0x0c; 0x00; 0x00; 0x00; 0x00]).
  set (head := spi ++ fill r 8 ++ [0x21; 0x20; 0x22; 0x08] ++ [0; 0; 0; 0]).
  assert (zlen head = 24) as Hhead by (unfold head; rewrite !zlen_app, Hspi, Hresp; done).
  set (total := 28 + 24 + zlen payload). set (sa := 24 + zlen payload).
  replace (spi ++ _) with (head ++ to_be 4 total ++ [0; 0] ++ to_be 2 sa ++ body ++ payload)
    by (unfold head; by rewrite <- !app_assoc).
  assert (zlen (head ++ to_be 4 total ++ [0; 0] ++ to_be 2 sa ++ body ++ payload) = total) as ->
    by (rewrite !zlen_app, !zlen_to_be, Hhead; change (zlen body) with 20; change (zlen [0; 0]) with 2;
        unfold total; lia).
  split_and!.
  - apply get_range_mid; rewrite Hhead; [done|by rewrite zlen_to_be].
  - rewrite (app_assoc head), (app_assoc (head ++ _)).
    apply get_range_mid; rewrite !zlen_app, !zlen_to_be, Hhead; done.
  - rewrite (app_assoc head), (app_assoc (head ++ _)), (app_assoc ((head ++ _) ++ _)), app_assoc.
    apply get_range_suffix; rewrite !zlen_app, !zlen_to_be, Hhead;
      change (zlen body) with 20; change (zlen [0; 0]) with 2; [done|]. unfold total. lia.
Qed.
End ForWg.
