(* ===== verification/ApiFront.v ===== *)
(** * The camouflaged route to the API

    Models apifront.rs, the HTTP/1.1 client that reaches the account API
    through random addresses of the edge: the candidate addresses, the request,
    the response with its chunked bodies, and [fetch], which tries every TLS
    fingerprint on every address.  TCP, TLS and the name lookup are answers. *)

From Stdlib Require Import ZArith Lia ZifyBool String List.
From stdpp Require Import base list numbers option decidable.
From S2P Require Import Prelude RustStr NetAddr Errors Fragment.
Open Scope Z_scope.

Definition EDGE_PREFIX : bytes := [141; 101; 113].
Definition EDGE_SAMPLES : Z := 3.
Definition RESOLVED_SAMPLES : Z := 2.
Definition MAX_BODY : Z := 512 * 1024.
Definition CRLF : bytes := [13; 10].

(** ** Fingerprints *)

Inductive Fingerprint : Type := SplitLegacy | Modern | ChromeLike.
Definition label (f : Fingerprint) : bytes :=
  match f with
  | SplitLegacy => str "split-tls12"
  | Modern => str "plain-tls13"
  | ChromeLike => str "chrome"
  end.
Definition fingerprints : list Fingerprint := [SplitLegacy; Modern; ChromeLike].
Definition fragments (f : Fingerprint) : FragmentConfig :=
  match f with
  | SplitLegacy => mkFrag true 24 48 2 8
  | _ => disabled
  end.

(** ** Addresses to try *)

(** [host] is the draw [gen_range(1..=254)]. *)
Definition edge_address (host : Z) : SocketAddr := sock_new (V4 (EDGE_PREFIX ++ [host])) 443.
Definition push_new (acc : list SocketAddr) (a : SocketAddr) : list SocketAddr :=
  if decide (a ∈ acc) then acc else acc ++ [a].
(** The [while] over random addresses; [None] when the draws given run out. *)
Fixpoint sample_edges (draws : list Z) (acc : list SocketAddr) : option (list SocketAddr) :=
  if EDGE_SAMPLES <=? zlen acc then Some acc
  else match draws with
       | [] => None
       | host :: draws => sample_edges draws (push_new acc (edge_address host))
       end.
(** [resolved]: the answer of [lookup_host((host, 443))]. *)
Definition candidates (draws : list Z) (resolved : option (list SocketAddr)) : option (list SocketAddr) :=
  let? edges := sample_edges draws [] in
  Some match resolved with
       | Some addresses =>
           fold_left push_new (ztake RESOLVED_SAMPLES (List.filter is_ipv4 addresses)) edges
       | None => edges
       end.

(** ** Requests *)

Record ApiRequest : Type := mkRequest {
  rq_method : bytes; rq_host : bytes; rq_path : bytes; rq_headers : list (bytes * bytes); rq_body : option bytes }.
Record ApiResponse : Type := mkResponse { rs_status : Z; rs_body : bytes; rs_route : bytes }.

Definition render_request (r : ApiRequest) : bytes :=
  rq_method r ++ str " " ++ rq_path r ++ str " HTTP/1.1" ++ CRLF
  ++ str "Host: " ++ rq_host r ++ CRLF
  ++ concat (map (fun h => h.1 ++ str ": " ++ h.2 ++ CRLF) (rq_headers r))
  ++ str "Accept-Encoding: identity" ++ CRLF
  ++ str "Content-Length: " ++ dec_str (match rq_body r with Some b => zlen b | None => 0 end) ++ CRLF
  ++ str "Connection: close" ++ CRLF ++ CRLF
  ++ match rq_body r with Some b => b | None => [] end.

(** ** Responses *)

Section Responses.
Context `{Target} `{UnicodeTables}.

(** The loop of [dechunk].  The sum [start + size] wraps around. *)
Fixpoint dechunk_fuel (fuel : nat) (body : bytes) (cursor : Z) (out : bytes) : result bytes :=
  match fuel with
  | O => OutOfFuel
  | S fuel =>
      if zlen body <=? cursor then Ok out
      else
        let! rest := str_range body cursor (zlen body) in
        match split_once_str CRLF rest with
        | None => Ok out
        | Some (line, _) =>
            let line_end := cursor + zlen line in
            let! line := str_range body cursor line_end in
            let token := trim (match split (Z.eqb 59) line with t :: _ => t | [] => [] end) in
            match from_str_radix16 usize_max token with
            | Some 0 | None => Ok out
            | Some size =>
                let start := line_end + 2 in
                let end_ := as_usize (start + size) in
                if zlen body <? end_ then Ok out
                else
                  let! piece := str_range body start end_ in
                  dechunk_fuel fuel body (end_ + 2) (out ++ piece)
            end
        end
  end.
Definition dechunk (body : bytes) : result bytes := dechunk_fuel (S (length body)) body 0 [].

Definition chunked_header (line : bytes) : bool :=
  let lowered := to_lowercase line in
  starts_with lowered (str "transfer-encoding:") && contains lowered (str "chunked").

Definition parse_response (raw : bytes) : result (Z * bytes) :=
  let text := from_utf8_lossy raw in
  match split_once_str (CRLF ++ CRLF) text with
  | None => Err (Api (str "truncated response head"))
  | Some (head, body) =>
      match split_str CRLF head with
      | [] => Err (Api (str "empty response"))
      | status_line :: lines =>
          match (let? token := split_whitespace status_line !! 1%nat in parse_u16 token) with
          | None => Err (Api (str "bad status line: " ++ status_line))
          | Some status =>
              if existsb chunked_header lines
              then let! body := dechunk body in Ok (status, body)
              else Ok (status, body)
          end
      end
  end.

(** ** One exchange, and all of them *)

(** The reads of the response: until the end, or past [MAX_BODY]. *)
Fixpoint collect (chunks : list bytes) (buffer : bytes) : bytes :=
  match chunks with
  | [] => buffer
  | c :: chunks =>
      let buffer := buffer ++ c in
      if MAX_BODY <? zlen buffer then buffer else collect chunks buffer
  end.

(** What the connection to an address answers: a failure on the way, or the
    protocol TLS negotiated and the pieces of the response. *)
Inductive answer : Type :=
| Failed (e : bytes)
| Answered (alpn_h2 : bool) (chunks : list bytes).

Definition exchange (address : SocketAddr) (f : Fingerprint) (a : answer) : result ApiResponse :=
  match a with
  | Failed e => Err (Api e)
  | Answered true _ =>
      Err (Api (sock_str address ++ str " negotiated http/2 which this path does not speak"))
  | Answered false chunks =>
      let! '(status, body) := parse_response (collect chunks []) in
      Ok (mkResponse status body (sock_str address ++ str " / " ++ label f))
  end.

(** The nested loops of [fetch]: [attempts] are the pairs they go through. *)
Fixpoint fetch_loop (answers : Fingerprint -> SocketAddr -> answer) (attempts : list (Fingerprint * SocketAddr))
    (rejection : option ApiResponse) (failure : option SoildTunnelError) : result ApiResponse :=
  match attempts with
  | [] =>
      match rejection with
      | Some response => Ok response
      | None => Err (match failure with Some e => e | None => Api (str "every camouflaged route failed") end)
      end
  | (f, a) :: attempts =>
      match exchange a f (answers f a) with
      | Ok response =>
          if (200 <=? rs_status response) && (rs_status response <? 300) then Ok response
          else
            let rejection :=
              match rejection with
              | None => Some response
              | Some r => if negb (rs_status response =? 403) then Some response else Some r
              end in
            fetch_loop answers attempts rejection failure
      | Err e => fetch_loop answers attempts rejection (Some e)
      | Panic => Panic
      | OutOfFuel => OutOfFuel
      end
  end.
Definition attempts (addresses : list SocketAddr) : list (Fingerprint * SocketAddr) :=
  concat (map (fun f => map (fun a => (f, a)) addresses) fingerprints).
Definition fetch (addresses : list SocketAddr) (answers : Fingerprint -> SocketAddr -> answer) : result ApiResponse :=
  match addresses with
  | [] => Err (Api (str "no camouflaged route to the api was available"))
  | _ => fetch_loop answers (attempts addresses) None None
  end.
End Responses.

(** ** Chunked bodies *)

(** A chunk as it is sent: the line with its size, and its data. *)
Record Chunk : Type := mkChunk { ck_line : bytes; ck_data : bytes }.
Definition size_of `{Target} (line : bytes) : option Z :=
  from_str_radix16 usize_max (trim (match split (Z.eqb 59) line with t :: _ => t | [] => [] end)).
Definition line_ok (line : bytes) : Prop := (forall c, c ∈ line -> c <> 13) /\ utf8_valid line = true.
Definition chunk_ok `{Target} (c : Chunk) : Prop :=
  line_ok (ck_line c) /\ utf8_valid (ck_data c) = true /\ ck_data c <> [] /\
  size_of (ck_line c) = Some (zlen (ck_data c)).
Definition render_chunk (c : Chunk) : bytes := ck_line c ++ CRLF ++ ck_data c ++ CRLF.
(** A body ends with a line of size zero and whatever follows it. *)
Definition render_body (cs : list Chunk) (last trailer : bytes) : bytes :=
  concat (map render_chunk cs) ++ last ++ CRLF ++ trailer.

Lemma boundary_app p q : utf8_valid q = true -> is_char_boundary (p ++ q) (zlen p) = true.
Proof.
  intros Hq. unfold is_char_boundary. destruct q as [|b q].
  - rewrite app_nil_r, Z.eqb_refl. by rewrite orb_true_r.
  - rewrite zget_app_r, Z.sub_diag by lia. simpl. by rewrite (utf8_valid_head b q Hq), !orb_true_r.
Qed.

Lemma str_range_app {E} p m q :
  utf8_valid (m ++ q) = true -> utf8_valid q = true ->
  str_range (E := E) (p ++ m ++ q) (zlen p) (zlen p + zlen m) = Ok m.
Proof.
  intros Hm Hq. unfold str_range. rewrite boundary_app by done.
  pose proof (boundary_app (p ++ m) q Hq) as Hb. rewrite <- app_assoc, zlen_app in Hb. rewrite Hb. simpl.
  unfold idx_range. by rewrite (get_range_mid p m q).
Qed.

Lemma find_crlf line s : line_ok line -> split_once_str CRLF (line ++ CRLF ++ s) = Some (line, s).
Proof.
  intros [Hl _]. apply split_once_str_app; [|done]. intros b c y [= <- _] Hc. by apply Hl.
Qed.

Section Dechunk.
Context `{Target}.

Lemma dechunk_line fuel p line s out :
  line_ok line -> utf8_valid s = true ->
  dechunk_fuel (S fuel) (p ++ line ++ CRLF ++ s) (zlen p) out =
  match size_of line with
  | Some 0 | None => Ok out
  | Some size =>
      let end_ := as_usize (zlen p + zlen line + 2 + size) in
      if zlen (p ++ line ++ CRLF ++ s) <? end_ then Ok out
      else
        let! piece := str_range (p ++ line ++ CRLF ++ s) (zlen p + zlen line + 2) end_ in
        dechunk_fuel fuel (p ++ line ++ CRLF ++ s) (end_ + 2) (out ++ piece)
  end.
Proof.
  intros Hl Hs. cbn [dechunk_fuel].
  assert (Hv2 : utf8_valid (CRLF ++ s) = true) by (apply utf8_valid_app; done).
  assert (Hv : utf8_valid (line ++ CRLF ++ s) = true) by (apply utf8_valid_app; [apply Hl|done]).
  assert (zlen (p ++ line ++ CRLF ++ s) <=? zlen p = false) as ->.
  { rewrite !zlen_app. change (zlen CRLF) with 2. pose proof (zlen_nonneg line). pose proof (zlen_nonneg s). lia. }
  pose proof (str_range_app (E := SoildTunnelError) p (line ++ CRLF ++ s) []) as Hr.
  rewrite app_nil_r, <- zlen_app in Hr. rewrite Hr by done. cbn [obind]. rewrite find_crlf by done.
  rewrite (str_range_app p line (CRLF ++ s)) by done. cbn [obind]. unfold size_of. reflexivity.
Qed.

Lemma dechunk_chunk fuel p c s out :
  chunk_ok c -> utf8_valid s = true -> zlen (p ++ render_chunk c ++ s) < 2 ^ usize_bits ->
  dechunk_fuel (S fuel) (p ++ render_chunk c ++ s) (zlen p) out =
  dechunk_fuel fuel ((p ++ render_chunk c) ++ s) (zlen (p ++ render_chunk c)) (out ++ ck_data c).
Proof.
  intros (Hl & Hd & Hne & Hsz) Hs Hlen. unfold render_chunk in *.
  destruct c as [line data]. cbn [ck_line ck_data] in *.
  assert (Hv : utf8_valid (CRLF ++ s) = true) by (apply utf8_valid_app; done).
  assert (Hv2 : utf8_valid (data ++ CRLF ++ s) = true) by (by apply utf8_valid_app).
  rewrite <- !app_assoc. rewrite <- !app_assoc in Hlen. rewrite dechunk_line by done. rewrite Hsz.
  assert (0 < zlen data) by (destruct data; [done|rewrite zlen_cons; pose proof (zlen_nonneg data); lia]).
  pose proof (zlen_nonneg p). pose proof (zlen_nonneg line). pose proof (zlen_nonneg s).
  set (body := p ++ line ++ CRLF ++ data ++ CRLF ++ s) in *.
  assert (Hbody : zlen body = zlen p + zlen line + 2 + zlen data + 2 + zlen s)
    by (unfold body; rewrite !zlen_app; change (zlen CRLF) with 2; lia).
  destruct (zlen data) eqn:E; [lia| |lia]. rewrite <- E in *. cbv zeta.
  unfold as_usize. rewrite Z.mod_small by lia. destruct (Z.ltb_spec (zlen body) (zlen p + zlen line + 2 + zlen data)); [lia|].
  assert (Hbody2 : body = (p ++ line ++ CRLF) ++ data ++ CRLF ++ s) by (unfold body; by rewrite <- !app_assoc).
  pose proof (str_range_app (E := SoildTunnelError) (p ++ line ++ CRLF) data (CRLF ++ s) Hv2 Hv) as Hr.
  rewrite <- Hbody2, !zlen_app in Hr. change (zlen CRLF) with 2 in Hr.
  replace (zlen p + (zlen line + 2)) with (zlen p + zlen line + 2) in Hr by lia. rewrite Hr. cbn [obind].
  f_equal. rewrite !zlen_app. change (zlen CRLF) with 2. lia.
Qed.

Lemma render_body_valid cs last trailer :
  Forall chunk_ok cs -> line_ok last -> utf8_valid trailer = true -> utf8_valid (render_body cs last trailer) = true.
Proof.
  intros Hcs Hl Ht. unfold render_body. apply utf8_valid_app.
  - induction Hcs as [|c cs (Hc & Hd & _) _ IH]; [done|]. simpl. apply utf8_valid_app; [|done].
    unfold render_chunk. repeat apply utf8_valid_app; try done. apply Hc.
  - repeat apply utf8_valid_app; try done. apply Hl.
Qed.

Lemma dechunk_body cs last trailer fuel p out :
  Forall chunk_ok cs -> line_ok last -> size_of last = Some 0 -> utf8_valid trailer = true ->
  zlen (p ++ render_body cs last trailer) < 2 ^ usize_bits -> (length cs < fuel)%nat ->
  dechunk_fuel fuel (p ++ render_body cs last trailer) (zlen p) out = Ok (out ++ concat (map ck_data cs)).
Proof.
  intros Hcs Hl Hz Ht. revert fuel p out. induction Hcs as [|c cs Hc Hcs IH]; intros fuel p out Hlen Hf.
  - destruct fuel; [simpl in Hf; lia|]. unfold render_body. simpl concat. rewrite app_nil_l.
    rewrite dechunk_line by done. rewrite Hz, app_nil_r. done.
  - destruct fuel as [|fuel]; [lia|]. assert (Hr : render_body (c :: cs) last trailer = render_chunk c ++ render_body cs last trailer)
      by (unfold render_body; simpl; by rewrite <- app_assoc).
    rewrite Hr in *. rewrite dechunk_chunk; [|done|by apply render_body_valid|done].
    rewrite app_assoc in Hlen. rewrite IH; [|done|simpl in Hf; lia].
    simpl. by rewrite <- app_assoc.
Qed.
End Dechunk.

(** A chunked response: when its head names a status and the chunked coding
    and its chunks are each well-formed text, with their sizes in hexadecimal
    and optional extensions, the body is the data of the chunks in order. *)
Theorem chunked_body_reassembled `{Target} `{UnicodeTables} raw head status_line lines token status cs last trailer :
  utf8_valid raw = true ->
  split_once_str (CRLF ++ CRLF) raw = Some (head, render_body cs last trailer) ->
  split_str CRLF head = status_line :: lines ->
  split_whitespace status_line !! 1%nat = Some token -> parse_u16 token = Some status ->
  existsb chunked_header lines = true ->
  Forall chunk_ok cs -> line_ok last -> size_of last = Some 0 -> utf8_valid trailer = true ->
  zlen (render_body cs last trailer) < 2 ^ usize_bits ->
  parse_response raw = Ok (status, concat (map ck_data cs)).
Proof.
  intros Hraw Hsplit Hhead Htok Hst Hch Hcs Hl Hz Ht Hlen. unfold parse_response.
  rewrite from_utf8_lossy_valid, Hsplit, Hhead, Htok by done. cbn [opt_bind]. rewrite Hst, Hch.
  unfold dechunk. pose proof (dechunk_body cs last trailer (S (length (render_body cs last trailer))) [] [])
    as Hd. change (zlen []) with 0 in Hd. cbn [app] in Hd. rewrite Hd; try done.
  unfold render_body. rewrite length_app.
  pose proof (length_concat_map render_chunk cs) as Hc. assert (forall x, (1 <= length (render_chunk x))%nat) as Hx.
  { intros [l d]. unfold render_chunk. rewrite !length_app. simpl. lia. }
  specialize (Hc Hx). lia.
Qed.

Definition demo_response : bytes :=
  str "HTTP/1.1 200 OK" ++ CRLF ++ str "Transfer-Encoding: chunked" ++ CRLF ++ CRLF
  ++ render_body [mkChunk (str "4;ext") (str "[10]"); mkChunk (str "C") (str "hello, world")] (str "0") CRLF.

Lemma chunked_body_reassembled_witness :
  @parse_response target64 no_unicode demo_response = Ok (200, str "[10]hello, world").
Proof.
  apply (@chunked_body_reassembled target64 no_unicode demo_response
    (str "HTTP/1.1 200 OK" ++ CRLF ++ str "Transfer-Encoding: chunked") (str "HTTP/1.1 200 OK")
    [str "Transfer-Encoding: chunked"] (str "200") 200
    [mkChunk (str "4;ext") (str "[10]"); mkChunk (str "C") (str "hello, world")] (str "0") CRLF).
  1-6: vm_compute; reflexivity.
  - repeat apply Forall_cons; [| |apply Forall_nil]; try done; split_and!; try done; try (vm_compute; reflexivity);
      (split; [intros c Hc%list_elem_of_In; vm_compute in Hc; lia|vm_compute; reflexivity]).
  - split; [intros c Hc%list_elem_of_In; vm_compute in Hc; lia|vm_compute; reflexivity].
  - vm_compute; reflexivity.
  - vm_compute; reflexivity.
  - vm_compute; reflexivity.
Defined.

(** A response of the API can abort the task that reads it: a chunk whose
    size ends inside a character, or one whose size makes the end of the chunk
    wrap around, is cut out of the text without a check. *)
Theorem chunk_size_panics (T : Target) (U : UnicodeTables) :
  let response chunks :=
    str "HTTP/1.1 200 OK" ++ CRLF ++ str "Transfer-Encoding: chunked" ++ CRLF ++ CRLF ++ chunks in
  parse_response (response (str "1" ++ CRLF ++ [0xc3; 0xa9] ++ CRLF ++ str "0" ++ CRLF ++ CRLF)) = Panic /\
  exists size, parse_response (response (size ++ CRLF ++ str "x")) = Panic /\ Forall (fun b => b = 102) size.
Proof.
  destruct T as [bits [->| ->]]; split; [vm_compute; reflexivity| |vm_compute; reflexivity|].
  - exists (str "ffffffff"). split; [vm_compute; reflexivity|]. by repeat constructor.
  - exists (str "ffffffffffffffff"). split; [vm_compute; reflexivity|]. by repeat constructor.
Qed.

(** ** What [fetch] returns *)

(** The last element, if any. *)
Definition list_last {A} (l : list A) : option A := head (rev l).
Lemma list_last_cons {A} (x : A) l :
  list_last (x :: l) = match list_last l with Some y => Some y | None => Some x end.
Proof. unfold list_last. simpl. by destruct (rev l). Qed.

Section Fetching.
Context `{Target} `{UnicodeTables}.
Context (answers : Fingerprint -> SocketAddr -> answer).

Definition exchanged (p : Fingerprint * SocketAddr) : result ApiResponse := exchange p.2 p.1 (answers p.1 p.2).
Definition ok_of {A} (r : result A) : option A := match r with Ok a => Some a | _ => None end.
Definition err_of {A} (r : result A) : option SoildTunnelError := match r with Err e => Some e | _ => None end.
Definition success (r : ApiResponse) : bool := (200 <=? rs_status r) && (rs_status r <? 300).

(** The choice among the responses and errors of all attempts, in order. *)
Definition choice (responses : list ApiResponse) (errors : list SoildTunnelError)
    (rejection : option ApiResponse) (failure : option SoildTunnelError) : result ApiResponse :=
  match List.find success responses with
  | Some r => Ok r
  | None =>
      match list_last (List.filter (fun r => negb (rs_status r =? 403)) responses), rejection, responses with
      | Some r, _, _ | None, Some r, _ | None, None, r :: _ => Ok r
      | None, None, [] =>
          Err (default (default (Api (str "every camouflaged route failed")) failure) (list_last errors))
      end
  end.

Lemma fetch_loop_choice l rejection failure :
  Forall (fun p => returns (exchanged p)) l ->
  fetch_loop answers l rejection failure =
  choice (omap (fun p => ok_of (exchanged p)) l) (omap (fun p => err_of (exchanged p)) l) rejection failure.
Proof.
  revert rejection failure. induction l as [|[f a] l IH]; intros rejection failure Hl.
  { unfold choice. simpl. by destruct rejection, failure. }
  apply Forall_cons_iff in Hl as [Hp Hl]. cbn [fetch_loop omap list_omap]. unfold exchanged in Hp |- *. simpl in Hp |- *.
  destruct (exchange a f (answers f a)) as [r|e| |] eqn:E; try done; simpl.
  - unfold choice at 1. simpl. fold (success r). destruct (success r) eqn:Hs; [done|]. rewrite IH by done. unfold choice.
    destruct (List.find success _); [done|]. unfold exchanged. simpl.
    destruct (Z.eqb_spec (rs_status r) 403) as [Hr|Hr]; simpl.
    + by destruct rejection, (list_last (List.filter _ _)).
    + rewrite list_last_cons. by destruct rejection, (list_last (List.filter _ _)).
  - rewrite IH by done. unfold choice. destruct (List.find success _); [done|].
    destruct (list_last (List.filter _ _)), rejection, (omap _ l); try done. rewrite list_last_cons.
    by destruct (list_last _).
Qed.
End Fetching.

(** What [fetch] returns: the first successful response, in the order of
    fingerprints and addresses; if no attempt succeeds, the last response that
    is not a 403, or the first 403; if nothing answers, the last error. *)
Theorem fetch_choice `{Target} `{UnicodeTables} addresses answers :
  addresses <> [] ->
  Forall (fun p => returns (exchanged answers p)) (attempts addresses) ->
  fetch addresses answers =
  choice (omap (fun p => ok_of (exchanged answers p)) (attempts addresses))
    (omap (fun p => err_of (exchanged answers p)) (attempts addresses)) None None.
Proof. intros Ha Hr. unfold fetch. destruct addresses; [done|]. by apply fetch_loop_choice. Qed.

Lemma fetch_choice_witness :
  let answers f (_ : SocketAddr) :=
    match f with
    | SplitLegacy => Failed (str "reset")
    | Modern => Answered false [str "HTTP/1.1 429 Slow" ++ CRLF ++ CRLF]
    | ChromeLike => Answered false [str "HTTP/1.1 403 No" ++ CRLF ++ CRLF]
    end in
  @fetch target64 no_unicode [edge_address 7] answers =
  Ok (mkResponse 429 [] (str "141.101.113.7:443 / plain-tls13")).
Proof.
  intros answers. rewrite (@fetch_choice target64 no_unicode [edge_address 7] answers); [|done|].
  - vm_compute. reflexivity.
  - repeat constructor.
Defined.
