(* ===== verification/WebLib.v ===== *)
(** * Libraries around the account API

    What the engine uses of serde_json, base64, http and toml.  Parsing and
    printing are parameters, with the laws the engine relies on in separate
    classes; a JSON value is data, with the accessors the engine calls. *)

From Stdlib Require Import ZArith Lia ZifyBool String List.
From stdpp Require Import base list numbers option decidable.
From S2P Require Import Prelude RustStr.
Open Scope Z_scope.

(** ** JSON values *)

Inductive Json : Type :=
| JNull
| JBool (b : bool)
| JInt (v : Z)
| JFloat (text : bytes)
| JString (s : bytes)
| JArray (l : list Json)
| JObject (fields : list (bytes * Json)).

Fixpoint field (key : bytes) (fields : list (bytes * Json)) : option Json :=
  match fields with
  | [] => None
  | (k, v) :: fields => if bool_decide (k = key) then Some v else field key fields
  end.
Definition json_get (v : Json) (key : bytes) : option Json :=
  match v with JObject fields => field key fields | _ => None end.
Definition as_array (v : Json) : option (list Json) := match v with JArray l => Some l | _ => None end.
Definition as_str (v : Json) : option bytes := match v with JString s => Some s | _ => None end.
Definition json_i64 (v : Json) : option Z :=
  match v with JInt n => if (- 2 ^ 63 <=? n) && (n <? 2 ^ 63) then Some n else None | _ => None end.
Definition json_u64 (v : Json) : option Z :=
  match v with JInt n => if (0 <=? n) && (n <? 2 ^ 64) then Some n else None | _ => None end.

(** [serde_json::from_str] and [from_slice] to a [Value]. *)
Class SerdeJson : Type := { json_value : bytes -> option Json }.

(** [Display] of an [i64]. *)
Definition int_str (v : Z) : bytes := if v <? 0 then str "-" ++ dec_str (- v) else dec_str v.

(** ** Base64 *)

(** The standard alphabet with padding, and the one for URLs without; a failure
    to decode is its text. *)
Class Base64 : Type := {
  b64_encode : bytes -> bytes;
  b64_decode : bytes -> bytes + bytes;
  b64url_decode : bytes -> option bytes }.
Class Base64Laws `{Base64} : Prop := {
  b64_roundtrip (s : bytes) : bytes_ok s -> b64_decode (b64_encode s) = inl s;
  b64_nonempty (s : bytes) : s <> [] -> b64_encode s <> [] }.

(** ** HTTP statuses *)

(** [StatusCode::from_u16] takes three digits; its text has the reason phrase. *)
Class HttpText : Type := { status_text : Z -> bytes }.
Definition status_known (status : Z) : bool := (100 <=? status) && (status <? 1000).
Definition is_success (status : Z) : bool := (200 <=? status) && (status <? 300).
Definition is_server_error (status : Z) : bool := (500 <=? status) && (status <? 600).

(** ** TOML *)

(** [toml::to_string_pretty] and [toml::from_str] at a type. *)
Class Toml (A : Type) : Type := {
  to_toml : A -> bytes + bytes;
  from_toml : bytes -> A + bytes }.
Class TomlLaws (A : Type) `{Toml A} : Prop := {
  toml_roundtrip (a : A) (t : bytes) : to_toml a = inl t -> from_toml t = inl a;
  toml_utf8 (a : A) (t : bytes) : to_toml a = inl t -> utf8_valid t = true }.

(** ** Concrete instances, for the examples *)

(** One byte is two letters, [A] to [P]. *)
Definition letters (b : Z) : bytes := [65 + b / 16; 65 + b mod 16].
Fixpoint unletters (s : bytes) : bytes + bytes :=
  match s with
  | [] => inl []
  | a :: b :: r =>
      match unletters r with
      | inl l => inl ((a - 65) * 16 + (b - 65) :: l)
      | inr e => inr e
      end
  | _ => inr (str "odd")
  end.
Definition demo_base64 : Base64 :=
  {| b64_encode s := concat (map letters s); b64_decode := unletters;
     b64url_decode s := Some s |}.

Lemma demo_base64_laws : @Base64Laws demo_base64.
Proof.
  split.
  - intros s Hs. induction Hs as [|b s Hb Hs IH]; [done|]. simpl in *. rewrite IH. do 2 f_equal.
    unfold is_u8 in Hb. pose proof (Z.div_mod b 16). lia.
  - intros [|b s] Hs; [done|]. simpl. discriminate.
Qed.

(** A printer that knows one value. *)
Definition demo_toml {A : Type} `{EqDecision A} (a : A) : Toml A :=
  {| to_toml x := if decide (x = a) then inl (str "only") else inr (str "unknown");
     from_toml t := if decide (t = str "only") then inl a else inr (str "unknown") |}.

Lemma demo_toml_laws {A : Type} `{EqDecision A} (a : A) : @TomlLaws A (demo_toml a).
Proof.
  split; intros x t Hx; simpl in Hx; destruct (decide (x = a)) as [->|]; simplify_eq; [|by vm_compute].
  reflexivity.
Qed.
