(* ===== verification/Account.v ===== *)
(** * Accounts and the device API

    Models account.rs: the data of a registration, the identity made from it,
    the calls with their retries over the direct and the camouflaged route
    (ApiFront), and the MASQUE certificate.  Requests are answered by an
    argument; reqwest, serde_json and base64 are parameters. *)

From Stdlib Require Import ZArith Lia ZifyBool String List.
From stdpp Require Import base list numbers option decidable.
From S2P Require Import Prelude RustStr NetAddr Errors WebLib Fragment ApiFront ZeroTrust.
Open Scope Z_scope.

(** ** Requests *)

Record Registration : Type := mkReg {
  rg_key : bytes; rg_install_id : bytes; rg_fcm_token : bytes; rg_tos : bytes; rg_model : bytes;
  rg_serial_number : bytes; rg_os_version : bytes; rg_key_type : bytes; rg_tunnel_type : bytes; rg_locale : bytes }.
Record TeamRegistration : Type := mkTeamReg {
  tr_key : bytes; tr_install_id : bytes; tr_fcm_token : bytes; tr_tos : bytes; tr_model : bytes;
  tr_name : bytes; tr_serial_number : bytes; tr_locale : bytes }.
Record DeviceUpdate : Type := mkUpdate {
  du_key : bytes; du_key_type : bytes; du_tunnel_type : bytes; du_name : option bytes }.
Inductive Payload : Type :=
| PRegistration (r : Registration)
| PTeam (r : TeamRegistration)
| PUpdate (u : DeviceUpdate).

Definition team_registration_body (public_key model locale tos : bytes) (draws draws' : list Z) : TeamRegistration :=
  let install_id := generate_install_id draws in
  let fcm_token := generate_fcm_token install_id draws' in
  mkTeamReg public_key install_id fcm_token tos model install_id install_id locale.

(** ** Responses *)

Record PeerEndpoint : Type := mkPeerEndpoint { pe_v4 : bytes; pe_v6 : bytes; pe_host : bytes }.
Record Peer : Type := mkPeer { pr_public_key : bytes; pr_endpoint : PeerEndpoint }.
Record Addresses : Type := mkAddresses { ad_v4 : bytes; ad_v6 : bytes }.
Record Config : Type := mkConfig {
  cf_addresses : Addresses; cf_peers : list Peer; cf_client_id : bytes; cf_http_proxy : bytes }.
Record AccountInfo : Type := mkInfo { ai_id : bytes; ai_account_type : bytes; ai_organization : bytes }.
Record AccountData : Type := mkAccount {
  ac_id : bytes; ac_token : bytes; ac_config : Config; ac_account : AccountInfo }.

Record Identity : Type := mkIdentity {
  device_id : bytes;
  access_token : bytes;
  cert_pem : bytes;
  key_pem : bytes;
  cert_issued_at : Z;
  ipv4 : bytes;
  ipv6 : bytes;
  wg_private_key : bytes;
  wg_peer_public_key : bytes;
  client_id : bytes;
  organization : bytes;
  gateway_proxy : bytes;
  assigned_endpoint : bytes;
  refused : bool }.
#[export] Instance Identity_eq_dec : EqDecision Identity.
Proof. solve_decision. Defined.

(** The libraries at the types of this file: [serde_json::from_str] to an
    account, [to_vec] of a body, the X25519 public key. *)
Class AccountLib : Type := {
  json_account : bytes -> AccountData + bytes;
  json_payload : Payload -> bytes + bytes;
  x25519_public : bytes -> bytes }.

Record MasqueKeyPair : Type := mkKeyPair { kp_key_pem : bytes; kp_cert_pem : bytes; kp_spki_der : bytes }.

(** ** Retries *)

Definition API_ATTEMPTS : Z := 5.
Definition API_BACKOFF_BASE_MS : Z := 900.
Definition API_BACKOFF_CAP_MS : Z := 15000.
Definition API_RETRY_AFTER_CAP_SECS : Z := 30.

(** In milliseconds; [draw] is a random [u32]. *)
Definition backoff_delay (attempt draw : Z) : Z :=
  let exponential := Z.min (API_BACKOFF_BASE_MS * 2 ^ Z.min attempt 5) (2 ^ 64 - 1) in
  let capped := Z.min exponential API_BACKOFF_CAP_MS in
  let jitter := draw mod (capped / 3 + 1) in
  capped / 2 + jitter.

(** In seconds; [raw] is the header's value, if it is there and is text. *)
Definition retry_after (raw : option bytes) : option Z :=
  let? raw := raw in
  let? seconds := parse_u64 (trim raw) in
  Some (Z.min seconds API_RETRY_AFTER_CAP_SECS).

Definition refuses_identity (status : Z) : bool := (status =? 401) || (status =? 404) || (status =? 410).
Definition worth_retrying (status : Z) : bool := (status =? 429) || (status =? 408) || is_server_error status.

Section Calls.
Context `{Target} `{UnicodeTables} `{ErrorText} `{SerdeJson} `{Base64} `{HttpText} `{AccountLib}.

(** ** Rejections *)

Definition part_of (entry : Json) : bytes :=
  let message := default (str "unknown") (let? v := json_get entry (str "message") in as_str v) in
  match (let? v := json_get entry (str "code") in json_i64 v) with
  | Some code => message ++ str " (code " ++ int_str code ++ str ")"
  | None => message
  end.
Fixpoint join_str (sep : bytes) (parts : list bytes) : bytes :=
  match parts with
  | [] => []
  | [p] => p
  | p :: parts => p ++ sep ++ join_str sep parts
  end.
Definition extract_api_error (body : bytes) : option bytes :=
  let? value := json_value body in
  let? errors := json_get value (str "errors") in
  let? errors := as_array errors in
  let parts := map part_of errors in
  if is_empty parts then None else Some (join_str (str "; ") parts).

Definition rejection_hint (status : Z) : bytes :=
  if status =? 403 then
    str " (cloudflare refused this network; the address looks flagged, "
    ++ str "try again later, switch network, or import an existing identity)"
  else if status =? 429 then
    str " (too many registrations from this address; wait a few minutes before trying again)"
  else [].

(** A detail longer than 220 bytes is cut there, inside a character or not. *)
Definition describe_rejection (status : Z) (body : bytes) : result bytes :=
  let! detail :=
    match extract_api_error body with
    | Some detail => Ok detail
    | None =>
        let trimmed := trim body in
        if is_empty trimmed then Ok (str "no details returned")
        else if 220 <? zlen trimmed then
          let! cut := str_range trimmed 0 220 in Ok (cut ++ [0xe2; 0x80; 0xa6])
        else Ok trimmed
    end in
  Ok (str "status " ++ status_text status ++ str ": " ++ detail ++ rejection_hint status).

Definition describe_status (status : Z) (body : bytes) : result bytes :=
  if status_known status then describe_rejection status body
  else Ok (str "status " ++ dec_str status ++ str ": " ++ body).

(** ** The direct route *)

(** What one attempt meets: the client cannot be built, the request fails, or
    there is a response with its retry-after header and its body. *)
Inductive attempt : Type :=
| ClientFailed (e : SoildTunnelError)
| SendFailed (e : bytes)
| Responded (status : Z) (header : option bytes) (body : bytes + bytes).

(** The result, the requests sent and the waits, in milliseconds. *)
Record Sent : Type := mkSent { sn_result : result AccountData; sn_requests : Z; sn_waits : list Z }.

Definition decode_account (label body : bytes) : result AccountData :=
  match json_account body with
  | inl account => Ok account
  | inr e => Err (Api (label ++ str " decode: " ++ e ++ str "; body=" ++ body))
  end.

Fixpoint send_loop (label : bytes) (answers : Z -> attempt) (draws : Z -> Z) (more : nat) (n : Z)
    (last_error : SoildTunnelError) (waits : list Z) : Sent :=
  match more with
  | O => mkSent (Err last_error) n waits
  | S more =>
      let waits := if 0 <? n then waits ++ [backoff_delay (n - 1) (draws n)] else waits in
      match answers n with
      | ClientFailed e => mkSent (Err e) n waits
      | SendFailed e => send_loop label answers draws more (n + 1) (Api (label ++ str ": " ++ e)) waits
      | Responded status header (inr e) => mkSent (Err (Api (label ++ str ": " ++ e))) (n + 1) waits
      | Responded status header (inl body) =>
          if is_success status then mkSent (decode_account label body) (n + 1) waits
          else match describe_rejection status body with
               | Ok text =>
                   let described := label ++ str ": " ++ text in
                   let last_error := if refuses_identity status then IdentityRefused described else Api described in
                   if negb (worth_retrying status) then mkSent (Err last_error) (n + 1) waits
                   else
                     let waits := match retry_after header with
                                  | Some s => waits ++ [s * 1000]
                                  | None => waits
                                  end in
                     send_loop label answers draws more (n + 1) last_error waits
               | Err e => mkSent (Err e) (n + 1) waits
               | Panic => mkSent Panic (n + 1) waits
               | OutOfFuel => mkSent OutOfFuel (n + 1) waits
               end
      end
  end.
Definition send_with_retry (label : bytes) (answers : Z -> attempt) (draws : Z -> Z) : Sent :=
  send_loop label answers draws (Z.to_nat API_ATTEMPTS) 0 (Api (label ++ str ": no attempt was made")) [].

(** ** Both routes *)

Definition API_URL : bytes := str "https://api.cloudflareclient.com".
Definition API_VERSION : bytes := str "v0a4471".
Definition UA_REGISTER : bytes := str "WARP for Android".
Definition CF_CLIENT_VERSION : bytes := str "a-6.35-4471".
Definition KEY_TYPE_MASQUE : bytes := str "secp256r1".
Definition TUN_TYPE_MASQUE : bytes := str "masque".

(** A request as reqwest sends it. *)
Record HttpRequest : Type := mkHttp {
  hq_method : bytes; hq_url : bytes; hq_bearer : option bytes; hq_jwt : option bytes; hq_body : option Payload }.

(** What the network answers on either route, and the random draws. *)
Record ApiWorld : Type := mkApiWorld {
  aw_direct : HttpRequest -> Z -> attempt;
  aw_draws : Z -> Z;
  aw_edges : list SocketAddr;
  aw_front : ApiRequest -> Fingerprint -> SocketAddr -> answer }.

Definition api_host : bytes :=
  let s := trim_start_str API_URL (str "https://") in
  let s := trim_start_str s (str "http://") in
  match split (Z.eqb 47) s with host :: _ => host | [] => str "api.cloudflareclient.com" end.

Definition front_headers (bearer jwt : option bytes) : list (bytes * bytes) :=
  [(str "Content-Type", str "application/json; charset=UTF-8");
   (str "User-Agent", UA_REGISTER);
   (str "CF-Client-Version", CF_CLIENT_VERSION);
   (str "Accept", str "application/json")]
  ++ match bearer with Some token => [(str "Authorization", str "Bearer " ++ token)] | None => [] end
  ++ match jwt with Some token => [(str "CF-Access-Jwt-Assertion", token)] | None => [] end.

Definition fallback_call (w : ApiWorld) (label method path : bytes) (body bearer jwt : option bytes)
  : result AccountData :=
  let request := mkRequest method api_host path (front_headers bearer jwt) body in
  let! response := fetch (aw_edges w) (aw_front w request) in
  if (200 <=? rs_status response) && (rs_status response <? 300) then
    match json_account (rs_body response) with
    | inl account => Ok account
    | inr e => Err (Api (label ++ str " decode over " ++ rs_route response ++ str ": " ++ e ++ str "; body="
                         ++ rs_body response))
    end
  else
    let! text := describe_status (rs_status response) (rs_body response) in
    let described := label ++ str " over " ++ rs_route response ++ str ": " ++ text in
    if refuses_identity (rs_status response) then Err (IdentityRefused described) else Err (Api described).

(** [private[0] &= 248; private[31] &= 127; private[31] |= 64]. *)
Definition generate_x25519_keypair (seed : bytes) : bytes * bytes :=
  let private := alter (fun b => Z.land b 248) 0%nat seed in
  let private := alter (fun b => Z.lor (Z.land b 127) 64) 31%nat private in
  (private, b64_encode (x25519_public private)).
Definition random_android_serial (s : bytes) : bytes :=
  concat (map (fun b => [hex_char (b / 16); hex_char (b mod 16)]) s).

Definition encoded (p : Payload) : result bytes :=
  match json_payload p with inl body => Ok body | inr e => Err (Api (str "encode: " ++ e)) end.

(** The two routes of [register] and [register_with_team]: the answer of the
    first, or of the second, or both errors in one. *)
Definition registered (w : ApiWorld) (label : bytes) (body : Payload) (jwt : option bytes) : result AccountData :=
  let path := str "/" ++ API_VERSION ++ str "/reg" in
  let! encoded := encoded body in
  let direct := send_with_retry label
    (aw_direct w (mkHttp (str "POST") (API_URL ++ path) None jwt (Some body))) (aw_draws w) in
  match sn_result direct with
  | Err primary =>
      match fallback_call w label (str "POST") path (Some encoded) None jwt with
      | Err secondary =>
          Err (Api (label ++ str ": direct route -> " ++ error_str primary
                    ++ str "; camouflaged route -> " ++ error_str secondary))
      | r => r
      end
  | r => r
  end.

Definition register (w : ApiWorld) (model locale tos : bytes) (jwt : option bytes) (seed serial : bytes)
  : result (AccountData * bytes) :=
  let '(wg_private, wg_public) := generate_x25519_keypair seed in
  let body := mkReg wg_public [] [] tos model (random_android_serial serial) [] (str "curve25519")
    (str "wireguard") locale in
  let! account := registered w (str "registration") (PRegistration body) jwt in
  Ok (account, wg_private).

Definition register_with_team (w : ApiWorld) (model locale tos token seed : bytes) (draws draws' : list Z)
  : result (AccountData * bytes) :=
  let '(wg_private, wg_public) := generate_x25519_keypair seed in
  let body := team_registration_body wg_public model locale tos draws draws' in
  let! account := registered w (str "team registration") (PTeam body) (Some token) in
  Ok (account, wg_private).

Definition enroll_key (w : ApiWorld) (device_id token spki_der : bytes) (name : option bytes) : result AccountData :=
  let body := PUpdate (mkUpdate (b64_encode spki_der) KEY_TYPE_MASQUE TUN_TYPE_MASQUE name) in
  let path := str "/" ++ API_VERSION ++ str "/reg/" ++ device_id in
  let! encoded := encoded body in
  let direct := send_with_retry (str "key enrollment")
    (aw_direct w (mkHttp (str "PATCH") (API_URL ++ path) (Some token) None (Some body))) (aw_draws w) in
  match sn_result direct with
  | Err primary =>
      match fallback_call w (str "key enrollment") (str "PATCH") path (Some encoded) (Some token) None with
      | Err secondary =>
          Err (Api (str "key enrollment: direct route -> " ++ error_str primary
                    ++ str "; camouflaged route -> " ++ error_str secondary))
      | r => r
      end
  | r => r
  end.

Definition fetch_device (w : ApiWorld) (device_id token : bytes) : result AccountData :=
  let path := str "/" ++ API_VERSION ++ str "/reg/" ++ device_id in
  let direct := send_with_retry (str "device refresh")
    (aw_direct w (mkHttp (str "GET") (API_URL ++ path) (Some token) None None)) (aw_draws w) in
  match sn_result direct with
  | Err primary => fallback_call w (str "device refresh") (str "GET") path None (Some token) None
  | r => r
  end.

(** ** Identities *)

Definition extract_wg_peer (reg : AccountData) : result bytes :=
  match cf_peers (ac_config reg) with
  | [] => Err (Api (str "no peers in registration response"))
  | peer :: _ =>
      match b64_decode (pr_public_key peer) with
      | inr e => Err (Api (str "decode peer pubkey: " ++ e))
      | inl decoded =>
          if negb (zlen decoded =? 32) then Err (Api (str "invalid peer pubkey length")) else Ok decoded
      end
  end.

Definition endpoint_from (reg : AccountData) : bytes :=
  let raw := match cf_peers (ac_config reg) with peer :: _ => trim (pe_v4 (pr_endpoint peer)) | [] => [] end in
  match rsplit_once 58 raw with
  | Some (host, _) => if is_empty host then raw else host
  | None => raw
  end.

Definition finish_provision (reg : AccountData) (wg_private : bytes) : result Identity :=
  if is_empty (ac_token reg) then Err (Api (str "registration returned empty token"))
  else
    let! wg_peer_public := extract_wg_peer reg in
    let client_id :=
      if is_empty (cf_client_id (ac_config reg)) then [0; 0; 0]
      else match b64_decode (cf_client_id (ac_config reg)) with
           | inl decoded => if zlen decoded =? 3 then decoded else [0; 0; 0]
           | inr _ => [0; 0; 0]
           end in
    Ok (mkIdentity (ac_id reg) (ac_token reg) [] [] 0
          (ad_v4 (cf_addresses (ac_config reg))) (ad_v6 (cf_addresses (ac_config reg)))
          wg_private wg_peer_public client_id
          (trim (ai_organization (ac_account reg))) (trim (cf_http_proxy (ac_config reg)))
          (endpoint_from reg) false).

Definition with_refused (i : Identity) (r : bool) : Identity :=
  mkIdentity (device_id i) (access_token i) (cert_pem i) (key_pem i) (cert_issued_at i) (ipv4 i) (ipv6 i)
    (wg_private_key i) (wg_peer_public_key i) (client_id i) (organization i) (gateway_proxy i)
    (assigned_endpoint i) r.
Definition with_endpoint (i : Identity) (e : bytes) : Identity :=
  mkIdentity (device_id i) (access_token i) (cert_pem i) (key_pem i) (cert_issued_at i) (ipv4 i) (ipv6 i)
    (wg_private_key i) (wg_peer_public_key i) (client_id i) (organization i) (gateway_proxy i) e (refused i).
Definition with_cert (i : Identity) (cert key : bytes) (issued_at : Z) : Identity :=
  mkIdentity (device_id i) (access_token i) cert key issued_at (ipv4 i) (ipv6 i)
    (wg_private_key i) (wg_peer_public_key i) (client_id i) (organization i) (gateway_proxy i)
    (assigned_endpoint i) (refused i).

(** A panic of a call ends the whole task: it is passed on. *)
Definition refresh_profile (w : ApiWorld) (i : Identity) : result Identity :=
  match fetch_device w (device_id i) (access_token i) with
  | Ok reg =>
      let v4 := trim (ad_v4 (cf_addresses (ac_config reg))) in
      let v6 := trim (ad_v6 (cf_addresses (ac_config reg))) in
      Ok (mkIdentity (device_id i) (access_token i) (cert_pem i) (key_pem i) (cert_issued_at i)
            (if is_empty v4 then ipv4 i else v4) (if is_empty v6 then ipv6 i else v6)
            (wg_private_key i) (wg_peer_public_key i) (client_id i)
            (trim (ai_organization (ac_account reg))) (trim (cf_http_proxy (ac_config reg)))
            (endpoint_from reg) false)
  | Err (IdentityRefused reason) => Ok (with_refused i true)
  | Err _ => Ok i
  | Panic => Panic
  | OutOfFuel => OutOfFuel
  end.

(** ** The MASQUE certificate *)

Definition MASQUE_CERT_LIFETIME_SECS : Z := 365 * 86400.
Definition MASQUE_CERT_RENEW_BEFORE_SECS : Z := 7 * 86400.

Definition masque_cert_expiring (issued_at now : Z) : bool :=
  if issued_at =? 0 then true
  else if now <? issued_at then true
  else let age := now - issued_at in
       MASQUE_CERT_LIFETIME_SECS <=? as_u64 (age + MASQUE_CERT_RENEW_BEFORE_SECS).
Definition cert_still_usable (i : Identity) (now : Z) : bool :=
  if is_empty (cert_pem i) || is_empty (key_pem i) then false
  else if cert_issued_at i =? 0 then false
  else if now <? cert_issued_at i then false
  else now - cert_issued_at i <? MASQUE_CERT_LIFETIME_SECS.
Definition has_masque_credentials (i : Identity) (now : Z) : bool :=
  negb (is_empty (cert_pem i)) && negb (is_empty (key_pem i)) && negb (masque_cert_expiring (cert_issued_at i) now).

Record MasqueEnrollment : Type := mkEnrollment {
  me_cert_pem : bytes; me_key_pem : bytes; me_issued_at : Z; me_renewed : bool }.

(** The clock is read first ([now]) and after the call ([later]). *)
Definition ensure_masque_enrolled (w : ApiWorld) (i : Identity) (keypair : result MasqueKeyPair) (now later : Z)
  : result MasqueEnrollment :=
  let usable := negb (is_empty (cert_pem i)) && negb (is_empty (key_pem i)) in
  if usable && negb (masque_cert_expiring (cert_issued_at i) now) then
    Ok (mkEnrollment (cert_pem i) (key_pem i) (cert_issued_at i) false)
  else
    let! keypair := keypair in
    match enroll_key w (device_id i) (access_token i) (kp_spki_der keypair) None with
    | Ok _ => Ok (mkEnrollment (kp_cert_pem keypair) (kp_key_pem keypair) later true)
    | Err error =>
        if cert_still_usable i later then
          Ok (mkEnrollment (cert_pem i) (key_pem i) (cert_issued_at i) false)
        else Err error
    | Panic => Panic
    | OutOfFuel => OutOfFuel
    end.

End Calls.

(** ** Retries: what a call comes to *)

Section Retries.
Context `{SerdeJson} `{HttpText} `{AccountLib}.

(** What becomes of an attempt: it settles the call, it takes the call down
    with a panic, or the call goes on. *)
Inductive fate : Type := Settles (r : result AccountData) | Crashes | Retried.
Definition verdict (label : bytes) (a : attempt) : fate :=
  match a with
  | ClientFailed e => Settles (Err e)
  | SendFailed _ => Retried
  | Responded _ _ (inr e) => Settles (Err (Api (label ++ str ": " ++ e)))
  | Responded status _ (inl body) =>
      if is_success status then Settles (decode_account label body)
      else match describe_rejection status body with
           | Ok text =>
               let described := label ++ str ": " ++ text in
               if worth_retrying status then Retried
               else Settles (Err (if refuses_identity status then IdentityRefused described else Api described))
           | _ => Crashes
           end
  end.
(** The result an attempt ends the call with, if it does. *)
Definition settlement (label : bytes) (a : attempt) : option (result AccountData) :=
  match verdict label a with Settles r => Some r | Crashes => Some Panic | Retried => None end.

(** Describing a rejection fails only where a long text is cut inside a
    character. *)
Lemma describe_cases status body :
  (exists text, describe_rejection status body = Ok text) \/
  describe_rejection status body = Panic /\ extract_api_error body = None /\ 220 < zlen (trim body) /\ is_char_boundary (trim body) 220 = false.
Proof.
  unfold describe_rejection. destruct (extract_api_error body) as [d|] eqn:E; [left; by eexists|].
  destruct (is_empty (trim body)); [left; by eexists|]. destruct (220 <? zlen (trim body)) eqn:El; [|left; by eexists].
  unfold str_range. change (is_char_boundary (trim body) 0) with true. cbn [andb].
  destruct (is_char_boundary (trim body) 220) eqn:Eb; [left|right].
  - unfold idx_range, get_range. replace (_ && _) with true by lia. by eexists.
  - split; [done|]. split; [done|]. split; [lia|done].
Qed.
Lemma crash_cut label a : verdict label a = Crashes -> exists status header body, a = Responded status header (inl body) /\
  is_success status = false /\ extract_api_error body = None /\ 220 < zlen (trim body) /\ is_char_boundary (trim body) 220 = false.
Proof.
  destruct a as [e|e|status header [body|e]]; try done. simpl. destruct (is_success status) eqn:Es; [done|]. intros E.
  exists status, header, body. split; [done|]. split; [done|].
  destruct (describe_cases status body) as [(text & Et)|[_ ?]]; [|done]. rewrite Et in E. by destruct (worth_retrying status).
Qed.
(** The error an attempt leaves behind if it does not. *)
Definition setback (label : bytes) (a : attempt) : SoildTunnelError :=
  match a with
  | SendFailed e => Api (label ++ str ": " ++ e)
  | Responded status _ (inl body) =>
      match describe_rejection status body with
      | Ok text => Api (label ++ str ": " ++ text)
      | _ => Api []
      end
  | _ => Api []
  end.

Lemma retried_not_refused status : worth_retrying status = true -> refuses_identity status = false.
Proof. unfold worth_retrying, refuses_identity, is_server_error. lia. Qed.

Definition attempt_numbers (n : Z) (more : nat) : list Z := seqZ n (Z.of_nat more).

Lemma send_loop_result label answers draws more n last waits :
  sn_result (send_loop label answers draws more n last waits) =
  match head (omap (settlement label) (map answers (attempt_numbers n more))) with
  | Some r => r
  | None => Err (match more with O => last | S _ => setback label (answers (n + Z.of_nat more - 1)) end)
  end.
Proof.
  revert n last waits. induction more as [|more IH]; intros n last waits; [done|].
  unfold attempt_numbers. rewrite seqZ_cons, Nat2Z.inj_succ, Z.pred_succ by lia. cbn [send_loop map omap list_omap].
  assert (forall last' waits', verdict label (answers n) = Retried -> last' = setback label (answers n) ->
    sn_result (send_loop label answers draws more (n + 1) last' waits') =
    match head (omap (settlement label) (map answers (seqZ (Z.succ n) (Z.of_nat more)))) with
    | Some r => r
    | None => Err (setback label (answers (n + Z.succ (Z.of_nat more) - 1)))
    end) as Hnext.
  { intros last' waits' _ ->. rewrite IH. unfold attempt_numbers. rewrite Z.add_1_r.
    destruct (head _); [done|]. f_equal. destruct more; [by replace (n + Z.succ (Z.of_nat 0) - 1) with n by lia|].
    do 2 f_equal. lia. }
  destruct (answers n) as [e|e|status header [body|e]] eqn:E; unfold settlement at 1; simpl verdict in *; simpl setback in *; [done|by apply Hnext| |done].
  destruct (is_success status); [done|].
  destruct (describe_cases status body) as [(text & Ed)|[Ed _]]; rewrite Ed in *; [|done].
  destruct (worth_retrying status) eqn:Hw; [|done]. rewrite (retried_not_refused _ Hw). by apply Hnext.
Qed.

Lemma backoff_form k draw c half third :
  Z.min (Z.min (API_BACKOFF_BASE_MS * 2 ^ Z.min k 5) (2 ^ 64 - 1)) API_BACKOFF_CAP_MS = c ->
  c / 2 = half -> c / 3 + 1 = third -> 0 < third ->
  half <= backoff_delay k draw < half + third.
Proof. unfold backoff_delay. intros -> -> -> Ht. pose proof (Z.mod_pos_bound draw third Ht). lia. Qed.

Lemma backoff_bound k draw : 0 <= k <= 3 -> 0 <= backoff_delay k draw <= 750 * 2 ^ k.
Proof.
  intros Hk. assert (k = 0 \/ k = 1 \/ k = 2 \/ k = 3) as Hc by lia. destruct Hc as [->|[->|[->| ->]]].
  - pose proof (backoff_form 0 draw 900 450 301 eq_refl eq_refl eq_refl eq_refl). lia.
  - pose proof (backoff_form 1 draw 1800 900 601 eq_refl eq_refl eq_refl eq_refl). lia.
  - pose proof (backoff_form 2 draw 3600 1800 1201 eq_refl eq_refl eq_refl eq_refl). lia.
  - pose proof (backoff_form 3 draw 7200 3600 2401 eq_refl eq_refl eq_refl eq_refl). lia.
Qed.

Lemma retry_after_bound raw s : retry_after raw = Some s -> 0 <= s <= 30.
Proof.
  unfold retry_after, API_RETRY_AFTER_CAP_SECS. intros Hs. inv_bind. simplify_eq. split; [|lia].
  apply Z.min_glb; [|lia]. by eapply parse_uint_nonneg.
Qed.
Definition zsum (l : list Z) : Z := foldr Z.add 0 l.
Lemma zsum_app l k : zsum (l ++ k) = zsum l + zsum k.
Proof. unfold zsum. induction l as [|x l IH]; simpl; [lia|]. rewrite IH. lia. Qed.

(** The most that attempts from [n] on can wait. *)
Definition wait_budget (n : Z) (more : nat) : Z :=
  zsum (map (fun k => 30000 + if 0 <? k then 750 * 2 ^ (k - 1) else 0) (attempt_numbers n more)).

Lemma wait_budget_S n more :
  wait_budget n (S more) = 30000 + (if 0 <? n then 750 * 2 ^ (n - 1) else 0) + wait_budget (n + 1) more.
Proof.
  unfold wait_budget, attempt_numbers. rewrite seqZ_cons, Nat2Z.inj_succ, Z.pred_succ, Z.add_1_r by lia. simpl. lia.
Qed.
Lemma wait_budget_nonneg n more : 0 <= wait_budget n more.
Proof.
  revert n. induction more as [|more IH]; intros n; [unfold wait_budget; simpl; lia|]. rewrite wait_budget_S.
  specialize (IH (n + 1)). destruct (0 <? n); [pose proof (Z.pow_nonneg 2 (n - 1)); lia|lia].
Qed.

Lemma send_loop_waits label answers draws more n last waits :
  0 <= n -> n + Z.of_nat more <= 5 -> Forall (fun w => 0 <= w <= 30000) waits ->
  let s := send_loop label answers draws more n last waits in
  n <= sn_requests s <= n + Z.of_nat more /\ Forall (fun w => 0 <= w <= 30000) (sn_waits s) /\
  zsum (sn_waits s) <= zsum waits + wait_budget n more.
Proof.
  revert n last waits. induction more as [|more IH]; intros n last waits Hn Hm Hw;
    [simpl; unfold wait_budget; simpl; split_and!; [lia..|done|lia]|].
  cbn [send_loop]. set (waits1 := if 0 <? n then _ else _).
  assert (Forall (fun w => 0 <= w <= 30000) waits1 /\
          zsum waits1 <= zsum waits + if 0 <? n then 750 * 2 ^ (n - 1) else 0) as [Hw1 Hs1].
  { subst waits1. destruct (0 <? n) eqn:E; [|split; [done|lia]].
    pose proof (backoff_bound (n - 1) (draws n) ltac:(lia)) as Hb.
    assert (2 ^ (n - 1) <= 2 ^ 3) by (apply Z.pow_le_mono_r; lia).
    rewrite zsum_app. simpl. split; [|lia]. apply Forall_app. split; [done|]. constructor; [lia|done]. }
  pose proof (wait_budget_nonneg (n + 1) more). rewrite wait_budget_S.
  assert (forall r k, n <= k <= n + 1 -> let s := mkSent r k waits1 in
    n <= sn_requests s <= n + Z.of_nat (S more) /\ Forall (fun w => 0 <= w <= 30000) (sn_waits s) /\
    zsum (sn_waits s) <= zsum waits + (30000 + (if 0 <? n then 750 * 2 ^ (n - 1) else 0) + wait_budget (n + 1) more))
    as Hstop by (intros r k Hk; simpl; split_and!; [lia..|done|lia]).
  assert (forall last' waits2, Forall (fun w => 0 <= w <= 30000) waits2 -> zsum waits2 <= zsum waits1 + 30000 ->
    let s := send_loop label answers draws more (n + 1) last' waits2 in
    n <= sn_requests s <= n + Z.of_nat (S more) /\ Forall (fun w => 0 <= w <= 30000) (sn_waits s) /\
    zsum (sn_waits s) <= zsum waits + (30000 + (if 0 <? n then 750 * 2 ^ (n - 1) else 0) + wait_budget (n + 1) more))
    as Hgo by (intros last' waits2 H2' Hz; destruct (IH (n + 1) last' waits2) as (? & ? & ?); [lia..|done|];
               simpl; split_and!; [lia..|done|lia]).
  destruct (answers n) as [e|e|status header [body|e]]; [apply Hstop; lia|apply Hgo; [done|lia]| |apply Hstop; lia].
  destruct (is_success status); [apply Hstop; lia|].
  destruct (describe_rejection status body); [|apply Hstop; lia..].
  destruct (negb (worth_retrying status)); [apply Hstop; lia|].
  destruct (retry_after header) as [w|] eqn:Er; [|apply Hgo; [done|lia]]. apply retry_after_bound in Er.
  apply Hgo; [|rewrite zsum_app; simpl; lia]. apply Forall_app. split; [done|]. constructor; [lia|done].
Qed.
End Retries.

(** C33: [send_with_retry] makes at most five requests.  Its result is what the
    first attempt that settles it says: a client that cannot be built, a decoded
    account, a failure to read or to decode a response, or a refusal that is not
    worth repeating; failures to connect, timeouts, too many requests and server
    errors are tried again, and if nothing settles the call, its error is the
    last attempt's.  The exception is an error page without a message of the
    API, longer than 220 bytes and with its 220th byte inside a character:
    describing it panics, and that ends the call.  No wait is longer than half a
    minute, and all of them together than 161.25 seconds. *)
Theorem api_retry_correct `{SerdeJson} `{HttpText} `{AccountLib}
    label answers draws :
  let s := send_with_retry label answers draws in
  sn_result s =
    match head (omap (settlement label) (map answers [0; 1; 2; 3; 4])) with
    | Some r => r
    | None => Err (setback label (answers 4))
    end /\
  (forall e, verdict label (SendFailed e) = Retried) /\
  (forall status header body, is_success status = false -> worth_retrying status = true ->
     verdict label (Responded status header (inl body)) = Retried \/ verdict label (Responded status header (inl body)) = Crashes) /\
  (forall a, verdict label a = Crashes -> exists status header body, a = Responded status header (inl body) /\
     is_success status = false /\ extract_api_error body = None /\ 220 < zlen (trim body) /\ is_char_boundary (trim body) 220 = false) /\
  0 <= sn_requests s <= 5 /\ Forall (fun w => 0 <= w <= 30000) (sn_waits s) /\ zsum (sn_waits s) <= 161250.
Proof.
  intros s. split; [apply (send_loop_result label answers draws 5)|]. split; [done|]. split; [|split; [apply crash_cut|]].
  - intros status header body Hs Hw. simpl. rewrite Hs. destruct (describe_cases status body) as [(text & ->)|[-> _]]; [left|by right].
    by rewrite Hw.
  - destruct (send_loop_waits label answers draws 5 0 (Api (label ++ str ": no attempt was made")) [])
      as (Hn & Hw & Hs); [done|done|constructor|].
    split; [exact Hn|]. split; [exact Hw|]. etransitivity; [exact Hs|]. by apply Z.leb_le.
Qed.

(** ** Errors of the calls *)

Section CallErrors.
Context `{Target} `{UnicodeTables} `{ErrorText} `{SerdeJson} `{Base64} `{HttpText} `{AccountLib}.

(** [enroll_key] folds the errors of both routes into one of its own. *)
Lemma enroll_never_refused w d token spki name m : enroll_key w d token spki name <> Err (IdentityRefused m).
Proof.
  unfold enroll_key, encoded. destruct (json_payload _); [|done]. simpl. destruct (sn_result _); try done.
  by destruct (fallback_call _ _ _ _ _ _ _).
Qed.

Lemma ensure_never_refused w i kp now later m :
  (forall m', kp <> Err (IdentityRefused m')) -> ensure_masque_enrolled w i kp now later <> Err (IdentityRefused m).
Proof.
  intros Hk. unfold ensure_masque_enrolled. destruct (_ && _); [done|].
  destruct kp as [kp|e| |]; simpl; [|intros [= ->]; by eapply Hk|done..].
  destruct (enroll_key _ _ _ _ _) as [|e| |] eqn:E; try done. destruct (cert_still_usable i later); [done|].
  intros [= ->]. by eapply enroll_never_refused.
Qed.

Lemma describe_long_panics status body b :
  json_value body = None -> 220 < zlen (trim body) -> zget (trim body) 220 = Some b -> is_cont b = true ->
  describe_rejection status body = Panic.
Proof.
  intros Hj Hl Hb Hc. unfold describe_rejection, extract_api_error. rewrite Hj. simpl.
  destruct (trim body) as [|c s] eqn:E; [by vm_compute in Hl|]. cbn [is_empty]. rewrite <- E in *.
  replace (220 <? zlen (trim body)) with true by lia. unfold str_range.
  assert (is_char_boundary (trim body) 220 = false) as ->; [|by rewrite andb_false_r].
  unfold is_char_boundary. rewrite Hb, Hc. replace (220 =? zlen (trim body)) with false by lia. done.
Qed.
End CallErrors.

(** An error page longer than 220 bytes whose 220th byte falls inside a
    character brings the call down: describing the rejection panics, and so
    does the call that got it as its first answer, whatever it was for. *)
Theorem long_error_page_panics `{SerdeJson} `{HttpText} `{AccountLib}
    label answers draws status header body b :
  answers 0 = Responded status header (inl body) -> is_success status = false ->
  json_value body = None -> 220 < zlen (trim body) -> zget (trim body) 220 = Some b -> is_cont b = true ->
  sn_result (send_with_retry label answers draws) = Panic.
Proof.
  intros Ha Hs Hj Hl Hb Hc. unfold send_with_retry, API_ATTEMPTS. change (Z.to_nat 5) with 5%nat.
  cbn [send_loop]. by rewrite Ha, Hs, (describe_long_panics status body b).
Qed.

Definition demo_account : AccountData :=
  mkAccount (str "d") (str "t") (mkConfig (mkAddresses [] []) [] [] []) (mkInfo [] [] []).
Definition demo_account_lib : AccountLib :=
  {| json_account s := if bool_decide (s = str "{}") then inl demo_account else inr (str "bad");
     json_payload _ := inl (str "{}"); x25519_public s := s |}.
Definition demo_page : bytes := replicate 219 97 ++ [0xc3; 0xa9] ++ replicate 60 97.

Lemma long_error_page_panics_witness :
  utf8_valid demo_page = true /\
  sn_result (@send_with_retry demo_json demo_http demo_account_lib (str "registration")
    (fun _ => Responded 503 None (inl demo_page)) (fun _ => 0)) = Panic.
Proof.
  split; [vm_compute; reflexivity|].
  apply (@long_error_page_panics demo_json demo_http demo_account_lib
    (str "registration") _ (fun _ => 0) 503 None demo_page 0xa9); vm_compute; reflexivity.
Defined.

(** A server that asks for a pause is obeyed even after the last attempt. *)
Lemma pause_after_last_attempt :
  sn_waits (@send_with_retry demo_json demo_http demo_account_lib (str "registration")
    (fun _ => Responded 503 (Some (str "60")) (inl [])) (fun _ => 0))
  = [30000; 450; 30000; 900; 30000; 1800; 30000; 3600; 30000].
Proof. vm_compute. reflexivity. Qed.

(** ** The certificate *)

(** What [ensure_masque_enrolled] gives, case by case. *)
Lemma ensure_enrolled_spec `{Target} `{UnicodeTables} `{ErrorText} `{SerdeJson} `{Base64} `{HttpText}
    `{AccountLib} w i kp now later :
  0 <= cert_issued_at i -> now < 2 ^ 63 ->
  match ensure_masque_enrolled w i kp now later with
  | Ok e =>
      (me_renewed e = true /\ me_issued_at e = later /\
       exists k account, kp = Ok k /\ me_cert_pem e = kp_cert_pem k /\ me_key_pem e = kp_key_pem k /\
         enroll_key w (device_id i) (access_token i) (kp_spki_der k) None = Ok account) \/
      (me_renewed e = false /\ me_cert_pem e = cert_pem i /\ me_key_pem e = key_pem i /\
       me_issued_at e = cert_issued_at i /\ cert_pem i <> [] /\ key_pem i <> [] /\ 0 < cert_issued_at i /\
       exists t, (t = now \/ t = later) /\ cert_issued_at i <= t < cert_issued_at i + MASQUE_CERT_LIFETIME_SECS)
  | Err e => has_masque_credentials i now = false /\ (kp = Err e \/ cert_still_usable i later = false)
  | _ => True
  end.
Proof.
  intros Hi Hn. unfold ensure_masque_enrolled. fold (has_masque_credentials i now).
  destruct (has_masque_credentials i now) eqn:Hh.
  - right. unfold has_masque_credentials, masque_cert_expiring in Hh.
    destruct (cert_pem i) eqn:Ec; [done|]. destruct (key_pem i) eqn:Ek; [done|]. simpl in Hh |- *.
    destruct (Z.eqb_spec (cert_issued_at i) 0); [done|]. destruct (Z.ltb_spec now (cert_issued_at i)); [done|].
    unfold MASQUE_CERT_LIFETIME_SECS, MASQUE_CERT_RENEW_BEFORE_SECS, as_u64 in *.
    rewrite Z.mod_small in Hh by lia. split_and!; [done..|lia|]. exists now. split; [by left|lia].
  - destruct kp as [k|e| |]; simpl; [|by auto|done..].
    destruct (enroll_key _ _ _ _ _) as [a|e| |] eqn:E; [left; by eauto 10| |done..].
    destruct (cert_still_usable i later) eqn:Hu; [right|by auto]. unfold cert_still_usable in Hu.
    destruct (cert_pem i); [done|]. destruct (key_pem i); [done|]. simpl in Hu |- *.
    destruct (Z.eqb_spec (cert_issued_at i) 0); [done|]. destruct (Z.ltb_spec later (cert_issued_at i)); [done|].
    split_and!; [done..|lia|]. exists later. split; [by right|lia].
Qed.

(** The certificate a tunnel is started with is either the fresh one, which
    the API has accepted, or the saved one, and then it is inside its lifetime
    when it is looked at; there is an error only if no usable certificate is
    saved and the key could not be made or enrolled. *)
Theorem enrolled_certificate_valid `{Target} `{UnicodeTables} `{ErrorText} `{SerdeJson} `{Base64} `{HttpText}
    `{AccountLib} w i kp now later :
  0 <= cert_issued_at i -> now < 2 ^ 63 ->
  match ensure_masque_enrolled w i kp now later with
  | Ok e =>
      (me_renewed e = true /\ me_issued_at e = later /\
       exists k account, kp = Ok k /\ me_cert_pem e = kp_cert_pem k /\ me_key_pem e = kp_key_pem k /\
         enroll_key w (device_id i) (access_token i) (kp_spki_der k) None = Ok account) \/
      (me_renewed e = false /\ me_cert_pem e = cert_pem i /\ me_key_pem e = key_pem i /\
       me_issued_at e = cert_issued_at i /\ cert_pem i <> [] /\ key_pem i <> [] /\ 0 < cert_issued_at i /\
       exists t, (t = now \/ t = later) /\ cert_issued_at i <= t < cert_issued_at i + MASQUE_CERT_LIFETIME_SECS)
  | Err e => has_masque_credentials i now = false /\ (kp = Err e \/ cert_still_usable i later = false)
  | _ => True
  end.
Proof. apply ensure_enrolled_spec. Qed.

Definition demo_world (status : Z) : ApiWorld :=
  mkApiWorld (fun _ _ => Responded status None (inl (str "{}"))) (fun _ => 0) [] (fun _ _ _ => Failed []).
Definition demo_identity : Identity :=
  mkIdentity (str "d") (str "t") (str "cert") (str "key") 1000 (str "172.16.0.2") [] (replicate 32 1)
    (replicate 32 2) [0; 0; 0] [] [] [] false.
(** In the last week the saved certificate serves if the API is down. *)
Lemma enrolled_certificate_valid_witness :
  let now := 1000 + MASQUE_CERT_LIFETIME_SECS - 86400 in
  let r := @ensure_masque_enrolled target64 no_unicode no_error_text demo_json demo_base64 demo_http demo_account_lib
    (demo_world 503) demo_identity (Ok (mkKeyPair [1] [2] [3])) now (now + 60) in
  r = Ok (mkEnrollment (str "cert") (str "key") 1000 false) /\
  exists t, (t = now \/ t = now + 60) /\ 1000 <= t < 1000 + MASQUE_CERT_LIFETIME_SECS.
Proof.
  intros now r.
  pose proof (@enrolled_certificate_valid target64 no_unicode no_error_text demo_json demo_base64 demo_http
    demo_account_lib (demo_world 503) demo_identity (Ok (mkKeyPair [1] [2] [3])) now (now + 60)
    ltac:(simpl; lia) ltac:(vm_compute; reflexivity)) as Hv.
  assert (r = Ok (mkEnrollment (str "cert") (str "key") 1000 false)) as Hr by (vm_compute; reflexivity).
  split; [exact Hr|]. change (ensure_masque_enrolled _ _ _ _ _) with r in Hv. rewrite Hr in Hv. simpl in Hv.
  destruct Hv as [[Hf _]|Hv]; [discriminate Hf|]. apply Hv.
Defined.
