(* ===== verification/Store.v ===== *)
(** * Files the engine keeps

    Models config.rs, the identity on disk with its private, atomic writes and
    the quarantine of damaged files, and lastconn.rs, the last gateway and the
    gateways to avoid.  The file system is a map from paths, as they are
    spelled, to files; which system call fails is an argument. *)

From Stdlib Require Import ZArith Lia ZifyBool String List.
From stdpp Require Import base list numbers option decidable gmap.
From S2P Require Import Prelude RustStr NetAddr Errors WebLib Account.
Open Scope Z_scope.

(** ** Paths *)

(** What [components] ignores at the end of a path: slashes and single dots. *)
Fixpoint strip_trail (fuel : nat) (s : bytes) : bytes :=
  match fuel with
  | O => s
  | S fuel =>
      if ends_with s (str "/.") then strip_trail fuel (take (length s - 1) s)
      else if ends_with s (str "/") && negb (bool_decide (s = str "/")) then strip_trail fuel (take (length s - 1) s)
      else s
  end.
Definition path_body (s : bytes) : bytes := strip_trail (length s) s.
Definition last_component (s : bytes) : bytes :=
  match rsplit_once 47 (path_body s) with Some (_, name) => name | None => path_body s end.
Definition file_name (s : bytes) : option bytes :=
  let name := last_component s in
  if is_empty name || bool_decide (name = str ".") || bool_decide (name = str "..") then None else Some name.
Definition parent (s : bytes) : option bytes :=
  match rsplit_once 47 (path_body s) with
  | Some (p, name) =>
      if is_empty p then if is_empty name then None else Some (str "/") else Some (path_body p)
  | None => if is_empty (path_body s) then None else Some []
  end.
Definition path_push (s name : bytes) : bytes :=
  if is_empty s || ends_with s (str "/") then s ++ name else s ++ str "/" ++ name.
Definition set_file_name (s name : bytes) : bytes :=
  path_push (match file_name s with Some _ => default [] (parent s) | None => s end) name.

Definition DEFAULT_NAME : bytes := str "soildtunnel.toml".
Definition name_or_default (path : bytes) : bytes := default DEFAULT_NAME (file_name path).
Definition quarantine_path (path : bytes) : bytes := set_file_name path (name_or_default path ++ str ".corrupt").
Definition temporary_path (pid : Z) (path : bytes) : bytes :=
  set_file_name path (str "." ++ name_or_default path ++ str "." ++ dec_str pid ++ str ".tmp").

Example file_name_ex : map file_name [str "a/b.toml"; str "b.toml"; str "a/."; str "/"; str ".."; str "a//"]
  = [Some (str "b.toml"); Some (str "b.toml"); Some (str "a"); None; None; Some (str "a")].
Proof. reflexivity. Qed.
Example temporary_path_ex : map (temporary_path 7) [str "/data//s.toml"; str "s.toml"; str "/s.toml"; str "./s.toml"]
  = [str "/data/.s.toml.7.tmp"; str ".s.toml.7.tmp"; str "/.s.toml.7.tmp"; str "./.s.toml.7.tmp"].
Proof. reflexivity. Qed.

(** ** The file system *)

Record File : Type := mkFile { f_mode : Z; f_data : bytes }.
Notation FS := (gmap bytes File).
Definition PRIVATE_MODE : Z := 0x180.  (** 0o600 *)
Definition PLAIN_MODE : Z := 0x1a4.    (** 0o644 *)

Definition mode_of (fs : FS) (path : bytes) (created : Z) : Z :=
  match fs !! path with Some f => f_mode f | None => created end.
Definition path_exists (fs : FS) (path : bytes) : bool := bool_decide (is_Some (fs !! path)).

(** [std::fs::read_to_string]; [fault] is an error of the system. *)
Definition read_to_string (fs : FS) (path : bytes) (fault : option io_error) : outcome io_error bytes :=
  match fault with
  | Some e => Err e
  | None =>
      match fs !! path with
      | None => Err (mkIo NotFound (Some 2))
      | Some f => if utf8_valid (f_data f) then Ok (f_data f) else Err (mkIo InvalidData None)
      end
  end.
Definition rename (fs : FS) (from to : bytes) : option FS :=
  match fs !! from with Some f => Some (<[to := f]> (delete from fs)) | None => None end.
(** [std::fs::write], which truncates the file in place. *)
Definition fs_write (fs : FS) (path data : bytes) : FS := <[path := mkFile (mode_of fs path PLAIN_MODE) data]> fs.

(** *** Private, atomic writes *)

(** The system calls of [write_private]; a write may stop after some bytes. *)
Inductive write_call : Type :=
| CreateDir | OpenTemporary | WriteAll (written : nat) | Flush | SyncAll | SetPermissions | Rename.
(** The call that fails, its error, and whether removing the temporary file
    fails then too, which is ignored. *)
Definition WriteFault : Type := write_call * io_error * bool.
Definition fails_at (fault : option WriteFault) (p : write_call -> bool) : option io_error :=
  match fault with Some (c, e, _) => if p c then Some e else None | None => None end.
Definition removal_fails (fault : option WriteFault) : bool := match fault with Some (_, _, b) => b | None => false end.

(** The result, and the states the file system goes through. *)
Definition write_private (pid : Z) (fs : FS) (path contents : bytes) (fault : option WriteFault)
  : result unit * list FS :=
  let temporary := temporary_path pid path in
  let needs_dir := match parent path with Some d => negb (is_empty d) | None => false end in
  match fails_at fault (fun c => needs_dir && match c with CreateDir => true | _ => false end) with
  | Some e => (Err (Io e), [fs])
  | None =>
      let abandon e fss := (Err (Io e), fss ++ if removal_fails fault then [] else [delete temporary (List.last fss fs)]) in
      match fails_at fault (fun c => match c with OpenTemporary => true | _ => false end) with
      | Some e => abandon e [fs]
      | None =>
          let mode := mode_of fs temporary PRIVATE_MODE in
          let opened := <[temporary := mkFile mode []]> fs in
          match fault with
          | Some (WriteAll n, e, _) => abandon e [fs; opened; <[temporary := mkFile mode (take n contents)]> fs]
          | _ =>
              let written := <[temporary := mkFile mode contents]> fs in
              match fails_at fault (fun c => match c with Flush | SyncAll | SetPermissions => true | _ => false end) with
              | Some e => abandon e [fs; opened; written]
              | None =>
                  let sealed := <[temporary := mkFile PRIVATE_MODE contents]> fs in
                  match fails_at fault (fun c => match c with Rename => true | _ => false end), rename sealed temporary path with
                  | Some e, _ => abandon e [fs; opened; written; sealed]
                  | None, None => abandon (mkIo NotFound (Some 2)) [fs; opened; written; sealed]
                  | None, Some renamed => (Ok tt, [fs; opened; written; sealed; renamed])
                  end
              end
          end
      end
  end.
Definition final (fs : FS) (r : result unit * list FS) : result unit * FS := (r.1, List.last r.2 fs).

(** ** The identity on disk *)

Record PersistedIdentity : Type := mkPersisted {
  p_device_id : bytes; p_access_token : bytes; p_cert_pem : bytes; p_key_pem : bytes; p_cert_issued_at : Z;
  p_ipv4 : bytes; p_ipv6 : bytes; p_wg_private_key : bytes; p_wg_peer_public_key : bytes; p_client_id : bytes;
  p_organization : bytes; p_gateway_proxy : bytes; p_assigned_endpoint : bytes }.
#[export] Instance PersistedIdentity_eq_dec : EqDecision PersistedIdentity.
Proof. solve_decision. Defined.

Section Identities.
Context `{Base64} `{ErrorText} `{Toml PersistedIdentity}.

Definition persisted_from (i : Identity) : PersistedIdentity :=
  mkPersisted (device_id i) (access_token i) (from_utf8_lossy (cert_pem i)) (from_utf8_lossy (key_pem i))
    (cert_issued_at i) (ipv4 i) (ipv6 i) (b64_encode (wg_private_key i)) (b64_encode (wg_peer_public_key i))
    (b64_encode (client_id i)) (organization i) (gateway_proxy i) (assigned_endpoint i).

Definition decode_fixed (n : Z) (field value : bytes) : result bytes :=
  match b64_decode value with
  | inr e => Err (Other (str "config field " ++ field ++ str " is not valid base64: " ++ e))
  | inl decoded =>
      if negb (zlen decoded =? n) then
        Err (Other (str "config field " ++ field ++ str " must decode to " ++ dec_str n ++ str " bytes, found "
                    ++ dec_str (zlen decoded)))
      else Ok decoded
  end.

Definition identity_try_from (p : PersistedIdentity) : result Identity :=
  let! wg_private_key := decode_fixed 32 (str "wg_private_key") (p_wg_private_key p) in
  let! wg_peer_public_key := decode_fixed 32 (str "wg_peer_public_key") (p_wg_peer_public_key p) in
  let client_id :=
    if is_empty (p_client_id p) then [0; 0; 0]
    else match decode_fixed 3 (str "client_id") (p_client_id p) with Ok c => c | _ => [0; 0; 0] end in
  Ok (mkIdentity (p_device_id p) (p_access_token p) (p_cert_pem p) (p_key_pem p) (p_cert_issued_at p)
        (p_ipv4 p) (p_ipv6 p) wg_private_key wg_peer_public_key client_id (p_organization p)
        (p_gateway_proxy p) (p_assigned_endpoint p) false).

(** The rename fails or not; the target it went to. *)
Definition quarantine (fs : FS) (path : bytes) (fault : bool) : option bytes * FS :=
  let target := quarantine_path path in
  match (if fault then None else rename fs path target) with
  | Some fs => (Some target, fs)
  | None => (None, fs)
  end.
Definition damaged (what path : bytes) (moved : option bytes) : SoildTunnelError :=
  Other (what ++ match moved with
                 | Some target => str "; the damaged file was moved to " ++ target
                                  ++ str " so a fresh identity can be provisioned"
                 | None => str "; delete " ++ path ++ str " to provision a fresh identity"
                 end).

Definition config_load (fs : FS) (path : bytes) (read_fault : option io_error) (rename_fault : bool)
  : result (option Identity) * FS :=
  if negb (path_exists fs path) then (Ok None, fs)
  else match read_to_string fs path read_fault with
  | Ok text =>
      match from_toml text with
      | inr e =>
          let '(moved, fs) := quarantine fs path rename_fault in
          (Err (damaged (str "config parse: " ++ e) path moved), fs)
      | inl persisted =>
          match identity_try_from persisted with
          | Ok identity => (Ok (Some identity), fs)
          | Err e =>
              let '(moved, fs) := quarantine fs path rename_fault in
              (Err (damaged (error_str e) path moved), fs)
          | Panic => (Panic, fs)
          | OutOfFuel => (OutOfFuel, fs)
          end
      end
  | Err e => (Err (Io e), fs)
  | Panic => (Panic, fs)
  | OutOfFuel => (OutOfFuel, fs)
  end.

Definition encoded_text (p : PersistedIdentity) : result bytes :=
  match to_toml p with inl text => Ok text | inr e => Err (Other (str "config encode: " ++ e)) end.

Definition config_save (pid : Z) (fs : FS) (path : bytes) (i : Identity) (fault : option WriteFault)
  : result unit * FS :=
  match encoded_text (persisted_from i) with
  | Ok text => final fs (write_private pid fs path text fault)
  | Err e => (Err e, fs)
  | Panic => (Panic, fs)
  | OutOfFuel => (OutOfFuel, fs)
  end.

Definition with_creds (p : PersistedIdentity) (cert key : bytes) (issued_at : Z) : PersistedIdentity :=
  mkPersisted (p_device_id p) (p_access_token p) (from_utf8_lossy cert) (from_utf8_lossy key) issued_at
    (p_ipv4 p) (p_ipv6 p) (p_wg_private_key p) (p_wg_peer_public_key p) (p_client_id p) (p_organization p)
    (p_gateway_proxy p) (p_assigned_endpoint p).

Definition save_masque_creds (pid : Z) (fs : FS) (path cert key : bytes) (issued_at : Z)
    (read_fault : option io_error) (fault : option WriteFault) : result unit * FS :=
  if negb (path_exists fs path) then (Ok tt, fs)
  else match read_to_string fs path read_fault with
  | Ok text =>
      match from_toml text with
      | inr e => (Err (Other (str "config parse: " ++ e)), fs)
      | inl persisted =>
          match encoded_text (with_creds persisted cert key issued_at) with
          | Ok text => final fs (write_private pid fs path text fault)
          | Err e => (Err e, fs)
          | Panic => (Panic, fs)
          | OutOfFuel => (OutOfFuel, fs)
          end
      end
  | Err e => (Err (Io e), fs)
  | Panic => (Panic, fs)
  | OutOfFuel => (OutOfFuel, fs)
  end.
End Identities.

(** ** The last gateway, and gateways to avoid *)

Record LastConnection : Type := mkLast { lc_peer : bytes; lc_profile : bytes }.
Record AvoidEntry : Type := mkAvoid { av_peer : bytes; av_at : Z }.
Definition AvoidList : Type := list AvoidEntry.
#[export] Instance LastConnection_eq_dec : EqDecision LastConnection.
Proof. solve_decision. Defined.
#[export] Instance AvoidEntry_eq_dec : EqDecision AvoidEntry.
Proof. solve_decision. Defined.
Definition AVOID_TTL_SECS : Z := 12 * 3600.

Definition ok_of {E A : Type} (r : outcome E A) : option A := match r with Ok a => Some a | _ => None end.

Section LastConn.
Context `{Toml LastConnection} `{Toml AvoidList}.

Definition lastconn_load (fs : FS) (path : bytes) (fault : option io_error) : option LastConnection :=
  let? text := ok_of (read_to_string fs path fault) in
  match from_toml text with inl c => Some c | inr _ => None end.

Definition lastconn_save (fs : FS) (path peer profile : bytes) (fault : bool) : FS :=
  match to_toml (mkLast peer profile) with
  | inl text => if fault then fs else fs_write fs path text
  | inr _ => fs
  end.

Definition lastconn_forget (fs : FS) (path peer : bytes) (read_fault : option io_error) (remove_fault : bool) : FS :=
  match lastconn_load fs path read_fault with
  | Some cached => if bool_decide (lc_peer cached = peer) then if remove_fault then fs else delete path fs else fs
  | None => fs
  end.

Definition avoid_list (fs : FS) (path : bytes) (fault : option io_error) : AvoidList :=
  let text := default [] (ok_of (read_to_string fs path fault)) in
  match from_toml text with inl l => l | inr _ => [] end.
Definition fresh (now : Z) (e : AvoidEntry) : bool := Z.max 0 (now - av_at e) <? AVOID_TTL_SECS.

Definition load_avoided (fs : FS) (path : bytes) (now : Z) (fault : option io_error) : list SocketAddr :=
  omap (fun e => parse_socket_addr (av_peer e)) (List.filter (fresh now) (avoid_list fs path fault)).

Definition push_avoid (now : Z) (entries : AvoidList) (peer : SocketAddr) : AvoidList :=
  let peer := sock_str peer in
  if existsb (fun e => bool_decide (av_peer e = peer)) entries then entries else entries ++ [mkAvoid peer now].
(** [peers] in the order the set is gone through. *)
Definition save_avoided (fs : FS) (path : bytes) (peers : list SocketAddr) (now : Z) (read_fault : option io_error)
    (write_fault : bool) : FS :=
  let entries := foldl (push_avoid now) (List.filter (fresh now) (avoid_list fs path read_fault)) peers in
  match to_toml entries with
  | inl text => if write_fault then fs else fs_write fs path text
  | inr _ => fs
  end.
End LastConn.

(** ** Paths: the temporary file is another one *)

Lemma ends_with_last (s p : bytes) (c d : Z) : ends_with (s ++ [c]) (p ++ [d]) = true -> c = d.
Proof.
  unfold ends_with. intros H. apply andb_prop in H as [Hl H]. rewrite !bool_decide_eq_true in *.
  rewrite !length_app in *. simpl in *. rewrite drop_app_le in H by lia. by apply app_inj_tail in H as [_ H].
Qed.

Lemma path_body_plain s c : c <> 47 -> c <> 46 -> path_body (s ++ [c]) = s ++ [c].
Proof.
  intros H1 H2. unfold path_body. rewrite length_app. simpl. rewrite Nat.add_comm. cbn [Nat.add strip_trail].
  destruct (ends_with _ (str "/.")) eqn:E1; [by apply (ends_with_last s (str "/") c 46) in E1|].
  destruct (ends_with _ (str "/")) eqn:E2; [by apply (ends_with_last s [] c 47) in E2|]. done.
Qed.

Lemma last_component_push s name c :
  47 ∉ name ++ [c] -> c <> 46 -> last_component (path_push s (name ++ [c])) = name ++ [c].
Proof.
  intros Hn Hd. assert (c <> 47) by set_solver. unfold last_component.
  assert (path_body (path_push s (name ++ [c])) = path_push s (name ++ [c])) as ->.
  { unfold path_push. destruct (_ || _); rewrite !app_assoc; by apply path_body_plain. }
  unfold path_push. destruct (is_empty s) eqn:Es; [|destruct (ends_with s (str "/")) eqn:Ee]; simpl orb; cbv iota.
  - destruct s; [|done]. simpl app. unfold rsplit_once.
    destruct (split_once 47 (rev (name ++ [c]))) as [[x y]|] eqn:E; [|done].
    apply split_once_Some in E as [E _]. exfalso. apply Hn. apply list_elem_of_In, in_rev. rewrite E.
    apply in_app_iff. right. by left.
  - assert (s = take (length s - 1) s ++ [47]) as ->.
    { apply andb_prop in Ee as [_ Ee]. rewrite bool_decide_eq_true in Ee. change (str "/") with [47] in Ee.
      simpl length in Ee. by rewrite <- Ee, take_drop. }
    rewrite <- app_assoc. simpl app. set (p := take _ _).
    destruct (rsplit_once 47 (p ++ 47 :: name ++ [c])) as [[x y]|] eqn:E;
      pose proof (proj2 (rsplit_once_Some 47 (p ++ 47 :: name ++ [c]) p (name ++ [c]))) as Hs;
      rewrite Hs in E; [by simplify_eq|split; [done|by rewrite <- list_elem_of_In]|done|
                        split; [done|by rewrite <- list_elem_of_In]].
  - change (str "/" ++ name ++ [c]) with (47 :: name ++ [c]).
    rewrite (proj2 (rsplit_once_Some 47 (s ++ 47 :: name ++ [c]) s (name ++ [c]))); [done|].
    split; [done|by rewrite <- list_elem_of_In].
Qed.

Lemma name_no_slash path name : file_name path = Some name -> 47 ∉ name.
Proof.
  unfold file_name, last_component. destruct (_ || _ || _); [done|]. intros [= <-].
  destruct (rsplit_once 47 (path_body path)) as [[p n]|] eqn:E.
  - apply rsplit_once_Some in E as [_ E]. by rewrite list_elem_of_In.
  - unfold rsplit_once in E. destruct (split_once 47 (rev (path_body path))) as [[]|] eqn:Es; [done|].
    apply split_once_None in Es. by rewrite list_elem_of_In, in_rev.
Qed.

(** Any longer name that ends in a letter gives another path. *)
Lemma set_file_name_ne path name c :
  47 ∉ name ++ [c] -> c <> 46 -> (length (name_or_default path) < length (name ++ [c]))%nat ->
  set_file_name path (name ++ [c]) <> path.
Proof.
  intros Hn Hc Hl He. unfold set_file_name, name_or_default in *. destruct (file_name path) as [old|] eqn:E.
  - assert (last_component path = name ++ [c]) as Hp by (rewrite <- He; by apply last_component_push).
    unfold file_name in E. destruct (_ || _ || _); [done|]. simplify_eq. rewrite Hp in Hl. simpl in Hl. lia.
  - apply (f_equal length) in He. unfold path_push in He. destruct (_ || _); rewrite !length_app in He; simpl in He; lia.
Qed.

Lemma name_or_default_no_slash path : 47 ∉ name_or_default path.
Proof.
  unfold name_or_default. destruct (file_name path) eqn:E; [by eapply name_no_slash|]. simpl.
  rewrite list_elem_of_In. vm_compute. lia.
Qed.

Lemma dec_str_no_slash pid : 0 <= pid < 2 ^ 64 -> 47 ∉ dec_str pid.
Proof.
  intros Hp Hin. destruct (dec_str_digits pid Hp) as (_ & _ & Hd). rewrite Forall_forall in Hd. by apply Hd in Hin.
Qed.

Lemma temporary_ne pid path : 0 <= pid < 2 ^ 64 -> temporary_path pid path <> path.
Proof.
  intros Hp. unfold temporary_path.
  replace (str "." ++ name_or_default path ++ str "." ++ dec_str pid ++ str ".tmp") with
    ((str "." ++ name_or_default path ++ str "." ++ dec_str pid ++ str ".tm") ++ [112]) by (by rewrite <- !app_assoc).
  apply set_file_name_ne; [|done|rewrite !length_app; simpl; lia].
  pose proof (name_or_default_no_slash path). pose proof (dec_str_no_slash pid Hp). set_solver.
Qed.

Lemma quarantine_ne path : quarantine_path path <> path.
Proof.
  unfold quarantine_path. replace (name_or_default path ++ str ".corrupt") with
    ((name_or_default path ++ str ".corrup") ++ [116]) by (by rewrite <- app_assoc).
  apply set_file_name_ne; [|done|rewrite !length_app; simpl; lia].
  pose proof (name_or_default_no_slash path). set_solver.
Qed.

(** ** Writes are atomic *)

Section Atomic.
Context (fs : FS) (path temporary : bytes) (f : File) (Hne : temporary <> path).

(** A state in which the file is the old one or the new one, whole, and no
    other file but the temporary one differs. *)
Definition old_or_new (s : FS) : Prop :=
  (s !! path = fs !! path \/ s !! path = Some f) /\
  forall p, p <> path -> p <> temporary -> s !! p = fs !! p.

Lemma old_or_new_refl : old_or_new fs.
Proof. split; auto. Qed.
Lemma old_or_new_temporary g : old_or_new (<[temporary := g]> fs).
Proof. split; [left; by rewrite lookup_insert_ne|]. intros p Hp Ht. by rewrite lookup_insert_ne. Qed.
Lemma old_or_new_delete s : old_or_new s -> old_or_new (delete temporary s).
Proof.
  intros [Hs Ho]. split; [by rewrite lookup_delete_ne|]. intros p Hp Ht. rewrite lookup_delete_ne by done. auto.
Qed.
Lemma old_or_new_renamed : old_or_new (<[path := f]> (delete temporary (<[temporary := f]> fs))).
Proof.
  split; [right; apply lookup_insert_eq|]. intros p Hp Ht.
  by rewrite lookup_insert_ne, lookup_delete_ne, lookup_insert_ne.
Qed.
End Atomic.
Create HintDb store.
#[export] Hint Resolve old_or_new_refl old_or_new_temporary old_or_new_delete old_or_new_renamed : store.

Lemma rename_sealed (fs : FS) (t p : bytes) (f : File) :
  rename (<[t := f]> fs) t p = Some (<[p := f]> (delete t (<[t := f]> fs))).
Proof. unfold rename. by rewrite lookup_insert_eq. Qed.

(** What holds when a write ends; [stuck]: the temporary file could not be
    removed. *)
Definition write_end (fs : FS) (path temporary : bytes) (f : File) (stuck : bool) (r : result unit) (s : FS) : Prop :=
  match r with
  | Ok _ => s !! path = Some f /\ s !! temporary = None
  | Err _ => s !! path = fs !! path /\ (stuck = false -> s !! temporary = None \/ s = fs)
  | _ => False
  end.

Lemma write_end_abandoned fs path t f e s :
  t <> path -> s !! path = fs !! path -> write_end fs path t f false (Err e) (delete t s).
Proof. intros Hne Hs. split; [by rewrite lookup_delete_ne|]. left. apply lookup_delete_eq. Qed.
Lemma write_end_stuck fs path t f e s : s !! path = fs !! path -> write_end fs path t f true (Err e) s.
Proof. by split. Qed.

Lemma write_end_renamed fs path t f stuck :
  t <> path -> write_end fs path t f stuck (Ok tt) (<[path := f]> (delete t (<[t := f]> fs))).
Proof. intros Hne. split; [apply lookup_insert_eq|]. rewrite lookup_insert_ne by done. apply lookup_delete_eq. Qed.
Lemma write_end_same fs path t f stuck e : write_end fs path t f stuck (Err e) fs.
Proof. split; auto. Qed.
#[export] Hint Resolve write_end_abandoned write_end_stuck write_end_renamed write_end_same : store.

Lemma write_outcome pid fs path contents fault :
  0 <= pid < 2 ^ 64 ->
  let t := temporary_path pid path in
  let f := mkFile PRIVATE_MODE contents in
  let w := write_private pid fs path contents fault in
  Forall (old_or_new fs path t f) w.2 /\ write_end fs path t f (removal_fails fault) w.1 (List.last w.2 fs).
Proof.
  intros Hp t f w. pose proof (temporary_ne pid path Hp) as Hne. fold t in Hne. subst w f. unfold write_private. fold t.
  assert (forall g : File, (<[t := g]> fs) !! path = fs !! path) as Hi by (intros; by rewrite lookup_insert_ne).
  set (needs := match parent path with Some _ => _ | None => _ end).
  destruct fault as [[[c e] []]|]; [destruct c; try destruct needs|destruct c; try destruct needs|destruct needs];
    cbn [fails_at removal_fails andb]; rewrite ?rename_sealed; cbn [fst snd List.last app]; split;
    repeat apply Forall_cons_2; eauto using Forall_nil_2 with store.
Qed.

(** C29: saving never leaves a half-written identity: whichever system call
    fails, and wherever the process is killed, the file holds either what it
    held before or the whole new text, readable by its owner only, and no other
    file is touched.  The call reports success exactly when the new text is in
    place, and no temporary file is left then; when it reports an error, one is
    left only if removing it failed too, or if there was one before and nothing
    was done. *)
Theorem private_write_atomic pid fs path contents fault :
  0 <= pid < 2 ^ 64 ->
  let t := temporary_path pid path in
  let f := mkFile PRIVATE_MODE contents in
  let w := write_private pid fs path contents fault in
  Forall (old_or_new fs path t f) w.2 /\ write_end fs path t f (removal_fails fault) w.1 (List.last w.2 fs).
Proof. apply write_outcome. Qed.

Definition demo_fs : FS := {[ str "s.toml" := mkFile PLAIN_MODE (str "old") ]}.
Lemma private_write_atomic_witness :
  let w := write_private 7 demo_fs (str "s.toml") (str "new") (Some (WriteAll 2, mkIo OtherKind (Some 28), false)) in
  List.last w.2 demo_fs !! str "s.toml" = Some (mkFile PLAIN_MODE (str "old")) /\
  List.last w.2 demo_fs !! str ".s.toml.7.tmp" = None.
Proof.
  intros w. pose proof (private_write_atomic 7 demo_fs (str "s.toml") (str "new")
    (Some (WriteAll 2, mkIo OtherKind (Some 28), false)) ltac:(lia)) as [_ [Hf Hn]].
  split; [exact Hf|]. destruct (Hn eq_refl) as [H1|H1]; [exact H1|]. vm_compute in H1. discriminate H1 || reflexivity.
Defined.

(** ** The identity: what is saved is loaded *)

(** The arrays of an identity have their lengths; its certificate and key are
    text. *)
Definition identity_ok (i : Identity) : Prop :=
  (length (wg_private_key i) = 32%nat /\ bytes_ok (wg_private_key i)) /\
  (length (wg_peer_public_key i) = 32%nat /\ bytes_ok (wg_peer_public_key i)) /\
  (length (client_id i) = 3%nat /\ bytes_ok (client_id i)) /\
  utf8_valid (cert_pem i) = true /\ utf8_valid (key_pem i) = true.

Lemma decode_fixed_encoded `{Base64} `{!Base64Laws} n field s :
  zlen s = n -> bytes_ok s -> decode_fixed n field (b64_encode s) = Ok s.
Proof. intros Hn Hs. unfold decode_fixed. rewrite b64_roundtrip by done. by rewrite Hn, Z.eqb_refl. Qed.

Lemma identity_roundtrip `{Base64} `{!Base64Laws} i :
  identity_ok i -> identity_try_from (persisted_from i) = Ok (with_refused i false).
Proof.
  intros ((Ha & Hab) & (Hb & Hbb) & (Hc & Hcb) & Hcert & Hkey). unfold identity_try_from, persisted_from. simpl.
  rewrite !decode_fixed_encoded by (done || (unfold zlen; lia)). simpl.
  assert (is_empty (b64_encode (client_id i)) = false) as ->.
  { apply ZeroTrust.is_empty_false, b64_nonempty. by destruct (client_id i). }
  by rewrite !from_utf8_lossy_valid.
Qed.

Lemma saved_file `{Base64} `{Toml PersistedIdentity} pid fs path i fault fs' :
  0 <= pid < 2 ^ 64 -> config_save pid fs path i fault = (Ok tt, fs') ->
  exists text, to_toml (persisted_from i) = inl text /\ fs' !! path = Some (mkFile PRIVATE_MODE text) /\
    forall p, p <> path -> p <> temporary_path pid path -> fs' !! p = fs !! p.
Proof.
  intros Hp. unfold config_save, encoded_text. destruct (to_toml _) as [text|] eqn:E; [|done].
  assert (Hw : write_end fs path (temporary_path pid path) (mkFile PRIVATE_MODE text) (removal_fails fault)
    (write_private pid fs path text fault).1 (List.last (write_private pid fs path text fault).2 fs) /\
    Forall (old_or_new fs path (temporary_path pid path) (mkFile PRIVATE_MODE text))
      (write_private pid fs path text fault).2) by (split; apply write_outcome, Hp).
  unfold final. destruct (write_private pid fs path text fault) as [r ss]. simpl in Hw. destruct Hw as [Hw Hf].
  intros [= -> <-]. exists text. split; [done|]. split; [apply Hw|]. intros p H1 H2.
  destruct ss as [|s ss]; [done|]. rewrite Forall_forall in Hf. apply (Hf (List.last (s :: ss) fs)); [|done..].
  apply list_elem_of_In. destruct (@exists_last _ (s :: ss)) as (l & x & ->); [done|]. rewrite last_last.
  apply in_app_iff. right. by left.
Qed.

Lemma load_saved `{Base64} `{ErrorText} `{Toml PersistedIdentity} `{!Base64Laws} `{!TomlLaws PersistedIdentity}
    pid fs path i fault fs' rename_fault :
  0 <= pid < 2 ^ 64 -> identity_ok i -> config_save pid fs path i fault = (Ok tt, fs') ->
  config_load fs' path None rename_fault = (Ok (Some (with_refused i false)), fs').
Proof.
  intros Hp Hi Hs. apply saved_file in Hs as (text & Ht & Hf & _); [|done]. unfold config_load, path_exists.
  rewrite bool_decide_eq_true_2 by (rewrite Hf; by eexists). simpl negb. cbv iota.
  unfold read_to_string. rewrite Hf. simpl. rewrite (toml_utf8 _ _ Ht), (toml_roundtrip _ _ Ht).
  by rewrite identity_roundtrip.
Qed.

(** An identity that was saved is loaded again, complete, by the next start:
    every field, the keys and the certificate included, comes back; only the
    note that the service refused it is not kept. *)
Theorem saved_identity_loaded `{Base64} `{ErrorText} `{Toml PersistedIdentity} `{!Base64Laws} `{!TomlLaws PersistedIdentity}
    pid fs path i fault fs' rename_fault :
  0 <= pid < 2 ^ 64 -> identity_ok i -> config_save pid fs path i fault = (Ok tt, fs') ->
  config_load fs' path None rename_fault = (Ok (Some (with_refused i false)), fs').
Proof. apply load_saved. Qed.

Lemma saved_identity_loaded_witness :
  let B := demo_base64 in
  let T := demo_toml (@persisted_from B demo_identity) in
  let saved := @config_save B T 7 demo_fs (str "s.toml") demo_identity None in
  saved.1 = Ok tt /\ @config_load B no_error_text T saved.2 (str "s.toml") None false = (Ok (Some demo_identity), saved.2).
Proof.
  intros B T saved. split; [vm_compute; reflexivity|].
  apply (@saved_identity_loaded B no_error_text T demo_base64_laws (demo_toml_laws _)
    7 demo_fs (str "s.toml") demo_identity None saved.2 false).
  - lia.
  - repeat split; try reflexivity; unfold bytes_ok, is_u8; simpl; repeat constructor; simpl; lia.
  - vm_compute. reflexivity.
Defined.

(** ** Damaged files *)

(** A configuration that cannot be read as an identity is set aside: loading
    it is an error, the file is moved to its quarantine name with its contents,
    no other file changes, and the next load finds no identity, so that a new
    one is made. *)
Theorem damaged_config_set_aside `{Base64} `{ErrorText} `{Toml PersistedIdentity} fs path f e fs' :
  fs !! path = Some f -> utf8_valid (f_data f) = true ->
  config_load fs path None false = (Err e, fs') ->
  fs' = <[quarantine_path path := f]> (delete path fs) /\
  forall read_fault rename_fault, config_load fs' path read_fault rename_fault = (Ok None, fs').
Proof.
  intros Hf Hu Hl. assert (fs' = <[quarantine_path path := f]> (delete path fs)) as ->.
  { unfold config_load, path_exists, read_to_string in Hl.
    rewrite bool_decide_eq_true_2 in Hl by (rewrite Hf; by eexists). simpl in Hl. rewrite Hf, Hu in Hl. simpl in Hl.
    assert (forall b, quarantine fs path false = (b, fs') -> fs' = <[quarantine_path path := f]> (delete path fs)) as Hq.
    { unfold quarantine, rename. rewrite Hf. intros b Hb. by simplify_eq. }
    destruct (from_toml (f_data f)) as [p|]; [destruct (identity_try_from p)|]; try done;
      destruct (quarantine fs path false); simplify_eq; by eapply Hq. }
  split; [done|]. intros rf nf. unfold config_load, path_exists.
  rewrite lookup_insert_ne by apply quarantine_ne. rewrite lookup_delete_eq.
  rewrite bool_decide_eq_false_2; [done|]. by intros [? ?].
Qed.

Lemma damaged_config_set_aside_witness :
  let B := demo_base64 in
  let T := demo_toml (@persisted_from B demo_identity) in
  exists e fs', @config_load B no_error_text T demo_fs (str "s.toml") None false = (Err e, fs') /\
    fs' !! str "s.toml.corrupt" = Some (mkFile PLAIN_MODE (str "old")) /\
    @config_load B no_error_text T fs' (str "s.toml") None false = (Ok None, fs').
Proof.
  intros B T. destruct (@config_load B no_error_text T demo_fs (str "s.toml") None false) as [r fs'] eqn:E.
  assert (exists e, r = Err e) as [e ->].
  { change r with (r, fs').1. rewrite <- E. eexists. vm_compute. reflexivity. }
  destruct (@damaged_config_set_aside B no_error_text T demo_fs (str "s.toml") (mkFile PLAIN_MODE (str "old")) e fs')
    as [Hfs Hl]; [reflexivity..|exact E|].
  exists e, fs'. split; [done|]. split; [|apply Hl]. rewrite Hfs. apply lookup_insert_eq.
Defined.

(** A file that is not UTF-8 is not set aside: every start fails on it. *)
Lemma undecodable_config_stuck `{Base64} `{ErrorText} `{Toml PersistedIdentity} fs path f rename_fault :
  fs !! path = Some f -> utf8_valid (f_data f) = false ->
  config_load fs path None rename_fault = (Err (Io (mkIo InvalidData None)), fs).
Proof.
  intros Hf Hu. unfold config_load, path_exists, read_to_string. by rewrite Hf, Hu.
Qed.

(** ** Gateways to avoid *)

Section Avoided.
Context `{Toml AvoidList} `{!TomlLaws AvoidList}.

Lemma push_avoid_incl now entries peer e : e ∈ entries -> e ∈ push_avoid now entries peer.
Proof. intros He. unfold push_avoid. destruct (existsb _ _); set_solver. Qed.

Lemma fold_avoid_incl now peers entries e : e ∈ entries -> e ∈ foldl (push_avoid now) entries peers.
Proof.
  revert entries. induction peers as [|p peers IH]; intros entries He; [done|]. simpl. by apply IH, push_avoid_incl.
Qed.

Lemma fold_avoid_known now peers entries a :
  a ∈ peers -> exists e, e ∈ foldl (push_avoid now) entries peers /\ av_peer e = sock_str a.
Proof.
  revert entries. induction peers as [|p peers IH]; intros entries Ha; [by apply not_elem_of_nil in Ha|].
  apply elem_of_cons in Ha as [->|Ha]; [|simpl; by apply IH]. simpl.
  assert (exists e, e ∈ push_avoid now entries p /\ av_peer e = sock_str p) as (e & He & Hp).
  { unfold push_avoid. destruct (existsb _ entries) eqn:E.
    - apply existsb_exists in E as (e & He & Hb). rewrite bool_decide_eq_true in Hb. exists e.
      by rewrite list_elem_of_In.
    - exists (mkAvoid (sock_str p) now). split; [set_solver|done]. }
  exists e. split; [by apply fold_avoid_incl|done].
Qed.

Lemma fold_avoid_from now peers entries e :
  e ∈ foldl (push_avoid now) entries peers -> e ∈ entries \/ av_at e = now.
Proof.
  revert entries. induction peers as [|p peers IH]; intros entries He; [by left|]. simpl in He.
  apply IH in He as [He|He]; [|by right]. unfold push_avoid in He. destruct (existsb _ _); [by left|].
  apply elem_of_app in He as [He|He%list_elem_of_singleton]; [by left|]. right. by subst e.
Qed.

Lemma saved_avoid_list fs path peers now text :
  to_toml (foldl (push_avoid now) (List.filter (fresh now) (avoid_list fs path None)) peers) = inl text ->
  avoid_list (save_avoided fs path peers now None false) path None =
  foldl (push_avoid now) (List.filter (fresh now) (avoid_list fs path None)) peers.
Proof.
  intros Ht. unfold save_avoided. rewrite Ht. unfold avoid_list at 1, read_to_string, fs_write.
  rewrite lookup_insert_eq. simpl f_data. rewrite (toml_utf8 _ _ Ht). simpl. by rewrite (toml_roundtrip _ _ Ht).
Qed.
End Avoided.

Definition v4_peer (a : SocketAddr) : Prop :=
  exists o p, a = sock_new (V4 o) p /\ length o = 4%nat /\ bytes_ok o /\ 0 <= p <= 65535.

(** Gateways to avoid survive a restart, but not forever: a gateway written
    to the list is in it when it is read again within twelve hours, unless an
    earlier entry for it runs out before, and no gateway is avoided for more
    than twelve hours after the list was last written, if the clock was not
    set back. *)
Theorem avoided_until_expiry `{Toml AvoidList} `{!TomlLaws AvoidList} fs path peers now text :
  let old := List.filter (fresh now) (avoid_list fs path None) in
  let fs' := save_avoided fs path peers now None false in
  to_toml (foldl (push_avoid now) old peers) = inl text ->
  (forall a now', a ∈ peers -> v4_peer a -> now <= now' < now + AVOID_TTL_SECS ->
     (forall e, e ∈ old -> av_peer e = sock_str a -> now' < av_at e + AVOID_TTL_SECS) ->
     a ∈ load_avoided fs' path now' None) /\
  (forall now', (forall e, e ∈ old -> av_at e <= now) -> now + AVOID_TTL_SECS <= now' ->
     load_avoided fs' path now' None = []).
Proof.
  intros old fs' Ht. subst old fs'. unfold load_avoided. rewrite (saved_avoid_list _ _ _ _ _ Ht).
  set (old := List.filter _ _) in *. split.
  - intros a now' Ha (o & p & -> & Hl & Ho & Hp) Hn Hold.
    destruct (fold_avoid_known now peers old _ Ha) as (e & He & Hpe).
    apply list_elem_of_omap. exists e. rewrite Hpe. split; [|by apply parse_sock_str_v4].
    apply list_elem_of_In, filter_In. split; [by apply list_elem_of_In|]. unfold fresh.
    destruct (fold_avoid_from now peers old e He) as [Hin| ->]; [|unfold AVOID_TTL_SECS in *; lia].
    specialize (Hold e Hin Hpe). unfold AVOID_TTL_SECS in *. lia.
  - intros now' Hold Hn.
    assert (List.filter (fresh now') (foldl (push_avoid now) old peers) = []) as ->; [|done].
    destruct (List.filter (fresh now') (foldl (push_avoid now) old peers)) as [|e l] eqn:E; [done|]. exfalso.
    assert (In e (e :: l)) as Hin by (by left). rewrite <- E in Hin. apply filter_In in Hin as [Hin Hf].
    apply list_elem_of_In, fold_avoid_from in Hin as [Hin|Hin];
      [specialize (Hold e Hin)|]; unfold fresh, AVOID_TTL_SECS in *; lia.
Qed.

Lemma avoided_until_expiry_witness :
  let a := sock_new (V4 [162; 159; 192; 1]) 443 in
  let T := demo_toml [mkAvoid (str "162.159.192.1:443") 1000] in
  let fs' := @save_avoided T ∅ (str "avoid") [a] 1000 None false in
  a ∈ @load_avoided T fs' (str "avoid") (1000 + 43199) None /\
  @load_avoided T fs' (str "avoid") (1000 + 43200) None = [].
Proof.
  intros a T fs'.
  destruct (@avoided_until_expiry T (demo_toml_laws [mkAvoid (str "162.159.192.1:443") 1000])
    ∅ (str "avoid") [a] 1000 (str "only")) as [H1 H2]; [vm_compute; reflexivity|].
  split.
  - apply H1; [left| |unfold AVOID_TTL_SECS; lia|].
    + exists [162; 159; 192; 1], 443. split_and!; [reflexivity|reflexivity|repeat constructor; unfold is_u8; lia|lia|lia].
    + vm_compute. intros e He. inversion He.
  - apply H2; [|unfold AVOID_TTL_SECS; lia]. vm_compute. intros e He. inversion He.
Defined.
