(* ===== verification/Provision.v ===== *)
(** * Where an identity comes from

    Models the identities of lib.rs: the paths of the configuration files, the
    choice between a personal and a team account, and the flows that load an
    identity, bring it up to date, replace it when the service refuses it, or
    make a new one, directly or through a tunnel.  A flow passes on the state
    of the process (variables, files, gateway, token of the session, override of
    the API's route); the answers of the network and of the disk are arguments. *)

From Stdlib Require Import ZArith Lia ZifyBool String List.
From stdpp Require Import base list numbers option decidable gmap.
From S2P Require Import Prelude RustStr NetAddr Errors WebLib Upstream Socks ApiFront ZeroTrust Account Store.
Open Scope Z_scope.

(** ** Paths *)

(** [base.rfind(p).map(|i| i + 1).unwrap_or(0)]: the directory, with its
    separator, and the rest. *)
Fixpoint split_dir (p : Z -> bool) (s : bytes) : bytes * bytes :=
  match s with
  | [] => ([], [])
  | b :: r =>
      let '(d, n) := split_dir p r in
      if is_empty d then if p b then ([b], n) else ([], b :: n) else (b :: d, n)
  end.
Definition is_separator (c : Z) : bool := (c =? 47) || (c =? 92).

Definition derive_sibling_path (base suffix : bytes) : bytes :=
  let '(dir, name) := split_dir is_separator base in
  match rsplit_once 46 name with
  | Some (stem, ext) => dir ++ stem ++ str "-" ++ suffix ++ str "." ++ ext
  | None => base ++ str "-" ++ suffix
  end.
Definition lastconn_path (config_path : bytes) : bytes := derive_sibling_path config_path (str "lastconn").

Section Paths.
Context `{UnicodeTables}.
Definition team_scope (env : Env) : option bytes := option_map team (team_from_env env).
Definition warp_config_path (env : Env) (base : bytes) : bytes :=
  match env (str "SOILDTUNNEL_WG_CONFIG") with
  | Some p => p
  | None => match team_scope env with
            | Some team => derive_sibling_path base (str "team-" ++ team)
            | None => base
            end
  end.
Definition masque_config_path (env : Env) (base : bytes) : bytes :=
  match env (str "SOILDTUNNEL_MASQUE_CONFIG") with
  | Some p => p
  | None => match team_scope env with
            | Some team => derive_sibling_path base (str "team-" ++ team)
            | None => derive_sibling_path base (str "masque")
            end
  end.
End Paths.

Definition keep_saved_identity (env : Env) : bool :=
  match env (str "SOILDTUNNEL_REPROVISION") with
  | Some v => negb (bool_decide (v ∈ [str "0"; str "off"; str "false"]))
  | None => true
  end.

(** *** Teams with a saved enrolment *)

(** Byte-wise order of strings, for [sort]. *)
Fixpoint bytes_le (a b : bytes) : bool :=
  match a, b with
  | [], _ => true
  | _ :: _, [] => false
  | x :: a, y :: b => if x <? y then true else if y <? x then false else bytes_le a b
  end.
Fixpoint insert_sorted (x : bytes) (l : list bytes) : list bytes :=
  match l with
  | [] => [x]
  | y :: l => if bytes_le x y then x :: y :: l else y :: insert_sorted x l
  end.

Definition team_of_entry (prefix name : bytes) : option bytes :=
  let? rest := strip_prefix name prefix in
  let? team := strip_suffix rest (str ".toml") in
  if is_empty team || ends_with team (str "-secondary") || ends_with team (str "-lastconn") then None else Some team.
Definition push_team (teams : list bytes) (team : bytes) : list bytes :=
  if existsb (fun known => bool_decide (known = team)) teams then teams else teams ++ [team].

(** [entries]: the names in the directory of [base], if it can be read. *)
Definition enrolled_teams (base : bytes) (entries : option (list bytes)) : list bytes :=
  let '(_, name) := split_dir is_separator base in
  let stem := match rsplit_once 46 name with Some (stem, _) => stem | None => name end in
  let prefix := stem ++ str "-team-" in
  match entries with
  | None => []
  | Some entries => foldr insert_sorted [] (foldl push_team [] (omap (team_of_entry prefix) entries))
  end.

(** ** The state of the process *)

Record Host : Type := mkHost {
  h_env : Env; h_fs : FS; h_gateway : Gateway; h_token : option bytes; h_override : option Upstream }.
Definition set_env (h : Host) (env : Env) : Host := mkHost env (h_fs h) (h_gateway h) (h_token h) (h_override h).
Definition set_fs (h : Host) (fs : FS) : Host := mkHost (h_env h) fs (h_gateway h) (h_token h) (h_override h).
Definition set_gateway (h : Host) (g : Gateway) : Host := mkHost (h_env h) (h_fs h) g (h_token h) (h_override h).
Definition set_token (h : Host) (t : option bytes) : Host := mkHost (h_env h) (h_fs h) (h_gateway h) t (h_override h).
Definition set_override_to (h : Host) (o : option Upstream) : Host :=
  mkHost (h_env h) (h_fs h) (h_gateway h) (h_token h) o.

Definition set_var (env : Env) (key value : bytes) : Env := fun k => if bool_decide (k = key) then Some value else env k.
Definition remove_var (env : Env) (key : bytes) : Env := fun k => if bool_decide (k = key) then None else env k.

(** [upstream::set_override]. *)
Definition set_override `{UnicodeTables} (h : Host) (url : option bytes) : Host :=
  set_override_to h (let? raw := url in match upstream_parse raw with Ok u => Some u | _ => None end).

(** Computations on the state. *)
Definition Flow (A : Type) : Type := Host -> result A * Host.
Definition flow_ret {A : Type} (r : result A) : Flow A := fun h => (r, h).
Definition flow_bind {A B : Type} (m : Flow A) (k : A -> Flow B) : Flow B := fun h =>
  match m h with
  | (Ok a, h) => k a h
  | (Err e, h) => (Err e, h)
  | (Panic, h) => (Panic, h)
  | (OutOfFuel, h) => (OutOfFuel, h)
  end.
Notation "'let*' x := m 'in' k" := (flow_bind m (fun x => k)) (at level 200, x name, m at level 100, k at level 200).

(** What the disk does in one flow. *)
Record Disk : Type := mkDisk {
  dk_pid : Z; dk_read : option io_error; dk_rename : bool; dk_write : option WriteFault }.

(** What a registration meets: the network, the clock, random draws. *)
Record Fresh : Type := mkFresh {
  fr_api : ApiWorld; fr_refresh : ApiWorld; fr_access : Access; fr_now : Z; fr_later : Z; fr_tos : bytes;
  fr_seed : bytes; fr_serial : bytes; fr_draws : list Z; fr_draws' : list Z }.

Definition DEFAULT_MODEL : bytes := str "PC".
Definition DEFAULT_LOCALE : bytes := str "en_US".

Section Flows.
Context `{Target} `{UnicodeTables} `{ErrorText} `{SerdeJson} `{Base64} `{HttpText} `{AccountLib} `{Toml PersistedIdentity}.

Definition load_flow (d : Disk) (path : bytes) : Flow (option Identity) := fun h =>
  let '(r, fs) := config_load (h_fs h) path (dk_read d) (dk_rename d) in (r, set_fs h fs).
Definition save_flow (d : Disk) (path : bytes) (i : Identity) : Flow unit := fun h =>
  let '(r, fs) := config_save (dk_pid d) (h_fs h) path i (dk_write d) in (r, set_fs h fs).

(** ** Accounts *)

Definition provision_team (model locale : bytes) (settings : TeamSettings) (f : Fresh) : Flow Identity := fun h =>
  let '(token, cache) := resolve_token (h_token h) settings (fr_now f) (fr_later f) (fr_access f) in
  (let! token := token in
   let! '(reg, private) := register_with_team (fr_api f) model locale (fr_tos f) token (fr_seed f)
     (fr_draws f) (fr_draws' f) in
   finish_provision reg private, set_token h cache).
Definition provision_wg (model locale : bytes) (f : Fresh) : Flow Identity :=
  flow_ret (let! '(reg, private) := register (fr_api f) model locale (fr_tos f) None (fr_seed f) (fr_serial f) in
            finish_provision reg private).

Definition provision_account (f : Fresh) : Flow Identity := fun h =>
  match team_from_env (h_env h) with
  | Some settings =>
      (let* identity := provision_team DEFAULT_MODEL DEFAULT_LOCALE settings f in
       flow_ret (refresh_profile (fr_refresh f) identity)) h
  | None => provision_wg DEFAULT_MODEL DEFAULT_LOCALE f h
  end.

Definition team_port (env : Env) : Z :=
  match env (str "SOILDTUNNEL_PROTOCOL") with
  | Some v => if bool_decide (v ∈ [str "wg"; str "gool"]) then 2408 else 443
  | None => 443
  end.

Definition adopt_team_profile (api : ApiWorld) (i : Identity) : Flow Identity := fun h =>
  match team_scope (h_env h) with
  | None => (Ok i, h)
  | Some _ =>
      (let* i := flow_ret (refresh_profile api i) in
       fun h =>
         let h := if negb (is_empty (Account.gateway_proxy i)) && is_some (h_env h (str "SOILDTUNNEL_GATEWAY"))
                  then set_gateway h (set_gateway_proxy (h_gateway h) (Account.gateway_proxy i)) else h in
         let h := if negb (is_empty (assigned_endpoint i)) && negb (is_some (h_env h (str "SOILDTUNNEL_PEER"))) then
                    let peer := assigned_endpoint i ++ str ":" ++ dec_str (team_port (h_env h)) in
                    match parse_socket_addr peer with
                    | Some _ => set_env h (set_var (h_env h) (str "SOILDTUNNEL_TEAM_ENDPOINT") peer)
                    | None => h
                    end
                  else h in
         (Ok i, h)) h
  end.

(** ** WireGuard identities *)

(** What a flow meets: the disk, the service asked about a saved identity, a
    registration, and the service asked about the new one. *)
Record WarpWorld : Type := mkWarp {
  ww_disk : Disk; ww_adopt : ApiWorld; ww_fresh : Fresh; ww_adopt_new : ApiWorld }.

Definition new_warp_identity (w : WarpWorld) (path : bytes) : Flow Identity :=
  let* identity := provision_account (ww_fresh w) in
  let* identity := adopt_team_profile (ww_adopt_new w) identity in
  let* _ := save_flow (ww_disk w) path identity in
  flow_ret (Ok identity).

Definition load_or_provision_warp (w : WarpWorld) (path : bytes) : Flow Identity :=
  let* loaded := load_flow (ww_disk w) path in
  match loaded with
  | Some identity =>
      let* identity := adopt_team_profile (ww_adopt w) identity in
      if negb (refused identity) then
        let* _ := save_flow (ww_disk w) path identity in flow_ret (Ok identity)
      else fun h =>
        if negb (keep_saved_identity (h_env h)) then (Ok identity, h) else new_warp_identity w path h
  | None => new_warp_identity w path
  end.

(** ** MASQUE identities *)

Record MasqueWorld : Type := mkMasque {
  mw_disk : Disk; mw_now : Z; mw_adopt : ApiWorld;
  mw_enroll : ApiWorld; mw_keypair : result MasqueKeyPair; mw_enroll_now : Z; mw_enroll_later : Z;
  mw_fresh : Fresh;
  mw_enroll_new : ApiWorld; mw_keypair_new : result MasqueKeyPair; mw_new_now : Z; mw_new_later : Z;
  mw_adopt_new : ApiWorld }.

Definition new_masque_identity (w : MasqueWorld) (path : bytes) : Flow Identity :=
  let* identity := provision_account (mw_fresh w) in
  let* e := flow_ret (ensure_masque_enrolled (mw_enroll_new w) identity (mw_keypair_new w) (mw_new_now w) (mw_new_later w)) in
  let identity := with_cert identity (me_cert_pem e) (me_key_pem e) (me_issued_at e) in
  let* identity := adopt_team_profile (mw_adopt_new w) identity in
  let* _ := save_flow (mw_disk w) path identity in
  flow_ret (Ok identity).

(** An identity that can be used as it is, or one that was refused. *)
Definition saved_masque_identity (w : MasqueWorld) (path : bytes) (identity : Identity) : Flow (Identity + Identity) :=
  if has_masque_credentials identity (mw_now w) then
    let* identity := adopt_team_profile (mw_adopt w) identity in
    if negb (refused identity) then
      let* _ := save_flow (mw_disk w) path identity in flow_ret (Ok (inl identity))
    else flow_ret (Ok (inr identity))
  else fun h =>
    match ensure_masque_enrolled (mw_enroll w) identity (mw_keypair w) (mw_enroll_now w) (mw_enroll_later w) with
    | Ok e =>
        let identity := with_cert identity (me_cert_pem e) (me_key_pem e) (me_issued_at e) in
        (let* _ := save_flow (mw_disk w) path identity in flow_ret (Ok (inl identity))) h
    | Err (IdentityRefused reason) => (Ok (inr (with_refused identity true)), h)
    | Err e => (Err e, h)
    | Panic => (Panic, h)
    | OutOfFuel => (OutOfFuel, h)
    end.

Definition load_or_provision_masque (w : MasqueWorld) (path : bytes) : Flow Identity :=
  let* loaded := load_flow (mw_disk w) path in
  match loaded with
  | Some identity =>
      let* saved := saved_masque_identity w path identity in
      match saved with
      | inl identity => flow_ret (Ok identity)
      | inr refused => fun h =>
          if negb (keep_saved_identity (h_env h)) then (Ok refused, h) else new_masque_identity w path h
      end
  | None => new_masque_identity w path
  end.

(** ** Through a tunnel *)

(** [bind] is the local proxy's address; the API is reached through it. *)
Definition carried_wg_identity (w : WarpWorld) (bind : result SocketAddr) (path : bytes) : Flow Identity :=
  let register_through := fun h =>
    match bind with
    | Ok through =>
        let h := set_override h (Some (str "socks5://" ++ sock_str through)) in
        let '(registered, h) := (let* identity := provision_account (ww_fresh w) in
                                 adopt_team_profile (ww_adopt_new w) identity) h in
        let h := match registered with Panic | OutOfFuel => h | _ => set_override h None end in
        (let* identity := flow_ret registered in
         let* _ := save_flow (ww_disk w) path identity in
         flow_ret (Ok identity)) h
    | Err e => (Err e, h)
    | Panic => (Panic, h)
    | OutOfFuel => (OutOfFuel, h)
    end in
  let* loaded := load_flow (ww_disk w) path in
  match loaded with
  | Some identity =>
      let* identity := adopt_team_profile (ww_adopt w) identity in
      if negb (refused identity) then
        let* _ := save_flow (ww_disk w) path identity in flow_ret (Ok identity)
      else fun h =>
        if negb (keep_saved_identity (h_env h)) then (Ok identity, h) else register_through h
  | None => register_through
  end.

End Flows.

(** ** Flows: lemmas *)

Lemma flow_bind_Ok {A B} (m : Flow A) (k : A -> Flow B) h b h' :
  flow_bind m k h = (Ok b, h') -> exists a h1, m h = (Ok a, h1) /\ k a h1 = (Ok b, h').
Proof. unfold flow_bind. destruct (m h) as [[a|e| |] h1]; intros; simplify_eq; eauto. Qed.

(** Splits a hypothesis that a flow ended well. *)
Ltac inv_flow :=
  repeat match goal with
  | Hf : flow_bind _ _ _ = (Ok _, _) |- _ =>
      let a := fresh "a" in let h := fresh "h" in let E := fresh "E" in
      apply flow_bind_Ok in Hf as (a & h & E & Hf)
  | Hf : flow_ret _ _ = (Ok _, _) |- _ => unfold flow_ret in Hf; injection Hf as ??; subst
  | Hf : (Ok _, _) = (Ok _, _) |- _ => injection Hf as ??; subst
  end.

(** The arrays of an identity have the lengths of their types. *)
Definition lengths_ok (i : Identity) : Prop :=
  length (wg_private_key i) = 32%nat /\ length (wg_peer_public_key i) = 32%nat /\ length (client_id i) = 3%nat.

Section FlowLemmas.
Context `{Target} `{UnicodeTables} `{ErrorText} `{SerdeJson} `{Base64} `{HttpText} `{AccountLib} `{Toml PersistedIdentity}.

Lemma decode_fixed_length n field v s : decode_fixed n field v = Ok s -> zlen s = n.
Proof. unfold decode_fixed. destruct (b64_decode v) as [b|]; [|done]. destruct (Z.eqb_spec (zlen b) n); simpl; intros; by simplify_eq. Qed.

Lemma loaded_ok fs path rf nf i fs' :
  config_load fs path rf nf = (Ok (Some i), fs') -> lengths_ok i /\ refused i = false /\ fs' = fs.
Proof.
  unfold config_load. destruct (negb _); [done|]. destruct (read_to_string _ _ _) as [t|e| |]; try done.
  destruct (from_toml t) as [p|]; [|by destruct (quarantine _ _ _)].
  destruct (identity_try_from p) as [j|e| |] eqn:E; try done; [|by destruct (quarantine _ _ _)].
  intros. simplify_eq. unfold identity_try_from in E.
  apply obind_Ok in E as (a & Ha & E). apply obind_Ok in E as (b & Hb & E). simplify_eq.
  apply decode_fixed_length in Ha, Hb. unfold zlen in *. split; [|done]. split_and!; simpl; try lia.
  destruct (is_empty _); [done|]. destruct (decode_fixed 3 _ _) as [c|e| |] eqn:Ec; try done.
  apply decode_fixed_length in Ec. unfold zlen in Ec. lia.
Qed.

Lemma finish_provision_ok reg private i :
  length private = 32%nat -> finish_provision reg private = Ok i ->
  lengths_ok i /\ refused i = false /\ cert_pem i = [] /\ key_pem i = [] /\ cert_issued_at i = 0.
Proof.
  intros Hp Hf. unfold finish_provision in Hf. destruct (is_empty (ac_token reg)); [done|].
  apply obind_Ok in Hf as (peer & Hw & Hf). simplify_eq. split; [|done]. split_and!; simpl; [done| |].
  - unfold extract_wg_peer in Hw. destruct (cf_peers _); [done|]. destruct (b64_decode _) as [b|]; [|done].
    destruct (Z.eqb_spec (zlen b) 32) as [Hz|]; simpl in Hw; simplify_eq. unfold zlen in Hz. lia.
  - destruct (is_empty _); [done|]. destruct (b64_decode _) as [d|]; [|done].
    destruct (Z.eqb_spec (zlen d) 3) as [Hz|]; [|done]. unfold zlen in Hz. lia.
Qed.

Lemma keypair_length seed private public :
  generate_x25519_keypair seed = (private, public) -> length private = length seed.
Proof. unfold generate_x25519_keypair. intros. simplify_eq. by rewrite !length_alter. Qed.

Lemma refresh_profile_ok w i j :
  refresh_profile w i = Ok j -> lengths_ok i -> lengths_ok j /\ device_id j = device_id i.
Proof.
  unfold refresh_profile. destruct (fetch_device _ _ _) as [r|[]| |]; intros; simplify_eq; done.
Qed.

Lemma refresh_keeps_cert w i j : refresh_profile w i = Ok j -> cert_issued_at j = cert_issued_at i.
Proof. unfold refresh_profile. destruct (fetch_device _ _ _) as [r|[]| |]; intros; by simplify_eq. Qed.

Lemma adopt_ok api i h j h' :
  adopt_team_profile api i h = (Ok j, h') -> lengths_ok i ->
  lengths_ok j /\ device_id j = device_id i /\ h_fs h' = h_fs h /\
  (team_scope (h_env h) = None -> j = i /\ h' = h).
Proof.
  unfold adopt_team_profile. destruct (team_scope (h_env h)) eqn:Et; [|intros; by simplify_eq].
  intros Ha Hi. apply flow_bind_Ok in Ha as (k & h1 & Hk & Ha). unfold flow_ret in Hk.
  injection Hk as Hk ->. apply refresh_profile_ok in Hk as [Hl Hd]; [|done].
  injection Ha as -> <-. split_and!; [done|done| |done].
  repeat match goal with |- context [if ?b then _ else _] => destruct b end; try done;
    destruct (parse_socket_addr _); done.
Qed.

Lemma provision_team_ok model locale settings f h i h' :
  length (fr_seed f) = 32%nat -> provision_team model locale settings f h = (Ok i, h') ->
  lengths_ok i /\ h_fs h' = h_fs h /\ h_env h' = h_env h /\ refused i = false /\ cert_issued_at i = 0.
Proof.
  intros Hs Hj. unfold provision_team in Hj. destruct (resolve_token _ _ _ _ _) as [token cache]. injection Hj as Hj <-.
  apply obind_Ok in Hj as (t & _ & Hj). apply obind_Ok in Hj as ([reg private] & Hr & Hj).
  unfold register_with_team in Hr. destruct (generate_x25519_keypair _) as [p q] eqn:Eg.
  apply obind_Ok in Hr as (a & _ & Hr). simplify_eq. apply keypair_length in Eg.
  by apply finish_provision_ok in Hj as (Hl & Hr & _ & _ & Hc); [|lia].
Qed.

Lemma provision_wg_ok model locale f h i h' :
  length (fr_seed f) = 32%nat -> provision_wg model locale f h = (Ok i, h') ->
  lengths_ok i /\ h' = h /\ refused i = false /\ cert_issued_at i = 0.
Proof.
  intros Hs Hp. unfold provision_wg, flow_ret in Hp. injection Hp as Hp <-.
  apply obind_Ok in Hp as ([reg private] & Hr & Hp).
  unfold register in Hr. destruct (generate_x25519_keypair _) as [p q] eqn:Eg.
  apply obind_Ok in Hr as (a & _ & Hr). simplify_eq. apply keypair_length in Eg.
  by apply finish_provision_ok in Hp as (Hl & Hr & _ & _ & Hc); [|lia].
Qed.

Lemma provision_ok f h i h' :
  length (fr_seed f) = 32%nat -> provision_account f h = (Ok i, h') ->
  lengths_ok i /\ h_fs h' = h_fs h /\ h_env h' = h_env h /\
  (team_scope (h_env h) = None -> refused i = false).
Proof.
  intros Hs Hp. unfold provision_account, team_scope in *. destruct (team_from_env (h_env h)) as [settings|].
  - apply flow_bind_Ok in Hp as (j & h1 & Hj & Hp). unfold flow_ret in Hp. injection Hp as Hp ->.
    apply provision_team_ok in Hj as (Hl & ? & ? & _); [|done]. by apply refresh_profile_ok in Hp as [? _].
  - by apply provision_wg_ok in Hp as (? & -> & ? & _).
Qed.
End FlowLemmas.

(** ** What the flows return *)

Section FlowResults.
Context `{Target} `{UnicodeTables} `{ErrorText} `{SerdeJson} `{Base64} `{HttpText} `{AccountLib} `{Toml PersistedIdentity}.

(** Loading the file gives the identity. *)
Definition on_disk (fs : FS) (path : bytes) (i : Identity) : Prop :=
  config_load fs path None false = (Ok (Some (with_refused i false)), fs).
Definition disk_ok (d : Disk) : Prop := 0 <= dk_pid d < 2 ^ 64.

Lemma load_flow_ok d path h o h' :
  load_flow d path h = (Ok o, h') -> h_env h' = h_env h /\ forall i, o = Some i -> lengths_ok i /\ refused i = false.
Proof.
  unfold load_flow. destruct (config_load _ _ _ _) as [r fs] eqn:E. intros. simplify_eq. split; [done|].
  intros i ->. apply loaded_ok in E as (? & ? & _). done.
Qed.

Lemma save_flow_ok `{!Base64Laws} `{!TomlLaws PersistedIdentity} d path i h h' :
  disk_ok d -> save_flow d path i h = (Ok tt, h') -> h_env h' = h_env h /\ (identity_ok i -> on_disk (h_fs h') path i).
Proof.
  intros Hd. unfold save_flow. destruct (config_save _ _ _ _ _) as [r fs] eqn:E. intros. simplify_eq. split; [done|].
  intros Hi. by eapply load_saved.
Qed.

Lemma save_flow_env d path i h u h' : save_flow d path i h = (Ok u, h') -> h_env h' = h_env h.
Proof. unfold save_flow. destruct (config_save _ _ _ _ _). intros. by simplify_eq. Qed.

Lemma new_warp_ok `{!Base64Laws} `{!TomlLaws PersistedIdentity} w path h i h' :
  disk_ok (ww_disk w) -> length (fr_seed (ww_fresh w)) = 32%nat -> new_warp_identity w path h = (Ok i, h') ->
  lengths_ok i /\ (identity_ok i -> on_disk (h_fs h') path i) /\ (team_scope (h_env h) = None -> refused i = false).
Proof.
  intros Hd Hs Hn. unfold new_warp_identity in Hn. inv_flow. destruct a1.
  apply provision_ok in E as (Hl & _ & He & Hr); [|done].
  apply adopt_ok in E0 as (Hl' & _ & _ & Ht); [|done]. apply save_flow_ok in E1 as [_ Ho]; [|done].
  split_and!; [done|done|]. intros Hteam. rewrite He in Ht. destruct (Ht Hteam) as [-> _]. auto.
Qed.

Lemma warp_ok `{!Base64Laws} `{!TomlLaws PersistedIdentity} w path h i h' :
  disk_ok (ww_disk w) -> length (fr_seed (ww_fresh w)) = 32%nat -> load_or_provision_warp w path h = (Ok i, h') ->
  lengths_ok i /\
  ((identity_ok i -> on_disk (h_fs h') path i) \/ (refused i = true /\ keep_saved_identity (h_env h') = false)) /\
  (team_scope (h_env h) = None -> refused i = false).
Proof.
  intros Hd Hs Hw. unfold load_or_provision_warp in Hw. inv_flow. apply load_flow_ok in E as [He Hl].
  destruct a as [j|]; [|rewrite <- He; apply new_warp_ok in Hw as (? & ? & ?); auto].
  destruct (Hl j eq_refl) as [Hj Hr]. inv_flow. apply adopt_ok in E as (Hl' & _ & _ & Ht); [|done].
  rewrite He in Ht. destruct (refused a) eqn:Era; simpl in Hw.
  - assert (team_scope (h_env h) <> None) as Hteam.
    { intros Hn. destruct (Ht Hn) as [-> _]. congruence. }
    destruct (keep_saved_identity (h_env h1)) eqn:Ek; simpl in Hw; inv_flow.
    + apply new_warp_ok in Hw as (? & ? & _); auto. split_and!; auto. done.
    + split_and!; auto. done.
  - inv_flow. destruct a0. apply save_flow_ok in E as [_ Ho]; auto.
Qed.

Lemma new_masque_ok `{!Base64Laws} `{!TomlLaws PersistedIdentity} w path h i h' :
  disk_ok (mw_disk w) -> length (fr_seed (mw_fresh w)) = 32%nat -> new_masque_identity w path h = (Ok i, h') ->
  lengths_ok i /\ (identity_ok i -> on_disk (h_fs h') path i).
Proof.
  intros Hd Hs Hn. unfold new_masque_identity in Hn. inv_flow. destruct a2.
  apply provision_ok in E as (Hl & _); [|done]. apply adopt_ok in E1 as (Hl' & _); [|done].
  by apply save_flow_ok in E2 as [_ Ho].
Qed.

Lemma saved_masque_ok `{!Base64Laws} `{!TomlLaws PersistedIdentity} w path j h r h' :
  disk_ok (mw_disk w) -> lengths_ok j -> saved_masque_identity w path j h = (Ok r, h') ->
  match r with
  | inl i => lengths_ok i /\ (identity_ok i -> on_disk (h_fs h') path i)
  | inr i => lengths_ok i /\ refused i = true
  end.
Proof.
  intros Hd Hj Hs. unfold saved_masque_identity in Hs. destruct (has_masque_credentials j (mw_now w)).
  - inv_flow. apply adopt_ok in E as (Hl & _); [|done]. destruct (refused a) eqn:Er; simpl in Hs; inv_flow; [done|].
    destruct a0. apply save_flow_ok in E as [_ Ho]; [|done]. by simplify_eq.
  - destruct (ensure_masque_enrolled _ _ _ _ _) as [e|[]| |]; simplify_eq; [|done].
    inv_flow. destruct a. apply save_flow_ok in E as [_ Ho]; [|done]. by simplify_eq.
Qed.

Lemma masque_ok `{!Base64Laws} `{!TomlLaws PersistedIdentity} w path h i h' :
  disk_ok (mw_disk w) -> length (fr_seed (mw_fresh w)) = 32%nat -> load_or_provision_masque w path h = (Ok i, h') ->
  lengths_ok i /\
  ((identity_ok i -> on_disk (h_fs h') path i) \/ (refused i = true /\ keep_saved_identity (h_env h') = false)).
Proof.
  intros Hd Hs Hw. unfold load_or_provision_masque in Hw. inv_flow. apply load_flow_ok in E as [He Hl].
  destruct a as [j|]; [|apply new_masque_ok in Hw as [? ?]; auto].
  destruct (Hl j eq_refl) as [Hj _]. inv_flow. apply saved_masque_ok in E; [|done..].
  destruct a as [k|k]; destruct E as [Hk Hr]; [inv_flow; auto|].
  destruct (keep_saved_identity (h_env h1)) eqn:Ek; simpl in Hw; [|inv_flow; auto].
  apply new_masque_ok in Hw as [? ?]; auto.
Qed.
End FlowResults.

(** C26: the identity a tunnel starts with is the one on disk: when either flow
    returns an identity, the next start loads the same one from the file,
    unless the service refused it and replacing refused identities is switched
    off; and a personal WireGuard identity is never returned as refused. *)
Theorem identity_survives_restart `{Target} `{UnicodeTables} `{ErrorText} `{SerdeJson} `{Base64} `{HttpText} `{AccountLib}
    `{Toml PersistedIdentity} `{!Base64Laws} `{!TomlLaws PersistedIdentity} warp masque path h i h' :
  disk_ok (ww_disk warp) -> length (fr_seed (ww_fresh warp)) = 32%nat ->
  disk_ok (mw_disk masque) -> length (fr_seed (mw_fresh masque)) = 32%nat -> identity_ok i ->
  load_or_provision_warp warp path h = (Ok i, h') \/ load_or_provision_masque masque path h = (Ok i, h') ->
  (on_disk (h_fs h') path i \/ (refused i = true /\ keep_saved_identity (h_env h') = false)) /\
  (load_or_provision_warp warp path h = (Ok i, h') -> team_scope (h_env h) = None -> refused i = false).
Proof.
  intros Hd Hs Hd' Hs' Hi Hw. split.
  - destruct Hw as [Hw|Hw]; [apply warp_ok in Hw as (_ & [Ho|Ho] & _)|apply masque_ok in Hw as (_ & [Ho|Ho])]; auto.
  - intros Hw'. by apply warp_ok in Hw' as (_ & _ & Hr).
Qed.

(** *** An example *)

Definition no_env : Env := fun _ => None.
Definition demo_disk : Disk := mkDisk 7 None false None.
Definition demo_fresh (status : Z) : Fresh :=
  mkFresh (demo_world status) (demo_world status) no_access 0 0 [] (replicate 32 5) (replicate 8 1) [] [].
Definition demo_warp : WarpWorld := mkWarp demo_disk (demo_world 503) (demo_fresh 503) (demo_world 503).
Definition demo_masque (status now : Z) : MasqueWorld :=
  mkMasque demo_disk now (demo_world status) (demo_world status) (Ok (mkKeyPair [1] [2] [3])) now now
    (demo_fresh 200) (demo_world 200) (Ok (mkKeyPair [4] [5] [6])) now now (demo_world 200).
Definition demo_host : Host :=
  mkHost no_env {[ str "s.toml" := mkFile PRIVATE_MODE (str "only") ]} gateway_init None None.
Definition demo_codec : Toml PersistedIdentity := demo_toml (@persisted_from demo_base64 demo_identity).

Lemma demo_identity_ok : identity_ok demo_identity.
Proof. repeat split; try reflexivity; unfold bytes_ok, is_u8; simpl; repeat constructor; simpl; lia. Qed.

Lemma identity_survives_restart_witness :
  @on_disk no_error_text demo_base64 demo_codec (h_fs demo_host) (str "s.toml") demo_identity.
Proof.
  destruct (@identity_survives_restart target64 no_unicode no_error_text demo_json demo_base64 demo_http demo_account_lib
    demo_codec demo_base64_laws (demo_toml_laws _) demo_warp (demo_masque 401 0) (str "s.toml") demo_host demo_identity
    demo_host) as [[Ho|[Hr _]] _]; [split; simpl; lia|reflexivity|split; simpl; lia|reflexivity|exact demo_identity_ok| | |].
  - left. vm_compute. reflexivity.
  - exact Ho.
  - discriminate Hr.
Defined.

(** ** A refused MASQUE identity *)

(** A saved MASQUE identity without a current certificate is never
    replaced, although the flow has a branch that registers a fresh account for
    it: when the service refuses it, the refusal reaches the flow as an ordinary
    error, so every start fails, no new account is registered whatever the
    registration would give, and the file stays as it is. *)
Theorem refused_masque_identity_kept `{Target} `{UnicodeTables} `{ErrorText} `{SerdeJson} `{Base64} `{HttpText}
    `{AccountLib} `{Toml PersistedIdentity} w path h i :
  config_load (h_fs h) path (dk_read (mw_disk w)) (dk_rename (mw_disk w)) = (Ok (Some i), h_fs h) ->
  has_masque_credentials i (mw_now w) = false -> (forall m, mw_keypair w <> Err (IdentityRefused m)) ->
  match ensure_masque_enrolled (mw_enroll w) i (mw_keypair w) (mw_enroll_now w) (mw_enroll_later w) with
  | Err e => load_or_provision_masque w path h = (Err e, h)
  | _ => True
  end /\
  forall j h', load_or_provision_masque w path h = (Ok j, h') -> device_id j = device_id i.
Proof.
  intros Hl Hc Hk. pose proof (ensure_never_refused (mw_enroll w) i (mw_keypair w) (mw_enroll_now w) (mw_enroll_later w)) as Hn.
  assert (load_or_provision_masque w path h =
    flow_bind (saved_masque_identity w path i)
      (fun saved => match saved with
       | inl identity => flow_ret (Ok identity)
       | inr refused => fun h =>
           if negb (keep_saved_identity (h_env h)) then (Ok refused, h) else new_masque_identity w path h
       end) h) as ->.
  { unfold load_or_provision_masque, flow_bind at 1, load_flow. rewrite Hl. by destruct h. }
  unfold saved_masque_identity, flow_bind at 1. rewrite Hc.
  destruct (ensure_masque_enrolled _ _ _ _ _) as [e|e| |].
  - split; [done|]. intros j h' Hj. unfold flow_bind at 1 2 in Hj.
    destruct (save_flow _ _ _ _) as [[u|x| |] h1]; unfold flow_ret in Hj; simpl in Hj; try discriminate Hj.
    by injection Hj as <- <-.
  - destruct e; try (by split; [|intros]). exfalso. by eapply Hn.
  - by split; [|intros].
  - by split; [|intros].
Qed.

(** The certificate has run out, and the service answers 401. *)
Lemma refused_masque_identity_kept_witness :
  let now := 1000 + 2 * MASQUE_CERT_LIFETIME_SECS in
  exists e, @load_or_provision_masque target64 no_unicode no_error_text demo_json demo_base64 demo_http demo_account_lib
    demo_codec (demo_masque 401 now) (str "s.toml") demo_host = (Err (Api e), demo_host).
Proof.
  intros now.
  destruct (@refused_masque_identity_kept target64 no_unicode no_error_text demo_json demo_base64 demo_http
    demo_account_lib demo_codec (demo_masque 401 now) (str "s.toml") demo_host demo_identity) as [He _];
    [vm_compute; reflexivity|vm_compute; reflexivity|discriminate|].
  vm_compute in He |- *. eexists. exact He.
Defined.

(** ** Teams *)

(** The files of a carried identity and of avoided gateways count as teams. *)
Lemma phantom_teams :
  enrolled_teams (str "soildtunnel.toml")
    (Some [str "soildtunnel-team-acme.toml"; str "soildtunnel-team-acme-gool.toml";
           str "soildtunnel-team-acme-lastconn-avoid.toml"; str "soildtunnel-team-acme-lastconn.toml"])
  = [str "acme"; str "acme-gool"; str "acme-lastconn-avoid"].
Proof. vm_compute. reflexivity. Qed.

Lemma split_dir_spec p s d n : split_dir p s = (d, n) ->
  s = d ++ n /\ forallb (fun b => negb (p b)) n = true /\ (d = [] \/ exists d' c, d = d' ++ [c] /\ p c = true).
Proof.
  revert d n. induction s as [|b s IH]; intros d n; simpl; [intros; simplify_eq; auto|].
  destruct (split_dir p s) as [d1 n1]. destruct (IH d1 n1 eq_refl) as (-> & Hn & Hd).
  destruct d1 as [|x d1]; simpl.
  - destruct (p b) eqn:Hb; intros; simplify_eq; (split; [done|]); split; simpl; rewrite ?Hb; auto.
    right. by exists [], b.
  - intros. simplify_eq. split; [done|]. split; [done|]. right. destruct Hd as [|(d' & c & -> & Hc)]; [done|].
    by exists (b :: d'), c.
Qed.

Lemma split_dir_app p d n :
  forallb (fun b => negb (p b)) n = true -> (d = [] \/ exists d' c, d = d' ++ [c] /\ p c = true) ->
  split_dir p (d ++ n) = (d, n).
Proof.
  intros Hn Hd. assert (split_dir p n = ([], n)) as Hb.
  { clear Hd. induction n as [|b n IH]; [done|]. simpl in *. apply andb_prop in Hn as [Hb Hn]. rewrite IH by done.
    simpl. by destruct (p b). }
  destruct Hd as [->|(d' & c & -> & Hc)]; [done|]. rewrite <- app_assoc. simpl.
  induction d' as [|b d' IH]; simpl; [by rewrite Hb, Hc|]. rewrite IH. by destruct d'.
Qed.

Lemma derive_dir base suffix :
  forallb (fun b => negb (is_separator b)) suffix = true ->
  (split_dir is_separator (derive_sibling_path base suffix)).1 = (split_dir is_separator base).1.
Proof.
  intros Hs. unfold derive_sibling_path. destruct (split_dir is_separator base) as [d n] eqn:E.
  apply split_dir_spec in E as (-> & Hn & Hd). destruct (rsplit_once 46 n) as [[stem ext]|] eqn:Er.
  - apply rsplit_once_Some in Er as [-> _]. rewrite forallb_app in Hn. simpl in Hn. apply andb_prop in Hn as [H1 H2].
    rewrite split_dir_app; [done| |done]. rewrite !forallb_app. simpl.
    by rewrite H1, Hs, H2.
  - rewrite <- app_assoc, split_dir_app; [done| |done]. rewrite !forallb_app. simpl. by rewrite Hn, Hs.
Qed.

Lemma derive_inj base s1 s2 : derive_sibling_path base s1 = derive_sibling_path base s2 -> s1 = s2.
Proof.
  unfold derive_sibling_path. destruct (split_dir is_separator base) as [d n].
  destruct (rsplit_once 46 n) as [[stem ext]|]; intros He.
  - do 3 apply app_inv_head in He. by apply app_inv_tail in He.
  - by do 2 apply app_inv_head in He.
Qed.

(** The identities of different teams are kept apart: whatever is given as
    the name of a team, the file its identity is kept in is in the directory of
    the configuration, and no two teams, and no team and the personal MASQUE
    account, share a file. *)
Theorem team_files_separate `{UnicodeTables} base raw t :
  normalize_team raw = Some t ->
  let path := derive_sibling_path base (str "team-" ++ t) in
  (split_dir is_separator path).1 = (split_dir is_separator base).1 /\
  (forall t', path = derive_sibling_path base (str "team-" ++ t') -> t' = t) /\
  path <> derive_sibling_path base (str "masque").
Proof.
  intros Ht path. apply normalize_team_chars in Ht as [_ Hc]. split_and!.
  - apply derive_dir. rewrite forallb_app. apply andb_true_intro. split; [reflexivity|].
    rewrite forallb_forall in Hc |- *. intros b Hb. apply Hc in Hb.
    unfold team_char, is_ascii_alphanumeric, is_ascii_digit, is_ascii_upper, is_ascii_lower, is_separator in *. lia.
  - intros t' He. apply derive_inj in He. by apply app_inv_head in He.
  - intros He. by apply derive_inj in He.
Qed.

Lemma team_files_separate_witness :
  derive_sibling_path (str "/data/app/s.toml") (str "team-acme") = str "/data/app/s-team-acme.toml" /\
  (split_dir is_separator (derive_sibling_path (str "/data/app/s.toml") (str "team-acme"))).1 = str "/data/app/".
Proof.
  split; [vm_compute; reflexivity|].
  apply (@team_files_separate no_unicode (str "/data/app/s.toml") (str " https://acme.cloudflareaccess.com/") (str "acme")).
  vm_compute. reflexivity.
Defined.
