(* ===== verification/Settings.v ===== *)
(** * Settings: command line, environment, prompts, device

    Models cli.rs, which turns options into environment variables; the readers
    of those variables in lib.rs, with the prompts that ask for what is not
    set; sysprofile.rs, the sizes chosen for a device; and of tunnelping.rs the
    check of the probe's response.  A prompt's answer is an argument: [None]
    when there is no terminal. *)

From Stdlib Require Import ZArith Lia ZifyBool String List.
From stdpp Require Import base list numbers option decidable gmap.
From S2P Require Import Prelude RustStr NetAddr Errors Prober ZeroTrust Account Provision.
Open Scope Z_scope.

(** ** The command line *)

(** What an option does: leaves the process, or sets variables to fixed values
    and then others to the argument that follows. *)
Inductive option_action : Type :=
| ExitProcess
| Sets (fixed : list (bytes * bytes)) (valued : list bytes).

Definition var (s : string) : bytes := str ("SOILDTUNNEL_" ++ s).
Definition flag (name value : string) : option_action := Sets [(var name, str value)] [].
Definition takes (name : string) : option_action := Sets [] [var name].
Definition protocol (value : string) (more : list (bytes * bytes)) (valued : list bytes) : option_action :=
  Sets ((var "PROTOCOL", str value) :: more) valued.

Definition OPTIONS : list (list string * option_action) := [
  (["-v"; "--version"], ExitProcess);
  (["-h"; "--help"], ExitProcess);
  (["--bind"], takes "SOCKS");
  (["--http-proxy"], takes "HTTP_PROXY");
  (["--upstream"], takes "UPSTREAM");
  (["--quick-reconnect"], flag "QUICK_RECONNECT" "1");
  (["--no-quick-reconnect"], flag "QUICK_RECONNECT" "0");
  (["-4"], flag "IP" "v4");
  (["-6"], flag "IP" "v6");
  (["--dual"], flag "IP" "both");
  (["--ip"], takes "IP");
  (["--peer"], takes "PEER");
  (["--wg-peer"], takes "WG_PEER");
  (["--masque"], protocol "masque" [] []);
  (["--wg"; "--wireguard"; "--warp"], protocol "wg" [] []);
  (["--gool"; "--wiw"], protocol "gool" [] []);
  (["--soild"], protocol "gool" [(var "MASQUE_FRONT", str "1")] []);
  (["--soild-quic"], protocol "gool" [(var "MASQUE_FRONT", str "quic")] []);
  (["--soild-fast"], protocol "masque" [(var "MASQUE_FRONT", str "1")] []);
  (["--gool-classic"], protocol "gool" [(var "GOOL_MODE", str "classic")] []);
  (["--gool-peer"], protocol "gool" [] [var "GOOL_INNER"]);
  (["--tuic"], protocol "tuic" [] [var "TUIC_SERVER"]);
  (["--tuic-sni"], takes "TUIC_SNI");
  (["--tuic-cc"], takes "TUIC_CC");
  (["--tuic-insecure"], flag "TUIC_INSECURE" "1");
  (["--protocol"], takes "PROTOCOL");
  (["--scan"], takes "SCAN");
  (["--turbo"], flag "SCAN" "turbo");
  (["--balanced"], flag "SCAN" "balanced");
  (["--thorough"], flag "SCAN" "thorough");
  (["--stealth"], flag "SCAN" "stealth");
  (["--ironclad"], flag "SCAN" "ironclad");
  (["--noize"], takes "NOIZE");
  (["--h2"; "--http2"], flag "MASQUE_HTTP2" "1");
  (["--h2-peer"], takes "MASQUE_H2_PEER");
  (["--ech"], takes "ECH");
  (["--no-data-check"],
     Sets [(var "MASQUE_NO_DATA_CHECK", str "1"); (var "WG_NO_DATA_CHECK", str "1")] []);
  (["--validate-secs"], Sets [] [var "MASQUE_VALIDATE_SECS"; var "WG_VALIDATE_SECS"]);
  (["--startup-secs"], takes "MASQUE_STARTUP_SECS");
  (["--reconnect-secs"], Sets [] [var "MASQUE_RECONNECT_SECS"; var "WG_RECONNECT_SECS"]);
  (["--dns"], takes "DNS");
  (["--fragment"], flag "MASQUE_H2_FRAGMENT" "1");
  (["--fragment-size"], takes "MASQUE_H2_FRAGMENT_SIZE");
  (["--fragment-delay"], takes "MASQUE_H2_FRAGMENT_DELAY");
  (["--keepalive"], takes "WG_KEEPALIVE");
  (["--no-profile-retry"], flag "WG_NO_PROFILE_RETRY" "1");
  (["--config"], takes "CONFIG");
  (["--wg-config"], takes "WG_CONFIG");
  (["--masque-config"], takes "MASQUE_CONFIG");
  (["--team"; "--organization"], takes "TEAM");
  (["--access-id"], takes "ACCESS_CLIENT_ID");
  (["--access-secret"], takes "ACCESS_CLIENT_SECRET");
  (["--access-token"], takes "ACCESS_TOKEN");
  (["--access-email"], takes "ACCESS_EMAIL");
  (["--gateway"], flag "GATEWAY" "1");
  (["--route-block"], takes "ROUTE_BLOCK");
  (["--route-direct"], takes "ROUTE_DIRECT");
  (["--routes"], takes "ROUTES_FILE");
  (["--tls-groups"], takes "TLS_GROUPS");
  (["--perf"], takes "PERF_PROFILE");
  (["--log-level"], takes "LOG_LEVEL");
  (["--verbose"], flag "LOG_LEVEL" "debug")]%string.

Definition option_of (arg : bytes) : option option_action :=
  option_map snd (List.find (fun row => existsb (fun name => bool_decide (arg = str name)) row.1) OPTIONS).

Inductive cli_end : Type :=
| Applied (env : Env)
| Exited
| CliFailed (e : SoildTunnelError) (env : Env).

Definition set_all (env : Env) (sets : list (bytes * bytes)) : Env :=
  foldl (fun env kv => set_var env kv.1 kv.2) env sets.

(** [usage] is the help text, which an unknown option prints. *)
Fixpoint parse_args (usage : bytes) (args : list bytes) (env : Env) : cli_end :=
  match args with
  | [] => Applied env
  | arg :: rest =>
      match option_of arg with
      | None => CliFailed (Other (str "unknown option '" ++ arg ++ str "'" ++ [10; 10] ++ usage)) env
      | Some ExitProcess => Exited
      | Some (Sets fixed []) => parse_args usage rest (set_all env fixed)
      | Some (Sets fixed valued) =>
          let env := set_all env fixed in
          match rest with
          | [] => CliFailed (Other (arg ++ str " requires a value")) env
          | value :: rest => parse_args usage rest (set_all env (map (fun k => (k, value)) valued))
          end
      end
  end.

(** ** Variables *)

Definition is_value (env : Env) (key : string) (values : list string) : bool :=
  match env (var key) with Some v => existsb (fun x => bool_decide (v = str x)) values | None => false end.

Definition parse_local_v4 (s : bytes) : bytes :=
  match split (Z.eqb 47) s with
  | head :: _ => default [0; 0; 0; 0] (parse_ipv4 head)
  | [] => default [0; 0; 0; 0] (parse_ipv4 s)
  end.

Definition TUNNEL_MTU : Z := 1280.
Definition sled_mtu_pair `{Target} (env : Env) : Z * Z :=
  let outer :=
    match (let? v := env (var "TUN_MTU") in parse_usize (trim v)) with
    | Some m => Z.min (Z.max m TUNNEL_MTU) 1500
    | None => TUNNEL_MTU
    end in
  (outer, Z.max (Z.max 0 (outer - 80)) 1024).

(** [var(key).ok().and_then(|v| v.parse::<u64>().ok()).unwrap_or(d)], in
    seconds. *)
Definition env_secs (env : Env) (key : string) (d : Z) : Z :=
  default d (let? v := env (var key) in parse_u64 v).
Definition tuic_reconnect_delay (env : Env) : Z := env_secs env "TUIC_RECONNECT_SECS" 2.
Definition masque_reconnect_delay (env : Env) : Z := env_secs env "MASQUE_RECONNECT_SECS" 2.
Definition wg_reconnect_delay (env : Env) : Z := env_secs env "WG_RECONNECT_SECS" 2.
Definition masque_startup_timeout (env : Env) : Z := env_positive env (var "MASQUE_STARTUP_SECS") 30.
Definition wg_endpoint_cooldown (env : Env) : Z := env_positive env (var "WG_ENDPOINT_COOLDOWN_SECS") 300.
Definition wg_tunnel_validate_timeout (env : Env) : Z := env_positive env (var "WG_VALIDATE_SECS") 10.
Definition wg_keepalive_secs (env : Env) : Z :=
  match (let? v := env (var "WG_KEEPALIVE") in parse_u16 v) with
  | Some n => if 0 <? n then n else 5
  | None => 5
  end.
Definition gool_classic (env : Env) : bool := is_value env "GOOL_MODE" ["classic"; "wiw"; "wg"]%string.
Definition front_mode (env : Env) : bool := is_value env "MASQUE_FRONT" ["1"; "true"; "yes"; "on"; "quic"]%string.
Definition front_quic (env : Env) : bool := is_value env "MASQUE_FRONT" ["quic"]%string.
Definition http_proxy_listen (env : Env) : option SocketAddr :=
  let? raw := env (var "HTTP_PROXY") in
  let trimmed := trim raw in
  if is_empty trimmed then None else parse_socket_addr trimmed.
Definition CONNECT_SNI : bytes := str "consumer-masque.cloudflareclient.com".
Definition effective_sni (env : Env) : bytes :=
  match env (var "SNI") with
  | Some v => if is_empty (trim v) then CONNECT_SNI else trim v
  | None => CONNECT_SNI
  end.

Definition wg_profile_names (env : Env) : list bytes :=
  let primary := default (str "balanced") (env (var "NOIZE")) in
  match env (var "WG_NO_PROFILE_RETRY") with
  | Some _ => [primary]
  | None =>
      foldl (fun names fallback =>
               if existsb (fun n => eq_ignore_ascii_case n fallback) names then names else names ++ [fallback])
        [primary] [str "balanced"; str "aggressive"; str "light"; str "off"]
  end.

(** ** Choices, asked for when they are not set *)

Inductive Protocol : Type := ProtoMasque | ProtoWireGuard | ProtoWarpInWarp | ProtoTuic.
Section Choices.
Context `{UnicodeTables}.

Definition Protocol_parse (s : bytes) : Protocol :=
  let s := to_lowercase (trim s) in
  if existsb (fun x => bool_decide (s = str x)) ["wg"; "wireguard"]%string then ProtoWireGuard
  else if existsb (fun x => bool_decide (s = str x)) ["gool"; "wiw"; "warp-in-warp"; "warpinwarp"]%string
  then ProtoWarpInWarp
  else if bool_decide (s = str "tuic") then ProtoTuic
  else ProtoMasque.

Definition select_scan_mode_str (env : Env) (answer : option bytes) : bytes :=
  match env (var "SCAN") with
  | Some v => v
  | None =>
      match answer with
      | Some [49] => str "turbo"
      | Some [51] => str "thorough"
      | Some [52] => str "stealth"
      | Some [53] => str "ironclad"
      | _ => str "balanced"
      end
  end.
Definition select_ip_version (env : Env) (answer : option bytes) : IpScan :=
  match env (var "IP") with
  | Some v => IpScan_parse v
  | None =>
      match answer with
      | Some [50] => ScanV6
      | Some [51] => ScanBoth
      | _ => ScanV4
      end
  end.
Definition select_masque_transport (env : Env) (answer : option bytes) : Env :=
  if front_mode env then
    if front_quic env then remove_var env (var "MASQUE_HTTP2") else set_var env (var "MASQUE_HTTP2") (str "1")
  else if is_some (env (var "MASQUE_HTTP2")) || is_some (env (var "PEER")) then env
  else match answer with
       | Some [50] => set_var env (var "MASQUE_HTTP2") (str "1")
       | _ => env
       end.
Definition want_quick_reconnect (env : Env) (answer : option bytes) : bool :=
  if is_value env "QUICK_RECONNECT" ["1"; "true"; "yes"; "on"]%string then true
  else if is_value env "QUICK_RECONNECT" ["0"; "false"; "no"; "off"]%string then false
  else match answer with
       | Some a => negb (eq_ignore_ascii_case a (str "n") || eq_ignore_ascii_case a (str "no"))
       | None => true
       end.
End Choices.

(** ** The device *)

Inductive Tier : Type := Low | Medium | High.
Record Tuning : Type := mkTuning {
  tu_tier : Tier; tu_cpus : Z; tu_mem_mb : option Z; scan_concurrency_cap : Z; udp_socket_buf : Z;
  netstack_tcp_buf : Z; netstack_udp_buf : Z; channel_capacity : Z }.

(** [trim_end_matches] with a string removes every repetition. *)
Fixpoint trim_end_str (fuel : nat) (s p : bytes) : bytes :=
  match fuel with
  | O => s
  | S fuel => match strip_suffix s p with Some rest => trim_end_str fuel rest p | None => s end
  end.

(** [total_mem_mb] over the lines of /proc/meminfo. *)
Fixpoint mem_total (lines : list bytes) : option Z :=
  match lines with
  | [] => None
  | line :: lines =>
      match strip_prefix line (str "MemTotal:") with
      | Some rest =>
          let number := trim rest in
          let? kb := parse_u64 (trim (trim_end_str (length number) number (str "kB"))) in
          Some (kb / 1024)
      | None => mem_total lines
      end
  end.
Definition total_mem_mb (meminfo : option bytes) : option Z :=
  let? data := meminfo in mem_total (RustStr.lines data).

Definition detect_tier `{UnicodeTables} (env : Env) (cpus : Z) (mem_mb : option Z) : Tier :=
  let forced :=
    let? v := env (var "PERF_PROFILE") in
    let v := to_lowercase (trim v) in
    if bool_decide (v = str "low") then Some Low
    else if bool_decide (v = str "medium") || bool_decide (v = str "mid") then Some Medium
    else if bool_decide (v = str "high") then Some High
    else None in
  match forced with
  | Some tier => tier
  | None =>
      let mem_low := match mem_mb with Some m => m <=? 384 | None => false end in
      let mem_medium := match mem_mb with Some m => m <=? 1536 | None => false end in
      if (cpus <=? 2) || mem_low then Low
      else if (cpus <=? 4) || mem_medium then Medium
      else High
  end.
Definition build_tuning `{Target} `{UnicodeTables} (env : Env) (cpus : Z) (meminfo : option bytes) : Tuning :=
  let mem_mb := total_mem_mb meminfo in
  match detect_tier env cpus mem_mb with
  | Low => mkTuning Low cpus mem_mb 4 (256 * 1024) (128 * 1024) (32 * 1024) 128
  | Medium => mkTuning Medium cpus mem_mb 10 (2 * 1024 * 1024) (256 * 1024) (64 * 1024) 512
  | High => mkTuning High cpus mem_mb usize_max (7 * 1024 * 1024) (512 * 1024) (128 * 1024) 1024
  end.

(** ** The check of an ironclad scan *)

Definition http_probe_port (env : Env) : Z := default 80 (let? v := env (var "IRONCLAD_PORT") in parse_u16 v).
Definition http_status_code (status_line : bytes) : option Z :=
  match split (Z.eqb 32) status_line with
  | version :: rest =>
      if negb (starts_with version (str "HTTP/")) then None
      else match rest with code :: _ => parse_u16 code | [] => None end
  | [] => None
  end.

(** The receive loop: a chunk, the end, or the deadline. *)
Inductive probe_event : Type := ProbeChunk (data : bytes) | ProbeEnd | ProbeTimeout.
Fixpoint probe_loop (evs : list probe_event) (buf : bytes) : option (result bytes) :=
  match evs with
  | [] => None
  | ProbeTimeout :: _ => Some (Err (Other (str "http probe response timeout")))
  | ProbeEnd :: _ => Some (Ok buf)
  | ProbeChunk data :: evs =>
      let buf := buf ++ data in
      if contains buf [13; 10] || (128 <=? zlen buf) then Some (Ok buf) else probe_loop evs buf
  end.
Definition probe_verdict (buf : bytes) : result unit :=
  let status_line := trim (match RustStr.lines (from_utf8_lossy buf) with l :: _ => l | [] => [] end) in
  match http_status_code status_line with
  | Some code => if code =? 204 then Ok tt
                 else Err (Other (str "unexpected http probe response: " ++ status_line))
  | None => Err (Other (str "unexpected http probe response: " ++ status_line))
  end.
(** [dns_resolve], [open_tcp] and the send come first. *)
Definition http_probe (opened : result unit) (evs : list probe_event) : option (result unit) :=
  match opened with
  | Ok _ => let? r := probe_loop evs [] in Some (let! buf := r in probe_verdict buf)
  | Err e => Some (Err e)
  | Panic => Some Panic
  | OutOfFuel => Some OutOfFuel
  end.

(** ** Lemmas *)

(** The inner tunnel's packets fit the outer one with the 80 bytes a hop adds,
    and those of the outer one an Ethernet link. *)
Lemma sled_mtu_fits `{Target} env : let '(outer, inner) := sled_mtu_pair env in
  1280 <= outer <= 1500 /\ inner + 80 = outer.
Proof. unfold sled_mtu_pair, TUNNEL_MTU. case_match; lia. Qed.

Lemma env_secs_nonneg env key d : 0 <= d -> 0 <= env_secs env key d.
Proof.
  intros Hd. unfold env_secs. destruct (env (var key)) as [v|]; [|done]. simpl.
  destruct (parse_u64 v) eqn:E; [|done]. simpl. by eapply parse_uint_nonneg.
Qed.

Lemma wg_cooldown_positive env : 0 < wg_endpoint_cooldown env.
Proof. unfold wg_endpoint_cooldown. pose proof (env_positive_bound env (var "WG_ENDPOINT_COOLDOWN_SECS") 300). lia. Qed.

Lemma profile_names_nonempty env : wg_profile_names env <> [].
Proof.
  unfold wg_profile_names. destruct (env _); [done|]. simpl. repeat case_match; done.
Qed.

(** A command line is read from left to right. *)
Lemma parse_args_app usage a b env env' :
  parse_args usage a env = Applied env' -> parse_args usage (a ++ b) env = parse_args usage b env'.
Proof.
  remember (length a) as n eqn:Hn. revert a Hn env. induction n as [n IH] using lt_wf_ind. intros a -> env.
  destruct a as [|arg rest]; [by intros [= ->]|]. simpl. destruct (option_of arg) as [[|fixed [|v vs]]|]; try done.
  - intros Hp. eapply IH; [|done|done]. simpl. lia.
  - destruct rest as [|value rest]; [done|]. intros Hp. simpl. eapply IH; [|done|done]. simpl. lia.
Qed.

Example cli_ex : 
  match parse_args [] [str "--gool-peer"; str "1.2.3.4:2408"; str "--h2"] (fun _ => None) with
  | Applied env => (env (var "PROTOCOL"), env (var "GOOL_INNER"), env (var "MASQUE_HTTP2"))
  | _ => (None, None, None)
  end = (Some (str "gool"), Some (str "1.2.3.4:2408"), Some (str "1")).
Proof. vm_compute. reflexivity. Qed.
