(* ===== verification/WgEngine.v ===== *)
(** * Keeping a WireGuard tunnel up

    Models [run_wireguard] and [run_gool] of lib.rs with what they call: the
    hunts over the obfuscation profiles, the endpoints that failed and are
    parked, the last endpoint on disk.  A turn of either loop is a step on its
    state; what it meets (the clock, the checks of endpoints, the scan, the end
    of the tunnel) is an argument, one per turn. *)

From Stdlib Require Import ZArith Lia ZifyBool String List.
From stdpp Require Import base list numbers option decidable gmap.
From S2P Require Import Prelude RustStr NetAddr Errors WebLib Prober ZeroTrust Account Store Provision Settings.
Open Scope Z_scope.

(** An endpoint and the profile it works with; a profile is known by its name
    ([soildnoize::from_profile]). *)
Definition Choice : Type := SocketAddr * bytes.

(** A verification of an endpoint with a profile. *)
Definition Verify : Type := SocketAddr -> bytes -> result Z.

(** What the scan with one profile meets. *)
Record Scan : Type := mkScan { sc_world : World; sc_start : Z; sc_turns : Turns }.

(** How a turn of a loop ends: the next turn, the end of the loop, the end of
    the process, or not at all. *)
Inductive wg_next (S : Type) : Type :=
| Again (s : S)
| Returned (r : result unit)
| Killed (code : Z)
| Hanging.
Arguments Again {S} _.
Arguments Returned {S} _.
Arguments Killed {S} _.
Arguments Hanging {S}.

(** The clock of the platform: [Instant] holds the moments up to [instant_max]
    nanoseconds, and the addition of a [Duration] that would pass it panics. *)
Class Clock : Type := { instant_max : Z }.

(** Unix: the seconds are an [i64]. *)
Definition unix_clock : Clock := {| instant_max := from_secs (2 ^ 63) - 1 |}.

(** [None]: the addition panics. *)
Definition instant_add `{Clock} (t d : Z) : option Z := if t + d <=? instant_max then Some (t + d) else None.

Lemma instant_add_Some `{Clock} t d u : instant_add t d = Some u -> u = t + d.
Proof. unfold instant_add. case_match; congruence. Qed.
Lemma instant_add_None `{Clock} t d : instant_add t d = None -> instant_max < t + d.
Proof. unfold instant_add. case_match eqn:E; [done|]. intros _. lia. Qed.

Section Hunting.
Context `{UnicodeTables}.

Definition pr_sock (pr : ProbeResult) : SocketAddr := sock_new (pr_ip pr) (pr_port pr).

Definition select_wg_peers (i : Identity) (mode_str : bytes) (ip : IpScan) (want : Z) (excluded : gset SocketAddr)
    (s : Scan) : option (result (list SocketAddr)) :=
  match parse_ipv4 (ipv4 i) with
  | None => Some (Err (Other (str "invalid ipv4")))
  | Some _ =>
      let? r := hunt_wg_endpoints (sc_world s) WG_PORTS ip excluded (WgScanMode_parse mode_str) want (sc_start s)
                  (sc_turns s) in
      Some (let! found := r in Ok (map pr_sock found))
  end.

Definition hunt_wg_peer_with_profile (i : Identity) (mode_str : bytes) (ip : IpScan) (excluded : gset SocketAddr)
    (s : Scan) : option (result SocketAddr) :=
  match parse_ipv4 (ipv4 i) with
  | None => Some (Err (Other (str "invalid ipv4")))
  | Some _ =>
      let? r := hunt_best_wg_endpoint (sc_world s) WG_PORTS ip excluded (WgScanMode_parse mode_str) (sc_start s)
                  (sc_turns s) in
      Some (let! best := r in Ok (pr_sock best))
  end.

(** [None]: a scan does not end. *)
Fixpoint hunt_wg_peer (i : Identity) (candidates : list bytes) (mode_str : bytes) (ip : IpScan)
    (excluded : gset SocketAddr) (scans : bytes -> Scan) : option (result Choice) :=
  match candidates with
  | [] => Some (Err NoCleanEndpoint)
  | name :: candidates =>
      let? r := hunt_wg_peer_with_profile i mode_str ip excluded (scans name) in
      match r with
      | Ok peer => Some (Ok (peer, name))
      | Err _ => hunt_wg_peer i candidates mode_str ip excluded scans
      | Panic => Some Panic
      | OutOfFuel => Some OutOfFuel
      end
  end.

(** The first profile an endpoint passes with. *)
Fixpoint first_profile (verify : Verify) (peer : SocketAddr) (candidates : list bytes) : option Choice :=
  match candidates with
  | [] => None
  | name :: candidates =>
      match verify peer name with
      | Ok _ => Some (peer, name)
      | _ => first_profile verify peer candidates
      end
  end.

(** ** [run_wireguard] *)

Definition MAX_CONSECUTIVE_FAILS : Z := 2.

Definition forced_wg (env : Env) : option bytes := or_else (env (var "WG_PEER")) (env (var "PEER")).

(** What happens, in order: an endpoint is used from a moment on, or parked
    until another, or the loop sleeps for some milliseconds. *)
Inductive wg_event : Type :=
| Use (peer : SocketAddr) (at_ : Z)
| Park (peer : SocketAddr) (until : Z)
| Sleep (ms : Z).

Record WgLoop : Type := mkLoop {
  wl_quick : option Choice; wl_last_good : option Choice; wl_fails : Z;
  wl_cooldowns : gmap SocketAddr Z; wl_fs : FS; wl_log : list wg_event }.

Record WgTurn : Type := mkTurn {
  wt_now : Z; wt_verify : Verify; wt_scans : bytes -> Scan; wt_tunnel : result unit; wt_after : Z }.

(** What does not change: the variables, the identity, the profiles, the mode
    and family of the scans, the path of the last endpoint. *)
Record WgConf : Type := mkConf {
  wc_env : Env; wc_identity : Identity; wc_candidates : list bytes; wc_mode : bytes; wc_ip : IpScan; wc_path : bytes }.

Definition retain_cooldowns (now : Z) (m : gmap SocketAddr Z) : gmap SocketAddr Z := filter (fun kv => now < kv.2) m.

Context `{Clock}.

(** Two failures in a row park the endpoint.  [None]: the end of the cooldown
    is past what the clock can hold, and the addition panics. *)
Definition park_failed (c : WgConf) (now : Z) (s : WgLoop) : option WgLoop :=
  let cooldowns := retain_cooldowns now (wl_cooldowns s) in
  if MAX_CONSECUTIVE_FAILS <=? wl_fails s then
    match wl_last_good s with
    | Some (peer, _) =>
        let? until := instant_add now (from_secs (wg_endpoint_cooldown (wc_env c))) in
        Some (mkLoop (wl_quick s) None 0 (<[peer := until]> cooldowns) (wl_fs s) (wl_log s ++ [Park peer until]))
    | None => Some (mkLoop (wl_quick s) None 0 cooldowns (wl_fs s) (wl_log s))
    end
  else Some (mkLoop (wl_quick s) (wl_last_good s) (wl_fails s) cooldowns (wl_fs s) (wl_log s)).

(** The endpoint of a turn: the quick one, the last one if it still answers, a
    forced one, or a scan's. *)
Definition choose_wg (c : WgConf) (t : WgTurn) (s : WgLoop) : option (result Choice) :=
  match wl_quick s with
  | Some q => Some (Ok q)
  | None =>
      match (let? lg := wl_last_good s in match wt_verify t lg.1 lg.2 with Ok _ => Some lg | _ => None end) with
      | Some lg => Some (Ok lg)
      | None =>
          match forced_wg (wc_env c) with
          | Some p =>
              match parse_socket_addr p with
              | None => Some (Err (Other (str "bad peer address " ++ p)))
              | Some peer => Some (ok_or (first_profile (wt_verify t) peer (wc_candidates c)) NoCleanEndpoint)
              end
          | None => hunt_wg_peer (wc_identity c) (wc_candidates c) (wc_mode c) (wc_ip c)
                      (dom (wl_cooldowns s)) (wt_scans t)
          end
      end
  end.

Context `{Toml LastConnection}.

(** The endpoint is used: remembered, and run until the tunnel ends. *)
Definition use_wg (c : WgConf) (t : WgTurn) (s : WgLoop) (ch : Choice) : wg_next WgLoop :=
  let '(peer, name) := ch in
  let fs := match forced_wg (wc_env c) with
            | None => lastconn_save (wl_fs s) (wc_path c) (sock_str peer) name false
            | Some _ => wl_fs s
            end in
  let same := match wl_last_good s with Some (p, _) => bool_decide (p = peer) | None => false end in
  let fails := if same then wl_fails s else 0 in
  let log := wl_log s ++ [Use peer (wt_now t)] in
  let delay := wg_reconnect_delay (wc_env c) * 1000 in
  match wt_tunnel t with
  | Ok _ => Again (mkLoop None (Some ch) (fails + 1) (wl_cooldowns s) fs (log ++ [Sleep delay]))
  | Err Migrate =>
      match instant_add (wt_after t) (from_secs (wg_endpoint_cooldown (wc_env c))) with
      | Some until =>
          Again (mkLoop None None 0 (<[peer := until]> (wl_cooldowns s)) fs (log ++ [Park peer until; Sleep 500]))
      | None => Returned Panic
      end
  | Err _ => Again (mkLoop None (Some ch) (fails + 1) (wl_cooldowns s) fs (log ++ [Sleep delay]))
  | Panic => Returned Panic
  | OutOfFuel => Returned OutOfFuel
  end.

Definition turn_wg (c : WgConf) (s : WgLoop) (t : WgTurn) : wg_next WgLoop :=
  match park_failed c (wt_now t) s with
  | None => Returned Panic
  | Some s =>
      match choose_wg c t s with
      | None => Hanging
      | Some (Ok ch) => use_wg c t s ch
      | Some (Err e) =>
          match forced_wg (wc_env c) with
          | Some _ => Returned (Err e)
          | None => Again (mkLoop None (wl_last_good s) (wl_fails s) (wl_cooldowns s) (wl_fs s)
                             (wl_log s ++ [Sleep (wg_reconnect_delay (wc_env c) * 1000)]))
          end
      | Some Panic => Returned Panic
      | Some OutOfFuel => Returned OutOfFuel
      end
  end.

Fixpoint run_turns {S T : Type} (step : S -> T -> wg_next S) (s : S) (turns : list T) : wg_next S :=
  match turns with
  | [] => Again s
  | t :: turns => match step s t with Again s => run_turns step s turns | r => r end
  end.

(** What precedes the loop: the endpoint the organization assigned, then the
    one on disk, each checked; the scan settings are read only without one. *)
Record WgStart : Type := mkStart {
  ws_verify : Verify; ws_verify_cached : Verify; ws_reconnect : option bytes; ws_mode : option bytes; ws_ip : option bytes }.

Definition quick_wg (env : Env) (fs : FS) (path : bytes) (a : WgStart) : option Choice :=
  match forced_wg env with
  | Some _ => None
  | None =>
      let assigned :=
        let? value := env (var "TEAM_ENDPOINT") in
        let? peer := parse_socket_addr value in
        first_profile (ws_verify a) peer (wg_profile_names env) in
      match assigned with
      | Some q => Some q
      | None =>
          let? cached := lastconn_load fs path None in
          let? peer := parse_socket_addr (lc_peer cached) in
          if want_quick_reconnect env (ws_reconnect a) then
            match ws_verify_cached a peer (lc_profile cached) with
            | Ok _ => Some (peer, lc_profile cached)
            | _ => None
            end
          else None
      end
  end.

Definition start_wg (env : Env) (i : Identity) (fs : FS) (path : bytes) (a : WgStart) : result (WgConf * WgLoop) :=
  match parse_ipv4 (ipv4 i) with
  | None => Err (Other (str "invalid ipv4"))
  | Some _ =>
      let quick := quick_wg env fs path a in
      let '(mode, ip) :=
        if is_some (forced_wg env) || is_some quick then ([], ScanV4)
        else (select_scan_mode_str env (ws_mode a), select_ip_version env (ws_ip a)) in
      Ok (mkConf env i (wg_profile_names env) mode ip path, mkLoop quick None 0 ∅ fs [])
  end.

Definition run_wireguard (env : Env) (i : Identity) (fs : FS) (path : bytes) (a : WgStart) (turns : list WgTurn)
  : wg_next WgLoop :=
  match start_wg env i fs path a with
  | Ok (c, s) => run_turns (turn_wg c) s turns
  | Err e => Returned (Err e)
  | Panic => Returned Panic
  | OutOfFuel => Returned OutOfFuel
  end.

End Hunting.

(** ** Hunts: lemmas *)

Section HuntLemmas.
Context `{UnicodeTables}.

Lemma hunt_best_wg_result w ports ip excluded mode start turns r :
  0 < w_cap w -> hunt_best_wg_endpoint w ports ip excluded mode start turns = Some r -> returns r.
Proof.
  intros Hc Hh. unfold hunt_best_wg_endpoint in Hh. inv_bind. simplify_eq. destruct a as [l|e| |]; simpl.
  - apply returns_ok_or.
  - done.
  - apply wg_scan in E as [[_ ?]|(? & ? & ? & ? & ? & _ & _ & _ & [] & _)]; done.
  - apply wg_scan in E as [[_ ?]|(? & ? & ? & ? & ? & _ & _ & _ & [] & _)]; done.
Qed.

Lemma hunt_wg_peer_spec i candidates mode ip excluded scans r :
  (forall name, 0 < w_cap (sc_world (scans name))) ->
  hunt_wg_peer i candidates mode ip excluded scans = Some r ->
  r = Err NoCleanEndpoint \/ exists peer name, r = Ok (peer, name) /\ name ∈ candidates /\ peer ∉ excluded.
Proof.
  intros Hc. induction candidates as [|name l IH]; simpl; [intros; left; by simplify_eq|]. intros Hh. inv_bind.
  unfold hunt_wg_peer_with_profile in E. destruct (parse_ipv4 (ipv4 i)).
  - inv_bind. simplify_eq. pose proof (hunt_best_wg_result _ _ _ _ _ _ _ _ (Hc name) E0) as Hr.
    destruct a0 as [best|e| |]; simpl in *; try done; simplify_eq.
    + right. exists (pr_sock best), name. split_and!; [done|set_solver|]. by eapply best_wg_allowed.
    + destruct (IH Hh) as [->|(p & n & -> & ? & ?)]; [by left|right]. exists p, n. set_solver.
  - simplify_eq. destruct (IH Hh) as [->|(p & n & -> & ? & ?)]; [by left|right]. exists p, n. set_solver.
Qed.
End HuntLemmas.

(** ** The discipline of the loop *)

(** Whenever an endpoint is used, the moments until which it was parked before
    are over. *)
Definition respects (log : list wg_event) : Prop :=
  forall pre post p t u, log = pre ++ Use p t :: post -> Park p u ∈ pre -> u <= t.

(** The uses of [p] in a row at the end of the log, which is given backwards:
    another endpoint, or parking [p], ends the row. *)
Fixpoint streak (p : SocketAddr) (backwards : list wg_event) : Z :=
  match backwards with
  | [] => 0
  | Sleep _ :: l => streak p l
  | Use q _ :: l => if bool_decide (q = p) then 1 + streak p l else 0
  | Park q _ :: l => if bool_decide (q = p) then 0 else streak p l
  end.
Definition short_streaks (log : list wg_event) : Prop :=
  forall pre post p, log = pre ++ post -> streak p (rev pre) <= 2.

Lemma respects_snoc log e :
  respects log -> (forall p t, e = Use p t -> forall u, Park p u ∈ log -> u <= t) -> respects (log ++ [e]).
Proof.
  intros Hr He pre post p t u Heq Hp. destruct (decide (post = [])) as [->|Hne].
  - apply app_inj_tail in Heq as [-> ->]. by eapply He.
  - destruct (@exists_last _ post Hne) as (post' & x & ->). rewrite app_comm_cons, app_assoc in Heq.
    apply app_inj_tail in Heq as [-> _]. by eapply Hr.
Qed.

Lemma short_streaks_snoc log e :
  short_streaks log -> (forall p, streak p (rev (log ++ [e])) <= 2) -> short_streaks (log ++ [e]).
Proof.
  intros Hs He pre post p Heq. destruct (decide (post = [])) as [->|Hne].
  - rewrite app_nil_r in Heq. subst pre. apply He.
  - destruct (@exists_last _ post Hne) as (post' & x & ->). rewrite app_assoc in Heq.
    apply app_inj_tail in Heq as [-> _]. by eapply Hs.
Qed.

Lemma streak_snoc p log e : streak p (rev (log ++ [e])) =
  match e with
  | Sleep _ => streak p (rev log)
  | Use q _ => if bool_decide (q = p) then 1 + streak p (rev log) else 0
  | Park q _ => if bool_decide (q = p) then 0 else streak p (rev log)
  end.
Proof. rewrite rev_app_distr. simpl. by destruct e. Qed.

Definition good_peer (s : WgLoop) : option SocketAddr := option_map fst (wl_last_good s).

(** The invariant at the head of the loop; [t0] is the last reading of the
    clock. *)
Record wg_inv (t0 : Z) (s : WgLoop) : Prop := mkInv {
  inv_parked : forall p u, Park p u ∈ wl_log s -> u <= t0 \/ exists v, wl_cooldowns s !! p = Some v /\ u <= v;
  inv_good : forall p, good_peer s = Some p -> wl_cooldowns s !! p = None;
  inv_quick : wl_quick s <> None -> wl_log s = [] /\ wl_cooldowns s = ∅;
  inv_fails : 0 <= wl_fails s <= 2;
  inv_streak : forall p, streak p (rev (wl_log s)) = if bool_decide (good_peer s = Some p) then wl_fails s else 0;
  inv_respects : respects (wl_log s);
  inv_short : short_streaks (wl_log s) }.

Lemma wg_inv_init quick fs t0 : wg_inv t0 (mkLoop quick None 0 ∅ fs []).
Proof.
  split; simpl; try done.
  - intros p u Hp. by apply not_elem_of_nil in Hp.
  - intros pre post p t u Heq. by destruct pre.
  - intros pre post p Heq. destruct pre; [simpl; lia|done].
Qed.

Lemma retain_lookup now (m : gmap SocketAddr Z) p v :
  retain_cooldowns now m !! p = Some v <-> m !! p = Some v /\ now < v.
Proof. unfold retain_cooldowns. rewrite map_lookup_filter_Some. done. Qed.

Lemma retain_parked now (m : gmap SocketAddr Z) p u t0 :
  t0 <= now -> (u <= t0 \/ exists v, m !! p = Some v /\ u <= v) ->
  u <= now \/ exists v, retain_cooldowns now m !! p = Some v /\ u <= v.
Proof.
  intros Ht [Hu|(v & Hv & Hu)]; [left; lia|]. destruct (Z.le_gt_cases v now); [left; lia|right].
  exists v. rewrite retain_lookup. split; [split; [done|lia]|done].
Qed.

Lemma retain_None now (m : gmap SocketAddr Z) p : m !! p = None -> retain_cooldowns now m !! p = None.
Proof. intros Hp. apply eq_None_not_Some. intros [v Hv]. apply retain_lookup in Hv as [? _]. congruence. Qed.

(** Parking at the head of a turn leaves less than two failures. *)
Lemma park_failed_inv `{Clock} c t0 now s s' :
  t0 <= now -> wg_inv t0 s -> park_failed c now s = Some s' -> wg_inv now s' /\ wl_fails s' <= 1.
Proof.
  intros Ht [Hp Hg Hq Hf Hs Hr Hsh]. unfold park_failed, MAX_CONSECUTIVE_FAILS.
  assert (Hret : wl_quick s <> None -> wl_log s = [] /\ retain_cooldowns now (wl_cooldowns s) = ∅).
  { intros Hn. destruct (Hq Hn) as [-> ->]. split; [done|]. apply map_filter_empty. }
  destruct (2 <=? wl_fails s) eqn:E2;
    [|intros [= <-]; split; [|simpl; lia]; split; simpl; eauto using retain_parked, retain_None].
  destruct (wl_last_good s) as [[peer name]|] eqn:Eg.
  - intros Hpark. inv_bind. rename a into until, E into Hu. injection Hpark as <-. assert (now < until).
    { apply instant_add_Some in Hu. pose proof (wg_cooldown_positive (wc_env c)). unfold from_secs in *. lia. }
    split; [|simpl; lia]. split; simpl; try done.
    + intros p u Hin. apply elem_of_app in Hin as [Hin|Hin%list_elem_of_singleton]; simplify_eq.
      * destruct (decide (p = peer)) as [->|Hne]; [|rewrite lookup_insert_ne by done; eauto using retain_parked].
        destruct (retain_parked now _ _ _ _ Ht (Hp _ _ Hin)) as [?|(v & Hv & ?)]; [by left|].
        apply retain_lookup in Hv as [Hv _]. rewrite (Hg peer) in Hv; [done|]. unfold good_peer. by rewrite Eg.
      * right. exists until. rewrite lookup_insert_eq. split; [done|lia].
    + intros Hn. destruct (Hq Hn) as [Hl _]. specialize (Hs peer). rewrite Hl in Hs. simpl in Hs.
      unfold good_peer in Hs. rewrite Eg in Hs. simpl in Hs. rewrite bool_decide_eq_true_2 in Hs by done. lia.
    + intros p. rewrite streak_snoc. destruct (bool_decide (peer = p)) eqn:Ep; [done|]. rewrite Hs.
      rewrite bool_decide_eq_false in Ep. unfold good_peer. rewrite Eg. simpl. rewrite bool_decide_eq_false_2; congruence.
    + by apply respects_snoc.
    + apply short_streaks_snoc; [done|]. intros p. rewrite streak_snoc. destruct (bool_decide _); [lia|].
      rewrite Hs. case_match; lia.
  - intros [= <-]. split; [|simpl; lia]. split; simpl; eauto using retain_parked; [done|lia|].
    intros p. rewrite Hs. unfold good_peer. by rewrite Eg.
Qed.

Lemma wg_inv_sleep t0 s ms :
  wg_inv t0 s -> wl_quick s = None ->
  wg_inv t0 (mkLoop None (wl_last_good s) (wl_fails s) (wl_cooldowns s) (wl_fs s) (wl_log s ++ [Sleep ms])).
Proof.
  intros [Hp Hg Hq Hf Hs Hr Hsh] Hn. split; simpl; try done.
  - intros p u Hin. apply elem_of_app in Hin as [Hin|Hin%list_elem_of_singleton]; [eauto|done].
  - intros p. rewrite streak_snoc. apply Hs.
  - by apply respects_snoc.
  - apply short_streaks_snoc; [done|]. intros p. rewrite streak_snoc, Hs. case_match; lia.
Qed.

Section TurnInv.
Context `{UnicodeTables} `{Clock} `{Toml LastConnection}.

(** An endpoint that is not parked goes into use. *)
Lemma use_inv now s peer name fs :
  wg_inv now s -> wl_fails s <= 1 -> wl_cooldowns s !! peer = None ->
  let fails := if match wl_last_good s with Some (p, _) => bool_decide (p = peer) | None => false end
               then wl_fails s else 0 in
  wg_inv now (mkLoop None (Some (peer, name)) (fails + 1) (wl_cooldowns s) fs (wl_log s ++ [Use peer now])).
Proof.
  intros [Hp Hg Hq Hf Hs Hr Hsh] Hf1 Hc fails.
  assert (streak peer (rev (wl_log s)) = fails) as Hst.
  { rewrite Hs. subst fails. unfold good_peer. destruct (wl_last_good s) as [[p n]|]; simpl; [|done].
    destruct (decide (p = peer)) as [->|Hne]; [by rewrite !bool_decide_eq_true_2 by done|].
    rewrite !bool_decide_eq_false_2; [done|done|congruence]. }
  assert (0 <= fails <= 1) by (subst fails; case_match; lia).
  assert (forall p, streak p (rev (wl_log s ++ [Use peer now])) = if bool_decide (Some peer = Some p) then fails + 1 else 0) as Hn.
  { intros p. rewrite streak_snoc. destruct (decide (peer = p)) as [->|Hne].
    - rewrite !bool_decide_eq_true_2 by done. lia.
    - by rewrite !bool_decide_eq_false_2 by congruence. }
  split; simpl; try done.
  - intros p u Hin. apply elem_of_app in Hin as [Hin|Hin%list_elem_of_singleton]; [eauto|done].
  - intros p [= <-]. done.
  - lia.
  - apply respects_snoc; [done|]. intros p t [= <- <-] u Hin.
    destruct (Hp _ _ Hin) as [Hu|(v & Hv & _)]; [lia|congruence].
  - apply short_streaks_snoc; [done|]. intros p. rewrite Hn. case_match; lia.
Qed.

(** It is parked right after. *)
Lemma migrate_inv now after s peer name fails fs ms until :
  now <= after -> after < until -> wg_inv now (mkLoop None (Some (peer, name)) fails (wl_cooldowns s) fs (wl_log s ++ [Use peer now])) ->
  wg_inv after (mkLoop None None 0 (<[peer := until]> (wl_cooldowns s)) fs
    ((wl_log s ++ [Use peer now]) ++ [Park peer until; Sleep ms])).
Proof.
  intros Ha Hu [Hp Hg Hq Hf Hs Hr Hsh]. simpl in *. set (log := wl_log s ++ [Use peer now]) in *.
  change (log ++ [Park peer until; Sleep ms]) with (log ++ [Park peer until] ++ [Sleep ms]). rewrite app_assoc.
  assert (forall p, streak p (rev (log ++ [Park peer until])) = 0) as Hzero.
  { intros p. rewrite streak_snoc, Hs. unfold good_peer. simpl. destruct (decide (peer = p)) as [->|Hne].
    - by rewrite bool_decide_eq_true_2 by done.
    - by rewrite !bool_decide_eq_false_2 by congruence. }
  split; simpl; try done.
  - intros p u Hin. apply elem_of_app in Hin as [Hin|Hin%list_elem_of_singleton]; [|done].
    apply elem_of_app in Hin as [Hin|Hin%list_elem_of_singleton]; simplify_eq.
    + destruct (Hp _ _ Hin) as [Hv|(v & Hv & Huv)]; [left; lia|].
      destruct (decide (p = peer)) as [->|Hne]; [|right; exists v; by rewrite lookup_insert_ne].
      exfalso. rewrite (Hg peer eq_refl) in Hv. done.
    + right. exists until. rewrite lookup_insert_eq. split; [done|lia].
  - intros p. rewrite streak_snoc. apply Hzero.
  - by do 2 (apply respects_snoc; [|done]).
  - apply short_streaks_snoc; [apply short_streaks_snoc; [done|]|]; intros p; rewrite ?(streak_snoc p _ (Sleep ms)), Hzero; lia.
Qed.

Lemma wg_inv_later t0 t1 s : t0 <= t1 -> wg_inv t0 s -> wg_inv t1 s.
Proof.
  intros Ht [Hp Hg Hq Hf Hs Hr Hsh]. split; try done. intros p u Hin. destruct (Hp p u Hin) as [?|?]; [left; lia|by right].
Qed.

Lemma use_wg_inv c t s ch s' :
  wt_now t <= wt_after t -> wg_inv (wt_now t) s -> wl_fails s <= 1 -> wl_cooldowns s !! ch.1 = None ->
  use_wg c t s ch = Again s' -> wg_inv (wt_after t) s'.
Proof.
  intros Ht Hi Hf Hc Hu. destruct ch as [peer name]. unfold use_wg in Hu.
  set (fs := match forced_wg (wc_env c) with
             | None => lastconn_save (wl_fs s) (wc_path c) (sock_str peer) name false
             | Some _ => wl_fs s
             end) in Hu.
  pose proof (use_inv (wt_now t) s peer name fs Hi Hf Hc) as Hn. simpl in Hn.
  set (fails := if match wl_last_good s with Some (p, _) => bool_decide (p = peer) | None => false end
                then wl_fails s else 0) in *.
  assert (forall d, wg_inv (wt_after t) (mkLoop None (Some (peer, name)) (fails + 1) (wl_cooldowns s) fs
    ((wl_log s ++ [Use peer (wt_now t)]) ++ [Sleep d]))) as Hagain.
  { intros d. eapply wg_inv_later; [done|]. by apply (wg_inv_sleep _ _ d Hn). }
  destruct (wt_tunnel t) as [u|e| |]; [by simplify_eq| |done..].
  destruct e; try (simplify_eq; apply Hagain). destruct (instant_add _ _) as [until|] eqn:Ea; [|done].
  injection Hu as <-. eapply migrate_inv; [done| |exact Hn].
  apply instant_add_Some in Ea. pose proof (wg_cooldown_positive (wc_env c)). unfold from_secs in *. lia.
Qed.

Lemma turn_wg_inv c s t t0 s' :
  forced_wg (wc_env c) = None -> (forall name, 0 < w_cap (sc_world (wt_scans t name))) ->
  t0 <= wt_now t <= wt_after t -> wg_inv t0 s -> turn_wg c s t = Again s' -> wg_inv (wt_after t) s'.
Proof.
  intros Hforced Hcap Ht Hi Hturn. unfold turn_wg in Hturn.
  destruct (park_failed c (wt_now t) s) as [s1|] eqn:Es1; [|done].
  destruct (park_failed_inv c t0 (wt_now t) s s1 ltac:(lia) Hi Es1) as [Hp Hf].
  assert (forall ch, choose_wg c t s1 = Some (Ok ch) -> wl_cooldowns s1 !! ch.1 = None) as Hok.
  { intros ch Hch. unfold choose_wg in Hch. rewrite Hforced in Hch.
    assert (forall ch, hunt_wg_peer (wc_identity c) (wc_candidates c) (wc_mode c) (wc_ip c) (dom (wl_cooldowns s1))
      (wt_scans t) = Some (Ok ch) -> wl_cooldowns s1 !! ch.1 = None) as Hhunt.
    { intros ch' Hh. apply hunt_wg_peer_spec in Hh as [?|(p & n & ? & _ & Hx)]; [done| |done]. simplify_eq.
      by apply not_elem_of_dom in Hx. }
    destruct (wl_quick s1) as [q|] eqn:Eq.
    - destruct (inv_quick _ _ Hp ltac:(by rewrite Eq)) as [_ ->]. apply lookup_empty.
    - destruct (wl_last_good s1) as [lg|] eqn:El; simpl in Hch; [|by apply Hhunt].
      destruct (wt_verify t lg.1 lg.2); [|by apply Hhunt..].
      simplify_eq. apply (inv_good _ _ Hp). unfold good_peer. by rewrite El. }
  destruct (choose_wg c t s1) as [[ch|e| |]|] eqn:Ec; try done.
  - eapply use_wg_inv; [lia|done..|by apply Hok|done].
  - rewrite Hforced in Hturn. simplify_eq. eapply wg_inv_later; [apply Ht|]. apply wg_inv_sleep; [done|].
    unfold choose_wg in Ec. by destruct (wl_quick s1).
Qed.
End TurnInv.

(** The clock does not go back, and the device allows at least one probe at a
    time. *)
Fixpoint chronological (t0 : Z) (turns : list WgTurn) : Prop :=
  match turns with
  | [] => True
  | t :: turns =>
      t0 <= wt_now t <= wt_after t /\ (forall name, 0 < w_cap (sc_world (wt_scans t name))) /\
      returns (wt_tunnel t) /\ chronological (wt_after t) turns
  end.

Section Runs.
Context `{UnicodeTables} `{Clock} `{Toml LastConnection}.

(** The cooldown, from the moment an endpoint may be parked in a turn, ends
    past what the clock can hold. *)
Definition past_clock (env : Env) (t : WgTurn) : Prop :=
  instant_max < wt_now t + from_secs (wg_endpoint_cooldown env) \/
  instant_max < wt_after t + from_secs (wg_endpoint_cooldown env).

Lemma park_failed_past c t s : park_failed c (wt_now t) s = None -> past_clock (wc_env c) t.
Proof.
  unfold park_failed. case_match; [|done]. destruct (wl_last_good s) as [[peer name]|]; [|done].
  destruct (instant_add _ _) eqn:E; [done|]. intros _. left. by apply instant_add_None.
Qed.

Lemma turn_wg_goes_on c s t :
  forced_wg (wc_env c) = None -> (forall name, 0 < w_cap (sc_world (wt_scans t name))) -> returns (wt_tunnel t) ->
  turn_wg c s t = Hanging \/ (exists s', turn_wg c s t = Again s') \/
  turn_wg c s t = Returned Panic /\ past_clock (wc_env c) t.
Proof.
  intros Hf Hc Hr. unfold turn_wg.
  destruct (park_failed c (wt_now t) s) as [s1|] eqn:Es1; [|by eauto using park_failed_past].
  assert (forall r, choose_wg c t s1 = Some r -> returns r) as Hch.
  { intros r. unfold choose_wg. rewrite Hf. destruct (wl_quick s1); [by intros [= <-]|].
    assert (forall r, hunt_wg_peer (wc_identity c) (wc_candidates c) (wc_mode c) (wc_ip c) (dom (wl_cooldowns s1))
      (wt_scans t) = Some r -> returns r) as Hh.
    { intros r' Hh. by apply hunt_wg_peer_spec in Hh as [->|(p & n & -> & _)]. }
    destruct (wl_last_good s1) as [lg|]; simpl; [|by apply Hh].
    destruct (wt_verify t lg.1 lg.2); [by intros [= <-]|by apply Hh..]. }
  destruct (choose_wg c t s1) as [[ch|e| |]|]; [right|right|exfalso; by eapply (Hch _ eq_refl)..|by left].
  - unfold use_wg. destruct ch. destruct (wt_tunnel t) as [u|e| |]; [eauto| |done..]. destruct e; eauto.
    destruct (instant_add _ _) eqn:E; [eauto|]. right. split; [done|]. right. by apply instant_add_None.
  - rewrite Hf. eauto.
Qed.

Lemma run_turns_inv c s turns t0 :
  forced_wg (wc_env c) = None -> chronological t0 turns -> wg_inv t0 s ->
  match run_turns (turn_wg c) s turns with
  | Again s' => exists t1, wg_inv t1 s'
  | Hanging => True
  | Returned Panic => Exists (past_clock (wc_env c)) turns
  | _ => False
  end.
Proof.
  intros Hf. revert s t0. induction turns as [|t turns IH]; intros s t0 Hc Hi; simpl; [by exists t0|].
  destruct Hc as (Ht & Hw & Hr & Hc).
  destruct (turn_wg_goes_on c s t Hf Hw Hr) as [->|[(s' & E)|[-> Hp]]]; [done| |by constructor].
  rewrite E. specialize (IH s' (wt_after t) Hc). destruct (run_turns (turn_wg c) s' turns) as [s2|[| | |]| |]; try by apply IH; eapply turn_wg_inv.
  apply Exists_cons_tl. apply IH. by eapply turn_wg_inv.
Qed.
End Runs.

(** C15: [run_wireguard] without a forced endpoint keeps trying for ever, and is
    fair to the endpoints: it never returns (but for an identity without an
    IPv4 address), it never uses an endpoint that was parked before the time is
    over, and it never uses one more than twice in a row without parking it,
    whatever the checks, the scans and the tunnels do.  It panics only where an
    endpoint is to be parked until a moment that the clock cannot hold; with the
    clock of Unix that takes a cooldown of astronomical length. *)
Theorem wg_endpoints_rotate `{UnicodeTables} `{Clock} `{Toml LastConnection} env i fs path a turns t0 :
  forced_wg env = None -> parse_ipv4 (ipv4 i) <> None -> chronological t0 turns ->
  match run_wireguard env i fs path a turns with
  | Again s => respects (wl_log s) /\ short_streaks (wl_log s)
  | Hanging => True
  | Returned Panic => Exists (past_clock env) turns
  | _ => False
  end.
Proof.
  intros Hf Hip Hc. unfold run_wireguard, start_wg. destruct (parse_ipv4 (ipv4 i)); [|done].
  set (quick := quick_wg env fs path a). destruct (if is_some (forced_wg env) || is_some quick then _ else _) as [mode ip].
  pose proof (run_turns_inv (mkConf env i (wg_profile_names env) mode ip path) (mkLoop quick None 0 ∅ fs []) turns t0
    Hf Hc (wg_inv_init _ _ _)) as Hr.
  destruct (run_turns _ _ _) as [s|[| | |]| |]; try done. destruct Hr as [t1 Hi]. split; [apply (inv_respects _ _ Hi)|apply (inv_short _ _ Hi)].
Qed.

(** *** An example: an endpoint that closes twice is parked for five minutes *)

Definition demo_check_wg (a : SocketAddr) : result Z :=
  match sa_ip a with V4 [188; 114; 96; 1] => Ok (from_millis 30) | _ => Err NoCleanEndpoint end.
Definition demo_scan_world : World :=
  mkWorld demo_env 4 false [] false
    (mkChecks demo_check_wg demo_check_wg demo_check_wg demo_check_wg demo_check_wg demo_check_wg).
Definition demo_turn (now : Z) : WgTurn :=
  mkTurn (from_secs now) (fun a _ => demo_check_wg a)
    (fun _ => mkScan demo_scan_world 0 (replicate 200 (0, NextItem 0 0))) (Ok tt) (from_secs now).
Definition thorough_env : Env := set_var no_env (var "SCAN") (str "thorough").
Definition no_lastconn : Toml LastConnection := {| to_toml _ := inr []; from_toml _ := inr [] |}.
Definition demo_start : WgStart := mkStart (fun _ _ => Err NoCleanEndpoint) (fun _ _ => Err NoCleanEndpoint) None None None.

Lemma wg_endpoints_rotate_witness :
  match @run_wireguard no_unicode unix_clock no_lastconn thorough_env demo_identity ∅ (str "l") demo_start (map demo_turn [0; 10; 20]) with
  | Again s => respects (wl_log s) /\ short_streaks (wl_log s)
  | Hanging => True
  | Returned Panic => Exists (@past_clock unix_clock thorough_env) (map demo_turn [0; 10; 20])
  | _ => False
  end /\
  match @run_wireguard no_unicode unix_clock no_lastconn thorough_env demo_identity ∅ (str "l") demo_start (map demo_turn [0; 10; 20]) with
  | Again s => List.filter (fun e => match e with Park _ _ => true | _ => false end) (wl_log s) <> []
  | _ => False
  end.
Proof.
  split; [|vm_compute; discriminate].
  apply (@wg_endpoints_rotate no_unicode unix_clock no_lastconn thorough_env demo_identity ∅ (str "l") demo_start
    (map demo_turn [0; 10; 20]) 0); [reflexivity|vm_compute; discriminate|].
  vm_compute. repeat split; discriminate.
Defined.

(** A cooldown that is too long for the clock is accepted from the environment
    and ends the engine the first time an endpoint is to be parked. *)
Definition endless_env : Env :=
  set_var thorough_env (var "WG_ENDPOINT_COOLDOWN_SECS") (str "18446744073709551615").
Theorem endless_cooldown_panics :
  wg_endpoint_cooldown endless_env = 2 ^ 64 - 1 /\
  @run_wireguard no_unicode unix_clock no_lastconn endless_env demo_identity ∅ (str "l") demo_start
    (map demo_turn [0; 10; 20]) = Returned Panic.
Proof. split; vm_compute; reflexivity. Qed.

(** ** [run_warp_in_warp] *)

(** How a task ended: with its result, or cancelled or by a panic, with the text
    of the error that says so. *)
Inductive Joined : Type :=
| JoinResult (r : result unit)
| JoinFailed (cancelled : bool) (e : bytes).
Definition join_outcome (what : bytes) (j : Joined) : result unit :=
  match j with
  | JoinResult (Ok _) => Err (Other (what ++ str " stopped"))
  | JoinResult r => r
  | JoinFailed true _ => Err (Other (what ++ str " was cancelled"))
  | JoinFailed false e => Err (Other (what ++ str " panicked: " ++ e))
  end.

(** What the pair of tunnels meets: the outer one, the forwarder and the inner
    one come up or not, and then one of the tasks ends, or the application asks
    for another gateway. *)
Inductive pair_end : Type :=
| OuterEnded (j : Joined) | InnerEnded (j : Joined) | SocksEnded (j : Joined) | MigrateHint.
Record PairWorld : Type := mkPair {
  pw_outer : result unit; pw_forwarder : result unit; pw_inner : result unit; pw_end : pair_end }.

Definition run_warp_in_warp (peer inner_peer : SocketAddr) (w : PairWorld) : result unit :=
  if bool_decide (sa_ip inner_peer = sa_ip peer) then
    Err (Other (str "warp-in-warp needs two separate edges but both hops landed on " ++ ip_str (sa_ip peer)))
  else
    let! _ := pw_outer w in
    let! _ := pw_forwarder w in
    let! _ := pw_inner w in
    match pw_end w with
    | OuterEnded j => join_outcome (str "outer wireguard tunnel") j
    | InnerEnded j => join_outcome (str "inner wireguard tunnel") j
    | SocksEnded j => join_outcome (str "socks5 server") j
    | MigrateHint => Err Migrate
    end.

Lemma join_never_ok what j u : join_outcome what j <> Ok u.
Proof. by destruct j as [[]|[]]. Qed.
Lemma warp_in_warp_never_ok peer inner w u : run_warp_in_warp peer inner w <> Ok u.
Proof.
  unfold run_warp_in_warp. destruct (bool_decide _); [done|]. destruct (pw_outer w); [|done..]. simpl.
  destruct (pw_forwarder w); [|done..]. simpl. destruct (pw_inner w); [|done..]. simpl.
  destruct (pw_end w); try apply join_never_ok. done.
Qed.

(** ** [run_gool] *)

Inductive gool_event : Type :=
| UsePair (outer inner : SocketAddr) (at_ : Z) (relaxed : bool)  (** [relaxed]: the cooldowns were ignored *)
| ParkEdge (peer : SocketAddr) (until : Z)
| Pause (ms : Z).

Record GoolLoop : Type := mkGool {
  gl_last_peer : option SocketAddr; gl_last_inner : option SocketAddr; gl_fails : Z;
  gl_cooldowns : gmap SocketAddr Z; gl_cached : option (SocketAddr * SocketAddr); gl_fs : FS;
  gl_log : list gool_event }.

Record GoolTurn : Type := mkGoolTurn {
  gt_now : Z; gt_mode : option bytes; gt_ip : option bytes; gt_scan : Scan; gt_rescan : Scan;
  gt_pair : PairWorld; gt_after : Z; gt_after' : Z }.

Section Gool.
Context `{UnicodeTables} `{Clock} `{Toml LastConnection}.
Context (env : Env) (primary : Identity) (path : bytes).

Definition pair_str (outer inner : SocketAddr) : bytes := sock_str outer ++ str "," ++ sock_str inner.

Definition gool_start (fs : FS) : GoolLoop :=
  let cached :=
    if is_some (env (var "SCAN_CIDRS")) || is_some (env (var "WG_PEER")) then None
    else
      let? c := lastconn_load fs path None in
      let? '(outer, inner) := split_once 44 (lc_peer c) in
      let? outer := parse_socket_addr (trim outer) in
      let? inner := parse_socket_addr (trim inner) in
      Some (outer, inner) in
  mkGool None None 0 ∅ cached fs [].

(** The scan for two edges; if it finds nothing because of the cooldowns, a
    second one without them.  The flag says which. *)
Definition gool_scan (cooldowns : gmap SocketAddr Z) (t : GoolTurn) : option (result (list SocketAddr) * bool) :=
  let mode_str := select_scan_mode_str env (gt_mode t) in
  let ip := select_ip_version env (gt_ip t) in
  let excluded := dom cooldowns : gset SocketAddr in
  let? scanned := select_wg_peers primary mode_str ip 2 excluded (gt_scan t) in
  match scanned with
  | Err _ =>
      if bool_decide (excluded = ∅) then Some (scanned, false)
      else let? again := select_wg_peers primary mode_str ip 2 ∅ (gt_rescan t) in Some (again, true)
  | _ => Some (scanned, false)
  end.

(** The pair ended: both edges are parked and forgotten. *)
Definition discard_pair (s : GoolLoop) (t : GoolTurn) (outer inner : SocketAddr) (ms : Z) : wg_next GoolLoop :=
  let cooldown := from_secs (wg_endpoint_cooldown env) in
  match instant_add (gt_after t) cooldown, instant_add (gt_after' t) cooldown with
  | Some u, Some u' =>
      Again (mkGool None None 0 (<[inner := u']> (<[outer := u]> (gl_cooldowns s))) None
        (lastconn_forget (gl_fs s) path (pair_str outer inner) None false)
        (gl_log s ++ [ParkEdge outer u; ParkEdge inner u'; Pause ms]))
  | _, _ => Returned Panic
  end.

Definition use_pair (s : GoolLoop) (t : GoolTurn) (outer inner : SocketAddr) (relaxed : bool) : wg_next GoolLoop :=
  let profile := default (str "balanced") (env (var "NOIZE")) in
  let fs := lastconn_save (gl_fs s) path (pair_str outer inner) profile false in
  let delay := wg_reconnect_delay env * 1000 in
  let s := mkGool (Some outer) (Some inner) (gl_fails s) (gl_cooldowns s) (gl_cached s) fs
             (gl_log s ++ [UsePair outer inner (gt_now t) relaxed]) in
  match run_warp_in_warp outer inner (gt_pair t) with
  | Ok _ => Again (mkGool (gl_last_peer s) (gl_last_inner s) (gl_fails s + 1) (gl_cooldowns s) (gl_cached s) fs
                     (gl_log s ++ [Pause delay]))
  | Err Migrate => discard_pair s t outer inner 500
  | Err (Io e) => if bool_decide (io_kind e = AddrInUse) then Killed 3 else discard_pair s t outer inner delay
  | Err _ => discard_pair s t outer inner delay
  | Panic => Returned Panic
  | OutOfFuel => Returned OutOfFuel
  end.

Definition turn_gool (s : GoolLoop) (t : GoolTurn) : wg_next GoolLoop :=
  let cooldowns := retain_cooldowns (gt_now t) (gl_cooldowns s) in
  let s := mkGool (gl_last_peer s) (gl_last_inner s) (gl_fails s) cooldowns (gl_cached s) (gl_fs s) (gl_log s) in
  let delay := wg_reconnect_delay env * 1000 in
  let with_inner (s : GoolLoop) outer (inner : option SocketAddr) relaxed :=
    match inner with
    | Some inner => use_pair s t outer inner relaxed
    | None => Again (mkGool None None (gl_fails s) (gl_cooldowns s) (gl_cached s) (gl_fs s) (gl_log s ++ [Pause delay]))
    end in
  match (if gl_fails s <? MAX_CONSECUTIVE_FAILS then gl_last_peer s else None) with
  | Some p => with_inner s p (gl_last_inner s) false
  | None =>
      match gl_cached s with
      | Some (outer, inner) =>
          with_inner (mkGool (gl_last_peer s) (gl_last_inner s) 0 cooldowns None (gl_fs s) (gl_log s)) outer (Some inner) false
      | None =>
          match gool_scan cooldowns t with
          | None => Hanging
          | Some (Ok found, relaxed) =>
              let s := mkGool (gl_last_peer s) (gl_last_inner s) 0 cooldowns None (gl_fs s) (gl_log s) in
              match found with
              | [] => Returned Panic
              | outer :: rest => with_inner s outer (head rest) relaxed
              end
          | Some (Err e, _) =>
              Again (mkGool (gl_last_peer s) (gl_last_inner s) (gl_fails s) cooldowns None (gl_fs s)
                       (gl_log s ++ [Pause delay]))
          | Some (Panic, _) => Returned Panic
          | Some (OutOfFuel, _) => Returned OutOfFuel
          end
      end
  end.

Definition run_gool (fs : FS) (turns : list GoolTurn) : wg_next GoolLoop := run_turns turn_gool (gool_start fs) turns.
End Gool.

(** ** The discipline of [run_gool] *)

(** A pair that was chosen with the cooldowns in mind has no edge that is still
    parked. *)
Definition pair_respects (log : list gool_event) : Prop :=
  forall pre post o i t p u, log = pre ++ UsePair o i t false :: post -> (p = o \/ p = i) ->
    ParkEdge p u ∈ pre -> u <= t.

Lemma pair_respects_snoc log e :
  pair_respects log ->
  (forall o i t, e = UsePair o i t false -> forall p u, (p = o \/ p = i) -> ParkEdge p u ∈ log -> u <= t) ->
  pair_respects (log ++ [e]).
Proof.
  intros Hr He pre post o i t p u Heq Hp Hin. destruct (decide (post = [])) as [->|Hne].
  - apply app_inj_tail in Heq as [-> ->]. by eapply He.
  - destruct (@exists_last _ post Hne) as (post' & x & ->). rewrite app_comm_cons, app_assoc in Heq.
    apply app_inj_tail in Heq as [-> _]. by eapply Hr.
Qed.

Section GoolInv.
Context `{UnicodeTables} `{Clock} `{Toml LastConnection} `{!TomlLaws LastConnection}.
Context (env : Env) (primary : Identity) (path : bytes).
Let cooldown : Z := from_secs (wg_endpoint_cooldown env).

Definition forgotten (fs : FS) (outer inner : SocketAddr) : Prop :=
  forall c, lastconn_load fs path None = Some c -> lc_peer c <> pair_str outer inner.

Record gool_inv (t0 : Z) (s : GoolLoop) : Prop := mkGoolInv {
  gi_last : gl_last_peer s = None /\ gl_fails s = 0;
  gi_parked : forall p u, ParkEdge p u ∈ gl_log s -> u <= t0 \/ exists v, gl_cooldowns s !! p = Some v /\ u <= v;
  gi_bound : forall p v, gl_cooldowns s !! p = Some v -> v <= t0 + cooldown;
  gi_cached : gl_cached s <> None -> gl_log s = [] /\ gl_cooldowns s = ∅;
  gi_respects : pair_respects (gl_log s);
  gi_forgotten : forall o i t r, UsePair o i t r ∈ gl_log s -> forgotten (gl_fs s) o i }.

Lemma gool_inv_init fs t0 : gool_inv t0 (gool_start env path fs).
Proof.
  split; simpl; try done.
  - intros p u Hp. by apply not_elem_of_nil in Hp.
  - intros pre post o i t p u Heq. by destruct pre.
  - intros o i t r Hin. by apply not_elem_of_nil in Hin.
Qed.

Lemma load_written (fs : FS) text c : to_toml c = inl text -> lastconn_load (fs_write fs path text) path None = Some c.
Proof.
  intros Ht. unfold lastconn_load, read_to_string, fs_write. rewrite lookup_insert_eq. simpl f_data.
  rewrite (toml_utf8 _ _ Ht). simpl. by rewrite (toml_roundtrip _ _ Ht).
Qed.
Lemma load_deleted (fs : FS) : lastconn_load (delete path fs) path None = None.
Proof. unfold lastconn_load, read_to_string. by rewrite lookup_delete_eq. Qed.

(** Saving a pair and forgetting it leaves no pair that was forgotten before. *)
Lemma save_forget fs o i o' i' profile :
  let fs' := lastconn_forget (lastconn_save fs path (pair_str o i) profile false) path (pair_str o i) None false in
  forgotten fs' o i /\ (forgotten fs o' i' -> forgotten fs' o' i').
Proof.
  intros fs'. subst fs'. unfold lastconn_forget, lastconn_save.
  destruct (to_toml (mkLast (pair_str o i) profile)) as [text|e] eqn:Et.
  - rewrite (load_written _ _ _ Et). simpl. rewrite bool_decide_eq_true_2 by done.
    unfold forgotten. rewrite load_deleted. by split.
  - destruct (lastconn_load fs path None) as [c|] eqn:El; [|unfold forgotten; by rewrite El].
    destruct (bool_decide (lc_peer c = pair_str o i)) eqn:Eb.
    + unfold forgotten. rewrite load_deleted. by split.
    + rewrite bool_decide_eq_false in Eb. split; [|done]. intros c' Hc. unfold forgotten in *. rewrite El in Hc. by simplify_eq.
Qed.

(** A pair that is free, or that was chosen without regard, is used and thrown
    away. *)
Lemma discard_inv now t s o i relaxed profile ms s' :
  gt_now t = now -> now <= gt_after t <= gt_after' t -> gool_inv now s ->
  (relaxed = false -> gl_cooldowns s !! o = None /\ gl_cooldowns s !! i = None) ->
  let fs := lastconn_save (gl_fs s) path (pair_str o i) profile false in
  discard_pair env path
    (mkGool (Some o) (Some i) (gl_fails s) (gl_cooldowns s) (gl_cached s) fs
       (gl_log s ++ [UsePair o i now relaxed])) t o i ms = Again s' ->
  gool_inv (gt_after' t) s'.
Proof.
  intros Hnow Ht [Hl Hp Hb Hc Hr Hf] Hfree fs. subst fs. unfold discard_pair. simpl. fold cooldown.
  set (log := gl_log s ++ [UsePair o i now relaxed]).
  destruct (instant_add (gt_after t) cooldown) as [u|] eqn:Eu; [|done]. apply instant_add_Some in Eu.
  destruct (instant_add (gt_after' t) cooldown) as [u'|] eqn:Eu'; [|done]. apply instant_add_Some in Eu'.
  intros [= <-]. split; simpl; try done.
  - intros p w Hin. apply elem_of_app in Hin as [Hin|Hin].
    + subst log. apply elem_of_app in Hin as [Hin|Hin%list_elem_of_singleton]; [|done].
      destruct (Hp p w Hin) as [Hw|(v & Hv & Hw)]; [left; lia|right]. apply Hb in Hv as Hv'.
      destruct (decide (p = i)) as [->|Hi]; [eexists; rewrite lookup_insert_eq; split; [done|lia]|].
      rewrite lookup_insert_ne by done.
      destruct (decide (p = o)) as [->|Ho]; [eexists; rewrite lookup_insert_eq; split; [done|lia]|].
      exists v. by rewrite lookup_insert_ne.
    + repeat (apply elem_of_cons in Hin as [Hin|Hin]); simplify_eq; [..|by apply not_elem_of_nil in Hin]; right.
      * destruct (decide (i = o)) as [->|Hi]; [eexists; rewrite lookup_insert_eq; split; [done|lia]|].
        eexists. rewrite lookup_insert_ne, lookup_insert_eq by done. split; [done|lia].
      * eexists. rewrite lookup_insert_eq. split; [done|lia].
  - intros p v Hv. destruct (decide (p = i)) as [->|Hi]; [rewrite lookup_insert_eq in Hv; injection Hv as <-; lia|].
    rewrite lookup_insert_ne in Hv by done.
    destruct (decide (p = o)) as [->|Ho]; [rewrite lookup_insert_eq in Hv; injection Hv as <-; lia|].
    rewrite lookup_insert_ne in Hv by done. apply Hb in Hv. lia.
  - change [ParkEdge o u; ParkEdge i u'; Pause ms] with ([ParkEdge o u] ++ [ParkEdge i u'] ++ [Pause ms]). rewrite !app_assoc.
    do 3 (apply pair_respects_snoc; [|done]). apply pair_respects_snoc; [done|].
    intros o1 i1 t1 He p w Hpe Hin. injection He as <- <- <- ->. destruct (Hfree eq_refl) as [Ho Hi].
    destruct (Hp p w Hin) as [?|(v & Hv & _)]; [done|]. destruct Hpe as [->| ->]; congruence.
  - intros o1 i1 t1 r1 Hin. pose proof (save_forget (gl_fs s) o i o1 i1 profile) as [Hs1 Hs2].
    apply elem_of_app in Hin as [Hin|Hin].
    + subst log. apply elem_of_app in Hin as [Hin|Hin%list_elem_of_singleton]; [by eapply Hs2, Hf|]. by injection Hin as -> -> _ _.
    + repeat (apply elem_of_cons in Hin as [Hin|Hin]); simplify_eq. by apply not_elem_of_nil in Hin.
Qed.
End GoolInv.

Lemma select_wg_peers_spec `{UnicodeTables} i mode ip want excluded s r :
  0 < w_cap (sc_world s) -> 1 <= want -> select_wg_peers i mode ip want excluded s = Some r ->
  match r with
  | Ok l => l <> [] /\ (forall p, p ∈ l -> p ∉ excluded) /\ NoDup (map sa_ip l)
  | Err _ => True
  | _ => False
  end.
Proof.
  intros Hc Hw Hs. unfold select_wg_peers in Hs. destruct (parse_ipv4 (ipv4 i)) as [_o|]; [|by simplify_eq]. inv_bind. simplify_eq.
  destruct a as [l|e| |]; simpl; [|done|..].
  - apply wg_endpoints_allowed in E as (Hn & Hd & Hx); [|done..]. split_and!.
    + by destruct l.
    + intros p Hp. apply list_elem_of_fmap in Hp as (pr & -> & Hp). by apply Hx.
    + rewrite map_map. exact Hd.
  - apply wg_scan in E as [[_ ?]|(? & ? & ? & ? & ? & _ & _ & _ & [] & _)]; done.
  - apply wg_scan in E as [[_ ?]|(? & ? & ? & ? & ? & _ & _ & _ & [] & _)]; done.
Qed.

Fixpoint gool_chronological (t0 : Z) (turns : list GoolTurn) : Prop :=
  match turns with
  | [] => True
  | t :: turns =>
      (t0 <= gt_now t /\ gt_now t <= gt_after t <= gt_after' t) /\
      (0 < w_cap (sc_world (gt_scan t)) /\ 0 < w_cap (sc_world (gt_rescan t))) /\
      (forall o i, returns (run_warp_in_warp o i (gt_pair t))) /\ gool_chronological (gt_after' t) turns
  end.

Section GoolRuns.
Context `{UnicodeTables} `{Clock} `{Toml LastConnection} `{!TomlLaws LastConnection}.
Context (env : Env) (primary : Identity) (path : bytes).
Local Notation inv := (gool_inv env path).

(** The cooldown of an edge of a pair ends past what the clock can hold. *)
Definition pair_past_clock (t : GoolTurn) : Prop :=
  instant_max < gt_after t + from_secs (wg_endpoint_cooldown env) \/
  instant_max < gt_after' t + from_secs (wg_endpoint_cooldown env).

(** What a turn may come to. *)
Definition turn_fine (t : GoolTurn) (n : wg_next GoolLoop) : Prop :=
  match n with
  | Again s => inv (gt_after' t) s
  | Killed code => code = 3
  | Hanging => True
  | Returned Panic => pair_past_clock t
  | Returned _ => False
  end.

Lemma discard_fine t s o i ms :
  (forall s', discard_pair env path s t o i ms = Again s' -> inv (gt_after' t) s') ->
  turn_fine t (discard_pair env path s t o i ms).
Proof.
  intros Hs. unfold discard_pair in *. unfold turn_fine, pair_past_clock.
  destruct (instant_add (gt_after t) _) eqn:E; [|left; by apply instant_add_None].
  destruct (instant_add (gt_after' t) _) eqn:E'; [by apply Hs|right; by apply instant_add_None].
Qed.

Lemma use_pair_fine t s o i relaxed :
  gt_now t <= gt_after t <= gt_after' t -> (forall o i, returns (run_warp_in_warp o i (gt_pair t))) ->
  inv (gt_now t) s -> (relaxed = false -> gl_cooldowns s !! o = None /\ gl_cooldowns s !! i = None) ->
  turn_fine t (use_pair env path s t o i relaxed).
Proof.
  intros Ht Hr Hi Hfree. unfold use_pair.
  pose proof (discard_inv env path (gt_now t) t s o i relaxed (default (str "balanced") (env (var "NOIZE")))) as Hd.
  specialize (Hr o i). pose proof (warp_in_warp_never_ok o i (gt_pair t)) as Hn.
  destruct (run_warp_in_warp o i (gt_pair t)) as [u|e| |]; [by destruct (Hn u)| |done..].
  destruct e; try (case_match; [done|]); apply discard_fine; intros s'; apply Hd; auto.
Qed.

Lemma gool_pause_inv t0 t1 s last_inner cooldowns ms :
  t0 <= t1 -> inv t0 s -> cooldowns = gl_cooldowns s ->
  inv t1 (mkGool None last_inner 0 cooldowns None (gl_fs s) (gl_log s ++ [Pause ms])).
Proof.
  intros Ht [Hl Hp Hb Hc Hr Hf] ->. split; simpl; try done.
  - intros p u Hin. apply elem_of_app in Hin as [Hin|Hin%list_elem_of_singleton]; [|done].
    destruct (Hp p u Hin) as [?|?]; [left; lia|by right].
  - intros p v Hv. apply Hb in Hv. lia.
  - by apply pair_respects_snoc.
  - intros o i t r Hin. apply elem_of_app in Hin as [Hin|Hin%list_elem_of_singleton]; [by eapply Hf|done].
Qed.

Lemma gool_retain_inv t0 now s cached :
  t0 <= now -> inv t0 s -> cached = None \/ cached = gl_cached s ->
  inv now (mkGool None (gl_last_inner s) 0 (retain_cooldowns now (gl_cooldowns s)) cached (gl_fs s) (gl_log s)).
Proof.
  intros Ht [Hl Hp Hb Hc Hr Hf] Hca. split; simpl; try done.
  - intros p u Hin. eauto using retain_parked.
  - intros p v Hv. apply retain_lookup in Hv as [Hv _]. apply Hb in Hv. lia.
  - intros Hn. destruct Hca as [->| ->]; [done|]. destruct (Hc Hn) as [-> ->]. split; [done|]. apply map_filter_empty.
Qed.

Lemma gool_scan_spec cooldowns t found relaxed :
  0 < w_cap (sc_world (gt_scan t)) -> 0 < w_cap (sc_world (gt_rescan t)) ->
  gool_scan env primary cooldowns t = Some (found, relaxed) ->
  match found with
  | Ok l => l <> [] /\ (relaxed = false -> forall p, p ∈ l -> cooldowns !! p = None)
  | Err _ => True
  | _ => False
  end.
Proof.
  intros Hc1 Hc2 Hs. unfold gool_scan in Hs. inv_bind.
  apply select_wg_peers_spec in E; [|done|lia]. destruct a as [l|e| |]; [|clear E|done..].
  - simplify_eq. destruct E as (Hn & Hx & _). split; [done|]. intros _ p Hp. by apply not_elem_of_dom, Hx.
  - destruct (bool_decide _); [by simplify_eq|]. inv_bind. simplify_eq.
    apply select_wg_peers_spec in E; [|done|lia]. destruct found as [l|e'| |]; [|done..]. by destruct E as [? _].
Qed.

Lemma turn_gool_fine t0 t s :
  t0 <= gt_now t -> gt_now t <= gt_after t <= gt_after' t ->
  0 < w_cap (sc_world (gt_scan t)) /\ 0 < w_cap (sc_world (gt_rescan t)) ->
  (forall o i, returns (run_warp_in_warp o i (gt_pair t))) -> inv t0 s ->
  turn_fine t (turn_gool env primary path s t).
Proof.
  intros Ht0 Ht [Hc1 Hc2] Hr Hi. unfold turn_gool. cbn [gl_fails gl_last_peer gl_last_inner gl_cached gl_log gl_fs gl_cooldowns].
  destruct (gi_last _ _ _ _ Hi) as [Hl Hf]. rewrite Hl, Hf. cbn.
  set (cd := retain_cooldowns (gt_now t) (gl_cooldowns s)).
  pose proof (gool_retain_inv t0 (gt_now t) s None Ht0 Hi (or_introl eq_refl)) as Hn. fold cd in Hn.
  destruct (gl_cached s) as [[o i]|] eqn:Ec.
  - apply use_pair_fine; auto. intros _. cbn.
    destruct (gi_cached _ _ _ _ Hi ltac:(by rewrite Ec)) as [_ Hcd].
    subst cd. rewrite Hcd. split; apply retain_None, lookup_empty.
  - destruct (gool_scan env primary cd t) as [[found relaxed]|] eqn:Es; [|done].
    apply gool_scan_spec in Es; [|done..]. destruct found as [l|e| |]; [| |done..].
    + destruct Es as [Hne Hfree]. destruct l as [|o rest]; [done|]. destruct rest as [|i rest]; cbn [head].
      * simpl. exact (gool_pause_inv (gt_now t) (gt_after' t) _ _ _ _ ltac:(lia) Hn eq_refl).
      * apply use_pair_fine; auto. intros Hrel. cbn. split; apply (Hfree Hrel); set_solver.
    + simpl. exact (gool_pause_inv (gt_now t) (gt_after' t) _ _ _ _ ltac:(lia) Hn eq_refl).
Qed.

Lemma run_gool_fine t0 turns s :
  gool_chronological t0 turns -> inv t0 s ->
  match run_turns (turn_gool env primary path) s turns with
  | Again s' => exists t1, inv t1 s'
  | Killed code => code = 3
  | Hanging => True
  | Returned Panic => Exists pair_past_clock turns
  | Returned _ => False
  end.
Proof.
  revert t0 s. induction turns as [|t turns IH]; intros t0 s Hc Hi; simpl; [by exists t0|].
  destruct Hc as ((Ht0 & Ht) & Hw & Hr & Hc). pose proof (turn_gool_fine t0 t s Ht0 Ht Hw Hr Hi) as Hf.
  destruct (turn_gool env primary path s t) as [s'|[| | |]| |]; simpl in Hf; try done; [|by constructor].
  specialize (IH _ _ Hc Hf). case_match; try done. case_match; try done. by apply Exists_cons_tl.
Qed.
End GoolRuns.

(** [run_gool] never settles for a pair that failed: since the pair of
    tunnels never ends well, the loop never retries the last pair, and only a
    busy local port ends it; a pair chosen with the cooldowns in mind has no
    edge that is still parked; and no pair that was used is left on disk for
    the next start to replay.  It panics only where an edge is to be parked
    until a moment that the clock cannot hold. *)
Theorem gool_pairs_rotate `{UnicodeTables} `{Clock} `{Toml LastConnection} `{!TomlLaws LastConnection} env primary path fs turns t0 :
  gool_chronological t0 turns ->
  match run_gool env primary path fs turns with
  | Again s =>
      gl_last_peer s = None /\ gl_fails s = 0 /\ pair_respects (gl_log s) /\
      forall o i t r, UsePair o i t r ∈ gl_log s -> forgotten path (gl_fs s) o i
  | Killed code => code = 3
  | Hanging => True
  | Returned Panic => Exists (pair_past_clock env) turns
  | Returned _ => False
  end.
Proof.
  intros Hc. pose proof (run_gool_fine env primary path t0 turns (gool_start env path fs) Hc (gool_inv_init _ _ _ _)) as Hr.
  unfold run_gool. destruct (run_turns _ _ _) as [s|[| | |]| |]; try done. destruct Hr as [t1 Hi].
  destruct (gi_last _ _ _ _ Hi) as [Hl Hf]. split_and!; [done|done|apply (gi_respects _ _ _ _ Hi)|apply (gi_forgotten _ _ _ _ Hi)].
Qed.

(** *** An example: a pair whose outer tunnel cannot be set up is parked *)

Definition demo_gool_turn (now : Z) : GoolTurn :=
  mkGoolTurn (from_secs now) None None (mkScan Prober.demo_world 0 (replicate 200 (0, NextItem 0 0)))
    (mkScan Prober.demo_world 0 (replicate 200 (0, NextItem 0 0)))
    (mkPair (Err NoCleanEndpoint) (Ok tt) (Ok tt) MigrateHint) (from_secs now) (from_secs now).
Definition demo_pair_codec : Toml LastConnection :=
  demo_toml (mkLast (str "188.114.96.2:500,188.114.96.1:2408") (str "balanced")).

Lemma gool_pairs_rotate_witness :
  match @run_gool no_unicode unix_clock demo_pair_codec thorough_env demo_identity (str "l") ∅ [demo_gool_turn 0] with
  | Again s => gl_last_peer s = None /\ gl_fails s = 0 /\ pair_respects (gl_log s) /\
      forall o i t r, UsePair o i t r ∈ gl_log s -> @forgotten demo_pair_codec (str "l") (gl_fs s) o i
  | Killed code => code = 3
  | Hanging => True
  | Returned Panic => Exists (@pair_past_clock unix_clock thorough_env) [demo_gool_turn 0]
  | Returned _ => False
  end /\
  match @run_gool no_unicode unix_clock demo_pair_codec thorough_env demo_identity (str "l") ∅ [demo_gool_turn 0] with
  | Again s => head (gl_log s) =
      Some (UsePair (sock_new (V4 [188; 114; 96; 2]) 500) (sock_new (V4 [188; 114; 96; 1]) 2408) 0 false)
  | _ => False
  end.
Proof.
  split; [|vm_compute; reflexivity].
  apply (@gool_pairs_rotate no_unicode unix_clock demo_pair_codec (demo_toml_laws _) thorough_env demo_identity (str "l") ∅
    [demo_gool_turn 0] 0). repeat split; try reflexivity; try (simpl; lia).
  intros o i. unfold run_warp_in_warp. by destruct (bool_decide _).
Defined.

(** ** Quick reconnects and the scan settings *)

(** A reconnect to a saved or assigned endpoint loses the scan settings for
    the whole run: the mode and the address family are read only when there is
    no such endpoint, so that when it fails later every scan is a balanced one
    over IPv4, whatever was asked for. *)
Theorem quick_reconnect_drops_scan_settings `{UnicodeTables} `{Toml LastConnection} env i fs path a c s :
  start_wg env i fs path a = Ok (c, s) -> wl_quick s <> None ->
  WgScanMode_parse (wc_mode c) = Balanced /\ wc_ip c = ScanV4.
Proof.
  unfold start_wg. destruct (parse_ipv4 (ipv4 i)); [|done]. set (quick := quick_wg env fs path a).
  destruct (if is_some (forced_wg env) || is_some quick then _ else _) as [mode ip] eqn:E. intros Hs Hq.
  injection Hs as <- <-. simpl in *. destruct quick; [|done]. simpl in E. rewrite orb_true_r in E. injection E as <- <-.
  split; [|done]. reflexivity.
Qed.

(** The user asks for a thorough scan over IPv6; the saved endpoint answers. *)
Definition v6_env : Env := set_var (set_var no_env (var "SCAN") (str "thorough")) (var "IP") (str "v6").
Definition saved_fs : FS := {[ str "l" := mkFile PLAIN_MODE (str "only") ]}.
Definition saved_codec : Toml LastConnection := demo_toml (mkLast (str "188.114.96.1:2408") (str "light")).
Definition answering : WgStart := mkStart (fun _ _ => Ok 1) (fun _ _ => Ok 1) None None None.
Lemma quick_reconnect_drops_scan_settings_witness :
  exists c s, @start_wg no_unicode saved_codec v6_env demo_identity saved_fs (str "l") answering = Ok (c, s) /\
    select_scan_mode_str v6_env None = str "thorough" /\ @select_ip_version no_unicode v6_env None = ScanV6 /\
    @WgScanMode_parse no_unicode (wc_mode c) = Balanced /\ wc_ip c = ScanV4.
Proof.
  do 2 eexists. split; [vm_compute; reflexivity|]. split; [vm_compute; reflexivity|]. split; [vm_compute; reflexivity|].
  apply (@quick_reconnect_drops_scan_settings no_unicode saved_codec v6_env demo_identity saved_fs (str "l") answering
    _ (mkLoop (Some (sock_new (V4 [188; 114; 96; 1]) 2408, str "light")) None 0 ∅ saved_fs []));
    [vm_compute; reflexivity|discriminate].
Defined.
