(* ===== verification/MasqueEngine.v ===== *)
(** * Keeping a MASQUE tunnel up

    Models [run_masque] of lib.rs with what it calls: the hunts, the gateways
    that are avoided, the start of a tunnel over one transport or a race of
    both, its end, and the WireGuard tunnel carried inside ([run_carried_hop])
    with the lookup of the country a gateway exits in.  A turn of the loop is a
    step on its state; what it meets is an argument, one per turn. *)

From Stdlib Require Import ZArith Lia ZifyBool String List.
From stdpp Require Import base list numbers option decidable gmap.
From S2P Require Import Prelude RustStr NetAddr Errors WebLib Prober ZeroTrust Account Store Provision Settings WgEngine.
Open Scope Z_scope.

(** ** Where a tunnel exits *)

(** The upper-case image of a string that is not all ASCII. *)
Class UpperTables : Type := { upper_non_ascii : bytes -> bytes }.
Definition ascii_upper (b : Z) : Z := if is_ascii_lower b then b - 32 else b.
Definition to_uppercase `{UpperTables} (s : bytes) : bytes :=
  if forallb is_ascii s then map ascii_upper s else upper_non_ascii s.
Definition is_ascii_alphabetic (b : Z) : bool := is_ascii_upper b || is_ascii_lower b.
Definition country_code (s : bytes) : bool := (zlen s =? 2) && forallb is_ascii_alphabetic s.

(** The receive loops: until the end of the connection, or past 8 KiB. *)
Fixpoint receive_limited (chunks : list bytes) (raw : bytes) : bytes :=
  match chunks with
  | [] => raw
  | c :: chunks =>
      let raw := raw ++ c in
      if 8192 <? zlen raw then raw else receive_limited chunks raw
  end.

(** [chars().take(n)]. *)
Fixpoint take_chars (n : nat) (s : bytes) : bytes :=
  match n, s with
  | S n, _ :: _ => let k := (utf8_step s).2 in take k s ++ take_chars n (drop k s)
  | _, _ => []
  end.

Section Egress.
Context `{UpperTables}.

Definition ipapi_country (raw : bytes) : result bytes :=
  let text := from_utf8_lossy raw in
  let marker := [34] ++ str "countryCode" ++ [34; 58; 34] in
  let found :=
    let? '(_, rest) := split_once_str marker text in
    let code := take_chars 2 rest in
    if country_code code then Some (to_uppercase code) else None in
  ok_or found (Other (str "no countryCode in geoip reply")).

Record Trace : Type := mkTrace { tr_loc : option bytes; seen_fl : bool; seen_ip : bool }.
Definition trace_line (t : Trace) (line : bytes) : Trace :=
  if starts_with line (str "fl=") then mkTrace (tr_loc t) true (seen_ip t)
  else if starts_with line (str "ip=") then mkTrace (tr_loc t) (seen_fl t) true
  else match strip_prefix line (str "loc=") with
       | Some code =>
           let code := to_uppercase (trim code) in
           if country_code code then mkTrace (Some code) (seen_fl t) (seen_ip t) else t
       | None => t
       end.
Definition cloudflare_trace_country (raw : bytes) : result bytes :=
  let t := foldl trace_line (mkTrace None false false) (RustStr.lines (from_utf8_lossy raw)) in
  match tr_loc t, seen_fl t && seen_ip t with
  | Some cc, true => Ok cc
  | _, _ => Err (Other (str "cloudflare trace parse failed"))
  end.

Inductive Egress : Type :=
| Foreign (cc : bytes) (via : bytes)
| Iranian
| Unknown.
Definition judge (cc via : bytes) : Egress := if bool_decide (cc = str "IR") then Iranian else Foreign cc via.

(** Each lookup resolves a name, connects and sends its request first; [inl] is
    what it receives after. *)
Definition lookup_country (parse : bytes -> result bytes) (answer : list bytes + SoildTunnelError) : result bytes :=
  match answer with inl chunks => parse (receive_limited chunks []) | inr e => Err e end.
Definition exit_country (trace geo : list bytes + SoildTunnelError) : Egress :=
  match lookup_country cloudflare_trace_country trace with
  | Ok cc => judge cc (str "trace")
  | _ => match lookup_country ipapi_country geo with
         | Ok cc => judge cc (str "geoip")
         | _ => Unknown
         end
  end.
End Egress.

(** ** The carried hop *)

Definition GOOL_INNER_ATTEMPTS : nat := 2.
Definition GOOL_INNER_PORT : Z := 2408.
Definition PIPE_AFTER_IR : Z := 6.

(** Whether the gateway is dropped, and the streak of dropped ones after; a
    lookup that does not end in time counts as unknown. *)
Definition hop_gate (streak : Z) (had_saved : bool) (egress : option Egress) : bool * Z :=
  match egress with
  | Some (Foreign _ _) => (false, 0)
  | Some Iranian =>
      if had_saved then (false, streak)
      else
        let streak := streak + 1 in
        if streak <? PIPE_AFTER_IR then (true, streak) else (false, 0)
  | _ => (false, streak)
  end.

Definition push_peer (peers : list SocketAddr) (host : bytes) : list SocketAddr :=
  match parse_ip host with
  | Some ip =>
      let peer := sock_new ip GOOL_INNER_PORT in
      if bool_decide (peer ∈ peers) then peers else peers ++ [peer]
  | None => peers
  end.
Definition gool_inner_peers (env : Env) (i : Identity) : list SocketAddr :=
  let listed := foldl push_peer [] (trim (assigned_endpoint i) :: wg_seeds_v4 env) in
  match env (var "GOOL_INNER") with
  | Some value =>
      let trimmed := trim value in
      match parse_socket_addr trimmed with
      | Some peer => [peer]
      | None => match parse_ip trimmed with
                | Some ip => [sock_new ip GOOL_INNER_PORT]
                | None => listed
                end
      end
  | None => listed
  end.

(** The end of a hop that came up. *)
Inductive hop_end : Type :=
| MasqueEnded (j : Joined) | CarriedEnded (j : Joined) | HopSocksEnded (j : Joined) | HopMigrate.
Definition hop_outcome (e : hop_end) : result unit :=
  match e with
  | MasqueEnded j => join_outcome (str "masque tunnel") j
  | CarriedEnded j => join_outcome (str "carried wireguard tunnel") j
  | HopSocksEnded j => join_outcome (str "socks5 server") j
  | HopMigrate => Err Migrate
  end.

(** The attempts at one endpoint: [inr] is that none came up, with the last
    error. *)
Fixpoint hop_attempts (establish : nat -> result unit) (more attempt : nat) (last : SoildTunnelError)
  : result unit + SoildTunnelError :=
  match more with
  | O => inr last
  | S more =>
      match establish attempt with
      | Ok _ => inl (Ok tt)
      | Err e => hop_attempts establish more (S attempt) e
      | Panic => inl Panic
      | OutOfFuel => inl OutOfFuel
      end
  end.

Record HopWorld : Type := mkHop {
  hw_egress : option Egress; hw_warp : WarpWorld; hw_bind : result SocketAddr;
  hw_forwarder : SocketAddr -> result unit; hw_establish : SocketAddr -> nat -> result unit;
  hw_end : hop_end; hw_remember : Disk }.

Section Hop.
Context `{Target} `{UnicodeTables} `{ErrorText} `{SerdeJson} `{Base64} `{HttpText} `{AccountLib} `{Toml PersistedIdentity}.

(** The endpoint that came up is remembered, unless it was given. *)
Definition remember_endpoint (w : HopWorld) (path : bytes) (i : Identity) (peer : SocketAddr) (h : Host) : Host :=
  let endpoint := ip_str (sa_ip peer) in
  if negb (bool_decide (assigned_endpoint i = endpoint)) && negb (is_some (h_env h (var "GOOL_INNER"))) then
    (save_flow (hw_remember w) path (with_endpoint i endpoint) h).2
  else h.

Fixpoint hop_loop (w : HopWorld) (path : bytes) (i : Identity) (candidates : list SocketAddr) (last : SoildTunnelError)
  : Flow unit := fun h =>
  match candidates with
  | [] => (Err last, h)
  | peer :: candidates =>
      match hw_forwarder w peer with
      | Ok _ =>
          match hop_attempts (hw_establish w peer) GOOL_INNER_ATTEMPTS 1 last with
          | inl (Ok _) => (hop_outcome (hw_end w), remember_endpoint w path i peer h)
          | inl r => (r, h)
          | inr last => hop_loop w path i candidates last h
          end
      | r => (r, h)
      end
  end.

Definition no_endpoint : SoildTunnelError := Other (str "no wireguard endpoint for the carried identity").

(** The streak is a variable of the process. *)
Definition run_carried_hop (w : HopWorld) (path : bytes) (streak : Z) (h : Host) : result unit * Host * Z :=
  let had_saved := path_exists (h_fs h) path in
  let '(dropped, streak) := hop_gate streak had_saved (hw_egress w) in
  if dropped then (Err IranianEgress, h, streak)
  else
    let hop : Flow unit :=
      let* identity := carried_wg_identity (hw_warp w) (hw_bind w) path in
      fun h =>
        let candidates := gool_inner_peers (h_env h) identity in
        if is_empty candidates then (Err no_endpoint, h) else hop_loop w path identity candidates no_endpoint h in
    let '(r, h) := hop h in (r, h, streak).
End Hop.

(** ** Start and end of a tunnel *)

(** What the start of a tunnel meets: its network stack, and then the signal
    that it is ready, the end of its task before that, or the deadline. *)
Inductive startup : Type :=
| StackFailed (e : SoildTunnelError)
| Ready
| EndedEarly (j : Joined)
| StartupTimeout.

Section Tunnels.
Context `{ErrorText} (env : Env).

Definition establish_masque (s : startup) : result unit :=
  match s with
  | StackFailed e => Err e
  | Ready => Ok tt
  | EndedEarly (JoinResult (Ok _)) => Err (Other (str "tunnel exited before validation"))
  | EndedEarly (JoinResult (Err e)) => Err (Other (str "tunnel failed before validation: " ++ error_str e))
  | EndedEarly (JoinResult r) => r
  | EndedEarly (JoinFailed _ e) => Err (Other (str "tunnel task join error: " ++ e))
  | StartupTimeout =>
      Err (Other (str "tunnel startup timed out after " ++ dec_str (masque_startup_timeout env) ++ str "s"))
  end.

(** Without a carried hop: the tunnel ends, or the application asks to move. *)
Inductive serving : Type := TunnelEnded (j : Joined) | MigrateAsked.
Definition serve_masque (s : serving) : result unit :=
  match s with
  | TunnelEnded (JoinResult (Ok _)) => Ok tt
  | TunnelEnded (JoinResult (Err e)) => Err (Other (str "tunnel exited: " ++ error_str e))
  | TunnelEnded (JoinResult r) => r
  | TunnelEnded (JoinFailed _ e) => Err (Other (str "tunnel task join error: " ++ e))
  | MigrateAsked => Err Migrate
  end.

(** A transport of the race, when it is joined: it came up, failed or panicked. *)
Inductive transport : Type := CameUp (h2 : bool) | Failed_ (e : SoildTunnelError) | Crashed (e : bytes).

Fixpoint race_loop (rest : list transport) (last_error : SoildTunnelError) : result bool :=
  match rest with
  | [] => Err last_error
  | CameUp h2 :: _ => Ok h2
  | Failed_ e :: rest => race_loop rest e
  | Crashed e :: rest => race_loop rest (Other (str "transport task join error: " ++ e))
  end.
(** [early] is the preferred transport, if it is joined after 300 ms; a failure
    is dropped there.  [rest] are the ones joined after, in the order they end. *)
Definition establish_soild_race (early : option transport) (rest : list transport) : result bool :=
  match early with
  | Some (CameUp h2) => Ok h2
  | _ => race_loop rest (Other (str "both soild transports failed"))
  end.

End Tunnels.

(** ** [run_masque] *)

Section Masque.
Context `{UnicodeTables}.

Definition RANKED_GATEWAYS : Z := 6.

Definition hunt_masque_peer (mode_str : bytes) (ip : IpScan) (excluded : gset SocketAddr) (s : Scan)
  : option (result SocketAddr) :=
  let? r := hunt_best_gateway (sc_world s) MASQUE_PORTS ip (ScanMode_parse mode_str) excluded (sc_start s) (sc_turns s) in
  Some (let! best := r in Ok (pr_sock best)).
Definition hunt_masque_peers (mode_str : bytes) (ip : IpScan) (excluded : gset SocketAddr) (want : Z) (s : Scan)
  : option (result (list SocketAddr)) :=
  let? r := hunt_ranked_gateways (sc_world s) MASQUE_PORTS ip (ScanMode_parse mode_str) excluded want (sc_start s)
              (sc_turns s) in
  Some (let! ranked := r in Ok (map pr_sock ranked)).

Inductive mq_event : Type := MUse (peer : SocketAddr) | MAvoid (peer : SocketAddr) | MSleep (ms : Z).

Record MqLoop : Type := mkMq {
  ml_quick : option SocketAddr; ml_last_good : option SocketAddr; ml_ranked : list SocketAddr;
  ml_avoid : gset SocketAddr; ml_fs : FS; ml_log : list mq_event }.
Record MqConf : Type := mkMqConf {
  mc_env : Env; mc_forced : option bytes; mc_mode : bytes; mc_ip : IpScan; mc_path : bytes; mc_carried : bool }.
(** [mt_now]: the time of day, for the file of avoided gateways; [mt_tunnel]:
    the tunnel through a gateway, from its start to its end. *)
Record MqTurn : Type := mkMqTurn {
  mt_verify : SocketAddr -> bool; mt_scan : Scan; mt_now : Z; mt_tunnel : SocketAddr -> result unit }.

Definition avoid_path (c : MqConf) : bytes := derive_sibling_path (mc_path c) (str "avoid").
Definition mq_delay (c : MqConf) : mq_event := MSleep (masque_reconnect_delay (mc_env c) * 1000).

(** The gateway of a turn, with the ranked ones left; [Skip] starts the next
    turn, after a pause or at once. *)
Inductive chosen : Type :=
| Gateway (peer : SocketAddr) (ranked : list SocketAddr)
| Skip (ranked : list SocketAddr) (pause : bool)
| GiveUp (e : SoildTunnelError).

Definition choose_masque (c : MqConf) (t : MqTurn) (s : MqLoop) : option chosen :=
  match ml_quick s with
  | Some p => Some (Gateway p (ml_ranked s))
  | None =>
      match (let? p := ml_last_good s in if mt_verify t p then Some p else None) with
      | Some p => Some (Gateway p (ml_ranked s))
      | None =>
          match mc_forced c with
          | Some p => Some match parse_socket_addr p with
                           | Some peer => Gateway peer (ml_ranked s)
                           | None => GiveUp (Other (str "bad peer address " ++ p))
                           end
          | None =>
              if mc_carried c then
                let from_ranked (ranked : list SocketAddr) : chosen :=
                  match ranked with p :: ranked => Gateway p ranked | [] => Skip [] false end in
                match ml_ranked s with
                | [] =>
                    let? r := hunt_masque_peers (mc_mode c) (mc_ip c) (ml_avoid s) RANKED_GATEWAYS (mt_scan t) in
                    Some match r with
                         | Ok peers => from_ranked (filter (fun p => p ∉ ml_avoid s) peers)
                         | _ => Skip [] true
                         end
                | ranked => Some (from_ranked ranked)
                end
              else
                let? r := hunt_masque_peer (mc_mode c) (mc_ip c) (ml_avoid s) (mt_scan t) in
                Some match r with Ok peer => Gateway peer (ml_ranked s) | _ => Skip (ml_ranked s) true end
          end
      end
  end.

Context `{Toml LastConnection} `{Toml AvoidList}.

Definition use_gateway (c : MqConf) (t : MqTurn) (s : MqLoop) (peer : SocketAddr) (ranked : list SocketAddr)
  : wg_next MqLoop :=
  let forced := is_some (mc_forced c) in
  let profile := default (str "firewall") (mc_env c (var "NOIZE")) in
  let fs := if forced then ml_fs s else lastconn_save (ml_fs s) (mc_path c) (sock_str peer) profile false in
  let log := ml_log s ++ [MUse peer] in
  match mt_tunnel t peer with
  | Ok _ => Again (mkMq None (Some peer) [] (ml_avoid s) fs (log ++ [mq_delay c]))
  | Err Migrate => Again (mkMq None None ranked (ml_avoid s) fs log)
  | Err IranianEgress =>
      let avoid := {[ peer ]} ∪ ml_avoid s in
      let fs := save_avoided fs (avoid_path c) (elements avoid) (mt_now t) None false in
      let fs := lastconn_forget fs (mc_path c) (sock_str peer) None false in
      if forced then Returned (Err IranianEgress)
      else Again (mkMq None None ranked avoid fs (log ++ [MAvoid peer; mq_delay c]))
  | Err _ => Again (mkMq None (if mc_carried c then None else Some peer) ranked (ml_avoid s) fs (log ++ [mq_delay c]))
  | Panic => Returned Panic
  | OutOfFuel => Returned OutOfFuel
  end.

Definition turn_masque (c : MqConf) (s : MqLoop) (t : MqTurn) : wg_next MqLoop :=
  match choose_masque c t s with
  | None => Hanging
  | Some (GiveUp e) => Returned (Err e)
  | Some (Skip ranked pause) =>
      Again (mkMq None (ml_last_good s) ranked (ml_avoid s) (ml_fs s)
               (if pause then ml_log s ++ [mq_delay c] else ml_log s))
  | Some (Gateway peer ranked) =>
      if negb (is_some (mc_forced c)) && bool_decide (peer ∈ ml_avoid s) then
        Again (mkMq None None ranked (ml_avoid s) (ml_fs s) (ml_log s))
      else use_gateway c t s peer ranked
  end.

(** What precedes the loop, as in [run_wireguard]. *)
Record MqStart : Type := mkMqStart {
  ms_verify : SocketAddr -> bool; ms_reconnect : option bytes; ms_mode : option bytes; ms_ip : option bytes; ms_now : Z }.

Definition quick_masque (env : Env) (fs : FS) (path : bytes) (a : MqStart) : option SocketAddr :=
  match env (var "PEER") with
  | Some _ => None
  | None =>
      let assigned :=
        let? value := env (var "TEAM_ENDPOINT") in
        let? peer := parse_socket_addr value in
        if ms_verify a peer then Some peer else None in
      match assigned with
      | Some p => Some p
      | None =>
          let? cached := lastconn_load fs path None in
          let? peer := parse_socket_addr (lc_peer cached) in
          if want_quick_reconnect env (ms_reconnect a) && ms_verify a peer then Some peer else None
      end
  end.

Definition start_masque (env : Env) (fs : FS) (path : bytes) (carried : bool) (a : MqStart) : MqConf * MqLoop :=
  let forced := env (var "PEER") in
  let quick := quick_masque env fs path a in
  let '(mode, ip) :=
    if is_some forced || is_some quick then ([], ScanV4)
    else (select_scan_mode_str env (ms_mode a), select_ip_version env (ms_ip a)) in
  let c := mkMqConf env forced mode ip path carried in
  (c, mkMq quick None [] (list_to_set (load_avoided fs (avoid_path c) (ms_now a) None)) fs []).

Definition run_masque (env : Env) (fs : FS) (path : bytes) (carried : bool) (a : MqStart) (turns : list MqTurn)
  : wg_next MqLoop :=
  let '(c, s) := start_masque env fs path carried a in run_turns (turn_masque c) s turns.
End Masque.

(** ** Gateways in Iran *)

Fixpoint gate_run (streak : Z) (verdicts : list (bool * option Egress)) : list bool :=
  match verdicts with
  | [] => []
  | (saved, egress) :: verdicts =>
      let '(dropped, streak) := hop_gate streak saved egress in dropped :: gate_run streak verdicts
  end.

Lemma gate_streak streak saved egress dropped streak' :
  0 <= streak < PIPE_AFTER_IR -> hop_gate streak saved egress = (dropped, streak') ->
  0 <= streak' < PIPE_AFTER_IR /\ (dropped = true -> streak' = streak + 1).
Proof.
  unfold hop_gate, PIPE_AFTER_IR. intros Hs Hg. repeat case_match; simplify_eq; split; try done; try lia.
Qed.

Lemma gate_run_true streak l n :
  0 <= streak < PIPE_AFTER_IR -> take n (gate_run streak l) = replicate n true -> Z.of_nat n < PIPE_AFTER_IR - streak.
Proof.
  revert streak l. induction n as [|n IH]; intros streak l Hs Ht; [unfold PIPE_AFTER_IR in *; lia|].
  destruct l as [|[saved egress] l]; [done|]. simpl in Ht. destruct (hop_gate streak saved egress) as [d s'] eqn:E.
  simpl in Ht. injection Ht as -> Ht. apply gate_streak in E as [Hs' He]; [|done]. specialize (He eq_refl).
  apply IH in Ht; [lia|done].
Qed.

(** The check of the exit country cannot keep the tunnel down: however the
    gateways answer, at most five in a row are dropped for their exit in Iran,
    then one is used all the same; and a gateway is dropped only if the lookup
    is certain and there is no saved identity. *)
Theorem iranian_gateways_bounded verdicts k :
  take 6 (drop k (gate_run 0 verdicts)) <> replicate 6 true /\
  forall streak saved egress, (hop_gate streak saved egress).1 = true -> saved = false /\ egress = Some Iranian.
Proof.
  split.
  - assert (forall streak l, 0 <= streak < PIPE_AFTER_IR -> exists streak' l', 0 <= streak' < PIPE_AFTER_IR /\
      drop k (gate_run streak l) = gate_run streak' l') as Hd.
    { induction k as [|k IH]; intros streak l Hs; [by exists streak, l|].
      destruct l as [|[saved egress] l]; [by exists 0, []|]. simpl.
      destruct (hop_gate streak saved egress) as [d s'] eqn:E. apply gate_streak in E as [Hs' _]; [|done]. by apply IH. }
    destruct (Hd 0 verdicts) as (s' & l' & Hs & ->); [by unfold PIPE_AFTER_IR|]. intros Ht.
    apply gate_run_true in Ht; [|done]. unfold PIPE_AFTER_IR in *. lia.
  - intros streak saved egress Hg. unfold hop_gate in Hg. repeat case_match; simplify_eq/=; done.
Qed.

(** ** Avoided gateways *)

(** No gateway of [avoid0] is used, and none that was avoided before. *)
Definition shuns (avoid0 : gset SocketAddr) (log : list mq_event) : Prop :=
  forall pre post p, log = pre ++ MUse p :: post -> p ∉ avoid0 /\ MAvoid p ∉ pre.

Lemma shuns_snoc a0 log e :
  shuns a0 log -> (forall p, e = MUse p -> p ∉ a0 /\ MAvoid p ∉ log) -> shuns a0 (log ++ [e]).
Proof.
  intros Hr He pre post p Heq. destruct (decide (post = [])) as [->|Hne].
  - apply app_inj_tail in Heq as [-> ->]. by apply He.
  - destruct (@exists_last _ post Hne) as (post' & x & ->). rewrite app_comm_cons, app_assoc in Heq.
    apply app_inj_tail in Heq as [-> _]. by eapply Hr.
Qed.

Record mq_inv (a0 : gset SocketAddr) (s : MqLoop) : Prop := mkMqInv {
  mi_shuns : shuns a0 (ml_log s);
  mi_kept : a0 ⊆ ml_avoid s;
  mi_avoided : forall p, MAvoid p ∈ ml_log s -> p ∈ ml_avoid s }.

Section MqRuns.
Context `{UnicodeTables} `{Toml LastConnection} `{Toml AvoidList}.

Lemma mq_inv_log a0 s q lg ranked fs e :
  mq_inv a0 s -> (forall p, e <> MUse p /\ e <> MAvoid p) ->
  mq_inv a0 (mkMq q lg ranked (ml_avoid s) fs (ml_log s ++ [e])) /\ mq_inv a0 (mkMq q lg ranked (ml_avoid s) fs (ml_log s)).
Proof.
  intros [Hs Hk Ha] He. split; split; simpl; try done.
  - apply shuns_snoc; [done|]. intros p ->. by destruct (He p).
  - intros p Hin. apply elem_of_app in Hin as [Hin|Hin%list_elem_of_singleton]; [by apply Ha|]. by destruct (He p).
Qed.

Lemma turn_masque_inv c a0 s t s' :
  mc_forced c = None -> mq_inv a0 s -> turn_masque c s t = Again s' -> mq_inv a0 s'.
Proof.
  intros Hf Hi Ht. unfold turn_masque in Ht. destruct (choose_masque c t s) as [[peer ranked|ranked pause|e]|]; [| |done..].
  - rewrite Hf in Ht. simpl in Ht. destruct (bool_decide (peer ∈ ml_avoid s)) eqn:Eb.
    { simplify_eq. by apply (mq_inv_log a0 s _ _ _ _ (MSleep 0)). }
    rewrite bool_decide_eq_false in Eb.
    assert (forall q lg r fs, mq_inv a0 (mkMq q lg r (ml_avoid s) fs (ml_log s ++ [MUse peer]))) as Huse.
    { intros q lg r fs. destruct Hi as [Hs Hk Ha]. split; simpl; [|done|].
      - apply shuns_snoc; [done|]. intros p [= <-]. split; [set_solver|]. intros Hin. by apply Ha in Hin.
      - intros p Hin. apply elem_of_app in Hin as [Hin|Hin%list_elem_of_singleton]; [by apply Ha|done]. }
    assert (forall q lg r fs, mq_inv a0 (mkMq q lg r (ml_avoid s) fs ((ml_log s ++ [MUse peer]) ++ [mq_delay c]))) as Hlog.
    { intros q lg r fs. by apply (mq_inv_log a0 _ q lg r fs (mq_delay c) (Huse None None [] ∅)). }
    unfold use_gateway in Ht. rewrite Hf in Ht. simpl in Ht.
    destruct (mt_tunnel t peer) as [u|e| |]; [by simplify_eq| |done..].
    destruct e; simplify_eq; try apply Hlog; try apply Huse.
    change [MAvoid peer; mq_delay c] with ([MAvoid peer] ++ [mq_delay c]). rewrite app_assoc.
    destruct (Huse None None [] ∅) as [Hs Hk Ha]. simpl in *. split; simpl; [by do 2 (apply shuns_snoc; [|done])|set_solver|].
    intros p Hin. apply elem_of_app in Hin as [Hin|Hin%list_elem_of_singleton]; [|done].
    apply elem_of_app in Hin as [Hin|Hin%list_elem_of_singleton]; [apply Ha in Hin; set_solver|]. simplify_eq. set_solver.
  - simplify_eq. destruct pause; by apply (mq_inv_log a0 s _ _ _ _ (mq_delay c)).
Qed.

Lemma run_masque_inv c a0 s turns s' :
  mc_forced c = None -> mq_inv a0 s -> run_turns (turn_masque c) s turns = Again s' -> mq_inv a0 s'.
Proof.
  intros Hf. revert s. induction turns as [|t turns IH]; intros s Hi Hr; simpl in Hr; [by simplify_eq|].
  destruct (turn_masque c s t) as [s1| | |] eqn:E; [|done..]. eapply IH; [|done]. by eapply turn_masque_inv.
Qed.
End MqRuns.


(** *** An example: the faster of two gateways exits in Iran *)

Definition demo_mq_turn : MqTurn :=
  mkMqTurn (fun _ => false) (mkScan Prober.demo_world 0 (replicate 200 (0, NextItem 0 0))) 1000
    (fun p => if bool_decide (sa_ip p = V4 [188; 114; 96; 2]) then Err IranianEgress else Ok tt).
Definition no_avoid : Toml AvoidList := {| to_toml _ := inr []; from_toml _ := inr [] |}.
Definition demo_mq_start : MqStart := mkMqStart (fun _ => false) None None None 0.
Definition used (log : list mq_event) : list IpAddr :=
  omap (fun e => match e with MUse p => Some (sa_ip p) | _ => None end) log.


(** ** A scan that finds nothing *)

(** In carried mode a ranked scan that ends with nothing makes the loop spin:
    unlike every other failure it is not followed by a pause, and the next turn
    starts the same scan, so that any number of such turns passes without a
    single wait.  A range that is too wide for a thorough scan has no hosts, and
    its scans end at once. *)
Theorem empty_scan_spins `{UnicodeTables} `{Toml LastConnection} `{Toml AvoidList} c s turns :
  mc_forced c = None -> mc_carried c = true ->
  ml_quick s = None -> ml_last_good s = None -> ml_ranked s = [] ->
  Forall (fun t => hunt_masque_peers (mc_mode c) (mc_ip c) (ml_avoid s) RANKED_GATEWAYS (mt_scan t) = Some (Ok [])) turns ->
  run_turns (turn_masque c) s turns = Again s.
Proof.
  intros Hf Hc Hq Hl Hr Ht. destruct s as [quick good ranked avoid fs log]. simpl in *. subst.
  induction Ht as [|t turns Hs Ht IH]; [done|]. simpl.
  unfold turn_masque at 1, choose_masque. simpl. rewrite Hf, Hc. simpl. by rewrite Hs.
Qed.

Definition wide_env : Env := fun key =>
  if bool_decide (key = str "SOILDTUNNEL_SCAN_CIDRS") then Some (str "162.159.0.0/16") else None.
Definition wide_world : World :=
  mkWorld wide_env 4 false [] false (mkChecks demo_check demo_check demo_check demo_check demo_check demo_check).
Lemma empty_scan_spins_witness :
  let c := mkMqConf wide_env None (str "thorough") ScanV4 (str "l") true in
  let s := mkMq None None [] ∅ ∅ [] in
  let t := mkMqTurn (fun _ => true) (mkScan wide_world 0 [(0, NextItem 0 0)]) 0 (fun _ => Ok tt) in
  run_turns (@turn_masque no_unicode no_lastconn no_avoid c) s (replicate 100 t) = Again s.
Proof.
  intros c s t. apply (@empty_scan_spins no_unicode no_lastconn no_avoid c s); [reflexivity..|].
  apply Forall_replicate. vm_compute. reflexivity.
Defined.
