(* ===== verification/WgVerify.v ===== *)
(** * The verification of a WireGuard endpoint

    Models verify_endpoint_keep_session and verify_dataplane of wireguard.rs:
    the handshake with its retransmissions, the data-plane round trips, and the
    tunnel that takes the session over, with establish_wg and
    run_wireguard_tunnel of lib.rs, which start one.  Instants are in
    milliseconds.  What the loops do is a log: the packets handed to the socket,
    and what came out of the session. *)

From Stdlib Require Import ZArith Lia ZifyBool String List.
From stdpp Require Import base list numbers option decidable.
From S2P Require Import Prelude RustStr NetAddr Errors Masque WireGuard Noize Prober Account Settings.
Open Scope Z_scope.

Definition is_none {A : Type} (o : option A) : bool := match o with None => true | Some _ => false end.

Definition VERIFY_RETRY_DELAYS : list Z := [750; 2000].
Definition DATAPLANE_REQUIRED_SUCCESSES : Z := 2.
Definition DATAPLANE_PROBE_GAP : Z := 600.
Definition PROBE_RESEND : Z := 700.

Inductive act : Type :=
| Burst                        (* the obfuscation before the handshake *)
| Init (pkt : bytes)           (* the first message of the handshake, or a retransmission *)
| Sent (pkt : bytes)           (* any other message *)
| Handshook                    (* the session answered the handshake *)
| Delivered (pkt : bytes).     (* a packet came out of the session *)

(** A computation with its log; [None]: the events ran out. *)
Definition Logged (A : Type) : Type := list act * option (result A).
Definition logs {A : Type} (l : list act) (m : Logged A) : Logged A := (l ++ m.1, m.2).
Lemma logs_nil {A : Type} (m : Logged A) : logs [] m = m.
Proof. by destruct m. Qed.
Definition ends {A : Type} (r : result A) : Logged A := ([], Some r).

(** What a [send] gives: [None] is success. *)
Definition sent (fault : option io_error) : result unit := match fault with None => Ok tt | Some e => Err (Io e) end.

Section Verify.
Context `{Tunn}.

Definition stamp (cfg : WgConfig) (pkt : bytes) : bytes := inject_client_id pkt (wg_client_id cfg).

(** ** The data plane *)

Definition send_dataplane_probe (cfg : WgConfig) (fault : option io_error) (tunn : Session)
  : list act * result unit * Session :=
  let '(r, tunn) := encapsulate tunn (wg_probe cfg) in
  match r with
  | WriteToNetwork pkt => ([Sent (stamp cfg pkt)], sent fault, tunn)
  | TunnErr e => ([], Err (Other (str "dataplane encap: " ++ e)), tunn)
  | _ => ([], Ok tt, tunn)
  end.

Inductive dp_event : Type :=
| DpReceived (later : Z) (datagram : bytes)   (* [later]: the instant after the datagram was handled *)
| DpFailed (e : io_error)
| DpWaited.

(** A turn of the loop on its event; [next] is the loop. *)
Definition dataplane_turn (cfg : WgConfig) (start : Z) (next : Z -> Z -> Z -> Session -> Logged (Z * Session))
    (ev : dp_event) (successes last_probe_at resend_at : Z) (tunn : Session) : Logged (Z * Session) :=
  match ev with
  | DpWaited => next successes last_probe_at resend_at tunn
  | DpFailed e => ends (Err (Io e))
  | DpReceived later datagram =>
      let '(r, tunn) := decapsulate tunn (strip_client_id datagram) in
      match r with
      | WriteToTunnel pkt =>
          let successes := successes + 1 in
          logs [Delivered pkt]
            (if DATAPLANE_REQUIRED_SUCCESSES <=? successes then ends (Ok (later - start, tunn))
             else
               let next_at := Z.max later (last_probe_at + DATAPLANE_PROBE_GAP) in
               let '(l, _, tunn) := send_dataplane_probe cfg None tunn in
               logs l (next successes next_at (next_at + PROBE_RESEND) tunn))
      | WriteToNetwork pkt => logs [Sent (stamp cfg pkt)] (next successes last_probe_at resend_at tunn)
      | _ => next successes last_probe_at resend_at tunn
      end
  end.

(** The loop, by the instant each turn starts at. *)
Fixpoint verify_dataplane_loop (cfg : WgConfig) (start deadline : Z) (evs : list (Z * dp_event))
    (successes last_probe_at resend_at : Z) (tunn : Session) : Logged (Z * Session) :=
  match evs with
  | [] => ([], None)
  | (now, ev) :: evs =>
      let next := verify_dataplane_loop cfg start deadline evs in
      if deadline <=? now then ends (Err (Other (str "dataplane timeout")))
      else if resend_at <=? now then
        let '(l, _, tunn) := send_dataplane_probe cfg None tunn in
        logs l (dataplane_turn cfg start next ev successes now (now + PROBE_RESEND) tunn)
      else dataplane_turn cfg start next ev successes last_probe_at resend_at tunn
  end.

(** [at_]: when the first probe is sent; [fault]: what sending it gives. *)
Definition verify_dataplane (cfg : WgConfig) (start deadline at_ : Z) (fault : option io_error)
    (evs : list (Z * dp_event)) (tunn : Session) : Logged (Z * Session) :=
  let '(l, r, tunn) := send_dataplane_probe cfg fault tunn in
  logs l match r with
         | Ok _ => verify_dataplane_loop cfg start deadline evs 0 at_ (at_ + PROBE_RESEND) tunn
         | Err e => ends (Err e)
         | Panic => ends Panic
         | OutOfFuel => ends OutOfFuel
         end.

(** ** The handshake *)

Inductive hs_event : Type :=
| HsReceived (later : Z) (datagram : bytes) (fault : option io_error)
| HsFailed (e : io_error)
| HsTick (at_ : Z) (retry_fault timer_fault : option io_error)
| HsDeadline.

(** What the data check meets, should it come to it. *)
Record DataWorld : Type := mkData { da_at : Z; da_fault : option io_error; da_events : list (Z * dp_event) }.

Definition verify_timeout : SoildTunnelError := Other (str "verify timeout").

Definition handshaken (cfg : WgConfig) (data_check : bool) (start deadline later : Z) (d : DataWorld) (tunn : Session)
  : Logged (Z * Session) :=
  logs [Handshook]
    (if data_check then verify_dataplane cfg start deadline (da_at d) (da_fault d) (da_events d) tunn
     else ends (Ok (later - start, tunn))).

Definition continue_on {A : Type} (r : result unit) (k : Logged A) : Logged A :=
  match r with Ok _ => k | Err e => ends (Err e) | Panic => ends Panic | OutOfFuel => ends OutOfFuel end.

Fixpoint verify_loop (cfg : WgConfig) (data_check : bool) (start deadline : Z) (init_packet : bytes) (d : DataWorld)
    (evs : list (Z * hs_event)) (retries : list Z) (tunn : Session) : Logged (Z * Session) :=
  match evs with
  | [] => ([], None)
  | (now, ev) :: evs =>
      let next := verify_loop cfg data_check start deadline init_packet d evs in
      if deadline <=? now then ends (Err verify_timeout)
      else
        match ev with
        | HsReceived later datagram fault =>
            let '(r, tunn) := decapsulate tunn (strip_client_id datagram) in
            match r with
            | Done => handshaken cfg data_check start deadline later d tunn
            | WriteToNetwork pkt =>
                logs [Sent (stamp cfg pkt)]
                  (continue_on (sent fault) (handshaken cfg data_check start deadline later d tunn))
            | TunnErr _ => next retries tunn
            | WriteToTunnel pkt => logs [Delivered pkt] (next retries tunn)
            end
        | HsFailed e => ends (Err (Io e))
        | HsTick at_ retry_fault timer_fault =>
            let '(l, r, retries) :=
              match retries with
              | delay :: more =>
                  if delay <=? at_ - start then ([Init init_packet], sent retry_fault, more) else ([], Ok tt, retries)
              | [] => ([], Ok tt, retries)
              end in
            logs l (continue_on r
              (let '(r, tunn) := update_timers tunn in
               match r with
               | WriteToNetwork pkt => logs [Sent (stamp cfg pkt)] (continue_on (sent timer_fault) (next retries tunn))
               | TunnErr e => ends (Err (Other (str "wireguard timer failed: " ++ e)))
               | _ => next retries tunn
               end))
        | HsDeadline => ends (Err verify_timeout)
        end
  end.

(** What a verification meets: the socket, the clock at its start, [Tunn::new]
    of the two keys and the keepalive, and what sending the first message gives. *)
Record VerifyWorld : Type := mkVerify {
  ve_bind : result unit; ve_start : Z; ve_new : bytes -> bytes -> Z -> Session + bytes; ve_fault : option io_error;
  ve_events : list (Z * hs_event); ve_data : DataWorld }.

Definition verify_endpoint_keep_session (env : Env) (private_key peer_public : bytes) (cfg : WgConfig) (timeout : Z)
    (keepalive : option Z) (w : VerifyWorld) : Logged (Z * Session) :=
  let data_check := is_none (env (str "SOILDTUNNEL_WG_NO_DATA_CHECK")) in
  continue_on (ve_bind w)
    (let start := ve_start w in
     let deadline := start + timeout in
     logs (if wg_obfuscation cfg then [Burst] else [])
       match ve_new w private_key peer_public (default 25 keepalive) with
       | inr e => ends (Err (Other (str "tunn init: " ++ e)))
       | inl tunn =>
           let '(r, tunn) := encapsulate tunn [] in
           match r with
           | WriteToNetwork pkt =>
               let init_packet := stamp cfg pkt in
               logs [Init init_packet]
                 (continue_on (sent (ve_fault w))
                    (verify_loop cfg data_check start deadline init_packet (ve_data w) (ve_events w)
                       VERIFY_RETRY_DELAYS tunn))
           | _ => ends (Err (Other (str "handshake init failed")))
           end
       end).

(** ** The tunnel on a verified session *)

(** [WgTunnel::new] starts without the obfuscation sent; [from_established]
    takes it as sent. *)
Definition wg_new (tunn : Session) (now : Z) : Wg := mkWg tunn now 0 false false.
Definition from_established (tunn : Session) (now : Z) : Wg := mkWg tunn now 0 true false.

Definition wg_config (env : Env) (i : Identity) (probe : bytes) (noize : ForWg.SoildNoizeConfig) : WgConfig :=
  mkWgConfig (client_id i) probe (ForWg.is_enabled noize) (ForWg.jc_after_hs noize) (wg_stale_timeout env).
Definition identity_v4 (i : Identity) : result bytes := ok_or (parse_ipv4 (ipv4 i)) (Other (str "invalid ipv4")).

(** While it serves: the tunnel's own events, the end of the proxy's task, and
    the hint of the application. *)
Inductive serve_event : Type := OfTunnel (ev : WireGuard.wg_event) | ProxyEnded (r : result unit) | HintSeen.

Fixpoint serve_wg (cfg : WgConfig) (evs : list serve_event) (w : Wg) : list wg_action * option (result unit) :=
  match evs with
  | [] => ([], None)
  | OfTunnel ev :: evs =>
      match wg_turn cfg ev w with
      | Running w acts => let '(more, r) := serve_wg cfg evs w in (acts ++ more, r)
      | Ended r => ([], Some r)
      end
  | ProxyEnded _ :: evs => serve_wg cfg evs w
  | HintSeen :: _ => ([], Some (Err Migrate))
  end.

(** A start of a tunnel: the log of the verification, whether the proxies were
    started, what the tunnel did and how it ended, if it did. *)
Record TunnelRun : Type := mkTunnelRun {
  tr_log : list act; tr_exposed : bool; tr_actions : list wg_action; tr_end : option (result unit) }.
Definition failed_run (l : list act) (r : result unit) : TunnelRun := mkTunnelRun l false [] (Some r).

Section Tunnels.
Context `{ErrorText}.

Definition wg_tunnel_end (r : result unit) : result unit :=
  match r with
  | Ok _ => Ok tt
  | Err Migrate => Err Migrate
  | Err e => Err (Other (str "wireguard tunnel exited: " ++ error_str e))
  | Panic => Panic
  | OutOfFuel => OutOfFuel
  end.

(** [stack]: what [netstack::spawn] gives; [now]: when the tunnel starts. *)
Definition run_wireguard_tunnel (env : Env) (i : Identity) (probe : bytes) (noize : ForWg.SoildNoizeConfig)
    (w : VerifyWorld) (stack : result unit) (now : Z) (evs : list serve_event) : TunnelRun :=
  match identity_v4 i with
  | Ok _ =>
      let cfg := wg_config env i probe noize in
      let '(l, r) := verify_endpoint_keep_session env (wg_private_key i) (wg_peer_public_key i) cfg
                       (1000 * wg_tunnel_validate_timeout env) (Some (wg_keepalive_secs env)) w in
      match r with
      | None => mkTunnelRun l false [] None
      | Some (Ok (_, tunn)) =>
          match stack with
          | Ok _ => let '(acts, r) := serve_wg cfg evs (from_established tunn now) in
                    mkTunnelRun l true acts (option_map wg_tunnel_end r)
          | r => failed_run l r
          end
      | Some (Err e) => failed_run l (Err (Other (str "tunnel failed validation: " ++ error_str e)))
      | Some Panic => failed_run l Panic
      | Some OutOfFuel => failed_run l OutOfFuel
      end
  | Err e => failed_run [] (Err e)
  | Panic => failed_run [] Panic
  | OutOfFuel => failed_run [] OutOfFuel
  end.

Definition labelled (label text : bytes) : bytes := str "[" ++ label ++ str "] " ++ text.

(** The profile of a hop: the inner one, inside the outer, is not obfuscated. *)
Definition hop_noize (env : Env) (obfuscate : bool) : ForWg.SoildNoizeConfig :=
  if obfuscate then ForWg.from_profile (default (str "balanced") (env (str "SOILDTUNNEL_NOIZE")))
  else ForWg.from_profile (str "off").

(** [establish_wg]: the log, and the tunnel that was started. *)
Definition establish_wg (env : Env) (i : Identity) (probe : bytes) (obfuscate : bool) (keepalive : Z)
    (label : bytes) (w : VerifyWorld)
    (stack : result unit) (now : Z) : Logged (WgConfig * Wg) :=
  match identity_v4 i with
  | Ok _ =>
      let cfg := wg_config env i probe (hop_noize env obfuscate) in
      let '(l, r) := verify_endpoint_keep_session env (wg_private_key i) (wg_peer_public_key i) cfg
                       (1000 * wg_tunnel_validate_timeout env) (Some keepalive) w in
      (l, let? r := r in
          Some match r with
               | Ok (_, tunn) => let! _ := stack in Ok (cfg, from_established tunn now)
               | Err e => Err (Other (labelled label (str "tunnel failed validation: " ++ error_str e)))
               | Panic => Panic
               | OutOfFuel => OutOfFuel
               end)
  | Err e => ends (Err e)
  | Panic => ends Panic
  | OutOfFuel => ends OutOfFuel
  end.
(** The task behind the tunnel of a hop. *)
Definition hop_exit (label : bytes) (r : result unit) : result unit :=
  map_err (fun e => Other (labelled label (error_str e))) r.
End Tunnels.

(** [verify_endpoint] drops the session. *)
Definition verify_endpoint (env : Env) (private_key peer_public : bytes) (cfg : WgConfig) (timeout : Z)
    (keepalive : option Z) (w : VerifyWorld) : Logged Z :=
  let '(l, r) := verify_endpoint_keep_session env private_key peer_public cfg timeout keepalive w in
  (l, let? r := r in Some (let! '(elapsed, _) := r in Ok elapsed)).
End Verify.

(** ** What a success means *)

Section Sound.
Context `{Tunn}.

Definition is_delivered (a : act) : bool := match a with Delivered _ => true | _ => false end.
Definition is_init (a : act) : bool := match a with Init _ => true | _ => false end.
Definition is_burst (a : act) : bool := match a with Burst => true | _ => false end.
Definition tally (p : act -> bool) (l : list act) : Z := zlen (List.filter p l).

Lemma tally_app p l l' : tally p (l ++ l') = tally p l + tally p l'.
Proof. unfold tally. by rewrite List.filter_app, zlen_app. Qed.
Lemma tally_nonneg p l : 0 <= tally p l.
Proof. apply zlen_nonneg. Qed.

(** Every message that goes out carries the client id. *)
Definition act_stamped (cfg : WgConfig) (a : act) : Prop :=
  match a with Init pkt | Sent pkt => stamped (wg_client_id cfg) pkt | _ => True end.
Definition all_stamped (cfg : WgConfig) (l : list act) : Prop := Forall (act_stamped cfg) l.

(** The log of the data plane: messages with the client id, packets that came
    out, and no handshake. *)
Record dp_log (cfg : WgConfig) (l : list act) : Prop := mkDpLog {
  dl_stamped : all_stamped cfg l; dl_init : tally is_init l = 0; dl_burst : tally is_burst l = 0 }.

Lemma dp_log_nil cfg : dp_log cfg [].
Proof. split; [constructor|done|done]. Qed.
Lemma dp_log_app cfg l l' : dp_log cfg l -> dp_log cfg l' -> dp_log cfg (l ++ l').
Proof. intros [s i b] [s' i' b']. split; [by apply Forall_app|rewrite tally_app; lia..]. Qed.
Lemma dp_log_sent cfg pkt : zlen (wg_client_id cfg) = 3 -> dp_log cfg [Sent (stamp cfg pkt)].
Proof. intros Hid. split; [|done|done]. constructor; [by apply inject_stamped|constructor]. Qed.
Lemma dp_log_delivered cfg pkt : dp_log cfg [Delivered pkt].
Proof. split; [by repeat constructor|done|done]. Qed.

Lemma probe_log cfg fault tunn : zlen (wg_client_id cfg) = 3 -> dp_log cfg (send_dataplane_probe cfg fault tunn).1.1.
Proof.
  intros Hid. unfold send_dataplane_probe. destruct (encapsulate tunn _) as [[] t]; try apply dp_log_nil. by apply dp_log_sent.
Qed.
Lemma probe_undelivered cfg fault tunn : tally is_delivered (send_dataplane_probe cfg fault tunn).1.1 = 0.
Proof. unfold send_dataplane_probe. by destruct (encapsulate tunn _) as [[] t]. Qed.

(** A computation of the data plane that has seen [n] packets come out. *)
Definition dp_ok (cfg : WgConfig) (n : Z) (m : Logged (Z * Session)) : Prop :=
  dp_log cfg m.1 /\ (forall v, m.2 = Some (Ok v) -> DATAPLANE_REQUIRED_SUCCESSES <= n + tally is_delivered m.1).

Lemma dp_ok_logs cfg n l m : dp_log cfg l -> dp_ok cfg (n + tally is_delivered l) m -> dp_ok cfg n (logs l m).
Proof.
  intros Hl [Hm Hs]. split; [by apply dp_log_app|]. intros v Hv%Hs. cbn [fst logs]. rewrite tally_app. lia.
Qed.
Lemma dp_ok_quiet cfg n l m : dp_log cfg l -> tally is_delivered l = 0 -> dp_ok cfg n m -> dp_ok cfg n (logs l m).
Proof. intros Hl Hd Hm. apply dp_ok_logs; [done|]. by rewrite Hd, Z.add_0_r. Qed.
Lemma dp_ok_error cfg n e : dp_ok cfg n (ends (Err e)).
Proof. split; [apply dp_log_nil|done]. Qed.

Lemma dp_ok_probe cfg n fault tunn (k : result unit -> Session -> Logged (Z * Session)) :
  zlen (wg_client_id cfg) = 3 -> (forall r t, dp_ok cfg n (k r t)) ->
  dp_ok cfg n (let '(l, r, t) := send_dataplane_probe cfg fault tunn in logs l (k r t)).
Proof.
  intros Hid Hk. pose proof (probe_log cfg fault tunn Hid). pose proof (probe_undelivered cfg fault tunn).
  destruct (send_dataplane_probe cfg fault tunn) as [[l r] t]. by apply dp_ok_quiet.
Qed.

Lemma dataplane_turn_ok cfg start next ev n last resend tunn :
  zlen (wg_client_id cfg) = 3 -> (forall n last resend t, dp_ok cfg n (next n last resend t)) ->
  dp_ok cfg n (dataplane_turn cfg start next ev n last resend tunn).
Proof.
  intros Hid Hn. destruct ev as [later datagram|e|]; [|apply dp_ok_error|apply Hn]. cbn [dataplane_turn].
  destruct (decapsulate tunn _) as [[|e|pkt|pkt] t]; [apply Hn|apply Hn| |].
  - apply dp_ok_quiet; [by apply dp_log_sent|done|apply Hn].
  - apply dp_ok_logs; [apply dp_log_delivered|]. change (tally is_delivered [Delivered pkt]) with 1.
    destruct (_ <=? n + 1) eqn:E.
    + split; [apply dp_log_nil|]. intros v _. change (tally is_delivered _) with 0. lia.
    + apply (dp_ok_probe cfg (n + 1) None t (fun _ t => next (n + 1) _ _ t)); [done|intros; apply Hn].
Qed.

Lemma dataplane_loop_ok cfg start deadline evs : zlen (wg_client_id cfg) = 3 -> forall n last resend tunn,
  dp_ok cfg n (verify_dataplane_loop cfg start deadline evs n last resend tunn).
Proof.
  intros Hid. induction evs as [|[now ev] evs IH]; intros n last resend tunn; cbn [verify_dataplane_loop];
    [split; [apply dp_log_nil|done]|].
  destruct (deadline <=? now); [apply dp_ok_error|]. destruct (resend <=? now).
  - apply (dp_ok_probe cfg n None tunn (fun _ t => dataplane_turn cfg start _ ev n now _ t)); [done|].
    intros. by apply dataplane_turn_ok.
  - by apply dataplane_turn_ok.
Qed.

Lemma dataplane_ok cfg start deadline at_ fault evs tunn :
  zlen (wg_client_id cfg) = 3 -> dp_ok cfg 0 (verify_dataplane cfg start deadline at_ fault evs tunn).
Proof.
  intros Hid. unfold verify_dataplane.
  apply (dp_ok_probe cfg 0 fault tunn (fun r t => match r with Ok _ => verify_dataplane_loop cfg start deadline evs 0 at_ _ t
    | Err e => ends (Err e) | Panic => ends Panic | OutOfFuel => ends OutOfFuel end)); [done|].
  intros [] t; try (split; [apply dp_log_nil|done]). by apply dataplane_loop_ok.
Qed.

(** ** The handshake *)

(** A computation of the handshake that may still send [inits] first messages. *)
Record hs_ok (cfg : WgConfig) (data_check : bool) (inits : Z) (m : Logged (Z * Session)) : Prop := mkHsOk {
  ho_stamped : all_stamped cfg m.1;
  ho_inits : tally is_init m.1 <= inits;
  ho_bursts : tally is_burst m.1 = 0;
  ho_success : forall v, m.2 = Some (Ok v) -> exists before after, m.1 = before ++ Handshook :: after /\
    (data_check = true -> DATAPLANE_REQUIRED_SUCCESSES <= tally is_delivered after) }.

Lemma hs_ok_logs cfg dc n l m :
  all_stamped cfg l -> tally is_burst l = 0 -> hs_ok cfg dc (n - tally is_init l) m -> hs_ok cfg dc n (logs l m).
Proof.
  intros Hl Hb [Hs Hi Hm Hk]. unfold logs. split; cbn [fst snd].
  - by apply Forall_app.
  - rewrite tally_app. lia.
  - rewrite tally_app. lia.
  - intros v (before & after & -> & Hd)%Hk. exists (l ++ before), after. by rewrite <- app_assoc.
Qed.

Lemma hs_ok_ends cfg dc n e : 0 <= n -> hs_ok cfg dc n (ends (Err e)).
Proof. intros. by split; [constructor|..]. Qed.
Lemma hs_ok_continue cfg dc n fault m : 0 <= n -> hs_ok cfg dc n m -> hs_ok cfg dc n (continue_on (sent fault) m).
Proof. intros Hn Hm. destruct fault; [by apply hs_ok_ends|done]. Qed.
Lemma hs_ok_sent cfg dc n pkt m :
  zlen (wg_client_id cfg) = 3 -> hs_ok cfg dc n m -> hs_ok cfg dc n (logs [Sent (stamp cfg pkt)] m).
Proof.
  intros Hid Hm. apply hs_ok_logs; [|done|by rewrite Z.sub_0_r]. constructor; [by apply inject_stamped|constructor].
Qed.

Lemma handshaken_ok cfg dc start deadline later d tunn n :
  zlen (wg_client_id cfg) = 3 -> 0 <= n -> hs_ok cfg dc n (handshaken cfg dc start deadline later d tunn).
Proof.
  intros Hid Hn. unfold handshaken. destruct dc.
  - destruct (dataplane_ok cfg start deadline (da_at d) (da_fault d) (da_events d) tunn Hid) as [[Hs Hi Hb] Hd].
    split; cbn [fst snd logs].
    + by constructor.
    + change (Handshook :: ?l) with ([Handshook] ++ l). rewrite tally_app, Hi. done.
    + change (Handshook :: ?l) with ([Handshook] ++ l). rewrite tally_app, Hb. done.
    + intros v Hv. exists [], (verify_dataplane cfg start deadline (da_at d) (da_fault d) (da_events d) tunn).1.
      split; [done|]. intros _. specialize (Hd v Hv). lia.
  - split; cbn [fst snd logs ends]; [by repeat constructor|done|done|]. intros v _. by exists [], [].
Qed.

Lemma verify_loop_ok cfg dc start deadline init d evs :
  zlen (wg_client_id cfg) = 3 -> stamped (wg_client_id cfg) init -> forall retries tunn,
  hs_ok cfg dc (zlen retries) (verify_loop cfg dc start deadline init d evs retries tunn).
Proof.
  intros Hid Hinit. induction evs as [|[now ev] evs IH]; intros retries tunn; cbn [verify_loop]; pose proof (zlen_nonneg retries);
    [by split; [constructor|..]|].
  destruct (deadline <=? now); [by apply hs_ok_ends|]. destruct ev as [later datagram fault|e|at_ f1 f2|].
  - destruct (decapsulate tunn _) as [[|e|pkt|pkt] t].
    + by apply handshaken_ok.
    + apply IH.
    + apply hs_ok_sent, hs_ok_continue, handshaken_ok; done.
    + apply hs_ok_logs; [by repeat constructor|done|]. change (tally is_init _) with 0. rewrite Z.sub_0_r. apply IH.
  - by apply hs_ok_ends.
  - assert (forall more, hs_ok cfg dc (zlen more) (let '(r, t) := update_timers tunn in
      match r with
      | WriteToNetwork pkt => logs [Sent (stamp cfg pkt)] (continue_on (sent f2) (verify_loop cfg dc start deadline init d evs more t))
      | TunnErr e => ends (Err (Other (str "wireguard timer failed: " ++ e)))
      | _ => verify_loop cfg dc start deadline init d evs more t
      end)) as Htimers.
    { intros more. pose proof (zlen_nonneg more). destruct (update_timers tunn) as [[|e|pkt|pkt] t]; [apply IH| | |apply IH].
      - by apply hs_ok_ends.
      - apply hs_ok_sent, hs_ok_continue, IH; done. }
    destruct retries as [|delay more]; [rewrite logs_nil; apply Htimers|].
    destruct (delay <=? at_ - start); [|rewrite logs_nil; apply Htimers].
    rewrite zlen_cons. apply hs_ok_logs; [by repeat constructor|done|]. change (tally is_init [Init init]) with 1.
    replace (1 + zlen more - 1) with (zlen more) by lia. apply hs_ok_continue; [apply zlen_nonneg|apply Htimers].
  - by apply hs_ok_ends.
Qed.

(** ** The whole verification *)

Lemma verification_ok env key peer_key cfg timeout keepalive w :
  zlen (wg_client_id cfg) = 3 ->
  let m := verify_endpoint_keep_session env key peer_key cfg timeout keepalive w in
  all_stamped cfg m.1 /\ tally is_init m.1 <= 3 /\ tally is_burst m.1 <= (if wg_obfuscation cfg then 1 else 0) /\
  forall v, m.2 = Some (Ok v) -> exists before after, m.1 = before ++ Handshook :: after /\
    (env (str "SOILDTUNNEL_WG_NO_DATA_CHECK") = None -> DATAPLANE_REQUIRED_SUCCESSES <= tally is_delivered after).
Proof.
  intros Hid m. unfold m, verify_endpoint_keep_session. clear m.
  destruct (ve_bind w) as [u|e| |]; cbn [continue_on]; try by split_and!; [constructor|..]; destruct (wg_obfuscation cfg).
  set (dc := is_none _). set (burst := if wg_obfuscation cfg then _ else _). 
  match goal with |- context [logs burst ?c] => set (core := c) end.
  assert (hs_ok cfg dc 3 core) as [Hs Hi Hb Hk].
  { unfold core. destruct (ve_new w _ _ _) as [tunn|e]; [|by apply hs_ok_ends].
    destruct (encapsulate tunn []) as [[|e|pkt|pkt] t]; try by apply hs_ok_ends.
    apply hs_ok_logs; [|done|]; [constructor; [by apply inject_stamped|constructor]|].
    change (tally is_init _) with 1. apply hs_ok_continue; [done|]. change (3 - 1) with (zlen VERIFY_RETRY_DELAYS).
    apply verify_loop_ok; [done|by apply inject_stamped]. }
  cbn [logs fst snd]. split_and!.
  - apply Forall_app. split; [|done]. unfold burst. destruct (wg_obfuscation cfg); by repeat constructor.
  - rewrite tally_app. unfold burst. destruct (wg_obfuscation cfg); exact Hi.
  - rewrite tally_app, Hb. unfold burst. by destruct (wg_obfuscation cfg).
  - intros v (before & after & -> & Hd)%Hk. exists (burst ++ before), after. rewrite <- app_assoc. split; [done|].
    intros He. apply Hd. unfold dc. by rewrite He.
Qed.

(** The clock ends every loop. *)
Lemma dataplane_loop_ends cfg start deadline evs : forall n last resend tunn,
  Exists (fun ev => deadline <= ev.1) evs -> (verify_dataplane_loop cfg start deadline evs n last resend tunn).2 <> None.
Proof.
  induction evs as [|[now ev] evs IH]; intros n last resend tunn He; [by apply Exists_nil in He|].
  cbn [verify_dataplane_loop]. destruct (deadline <=? now) eqn:E; [done|].
  apply Exists_cons in He as [He|He]; [cbn in He; lia|].
  assert (forall last resend t, (dataplane_turn cfg start (verify_dataplane_loop cfg start deadline evs) ev n last resend t).2
    <> None) as Ht.
  { intros last' resend' t. destruct ev as [later datagram|e|]; [|done|by apply IH]. cbn [dataplane_turn].
    destruct (decapsulate t _) as [[] t']; try (by apply IH). cbn [logs snd]. destruct (DATAPLANE_REQUIRED_SUCCESSES <=? n + 1); [done|].
    destruct (send_dataplane_probe cfg None t') as [[l r] t'']. by apply IH. }
  destruct (resend <=? now); [|apply Ht]. destruct (send_dataplane_probe cfg None tunn) as [[l r] t]. apply Ht.
Qed.

Lemma handshaken_ends cfg dc start deadline later d tunn :
  Exists (fun ev => deadline <= ev.1) (da_events d) -> (handshaken cfg dc start deadline later d tunn).2 <> None.
Proof.
  intros Hd. unfold handshaken. destruct dc; [|done]. cbn [logs snd]. unfold verify_dataplane.
  destruct (send_dataplane_probe cfg (da_fault d) tunn) as [[l []] t]; try done. by apply dataplane_loop_ends.
Qed.

Lemma verify_loop_ends cfg dc start deadline init d evs : Exists (fun ev => deadline <= ev.1) (da_events d) ->
  forall retries tunn, Exists (fun ev => deadline <= ev.1) evs ->
  (verify_loop cfg dc start deadline init d evs retries tunn).2 <> None.
Proof.
  intros Hd. induction evs as [|[now ev] evs IH]; intros retries tunn He; [by apply Exists_nil in He|].
  cbn [verify_loop]. destruct (deadline <=? now) eqn:E; [done|].
  apply Exists_cons in He as [He|He]; [cbn in He; lia|]. destruct ev as [later datagram fault|e|at_ f1 f2|]; [|done| |done].
  - destruct (decapsulate tunn _) as [[] t]; try (by apply IH); [by apply handshaken_ends|].
    destruct fault; [done|]. by apply handshaken_ends.
  - set (p := match retries with [] => _ | _ => _ end). destruct p as [[l r] more]. cbn [logs snd].
    destruct r; try done. cbn [continue_on]. destruct (update_timers tunn) as [[] t]; try done; try (by apply IH).
    destruct f2; [done|]. by apply IH.
Qed.
End Sound.

Section Exposed.
Context `{Tunn} `{ErrorText}.

Lemma serve_wg_kept cfg evs : zlen (wg_client_id cfg) = 3 -> forall w,
  let acts := (serve_wg cfg evs w).1 in
  (forall pkt, In (ToWire pkt) acts -> stamped (wg_client_id cfg) pkt) /\
  count is_obfuscation acts <= 1 - spent (obf_sent w).
Proof.
  intros Hid. induction evs as [|[ev|r|] evs IH]; intros w; cbn [serve_wg]; [by destruct (obf_sent w)| |apply IH|by destruct (obf_sent w)].
  destruct (wg_turn cfg ev w) as [w' acts|r] eqn:Et; [|by destruct (obf_sent w)].
  destruct (turn_running cfg ev w w' acts Hid Et) as (Hs & Ho & _). destruct (IH w') as [Hs' Ho'].
  destruct (serve_wg cfg evs w') as [more r]. cbn [fst] in *. split; [|rewrite count_app; lia].
  intros pkt [Hi|Hi]%in_app_iff; auto.
Qed.

(** C14: A WireGuard proxy is only offered over a tunnel that works.  The proxies
    of [run_wireguard_tunnel] are started only after the endpoint answered the
    handshake and, unless the data check is off, two packets came back through
    the session; every message before and after carries the client id, the first
    message is sent at most three times, and the obfuscation goes out at most
    once in the verification and never again in the tunnel that takes the
    session over. *)
Theorem exposed_tunnel_verified env i probe noize w stack now evs :
  zlen (client_id i) = 3 ->
  let run := run_wireguard_tunnel env i probe noize w stack now evs in
  Forall (act_stamped (wg_config env i probe noize)) (tr_log run) /\
  (forall pkt, In (ToWire pkt) (tr_actions run) -> stamped (client_id i) pkt) /\
  tally is_init (tr_log run) <= 3 /\
  tally is_burst (tr_log run) <= (if ForWg.is_enabled noize then 1 else 0) /\ count is_obfuscation (tr_actions run) = 0 /\
  (tr_exposed run = true -> exists before after, tr_log run = before ++ Handshook :: after /\
     (env (str "SOILDTUNNEL_WG_NO_DATA_CHECK") = None -> DATAPLANE_REQUIRED_SUCCESSES <= tally is_delivered after)).
Proof.
  intros Hid run. unfold run, run_wireguard_tunnel. clear run. set (cfg := wg_config env i probe noize).
  assert (zlen (wg_client_id cfg) = 3) as Hid' by exact Hid.
  destruct (identity_v4 i) as [a|e| |]; try (cbn; split_and!; [constructor|done|done|by destruct (ForWg.is_enabled _)|done|done]).
  destruct (verification_ok env (wg_private_key i) (wg_peer_public_key i) cfg (1000 * wg_tunnel_validate_timeout env)
    (Some (wg_keepalive_secs env)) w Hid') as (Hs & Hi & Hb & Hk).
  destruct (verify_endpoint_keep_session _ _ _ _ _ _ _) as [l r]. cbn [fst snd] in *.
  destruct r as [[[elapsed tunn]|e| |]|]; try (by cbn; split_and!; [done|done|done|done|done|done]).
  destruct stack as [u|e| |]; try (by cbn; split_and!; [done|done|done|done|done|done]).
  destruct (serve_wg_kept cfg evs Hid' (from_established tunn now)) as [Hs' Ho].
  destruct (serve_wg cfg evs _) as [acts r]. cbn [fst tr_log tr_actions tr_exposed] in *. split_and!; [done|done|done|done| |].
  - change (spent _) with 1 in Ho. unfold count in *. pose proof (zlen_nonneg (List.filter is_obfuscation acts)). lia.
  - intros _. by apply (Hk (elapsed, tunn)).
Qed.

(** A verification ends by its deadline.  Once the clock has passed the
    deadline at a turn of the handshake's loop and at one of the data plane's,
    [verify_endpoint] has returned, whatever came in before and whatever the
    session and the socket did. *)
Theorem verification_ends env key peer_key cfg timeout keepalive w :
  Exists (fun ev => ve_start w + timeout <= ev.1) (ve_events w) ->
  Exists (fun ev => ve_start w + timeout <= ev.1) (da_events (ve_data w)) ->
  exists r, (verify_endpoint env key peer_key cfg timeout keepalive w).2 = Some r.
Proof.
  intros He Hd. assert ((verify_endpoint_keep_session env key peer_key cfg timeout keepalive w).2 <> None) as Hn.
  { unfold verify_endpoint_keep_session. destruct (ve_bind w); try done. cbn [continue_on logs snd].
    destruct (ve_new w _ _ _) as [t|e]; [|done]. destruct (encapsulate t []) as [[] t']; try done. cbn [logs snd].
    destruct (ve_fault w); [done|]. by apply verify_loop_ends. }
  unfold verify_endpoint. destruct (verify_endpoint_keep_session _ _ _ _ _ _ _) as [l [r|]]; [|done]. by eexists.
Qed.

(** Nobody waits for the task of the proxy: a tunnel whose proxy could not be
    opened goes on as if it had been. *)
Lemma proxy_failure_unnoticed cfg r evs w : serve_wg cfg (ProxyEnded r :: evs) w = serve_wg cfg evs w.
Proof. done. Qed.
End Exposed.

(** ** A verification, evaluated *)

(** A session whose peer answers a handshake with a message of type 2. *)
Definition answering_tunn : Tunn := {|
  Session := unit;
  encapsulate := fun _ b => (WriteToNetwork (4 :: 0 :: 0 :: 0 :: b), tt);
  decapsulate := fun _ b => (match b with
                             | 2 :: _ => WriteToNetwork [4; 0; 0; 0]
                             | 4 :: 0 :: 0 :: 0 :: b => WriteToTunnel b
                             | _ => TunnErr []
                             end, tt);
  update_timers := fun _ => (Done, tt) |}.
Definition demo_verify : VerifyWorld (H := answering_tunn) :=
  mkVerify (H := answering_tunn) (Ok tt) 0 (fun _ _ _ => inl tt) None
    [(1, HsTick 800 None None); (900, HsReceived 910 [2; 7; 8; 9] None); (20000, HsDeadline)]
    (mkData 910 None [(911, DpReceived 930 [4; 7; 8; 9; 69]); (931, DpReceived 950 [4; 7; 8; 9; 69]); (20000, DpWaited)]).
Definition demo_wg_identity : Identity :=
  mkIdentity [] [] [] [] 0 (str "172.16.0.2") [] [] [] [7; 8; 9] [] [] [] false.

Lemma verification_ends_witness :
  (verify_endpoint (H := answering_tunn) (fun _ => None) [] [] sample_wg 10000 None demo_verify).2 = Some (Ok 950).
Proof.
  destruct (verification_ends (H := answering_tunn) (fun _ => None) [] [] sample_wg 10000 None demo_verify) as [r Hr].
  - apply (bool_decide_unpack _). vm_compute. exact I.
  - apply (bool_decide_unpack _). vm_compute. exact I.
  - rewrite Hr. vm_compute in Hr. exact (eq_sym Hr).
Defined.

Definition demo_wg_run : TunnelRun :=
  run_wireguard_tunnel (H := answering_tunn) (H0 := no_error_text) (fun _ => None) demo_wg_identity [69; 0] ForWg.light
    demo_verify (Ok tt) 960 [OfTunnel (FromStack [69; 1]); ProxyEnded (Err NoCleanEndpoint); OfTunnel (HealthTick 20000)].
Lemma exposed_tunnel_verified_witness :
  tr_exposed demo_wg_run = true /\ tally is_init (tr_log demo_wg_run) = 2 /\
  exists before after, tr_log demo_wg_run = before ++ Handshook :: after /\ 2 <= tally is_delivered after.
Proof.
  destruct (exposed_tunnel_verified (H := answering_tunn) (H0 := no_error_text) (fun _ => None) demo_wg_identity [69; 0]
    ForWg.light demo_verify (Ok tt) 960
    [OfTunnel (FromStack [69; 1]); ProxyEnded (Err NoCleanEndpoint); OfTunnel (HealthTick 20000)] eq_refl)
    as (_ & _ & _ & _ & _ & Hk).
  split; [reflexivity|]. split; [reflexivity|]. destruct (Hk eq_refl) as (before & after & Hl & Hd).
  exists before, after. split; [exact Hl|exact (Hd eq_refl)].
Defined.
