(* ===== verification/Startup.v ===== *)
(** * Start-up

    Models run_with of lib.rs and what it calls before a tunnel runs: the choice
    of a protocol, the sign-in to an organization, the provisioning of an
    identity through a temporary tunnel, the ECH configuration, and run_tuic.
    A start ends with the program to run, a value of [program]; the loops behind
    the programs are in WgEngine and MasqueEngine.  [OutOfFuel] stands for what
    does not end. *)

From Stdlib Require Import ZArith Lia ZifyBool String List.
From stdpp Require Import base list numbers option decidable gmap.
From S2P Require Import Prelude RustStr NetAddr Errors H2Tunnel Dns Prober ApiFront WebLib ZeroTrust Account Store Provision Settings.
Open Scope Z_scope.

(** ** The console *)

Record Console : Type := mkConsole { co_terminal : bool; co_lines : list (option bytes) }.

(** [prompt_line]: the next line, if there is a terminal and the line can be read. *)
Definition prompt_line (c : Console) : option bytes * Console :=
  if co_terminal c then
    match co_lines c with
    | line :: lines => (option_map trim line, mkConsole true lines)
    | [] => (None, c)
    end
  else (None, c).

Record Sess : Type := mkSess { ss_host : Host; ss_console : Console }.
Definition ss_env (s : Sess) : Env := h_env (ss_host s).
Definition with_env (s : Sess) (env : Env) : Sess := mkSess (set_env (ss_host s) env) (ss_console s).
Definition ask (s : Sess) : option bytes * Sess :=
  let '(answer, c) := prompt_line (ss_console s) in (answer, mkSess (ss_host s) c).

(** Computations on the state. *)
Definition Boot (A : Type) : Type := Sess -> result A * Sess.
Definition boot_ret {A : Type} (a : A) : Boot A := fun s => (Ok a, s).
Definition boot_bind {A B : Type} (m : Boot A) (k : A -> Boot B) : Boot B := fun s =>
  match m s with
  | (Ok a, s) => k a s
  | (Err e, s) => (Err e, s)
  | (Panic, s) => (Panic, s)
  | (OutOfFuel, s) => (OutOfFuel, s)
  end.
Local Notation "'do' x := m 'in' k" := (boot_bind m (fun x => k)) (at level 200, x name, m at level 100, k at level 200).
Definition on_state {A : Type} (m : Flow A) : Boot A := fun s =>
  let '(r, h) := m (ss_host s) in (r, mkSess h (ss_console s)).
Definition asking : Boot (option bytes) := fun s => let '(a, s) := ask s in (Ok a, s).
(** A question is only asked when its answer is not in the environment. *)
Definition asking_if (b : bool) : Boot (option bytes) := if b then asking else boot_ret None.
Definition reading {A : Type} (f : Env -> A) : Boot A := fun s => (Ok (f (ss_env s)), s).
Definition judging {A : Type} (f : Env -> result A) : Boot A := fun s => (f (ss_env s), s).
Definition changing (f : Env -> Env) : Boot unit := fun s => (Ok tt, with_env s (f (ss_env s))).
Definition given {A : Type} (r : result A) : Boot A := fun s => (r, s).

Definition TEAM : bytes := str "SOILDTUNNEL_TEAM".
Definition ACCESS_EMAIL : bytes := str "SOILDTUNNEL_ACCESS_EMAIL".

Section Startup.
Context `{Target} `{UnicodeTables} `{ErrorText} `{SerdeJson} `{Base64} `{HttpText} `{AccountLib} `{Toml PersistedIdentity}.
Context `{Toml LastConnection}.

(** ** An organization *)

(** What a sign-in meets: the directory of the state files, the clock, and the
    organization's pages. *)
Record EnrolWorld : Type := mkEnrol {
  el_entries : option (list bytes); el_now : Z; el_later : Z; el_access : Access }.

Definition chosen_team (known : list bytes) (answer : bytes) : option bytes :=
  if is_empty answer then head known else normalize_team answer.

Definition has_method (s : TeamSettings) : bool := is_some (ts_token s) || has_service_token s || is_some (ts_email s).

(** The sign-in itself. *)
Definition sign_in_team (w : EnrolWorld) : Boot unit := fun s =>
  match team_from_env (ss_env s) with
  | Some settings =>
      let '(r, cache) := resolve_token (h_token (ss_host s)) settings (el_now w) (el_later w) (el_access w) in
      let s := mkSess (set_token (ss_host s) cache) (ss_console s) in
      match r with
      | Ok _ => (Ok tt, s)
      | Err _ => (Ok tt, with_env s (remove_var (remove_var (ss_env s) TEAM) ACCESS_EMAIL))
      | Panic => (Panic, s)
      | OutOfFuel => (OutOfFuel, s)
      end
  | None => (Ok tt, with_env s (remove_var (ss_env s) TEAM))
  end.

Definition enrol_zero_trust (w : EnrolWorld) (base : bytes) : Boot unit :=
  let known := enrolled_teams base (el_entries w) in
  do answer := asking in
  match chosen_team known (trim (unwrap_or_default answer)) with
  | None => boot_ret tt
  | Some team =>
      do _ := changing (fun env => set_var env TEAM team) in
      if existsb (fun enrolled => bool_decide (enrolled = team)) known then boot_ret tt
      else
        do settings := reading team_from_env in
        match settings with
        | None => changing (fun env => remove_var env TEAM)
        | Some settings =>
            if has_method settings then sign_in_team w
            else
              do email := asking in
              let email := trim (unwrap_or_default email) in
              if is_empty email then changing (fun env => remove_var env TEAM)
              else
                do _ := changing (fun env => set_var env ACCESS_EMAIL email) in
                sign_in_team w
        end
  end.

(** ** The protocol *)

(** [w n]: the [n]-th sign-in, should it come to it. *)
Fixpoint protocol_menu (fuel : nat) (n : nat) (w : nat -> EnrolWorld) (base : bytes) : Boot Protocol :=
  match fuel with
  | O => fun s => (OutOfFuel, s)
  | S fuel =>
      do answer := asking in
      match answer with
      | Some [50] => boot_ret ProtoWireGuard
      | Some [51] => boot_ret ProtoWarpInWarp
      | Some [52] => do _ := enrol_zero_trust (w n) base in protocol_menu fuel (S n) w base
      | _ => boot_ret ProtoMasque
      end
  end.

(** A round of the menu takes a line, so that there are no more rounds than lines. *)
Definition select_protocol (w : nat -> EnrolWorld) (base : bytes) : Boot Protocol := fun s =>
  match ss_env s (var "PROTOCOL") with
  | Some v => (Ok (Protocol_parse v), s)
  | None => protocol_menu (S (length (co_lines (ss_console s)))) 0 w base s
  end.

Definition startup_protocol (w : nat -> EnrolWorld) (base : bytes) : Boot Protocol := fun s =>
  if is_some (ss_env s (var "PEER")) || is_some (ss_env s (var "WG_PEER")) then
    (Ok (match ss_env s (var "PROTOCOL") with Some v => Protocol_parse v | None => ProtoMasque end), s)
  else select_protocol w base s.

(** ** ECH *)

(** [fetch]: what [dns::fetch_ech_config] gives. *)
Definition resolve_ech (env : Env) (fetch : result bytes) : result (option bytes) :=
  match env (var "ECH") with
  | Some v =>
      if eq_ignore_ascii_case v (str "auto") then
        match fetch with
        | Ok raw => Ok (Some raw)
        | Err _ => Ok None
        | Panic => Panic
        | OutOfFuel => OutOfFuel
        end
      else if is_empty v then Ok None
      else match b64_decode (trim v) with inl raw => Ok (Some raw) | inr _ => Ok None end
  | None => Ok None
  end.

(** What a MASQUE tunnel is started with. *)
Definition masque_ech (env : Env) (fetch : result bytes) : result (option bytes) :=
  if front_mode env || H2Tunnel.enabled env then Ok None else resolve_ech env fetch.

(** ** Provisioning through a temporary tunnel *)

(** [wait_for_socks]: the clock at each turn, and whether the proxy answered. *)
Fixpoint wait_for_socks (deadline : Z) (polls : list (Z * bool)) : result bool :=
  match polls with
  | [] => OutOfFuel
  | (now, answered) :: polls =>
      if now <? deadline then if answered then Ok true else wait_for_socks deadline polls else Ok false
  end.

Record TempWorld : Type := mkTemp {
  tw_masque : MasqueWorld;
  tw_lastconn : option io_error;                       (* reading the last endpoint *)
  tw_verify : Identity -> SocketAddr -> bool;          (* [quick_verify_masque_peer] *)
  tw_hunt : Identity -> bytes -> IpScan -> result SocketAddr;   (* [hunt_masque_peer] *)
  tw_listen : result SocketAddr;                       (* a free port for the proxy *)
  tw_ech : result bytes; tw_start : Z; tw_polls : list (Z * bool);
  tw_fresh : Fresh; tw_adopt : ApiWorld; tw_disk : Disk }.

(** The gateway of the last time, when the user wants it and it answers. *)
Definition cached_gateway (w : TempWorld) (i : Identity) (path : bytes) : Boot (option SocketAddr) := fun s =>
  match (let? cached := lastconn_load (h_fs (ss_host s)) path (tw_lastconn w) in parse_socket_addr (lc_peer cached)) with
  | Some p =>
      let set := is_value (ss_env s) "QUICK_RECONNECT" ["1"; "true"; "yes"; "on"; "0"; "false"; "no"; "off"]%string in
      (do answer := asking_if (negb set) in
       reading (fun env => if want_quick_reconnect env answer && tw_verify w i p then Some p else None)) s
  | None => (Ok None, s)
  end.

Definition temp_gateway (w : TempWorld) (i : Identity) (path : bytes) : Boot SocketAddr :=
  do cached := cached_gateway w i path in
  match cached with
  | Some p => boot_ret p
  | None =>
      do ask_mode := reading (fun env => negb (is_some (env (var "SCAN")))) in
      do answer := asking_if ask_mode in
      do mode_str := reading (fun env => select_scan_mode_str env answer) in
      do ask_ip := reading (fun env => negb (is_some (env (var "IP")))) in
      do answer := asking_if ask_ip in
      do ip := reading (fun env => select_ip_version env answer) in
      given (tw_hunt w i mode_str ip)
  end.

(** The registration through the proxy of the tunnel. *)
Definition registered_through (w : TempWorld) (listen : SocketAddr) : Flow Identity := fun h =>
  let h := set_override h (Some (str "socks5://" ++ sock_str listen)) in
  let '(registered, h) := provision_account (tw_fresh w) h in
  match registered with
  | Panic => (Panic, h)
  | OutOfFuel => (OutOfFuel, h)
  | _ => (registered, set_override h None)
  end.

Definition provision_warp_via_temp_masque (w : TempWorld) (base warp_path : bytes) : Boot Identity :=
  do masque_path := reading (fun env => masque_config_path env base) in
  do identity := on_state (load_or_provision_masque (tw_masque w) masque_path) in
  do peer := temp_gateway w identity (lastconn_path masque_path) in
  do listen := given (tw_listen w) in
  do _ := judging (fun env => resolve_ech env (tw_ech w)) in
  do up := given (wait_for_socks (tw_start w + 90000) (tw_polls w)) in
  if negb up then given (Err (Other (str "temporary masque tunnel never opened its proxy")))
  else
    do identity := on_state (registered_through w listen) in
    do identity := on_state (adopt_team_profile (tw_adopt w) identity) in
    do _ := on_state (save_flow (tw_disk w) warp_path identity) in
    boot_ret identity.

Definition provision_warp_with_tunnel_fallback (w : WarpWorld) (t : TempWorld) (base warp_path : bytes) : Boot Identity :=
  fun s =>
    match on_state (load_or_provision_warp w warp_path) s with
    | (Err _, s) => provision_warp_via_temp_masque t base warp_path s
    | done => done
    end.

(** ** TUIC *)

Record TuicSettings : Type := mkTuicSettings {
  tuic_server : bytes; tuic_uuid : bytes; tuic_password : bytes; tuic_sni : bytes; tuic_insecure : bool; tuic_cc : bytes }.
Definition tuic_settings (env : Env) : result TuicSettings :=
  let! server := ok_or (env (var "TUIC_SERVER")) (Other (str "TUIC needs a server address (--tuic host:port)")) in
  let! uuid := ok_or (env (var "TUIC_UUID")) (Other (str "TUIC needs SOILDTUNNEL_TUIC_UUID")) in
  let! password := ok_or (env (var "TUIC_PASSWORD")) (Other (str "TUIC needs SOILDTUNNEL_TUIC_PASSWORD")) in
  if is_empty (trim uuid) || is_empty (trim password)
  then Err (Other (str "TUIC uuid and password must not be empty"))
  else Ok (mkTuicSettings (trim server) uuid password (unwrap_or_default (env (var "TUIC_SNI")))
             (is_value env "TUIC_INSECURE" ["1"; "true"; "yes"; "on"]%string) (unwrap_or_default (env (var "TUIC_CC")))).

(** ** The programs *)

Inductive program : Type :=
| RunMasque (i : Identity) (ech : option bytes) (listen : SocketAddr) (lastconn : bytes) (inner : option bytes)
| RunTuic (settings : TuicSettings) (listen : SocketAddr)
| RunWireGuard (i : Identity) (listen : SocketAddr) (lastconn : bytes)
| RunGool (primary secondary : Identity) (listen : SocketAddr) (lastconn : bytes).

Record StartWorld : Type := mkStartWorld {
  sw_enrol : nat -> EnrolWorld; sw_masque : MasqueWorld; sw_ech : result bytes; sw_warp : WarpWorld;
  sw_temp : TempWorld; sw_second : WarpWorld; sw_temp2 : TempWorld }.

Definition DEFAULT_CONFIG : bytes := str "soildtunnel.toml".
Definition MIGRATE_HINT : bytes := str "soildtunnel-migrate.hint".
Definition socks_listen (env : Env) : SocketAddr :=
  default (sock_new (V4 [127; 0; 0; 1]) 1819) (let? s := env (var "SOCKS") in parse_socket_addr s).

Definition choose_masque_transport : Boot unit :=
  do ask_it := reading (fun env => negb (front_mode env) && negb (is_some (env (var "MASQUE_HTTP2")) || is_some (env (var "PEER")))) in
  do answer := asking_if ask_it in
  changing (fun env => select_masque_transport env answer).

(** A MASQUE tunnel, with the path of a carried identity for [inner]. *)
Definition start_masque_program (w : StartWorld) (base : bytes) (listen : SocketAddr) (carried : bool) : Boot program :=
  do _ := choose_masque_transport in
  do config_path := reading (fun env => masque_config_path env base) in
  do identity := on_state (load_or_provision_masque (sw_masque w) config_path) in
  do ech := judging (fun env => masque_ech env (sw_ech w)) in
  boot_ret (RunMasque identity ech listen (lastconn_path config_path)
              (if carried then Some (derive_sibling_path config_path (str "gool")) else None)).

Definition start_program (w : StartWorld) (base : bytes) (listen : SocketAddr) (p : Protocol) : Boot program :=
  match p with
  | ProtoMasque => start_masque_program w base listen false
  | ProtoTuic => fun s => (let! settings := tuic_settings (ss_env s) in Ok (RunTuic settings listen), s)
  | ProtoWireGuard =>
      do config_path := reading (fun env => warp_config_path env base) in
      do identity := on_state (load_or_provision_warp (sw_warp w) config_path) in
      boot_ret (RunWireGuard identity listen (lastconn_path config_path))
  | ProtoWarpInWarp =>
      do classic := reading gool_classic in
      if negb classic then start_masque_program w base listen true
      else
        do primary_path := reading (fun env => warp_config_path env base) in
        do primary := provision_warp_with_tunnel_fallback (sw_warp w) (sw_temp w) base primary_path in
        do secondary := provision_warp_with_tunnel_fallback (sw_second w) (sw_temp2 w) base
                          (derive_sibling_path primary_path (str "secondary")) in
        boot_ret (RunGool primary secondary listen (lastconn_path primary_path))
  end.

(** [run_with]: [None] when an option prints something and ends the process. *)
Definition run_with (usage : bytes) (args : list bytes) (w : StartWorld) (s : Sess) : option (result program * Sess) :=
  match parse_args usage args (ss_env s) with
  | Exited => None
  | CliFailed e env => Some (Err e, with_env s env)
  | Applied env =>
      let s := with_env s env in
      let s := mkSess (set_fs (ss_host s) (delete MIGRATE_HINT (h_fs (ss_host s)))) (ss_console s) in
      let listen := socks_listen env in
      let base := default DEFAULT_CONFIG (env (var "CONFIG")) in
      Some ((do p := startup_protocol (sw_enrol w) base in start_program w base listen p) s)
  end.
End Startup.

(** ** Lemmas on computations *)

Lemma boot_bind_Ok {A B} (m : Boot A) (k : A -> Boot B) s b s' :
  boot_bind m k s = (Ok b, s') -> exists a s1, m s = (Ok a, s1) /\ k a s1 = (Ok b, s').
Proof. unfold boot_bind. destruct (m s) as [[a|e| |] s1]; intros; simplify_eq; eauto. Qed.

(** Splits a hypothesis that a start-up ended well. *)
Ltac inv_boot :=
  repeat match goal with
  | Hb : boot_bind _ _ _ = (Ok _, _) |- _ =>
      let a := fresh "a" in let s := fresh "s" in let E := fresh "E" in
      apply boot_bind_Ok in Hb as (a & s & E & Hb)
  | Hb : boot_ret _ _ = (Ok _, _) |- _ => unfold boot_ret in Hb; simplify_eq
  | Hb : given _ _ = (Ok _, _) |- _ => unfold given in Hb; simplify_eq
  | Hb : reading _ _ = (Ok _, _) |- _ => unfold reading in Hb; simplify_eq
  | Hb : changing _ _ = (Ok _, _) |- _ => unfold changing in Hb; simplify_eq
  end.

Lemma on_state_Ok {A} (m : Flow A) s a s' :
  on_state m s = (Ok a, s') -> m (ss_host s) = (Ok a, ss_host s') /\ ss_console s' = ss_console s.
Proof. unfold on_state. destruct (m (ss_host s)) as [r h]. intros. by simplify_eq. Qed.

Lemma asking_host s a s' : asking s = (Ok a, s') -> ss_host s' = ss_host s.
Proof. unfold asking, ask. destruct (prompt_line _) as [l c]. intros. by simplify_eq. Qed.
Lemma asking_if_host b s a s' : asking_if b s = (Ok a, s') -> ss_host s' = ss_host s.
Proof. destruct b; [apply asking_host|]. unfold asking_if, boot_ret. intros. by simplify_eq. Qed.

Lemma set_var_eq env k v : set_var env k v k = Some v.
Proof. unfold set_var. by rewrite bool_decide_eq_true_2. Qed.
Lemma set_var_ne env k k' v : k' <> k -> set_var env k v k' = env k'.
Proof. intros. unfold set_var. by rewrite bool_decide_eq_false_2. Qed.
Lemma remove_var_eq env k : remove_var env k k = None.
Proof. unfold remove_var. by rewrite bool_decide_eq_true_2. Qed.
Lemma remove_var_ne env k k' : k' <> k -> remove_var env k k' = env k'.
Proof. intros. unfold remove_var. by rewrite bool_decide_eq_false_2. Qed.

Section Teams.
Context `{Target} `{UnicodeTables} `{ErrorText} `{SerdeJson} `{Base64} `{HttpText} `{AccountLib} `{Toml PersistedIdentity}.

Lemma no_team env : env TEAM = None -> team_scope env = None.
Proof. intros He. unfold team_scope, team_from_env. fold TEAM. by rewrite He. Qed.

Lemma set_team_scope env t t' : team_scope (set_var env TEAM t) = Some t' -> normalize_team t = Some t'.
Proof.
  unfold team_scope, team_from_env. fold TEAM. rewrite set_var_eq. cbn [unwrap_or_default].
  destruct (normalize_team t); [|done]. by intros [= ->].
Qed.

(** What stands behind the team of the environment. *)
Definition signed_in (w : EnrolWorld) (h : Host) (t : bytes) : Prop :=
  exists settings cache token, team settings = t /\
    resolve_token cache settings (el_now w) (el_later w) (el_access w) = (Ok token, h_token h).
Definition enrolled (w : EnrolWorld) (base t : bytes) : Prop :=
  exists k, k ∈ enrolled_teams base (el_entries w) /\ normalize_team k = Some t.

Lemma sign_in_team_scope w s s' : sign_in_team w s = (Ok tt, s') ->
  team_scope (ss_env s') = None \/ exists t, team_scope (ss_env s') = Some t /\ signed_in w (ss_host s') t.
Proof.
  unfold sign_in_team. destruct (team_from_env (ss_env s)) as [settings|] eqn:Et.
  - destruct (resolve_token _ _ _ _ _) as [r cache] eqn:Er. destruct r as [token|e| |]; intros; simplify_eq.
    + right. exists (team settings). unfold team_scope, ss_env. simpl. fold (ss_env s). rewrite Et. split; [done|].
      by exists settings, (h_token (ss_host s)), token.
    + left. apply no_team. unfold ss_env, with_env. simpl. by rewrite remove_var_ne, remove_var_eq.
  - intros. simplify_eq. left. apply no_team. apply remove_var_eq.
Qed.

Lemma removed_scope s s' : changing (fun env => remove_var env TEAM) s = (Ok tt, s') -> team_scope (ss_env s') = None.
Proof. unfold changing. intros. simplify_eq. apply no_team, remove_var_eq. Qed.

Lemma enrol_scope w base s s' : enrol_zero_trust w base s = (Ok tt, s') ->
  ss_host s' = ss_host s \/ team_scope (ss_env s') = None \/
  exists t, team_scope (ss_env s') = Some t /\ (enrolled w base t \/ signed_in w (ss_host s') t).
Proof.
  intros Hr. unfold enrol_zero_trust in Hr. inv_boot. apply asking_host in E.
  destruct (chosen_team _ _) as [t|]; [|inv_boot; left; exact E]. right. inv_boot.
  destruct (existsb _ _) eqn:Ek; inv_boot.
  - destruct (team_scope _) as [t'|] eqn:Et; [right|by left]. exists t'. split; [done|]. left.
    apply existsb_exists in Ek as (k & Hk & ->%bool_decide_eq_true). exists t. split; [by apply list_elem_of_In|].
    exact (set_team_scope (ss_env s0) t t' Et).
  - destruct (team_from_env _) as [settings|]; [|left; by eapply removed_scope].
    assert (forall s s', sign_in_team w s = (Ok tt, s') -> team_scope (ss_env s') = None \/
      exists t, team_scope (ss_env s') = Some t /\ (enrolled w base t \/ signed_in w (ss_host s') t)) as Hsign.
    { intros s2 s3 [Hn|(t' & Ht & Hs)]%sign_in_team_scope; eauto. }
    destruct (has_method settings); [by eapply Hsign|]. inv_boot.
    destruct (is_empty _); [left; by eapply removed_scope|]. inv_boot. by eapply Hsign.
Qed.

(** ** The menu ends *)

Lemma prompt_shorter c a c' : prompt_line c = (Some a, c') -> (length (co_lines c') < length (co_lines c))%nat.
Proof. unfold prompt_line. destruct (co_terminal c); [|done]. destruct (co_lines c) as [|l ls]; [done|]. intros [= _ <-]. cbn [co_lines length]. lia. Qed.
Lemma prompt_not_longer c : (length (co_lines (prompt_line c).2) <= length (co_lines c))%nat.
Proof. unfold prompt_line. destruct (co_terminal c); [|done]. destruct (co_lines c) eqn:El; simpl; rewrite ?El; simpl; lia. Qed.

Definition lines (s : Sess) : nat := length (co_lines (ss_console s)).
(** A computation that ends, and asks no more than the lines it takes. *)
Definition ending {A : Type} (m : Boot A) : Prop := forall s, returns (m s).1 /\ (lines (m s).2 <= lines s)%nat.

Lemma ending_bind {A B} (m : Boot A) (k : A -> Boot B) : ending m -> (forall a, ending (k a)) -> ending (boot_bind m k).
Proof.
  intros Hm Hk s. destruct (Hm s) as [Hn Hl]. unfold boot_bind. destruct (m s) as [[a|e| |] s1]; try done.
  simpl in Hl. destruct (Hk a s1) as [Hn' Hl']. split; [done|lia].
Qed.
Lemma ending_asking : ending asking.
Proof.
  intros s. unfold asking, ask, lines. pose proof (prompt_not_longer (ss_console s)). destruct (prompt_line _). split; [done|]. simpl in *. lia.
Qed.

Lemma begin_returns settings email client get post : returns (begin_email_signin settings email client get post).
Proof.
  unfold begin_email_signin. destruct (is_empty _); [done|]. destruct client; [done|].
  apply returns_bind; [by destruct get|]. intros landing _. apply returns_bind; [unfold text_of; by destruct (pg_body _)|].
  intros body _. apply returns_bind; [apply returns_ok_or|]. intros url _. apply returns_bind.
  - unfold request_email_code. apply returns_bind; [by destruct (post url)|]. intros sent _. by destruct (negb _).
  - intros nonce _. apply returns_bind; [apply returns_ok_or|]. done.
Qed.
Lemma code_loop_returns more : forall attempt session prompt posts last,
  (forall n, returns (prompt n)) -> returns (code_loop more attempt session prompt posts last).
Proof.
  induction more as [|more IH]; intros attempt session prompt posts last Hp; [done|]. cbn [code_loop].
  apply returns_bind; [apply Hp|]. intros code _. apply returns_bind; [|by intros [token|status] _; [|apply IH]].
  unfold submit_code. destruct (is_empty _); [done|]. apply returns_bind; [by destruct (posts _ _ _)|].
  intros page _. apply returns_bind; [unfold text_of; by destruct (pg_body _)|]. done.
Qed.
Lemma sign_in_returns settings now a : returns (sign_in settings now a).
Proof.
  unfold sign_in. destruct (ts_token settings); [destruct (negb _); [done|]; by destruct (jwt_expired _ _)|].
  destruct (has_service_token settings).
  - unfold fetch_token_with_service_token. apply returns_bind; [apply returns_ok_or|]. intros i _.
    apply returns_bind; [apply returns_ok_or|]. intros k _. destruct (ac_client a); [done|].
    apply returns_bind; [by destruct (ac_service a i k)|]. intros page _.
    destruct (jwt_of_cookies _); [done|]. by destruct (extract_jwt_from_html _).
  - destruct (ts_email settings); [|done]. unfold fetch_token_with_email_code. apply returns_bind; [apply begin_returns|].
    intros session _. apply code_loop_returns. intros n. unfold prompt_login_code. destruct (ac_typed a n); [|done..].
    by destruct (is_empty _).
Qed.
Lemma token_resolve_returns cache settings now later a : returns (resolve_token cache settings now later a).1.
Proof.
  pose proof (sign_in_returns settings later a). unfold resolve_token.
  destruct cache as [c|]; [destruct (negb _); [done|]|]; by destruct (sign_in settings later a).
Qed.

Lemma ending_sign_in w : ending (sign_in_team w).
Proof.
  intros s. unfold sign_in_team. destruct (team_from_env _) as [settings|]; [|done].
  pose proof (token_resolve_returns (h_token (ss_host s)) settings (el_now w) (el_later w) (el_access w)) as Hw.
  by destruct (resolve_token _ _ _ _ _) as [[] cache].
Qed.
Lemma ending_enrol w base : ending (enrol_zero_trust w base).
Proof.
  unfold enrol_zero_trust. apply ending_bind; [apply ending_asking|]. intros a.
  destruct (chosen_team _ _) as [t|]; [|done]. apply ending_bind; [done|]. intros _. destruct (existsb _ _); [done|].
  apply ending_bind; [done|]. intros [settings|]; [|done]. destruct (has_method settings); [apply ending_sign_in|].
  apply ending_bind; [apply ending_asking|]. intros e. destruct (is_empty _); [done|].
  apply ending_bind; [done|]. intros _. apply ending_sign_in.
Qed.

Lemma menu_ends fuel : forall n w base s, (lines s < fuel)%nat ->
  returns (protocol_menu fuel n w base s).1.
Proof.
  induction fuel as [|fuel IH]; intros n w base s Hl; [lia|]. cbn [protocol_menu]. unfold boot_bind at 1, asking, ask.
  destruct (prompt_line (ss_console s)) as [[a|] c] eqn:Ep; [|done]. apply prompt_shorter in Ep. fold (lines s) in Ep.
  assert (returns (boot_bind (enrol_zero_trust (w n) base) (fun _ => protocol_menu fuel (S n) w base)
    (mkSess (ss_host s) c)).1) as Hagain.
  { unfold boot_bind. destruct (ending_enrol (w n) base (mkSess (ss_host s) c)) as [Hn Hs].
    destruct (enrol_zero_trust _ _ _) as [[u|e| |] s1]; try done. apply IH. simpl in Hs. unfold lines in *. simpl in *. lia. }
  repeat match goal with |- context [match ?x with _ => _ end] => is_var x; destruct x; try done end.
Qed.
End Teams.

(** ** The proxy override *)

Section Override.
Context `{Target} `{UnicodeTables} `{ErrorText} `{SerdeJson} `{Base64} `{HttpText} `{AccountLib} `{Toml PersistedIdentity}.
Context `{Toml LastConnection}.

(** Flows that leave the override of the upstream proxy alone. *)
Definition keeps_override {A : Type} (m : Flow A) : Prop := forall h, h_override (m h).2 = h_override h.

Lemma ko_bind {A B} (m : Flow A) (k : A -> Flow B) :
  keeps_override m -> (forall a, keeps_override (k a)) -> keeps_override (flow_bind m k).
Proof.
  intros Hm Hk h. specialize (Hm h). unfold flow_bind. destruct (m h) as [[a|e| |] h1]; try done.
  rewrite Hk. exact Hm.
Qed.
Lemma ko_ret {A} (r : result A) : keeps_override (flow_ret r).
Proof. done. Qed.
Lemma ko_load d path : keeps_override (load_flow d path).
Proof. intros h. unfold load_flow. by destruct (config_load _ _ _ _). Qed.
Lemma ko_save d path i : keeps_override (save_flow d path i).
Proof. intros h. unfold save_flow. by destruct (config_save _ _ _ _ _). Qed.
Lemma ko_adopt api i : keeps_override (adopt_team_profile api i).
Proof.
  intros h. unfold adopt_team_profile. destruct (team_scope _); [|done]. revert h. apply ko_bind; [apply ko_ret|].
  intros j h. repeat match goal with |- context [if ?b then _ else _] => destruct b end; simpl; try done;
    by destruct (parse_socket_addr _).
Qed.
Lemma ko_provision f : keeps_override (provision_account f).
Proof.
  intros h. unfold provision_account. destruct (team_from_env _) as [settings|]; [|done]. revert h.
  apply ko_bind; [|intros; apply ko_ret]. intros h. unfold provision_team. by destruct (resolve_token _ _ _ _ _).
Qed.
Create HintDb override.
#[local] Hint Resolve ko_bind ko_ret ko_load ko_save ko_adopt ko_provision : override.

Lemma ko_if {A} (b : Host -> bool) (m m' : Flow A) :
  keeps_override m -> keeps_override m' -> keeps_override (fun h => if b h then m h else m' h).
Proof. intros Hm Hm' h. by destruct (b h). Qed.
#[local] Hint Resolve ko_if : override.

Lemma ko_new_masque w path : keeps_override (new_masque_identity w path).
Proof. unfold new_masque_identity. auto 10 with override. Qed.
#[local] Hint Resolve ko_new_masque : override.

Lemma ko_saved_masque w path i : keeps_override (saved_masque_identity w path i).
Proof.
  unfold saved_masque_identity. destruct (has_masque_credentials _ _).
  - apply ko_bind; [auto with override|]. intros j. destruct (negb _); auto with override.
  - intros h. destruct (ensure_masque_enrolled _ _ _ _ _) as [e|[]| |]; try done.
    revert h. apply ko_bind; [apply ko_save|intros; apply ko_ret].
Qed.

Lemma ko_masque w path : keeps_override (load_or_provision_masque w path).
Proof.
  unfold load_or_provision_masque. apply ko_bind; [auto with override|]. intros [i|]; [|auto with override].
  apply ko_bind; [apply ko_saved_masque|]. intros [j|j]; [apply ko_ret|]. apply (ko_if (fun h => _)); [apply ko_ret|auto with override].
Qed.

(** Steps of a start-up that end with the override as it was, or cleared. *)
Definition clears {A : Type} (m : Boot A) : Prop := forall s,
  (m s).1 <> Panic -> (m s).1 <> OutOfFuel ->
  h_override (ss_host (m s).2) = h_override (ss_host s) \/ h_override (ss_host (m s).2) = None.

Lemma clears_bind {A B} (m : Boot A) (k : A -> Boot B) : clears m -> (forall a, clears (k a)) -> clears (boot_bind m k).
Proof.
  intros Hm Hk s. specialize (Hm s). unfold boot_bind. destruct (m s) as [[a|e| |] s1]; try done.
  - intros Hp Ho. specialize (Hk a s1 Hp Ho). destruct (Hm ltac:(done) ltac:(done)) as [Hs|Hs]; simpl in Hs; rewrite Hs in Hk; tauto.
  - intros _ _. by apply Hm.
Qed.
Lemma clears_state {A} (m : Flow A) : keeps_override m -> clears (on_state m).
Proof. intros Hm s _ _. specialize (Hm (ss_host s)). unfold on_state. destruct (m (ss_host s)). by left. Qed.
Lemma clears_given {A} (r : result A) : clears (given r).
Proof. intros s _ _. by left. Qed.
Lemma clears_asking b : clears (asking_if b).
Proof. intros s _ _. left. destruct b; [|done]. unfold asking_if, asking, ask. by destruct (prompt_line _). Qed.
Lemma clears_reading {A} (f : Env -> A) : clears (reading f).
Proof. intros s _ _. by left. Qed.

Lemma clears_temp_gateway w i path : clears (temp_gateway w i path).
Proof.
  unfold temp_gateway. apply clears_bind.
  - intros s. unfold cached_gateway. destruct (opt_bind _ _) as [p|]; [|by left].
    generalize (negb (is_value (ss_env s) "QUICK_RECONNECT" ["1"; "true"; "yes"; "on"; "0"; "false"; "no"; "off"]%string)).
    intros b. revert s. apply clears_bind; [apply clears_asking|]. intros a. apply clears_reading.
  - intros [p|]; [intros s _ _; by left|]. repeat (apply clears_bind; [apply clears_reading || apply clears_asking|]; intros).
    apply clears_given.
Qed.

Lemma clears_registered w listen : clears (on_state (registered_through w listen)).
Proof.
  intros s Hp Ho. unfold on_state, registered_through in *. destruct (provision_account _ _) as [[] h]; try done; by right.
Qed.

Lemma temp_tunnel_clears w base path : clears (provision_warp_via_temp_masque w base path).
Proof.
  unfold provision_warp_via_temp_masque. apply clears_bind; [apply clears_reading|]. intros mp.
  apply clears_bind; [apply clears_state, ko_masque|]. intros i. apply clears_bind; [apply clears_temp_gateway|]. intros p.
  apply clears_bind; [apply clears_given|]. intros listen. apply clears_bind; [intros s _ _; by left|]. intros ech.
  apply clears_bind; [apply clears_given|]. intros up. destruct (negb up); [apply clears_given|].
  apply clears_bind; [apply clears_registered|]. intros j. apply clears_bind; [apply clears_state, ko_adopt|]. intros k.
  apply clears_bind; [apply clears_state, ko_save|]. intros []. intros s _ _. by left.
Qed.
End Override.

(** ** What a start gives *)

Section Programs.
Context `{Target} `{UnicodeTables} `{ErrorText} `{SerdeJson} `{Base64} `{HttpText} `{AccountLib} `{Toml PersistedIdentity}.
Context `{Toml LastConnection} `{!Base64Laws} `{!TomlLaws PersistedIdentity}.

Definition fresh_ok (f : Fresh) : Prop := length (fr_seed f) = 32%nat.
Record world_ok (w : StartWorld) : Prop := mkWorldOk {
  wo_masque : disk_ok (mw_disk (sw_masque w)) /\ fresh_ok (mw_fresh (sw_masque w));
  wo_warp : disk_ok (ww_disk (sw_warp w)) /\ fresh_ok (ww_fresh (sw_warp w));
  wo_second : disk_ok (ww_disk (sw_second w)) /\ fresh_ok (ww_fresh (sw_second w));
  wo_temp : disk_ok (tw_disk (sw_temp w)) /\ fresh_ok (tw_fresh (sw_temp w));
  wo_temp2 : disk_ok (tw_disk (sw_temp2 w)) /\ fresh_ok (tw_fresh (sw_temp2 w)) }.

(** The next start loads the identity from the file, unless the service refused
    it and replacing refused identities is switched off. *)
Definition kept (s : Sess) (path : bytes) (i : Identity) : Prop :=
  (identity_ok i -> on_disk (h_fs (ss_host s)) path i) \/ (refused i = true /\ keep_saved_identity (ss_env s) = false).

Definition program_sound (listen : SocketAddr) (s : Sess) (p : program) : Prop :=
  match p with
  | RunMasque i ech l lastconn inner => l = listen /\ exists path, lastconn = lastconn_path path /\ lengths_ok i /\ kept s path i /\
      (front_mode (ss_env s) || H2Tunnel.enabled (ss_env s) = true -> ech = None) /\
      (inner = None \/ inner = Some (derive_sibling_path path (str "gool")))
  | RunTuic settings l => l = listen /\ trim (tuic_uuid settings) <> [] /\ trim (tuic_password settings) <> []
  | RunWireGuard i l lastconn => l = listen /\ exists path, lastconn = lastconn_path path /\ lengths_ok i /\ kept s path i
  | RunGool a b l lastconn => l = listen /\ exists path, lastconn = lastconn_path path /\ lengths_ok a /\ lengths_ok b /\
      kept s (derive_sibling_path path (str "secondary")) b
  end.

(** The program of each protocol. *)
Definition fits (proto : Protocol) (classic : bool) (p : program) : Prop :=
  match proto, p with
  | ProtoMasque, RunMasque _ _ _ _ None | ProtoTuic, RunTuic _ _ | ProtoWireGuard, RunWireGuard _ _ _ => True
  | ProtoWarpInWarp, RunMasque _ _ _ _ (Some _) => classic = false
  | ProtoWarpInWarp, RunGool _ _ _ _ => classic = true
  | _, _ => False
  end.

Lemma temp_identity_ok t base path s i s' :
  disk_ok (tw_disk t) -> fresh_ok (tw_fresh t) -> provision_warp_via_temp_masque t base path s = (Ok i, s') ->
  lengths_ok i /\ (identity_ok i -> on_disk (h_fs (ss_host s')) path i).
Proof.
  intros Hd Hf Hp. unfold provision_warp_via_temp_masque in Hp. inv_boot. destruct (negb _); [done|]. inv_boot.
  match goal with Hr : on_state (registered_through t _) _ = (Ok ?j, _) |- _ => rename Hr into Er end.
  match goal with Hr : on_state (adopt_team_profile _ _) _ = _ |- _ => rename Hr into Ea end.
  match goal with Hr : on_state (save_flow _ _ _) _ = _ |- _ => rename Hr into Es end.
  apply on_state_Ok in Er as [Er _]. apply on_state_Ok in Ea as [Ea _]. apply on_state_Ok in Es as [Es _].
  unfold registered_through in Er. destruct (provision_account _ _) as [r h] eqn:Ep.
  destruct r; try done. injection Er as -> _. apply provision_ok in Ep as (Hl & _); [|done].
  apply adopt_ok in Ea as (Hl' & _); [|done].
  match goal with Hs : save_flow _ _ _ _ = (Ok ?u, _) |- _ => destruct u end. by apply save_flow_ok in Es as [_ Ho].
Qed.

Lemma fallback_ok w t base path s i s' :
  disk_ok (ww_disk w) -> fresh_ok (ww_fresh w) -> disk_ok (tw_disk t) -> fresh_ok (tw_fresh t) ->
  provision_warp_with_tunnel_fallback w t base path s = (Ok i, s') -> lengths_ok i /\ kept s' path i.
Proof.
  intros Hd Hf Hd' Hf' Hp. unfold provision_warp_with_tunnel_fallback in Hp.
  destruct (on_state (load_or_provision_warp w path) s) as [[j|e| |] s1] eqn:E; try done.
  - injection Hp as -> ->. apply on_state_Ok in E as [E _]. apply warp_ok in E as (Hl & Hk & _); [|done..]. by split.
  - apply temp_identity_ok in Hp as [Hl Ho]; [|done..]. split; [done|]. by left.
Qed.

Lemma masque_program_ok w base listen carried s p s' :
  world_ok w -> start_masque_program w base listen carried s = (Ok p, s') ->
  program_sound listen s' p /\ fits (if carried then ProtoWarpInWarp else ProtoMasque) false p.
Proof.
  intros [[Hd Hf] _ _ _ _] Hp. unfold start_masque_program in Hp. inv_boot.
  match goal with He : judging _ _ = _ |- _ => unfold judging in He; injection He as He <-; rename He into Ee end.
  match goal with He : on_state (load_or_provision_masque _ _) _ = _ |- _ => apply on_state_Ok in He as [He _]; rename He into Em end.
  apply masque_ok in Em as [Hl Hk]; [|done..]. split; [|by destruct carried]. split; [done|]. eexists. split; [done|].
  split; [done|]. split; [exact Hk|]. split.
  - intros Hfr. unfold masque_ech in Ee. rewrite Hfr in Ee. congruence.
  - destruct carried; auto.
Qed.

Lemma tuic_settings_ok env settings :
  tuic_settings env = Ok settings -> trim (tuic_uuid settings) <> [] /\ trim (tuic_password settings) <> [].
Proof.
  unfold tuic_settings. intros Ht. apply obind_Ok in Ht as (server & _ & Ht). apply obind_Ok in Ht as (uuid & _ & Ht).
  apply obind_Ok in Ht as (password & _ & Ht).
  destruct (is_empty (trim uuid)) eqn:Eu; [done|]. destruct (is_empty (trim password)) eqn:Ep; [done|].
  injection Ht as <-. simpl. by split; [destruct (trim uuid)|destruct (trim password)].
Qed.

Lemma start_program_ok w base listen proto s p s' :
  world_ok w -> start_program w base listen proto s = (Ok p, s') ->
  program_sound listen s' p /\ fits proto (gool_classic (ss_env s)) p.
Proof.
  intros Hw Hp. destruct proto; cbn [start_program] in Hp.
  - apply masque_program_ok in Hp as [Hs Hf]; [|done]. split; [done|]. by destruct p as [? ? ? ? []| | |].
  - inv_boot. match goal with He : on_state _ _ = _ |- _ => apply on_state_Ok in He as [He _]; rename He into Em end.
    destruct Hw as [_ [Hd Hf] _ _ _]. apply warp_ok in Em as (Hl & Hk & _); [|done..]. split; [|done]. split; [done|].
    eexists. by split.
  - unfold boot_bind at 1, reading at 1 in Hp. cbn beta iota in Hp. destruct (gool_classic (ss_env s)) eqn:Eg; simpl in Hp.
    + inv_boot. destruct Hw as [_ [Hd Hf] [Hd2 Hf2] [Hd3 Hf3] [Hd4 Hf4]].
      match goal with H1 : provision_warp_with_tunnel_fallback (sw_warp w) _ _ _ _ = _ |- _ => apply fallback_ok in H1 as [Hl _]; [|done..] end.
      match goal with H1 : provision_warp_with_tunnel_fallback (sw_second w) _ _ _ _ = _ |- _ => apply fallback_ok in H1 as [Hl2 Hk]; [|done..] end.
      split; [|done]. split; [done|]. eexists. by split.
    + apply masque_program_ok in Hp as [Hs Hf]; [|done]. split; [done|]. by destruct p as [? ? ? ? []| | |].
  - destruct (tuic_settings (ss_env s)) as [settings|e| |] eqn:Et; simpl in Hp; try done. injection Hp as <- <-.
    split; [|done]. split; [done|]. by eapply tuic_settings_ok.
Qed.
End Programs.

(** ** The promises of a start *)

Section Promises.
Context `{Target} `{UnicodeTables} `{ErrorText} `{SerdeJson} `{Base64} `{HttpText} `{AccountLib} `{Toml PersistedIdentity}.
Context `{Toml LastConnection}.

Lemma startup_protocol_set w base s v :
  ss_env s (var "PROTOCOL") = Some v -> startup_protocol w base s = (Ok (Protocol_parse v), s).
Proof. intros Hv. unfold startup_protocol, select_protocol. rewrite Hv. by destruct (_ || _). Qed.

(** C16: A start runs what it was asked for, with what is on disk.  When
    [run_with] gets as far as a program, the options were valid; a protocol
    named by an option or the environment decides the program; it listens where
    the settings say; its identity has keys of the right lengths and is the one
    the next start loads from the file beside which the last endpoint is
    remembered (the inner one for a pair), unless the service refused it and
    replacing is switched off; a fronted or HTTP/2 tunnel has no ECH
    configuration; and TUIC has credentials. *)
Theorem startup_program_sound `{!Base64Laws} `{!TomlLaws PersistedIdentity} usage args w s p s' :
  world_ok w -> run_with usage args w s = Some (Ok p, s') ->
  exists env, parse_args usage args (ss_env s) = Applied env /\
    program_sound (socks_listen env) s' p /\
    forall v, env (var "PROTOCOL") = Some v -> fits (Protocol_parse v) (gool_classic env) p.
Proof.
  intros Hw Hr. unfold run_with in Hr. destruct (parse_args usage args (ss_env s)) as [env| |]; try done.
  exists env. split; [done|]. injection Hr as Hr. set (s0 := mkSess _ _) in Hr.
  assert (ss_env s0 = env) as He by done. apply boot_bind_Ok in Hr as (proto & s1 & Hp & Hr).
  apply start_program_ok in Hr as [Hs Hf]; [|done]. split; [done|]. intros v Hv. rewrite <- He in Hv.
  rewrite (startup_protocol_set _ _ _ _ Hv) in Hp. injection Hp as <- <-. by rewrite He in Hf.
Qed.

(** The team of the environment after some rounds of the menu. *)
Definition scope_backed (w : nat -> EnrolWorld) (base : bytes) (h0 : Host) (h : Host) : Prop :=
  h = h0 \/ team_scope (h_env h) = None \/
  exists n t, team_scope (h_env h) = Some t /\ (enrolled (w n) base t \/ signed_in (w n) h t).

Lemma menu_scope fuel : forall n w base h0 s p s', scope_backed w base h0 (ss_host s) ->
  protocol_menu fuel n w base s = (Ok p, s') -> scope_backed w base h0 (ss_host s').
Proof.
  induction fuel as [|fuel IH]; intros n w base h0 s p s' Hs Hp; [done|]. cbn [protocol_menu] in Hp.
  apply boot_bind_Ok in Hp as (a & s1 & Ha & Hp). apply asking_host in Ha. rewrite <- Ha in Hs.
  assert (forall u, boot_ret u s1 = (Ok p, s') -> scope_backed w base h0 (ss_host s')) as Hret.
  { intros u Hu. unfold boot_ret in Hu. injection Hu as _ <-. exact Hs. }
  repeat match type of Hp with context [match ?x with _ => _ end] => is_var x; destruct x; try (by eapply Hret) end.
  apply boot_bind_Ok in Hp as ([] & s2 & He & Hp). eapply IH; [|exact Hp].
  apply enrol_scope in He as [He|[He|(t & Ht & Hb)]]; [by rewrite He|by right; left|].
  right. right. by exists n, t.
Qed.

(** A team the menu leaves set is backed.  However the questions are
    answered, after the choice of a protocol either nothing about the process
    has changed, or no organization is set, or the one that is set has a saved
    enrolment, or the session has a token that the sign-in gave for it. *)
Theorem menu_team_backed w base s p s' :
  startup_protocol w base s = (Ok p, s') -> scope_backed w base (ss_host s) (ss_host s').
Proof.
  unfold startup_protocol, select_protocol. intros Hp.
  destruct (_ || _); [injection Hp as _ <-; by left|]. destruct (ss_env s _); [injection Hp as _ <-; by left|].
  eapply menu_scope; [|exact Hp]. by left.
Qed.

(** The choice of a protocol ends.  Each round of the menu takes a line of
    the terminal and without one the default is taken, so that the choice is made
    after at most as many rounds as there are lines; every sign-in ends too,
    with its token or an error. *)
Theorem protocol_choice_ends w base s : returns (startup_protocol w base s).1.
Proof.
  unfold startup_protocol, select_protocol. destruct (_ || _); [by destruct (ss_env s _)|].
  destruct (ss_env s _); [done|]. apply menu_ends. unfold lines. lia.
Qed.

(** The temporary tunnel leaves no detour behind.  However the provisioning
    of a WireGuard identity through it ends, short of a panic, the override of
    the upstream proxy is the one from before or none; and when it gives an
    identity, that identity is in its file. *)
Theorem temp_tunnel_cleans_up `{!Base64Laws} `{!TomlLaws PersistedIdentity} w base path s :
  disk_ok (tw_disk w) -> fresh_ok (tw_fresh w) ->
  let '(r, s') := provision_warp_via_temp_masque w base path s in
  (r <> Panic -> r <> OutOfFuel -> h_override (ss_host s') = h_override (ss_host s) \/ h_override (ss_host s') = None) /\
  forall i, r = Ok i -> lengths_ok i /\ (identity_ok i -> on_disk (h_fs (ss_host s')) path i).
Proof.
  intros Hd Hf. pose proof (temp_tunnel_clears w base path s) as Hc.
  destruct (provision_warp_via_temp_masque w base path s) as [r s'] eqn:E. split; [exact Hc|].
  intros i ->. by eapply temp_identity_ok.
Qed.

(** ** The token of another organization *)

(** While the session holds a token that has not expired, any organization is
    taken as signed in to, without asking it. *)
Theorem other_team_token_reused w s cached settings :
  h_token (ss_host s) = Some cached -> jwt_expired cached (el_now w) = false -> team_from_env (ss_env s) = Some settings ->
  sign_in_team w s = (Ok tt, s).
Proof.
  intros Hc He Ht. unfold sign_in_team, resolve_token. rewrite Ht, Hc, He. simpl. rewrite <- Hc. by destruct s as [[] c].
Qed.

(** ** The port of an assigned endpoint *)

(** A pair over MASQUE is asked for with the protocol [gool], for which the port
    of the organization's endpoint is WireGuard's; and a protocol spelled out is
    taken for MASQUE there. *)
Lemma team_port_mismatch :
  (let env := set_var no_env (var "PROTOCOL") (str "gool") in gool_classic env = false /\ team_port env = 2408) /\
  (let env := set_var no_env (var "PROTOCOL") (str "wireguard") in
   @Protocol_parse no_unicode (str "wireguard") = ProtoWireGuard /\ team_port env = 443).
Proof. by vm_compute. Qed.
End Promises.

(** ** A start, evaluated *)

Definition demo_sess : Sess :=
  mkSess (set_env demo_host (set_var no_env (var "CONFIG") (str "s.toml"))) (mkConsole true [Some (str "4"); Some (str " "); Some (str "2")]).
Definition demo_enrol : EnrolWorld := mkEnrol None 0 0 no_access.
Definition demo_proxy : SocketAddr := sock_new (V4 [127; 0; 0; 1]) 1080.
Definition demo_temp : TempWorld :=
  mkTemp (demo_masque 401 0) None (fun _ _ => true) (fun _ _ _ => Ok demo_proxy) (Ok demo_proxy) (Err NoCleanEndpoint) 0
    [(0, false); (200, true)] (demo_fresh 503) (demo_world 503) demo_disk.
Definition demo_start_world : StartWorld :=
  mkStartWorld (fun _ => demo_enrol) (demo_masque 401 0) (Err NoCleanEndpoint) demo_warp demo_temp demo_warp demo_temp.
Definition no_lastconn_file : Toml LastConnection := {| to_toml _ := inr []; from_toml _ := inr [] |}.

Definition demo_listen : SocketAddr := sock_new (V4 [127; 0; 0; 1]) 1819.

Lemma startup_program_sound_witness :
  exists s', @program_sound no_unicode no_error_text demo_base64 demo_codec demo_listen s'
    (RunWireGuard demo_identity demo_listen (str "s-lastconn.toml")).
Proof.
  destruct (@run_with target64 no_unicode no_error_text demo_json demo_base64 demo_http demo_account_lib demo_codec
    no_lastconn_file [] [str "--wg"] demo_start_world demo_sess) as [[r s']|] eqn:E; [|discriminate].
  assert (r = Ok (RunWireGuard demo_identity demo_listen (str "s-lastconn.toml"))) as ->.
  { apply (f_equal (option_map fst)) in E. vm_compute in E. injection E as <-. reflexivity. }
  exists s'. destruct (@startup_program_sound target64 no_unicode no_error_text demo_json demo_base64 demo_http demo_account_lib
    demo_codec no_lastconn_file demo_base64_laws (demo_toml_laws _) [] [str "--wg"] demo_start_world demo_sess _ _
    ltac:(repeat split; simpl; lia) E) as (env & Henv & Hs & _).
  vm_compute in Henv. injection Henv as <-. exact Hs.
Defined.

Lemma menu_team_backed_witness :
  exists s', @scope_backed no_unicode demo_json demo_base64 demo_http (fun _ => demo_enrol) (str "s.toml") (ss_host demo_sess) (ss_host s').
Proof.
  destruct (@startup_protocol no_unicode demo_json demo_base64 demo_http (fun _ => demo_enrol) (str "s.toml") demo_sess) as [r s'] eqn:E.
  assert (r = Ok ProtoWireGuard) as ->.
  { apply (f_equal fst) in E. vm_compute in E. exact (eq_sym E). }
  exists s'. exact (menu_team_backed _ _ _ _ _ E).
Defined.

Lemma temp_tunnel_cleans_up_witness :
  exists s', h_override (ss_host s') = None.
Proof.
  pose proof (@temp_tunnel_cleans_up target64 no_unicode no_error_text demo_json demo_base64 demo_http demo_account_lib
    demo_codec no_lastconn_file demo_base64_laws (demo_toml_laws _) demo_temp (str "s.toml") (str "s.toml") demo_sess
    ltac:(split; simpl; lia) ltac:(reflexivity)) as Ht.
  destruct (provision_warp_via_temp_masque _ _ _ _) as [r s'] eqn:E. exists s'. destruct Ht as [Ho _].
  assert (r <> Panic /\ r <> OutOfFuel) as [Hp Hf].
  { apply (f_equal fst) in E. vm_compute in E. subst r. split; discriminate. }
  destruct (Ho Hp Hf) as [H|H]; exact H.
Defined.
