(* ===== verification/TlsSetup.v ===== *)
(** * TLS: whom the engine connects to

    Models tls.rs, the TLS half of masque_h2.rs (build_tls, build_connect_request
    and the steps of a check up to the request, verify_h2_shallow), tuic_config of
    outbound.rs and the configurations lib.rs and prober.rs fill in.

    boring and quiche are the class [Boring]: parsing of certificates and keys,
    the digest, the verification of a chain and of a name, and which settings
    the library refuses.  [accepts] is what the library documents of the three
    kinds of verification the code installs. *)

From Stdlib Require Import ZArith Lia ZifyBool String List.
From stdpp Require Import base list numbers option decidable.
From S2P Require Import Prelude RustStr NetAddr Errors Octets Masque H2Tunnel WebLib Account Provision Prober Settings Startup.
Open Scope Z_scope.

(** ** What the library is asked for *)

Definition TLS1_2 : Z := 771.
Definition TLS1_3 : Z := 772.

Inductive Alert : Type := BAD_CERTIFICATE | INTERNAL_ERROR | CERTIFICATE_UNKNOWN.

Class Boring : Type := {
  Cert : Type;
  Key : Type;
  x509_from_pem : bytes -> Cert + bytes;
  stack_from_pem : bytes -> list Cert + bytes;
  key_from_pem : bytes -> Key + bytes;
  public_key_der : Cert -> option bytes;         (* the public key in DER; [None] on an error *)
  sha256 : bytes -> bytes;
  add_cert_ok : Cert -> bool;                    (* [X509StoreBuilder::add_cert] *)
  chain_verifies : list Cert -> list Cert -> bool;   (* by the roots of a store *)
  host_matches : bytes -> Cert -> bool }.

Section Tls.
Context `{Boring}.

(** How the peer's certificate is judged. *)
Inductive Verify : Type :=
| VerifyNone
| VerifyPins (pins : list bytes)
| VerifyStore (roots : list Cert).

Record Ctx : Type := mkCtx {
  cx_min : Z; cx_max : Z; cx_grease : bool; cx_groups : bytes; cx_alpn : bytes;
  cx_cert : option Cert; cx_key : option Key; cx_verify : Verify }.

(** The calls that may fail; [refuses] gives the library's error. *)
Inductive setting : Type :=
| NewBuilder | MinProto (v : Z) | MaxProto (v : Z) | Curves (groups : bytes) | Alpn (wire : bytes)
| UseCert (c : Cert) | UseKey (k : Key) | NewStore | CertStore | Configure.

Context (refuses : setting -> option bytes).

Definition try_set {A : Type} (x : setting) (a : A) : result A :=
  match refuses x with Some e => Err (Tls e) | None => Ok a end.
Definition tls_ok {A : Type} (r : A + bytes) : result A := match r with inl a => Ok a | inr e => Err (Tls e) end.

Definition with_verify (c : Ctx) (v : Verify) : Ctx :=
  mkCtx (cx_min c) (cx_max c) (cx_grease c) (cx_groups c) (cx_alpn c) (cx_cert c) (cx_key c) v.

(** ** Verification *)

Definition spki_sha256 (cert : Cert) : option bytes := option_map sha256 (public_key_der cert).

(** The callback of the pinned path, on what the peer presented. *)
Definition pin_callback (pins : list bytes) (presented : list Cert) : outcome Alert unit :=
  match presented with
  | [] => Err BAD_CERTIFICATE
  | leaf :: _ =>
      match spki_sha256 leaf with
      | None => Err INTERNAL_ERROR
      | Some hash => if existsb (fun pin => bool_decide (pin = hash)) pins then Ok tt else Err CERTIFICATE_UNKNOWN
      end
  end.

Definition install_verification (c : Ctx) (pin_endpoint : bool) (expected_pins : list bytes) : Ctx :=
  if pin_endpoint && negb (bool_decide (expected_pins = [])) then with_verify c (VerifyPins expected_pins)
  else with_verify c VerifyNone.

(** The files of roots: the entries of Android's directory, with whether each
    is a file and its contents, and the two bundles; [None] when unreadable. *)
Record RootFiles : Type := mkRoots { rf_dir : option (list (bool * option bytes)); rf_bundles : list (option bytes) }.

Definition add_pem (pem : bytes) (roots : list Cert) : list Cert :=
  match stack_from_pem pem with inl certs => roots ++ List.filter add_cert_ok certs | inr _ => roots end.
Definition add_file (contents : option bytes) (roots : list Cert) : list Cert :=
  match contents with Some pem => add_pem pem roots | None => roots end.
Definition system_roots (w : RootFiles) : list Cert :=
  let from_dir := foldl (fun roots e => if negb e.1 then roots else add_file e.2 roots) [] (default [] (rf_dir w)) in
  foldl (fun roots b => add_file b roots) from_dir (rf_bundles w).

Definition web_pki (r : result Ctx) : result Ctx :=
  map_err (fun e => match e with Tls m => Tls (str "web pki store: " ++ m) | e => e end) r.
Definition install_webpki_verification (w : RootFiles) (c : Ctx) : result Ctx :=
  let! c := web_pki (try_set NewStore c) in
  let roots := system_roots w in
  if bool_decide (roots = []) then Err (Tls (str "no system CA certificates found for front verification"))
  else web_pki (try_set CertStore (with_verify c (VerifyStore roots))).

(** What a handshake makes of the settings: [host] is the name that is checked
    against the certificate, if one is. *)
Definition accepts (v : Verify) (host : option bytes) (presented : list Cert) : bool :=
  match v with
  | VerifyNone => true
  | VerifyPins pins => match pin_callback pins presented with Ok _ => true | _ => false end
  | VerifyStore roots =>
      chain_verifies roots presented &&
      match host, presented with Some h, leaf :: _ => host_matches h leaf | Some _, [] => false | None, _ => true end
  end.

(** ** Contexts *)

Definition CHROME_GROUPS : bytes := str "P-256:X25519:P-384".
Definition tls_groups (env : Env) : bytes :=
  match option_map trim (env (var "TLS_GROUPS")) with
  | Some g => if is_empty g then CHROME_GROUPS else g
  | None => CHROME_GROUPS
  end.
Definition alpn_wire (alpn : bytes) : bytes := as_u8 (zlen alpn) :: alpn.

(** The settings common to the three contexts. *)
Definition base_context (env : Env) (min_version : Z) (alpn : bytes) : result Ctx :=
  let c := mkCtx min_version TLS1_3 true (tls_groups env) alpn None None VerifyNone in
  let! _ := try_set NewBuilder tt in
  let! _ := try_set (MinProto min_version) tt in
  let! _ := try_set (MaxProto TLS1_3) tt in
  let! _ := try_set (Curves (tls_groups env)) tt in
  try_set (Alpn alpn) c.

Definition with_client (cert_pem key_pem : bytes) (c : Ctx) : result Ctx :=
  let! cert := tls_ok (x509_from_pem cert_pem) in
  let! key := tls_ok (key_from_pem key_pem) in
  let! _ := try_set (UseCert cert) tt in
  try_set (UseKey key) (mkCtx (cx_min c) (cx_max c) (cx_grease c) (cx_groups c) (cx_alpn c) (Some cert) (Some key) (cx_verify c)).

Record TlsParams : Type := mkTlsParams {
  tp_cert_pem : bytes; tp_key_pem : bytes; tp_pin_endpoint : bool; tp_expected_pins : list bytes }.

(** The transport parameters a connection offers; the idle time in ms. *)
Record QuicConfig : Type := mkQuic {
  qc_ctx : Ctx; qc_idle : Z; qc_udp_payload : Z; qc_max_data : Z; qc_stream_data : Z; qc_streams_bidi : Z;
  qc_streams_uni : Z; qc_migration : bool; qc_dgram_queue : option (Z * Z); qc_cc : option bytes }.

Definition ALPN_H3 : bytes := str "h3".

(** [quic] answers [with_boring_ssl_ctx_builder] and [set_application_protos]. *)
Definition quic_ok {A : Type} (r : option Z) (a : A) : result A := match r with Some code => Err (Quic code) | None => Ok a end.

Definition build_config (env : Env) (quic : option Z * option Z) (p : TlsParams) : result QuicConfig :=
  let! c := base_context env TLS1_3 (alpn_wire ALPN_H3) in
  let! c := with_client (tp_cert_pem p) (tp_key_pem p) c in
  let c := install_verification c (tp_pin_endpoint p) (tp_expected_pins p) in
  let! _ := quic_ok quic.1 tt in
  let! _ := quic_ok quic.2 tt in
  Ok (mkQuic c 120000 1350 10000000 2000000 100 100 false (Some (65536, 65536)) None).

Definition tuic_alpn (env : Env) : bytes :=
  match option_map trim (env (var "TUIC_ALPN")) with
  | Some a => if is_empty a then ALPN_H3 else a
  | None => ALPN_H3
  end.
(** [cc_known] says which congestion controllers quiche has. *)
Definition tuic_config (env : Env) (w : RootFiles) (quic : option Z * option Z) (cc_known : bytes -> bool) (insecure : bool)
    (cc : bytes) : result QuicConfig :=
  let! c := base_context env TLS1_3 (alpn_wire (tuic_alpn env)) in
  let! c := if insecure then Ok (with_verify c VerifyNone) else install_webpki_verification w c in
  let! _ := quic_ok quic.1 tt in
  let! _ := quic_ok quic.2 tt in
  let chosen := if negb (is_empty (trim cc)) && cc_known (trim cc) then Some (trim cc) else None in
  Ok (mkQuic c 60000 1350 10000000 2000000 256 256 false (Some (65536, 65536)) chosen).

(** ** HTTP/2 *)

Record H2TunnelConfig : Type := mkH2Config {
  h2_peer_addr : SocketAddr; h2_sni : bytes; h2_authority : bytes; h2_path : bytes; h2_cert_pem : bytes; h2_key_pem : bytes;
  h2_local_ipv4 : bytes; h2_quiet : bool; h2_pin_endpoint : bool; h2_expected_pins : list bytes }.
Definition H2_ALPN : bytes := alpn_wire (str "h2").

(** The context with what [ConnectConfiguration] adds. *)
Record Connector : Type := mkConnector { cn_ctx : Ctx; cn_verify_hostname : bool; cn_sni : bool }.

Definition fronted (cfg : H2TunnelConfig) : bool := negb (bool_decide (h2_sni cfg = CONNECT_SNI)).
Definition build_tls (env : Env) (w : RootFiles) (cfg : H2TunnelConfig) : result Connector :=
  let! c := base_context env TLS1_2 H2_ALPN in
  let! c := with_client (h2_cert_pem cfg) (h2_key_pem cfg) c in
  let! c := if fronted cfg then install_webpki_verification w c
            else Ok (install_verification c (h2_pin_endpoint cfg) (h2_expected_pins cfg)) in
  let! _ := try_set Configure tt in
  let use_pin_verification :=
    negb (fronted cfg) && h2_pin_endpoint cfg && negb (bool_decide (h2_expected_pins cfg = [])) in
  Ok (mkConnector c (negb use_pin_verification) true).
End Tls.

(** ** The configurations of the engine *)

Definition MASQUE_PINS : list bytes := [
  [0xeb; 0x59; 0x1b; 0x36; 0xab; 0x26; 0xba; 0x61; 0x7e; 0x98; 0x37; 0x19; 0x18; 0xc1; 0x0b; 0xcd;
   0xea; 0xe3; 0x74; 0x2d; 0xb6; 0xe7; 0x65; 0x43; 0xf9; 0x4b; 0xe5; 0x24; 0xdc; 0xe1; 0xd5; 0x55];
  [0x3f; 0xbb; 0x1d; 0x74; 0x52; 0xd3; 0x2b; 0x38; 0x81; 0xeb; 0x4b; 0x5d; 0x48; 0x42; 0x14; 0x45;
   0xb6; 0xb9; 0xd8; 0xf5; 0x22; 0x59; 0x59; 0xf0; 0x33; 0x53; 0x2d; 0x50; 0x26; 0x37; 0xb0; 0x40]].
Definition default_authority : bytes := str "cloudflareaccess.com".
Definition default_path : bytes := str "/".

(** The configuration establish_masque and quick_verify_masque_peer fill in. *)
Definition engine_h2_config (env : Env) (i : Identity) (peer : SocketAddr) (quiet : bool) : H2TunnelConfig :=
  mkH2Config (h2_peer env peer) (effective_sni env) default_authority default_path (cert_pem i) (key_pem i)
    (parse_local_v4 (ipv4 i)) quiet true MASQUE_PINS.

(** [masque_probe] of lib.rs, as far as the checks of one gateway use it, and
    the configuration [verify_one] of prober.rs makes of it. *)
Record MasqueProbe : Type := mkMasqueProbe {
  mp_sni : bytes; mp_authority : bytes; mp_path : bytes; mp_cert_pem : bytes; mp_key_pem : bytes; mp_ports : list Z;
  mp_ip : IpScan; mp_local_ipv4 : bytes }.
Definition masque_probe `{UnicodeTables} (env : Env) (i : Identity) (mode_str : bytes) (ip : IpScan) : ScanMode * MasqueProbe :=
  (ScanMode_parse mode_str,
   mkMasqueProbe (effective_sni env) default_authority default_path (cert_pem i) (key_pem i) MASQUE_PORTS ip
     (parse_local_v4 (ipv4 i))).
Definition probe_h2_config (p : MasqueProbe) (peer : SocketAddr) : H2TunnelConfig :=
  mkH2Config peer (mp_sni p) (mp_authority p) (mp_path p) (mp_cert_pem p) (mp_key_pem p) (mp_local_ipv4 p) true true MASQUE_PINS.

(** The parameters quic.rs passes for a tunnel and for a check. *)
Definition quic_tls_params (cert key : bytes) : TlsParams := mkTlsParams cert key true MASQUE_PINS.

(** ** Checks over HTTP/2 *)

Section Checks.
Context `{Boring}.
Context (refuses : setting -> option bytes).

(** What the network and the libraries answer on the way to the request; the
    handshake fails by itself, or because the certificate is not accepted. *)
Record H2World : Type := mkH2World {
  hw_dial : result unit; hw_presented : list Cert; hw_handshake : option bytes; hw_rejected : bytes;
  hw_h2 : option bytes; hw_ready : option bytes; hw_request : option bytes; hw_sent : option bytes; hw_answer : Z + bytes }.

Definition masque_err {A : Type} (what : bytes) (e : option bytes) (a : A) : result A :=
  match e with Some e => Err (Masque (what ++ e)) | None => Ok a end.
Definition tls_err (e : bytes) : SoildTunnelError := Tls (str "h2 tls handshake: " ++ e).

Definition tls_connect (t : Connector) (sni : bytes) (w : H2World) : result unit :=
  match hw_handshake w with
  | Some e => Err (tls_err e)
  | None =>
      if accepts (cx_verify (cn_ctx t)) (if cn_verify_hostname t then Some sni else None) (hw_presented w) then Ok tt
      else Err (tls_err (hw_rejected w))
  end.

(** Up to the TLS session. *)
Definition h2_secured (env : Env) (files : RootFiles) (cfg : H2TunnelConfig) (w : H2World) : result unit :=
  let! t := build_tls refuses env files cfg in
  let! _ := hw_dial w in
  tls_connect t (h2_sni cfg) w.

(** Up to the status of the answer. *)
Definition h2_requested (env : Env) (files : RootFiles) (cfg : H2TunnelConfig) (w : H2World) : result Z :=
  let! _ := h2_secured env files cfg w in
  let! _ := masque_err (str "h2 handshake: ") (hw_h2 w) tt in
  let! _ := masque_err (str "h2 ready: ") (hw_ready w) tt in
  let! _ := masque_err (str "build request: ") (hw_request w) tt in
  let! _ := masque_err (str "send_request: ") (hw_sent w) tt in
  match hw_answer w with inl status => Ok status | inr e => Err (Masque (str "await response: " ++ e)) end.

(** [tokio::time::timeout]: what the attempt gives and when; [None] when it is
    still under way at the end. *)
Definition timed {A : Type} (late : bytes) (start limit : Z) (attempt : option (Z * result A)) : result Z :=
  match attempt with
  | Some (t, r) => if limit <? t - start then Err (Other late) else let! _ := r in Ok (t - start)
  | None => Err (Other late)
  end.

Definition verify_h2_shallow (env : Env) (files : RootFiles) (cfg : H2TunnelConfig) (w : H2World) (start limit : Z)
    (ends_at : option Z) : result Z :=
  timed (str "h2 shallow verify timed out") start limit (option_map (fun t => (t, h2_secured env files cfg w)) ends_at).

(** [verify_h2] as a whole: the request, then the check of H2Tunnel.v on the
    body's events. *)
Definition check_h2 `{Target} (env : Env) (files : RootFiles) (cfg : H2TunnelConfig) (w : H2World) (probe : bytes)
    (io1 io2 : SendIo) (evs : list body_event) (start limit ends_at : Z) : result Z :=
  let attempt :=
    match h2_requested env files cfg w with
    | Ok status => option_map (fun r => (ends_at, r)) (verify_h2 (data_check_enabled env) status probe io1 io2 evs)
    | Err e => Some (ends_at, Err e)
    | Panic => Some (ends_at, Panic)
    | OutOfFuel => Some (ends_at, OutOfFuel)
    end in
  timed (str "h2 verify timeout") start limit attempt.
End Checks.

(** ** Encrypted client hello and exported keys *)

(** [Display] of an [i32]. *)
Definition dec_signed (n : Z) : bytes := if n <? 0 then str "-" ++ dec_str (- n) else dec_str n.

(** [rc] is what the C function returned. *)
Definition inject_ech (ech_config_list : bytes) (rc : Z) : result unit :=
  if is_empty ech_config_list then Err (Ech (str "empty ech config list"))
  else if negb (rc =? 1) then Err (Ech (str "SSL_set1_ech_config_list failed (rc=" ++ dec_signed rc ++ str ")"))
  else Ok tt.

(** What the C function left: a pointer, [None] for a null one, and a length. *)
Definition extract_ech_retry_configs (out : option bytes) (out_len : Z) : option bytes :=
  match out with
  | None => None
  | Some p => if out_len =? 0 then None else Some (ztake out_len p)
  end.

Definition decode_ech_config_list `{Base64} (b64 : bytes) : result bytes :=
  match b64_decode (trim b64) with inl v => Ok v | inr e => Err (Ech e) end.

(** [export label context use_context] is the C function: its return code and
    the 32 bytes it wrote. *)
Definition export_keying_material (export : bytes -> bytes -> Z -> Z * bytes) (label context : bytes) : result bytes :=
  let '(rc, out) := export label context (if is_empty context then 0 else 1) in
  if negb (rc =? 1) then Err (Tls (str "SSL_export_keying_material failed (rc=" ++ dec_signed rc ++ str ")")) else Ok out.

(** ** Which servers are accepted *)

Section Sound.
Context `{Boring}.
Context (refuses : setting -> option bytes).

(** The peer holds a pinned key. *)
Definition pinned (chain : list Cert) : Prop :=
  exists leaf rest der, chain = leaf :: rest /\ public_key_der leaf = Some der /\ sha256 der ∈ MASQUE_PINS.
(** The peer's chain ends in a root of the system, and it has the name. *)
Definition web_verified (files : RootFiles) (host : bytes) (chain : list Cert) : Prop :=
  exists leaf rest, chain = leaf :: rest /\ system_roots files <> [] /\
    chain_verifies (system_roots files) chain = true /\ host_matches host leaf = true.

Lemma pin_match (pins : list bytes) (hash : bytes) : existsb (fun pin => bool_decide (pin = hash)) pins = true <-> hash ∈ pins.
Proof.
  rewrite existsb_exists, list_elem_of_In. split; [|intros Hin; exists hash; split; [done|by apply bool_decide_eq_true]].
  by intros (pin & Hin & ->%bool_decide_eq_true).
Qed.
Lemma pins_accept host chain : accepts (VerifyPins MASQUE_PINS) host chain = true <-> pinned chain.
Proof.
  unfold accepts, pin_callback, spki_sha256, pinned. destruct chain as [|leaf rest]; [split; [done|naive_solver]|].
  destruct (public_key_der leaf) as [der|] eqn:E; cbn [option_map]; [|split; [done|naive_solver]].
  transitivity (sha256 der ∈ MASQUE_PINS); [|split; [by exists leaf, rest, der|intros (? & ? & ? & [= <- <-] & ? & ?); by simplify_eq]].
  rewrite <- pin_match. destruct (existsb _ _); done.
Qed.

Lemma store_accepts files host chain : system_roots files <> [] ->
  accepts (VerifyStore (system_roots files)) (Some host) chain = true -> web_verified files host chain.
Proof. intros Hr. simpl. destruct chain as [|leaf rest]; rewrite andb_true_iff; intros []; [done|]. by exists leaf, rest. Qed.

Lemma webpki_verify files c c' : install_webpki_verification refuses files c = Ok c' ->
  cx_verify c' = VerifyStore (system_roots files) /\ system_roots files <> [].
Proof.
  unfold install_webpki_verification, web_pki, try_set. destruct (refuses NewStore); [done|]. simpl.
  destruct (bool_decide _) eqn:E; [done|]. apply bool_decide_eq_false in E.
  destruct (refuses CertStore); [done|]. by intros [= <-].
Qed.

Lemma installed_pins c : cx_verify (install_verification c true MASQUE_PINS) = VerifyPins MASQUE_PINS.
Proof. reflexivity. Qed.

Lemma build_tls_verify env files cfg t :
  h2_pin_endpoint cfg = true -> h2_expected_pins cfg = MASQUE_PINS -> build_tls refuses env files cfg = Ok t ->
  if fronted cfg then cx_verify (cn_ctx t) = VerifyStore (system_roots files) /\ system_roots files <> [] /\ cn_verify_hostname t = true
  else cx_verify (cn_ctx t) = VerifyPins MASQUE_PINS.
Proof.
  intros Hp Hs E. unfold build_tls in E. apply obind_Ok in E as (c1 & _ & E). apply obind_Ok in E as (c2 & _ & E).
  apply obind_Ok in E as (c3 & E3 & E). apply obind_Ok in E as (_ & _ & E). injection E as <-. rewrite Hp, Hs in *.
  destruct (fronted cfg); simpl; [|by injection E3 as <-]. by apply webpki_verify in E3 as [-> ?].
Qed.

Lemma secured_ok env files cfg w :
  h2_pin_endpoint cfg = true -> h2_expected_pins cfg = MASQUE_PINS -> h2_secured refuses env files cfg w = Ok tt ->
  if fronted cfg then web_verified files (h2_sni cfg) (hw_presented w) else pinned (hw_presented w).
Proof.
  intros Hp Hs E. unfold h2_secured in E. apply obind_Ok in E as (t & Ht & E). apply obind_Ok in E as (_ & _ & E).
  unfold tls_connect in E. destruct (hw_handshake w); [done|]. destruct (accepts _ _ _) eqn:Ha; [|done].
  pose proof (build_tls_verify env files cfg t Hp Hs Ht) as V. destruct (fronted cfg).
  - destruct V as (V & Hr & Hv). rewrite V, Hv in Ha. by apply store_accepts.
  - rewrite V in Ha. by eapply pins_accept.
Qed.

Lemma quic_verify env quic cert key q : build_config refuses env quic (quic_tls_params cert key) = Ok q ->
  cx_verify (qc_ctx q) = VerifyPins MASQUE_PINS.
Proof.
  unfold build_config. intros E. apply obind_Ok in E as (c1 & _ & E). apply obind_Ok in E as (c2 & _ & E).
  apply obind_Ok in E as (_ & _ & E). apply obind_Ok in E as (_ & _ & E). by injection E as <-.
Qed.

Lemma tuic_verify env files quic known insecure cc q : tuic_config refuses env files quic known insecure cc = Ok q ->
  insecure = true \/ cx_verify (qc_ctx q) = VerifyStore (system_roots files) /\ system_roots files <> [].
Proof.
  unfold tuic_config. intros E. apply obind_Ok in E as (c1 & _ & E). apply obind_Ok in E as (c2 & E2 & E).
  apply obind_Ok in E as (_ & _ & E). apply obind_Ok in E as (_ & _ & E). injection E as <-.
  destruct insecure; [by left|right]. by apply webpki_verify in E2.
Qed.

Lemma requested_secured env files cfg w status : h2_requested refuses env files cfg w = Ok status ->
  h2_secured refuses env files cfg w = Ok tt /\ hw_answer w = inl status.
Proof.
  intros E. unfold h2_requested in E. apply obind_Ok in E as ([] & E1 & E). split; [done|].
  do 4 (apply obind_Ok in E as (_ & _ & E)). destruct (hw_answer w); by simplify_eq.
Qed.

Lemma timed_ok {A} late start limit (attempt : option (Z * result A)) rtt :
  timed late start limit attempt = Ok rtt -> exists a, attempt = Some (start + rtt, Ok a) /\ rtt <= limit.
Proof.
  unfold timed. destruct attempt as [[t r]|]; [|done]. destruct (limit <? t - start) eqn:E; [done|].
  intros Hr. apply obind_Ok in Hr as (a & -> & [= <-]). exists a. split; [by replace (start + (t - start)) with t by lia|lia].
Qed.
End Sound.

(** C4: no tunnel is opened to a server that has not proved who it is.  Over
    HTTP/2 with the default name, and over QUIC always, the server holds one of
    the two pinned keys; over HTTP/2 behind another name its chain ends in one
    of the system's roots, of which there is at least one, and its certificate
    has that name; for TUIC the same, unless the user asked for no check.  With
    pins every other property of the certificate is ignored. *)
Theorem tunnel_servers_authenticated `{Boring} `{UnicodeTables} refuses env files i peer quiet mode ip w quic insecure known cc q
    sni chain :
  let by_name (presented : list Cert) :=
    if bool_decide (effective_sni env = CONNECT_SNI) then pinned presented
    else web_verified files (effective_sni env) presented in
  (h2_secured refuses env files (engine_h2_config env i peer quiet) w = Ok tt -> by_name (hw_presented w)) /\
  (h2_secured refuses env files (probe_h2_config (masque_probe env i mode ip).2 peer) w = Ok tt -> by_name (hw_presented w)) /\
  (build_config refuses env quic (quic_tls_params (cert_pem i) (key_pem i)) = Ok q ->
     (accepts (cx_verify (qc_ctx q)) (Some sni) chain = true <-> pinned chain)) /\
  (tuic_config refuses env files quic known insecure cc = Ok q -> accepts (cx_verify (qc_ctx q)) (Some sni) chain = true ->
     insecure = true \/ web_verified files sni chain).
Proof.
  intros by_name. assert (forall cfg, h2_pin_endpoint cfg = true -> h2_expected_pins cfg = MASQUE_PINS ->
    h2_sni cfg = effective_sni env -> h2_secured refuses env files cfg w = Ok tt -> by_name (hw_presented w)) as Hh.
  { intros cfg Hp Hs Hn E. pose proof (secured_ok refuses env files cfg w Hp Hs E) as Hf. unfold fronted in Hf. rewrite Hn in Hf.
    unfold by_name. by destruct (bool_decide _). }
  split_and!; [by apply Hh|by apply Hh| |].
  - intros E. rewrite (quic_verify refuses env quic _ _ q E). apply pins_accept.
  - intros E Ha. destruct (tuic_verify refuses _ _ _ _ _ _ _ E) as [->|[V Hr]]; [by left|right]. rewrite V in Ha.
    by apply store_accepts.
Qed.

Lemma h2_checked `{Boring} `{UnicodeTables} `{Target} refuses env files i mode ip peer w probe io1 io2 evs start limit
    ends_at rtt :
  check_h2 refuses env files (probe_h2_config (masque_probe env i mode ip).2 peer) w probe io1 io2 evs start limit ends_at = Ok rtt ->
  (if bool_decide (effective_sni env = CONNECT_SNI) then pinned (hw_presented w)
   else web_verified files (effective_sni env) (hw_presented w)) /\
  (exists status, hw_answer w = inl status /\ 200 <= status < 300) /\
  (data_check_enabled env = true -> 2 <= datagrams (feed parser_new (body_chunks evs)).1) /\ rtt <= limit.
Proof.
  unfold check_h2. intros (u & E & Hl)%timed_ok.
  destruct (h2_requested _ _ _ _ _) as [status| | |] eqn:Er; try done. apply requested_secured in Er as [Es Ea].
  destruct (verify_h2 _ _ _ _ _ _) as [[[]| | |]|] eqn:Ev; try done.
  pose proof (secured_ok refuses env files (probe_h2_config (masque_probe env i mode ip).2 peer) w eq_refl eq_refl Es) as Hs. unfold fronted in Hs. simpl in Hs.
  assert (200 <= status < 300 /\ (data_check_enabled env = true -> 2 <= datagrams (feed parser_new (body_chunks evs)).1)) as [Hst Hd].
  { destruct (data_check_enabled env) eqn:Ed; [apply verify_h2_sound in Ev as [? ?]; by split|]. revert Ev.
    unfold verify_h2, H2Tunnel.is_success. destruct (_ && _) eqn:Hx; [|done]. split; [lia|done]. }
  split_and!; [by destruct (bool_decide _)|by exists status|done|done].
Qed.

(** A gateway that passes the check over HTTP/2 has proved who it is, has
    accepted the request, and has, unless the data check is off, sent at least
    two packets back, within the limit. *)
Theorem h2_gateway_checked `{Boring} `{UnicodeTables} `{Target} refuses env files i mode ip peer w probe io1 io2 evs start limit
    ends_at rtt :
  check_h2 refuses env files (probe_h2_config (masque_probe env i mode ip).2 peer) w probe io1 io2 evs start limit ends_at = Ok rtt ->
  (if bool_decide (effective_sni env = CONNECT_SNI) then pinned (hw_presented w)
   else web_verified files (effective_sni env) (hw_presented w)) /\
  (exists status, hw_answer w = inl status /\ 200 <= status < 300) /\
  (data_check_enabled env = true -> 2 <= datagrams (feed parser_new (body_chunks evs)).1) /\ rtt <= limit.
Proof. apply h2_checked. Qed.

(** With an address for HTTP/2 configured, a scan still checks the gateway it
    found and not the one the tunnel will be opened to. *)
Lemma h2_peer_not_probed `{UnicodeTables} env i mode ip peer quiet addr v :
  env (str "SOILDTUNNEL_MASQUE_H2_PEER") = Some v -> parse_socket_addr (trim v) = Some addr -> addr <> peer ->
  h2_peer_addr (probe_h2_config (masque_probe env i mode ip).2 peer) <> h2_peer_addr (engine_h2_config env i peer quiet).
Proof. intros Hv Hp Hn. simpl. unfold h2_peer. rewrite Hv, Hp. congruence. Qed.

(** *** Examples: a pinned server and one that a store vouches for *)

Definition toy_boring : Boring := {|
  Cert := Z; Key := unit; x509_from_pem _ := inl 0; stack_from_pem pem := inl pem; key_from_pem _ := inl tt;
  public_key_der c := Some [c]; sha256 der := if bool_decide (der = [7]) then default [] (head MASQUE_PINS) else der;
  add_cert_ok _ := true; chain_verifies roots chain := bool_decide (head (rev chain) = head roots); host_matches _ c := c =? 1 |}.
Definition toy_files : RootFiles := mkRoots (Some [(true, Some [9]); (false, None)]) [None; None].
Definition toy_world (chain : list Z) : H2World (H := toy_boring) :=
  mkH2World (H := toy_boring) (Ok tt) chain None [] None None None None (inl 200).
Definition toy_env : Env := fun k =>
  if bool_decide (k = str "SOILDTUNNEL_SNI") then Some (str "www.example.com") else None.
Definition toy_identity : Identity := mkIdentity [] [] [] [] 0 (str "172.16.0.2") [] [] [] [] [] [] [] false.

Lemma tunnel_servers_authenticated_witness :
  let peer := sock_new (V4 [162; 159; 198; 1]) 443 in
  pinned (H := toy_boring) [7; 8] /\ web_verified (H := toy_boring) toy_files (str "www.example.com") [1; 9].
Proof.
  intros peer. split.
  - apply (tunnel_servers_authenticated (H := toy_boring) (H0 := no_unicode) (fun _ => None) (fun _ => None) toy_files toy_identity
      peer true [] ScanBoth (toy_world [7; 8]) (None, None) false (fun _ => true) [] (mkQuic (H := toy_boring)
      (mkCtx (H := toy_boring) 0 0 true [] [] None None VerifyNone) 0 0 0 0 0 0 false None None) [] []).
    vm_compute. reflexivity.
  - apply (tunnel_servers_authenticated (H := toy_boring) (H0 := no_unicode) (fun _ => None) toy_env toy_files toy_identity
      peer true [] ScanBoth (toy_world [1; 9]) (None, None) false (fun _ => true) [] (mkQuic (H := toy_boring)
      (mkCtx (H := toy_boring) 0 0 true [] [] None None VerifyNone) 0 0 0 0 0 0 false None None) [] []).
    vm_compute. reflexivity.
Defined.

Lemma h2_gateway_checked_witness :
  200 <= 200 < 300 /\
  2 <= datagrams (feed (H := target64) parser_new (body_chunks [Chunk sample_answer; Chunk sample_answer])).1.
Proof.
  destruct (h2_gateway_checked (H := toy_boring) (H0 := no_unicode) (H1 := target64) (fun _ => None) (fun _ => None) toy_files
    toy_identity [] ScanBoth (sock_new (V4 [162; 159; 198; 1]) 443) (toy_world [7; 8]) sample_ip sample_io sample_io
    [Chunk sample_answer; Chunk sample_answer] 0 5000 80 80) as (_ & (status & E & Hs) & Hd & _); [vm_compute; reflexivity|].
  split; [by injection E as <-|by apply Hd].
Defined.
