(* ===== verification/ScanEngine.v ===== *)
(** * The checks a gateway scan runs

    Models tunnelping.rs and ties the scans of Prober.v to the checks they run
    on each candidate: [verify_one] of prober.rs over HTTP/2 (TlsSetup.v), over
    QUIC (QuicVerify.v), and in the Ironclad mode a whole tunnel with an HTTP
    request through it.  What the network does at each gateway is a record;
    times of a check are in milliseconds. *)

From Stdlib Require Import ZArith Lia ZifyBool String List.
From stdpp Require Import base list numbers option decidable gmap.
From S2P Require Import Prelude RustStr NetAddr Errors Octets Masque H2Tunnel Quic QuicVerify.
From S2P Require Import Netstack Prober WebLib Account Provision Settings WireGuard WgVerify Startup TlsSetup.
Open Scope Z_scope.

(** ** A request through a tunnel *)

Definition PING_MTU : Z := 1280.

(** [pn_ready]: whether the tunnel said it was ready, [None] when it said
    nothing; then the request, and when it was made and done. *)
Record PingNet : Type := mkPing {
  pn_ready : option bool; pn_opened : result unit; pn_events : list probe_event; pn_began : Z; pn_ended : Z }.

Definition ping_timeout : SoildTunnelError := Other (str "ironclad http probe timeout").
(** The addresses are what [netstack::spawn] can fail or panic on. *)
Definition ping_stack `{Smoltcp} (v4 v6 : bytes) : result unit :=
  let! v4 := parse_v4 v4 in let! v6 := parse_v6 v6 in let! _ := initial v4 v6 in Ok tt.
Definition ping_request (p : PingNet) : option (result Z) :=
  let? r := http_probe (pn_opened p) (pn_events p) in Some (let! _ := r in Ok (pn_ended p - pn_began p)).
Definition ping_limit (start limit : Z) (p : PingNet) (attempt : option (result Z)) : result Z :=
  match attempt with
  | Some r => if limit <? pn_ended p - start then Err ping_timeout else r
  | None => Err ping_timeout
  end.

(** The parameters of a check, without those of the obfuscation, and the
    tunnel it opens: over HTTP/2 the one configured peer, if there is one. *)
Record MasquePingParams : Type := mkPingParams {
  pp_peer : SocketAddr; pp_sni : bytes; pp_authority : bytes; pp_path : bytes; pp_cert_pem : bytes; pp_key_pem : bytes;
  pp_local_ipv4 : bytes; pp_local_ipv4_str : bytes; pp_local_ipv6_str : bytes }.
Inductive PingTunnel : Type :=
| PingH2 (cfg : H2TunnelConfig)
| PingQuic (peer : SocketAddr) (sni authority path : bytes) (tls : TlsParams) (local_ipv4 : bytes).
Definition ping_tunnel `{UnicodeTables} (env : Env) (p : MasquePingParams) : PingTunnel :=
  if H2Tunnel.enabled env then
    PingH2 (mkH2Config (h2_peer env (pp_peer p)) (pp_sni p) (pp_authority p) (pp_path p) (pp_cert_pem p) (pp_key_pem p)
              (pp_local_ipv4 p) true true MASQUE_PINS)
  else PingQuic (pp_peer p) (pp_sni p) (pp_authority p) (pp_path p) (quic_tls_params (pp_cert_pem p) (pp_key_pem p)) (pp_local_ipv4 p).
Definition tunnel_peer (t : PingTunnel) : SocketAddr :=
  match t with PingH2 cfg => h2_peer_addr cfg | PingQuic peer _ _ _ _ _ => peer end.

(** [tunnels]: what the network does with a tunnel. *)
Definition masque_http_ping `{UnicodeTables} `{Smoltcp} (env : Env) (params : MasquePingParams) (start limit : Z)
    (tunnels : PingTunnel -> PingNet) : result Z :=
  let p := tunnels (ping_tunnel env params) in
  ping_limit start limit p
    match ping_stack (pp_local_ipv4_str params) (pp_local_ipv6_str params) with
    | Ok _ =>
        let? ready := pn_ready p in
        if negb ready then Some (Err (Other (str "tunnel exited before data-plane validation"))) else ping_request p
    | Err e => Some (Err e)
    | Panic => Some Panic
    | OutOfFuel => Some OutOfFuel
    end.
(** The WireGuard session is up already. *)
Definition wg_http_ping_established `{Smoltcp} (v4 v6 : bytes) (start limit : Z) (p : PingNet) : result Z :=
  ping_limit start limit p
    match ping_stack v4 v6 with
    | Ok _ => ping_request p
    | Err e => Some (Err e)
    | Panic => Some Panic
    | OutOfFuel => Some OutOfFuel
    end.

(** The first line of the response said 204. *)
Definition answered_204 (p : PingNet) : Prop :=
  exists buf, probe_loop (pn_events p) [] = Some (Ok buf) /\
    http_status_code (trim (match RustStr.lines (from_utf8_lossy buf) with l :: _ => l | [] => [] end)) = Some 204.

Lemma request_answered p d : ping_request p = Some (Ok d) -> pn_opened p = Ok tt /\ answered_204 p /\ d = pn_ended p - pn_began p.
Proof.
  unfold ping_request, http_probe, answered_204. destruct (pn_opened p) as [[]|e| |]; try done.
  destruct (probe_loop (pn_events p) []) as [r|]; [|done]. cbn [opt_bind]. intros [= E].
  apply obind_Ok in E as ([] & E & [= <-]). apply obind_Ok in E as (buf & -> & E). split; [done|]. split; [|done].
  exists buf. split; [done|]. unfold probe_verdict in E. destruct (http_status_code _) as [code|]; [|done].
  destruct (code =? 204) eqn:Ec; [|done]. f_equal. lia.
Qed.

Lemma masque_ping_ok `{UnicodeTables} `{Smoltcp} env params start limit tunnels d :
  masque_http_ping env params start limit tunnels = Ok d ->
  let p := tunnels (ping_tunnel env params) in
  pn_ready p = Some true /\ pn_opened p = Ok tt /\ answered_204 p /\ pn_ended p - start <= limit.
Proof.
  unfold masque_http_ping, ping_limit. set (p := tunnels _). cbv zeta. destruct (ping_stack _ _); try (by case_match).
  destruct (pn_ready p) as [[]|]; simpl; [|by case_match|done]. destruct (ping_request p) as [r|] eqn:E; [|done].
  destruct (limit <? _) eqn:El; [done|]. intros ->. apply request_answered in E as (? & ? & _). split_and!; [done|done|done|lia].
Qed.
Lemma wg_ping_ok `{Smoltcp} v4 v6 start limit p d : wg_http_ping_established v4 v6 start limit p = Ok d ->
  pn_opened p = Ok tt /\ answered_204 p /\ pn_ended p - start <= limit.
Proof.
  unfold wg_http_ping_established, ping_limit. destruct (ping_stack v4 v6); try (by case_match).
  destruct (ping_request p) as [r|] eqn:E; [|done]. destruct (limit <? _) eqn:El; [done|]. intros ->.
  apply request_answered in E as (? & ? & _). split_and!; [done|done|lia].
Qed.

(** ** The checks of a scan *)

Section Scan.
Context `{Target} `{UnicodeTables} `{Boring} `{Smoltcp}.

(** What happens at a gateway. *)
Record GatewayNet : Type := mkNet {
  gn_start : Z; gn_ends : Z; gn_h2 : H2World; gn_io1 : SendIo; gn_io2 : SendIo; gn_body : list body_event; gn_quic : VWorld }.

Definition in_nanos (r : result Z) : result Z := let! ms := r in Ok (from_millis ms).
Definition IRONCLAD_TCPING_TIMEOUT : Z := 10000.

Context (refuses : setting -> option bytes) (env : Env) (files : RootFiles) (i : Identity) (mode_str : bytes) (ip : IpScan)
  (probe_packet : bytes) (timeout : Z) (net : SocketAddr -> GatewayNet) (tunnels : PingTunnel -> PingNet)
  (check_wg wg_ping : SocketAddr -> result Z).

Definition scan_probe : MasqueProbe := (masque_probe env i mode_str ip).2.
Definition quic_check (peer : SocketAddr) : VConfig :=
  mkVConfig (H2Tunnel.data_check_enabled env) probe_packet (gn_start (net peer)) timeout.
Definition ping_params (peer : SocketAddr) : MasquePingParams :=
  mkPingParams peer (mp_sni scan_probe) (mp_authority scan_probe) (mp_path scan_probe) (mp_cert_pem scan_probe) (mp_key_pem scan_probe)
    (mp_local_ipv4 scan_probe) (v4_str (mp_local_ipv4 scan_probe)) [].
Definition engine_checks : Checks := mkChecks
  (fun peer => in_nanos (masque_http_ping env (ping_params peer) (gn_start (net peer)) IRONCLAD_TCPING_TIMEOUT tunnels))
  (fun peer => in_nanos (TlsSetup.verify_h2_shallow refuses env files (probe_h2_config scan_probe peer) (gn_h2 (net peer))
                           (gn_start (net peer)) timeout (Some (gn_ends (net peer)))))
  (fun peer => in_nanos (TlsSetup.check_h2 refuses env files (probe_h2_config scan_probe peer) (gn_h2 (net peer)) probe_packet
                           (gn_io1 (net peer)) (gn_io2 (net peer)) (gn_body (net peer)) (gn_start (net peer)) timeout
                           (gn_ends (net peer))))
  (fun peer => match (verify_masque (quic_check peer) (gn_quic (net peer))).2 with
               | Some r => in_nanos r
               | None => OutOfFuel
               end)
  check_wg wg_ping.

Lemma in_nanos_ok r d : in_nanos r = Ok d -> exists ms, r = Ok ms.
Proof. unfold in_nanos. intros E. apply obind_Ok in E as (ms & -> & _). by exists ms. Qed.

(** What a check that succeeds has shown of a gateway. *)
Definition h2_shown (peer : SocketAddr) : Prop :=
  (if bool_decide (effective_sni env = CONNECT_SNI) then pinned (hw_presented (gn_h2 (net peer)))
   else web_verified files (effective_sni env) (hw_presented (gn_h2 (net peer)))) /\
  (exists status, hw_answer (gn_h2 (net peer)) = inl status /\ 200 <= status < 300) /\
  (H2Tunnel.data_check_enabled env = true -> 2 <= datagrams (feed parser_new (body_chunks (gn_body (net peer)))).1).
Definition quic_shown (peer : SocketAddr) : Prop :=
  v_won (quic_check peer) (verify_masque (quic_check peer) (gn_quic (net peer))).1.
Definition ping_shown (peer : SocketAddr) : Prop :=
  exists t, tunnel_peer t = (if H2Tunnel.enabled env then h2_peer env peer else peer) /\
    pn_ready (tunnels t) = Some true /\ answered_204 (tunnels t).

Lemma verify_one_shown h2 ironclad c pr : verify_one engine_checks h2 ironclad false c = Some pr ->
  let peer := pr_addr pr in
  if ironclad then ping_shown peer else if h2 : bool then h2_shown peer else quic_shown peer.
Proof.
  unfold verify_one, probed, engine_checks. cbn [Prober.masque_http_ping Prober.check_h2 check_masque].
  set (peer := sock_new c.1 c.2). intros Hv. destruct ironclad; [|destruct h2].
  - destruct (in_nanos _) as [d| | |] eqn:E; simplify_eq. apply in_nanos_ok in E as [ms E].
    apply masque_ping_ok in E as (? & _ & ? & _). exists (ping_tunnel env (ping_params peer)).
    split_and!; [|done|done]. unfold ping_tunnel. by destruct (H2Tunnel.enabled env).
  - destruct (in_nanos _) as [d| | |] eqn:E; simplify_eq. apply in_nanos_ok in E as [ms E].
    apply (h2_checked refuses env files i mode_str ip) in E as (? & ? & ? & _). by split_and!.
  - destruct (verify_masque (quic_check peer) (gn_quic (net peer))) as [s r] eqn:Ev. cbn [snd] in Hv.
    destruct r as [r|]; [|done]. destruct (in_nanos r) as [d| | |] eqn:E; simplify_eq.
    apply in_nanos_ok in E as [ms ->]. unfold quic_shown. change (pr_addr _) with peer. rewrite Ev. by eapply verified_won.
Qed.

(** C22: the gateway a scan settles on has passed its check.  Whatever the
    schedule of the scan, the gateway it returns is none of the avoided ones.
    Outside the Ironclad mode it has, over HTTP/2, proved who it is and
    accepted the request, over QUIC accepted the request, and in both cases
    returned two packets, unless SOILDTUNNEL_MASQUE_NO_DATA_CHECK turned that
    check off.  In the Ironclad mode an HTTP request was answered with the
    status 204 through a tunnel that came up: over QUIC a tunnel to that
    gateway, over HTTP/2 one to the address of SOILDTUNNEL_MASQUE_H2_PEER where
    that is set, and to that gateway otherwise. *)
Theorem scanned_gateway_works w ports mode excluded start turns pr :
  0 < w_cap w -> w_checks w = engine_checks ->
  hunt_best_gateway w ports ip mode excluded start turns = Some (Ok pr) ->
  pr_addr pr ∉ excluded /\
  if bool_decide (mode = Ironclad) then ping_shown (pr_addr pr)
  else if w_h2 w then h2_shown (pr_addr pr) else quic_shown (pr_addr pr).
Proof.
  intros Hc Hk Hr. apply gateway_scan in Hr as [[_ ?]|(ip' & cands & rng & fin & rest & _ & _ & _ & [[Hin _] _])]; [done| |done].
  rewrite Hk in Hin. unfold usable in Hin. apply list_elem_of_filter in Hin as [Hx Hin].
  apply list_elem_of_omap in Hin as (c & _ & Hv). split; [done|]. by apply verify_one_shown in Hv.
Qed.
End Scan.

(** ** WireGuard endpoints *)

Section WgScan.
Context `{Tunn} `{ErrorText} `{Smoltcp}.

Record WgNet : Type := mkWgNet { wn_verify : VerifyWorld; wn_start : Z; wn_ping : PingNet }.
Definition WG_IRONCLAD_TCPING_TIMEOUT : Z := 10000.

(** What the scan knows: the keys, the configuration (with the client id and
    the local address's probe) and the local address. *)
Context (env : Env) (private_key peer_public : bytes) (cfg : WgConfig) (local_ipv4 : bytes) (timeout : Z)
  (net : SocketAddr -> WgNet) (k : Checks).

Definition wg_check (peer : SocketAddr) : Logged Z :=
  WgVerify.verify_endpoint env private_key peer_public cfg timeout None (wn_verify (net peer)).
Definition wg_engine_checks : Checks :=
  mkChecks (Prober.masque_http_ping k) (Prober.verify_h2_shallow k) (Prober.check_h2 k) (check_masque k)
    (fun peer => match (wg_check peer).2 with Some r => in_nanos r | None => OutOfFuel end)
    (fun peer => in_nanos (wg_http_ping_established (v4_str local_ipv4) (str "::1") (wn_start (net peer))
                             WG_IRONCLAD_TCPING_TIMEOUT (wn_ping (net peer)))).

(** The endpoint answered the handshake and, with the data check, two packets
    came back through the session. *)
Definition wg_shown (peer : SocketAddr) : Prop :=
  exists before after, (wg_check peer).1 = before ++ Handshook :: after /\
    (env (str "SOILDTUNNEL_WG_NO_DATA_CHECK") = None -> DATAPLANE_REQUIRED_SUCCESSES <= tally is_delivered after).

Lemma wg_check_shown peer ms : zlen (wg_client_id cfg) = 3 -> (wg_check peer).2 = Some (Ok ms) -> wg_shown peer.
Proof.
  intros Hid. unfold wg_shown, wg_check, WgVerify.verify_endpoint.
  destruct (verification_ok env private_key peer_public cfg timeout None (wn_verify (net peer)) Hid) as (_ & _ & _ & Hk).
  destruct (verify_endpoint_keep_session _ _ _ _ _ _ _) as [l [r|]]; [|done]. cbn [fst snd] in *. cbn [opt_bind]. intros [= E].
  apply obind_Ok in E as ([e t] & -> & _). by apply (Hk (e, t)).
Qed.

Lemma verify_one_wg_shown ironclad c pr : zlen (wg_client_id cfg) = 3 ->
  verify_one_wg wg_engine_checks ironclad c = Some pr ->
  wg_shown (pr_addr pr) /\ (ironclad = true -> answered_204 (wn_ping (net (pr_addr pr)))).
Proof.
  intros Hid Hv. pose proof (verify_one_wg_addr _ _ _ _ Hv) as Ha. rewrite Ha. revert Hv.
  unfold verify_one_wg, wg_engine_checks, probed. cbn [check_wg wg_http_ping]. set (peer := sock_new c.1 c.2). intros Hv.
  destruct (wg_check peer).2 as [r|] eqn:Er; [|done]. destruct (in_nanos r) as [d| | |] eqn:E; try done.
  apply in_nanos_ok in E as [ms ->]. split; [by eapply wg_check_shown|]. intros ->. simpl in Hv.
  destruct (in_nanos _) as [d'| | |] eqn:E in Hv; try done. apply in_nanos_ok in E as [ms' E]. by apply wg_ping_ok in E as (_ & ? & _).
Qed.

(** The endpoints a WireGuard scan returns work.  Each of them, whatever
    the schedule, is on an address of its own, is none of the excluded ones,
    has answered the handshake and returned two packets through the session,
    and in the Ironclad mode an HTTP request through it was answered with the
    status 204; there is at least one. *)
Theorem scanned_endpoints_work w ports ip excluded mode want start turns l :
  0 < w_cap w -> 1 <= want -> zlen (wg_client_id cfg) = 3 -> w_checks w = wg_engine_checks ->
  hunt_wg_endpoints w ports ip excluded mode want start turns = Some (Ok l) ->
  l <> [] /\ NoDup (map pr_ip l) /\
  forall pr, pr ∈ l -> pr_addr pr ∉ excluded /\ wg_shown (pr_addr pr) /\
    (mode = Ironclad -> answered_204 (wn_ping (net (pr_addr pr)))).
Proof.
  intros Hc Hw Hid Hk Hh. destruct (wg_endpoints_allowed _ _ _ _ _ _ _ _ _ Hc Hw Hh) as (Hn & Hd & Hx).
  split_and!; [done|done|]. intros pr Hpr. split; [by apply Hx|].
  apply wg_scan in Hh as [[_ ?]|(? & ? & ? & fin & ? & _ & _ & _ & (_ & Hp & _) & _)]; [done| |done..].
  destruct Hp as (_ & _ & _ & Hpl & _). apply Hpl in Hpr as [(c & _ & Hv)%list_elem_of_omap _]. rewrite Hk in Hv.
  destruct (verify_one_wg_shown _ _ _ Hid Hv) as [Hs H204]. split; [done|]. intros ->. by apply H204.
Qed.
End WgScan.

(** *** An example: two gateways over HTTP/2, of which one holds a pinned key *)

Definition two_gateways (a : SocketAddr) : GatewayNet (H1 := toy_boring) :=
  mkNet (H1 := toy_boring) 0 (if bool_decide (sa_ip a = V4 [188; 114; 96; 1]) then 30 else 20)
    (toy_world (if bool_decide (sa_ip a = V4 [188; 114; 96; 1]) then [7] else [8])) sample_io sample_io
    [Chunk sample_answer; Chunk sample_answer] demo_vworld.
Definition no_tunnels (_ : PingTunnel) : PingNet := mkPing None (Ok tt) [] 0 0.
Definition two_checks : Checks :=
  engine_checks (H := target64) (H0 := no_unicode) (H1 := toy_boring) (H2 := pipe_sockets) (fun _ => None) (fun _ => None) toy_files toy_identity []
    ScanV4 sample_ip 5000 two_gateways no_tunnels demo_check demo_check.
Definition two_world : World := mkWorld demo_env 4 false [] true two_checks.

Lemma scanned_gateway_works_witness :
  let peer := sock_new (V4 [188; 114; 96; 1]) 443 in
  hunt_best_gateway two_world [443] ScanV4 Thorough ∅ 0 demo_turns
    = Some (Ok (mkProbe (V4 [188; 114; 96; 1]) 443 (from_millis 30))) /\
  pinned (H := toy_boring) (hw_presented (gn_h2 (two_gateways peer))).
Proof.
  assert (hunt_best_gateway two_world [443] ScanV4 Thorough ∅ 0 demo_turns
    = Some (Ok (mkProbe (V4 [188; 114; 96; 1]) 443 (from_millis 30)))) as E by (vm_compute; reflexivity).
  split; [exact E|].
  destruct (scanned_gateway_works (H := target64) (H0 := no_unicode) (H1 := toy_boring) (H2 := pipe_sockets) (fun _ => None) (fun _ => None) toy_files
    toy_identity [] ScanV4 sample_ip 5000 two_gateways no_tunnels demo_check demo_check two_world [443] Thorough ∅ 0 demo_turns
    (mkProbe (V4 [188; 114; 96; 1]) 443 (from_millis 30)) ltac:(done) ltac:(done) E) as [_ (Hp & _)].
  exact Hp.
Defined.

(** Two WireGuard endpoints that answer alike. *)
Definition answering_net (_ : SocketAddr) : WgNet (H := answering_tunn) :=
  mkWgNet (H := answering_tunn) demo_verify 0 (mkPing None (Ok tt) [] 0 0).
Definition wg_two_world : World :=
  mkWorld demo_env 4 false [] false
    (wg_engine_checks (H := answering_tunn) (H1 := pipe_sockets) (fun _ => None) [] [] sample_wg [172; 16; 0; 2] 10000 answering_net (w_checks Prober.demo_world)).

Lemma scanned_endpoints_work_witness :
  let found := [mkProbe (V4 [188; 114; 96; 1]) 2408 (from_millis 950); mkProbe (V4 [188; 114; 96; 2]) 2408 (from_millis 950)] in
  hunt_wg_endpoints wg_two_world [2408] ScanV4 ∅ Thorough 2 0 demo_turns = Some (Ok found) /\
  forall pr, pr ∈ found ->
    wg_shown (H := answering_tunn) (fun _ => None) [] [] sample_wg 10000 answering_net (pr_addr pr).
Proof.
  intros found. assert (hunt_wg_endpoints wg_two_world [2408] ScanV4 ∅ Thorough 2 0 demo_turns = Some (Ok found)) as E
    by (vm_compute; reflexivity).
  split; [exact E|]. intros pr Hpr.
  destruct (scanned_endpoints_work (H := answering_tunn) (H1 := pipe_sockets) (fun _ => None) [] [] sample_wg [172; 16; 0; 2] 10000 answering_net
    (w_checks Prober.demo_world) wg_two_world [2408] ScanV4 ∅ Thorough 2 0 demo_turns found eq_refl ltac:(done) eq_refl eq_refl E)
    as (_ & _ & Hs).
  apply (Hs pr Hpr).
Defined.
