(* ===== verification/EncryptedDns.v ===== *)
(** * Encrypted DNS

    Models encrypted_dns.rs, which resolves names over HTTPS or TLS, and
    [dns_resolve] of socks.rs, which tries it before the queries inside the
    tunnel.  The HTTP client, the TLS stream and the system's resolver are
    arguments; errors are texts, as in the source. *)

From Stdlib Require Import ZArith Lia ZifyBool String List.
From stdpp Require Import base list numbers option decidable.
From S2P Require Import Prelude RustStr NetAddr Errors WebLib Dns.
Open Scope Z_scope.

Definition DEFAULT_DOH_URL : bytes := str "https://cloudflare-dns.com/dns-query".
Definition DEFAULT_DOT_HOST : bytes := str "1.1.1.1".
Definition DEFAULT_DOT_PORT : Z := 853.

Inductive Mode : Type := Plain | DoH | Dot.
#[export] Instance Mode_eq_dec : EqDecision Mode.
Proof. solve_decision. Defined.

Definition env_trim (env : Env) (key : string) : bytes := trim (unwrap_or_default (env (str key))).
Definition mode (env : Env) : Mode :=
  let s := to_ascii_lowercase (env_trim env "SOILDTUNNEL_DNS_MODE") in
  if bool_decide (s = str "doh") then DoH
  else if bool_decide (s = str "dot") then Dot
  else Plain.

(** ** What is met *)

(** The connection of DNS over TLS: a connect that fails or takes too long, the
    TLS set-up, and then what the peer sends, given what was written to it,
    before the stream ends with an error (also its end is one).  [tp_fault] is a
    write that fails, or the flush. *)
Inductive dial : Type := Connected | DialTimeout | DialError (e : bytes).
Record TlsPeer : Type := mkPeer { tp_fault : option (bool * bytes); tp_received : bytes; tp_end : bytes }.
Inductive tls_setup : Type :=
| TlsUp (peer : bytes -> TlsPeer)
| TlsBuilder (e : bytes)
| TlsConfigure (e : bytes)
| HandshakeTimeout
| HandshakeError (e : bytes).

(** [ew_id] is the random identifier of the query. *)
Record EncWorld : Type := mkEnc {
  ew_id : Z;
  ew_client : option bytes;
  ew_post : bytes -> bytes -> (Z * (bytes + bytes)) + bytes;
  ew_lookup : bytes -> Z -> list SocketAddr + bytes;
  ew_dial : SocketAddr -> dial;
  ew_tls : SocketAddr -> bytes -> tls_setup }.

Definition expect {A : Type} (prefix : bytes) (r : A + bytes) : outcome bytes A :=
  match r with inl a => Ok a | inr e => Err (prefix ++ e) end.

Section Resolving.
Context `{Target} `{HttpText}.

(** The end of both exchanges: the reply is checked against the query, then its
    first address is taken. *)
Definition judge_reply (what : bytes) (body : bytes) (id : Z) (name : bytes) : outcome bytes IpAddr :=
  match dns_response_matches body id name QTYPE_A with
  | Ok true => map_err (fun _ => str "no A record for " ++ name) (parse_dns_a body)
  | Ok false | Err _ => Err (what ++ str " reply mismatch")
  | Panic => Panic
  | OutOfFuel => OutOfFuel
  end.

(** ** DNS over HTTPS *)

Definition doh_url (env : Env) : outcome bytes bytes :=
  let url := env_trim env "SOILDTUNNEL_DOH_URL" in
  if is_empty url then Ok DEFAULT_DOH_URL
  else if starts_with url (str "https://") && (zlen url <=? 200) then Ok url
  else Err (str "invalid SOILDTUNNEL_DOH_URL").

Definition doh_resolve (env : Env) (w : EncWorld) (name : bytes) : outcome bytes IpAddr :=
  let! url := doh_url env in
  match ew_client w with
  | Some e => Err (str "doh client: " ++ e)
  | None =>
      let '(query, id) := build_dns_query (ew_id w) name QTYPE_A in
      let! '(status, answer) := expect (str "doh post: ") (ew_post w url query) in
      if negb (is_success status) then Err (str "doh status " ++ status_text status)
      else
        let! body := expect (str "doh read: ") answer in
        judge_reply (str "doh") body id name
  end.

(** ** DNS over TLS *)

Definition all_digits (s : bytes) : bool := forallb is_ascii_digit s && negb (is_empty s).

Definition dot_target_addr (w : EncWorld) (host : bytes) : outcome bytes SocketAddr :=
  let! '(name, port) :=
    match rsplit_once 58 host with
    | Some (h, p) =>
        if all_digits p then match parse_u16 p with Some port => Ok (h, port) | None => Err (str "dot bad port") end
        else Ok (host, DEFAULT_DOT_PORT)
    | None => Ok (host, DEFAULT_DOT_PORT)
    end in
  match parse_ip name with
  | Some ip => Ok (sock_new ip port)
  | None =>
      let! targets := expect (str "dot bootstrap resolve: ") (ew_lookup w name port) in
      match targets with
      | a :: _ => Ok a
      | [] => Err (str "dot no address for " ++ name)
      end
  end.

Definition dot_server_name (host : bytes) : bytes :=
  let without_port := match rsplit_once 58 host with
                      | Some (h, p) => if all_digits p then h else host
                      | None => host
                      end in
  trim_matches (fun c => (c =? 91) || (c =? 93)) without_port.

Definition dot_host (env : Env) : bytes :=
  let host := trim_start_str (env_trim env "SOILDTUNNEL_DOT_HOST") (str "tls://") in
  if is_empty host || (200 <? zlen host) then DEFAULT_DOT_HOST else host.

(** [read_exact] on what is left of the stream. *)
Definition dot_read (peer : TlsPeer) (n : Z) (left_ : bytes) : outcome bytes (bytes * bytes) :=
  if n <=? zlen left_ then Ok (ztake n left_, zdrop n left_) else Err (str "dot read: " ++ tp_end peer).

Definition dot_exchange (peer : TlsPeer) (id : Z) (name : bytes) : outcome bytes IpAddr :=
  match tp_fault peer with
  | Some (false, e) => Err (str "dot write: " ++ e)
  | Some (true, e) => Err (str "dot flush: " ++ e)
  | None =>
      let! '(len_buf, rest) := dot_read peer 2 (tp_received peer) in
      let! msg_len := map_err (fun _ => []) (be16 len_buf 0) in
      if (msg_len =? 0) || (4096 <? msg_len) then Err (str "dot bad length " ++ dec_str msg_len)
      else
        let! '(body, _) := dot_read peer msg_len rest in
        judge_reply (str "dot") body id name
  end.

Definition dot_resolve (env : Env) (w : EncWorld) (name : bytes) : outcome bytes IpAddr :=
  let host := dot_host env in
  let! addr := dot_target_addr w host in
  match ew_dial w addr with
  | DialTimeout => Err (str "dot connect timeout")
  | DialError e => Err (str "dot connect: " ++ e)
  | Connected =>
      match ew_tls w addr (dot_server_name host) with
      | TlsBuilder e => Err (str "dot tls builder: " ++ e)
      | TlsConfigure e => Err (str "dot tls configure: " ++ e)
      | HandshakeTimeout => Err (str "dot handshake timeout")
      | HandshakeError e => Err (str "dot handshake: " ++ e)
      | TlsUp peer =>
          let '(query, id) := build_dns_query (ew_id w) name QTYPE_A in
          dot_exchange (peer (dns_tcp_frame query)) id name
      end
  end.

Definition resolve (env : Env) (w : EncWorld) (name : bytes) : outcome bytes IpAddr :=
  match mode env with
  | DoH => doh_resolve env w name
  | Dot => dot_resolve env w name
  | Plain => Err (str "encrypted dns disabled")
  end.

(** ** [dns_resolve] *)

(** What the queries inside the tunnel meet: the opening of a UDP socket, the
    identifiers sent and whether they could be, the datagrams that come, and an
    exchange over TCP with each server. *)
Record PlainWorld : Type := mkPlain {
  pl_udp : result unit; pl_sends : list (Z * bool); pl_events : list (chan_event bytes);
  pl_tcp : SocketAddr -> result IpAddr }.

Definition plain_resolve (env : Env) (p : PlainWorld) (name : bytes) : option (result IpAddr) :=
  match pl_udp p with
  | Ok _ =>
      let? r := dns_exchange (pl_events p) (pl_sends p) name in
      Some match r with
           | Err _ => dns_exchange_tcp (pl_tcp p) (resolver_addresses env) (Other (str "dns timeout for " ++ name))
           | _ => r
           end
  | Err e => Some (Err e)
  | Panic => Some Panic
  | OutOfFuel => Some OutOfFuel
  end.

(** [None]: the events given end before an exchange does. *)
Definition dns_resolve (env : Env) (w : EncWorld) (p : PlainWorld) (name : bytes) : option (result IpAddr) :=
  if negb (bool_decide (mode env = Plain)) then
    match resolve env w name with
    | Ok ip => Some (Ok ip)
    | Err _ => plain_resolve env p name
    | Panic => Some Panic
    | OutOfFuel => Some OutOfFuel
    end
  else plain_resolve env p name.
End Resolving.

(** ** Properties *)

Section Sound.
Context `{Target} `{HttpText}.

(** Bytes that come from outside are bytes. *)
Definition enc_bytes (w : EncWorld) : Prop :=
  (forall url query status body, ew_post w url query = inl (status, inl body) -> bytes_ok body) /\
  (forall addr name peer, ew_tls w addr name = TlsUp peer -> forall sent, bytes_ok (tp_received (peer sent))).

(** [msg] is the reply that came over the channel that is configured, whole. *)
Definition replied (env : Env) (w : EncWorld) (name msg : bytes) : Prop :=
  let query := (build_dns_query (ew_id w) name QTYPE_A).1 in
  (mode env = DoH /\ exists url status,
     doh_url env = Ok url /\ ew_post w url query = inl (status, inl msg) /\ is_success status = true) \/
  (mode env = Dot /\ exists addr peer rest,
     dot_target_addr w (dot_host env) = Ok addr /\ ew_dial w addr = Connected /\
     ew_tls w addr (dot_server_name (dot_host env)) = TlsUp peer /\
     tp_received (peer (dns_tcp_frame query)) = to_be 2 (zlen msg) ++ msg ++ rest /\ 0 < zlen msg <= 4096).

Lemma judge_returns what body id name : bytes_ok body -> returns (judge_reply what body id name).
Proof.
  intros Hb. unfold judge_reply, dns_response_matches.
  destruct (response_matches_returns body id name QTYPE_A Hb) as [b ->]. destruct b; [|done].
  apply returns_map_err, walk_message_returns; [done|apply pick_a_safe].
Qed.

Lemma judge_ok what body id name ip :
  bytes_ok body -> judge_reply what body id name = Ok ip ->
  answers body id (split dots name) QTYPE_A /\ parse_dns_a body = Ok ip.
Proof.
  intros Hb. unfold judge_reply, dns_response_matches.
  destruct (response_matches_returns body id name QTYPE_A Hb) as [b Hr]. rewrite Hr. destruct b; [|done].
  intros Hm. split; [by apply response_matches_sound|]. destruct (parse_dns_a body); by simplify_eq/=.
Qed.

(** The framing of the stream. *)
Lemma dot_read_ok peer n s a b : 0 <= n -> dot_read peer n s = Ok (a, b) -> s = a ++ b /\ zlen a = n.
Proof.
  unfold dot_read. intros Hn. destruct (_ <=? _) eqn:E; [|done]. intros [= <- <-].
  rewrite ztake_zdrop. split; [done|]. rewrite zlen_ztake; lia.
Qed.

Lemma dot_exchange_returns peer id name : bytes_ok (tp_received peer) -> returns (dot_exchange peer id name).
Proof.
  intros Hb. unfold dot_exchange. destruct (tp_fault peer) as [[[] e]|]; [done..|].
  apply returns_bind; [unfold dot_read; by case_match|]. intros [l rest] Hl. apply dot_read_ok in Hl as [Hs Hn]; [|done].
  rewrite Hs in Hb. apply bytes_ok_app in Hb as [Hl Hr].
  destruct (be16_returns l 0) as (v & -> & Hv); [done|lia|lia|]. cbn [map_err obind].
  destruct (_ || _); [done|]. apply returns_bind; [unfold dot_read; by case_match|].
  intros [body rest'] Hb. apply dot_read_ok in Hb as [-> _]; [|lia]. apply bytes_ok_app in Hr as [? _]. by apply judge_returns.
Qed.

Lemma dot_exchange_ok peer id name ip :
  bytes_ok (tp_received peer) -> dot_exchange peer id name = Ok ip ->
  exists msg rest, tp_received peer = to_be 2 (zlen msg) ++ msg ++ rest /\ 0 < zlen msg <= 4096 /\
    answers msg id (split dots name) QTYPE_A /\ parse_dns_a msg = Ok ip.
Proof.
  intros Hb. unfold dot_exchange. destruct (tp_fault peer) as [[[] e]|]; [done..|].
  intros Hx. apply obind_Ok in Hx as ([l rest] & Hl & Hx). apply dot_read_ok in Hl as [Hs Hn]; [|done].
  rewrite Hs in Hb |- *. apply bytes_ok_app in Hb as [Hl Hr].
  destruct (be16_returns l 0) as (v & Hv & Hv'); [done|lia|lia|]. rewrite Hv in Hx. cbn [map_err obind] in Hx.
  destruct (_ || _) eqn:E; [done|]. apply obind_Ok in Hx as ([msg rest'] & Hm & Hx).
  apply dot_read_ok in Hm as [-> Hz]; [|lia]. apply bytes_ok_app in Hr as [? _]. apply judge_ok in Hx as [Ha Hp]; [|done].
  exists msg, rest'. split_and!; [|lia|lia|done|done]. f_equal.
  apply (be16_inv [] l v) in Hv as (r & -> & _); [|done]. rewrite zlen_app, zlen_to_be in Hn.
  destruct r; [|rewrite zlen_cons in Hn; pose proof (zlen_nonneg r); lia]. by rewrite app_nil_r, Hz.
Qed.

Lemma resolve_returns env w name : enc_bytes w -> returns (resolve env w name).
Proof.
  intros [Hp Ht]. unfold resolve, doh_resolve, dot_resolve. destruct (mode env); [done| |].
  - apply returns_bind; [unfold doh_url; by repeat case_match|]. intros url _. destruct (ew_client w); [done|]. simpl.
    destruct (ew_post w url _) as [[status [body|e]]|e] eqn:E; simpl; [|by destruct (is_success status)|done].
    destruct (is_success status); simpl; [|done]. apply judge_returns. by eapply Hp.
  - apply returns_bind.
    { unfold dot_target_addr. apply returns_bind; [by repeat case_match|]. intros [n port] _.
      destruct (parse_ip n); [done|]. destruct (ew_lookup w n port) as [[|]|]; done. }
    intros addr _. destruct (ew_dial w addr); [|done..]. destruct (ew_tls w addr _) eqn:E; try done.
    apply dot_exchange_returns. by eapply Ht.
Qed.

Lemma resolve_ok env w name ip : enc_bytes w -> resolve env w name = Ok ip ->
  exists msg, replied env w name msg /\ answers msg (ew_id w) (split dots name) QTYPE_A /\ parse_dns_a msg = Ok ip.
Proof.
  intros [Hp Ht]. unfold resolve, doh_resolve, dot_resolve, replied. destruct (mode env); [done| |].
  - intros (url & Hu & Hx)%obind_Ok. destruct (ew_client w); [done|]. simpl in Hx.
    destruct (ew_post w url _) as [[status [body|e]]|e] eqn:E; simpl in Hx; [|by destruct (is_success status)|done].
    destruct (is_success status) eqn:Hs; [|done]. simpl in Hx. apply judge_ok in Hx as [Ha Hd]; [|by eapply Hp].
    exists body. split; [|done]. left. split; [done|]. by exists url, status.
  - intros (addr & Haddr & Hx)%obind_Ok. destruct (ew_dial w addr) eqn:Ed; [|done..].
    destruct (ew_tls w addr _) as [peer| | | |] eqn:Et; try done. simpl in Hx.
    apply dot_exchange_ok in Hx as (msg & rest & Hr & Hl & Ha & Hd); [|by eapply Ht].
    exists msg. split; [|done]. right. split; [done|]. by exists addr, peer, rest.
Qed.
End Sound.

(** C28: encrypted DNS answers only with the first address of a reply that came
    whole over the configured channel and that answers the very question that
    was asked, identifier and name; and whatever the channel does, failing at
    any step included, the name is otherwise resolved inside the tunnel as if
    encrypted DNS were off. *)
Theorem encrypted_dns_sound `{Target} `{HttpText} env w name :
  enc_bytes w ->
  (forall ip, resolve env w name = Ok ip ->
     exists msg, replied env w name msg /\ answers msg (ew_id w) (split dots name) QTYPE_A /\ parse_dns_a msg = Ok ip) /\
  (forall p, dns_resolve env w p name =
     match resolve env w name with Ok ip => Some (Ok ip) | _ => plain_resolve env p name end).
Proof.
  intros Hw. split; [intros ip; by apply resolve_ok|]. intros p. unfold dns_resolve.
  pose proof (resolve_returns env w name Hw) as Hr. destruct (bool_decide (mode env = Plain)) eqn:E; simpl.
  - apply bool_decide_eq_true in E. unfold resolve. by rewrite E.
  - by destruct (resolve env w name).
Qed.

(** *** An example: a reply over TLS *)

Definition dot_env : Env := fun k => if bool_decide (k = str "SOILDTUNNEL_DNS_MODE") then Some (str " DoT ") else None.
Definition no_http : HttpText := {| status_text _ := [] |}.
Definition dot_world : EncWorld :=
  mkEnc 4660 None (fun _ _ => inr []) (fun _ _ => inr []) (fun _ => Connected)
    (fun _ _ => TlsUp (fun _ => mkPeer None (to_be 2 (zlen sample_reply) ++ sample_reply) [])).

Lemma encrypted_dns_sound_witness :
  let T := target64 in
  (exists msg, replied dot_env dot_world (str "a.co") msg /\
     answers msg 4660 (split dots (str "a.co")) QTYPE_A /\ @parse_dns_a T msg = Ok (V4 [10; 0; 0; 7])) /\
  forall p, @dns_resolve T no_http dot_env dot_world p (str "a.co") = Some (Ok (V4 [10; 0; 0; 7])).
Proof.
  intros T. destruct (@encrypted_dns_sound T no_http dot_env dot_world (str "a.co")) as [Hok Hdns].
  - split; [done|]. intros addr name peer [= <-] sent. cbn [tp_received].
    change (bytes_ok (to_be 2 (zlen sample_reply) ++ sample_reply)). apply bytes_ok_app. split; [apply bytes_ok_to_be|apply sample_reply_ok].
  - split; [apply Hok; vm_compute; reflexivity|]. intros p. rewrite Hdns. vm_compute. reflexivity.
Defined.

(** ** The endpoint of DNS over TLS *)

Lemma parse_ip_v4 o : length o = 4%nat -> bytes_ok o -> parse_ip (v4_str o) = Some (V4 o).
Proof.
  intros Hl Ho. unfold parse_ip, read_ip. rewrite <- (app_nil_r (v4_str o)). by rewrite read_v4_str.
Qed.

(** An IPv4 endpoint is read as it is written, and presented to the TLS layer
    without its port. *)
Lemma dot_endpoint_v4 w o p : length o = 4%nat -> bytes_ok o -> 0 <= p <= 65535 ->
  dot_target_addr w (v4_str o ++ [58] ++ dec_str p) = Ok (sock_new (V4 o) p).
Proof.
  intros Hl Ho Hp. unfold dot_target_addr. destruct (dec_str_digits p) as (Hn & _ & Hd); [lia|].
  assert (rsplit_once 58 (v4_str o ++ [58] ++ dec_str p) = Some (v4_str o, dec_str p)) as ->.
  { apply rsplit_once_Some. split; [done|]. intros Hin. apply (proj1 (List.Forall_forall _ _) Hd) in Hin. done. }
  unfold all_digits. assert (forallb is_ascii_digit (dec_str p) = true) as ->.
  { apply forallb_forall. intros b Hb. by apply (proj1 (List.Forall_forall _ _) Hd). }
  destruct (is_empty (dec_str p)) eqn:E; [by destruct (dec_str p)|]. simpl.
  unfold parse_u16. rewrite parse_dec_str by lia. cbn [obind]. by rewrite parse_ip_v4.
Qed.

(** An IPv6 endpoint is not: in brackets it is looked up as a name, brackets
    included, and without them its last group is taken for a port. *)
Lemma dot_endpoint_v6_looked_up w :
  let looked_up name port := let! targets := expect (str "dot bootstrap resolve: ") (ew_lookup w name port) in
    match targets with a :: _ => Ok a | [] => Err (str "dot no address for " ++ name) end in
  dot_target_addr w (str "[2606:4700:4700::1111]:853") = looked_up (str "[2606:4700:4700::1111]") 853 /\
  dot_target_addr w (str "2606:4700:4700::1111") = looked_up (str "2606:4700:4700:") 1111.
Proof. split; reflexivity. Qed.
