(* ===== verification/SocksRelay.v ===== *)
(** * Backends, listeners and relays of the proxies

    Models the rest of socks.rs: where a connection or a datagram is handed to
    ([Backend], [TcpUp], [UdpUp] and [resolve]), the accept loop of
    serve_on_backend, and the relay handle_connect runs after its handshake,
    the task that copies upwards and the loop that copies downwards.  The relay
    is a step function; its messages to the network stack are those of
    StackRun.v. *)

From Stdlib Require Import ZArith Lia ZifyBool String List.
From stdpp Require Import base list numbers option decidable gmap.
From S2P Require Import Prelude RustStr NetAddr Errors Channels Socks Netstack StackRun.
Open Scope Z_scope.

(** ** Backends *)

Inductive Backend : Type := BStack | BOut.

(** What is asked of the network stack or of the outbound. *)
Inductive tcp_request : Type := StackTcp (dst : SocketAddr) | OutTcp (host : bytes) (port : Z).
Inductive udp_request : Type := StackUdp (dst : SocketAddr) | OutUdpIp (dst : SocketAddr) | OutUdpName (name : bytes) (port : Z).

(** [dns] is the resolver inside the tunnel. *)
Definition resolve (dns : bytes -> result IpAddr) (t : SocksTarget) : result IpAddr :=
  match t with
  | TIp ip => Ok ip
  | TDomain name => match parse_ip name with Some ip => Ok ip | None => dns name end
  end.

Section Open.
Context {A : Type} (opened : tcp_request -> result A).

Definition open_tcp (b : Backend) (dns : bytes -> result IpAddr) (t : SocksTarget) (port : Z) : result A :=
  match b with
  | BStack => let! ip := resolve dns t in opened (StackTcp (sock_new ip port))
  | BOut => opened (OutTcp (match t with TDomain name => name | TIp ip => ip_str ip end) port)
  end.
Definition open_tcp_addr (b : Backend) (dst : SocketAddr) : result A :=
  match b with
  | BStack => opened (StackTcp dst)
  | BOut => opened (OutTcp (ip_str (sa_ip dst)) (sa_port dst))
  end.
End Open.

(** [send_target], with the names the device's own resolver was asked for;
    [lookup] is that resolver. *)
Definition send_target (b : Backend) (lookup : bytes -> Z -> list SocketAddr + bytes) (t : SocksTarget) (port : Z)
    : list bytes * result udp_request :=
  match b, t with
  | BStack, TIp ip => ([], Ok (StackUdp (sock_new ip port)))
  | BStack, TDomain name =>
      ([name],
       match lookup name port with
       | inl (addr :: _) => Ok (StackUdp addr)
       | inl [] => Err (Other (str "no address for " ++ name))
       | inr e => Err (Other (str "cannot resolve " ++ name ++ str ": " ++ e))
       end)
  | BOut, TIp ip => ([], Ok (OutUdpIp (sock_new ip port)))
  | BOut, TDomain name => ([], Ok (OutUdpName name port))
  end.
Definition send_to (b : Backend) (dst : SocketAddr) : udp_request :=
  match b with BStack => StackUdp dst | BOut => OutUdpIp dst end.

(** A datagram to a name that goes through the network stack is looked up by
    the device, outside the tunnel. *)
Lemma udp_name_asked_outside lookup name port : (send_target BStack lookup (TDomain name) port).1 = [name].
Proof. reflexivity. Qed.
(** The outbound is given names as they are, and nothing is looked up here. *)
Lemma outbound_keeps_names lookup t port : (send_target BOut lookup t port).1 = [].
Proof. by destruct t. Qed.

(** ** The listener *)

Inductive listen_event : Type := Accepted_ | AcceptFailed (e : io_error) | ClientDone.
Record Listener : Type := mkListener { ls_clients : Z; ls_pauses : list Z }.

(** A turn of the loop; [None] when the branch is not ready. *)
Definition listen_turn (ev : listen_event) (l : Listener) : option (Listener + io_error) :=
  match ev with
  | Accepted_ => Some (inl (mkListener (ls_clients l + 1) (ls_pauses l)))
  | AcceptFailed e =>
      match accept_backoff e with
      | Some delay => Some (inl (mkListener (ls_clients l) (ls_pauses l ++ [delay])))
      | None => Some (inr e)
      end
  | ClientDone => if 0 <? ls_clients l then Some (inl (mkListener (ls_clients l - 1) (ls_pauses l))) else None
  end.
Fixpoint serve_on_backend (evs : list listen_event) (l : Listener) : option (Listener * option (result unit)) :=
  match evs with
  | [] => Some (l, None)
  | ev :: evs =>
      match listen_turn ev l with
      | None => None
      | Some (inl l) => serve_on_backend evs l
      | Some (inr e) => Some (l, Some (Err (Io e)))
      end
  end.

(** ** The relay *)

Definition RELAY_BUFFER_BYTES : Z := 65536.

(** Messages of the sending half: data, a close, and the close a [Drop] tries. *)
Inductive up_msg : Type := UpData (data : bytes) | UpClose | UpDrop.

Record Relay : Type := mkRelay {
  rl_reading : bool;          (* the upward task runs *)
  rl_finished : bool;
  rl_out : list up_msg;
  rl_written : bytes;         (* to the client *)
  rl_shutdown : bool;
  rl_read : bytes;            (* from the client, the sniffed head included *)
  rl_got : bytes }.           (* from the backend, the gateway's rest included *)

(** The sender is dropped with the task, or with [handle_connect] itself. *)
Definition stop_up (r : Relay) (msgs : list up_msg) : Relay :=
  mkRelay false (rl_finished r) (rl_out r ++ msgs ++ [UpDrop]) (rl_written r) (rl_shutdown r) (rl_read r) (rl_got r).
(** After the downward loop: [shutdown], then [abort] of the task. *)
Definition finish (r : Relay) : Relay :=
  let r := if rl_reading r then stop_up r [] else r in
  mkRelay false true (rl_out r) (rl_written r) true (rl_read r) (rl_got r).

(** From the answer to the client on; [sent] and [wrote] say whether the first
    send and the first write succeed. *)
Definition relay_start (head leftover : bytes) (sent wrote : bool) : Relay :=
  let r := mkRelay true false [] [] false head leftover in
  let close_both (r : Relay) :=
    mkRelay false true (rl_out r ++ [UpDrop]) (rl_written r) (rl_shutdown r) (rl_read r) (rl_got r) in
  if negb (is_empty head) && negb sent then close_both r
  else
    let r := mkRelay true false (if is_empty head then [] else [UpData head]) [] false head leftover in
    if negb (is_empty leftover) && negb wrote then close_both r
    else mkRelay true false (rl_out r) leftover false head leftover.

Inductive relay_event : Type :=
| ClientRead (data : bytes) (sent : bool)
| ClientEof
| ClientError
| BackendChunk (data : bytes) (wrote : bool)
| BackendEnd.

Definition relay_turn (ev : relay_event) (r : Relay) : option Relay :=
  if rl_finished r then None
  else match ev with
  | ClientRead data sent =>
      if negb (rl_reading r) || is_empty data || (RELAY_BUFFER_BYTES <? zlen data) then None
      else
        let r := mkRelay true false (rl_out r) (rl_written r) (rl_shutdown r) (rl_read r ++ data) (rl_got r) in
        Some (if sent then mkRelay true false (rl_out r ++ [UpData data]) (rl_written r) (rl_shutdown r) (rl_read r) (rl_got r)
              else stop_up r [])
  | ClientEof | ClientError => if rl_reading r then Some (stop_up r [UpClose]) else None
  | BackendChunk data wrote =>
      let r := mkRelay (rl_reading r) false (rl_out r) (rl_written r) (rl_shutdown r) (rl_read r) (rl_got r ++ data) in
      Some (if wrote then
              mkRelay (rl_reading r) false (rl_out r) (rl_written r ++ data) (rl_shutdown r) (rl_read r) (rl_got r)
            else finish r)
  | BackendEnd => Some (finish r)
  end.

Fixpoint relay_run (evs : list relay_event) (r : Relay) : option Relay :=
  match evs with [] => Some r | ev :: evs => let? r := relay_turn ev r in relay_run evs r end.

(** What the messages of a connection are for the network stack. *)
Definition stack_msg (id : Z) (m : up_msg) : DataIn := match m with UpData d => DTcp id d | UpClose | UpDrop => DTcpClose id end.

(** ** Nothing is lost or repeated *)

Definition upload (out : list up_msg) : bytes := concat (omap (fun m => match m with UpData d => Some d | _ => None end) out).
Definition reads_of (evs : list relay_event) : bytes :=
  concat (omap (fun ev => match ev with ClientRead d _ => Some d | _ => None end) evs).
Definition chunks_of (evs : list relay_event) : bytes :=
  concat (omap (fun ev => match ev with BackendChunk d _ => Some d | _ => None end) evs).

Lemma upload_app l l' : upload (l ++ l') = upload l ++ upload l'.
Proof. unfold upload. by rewrite omap_app, concat_app. Qed.
Lemma upload_stack id out : data_of id (map (stack_msg id) out) = upload out.
Proof.
  induction out as [|m out IH]; [done|]. change (map (stack_msg id) (m :: out)) with ([stack_msg id m] ++ map (stack_msg id) out).
  rewrite data_app, IH. destruct m; try done. simpl. rewrite one_data, Z.eqb_refl. done.
Qed.

(** The upward half, the downward half, and how they end. *)
Record up_inv (r : Relay) : Prop := mkUpInv {
  rv_up : exists lost, rl_read r = upload (rl_out r) ++ lost /\ (rl_reading r = true -> lost = []);
  rv_shape : exists chunks tail, rl_out r = map UpData chunks ++ tail /\
    if rl_reading r then tail = [] else tail = [UpDrop] \/ tail = [UpClose; UpDrop] }.
Record relay_inv (r : Relay) : Prop := mkRelayInv {
  rv_upward : up_inv r;
  rv_down : exists lost, rl_got r = rl_written r ++ lost /\ (rl_finished r = false -> lost = []);
  rv_fin : rl_finished r = true -> rl_reading r = false }.

Lemma up_inv_ext r r' : rl_read r' = rl_read r -> rl_out r' = rl_out r -> rl_reading r' = rl_reading r -> up_inv r -> up_inv r'.
Proof. intros H1 H2 H3 [Hu Hs]. constructor; rewrite ?H1, H2, H3; done. Qed.

Lemma stop_up_inv r msgs : up_inv r -> rl_reading r = true -> msgs = [] \/ msgs = [UpClose] -> up_inv (stop_up r msgs).
Proof.
  intros [(lost & Hu & Hl) (chunks & tail & Ho & Ht)] Hr Hm. rewrite Hr in Ht. subst tail. rewrite app_nil_r in Ho.
  constructor; simpl; [|exists chunks, (msgs ++ [UpDrop]); by destruct Hm as [->| ->]; rewrite Ho; auto].
  exists lost. split; [|done]. rewrite !upload_app, Hu. by destruct Hm as [->| ->]; simpl; rewrite app_nil_r.
Qed.

Lemma finish_up r : up_inv r -> up_inv (finish r).
Proof.
  intros Hi. unfold finish. destruct (rl_reading r) eqn:Hr.
  - by eapply (up_inv_ext (stop_up r [])); [| | |apply stop_up_inv; auto].
  - by eapply (up_inv_ext r).
Qed.

Lemma finish_inv r lost : up_inv r -> rl_got r = rl_written r ++ lost -> relay_inv (finish r).
Proof.
  intros Hu Hd. constructor; [by apply finish_up| |done]. exists lost. unfold finish. by destruct (rl_reading r).
Qed.

Lemma start_inv head leftover sent wrote : relay_inv (relay_start head leftover sent wrote).
Proof.
  unfold relay_start. destruct (negb (is_empty head) && negb sent).
  - constructor; simpl; [constructor; simpl; [by exists head|exists [], [UpDrop]; auto]|by exists leftover|done].
  - assert (head = upload (if is_empty head then [] else [UpData head])) as Hh
      by (destruct head; [done|unfold upload; simpl; by rewrite app_nil_r]).
    assert (exists chunks, (if is_empty head then [] else [UpData head]) = map UpData chunks) as [chunks Hc]
      by (destruct head as [|h t]; [by exists []|by exists [h :: t]]).
    destruct (negb (is_empty leftover) && negb wrote); constructor; try constructor; simpl; try done.
    + exists []. split; [|done]. by rewrite upload_app, <- Hh, !app_nil_r.
    + exists chunks, [UpDrop]. rewrite Hc. auto.
    + by exists leftover.
    + exists []. by rewrite <- Hh, app_nil_r.
    + exists chunks, []. by rewrite Hc, app_nil_r.
    + exists []. by rewrite app_nil_r.
Qed.

(** The client's next bytes are read. *)
Lemma read_inv r data sent w g : up_inv r -> rl_reading r = true ->
  let r' := mkRelay true false (rl_out r) w (rl_shutdown r) (rl_read r ++ data) g in
  up_inv (if sent : bool then mkRelay true false (rl_out r ++ [UpData data]) w (rl_shutdown r) (rl_read r ++ data) g else stop_up r' []).
Proof.
  intros [(lost & Hu & Hl) (chunks & tail & Ho & Ht)] Hr. rewrite Hr in *. rewrite Hl, app_nil_r in Hu by done. subst tail.
  rewrite app_nil_r in Ho. destruct sent; constructor; simpl.
  - exists []. split; [|done]. rewrite upload_app, Hu, app_nil_r. f_equal. unfold upload. simpl. by rewrite app_nil_r.
  - exists (chunks ++ [data]), []. by rewrite Ho, map_app, app_nil_r.
  - exists data. split; [|done]. by rewrite upload_app, Hu, app_nil_r.
  - exists chunks, [UpDrop]. rewrite Ho. auto.
Qed.

Lemma turn_inv ev r r' : relay_inv r -> relay_turn ev r = Some r' -> relay_inv r'.
Proof.
  intros [Hu (lost & Hd & Hl) _]. unfold relay_turn. destruct (rl_finished r) eqn:Hf; [done|].
  specialize (Hl eq_refl). subst lost. rewrite app_nil_r in Hd. destruct ev as [data sent| | |data wrote|].
  - destruct (rl_reading r) eqn:Hr; [|done]. simpl. destruct (_ || _); [done|]. intros [= <-].
    pose proof (read_inv r data sent (rl_written r) (rl_got r) Hu Hr) as Hi.
    constructor; [by destruct sent| |by destruct sent]. exists []. rewrite app_nil_r. by destruct sent.
  - destruct (rl_reading r) eqn:Hr; [|done]. intros [= <-]. constructor; [apply stop_up_inv; auto| |done].
    exists []. by rewrite app_nil_r.
  - destruct (rl_reading r) eqn:Hr; [|done]. intros [= <-]. constructor; [apply stop_up_inv; auto| |done].
    exists []. by rewrite app_nil_r.
  - intros [= <-]. destruct wrote.
    + constructor; [by eapply (up_inv_ext r)| |done]. exists []. simpl. by rewrite Hd, app_nil_r.
    + eapply finish_inv; [by eapply (up_inv_ext r)|]. simpl. by rewrite Hd.
  - intros [= <-]. eapply finish_inv; [done|]. by rewrite app_nil_r.
Qed.

Lemma turn_ghost ev r r' : relay_turn ev r = Some r' ->
  rl_read r' = rl_read r ++ reads_of [ev] /\ rl_got r' = rl_got r ++ chunks_of [ev].
Proof.
  unfold relay_turn. destruct (rl_finished r); [done|].
  assert (forall r, rl_read (finish r) = rl_read r /\ rl_got (finish r) = rl_got r) as Hfin
    by (intros x; unfold finish; by destruct (rl_reading x)).
  destruct ev as [data sent| | |data wrote|]; unfold reads_of, chunks_of; simpl; rewrite ?app_nil_r.
  - destruct (_ || _); [done|]. intros [= <-]. by destruct sent.
  - destruct (rl_reading r); [|done]. by intros [= <-].
  - destruct (rl_reading r); [|done]. by intros [= <-].
  - intros [= <-]. destruct wrote; [done|]. by split; rewrite ?(proj1 (Hfin _)), ?(proj2 (Hfin _)).
  - intros [= <-]. apply Hfin.
Qed.

Lemma run_ghost evs : forall r r', relay_inv r -> relay_run evs r = Some r' ->
  relay_inv r' /\ rl_read r' = rl_read r ++ reads_of evs /\ rl_got r' = rl_got r ++ chunks_of evs.
Proof.
  induction evs as [|ev evs IH]; intros r r' Hi; simpl.
  - intros [= <-]. unfold reads_of, chunks_of. by rewrite !app_nil_r.
  - destruct (relay_turn ev r) as [r1|] eqn:E; [|done]. simpl. intros Hr.
    destruct (IH r1 r' (turn_inv _ _ _ Hi E) Hr) as (Hi' & Hrd & Hg). destruct (turn_ghost _ _ _ E) as [H1 H2].
    split; [done|]. rewrite Hrd, Hg, H1, H2, <- !app_assoc. unfold reads_of, chunks_of.
    change (ev :: evs) with ([ev] ++ evs). by rewrite !omap_app, !concat_app.
Qed.

Lemma start_ghost head leftover sent wrote :
  rl_read (relay_start head leftover sent wrote) = head /\ rl_got (relay_start head leftover sent wrote) = leftover.
Proof. unfold relay_start. by repeat case_match. Qed.

(** C11: a proxied connection neither repeats nor reorders bytes.  Whatever
    order the two halves of the relay move in: the bytes read from the client,
    the sniffed first ones included, are those handed to the backend, followed
    by some that are dropped only once the client is no longer read; while the
    connection is open in the network stack, what was handed to it is, in
    order, what its socket took, what is pending, what is deferred and what is
    queued.  No data follows a close, and there is exactly one close by [Drop].
    In the other direction the claim begins at the channel from the backend:
    the client was written the chunks taken from the channel, in order, with
    nothing missing before the relay ends; the end of the client's half does
    not end it. *)
Theorem socks_relay_intact `{Target} `{SmoltcpLaws} tcp_buf app_queue head leftover sent wrote evs r :
  relay_run evs (relay_start head leftover sent wrote) = Some r ->
  (exists lost, head ++ reads_of evs = upload (rl_out r) ++ lost /\ (rl_reading r = true -> lost = [])) /\
  (exists chunks tail, rl_out r = map UpData chunks ++ tail /\
     if rl_reading r then tail = [] else tail = [UpDrop] \/ tail = [UpClose; UpDrop]) /\
  (exists lost, leftover ++ chunks_of evs = rl_written r ++ lost /\ (rl_finished r = false -> lost = [])) /\
  (forall ipv4 ipv6 l b id st, runs tcp_buf app_queue ipv4 ipv6 l b -> tcp_conns (lp_stack l) !! id = Some st ->
     data_of id (lp_sent l) = data_of id (map (stack_msg id) (rl_out r)) ->
     exists lost, head ++ reads_of evs =
       sent_of id (lp_log l) ++ pending st ++ data_of id (lp_deferred l) ++ data_of id (ch_queue (lp_data l)) ++ lost /\
       (rl_reading r = true -> lost = [])) /\
  (forall r', relay_turn ClientEof r = Some r' -> rl_finished r' = false).
Proof.
  intros Hr. destruct (run_ghost _ _ _ (start_inv head leftover sent wrote) Hr) as ([[Hu Hs] Hd Hf] & Hrd & Hg).
  destruct (start_ghost head leftover sent wrote) as [E1 E2]. rewrite E1 in Hrd. rewrite E2 in Hg. rewrite <- Hrd, <- Hg.
  split_and!; [done|done|done| |].
  - intros ipv4 ipv6 l b id st Hi%runs_inv E Hsent. destruct Hu as (lost & Hu & Hl). exists lost. split; [|done].
    rewrite upload_stack, (loop_uplink _ _ l id st Hi E) in Hsent. by rewrite Hu, <- Hsent, <- !app_assoc.
  - intros r'. unfold relay_turn. destruct (rl_finished r) eqn:E; [done|]. destruct (rl_reading r); [|done]. by intros [= <-].
Qed.

(** The listener goes on after every error that passes, and after the two that
    say descriptors or memory ran out with a pause; it holds as many tasks as
    there are clients that have not ended. *)
Definition count_events (p : listen_event -> bool) (evs : list listen_event) : Z := zlen (List.filter p evs).
Definition is_accept (ev : listen_event) : bool := match ev with Accepted_ => true | _ => false end.
Definition is_done (ev : listen_event) : bool := match ev with ClientDone => true | _ => false end.

Lemma listener_survives evs : forall l l' r, serve_on_backend evs l = Some (l', r) -> 0 <= ls_clients l ->
  0 <= ls_clients l' /\
  match r with
  | None => ls_clients l' = ls_clients l + count_events is_accept evs - count_events is_done evs
  | Some x => exists e, AcceptFailed e ∈ evs /\ accept_backoff e = None /\ x = Err (Io e)
  end.
Proof.
  induction evs as [|ev evs IH]; intros l l' r E Hl; simpl in E; [simplify_eq; split; [done|unfold count_events; simpl; unfold zlen; simpl; lia]|].
  destruct (listen_turn ev l) as [[l1|e]|] eqn:Et; [| |done].
  - assert (0 <= ls_clients l1 /\ ls_clients l1 =
      ls_clients l + (if is_accept ev then 1 else 0) - (if is_done ev then 1 else 0)) as [Hl1 Hc].
    { destruct ev as [|e|]; simpl in Et; [injection Et as <-; simpl; lia| |].
      - destruct (accept_backoff e); [|done]. injection Et as <-. simpl. lia.
      - destruct (0 <? ls_clients l) eqn:E0; [|done]. injection Et as <-. simpl. lia. }
    destruct (IH l1 l' r E Hl1) as [H1 H2]. split; [done|]. destruct r as [x|].
    + destruct H2 as (e & He & ?). exists e. split; [by right|done].
    + rewrite H2, Hc. unfold count_events. simpl. destruct (is_accept ev), (is_done ev); rewrite ?zlen_cons; lia.
  - destruct ev as [|e'|]; simpl in Et; [done| |by destruct (0 <? _)].
    destruct (accept_backoff e') eqn:Eb; [done|]. injection Et as <-. injection E as <- <-.
    split; [done|]. exists e'. split; [by left|done].
Qed.

(** *** An example: a request of two chunks over the demonstration stack *)

Definition demo_relay : option Relay :=
  relay_run [ClientRead [4; 5; 6] true; BackendChunk [9] true; ClientEof] (relay_start [1; 2; 3] [] true true).

Definition two_chunk_moves : list (Loop (H0 := pipe_sockets) -> move (H0 := pipe_sockets)) := [
  quiet_turn (Command (OpenTcp (sock_new (V4 [192; 0; 2; 1]) 80)));
  (fun _ => AppSends (DTcp 1 [1; 2; 3])); (fun _ => AppSends (DTcp 1 [4; 5; 6])); quiet_turn DataReady; quiet_turn Slept].
Definition two_chunk_loop : option (Loop (H0 := pipe_sockets)) :=
  match spawn (H0 := pipe_sockets) 512 (str "172.16.0.2/32") [] (mkChan [] 8 true) with
  | Ok l => exec two_chunk_moves l | _ => None end.

Lemma two_chunk_runs l : two_chunk_loop = Some l ->
  runs (H := target64) (H0 := pipe_sockets) 131072 512 (str "172.16.0.2/32") [] l false.
Proof.
  unfold two_chunk_loop. destruct (spawn _ _ _ _) as [l0| | |] eqn:E; try done. apply exec_runs.
  - repeat constructor; intros l1; try apply same_kinds_refl; done.
  - by eapply runs_spawn.
Qed.

Lemma socks_relay_intact_witness :
  exists l r st, two_chunk_loop = Some l /\ demo_relay = Some r /\ tcp_conns (lp_stack l) !! 1 = Some st /\
    sent_of 1 (lp_log l) = [1; 2; 3; 4] /\ exists lost, [1; 2; 3; 4; 5; 6] = sent_of 1 (lp_log l) ++ pending st ++ lost.
Proof.
  destruct two_chunk_loop as [l|] eqn:El; [|vm_compute in El; discriminate].
  destruct demo_relay as [r|] eqn:Er; [|vm_compute in Er; discriminate].
  destruct (tcp_conns (lp_stack l) !! 1) as [st|] eqn:Es; [|exfalso; vm_compute in El; simplify_eq; vm_compute in Es; discriminate].
  exists l, r, st. split_and!; [done|done|done|vm_compute in El; simplify_eq; reflexivity|].
  destruct (socks_relay_intact (H := target64) (H0 := pipe_sockets) (H1 := pipe_sockets_laws) 131072 512 [1; 2; 3] [] true true
    [ClientRead [4; 5; 6] true; BackendChunk [9] true; ClientEof] r Er) as (_ & _ & _ & Hx & _).
  destruct (Hx _ _ l false 1 st (two_chunk_runs l El) Es) as (lost & Hl & _).
  - vm_compute in El, Er. simplify_eq. reflexivity.
  - by eexists.
Defined.
