(* ===== verification/Api.v ===== *)
(** * The interface of the engine as a library

    Models api.rs: transports, cancellation, team credentials, and what the
    library offers on an identity: open, scan, verify, connect.  The C
    interface over it is Ffi.v. *)

From Stdlib Require Import ZArith Lia ZifyBool String List.
From stdpp Require Import base list numbers option decidable gmap.
From S2P Require Import Prelude RustStr NetAddr Errors WebLib Prober ApiFront ZeroTrust Account Store Provision.
Open Scope Z_scope.

Inductive Transport : Type := ViaMasque | ViaWireGuard.
#[export] Instance Transport_eq_dec : EqDecision Transport.
Proof. solve_decision. Defined.

Definition Transport_parse `{UnicodeTables} (raw : bytes) : Transport :=
  if one_of (to_lowercase (trim raw)) ["wg"; "wireguard"; "warp"]%string then ViaWireGuard else ViaMasque.
Definition assigned_port (t : Transport) : Z := match t with ViaMasque => 443 | ViaWireGuard => 2408 end.
Definition default_ports (t : Transport) : list Z := match t with ViaMasque => MASQUE_PORTS | ViaWireGuard => WG_PORTS end.

(** ** Cancellation *)

(** [guard]: [cancelled] is when it is asked for, if it is, and [work] when the
    work ends and how, if it does.  The choice is [biased]: a cancellation at
    the same moment comes first.  [None]: neither happens. *)
Definition guard {A : Type} (cancelled : option Z) (work : option (Z * result A)) : option (result A) :=
  match cancelled, work with
  | Some c, Some (t, r) => Some (if c <=? t then Err Cancelled else r)
  | Some _, None => Some (Err Cancelled)
  | None, Some (_, r) => Some r
  | None, None => None
  end.

(** ** Teams *)

Record TeamCredentials : Type := mkCreds {
  tc_team : bytes; tc_client_id : option bytes; tc_client_secret : option bytes; tc_token : option bytes;
  tc_email : option bytes }.
Definition credentials_new `{UnicodeTables} (team : bytes) : result TeamCredentials :=
  let! t := ok_or (normalize_team team) (Api (str "'" ++ team ++ str "' is not a usable zero trust team name")) in
  Ok (mkCreds t None None None None).
Definition settings (c : TeamCredentials) : TeamSettings :=
  mkTeam (tc_team c) (tc_client_id c) (tc_client_secret c) (tc_token c) (tc_email c).

Section Teams.
Context `{Base64} `{SerdeJson} `{HttpText}.

Definition team_sign_in (c : TeamCredentials) (now later : Z) (a : Access) (cache : option bytes)
  : result bytes * option bytes := resolve_token cache (settings c) now later a.
Definition team_email_code_request (c : TeamCredentials) (email : bytes) (a : Access) : result EmailSignIn :=
  begin_email_signin (settings c) email (ac_client a) (ac_landing a) (ac_send_code a).
(** [post] answers the callback; [now] is the clock when the token is kept. *)
Definition team_email_code_submit (session : EmailSignIn) (code : bytes) (post : bytes -> bytes -> Reply) (now : Z)
    (cache : option bytes) : result (option bytes) * option bytes :=
  match submit_code session code post with
  | Ok (Token token) =>
      let '(r, cache) := store_token cache token now in (let! _ := r in Ok (Some token), cache)
  | Ok (Rejected _) => (Ok None, cache)
  | Err e => (Err e, cache)
  | Panic => (Panic, cache)
  | OutOfFuel => (OutOfFuel, cache)
  end.
End Teams.

(** ** Identities *)

Record ProvisionRequest : Type := mkRequest {
  rq_model : bytes; rq_locale : bytes; rq_team : option TeamCredentials; rq_masque_cert : bool }.
Definition request_for (t : Transport) : ProvisionRequest :=
  mkRequest DEFAULT_MODEL DEFAULT_LOCALE None (bool_decide (t = ViaMasque)).

Record IdentitySummary : Type := mkSummary {
  sm_device_id : bytes; sm_ipv4 : bytes; sm_ipv6 : bytes; sm_organization : bytes; sm_gateway_proxy : bytes;
  sm_assigned_endpoint : bytes; sm_has_masque_cert : bool; sm_cert_issued_at : Z; sm_cert_usable : bool }.
(** The clock is read twice. *)
Definition summary_of (i : Identity) (now now' : Z) : IdentitySummary :=
  mkSummary (device_id i) (ipv4 i) (ipv6 i) (organization i) (Account.gateway_proxy i) (assigned_endpoint i)
    (has_masque_credentials i now) (cert_issued_at i) (cert_still_usable i now').

Definition identity_path (base : bytes) (t : Transport) (team : option bytes) : bytes :=
  match team with
  | Some team => derive_sibling_path base (str "team-" ++ team)
  | None => match t with
            | ViaMasque => derive_sibling_path base (str "masque")
            | ViaWireGuard => base
            end
  end.

(** What attaching a certificate meets: the service, a new key pair, and the
    clock at each reading. *)
Record AttachWorld : Type := mkAttach {
  at_api : ApiWorld; at_keypair : result MasqueKeyPair; at_now : Z; at_now' : Z; at_enroll_now : Z; at_later : Z }.
Record OpenWorld : Type := mkOpen {
  ow_disk : Disk; ow_refresh : ApiWorld; ow_attach : AttachWorld; ow_fresh : Fresh }.

Section Opening.
Context `{Target} `{UnicodeTables} `{ErrorText} `{SerdeJson} `{Base64} `{HttpText} `{AccountLib} `{Toml PersistedIdentity}.

Definition attach_masque_cert (w : AttachWorld) (i : Identity) : result Identity :=
  if has_masque_credentials i (at_now w) && negb (masque_cert_expiring (cert_issued_at i) (at_now' w)) then Ok i
  else
    let! e := ensure_masque_enrolled (at_api w) i (at_keypair w) (at_enroll_now w) (at_later w) in
    Ok (with_cert i (me_cert_pem e) (me_key_pem e) (me_issued_at e)).

Definition provision_identity (w : OpenWorld) (rq : ProvisionRequest) : Flow Identity :=
  let* identity :=
    match rq_team rq with
    | Some c =>
        let* identity := provision_team (rq_model rq) (rq_locale rq) (settings c) (ow_fresh w) in
        flow_ret (refresh_profile (fr_refresh (ow_fresh w)) identity)
    | None => provision_wg (rq_model rq) (rq_locale rq) (ow_fresh w)
    end in
  flow_ret (if rq_masque_cert rq then attach_masque_cert (ow_attach w) identity else Ok identity).

Definition open_identity (w : OpenWorld) (path : bytes) (rq : ProvisionRequest) : Flow Identity :=
  let* loaded := load_flow (ow_disk w) path in
  match loaded with
  | Some identity =>
      let* identity := flow_ret (if is_some (rq_team rq) then refresh_profile (ow_refresh w) identity else Ok identity) in
      let* identity := flow_ret (if rq_masque_cert rq then attach_masque_cert (ow_attach w) identity else Ok identity) in
      let* _ := save_flow (ow_disk w) path identity in
      flow_ret (Ok identity)
  | None =>
      let* identity := provision_identity w rq in
      let* _ := save_flow (ow_disk w) path identity in
      flow_ret (Ok identity)
  end.
End Opening.

(** ** Scans, verifications, tunnels *)

Record Endpoint : Type := mkEndpoint { ep_ip : IpAddr; ep_port : Z; ep_rtt_ms : Z }.
Record ScanRequest : Type := mkScanRequest {
  sr_transport : Transport; sr_mode : bytes; sr_ip : IpScan; sr_ports : list Z; sr_excluded : gset SocketAddr;
  sr_ech : option bytes; sr_profile : option bytes }.
(** [sr_profile]: the name [with_profile] was given, if it was. *)
Definition scan_for (t : Transport) : ScanRequest :=
  mkScanRequest t (str "balanced") ScanV4 (default_ports t) ∅ None None.

Definition endpoint_of (pr : ProbeResult) : Endpoint :=
  mkEndpoint (pr_ip pr) (pr_port pr) (as_u64 (pr_rtt pr / from_millis 1)).

Section Calls.
Context `{UnicodeTables}.

Definition wg_local_v4 (i : Identity) : result bytes :=
  ok_or (parse_ipv4 (ipv4 i)) (Other (str "identity has an unusable ipv4 " ++ ipv4 i)).

(** [t] is when the scan ends, if it does. *)
Definition scan (i : Identity) (rq : ScanRequest) (cancelled : option Z) (w : World) (start : Z) (turns : Turns) (t : Z)
  : option (result Endpoint) :=
  let ended {A} (r : option (result A)) : option (Z * result A) := option_map (pair t) r in
  match sr_transport rq with
  | ViaMasque =>
      let? r := guard cancelled
        (ended (hunt_best_gateway w (sr_ports rq) (sr_ip rq) (ScanMode_parse (sr_mode rq)) ∅ start turns)) in
      Some (let! best := r in Ok (endpoint_of best))
  | ViaWireGuard =>
      match wg_local_v4 i with
      | Ok _ =>
          let? r := guard cancelled
            (ended (hunt_best_wg_endpoint w (sr_ports rq) (sr_ip rq) (sr_excluded rq) (WgScanMode_parse (sr_mode rq))
                      start turns)) in
          Some (let! best := r in Ok (endpoint_of best))
      | Err e => Some (Err e)
      | Panic => Some Panic
      | OutOfFuel => Some OutOfFuel
      end
  end.

Record TunnelSpec : Type := mkSpec {
  sp_transport : Transport; sp_socks : SocketAddr; sp_http : option SocketAddr; sp_ech : option bytes;
  sp_profile : bytes; sp_keepalive : Z; sp_verify_timeout : Z }.
Definition spec_for (t : Transport) : TunnelSpec :=
  mkSpec t (sock_new (V4 [127; 0; 0; 1]) 1819) None None (str "balanced") 5 (from_secs 10).

(** [masque]: what [quick_verify_masque_peer] gives, and when; [wg]: what
    [wireguard::verify_endpoint] does, of their arguments. *)
Definition verify_endpoint (i : Identity) (peer : SocketAddr) (spec : TunnelSpec) (cancelled : option Z)
    (masque : Identity -> SocketAddr -> option (Z * bool))
    (wg : SocketAddr -> bytes -> bytes -> bytes -> bytes -> bytes -> Z -> Z -> option (Z * result Z))
  : option (result bool) :=
  match sp_transport spec with
  | ViaMasque => guard cancelled (let? '(t, b) := masque i peer in Some (t, Ok b))
  | ViaWireGuard =>
      match wg_local_v4 i with
      | Ok local_ipv4 =>
          let? r := guard cancelled
            (wg peer (wg_private_key i) (wg_peer_public_key i) (client_id i) local_ipv4 (sp_profile spec)
               (sp_verify_timeout spec) (sp_keepalive spec)) in
          Some match r with
               | Ok _ => Ok true
               | Err Cancelled => Err Cancelled
               | Err _ => Ok false
               | Panic => Panic
               | OutOfFuel => OutOfFuel
               end
      | Err e => Some (Err e)
      | Panic => Some Panic
      | OutOfFuel => Some OutOfFuel
      end
  end.

(** [masque] and [wg]: the ends of [run_masque_tunnel] and
    [run_wireguard_tunnel], of their arguments. *)
Definition connect (i : Identity) (peer : SocketAddr) (spec : TunnelSpec) (cancelled : option Z)
    (masque : Identity -> SocketAddr -> option bytes -> SocketAddr -> option (Z * result unit))
    (wg : Identity -> SocketAddr -> bytes -> SocketAddr -> option (Z * result unit)) (env : Env)
  : option (result unit) * Env :=
  let env := match sp_http spec with
             | Some listen => set_var env (str "SOILDTUNNEL_HTTP_PROXY") (sock_str listen)
             | None => remove_var env (str "SOILDTUNNEL_HTTP_PROXY")
             end in
  (guard cancelled match sp_transport spec with
                   | ViaMasque => masque i peer (sp_ech spec) (sp_socks spec)
                   | ViaWireGuard => wg i peer (sp_profile spec) (sp_socks spec)
                   end, env).
End Calls.

(** ** What [open_identity] gives *)

(** The certificate of an identity is the one of a key pair enrolled just now,
    or was within its lifetime when the clock was read. *)
Definition cert_valid (w : AttachWorld) (i : Identity) : Prop :=
  (cert_issued_at i = at_later w /\
   exists k, at_keypair w = Ok k /\ cert_pem i = kp_cert_pem k /\ key_pem i = kp_key_pem k) \/
  (cert_pem i <> [] /\ key_pem i <> [] /\
   exists t, t ∈ [at_now w; at_enroll_now w; at_later w] /\
     cert_issued_at i <= t < cert_issued_at i + MASQUE_CERT_LIFETIME_SECS).
Definition clocks_ok (w : AttachWorld) : Prop := at_now w < 2 ^ 63 /\ at_enroll_now w < 2 ^ 63.

Section Opened.
Context `{Target} `{UnicodeTables} `{ErrorText} `{SerdeJson} `{Base64} `{HttpText} `{AccountLib} `{Toml PersistedIdentity}.

Lemma attach_ok w i j : attach_masque_cert w i = Ok j -> lengths_ok i -> lengths_ok j.
Proof.
  unfold attach_masque_cert. destruct (_ && _); [by intros [= <-]|]. intros (e & _ & [= <-])%obind_Ok. done.
Qed.

Lemma attach_valid w i j : clocks_ok w -> 0 <= cert_issued_at i -> attach_masque_cert w i = Ok j -> cert_valid w j.
Proof.
  intros [Hn He] Hi. unfold attach_masque_cert. destruct (_ && _) eqn:E.
  - intros [= <-]. apply andb_prop in E as [E _]. unfold has_masque_credentials, masque_cert_expiring in E.
    unfold MASQUE_CERT_LIFETIME_SECS, MASQUE_CERT_RENEW_BEFORE_SECS, as_u64 in *.
    destruct (cert_pem i) eqn:Ec; [done|]. destruct (key_pem i) eqn:Ek; [done|]. simpl in E.
    destruct (Z.eqb_spec (cert_issued_at i) 0); [done|]. destruct (Z.ltb_spec (at_now w) (cert_issued_at i)); [done|].
    rewrite Z.mod_small in E by lia.
    right. rewrite Ec, Ek. split_and!; [done..|]. exists (at_now w). split; [left|unfold MASQUE_CERT_LIFETIME_SECS; lia].
  - intros (e & He' & [= <-])%obind_Ok.
    pose proof (ensure_enrolled_spec (at_api w) i (at_keypair w) (at_enroll_now w) (at_later w) Hi He) as Hs.
    rewrite He' in Hs. destruct Hs as [(_ & Hl & k & a & Hkp & Hc & Hk & _)|(_ & Hc & Hk & Ht & Hcn & Hkn & _ & t & Ht' & Hb)].
    + left. simpl. split; [done|]. by exists k.
    + right. simpl. rewrite Hc, Hk, Ht. split_and!; [done..|]. exists t.
      split; [|done]. destruct Ht' as [-> | ->]; [right; left|right; right; left].
Qed.

Lemma provision_identity_ok w rq h i h' :
  length (fr_seed (ow_fresh w)) = 32%nat -> provision_identity w rq h = (Ok i, h') ->
  exists j, lengths_ok j /\ cert_issued_at j = 0 /\
    (if rq_masque_cert rq then attach_masque_cert (ow_attach w) j else Ok j) = Ok i.
Proof.
  intros Hs (j & h1 & Hj & Hi)%flow_bind_Ok. injection Hi as Hi <-. exists j. split; [|split; [|done]].
  - destruct (rq_team rq).
    + apply flow_bind_Ok in Hj as (k & h2 & Hk & Hj). injection Hj as Hj <-.
      apply provision_team_ok in Hk as (Hl & _); [|done]. by apply refresh_profile_ok in Hj as [? _].
    + by apply provision_wg_ok in Hj as (? & _).
  - destruct (rq_team rq).
    + apply flow_bind_Ok in Hj as (k & h2 & Hk & Hj). injection Hj as Hj <-.
      apply provision_team_ok in Hk as (_ & _ & _ & _ & Hc); [|done]. by rewrite (refresh_keeps_cert _ _ _ Hj).
    + by apply provision_wg_ok in Hj as (_ & _ & _ & Hc).
Qed.

Lemma open_identity_ok w path rq h i h' :
  length (fr_seed (ow_fresh w)) = 32%nat -> open_identity w path rq h = (Ok i, h') ->
  (exists j h1, lengths_ok j /\
     (cert_issued_at j = 0 \/ exists k, load_flow (ow_disk w) path h = (Ok (Some k), h1) /\
                                       cert_issued_at j = cert_issued_at k) /\
     (if rq_masque_cert rq then attach_masque_cert (ow_attach w) j else Ok j) = Ok i) /\
  exists h2, save_flow (ow_disk w) path i h2 = (Ok tt, h').
Proof.
  intros Hs (o & h1 & Ho & Hi)%flow_bind_Ok. pose proof (load_flow_ok _ _ _ _ _ Ho) as [_ Hl].
  destruct o as [k|].
  - apply flow_bind_Ok in Hi as (k1 & h2 & Hk1 & Hi). injection Hk1 as Hk1 ->.
    apply flow_bind_Ok in Hi as (k2 & h3 & Hk2 & Hi). injection Hk2 as Hk2 ->.
    apply flow_bind_Ok in Hi as ([] & h4 & Hsave & Hi). injection Hi as -> ->. destruct (Hl k) as [Hlk _]; [done|].
    split; [|by eexists]. exists k1, h3. destruct (is_some (rq_team rq)).
    + split_and!; [by apply refresh_profile_ok in Hk1 as [? _]|right; exists k|done].
      split; [done|]. by rewrite (refresh_keeps_cert _ _ _ Hk1).
    + injection Hk1 as ->. split_and!; [done|right; by exists k1|done].
  - apply flow_bind_Ok in Hi as (j & h2 & Hj & Hi). apply flow_bind_Ok in Hi as ([] & h3 & Hsave & Hi).
    injection Hi as -> ->. split; [|by eexists]. apply provision_identity_ok in Hj as (j & Hlj & Hc & Hj); [|done].
    exists j, h2. auto.
Qed.
End Opened.

(** An identity the library opens can be used: its keys have the lengths
    WireGuard needs, it is what the next start reads from disk, and for MASQUE
    it carries a certificate that was enrolled just now or was within its
    lifetime when it was checked. *)
Theorem opened_identity_usable `{Target} `{UnicodeTables} `{ErrorText} `{SerdeJson} `{Base64} `{HttpText} `{AccountLib}
    `{Toml PersistedIdentity} `{!Base64Laws} `{!TomlLaws PersistedIdentity} w path rq h i h' :
  disk_ok (ow_disk w) -> length (fr_seed (ow_fresh w)) = 32%nat -> clocks_ok (ow_attach w) ->
  (forall k h1, load_flow (ow_disk w) path h = (Ok (Some k), h1) -> 0 <= cert_issued_at k) ->
  open_identity w path rq h = (Ok i, h') ->
  lengths_ok i /\ (identity_ok i -> on_disk (h_fs h') path i) /\
  (rq_masque_cert rq = true -> cert_valid (ow_attach w) i).
Proof.
  intros Hd Hs Hc Hk Ho. apply open_identity_ok in Ho as [(j & h1 & Hl & Hj & Hi) [h2 Hsave]]; [|done].
  split_and!.
  - destruct (rq_masque_cert rq); [by eapply attach_ok|by injection Hi as <-].
  - by apply save_flow_ok in Hsave as [_ ?].
  - intros E. rewrite E in Hi. eapply attach_valid; [done| |done].
    destruct Hj as [-> |(k & Hload & ->)]; [done|by eapply Hk].
Qed.

(** *** An example: an identity on disk with a certificate of five minutes *)

Definition demo_attach (status : Z) : AttachWorld :=
  mkAttach (demo_world status) (Ok (mkKeyPair [1] [2] [3])) 1300 1300 1300 1300.
Definition demo_open (status : Z) : OpenWorld :=
  mkOpen demo_disk (demo_world status) (demo_attach status) (demo_fresh status).

Lemma opened_identity_usable_witness : cert_valid (demo_attach 503) demo_identity.
Proof.
  apply (@opened_identity_usable target64 no_unicode no_error_text demo_json demo_base64 demo_http demo_account_lib
    demo_codec demo_base64_laws (demo_toml_laws _) (demo_open 503) (str "s.toml") (request_for ViaMasque) demo_host
    demo_identity demo_host); [split; simpl; lia|reflexivity|split; vm_compute; reflexivity| |vm_compute; reflexivity
    |reflexivity].
  intros k h1 Hk. vm_compute in Hk. injection Hk as <- _. vm_compute. discriminate.
Defined.

(** ** The files of the library and of the command line *)

(** Without paths of their own in the environment, both keep an identity in the
    same file. *)
Lemma same_identity_files `{UnicodeTables} env base :
  env (str "SOILDTUNNEL_WG_CONFIG") = None -> env (str "SOILDTUNNEL_MASQUE_CONFIG") = None ->
  identity_path base ViaWireGuard (team_scope env) = warp_config_path env base /\
  identity_path base ViaMasque (team_scope env) = masque_config_path env base.
Proof.
  intros Hw Hm. unfold warp_config_path, masque_config_path. rewrite Hw, Hm. by destruct (team_scope env).
Qed.

(** ** What the library does not do *)

(** An identity the service refuses is opened and saved all the same; the
    command line registers a new one then. *)
Definition refusing : ApiWorld :=
  mkApiWorld (fun _ _ => Responded 401 None (inl [])) (fun _ => 0) [sock_new (V4 [141; 101; 113; 1]) 443]
    (fun _ _ _ => Answered false [str "HTTP/1.1 401 Unauthorized" ++ CRLF ++ CRLF]).
Lemma refused_identity_opened :
  let creds := mkCreds (str "acme") None None None None in
  let rq := mkRequest DEFAULT_MODEL DEFAULT_LOCALE (Some creds) false in
  let w := mkOpen demo_disk refusing (demo_attach 503) (demo_fresh 503) in
  (@open_identity target64 no_unicode no_error_text demo_json demo_base64 demo_http demo_account_lib demo_codec
     w (str "s.toml") rq demo_host).1 = Ok (with_refused demo_identity true).
Proof. vm_compute. reflexivity. Qed.

(** A scan for MASQUE gateways does not look at the endpoints to exclude. *)
Lemma masque_scan_ignores_exclusions `{UnicodeTables} i t mode ip ports excluded ech profile cancelled w start turns :
  let rq excluded := mkScanRequest ViaMasque mode ip ports excluded ech profile in
  scan i (rq excluded) cancelled w start turns t = scan i (rq ∅) cancelled w start turns t.
Proof. reflexivity. Qed.
Lemma excluded_gateway_returned :
  let gateway := sock_new (V4 [188; 114; 96; 2]) 443 in
  @scan no_unicode demo_identity (mkScanRequest ViaMasque (str "thorough") ScanV4 [443] {[ gateway ]} None None) None
    Prober.demo_world 0 demo_turns 0 = Some (Ok (mkEndpoint (V4 [188; 114; 96; 2]) 443 20)).
Proof. vm_compute. reflexivity. Qed.
