(* ===== verification/Ffi.v ===== *)
(** * The C interface

    Models ffi.rs: the registries of jobs, identities and sign-in sessions, the
    calls that read and change them, and the tasks behind the jobs, whose end
    is an event of its own.  A registry and a task share a job's cell (its
    cancellation and its state), and the tasks share a session's, so that cells
    outlive the handles.  The work of a task, what [connect] does to the
    environment included, is one step at its end.  A pointer argument is [None] when it is null, and a
    reply is the JSON value whose text the caller receives. *)

From Stdlib Require Import ZArith Lia ZifyBool String List.
From stdpp Require Import base list numbers option decidable gmap.
From S2P Require Import Prelude RustStr NetAddr Errors WebLib Prober ZeroTrust Account Store Provision Api.
Open Scope Z_scope.

(** ** Replies *)

(** [Map::insert]: the value of a key that is there is replaced. *)
Fixpoint insert_field (key : bytes) (v : Json) (fields : list (bytes * Json)) : list (bytes * Json) :=
  match fields with
  | [] => [(key, v)]
  | (k, w) :: fields => if bool_decide (k = key) then (k, v) :: fields else (k, w) :: insert_field key v fields
  end.
Definition obj (fields : list (string * Json)) : Json := JObject (map (fun kv => (str kv.1, kv.2)) fields).

Definition ok_value (v : Json) : Json :=
  match v with
  | JObject fields => JObject (insert_field (str "ok") (JBool true) fields)
  | other => obj [("ok", JBool true); ("result", other)]%string
  end.
Definition error_value (message : bytes) : Json := obj [("ok", JBool false); ("error", JString message)]%string.

(** What [catch_unwind] makes of a reply: also a panic is one. *)
Definition respond (r : outcome bytes Json) : Json :=
  match r with
  | Ok v => ok_value v
  | Err message => error_value message
  | Panic | OutOfFuel => error_value (str "the core panicked")
  end.

(** The text: a null byte in it would cut it short. *)
Class JsonText : Type := { json_print : Json -> bytes }.
Definition null_byte_reply : bytes :=
  str "{" ++ [34] ++ str "ok" ++ [34] ++ str ":false," ++ [34] ++ str "error" ++ [34] ++ str ":" ++ [34]
  ++ str "the reply held a null byte" ++ [34] ++ str "}".
Definition into_c_string (text : bytes) : bytes := if existsb (Z.eqb 0) text then null_byte_reply else text.

(** ** Payloads *)

Record TeamPayload : Type := mkTeamPayload {
  tp_team : bytes; tp_client_id : option bytes; tp_client_secret : option bytes; tp_token : option bytes;
  tp_email : option bytes }.
Record OpenPayload : Type := mkOpenPayload {
  op_path : bytes; op_transport : option bytes; op_model : option bytes; op_locale : option bytes;
  op_team : option TeamPayload }.
Record ScanPayload : Type := mkScanPayload {
  scp_transport : option bytes; scp_mode : option bytes; scp_ip : option bytes; scp_profile : option bytes;
  scp_ports : option (list Z); scp_excluded : option (list bytes); scp_ech : option bool }.
Record TunnelPayload : Type := mkTunnelPayload {
  tup_peer : bytes; tup_transport : option bytes; tup_socks : option bytes; tup_http : option bytes;
  tup_profile : option bytes; tup_keepalive : option Z; tup_ech : option bool }.

(** [serde_json::from_str] at each type: the value, or the text of the error. *)
Class FfiJson : Type := {
  team_payload : bytes -> TeamPayload + bytes;
  open_payload : bytes -> OpenPayload + bytes;
  scan_payload : bytes -> ScanPayload + bytes;
  tunnel_payload : bytes -> TunnelPayload + bytes;
  argument_list : bytes -> list bytes + bytes }.

Definition read_str (raw : option bytes) : outcome bytes bytes :=
  match raw with
  | None => Err (str "a required argument was null")
  | Some s => if utf8_valid s then Ok s else Err (str "an argument was not valid utf-8")
  end.
Definition read_json {A : Type} (parse : bytes -> A + bytes) (raw : option bytes) : outcome bytes A :=
  let! text := read_str raw in
  match parse text with inl a => Ok a | inr e => Err (str "the payload is not usable json: " ++ e) end.

(** ** Jobs and tasks *)

Inductive JobState : Type := Running | Done (reply : Json).
Record Cell : Type := mkCell { c_cancelled : bool; c_state : JobState }.

(** The work a task was given. *)
Inductive Work : Type :=
| OpenWork (path : bytes) (rq : ProvisionRequest)
| ScanWork (i : Identity) (rq : ScanRequest) (want_ech : bool)
| VerifyWork (i : Identity) (peer : SocketAddr) (spec : TunnelSpec)
| TunnelWork (i : Identity) (peer : SocketAddr) (spec : TunnelSpec) (want_ech : bool)
| CoreWork (arguments : list bytes)
| SignInWork (c : TeamCredentials)
| CodeRequestWork (c : TeamCredentials) (email : bytes)
| ResendWork (session : Z)
| SubmitWork (session : Z) (code : bytes).

Record Ffi : Type := mkFfi {
  f_next : Z;
  f_runtime : bool;
  f_jobs : gset Z;
  f_cells : gmap Z Cell;
  f_tasks : gmap Z Work;
  f_identities : gmap Z Identity;
  f_sessions : gset Z;
  f_session_cells : gmap Z EmailSignIn;
  f_host : Host }.
Definition ffi_init (runtime : bool) (h : Host) : Ffi := mkFfi 1 runtime ∅ ∅ ∅ ∅ ∅ ∅ h.

Definition with_jobs (s : Ffi) next jobs cells tasks : Ffi :=
  mkFfi next (f_runtime s) jobs cells tasks (f_identities s) (f_sessions s) (f_session_cells s) (f_host s).
Definition with_identities (s : Ffi) next identities : Ffi :=
  mkFfi next (f_runtime s) (f_jobs s) (f_cells s) (f_tasks s) identities (f_sessions s) (f_session_cells s) (f_host s).
Definition with_sessions (s : Ffi) next sessions cells : Ffi :=
  mkFfi next (f_runtime s) (f_jobs s) (f_cells s) (f_tasks s) (f_identities s) sessions cells (f_host s).
Definition with_host (s : Ffi) (h : Host) : Ffi :=
  mkFfi (f_next s) (f_runtime s) (f_jobs s) (f_cells s) (f_tasks s) (f_identities s) (f_sessions s) (f_session_cells s) h.

(** A call: its reply and the state after. *)
Definition Call (A : Type) : Type := Ffi -> outcome bytes A * Ffi.
Definition call_ret {A : Type} (r : outcome bytes A) : Call A := fun s => (r, s).
Definition call_bind {A B : Type} (m : Call A) (k : A -> Call B) : Call B := fun s =>
  match m s with
  | (Ok a, s) => k a s
  | (Err e, s) => (Err e, s)
  | (Panic, s) => (Panic, s)
  | (OutOfFuel, s) => (OutOfFuel, s)
  end.
Local Notation "'let@' x := m 'in' k" := (call_bind m (fun x => k)) (at level 200, x name, m at level 100, k at level 200).

(** [fetch_add] on a [u64] wraps around. *)
Definition next_id (s : Ffi) : Z * Z := (f_next s, as_u64 (f_next s + 1)).

Definition no_runtime : bytes := str "could not start the async runtime".
Definition spawn_job (w : Work) : Call Json := fun s =>
  if f_runtime s then
    let '(id, next) := next_id s in
    (Ok (obj [("job", JInt id)]%string),
     with_jobs s next ({[ id ]} ∪ f_jobs s) (<[id := mkCell false Running]> (f_cells s)) (<[id := w]> (f_tasks s)))
  else (Err no_runtime, s).

Definition identity_of (id : Z) : Call Identity := fun s =>
  (ok_or (f_identities s !! id) (str "there is no identity " ++ dec_str id), s).
Definition session_of (id : Z) : Call unit := fun s =>
  (if bool_decide (id ∈ f_sessions s) then Ok tt else Err (str "there is no sign-in session " ++ dec_str id), s).
Definition job_of (id : Z) : Call Cell := fun s =>
  (ok_or (if bool_decide (id ∈ f_jobs s) then f_cells s !! id else None) (str "there is no job " ++ dec_str id), s).

(** ** Jobs *)

Definition soildtunnel_version (version : bytes) : Call Json := call_ret (Ok (obj [("version", JString version)]%string)).

Definition soildtunnel_job_poll (id : Z) : Call Json :=
  let@ cell := job_of id in
  call_ret (Ok match c_state cell with
               | Running => obj [("state", JString (str "running"))]%string
               | Done result => obj [("state", JString (str "done")); ("result", result)]%string
               end).

Definition cancel_cell (id : Z) (cells : gmap Z Cell) : gmap Z Cell := alter (fun c => mkCell true (c_state c)) id cells.
Definition soildtunnel_job_cancel (id : Z) : Call Json :=
  let@ _ := job_of id in
  fun s => (Ok (obj [("cancelled", JInt id)]%string),
            with_jobs s (f_next s) (f_jobs s) (cancel_cell id (f_cells s)) (f_tasks s)).

Definition soildtunnel_job_free (id : Z) : Call Json := fun s =>
  if bool_decide (id ∈ f_jobs s) then
    (Ok (obj [("freed", JInt id)]%string),
     with_jobs s (f_next s) (f_jobs s ∖ {[ id ]}) (cancel_cell id (f_cells s)) (f_tasks s))
  else (Ok (obj [("freed", JNull)]%string), s).

(** ** Calls that start a job *)

Section Calls.
Context `{UnicodeTables} `{ErrorText} `{FfiJson}.

Definition describe {A : Type} (r : result A) : outcome bytes A := map_err error_str r.

Definition credentials (p : TeamPayload) : outcome bytes TeamCredentials :=
  let! c := describe (credentials_new (tp_team p)) in
  Ok (mkCreds (tc_team c) (tp_client_id p) (tp_client_secret p) (tp_token p) (tp_email p)).

Definition transport_of (raw : option bytes) : Transport :=
  match raw with Some v => Transport_parse v | None => ViaMasque end.
Definition socket_of (raw label : bytes) : outcome bytes SocketAddr :=
  ok_or (parse_socket_addr (trim raw)) (label ++ str " '" ++ raw ++ str "' is not an address:port").

Definition soildtunnel_identity_open (payload : option bytes) : Call Json :=
  let@ p := call_ret (read_json open_payload payload) in
  let transport := transport_of (op_transport p) in
  let rq := request_for transport in
  let@ team := call_ret (match op_team p with
                         | Some t => let! c := credentials t in Ok (Some c)
                         | None => Ok None
                         end) in
  let rq := mkRequest (default (rq_model rq) (op_model p)) (default (rq_locale rq) (op_locale p)) team
              (rq_masque_cert rq) in
  let path := identity_path (op_path p) transport (option_map tc_team team) in
  spawn_job (OpenWork path rq).

Definition soildtunnel_scan_start (identity : Z) (payload : option bytes) : Call Json :=
  let@ p := call_ret (read_json scan_payload payload) in
  let@ i := identity_of identity in
  let rq := scan_for (transport_of (scp_transport p)) in
  let ports := match scp_ports p with
               | Some ports => if is_empty ports then sr_ports rq else ports
               | None => sr_ports rq
               end in
  let excluded := match scp_excluded p with
                  | Some l => list_to_set (omap (fun raw => parse_socket_addr (trim raw)) l) ∪ sr_excluded rq
                  | None => sr_excluded rq
                  end in
  let rq := mkScanRequest (sr_transport rq) (default (sr_mode rq) (scp_mode p))
              (match scp_ip p with Some ip => IpScan_parse ip | None => sr_ip rq end) ports excluded
              (sr_ech rq) (scp_profile p) in
  spawn_job (ScanWork i rq (default false (scp_ech p))).

Definition tunnel_spec_of (p : TunnelPayload) : outcome bytes TunnelSpec :=
  let spec := spec_for (transport_of (tup_transport p)) in
  let! socks := match tup_socks p with
                | Some a => socket_of a (str "the socks address")
                | None => Ok (sp_socks spec)
                end in
  let! http := match tup_http p with
               | Some a => let! a := socket_of a (str "the http proxy address") in Ok (Some a)
               | None => Ok (sp_http spec)
               end in
  Ok (mkSpec (sp_transport spec) socks http (sp_ech spec) (default (sp_profile spec) (tup_profile p))
        (default (sp_keepalive spec) (tup_keepalive p)) (sp_verify_timeout spec)).

Definition soildtunnel_verify_start (identity : Z) (payload : option bytes) : Call Json :=
  let@ p := call_ret (read_json tunnel_payload payload) in
  let@ i := identity_of identity in
  let@ peer := call_ret (socket_of (tup_peer p) (str "the peer address")) in
  let@ spec := call_ret (tunnel_spec_of p) in
  spawn_job (VerifyWork i peer spec).

Definition soildtunnel_tunnel_start (identity : Z) (payload : option bytes) : Call Json :=
  let@ p := call_ret (read_json tunnel_payload payload) in
  let@ i := identity_of identity in
  let@ peer := call_ret (socket_of (tup_peer p) (str "the peer address")) in
  let@ spec := call_ret (tunnel_spec_of p) in
  spawn_job (TunnelWork i peer spec (default false (tup_ech p))).

Definition soildtunnel_core_start (arguments : option bytes) : Call Json :=
  let@ args := call_ret (match arguments with
                         | None => Ok []
                         | Some _ =>
                             let! text := read_str arguments in
                             if is_empty (trim text) then Ok []
                             else match argument_list text with
                                  | inl l => Ok l
                                  | inr e => Err (str "the argument list is not a json array of strings: " ++ e)
                                  end
                         end) in
  spawn_job (CoreWork args).

Definition soildtunnel_team_sign_in (payload : option bytes) : Call Json :=
  let@ p := call_ret (read_json team_payload payload) in
  let@ c := call_ret (credentials p) in
  spawn_job (SignInWork c).

Definition soildtunnel_team_code_request (payload : option bytes) : Call Json :=
  let@ p := call_ret (read_json team_payload payload) in
  let@ email := call_ret (ok_or (tp_email p) (str "an email address is needed to request a login code")) in
  let@ c := call_ret (credentials p) in
  spawn_job (CodeRequestWork c email).

Definition soildtunnel_team_code_resend (session : Z) : Call Json :=
  let@ _ := session_of session in spawn_job (ResendWork session).

Definition soildtunnel_team_code_submit (session : Z) (code : option bytes) : Call Json :=
  let@ code := call_ret (read_str code) in
  let@ _ := session_of session in
  spawn_job (SubmitWork session code).
End Calls.

(** ** Calls that answer at once *)

Definition summary_json (m : IdentitySummary) : Json :=
  obj [("device_id", JString (sm_device_id m)); ("ipv4", JString (sm_ipv4 m)); ("ipv6", JString (sm_ipv6 m));
       ("organization", JString (sm_organization m)); ("gateway_proxy", JString (sm_gateway_proxy m));
       ("assigned_endpoint", JString (sm_assigned_endpoint m)); ("has_masque_cert", JBool (sm_has_masque_cert m));
       ("cert_issued_at", JInt (sm_cert_issued_at m)); ("cert_usable", JBool (sm_cert_usable m))]%string.

Definition soildtunnel_identity_summary (id now now' : Z) : Call Json :=
  let@ i := identity_of id in
  call_ret (Ok (obj [("summary", summary_json (summary_of i now now'))]%string)).
Definition soildtunnel_identity_free (id : Z) : Call Json := fun s =>
  (Ok (obj [("freed", JInt id)]%string), with_identities s (f_next s) (delete id (f_identities s))).
Definition soildtunnel_team_session_free (id : Z) : Call Json := fun s =>
  (Ok (obj [("freed", JInt id)]%string),
   with_sessions s (f_next s) (f_sessions s ∖ {[ id ]}) (f_session_cells s)).

Section Tokens.
Context `{ErrorText} `{Base64} `{SerdeJson}.
Definition soildtunnel_team_token_set (token : option bytes) (now : Z) : Call Json :=
  let@ token := call_ret (read_str token) in
  fun s =>
    if f_runtime s then
      let '(r, cache) := store_token (h_token (f_host s)) token now in
      (let! _ := describe r in Ok (obj [("stored", JBool true)]%string), with_host s (set_token (f_host s) cache))
    else (Err no_runtime, s).
Definition soildtunnel_team_token_clear : Call Json := fun s =>
  if f_runtime s then
    (Ok (obj [("cleared", JBool true)]%string), with_host s (set_token (f_host s) (clear_token (h_token (f_host s)))))
  else (Err no_runtime, s).
End Tokens.

(** ** The end of a task *)

(** What the work of a task meets.  [ee_saw]: whether a cancellation that was
    asked for came before the end of the work.  [ee_core]: the outcome of the
    command line's flow, if it ends, and the process it leaves at that point. *)
Record EndWorld : Type := mkEnd {
  ee_saw : bool;
  ee_open : OpenWorld; ee_now : Z; ee_now' : Z;
  ee_world : World; ee_start : Z; ee_turns : Turns; ee_ech : option bytes;
  ee_masque : Identity -> SocketAddr -> option bool;
  ee_wg : SocketAddr -> bytes -> bytes -> bytes -> bytes -> bytes -> Z -> Z -> option (result Z);
  ee_masque_tunnel : Identity -> SocketAddr -> option bytes -> SocketAddr -> option (result unit);
  ee_wg_tunnel : Identity -> SocketAddr -> bytes -> SocketAddr -> option (result unit);
  ee_core : option (result unit) * Host;
  ee_access : Access; ee_resend : Reply; ee_callback : bytes -> bytes -> Reply }.

Definition state_reply (state : string) : Json := obj [("state", JString (str state))]%string.
Definition endpoint_json (e : Endpoint) : Json :=
  obj [("ip", JString (ip_str (ep_ip e))); ("port", JInt (ep_port e)); ("rtt_ms", JInt (ep_rtt_ms e))]%string.

Section Tasks.
Context `{Target} `{UnicodeTables} `{ErrorText} `{SerdeJson} `{Base64} `{HttpText} `{AccountLib} `{Toml PersistedIdentity}.

Definition keep_identity (i : Identity) (now now' : Z) (s : Ffi) : list (string * Json) * Ffi :=
  let '(id, next) := next_id s in
  ([("identity", JInt id); ("summary", summary_json (summary_of i now now'))]%string,
   with_identities s next (<[id := i]> (f_identities s))).

(** A computation of the engine on the state of the process. *)
Definition on_host {A : Type} (m : Flow A) (s : Ffi) : outcome bytes A * Ffi :=
  let '(r, h) := m (f_host s) in (describe r, with_host s h).

Definition timed {A : Type} (r : option A) : option (Z * A) := option_map (pair 0) r.

(** The reply of the work; [None]: it does not end.  [cancelled] is when the
    cancellation came, for the works that look at it. *)
Definition run_work (w : Work) (cancelled : option Z) (e : EndWorld) : Ffi -> option (outcome bytes Json * Ffi) := fun s =>
  match w with
  | OpenWork path rq =>
      let '(r, s) := on_host (open_identity (ee_open e) path rq) s in
      Some match r with
           | Ok i =>
               let '(fields, s) := keep_identity i (ee_now e) (ee_now' e) s in
               (Ok (obj (fields ++ [("path", JString path); ("lastconn_path", JString (lastconn_path path))]%string)), s)
           | Err m => (Err m, s)
           | Panic => (Panic, s)
           | OutOfFuel => (OutOfFuel, s)
           end
  | ScanWork i rq want_ech =>
      let rq := if want_ech then mkScanRequest (sr_transport rq) (sr_mode rq) (sr_ip rq) (sr_ports rq) (sr_excluded rq)
                                   (ee_ech e) (sr_profile rq) else rq in
      let? r := scan i rq cancelled (ee_world e) (ee_start e) (ee_turns e) 0 in
      Some (let! ep := describe r in Ok (obj [("endpoint", endpoint_json ep)]%string), s)
  | VerifyWork i peer spec =>
      let? r := verify_endpoint i peer spec cancelled (fun i peer => timed (ee_masque e i peer))
        (fun peer key peer_key client local profile timeout keepalive =>
           timed (ee_wg e peer key peer_key client local profile timeout keepalive)) in
      Some (let! b := describe r in Ok (obj [("reachable", JBool b)]%string), s)
  | TunnelWork i peer spec want_ech =>
      let spec := if want_ech && bool_decide (sp_transport spec = ViaMasque)
                  then mkSpec (sp_transport spec) (sp_socks spec) (sp_http spec) (ee_ech e) (sp_profile spec)
                         (sp_keepalive spec) (sp_verify_timeout spec) else spec in
      let '(r, env) := connect i peer spec cancelled
        (fun i peer ech socks => timed (ee_masque_tunnel e i peer ech socks))
        (fun i peer profile socks => timed (ee_wg_tunnel e i peer profile socks)) (h_env (f_host s)) in
      let? r := r in
      Some (match r with
            | Ok _ => Ok (state_reply "closed")
            | Err Cancelled => Ok (state_reply "stopped")
            | r => let! _ := describe r in Ok JNull
            end, with_host s (set_env (f_host s) env))
  | CoreWork arguments =>
      let '(r, h) := ee_core e in
      match cancelled, r with
      | Some _, _ => Some (Ok (state_reply "stopped"), with_host s h)
      | None, Some r => Some (let! _ := describe r in Ok (state_reply "closed"), with_host s h)
      | None, None => None
      end
  | SignInWork c =>
      let '(r, cache) := team_sign_in c (ee_now e) (ee_now' e) (ee_access e) (h_token (f_host s)) in
      Some (let! token := describe r in Ok (obj [("token", JString token)]%string),
            with_host s (set_token (f_host s) cache))
  | CodeRequestWork c email =>
      Some match describe (team_email_code_request c email (ee_access e)) with
           | Ok session =>
               let '(id, next) := next_id s in
               (Ok (obj [("session", JInt id); ("email", JString (es_email session))]%string),
                with_sessions s next ({[ id ]} ∪ f_sessions s) (<[id := session]> (f_session_cells s)))
           | Err m => (Err m, s)
           | Panic => (Panic, s)
           | OutOfFuel => (OutOfFuel, s)
           end
  | ResendWork id =>
      let? session := f_session_cells s !! id in
      Some match describe (resend_code session (ee_resend e)) with
           | Ok session => (Ok (obj [("sent", JBool true)]%string),
                            with_sessions s (f_next s) (f_sessions s) (<[id := session]> (f_session_cells s)))
           | Err m => (Err m, s)
           | Panic => (Panic, s)
           | OutOfFuel => (OutOfFuel, s)
           end
  | SubmitWork id code =>
      let? session := f_session_cells s !! id in
      let '(r, cache) := team_email_code_submit session code (ee_callback e) (ee_now e) (h_token (f_host s)) in
      Some (let! token := describe r in
            Ok match token with
               | Some token => obj [("signed_in", JBool true); ("token", JString token)]%string
               | None => obj [("signed_in", JBool false)]%string
               end, with_host s (set_token (f_host s) cache))
  end.

(** The task of job [id] ends: its reply, a panic included, goes to its cell. *)
Definition task_end (id : Z) (e : EndWorld) (s : Ffi) : Ffi :=
  match f_tasks s !! id, f_cells s !! id with
  | Some w, Some cell =>
      match run_work w (if c_cancelled cell && ee_saw e then Some 0 else None) e s with
      | Some (r, s) =>
          with_jobs s (f_next s) (f_jobs s) (alter (fun c => mkCell (c_cancelled c) (Done (respond r))) id (f_cells s))
            (delete id (f_tasks s))
      | None => s
      end
  | _, _ => s
  end.

(** ** Sequences of calls and ends of tasks *)

Inductive ffi_event : Type :=
| Version (version : bytes)
| JobPoll (id : Z) | JobCancel (id : Z) | JobFree (id : Z)
| IdentityOpen (payload : option bytes)
| IdentitySummaryOf (id now now' : Z) | IdentityFree (id : Z)
| ScanStart (identity : Z) (payload : option bytes)
| VerifyStart (identity : Z) (payload : option bytes)
| TunnelStart (identity : Z) (payload : option bytes)
| CoreStart (arguments : option bytes)
| TeamSignIn (payload : option bytes)
| TeamCodeRequest (payload : option bytes)
| TeamCodeResend (session : Z)
| TeamCodeSubmit (session : Z) (code : option bytes)
| TeamSessionFree (id : Z)
| TeamTokenSet (token : option bytes) (now : Z) | TeamTokenClear
| TaskEnd (id : Z) (e : EndWorld).

Context `{FfiJson}.

(** The call behind an event; the end of a task is none. *)
Definition call_of (ev : ffi_event) : option (Call Json) :=
  match ev with
  | Version v => Some (soildtunnel_version v)
  | JobPoll id => Some (soildtunnel_job_poll id)
  | JobCancel id => Some (soildtunnel_job_cancel id)
  | JobFree id => Some (soildtunnel_job_free id)
  | IdentityOpen p => Some (soildtunnel_identity_open p)
  | IdentitySummaryOf id now now' => Some (soildtunnel_identity_summary id now now')
  | IdentityFree id => Some (soildtunnel_identity_free id)
  | ScanStart i p => Some (soildtunnel_scan_start i p)
  | VerifyStart i p => Some (soildtunnel_verify_start i p)
  | TunnelStart i p => Some (soildtunnel_tunnel_start i p)
  | CoreStart a => Some (soildtunnel_core_start a)
  | TeamSignIn p => Some (soildtunnel_team_sign_in p)
  | TeamCodeRequest p => Some (soildtunnel_team_code_request p)
  | TeamCodeResend id => Some (soildtunnel_team_code_resend id)
  | TeamCodeSubmit id code => Some (soildtunnel_team_code_submit id code)
  | TeamSessionFree id => Some (soildtunnel_team_session_free id)
  | TeamTokenSet t now => Some (soildtunnel_team_token_set t now)
  | TeamTokenClear => Some soildtunnel_team_token_clear
  | TaskEnd _ _ => None
  end.

Definition ffi_step (s : Ffi) (ev : ffi_event) : option Json * Ffi :=
  match call_of ev with
  | Some c => let '(r, s) := c s in (Some (respond r), s)
  | None => (None, match ev with TaskEnd id e => task_end id e s | _ => s end)
  end.
Definition ffi_run (s : Ffi) (evs : list ffi_event) : Ffi := foldl (fun s ev => (ffi_step s ev).2) s evs.
End Tasks.

(** ** Handles *)

(** Numbers are drawn once: a job, an identity and a session never share one,
    and none is drawn before its number is below the next.  A job whose state
    is [Running] has its task, so that a caller never waits for nothing. *)
Record ffi_inv (s : Ffi) : Prop := mkFfiInv {
  fi_next : 1 <= f_next s;
  fi_jobs : forall id, id ∈ f_jobs s -> is_Some (f_cells s !! id);
  fi_tasks : forall id, is_Some (f_tasks s !! id) <-> exists c, f_cells s !! id = Some (mkCell c Running);
  fi_cells : forall id, is_Some (f_cells s !! id) -> 1 <= id < f_next s;
  fi_identities : forall id, is_Some (f_identities s !! id) ->
    1 <= id < f_next s /\ f_cells s !! id = None /\ f_session_cells s !! id = None;
  fi_sessions : forall id, id ∈ f_sessions s -> is_Some (f_session_cells s !! id);
  fi_session_cells : forall id, is_Some (f_session_cells s !! id) -> 1 <= id < f_next s /\ f_cells s !! id = None }.

(** What a handle that was given out can still mean later: the same object or
    none; a cancellation is not taken back, and a reply does not change. *)
Record ffi_le (s s' : Ffi) : Prop := mkFfiLe {
  fl_next : f_next s <= f_next s';
  fl_jobs : forall id, id < f_next s -> id ∈ f_jobs s' -> id ∈ f_jobs s;
  fl_identities : forall id i, id < f_next s -> f_identities s' !! id = Some i -> f_identities s !! id = Some i;
  fl_sessions : forall id, id < f_next s -> id ∈ f_sessions s' -> id ∈ f_sessions s;
  fl_cells : forall id c, f_cells s !! id = Some c -> exists c', f_cells s' !! id = Some c' /\
    (c_cancelled c = true -> c_cancelled c' = true) /\ (forall r, c_state c = Done r -> c_state c' = Done r) }.

#[export] Instance ffi_le_preorder : PreOrder ffi_le.
Proof.
  split.
  - intros s. split; [done|done|done|done|]. intros id c Hc. by exists c.
  - intros s1 s2 s3 [n12 j12 i12 e12 c12] [n23 j23 i23 e23 c23]. split.
    + lia.
    + intros id Hid Hj. apply j12, j23; [done|lia|done].
    + intros id i Hid Hi. apply i12, i23; [done|lia|done].
    + intros id Hid He. apply e12, e23; [done|lia|done].
    + intros id c Hc. destruct (c12 _ _ Hc) as (c' & Hc' & Hk & Hr). destruct (c23 _ _ Hc') as (c'' & Hc'' & Hk' & Hr').
      exists c''. auto 10.
Qed.

Definition ffi_good (s s' : Ffi) : Prop := ffi_inv s' /\ ffi_le s s' /\ f_next s' <= f_next s + 1.

Lemma ffi_good_refl s : ffi_inv s -> ffi_good s s.
Proof. intros Hi. split; [done|]. split; [reflexivity|lia]. Qed.

(** A step that gives out no number, followed by one that may. *)
Lemma ffi_good_trans s1 s2 s3 :
  f_next s2 = f_next s1 -> ffi_good s1 s2 -> ffi_good s2 s3 -> ffi_good s1 s3.
Proof.
  intros Hn (_ & H12 & _) (Hi & H23 & Hb). split; [done|]. split; [by etransitivity|lia].
Qed.

Lemma as_u64_small n : 0 <= n < 2 ^ 64 -> as_u64 n = n.
Proof. intros. unfold as_u64. by apply Z.mod_small. Qed.

Lemma next_id_plain s : 1 <= f_next s -> f_next s + 1 < 2 ^ 64 -> next_id s = (f_next s, f_next s + 1).
Proof. intros. unfold next_id. by rewrite as_u64_small by lia. Qed.

Definition sound {A : Type} (c : Call A) : Prop :=
  forall s, ffi_inv s -> f_next s + 1 < 2 ^ 64 -> ffi_good s (c s).2.
Definition reads {A : Type} (c : Call A) : Prop := forall s, (c s).2 = s.

Lemma sound_reads {A} (c : Call A) : reads c -> sound c.
Proof. intros Hr s Hi _. rewrite Hr. by apply ffi_good_refl. Qed.
Lemma sound_bind {A B} (m : Call A) (k : A -> Call B) : reads m -> (forall a, sound (k a)) -> sound (call_bind m k).
Proof.
  intros Hm Hk s Hi Hn. unfold call_bind. pose proof (Hm s) as Hs.
  destruct (m s) as [[a| | |] s']; simpl in Hs; subst s'; [by apply Hk|by apply ffi_good_refl..].
Qed.
Lemma call_reads_ret {A} (r : outcome bytes A) : reads (call_ret r).
Proof. done. Qed.
Lemma reads_job id : reads (job_of id).
Proof. done. Qed.
Lemma reads_identity id : reads (identity_of id).
Proof. done. Qed.
Lemma reads_session id : reads (session_of id).
Proof. done. Qed.
Create HintDb ffi.
#[export] Hint Resolve call_reads_ret reads_job reads_identity reads_session sound_bind sound_reads : ffi.

Lemma fresh_cell s : ffi_inv s -> f_cells s !! f_next s = None /\ f_identities s !! f_next s = None /\
  f_session_cells s !! f_next s = None.
Proof.
  intros Hi. split_and!; apply eq_None_not_Some; intros Hs.
  - apply (fi_cells s Hi) in Hs. lia.
  - apply (fi_identities s Hi) in Hs. lia.
  - apply (fi_session_cells s Hi) in Hs. lia.
Qed.

Lemma sound_spawn w : sound (spawn_job w).
Proof.
  intros s Hi Hn. unfold spawn_job. destruct (f_runtime s); [|by apply ffi_good_refl].
  pose proof (fi_next s Hi). rewrite next_id_plain by lia. cbn [snd].
  destruct (fresh_cell s Hi) as (Hc & Hid & Hse). split; [|split; [|simpl; lia]].
  - split; simpl; [lia| | | | |apply Hi|].
    + intros id [->%elem_of_singleton|Hj]%elem_of_union; [rewrite lookup_insert_eq; by eexists|].
      apply (fi_jobs s Hi) in Hj. destruct (decide (id = f_next s)) as [->|]; [rewrite lookup_insert_eq; by eexists|].
      by rewrite lookup_insert_ne.
    + intros id. destruct (decide (id = f_next s)) as [->|Hne].
      * rewrite !lookup_insert_eq. split; [by exists false|by eexists].
      * rewrite !lookup_insert_ne by done. apply Hi.
    + intros id Hs. destruct (decide (id = f_next s)) as [->|]; [lia|]. rewrite lookup_insert_ne in Hs by done.
      apply (fi_cells s Hi) in Hs. lia.
    + intros id Hs. destruct (fi_identities s Hi id Hs) as (? & ? & ?). split_and!; [lia|lia| |done].
      rewrite lookup_insert_ne; [done|lia].
    + intros id Hs. destruct (fi_session_cells s Hi id Hs) as (? & ?). split_and!; [lia|lia|].
      rewrite lookup_insert_ne; [done|lia].
  - split; simpl; [lia| |done|done|].
    + intros id Hlt [->%elem_of_singleton|Hj]%elem_of_union; [lia|done].
    + intros id c Hcell. destruct (decide (id = f_next s)) as [->|]; [congruence|]. exists c.
      by rewrite lookup_insert_ne.
Qed.

(** Cells change only forward. *)
Lemma alter_cells_good s jobs (f : Cell -> Cell) id tasks :
  ffi_inv s -> jobs ⊆ f_jobs s ->
  (forall c, f_cells s !! id = Some c -> (c_cancelled c = true -> c_cancelled (f c) = true) /\
     (forall r, c_state c = Done r -> c_state (f c) = Done r)) ->
  (forall k, is_Some (tasks !! k) <-> exists c, alter f id (f_cells s) !! k = Some (mkCell c Running)) ->
  ffi_good s (with_jobs s (f_next s) jobs (alter f id (f_cells s)) tasks).
Proof.
  intros Hi Hj Hf Ht. split; [|split; [|simpl; lia]].
  - split; simpl; [apply Hi| |done| | |apply Hi|].
    + intros k Hk. apply lookup_alter_is_Some, (fi_jobs s Hi). by apply Hj.
    + intros k Hk. apply (fi_cells s Hi). by apply lookup_alter_is_Some in Hk.
    + intros k Hk. destruct (fi_identities s Hi k Hk) as (? & Hn & ?). split_and!; [lia|lia| |done].
      apply eq_None_not_Some. intros Hs%lookup_alter_is_Some. rewrite Hn in Hs. by destruct Hs.
    + intros k Hk. destruct (fi_session_cells s Hi k Hk) as (? & Hn). split_and!; [lia|lia|].
      apply eq_None_not_Some. intros Hs%lookup_alter_is_Some. rewrite Hn in Hs. by destruct Hs.
  - split; simpl; [lia|by intros k _ Hk; apply Hj|done|done|]. intros k c Hc.
    destruct (decide (k = id)) as [->|Hne].
    + exists (f c). rewrite lookup_alter_eq, Hc. split; [done|by apply Hf].
    + exists c. by rewrite lookup_alter_ne.
Qed.

Lemma cancel_good s jobs id :
  ffi_inv s -> jobs ⊆ f_jobs s -> ffi_good s (with_jobs s (f_next s) jobs (cancel_cell id (f_cells s)) (f_tasks s)).
Proof.
  intros Hi Hj. apply alter_cells_good; [done|done|done|]. intros k. rewrite (fi_tasks s Hi).
  destruct (decide (k = id)) as [->|Hne]; [|by rewrite lookup_alter_ne].
  rewrite lookup_alter_eq. destruct (f_cells s !! id) as [[c st]|]; simpl; [|naive_solver].
  split; intros [c' Hc']; injection Hc' as ? ->; by eexists.
Qed.
Lemma sound_cancel id : sound (soildtunnel_job_cancel id).
Proof. apply sound_bind; [done|]. intros c s Hi _. by apply cancel_good. Qed.
Lemma sound_free id : sound (soildtunnel_job_free id).
Proof.
  intros s Hi _. unfold soildtunnel_job_free. case_bool_decide; [|by apply ffi_good_refl].
  apply cancel_good; [done|]. set_solver.
Qed.

Lemma host_good s h : ffi_inv s -> ffi_good s (with_host s h).
Proof. intros [] . split; [by split|]. split; [|simpl; lia]. split; simpl; try done. intros id c Hc. by exists c. Qed.

Lemma sound_identity_free id : sound (soildtunnel_identity_free id).
Proof.
  intros s Hi _. split; [|split; [|simpl; lia]].
  - split; simpl; try apply Hi. intros k Hk. apply (fi_identities s Hi). by apply lookup_delete_is_Some in Hk as [_ ?].
  - split; simpl; [lia|done| |done|by eauto]. intros k i _ Hk. by apply lookup_delete_Some in Hk as [_ ?].
Qed.
Lemma sound_session_free id : sound (soildtunnel_team_session_free id).
Proof.
  intros s Hi _. split; [|split; [|simpl; lia]].
  - split; simpl; try apply Hi. intros k Hk. apply (fi_sessions s Hi). set_solver.
  - split; simpl; [lia|done|done|set_solver|by eauto].
Qed.

Section Steps.
Context `{Target} `{UnicodeTables} `{ErrorText} `{SerdeJson} `{Base64} `{HttpText} `{AccountLib} `{Toml PersistedIdentity}.
Context `{FfiJson}.

Lemma sound_token_set t now : sound (soildtunnel_team_token_set t now).
Proof.
  apply sound_bind; [done|]. intros token s Hi _. destruct (f_runtime s); [|by apply ffi_good_refl].
  destruct (store_token _ _ _). by apply host_good.
Qed.
Lemma sound_token_clear : sound soildtunnel_team_token_clear.
Proof.
  intros s Hi _. unfold soildtunnel_team_token_clear. destruct (f_runtime s); [by apply host_good|by apply ffi_good_refl].
Qed.

Lemma sound_calls ev c : call_of ev = Some c -> sound c.
Proof.
  destruct ev; intros [= <-];
    try apply sound_cancel; try apply sound_free; try apply sound_identity_free; try apply sound_session_free;
    try apply sound_token_set; try apply sound_token_clear;
    repeat (apply sound_bind; [done|]; intros); try apply sound_spawn; by apply sound_reads.
Qed.

Lemma keep_identity_good i now now' s :
  ffi_inv s -> f_next s + 1 < 2 ^ 64 -> ffi_good s (keep_identity i now now' s).2.
Proof.
  intros Hi Hn. pose proof (fi_next s Hi). unfold keep_identity. rewrite next_id_plain by lia.
  destruct (fresh_cell s Hi) as (Hc & Hid & Hse). split; [|split; [|simpl; lia]].
  - split; simpl; [lia|apply (fi_jobs s Hi)|apply (fi_tasks s Hi)| | |apply (fi_sessions s Hi)|].
    + intros id Hs%(fi_cells s Hi). lia.
    + intros id Hs. destruct (decide (id = f_next s)) as [->|]; [split_and!; [lia|lia|done|done]|].
      rewrite lookup_insert_ne in Hs by done. destruct (fi_identities s Hi id Hs) as (? & ? & ?). split_and!; [lia|lia|done..].
    + intros id Hs. destruct (fi_session_cells s Hi id Hs) as (? & ?). split_and!; [lia|lia|done].
  - split; simpl; [lia|done| |done|by eauto]. intros id j Hlt Hj. rewrite lookup_insert_ne in Hj by lia. done.
Qed.

Lemma new_session_good session s :
  ffi_inv s -> f_next s + 1 < 2 ^ 64 ->
  ffi_good s (with_sessions s (f_next s + 1) ({[ f_next s ]} ∪ f_sessions s)
                (<[f_next s := session]> (f_session_cells s))).
Proof.
  intros Hi Hn. pose proof (fi_next s Hi). destruct (fresh_cell s Hi) as (Hc & Hid & Hse). split; [|split; [|simpl; lia]].
  - split; simpl; [lia|apply (fi_jobs s Hi)|apply (fi_tasks s Hi)| | | |].
    + intros id Hs%(fi_cells s Hi). lia.
    + intros id Hs. destruct (fi_identities s Hi id Hs) as (? & ? & ?). split_and!; [lia|lia|done|].
      rewrite lookup_insert_ne; [done|lia].
    + intros id Hs. destruct (decide (id = f_next s)) as [->|]; [rewrite lookup_insert_eq; by eexists|].
      rewrite lookup_insert_ne by done. apply (fi_sessions s Hi). set_solver.
    + intros id Hs. destruct (decide (id = f_next s)) as [->|]; [split_and!; [lia|lia|done]|].
      rewrite lookup_insert_ne in Hs by done. destruct (fi_session_cells s Hi id Hs) as (? & ?). split_and!; [lia|lia|done].
  - split; simpl; [lia|done|done| |by eauto]. intros id Hlt [->%elem_of_singleton|]%elem_of_union; [lia|done].
Qed.

Lemma session_update_good id session s :
  ffi_inv s -> is_Some (f_session_cells s !! id) ->
  ffi_good s (with_sessions s (f_next s) (f_sessions s) (<[id := session]> (f_session_cells s))).
Proof.
  intros Hi Hs. destruct (fi_session_cells s Hi id Hs) as (Hb & Hn). split; [|split; [|simpl; lia]].
  - split; simpl; [lia|apply (fi_jobs s Hi)|apply (fi_tasks s Hi)|apply (fi_cells s Hi)| | |].
    + intros k Hk. destruct (fi_identities s Hi k Hk) as (? & ? & Hk'). split_and!; [lia|lia|done|].
      destruct (decide (k = id)) as [->|]; [rewrite Hk' in Hs; by destruct Hs|by rewrite lookup_insert_ne].
    + intros k Hk%(fi_sessions s Hi). destruct (decide (k = id)) as [->|]; [rewrite lookup_insert_eq; by eexists|].
      by rewrite lookup_insert_ne.
    + intros k Hk. destruct (decide (k = id)) as [->|]; [done|]. rewrite lookup_insert_ne in Hk by done.
      by apply (fi_session_cells s Hi).
  - split; simpl; [lia|done|done|done|by eauto].
Qed.

(** The work of a task leaves the jobs alone. *)
Definition same_jobs (s s' : Ffi) : Prop :=
  f_jobs s' = f_jobs s /\ f_cells s' = f_cells s /\ f_tasks s' = f_tasks s.

Lemma run_work_same w cancelled e s r s' :
  run_work w cancelled e s = Some (r, s') -> same_jobs s s'.
Proof.
  assert (forall h, same_jobs s (with_host s h)) as Hh by done.
  destruct w as [path rq|i rq ech|i peer spec|i peer spec ech|args|c|c email|id|id code]; simpl.
  - unfold on_host. destruct (open_identity _ _ _ _) as [o h]. destruct (describe o); by intros [= <- <-].
  - by intros (? & _ & [= <- <-])%opt_bind_Some.
  - by intros (? & _ & [= <- <-])%opt_bind_Some.
  - by intros (? & _ & [= <- <-])%opt_bind_Some.
  - destruct (ee_core e) as [[r'|] h], cancelled; try done; by intros [= <- <-].
  - destruct (team_sign_in _ _ _ _ _). by intros [= <- <-].
  - destruct (describe _); by intros [= <- <-].
  - intros (session & _ & Hr)%opt_bind_Some. destruct (describe _); by injection Hr as <- <-.
  - intros (session & _ & Hr)%opt_bind_Some. destruct (team_email_code_submit _ _ _ _ _). by injection Hr as <- <-.
Qed.

Lemma run_work_good w cancelled e s r s' :
  ffi_inv s -> f_next s + 1 < 2 ^ 64 -> run_work w cancelled e s = Some (r, s') -> ffi_good s s'.
Proof.
  intros Hi Hn. pose proof (ffi_good_refl s Hi) as Hrefl. assert (forall h, ffi_good s (with_host s h)) as Hh
    by (intros h; by apply host_good).
  destruct w as [path rq|i rq ech|i peer spec|i peer spec ech|args|c|c email|id|id code]; simpl.
  - unfold on_host. destruct (open_identity _ _ _ _) as [o h]. specialize (Hh h).
    destruct (describe o) as [i| | |]; [|intros [= <- <-]; exact Hh..].
    intros [= <- <-].
    exact (ffi_good_trans s (with_host s h) _ eq_refl Hh (keep_identity_good i (ee_now e) (ee_now' e) (with_host s h) (proj1 Hh) Hn)).
  - intros (r' & _ & [= <- <-])%opt_bind_Some. done.
  - intros (r' & _ & [= <- <-])%opt_bind_Some. done.
  - intros (r' & _ & [= _ <-])%opt_bind_Some. apply Hh.
  - destruct (ee_core e) as [[r'|] h], cancelled; try done; intros [= <- <-]; apply Hh.
  - destruct (team_sign_in _ _ _ _ _) as [r' cache]. intros [= <- <-]. apply Hh.
  - destruct (describe _) as [session| | |]; [|by intros [= <- <-]..]. pose proof (fi_next s Hi).
    rewrite (as_u64_small (f_next s + 1)) by lia. intros [= <- <-]. by apply new_session_good.
  - intros (session & Hs & Hr)%opt_bind_Some. destruct (describe _) as [session'| | |]; [|by injection Hr as <- <-..].
    injection Hr as <- <-. apply session_update_good; [done|by eexists].
  - intros (session & Hs & Hr)%opt_bind_Some. destruct (team_email_code_submit _ _ _ _ _) as [r' cache].
    injection Hr as <- <-. apply Hh.
Qed.

Lemma task_end_good id e s : ffi_inv s -> f_next s + 1 < 2 ^ 64 -> ffi_good s (task_end id e s).
Proof.
  intros Hi Hn. pose proof (ffi_good_refl s Hi) as Hrefl. unfold task_end.
  destruct (f_tasks s !! id) as [w|] eqn:Hw; [|done]. destruct (f_cells s !! id) as [cell|] eqn:Hc; [|done].
  destruct (run_work _ _ _ _) as [[r s1]|] eqn:Hr; [|done].
  destruct (run_work_good _ _ _ _ _ _ Hi Hn Hr) as (Hi1 & Hle & Hb).
  destruct (run_work_same _ _ _ _ _ _ Hr) as (Hj & Hce & Ht).
  assert (c_state cell = Running) as Hrun.
  { destruct (proj1 (fi_tasks s Hi id)) as [b Hb']; [by eexists|]. rewrite Hc in Hb'. by injection Hb' as ->. }
  set (f := fun c => mkCell (c_cancelled c) (Done (respond r))).
  destruct (alter_cells_good s1 (f_jobs s1) f id (delete id (f_tasks s1))) as (Hi2 & Hle2 & Hb2); [done|done| | |].
  - intros c Hc'. rewrite Hce, Hc in Hc'. injection Hc' as <-. split; [done|]. intros r' Hr'. congruence.
  - intros k. destruct (decide (k = id)) as [->|Hne].
    + rewrite lookup_delete_eq, lookup_alter_eq, Hce, Hc. simpl. split; [by intros [? ?]|]. by intros [? ?].
    + rewrite lookup_delete_ne, lookup_alter_ne by done. apply Hi1.
  - split; [done|]. split; [by etransitivity|]. simpl. lia.
Qed.

Lemma step_good ev s : ffi_inv s -> f_next s + 1 < 2 ^ 64 -> ffi_good s (ffi_step s ev).2.
Proof.
  intros Hi Hn. unfold ffi_step. destruct (call_of ev) as [c|] eqn:Hc.
  - pose proof (sound_calls ev c Hc s Hi Hn) as Hg. by destruct (c s).
  - destruct ev; try done. by apply task_end_good.
Qed.

Lemma run_good evs s :
  ffi_inv s -> f_next s + zlen evs < 2 ^ 64 ->
  ffi_inv (ffi_run s evs) /\ ffi_le s (ffi_run s evs) /\ f_next (ffi_run s evs) <= f_next s + zlen evs.
Proof.
  revert s. induction evs as [|ev evs IH]; intros s Hi Hn; [split; [done|]; split; [reflexivity|rewrite zlen_nil; simpl; lia]|].
  rewrite zlen_cons in Hn |- *. pose proof (zlen_nonneg evs).
  destruct (step_good ev s) as (Hi' & Hle & Hb); [done|lia|].
  destruct (IH (ffi_step s ev).2) as (Hi2 & Hle2 & Hb2); [done|lia|]. simpl. split; [done|]. split; [by etransitivity|lia].
Qed.

Lemma ffi_inv_init runtime h : ffi_inv (ffi_init runtime h).
Proof.
  split; simpl; try done; try (intros id Hs; rewrite lookup_empty in Hs; by destruct Hs); try set_solver.
  intros id. rewrite !lookup_empty. split; [by intros [? ?]|]. by intros [? ?].
Qed.
End Steps.

(** ** Replies are well formed *)

(** A reply says whether the call succeeded. *)
Definition is_reply (v : Json) : Prop := exists b, json_get v (str "ok") = Some (JBool b).

Lemma insert_field_found key v fields : json_get (JObject (insert_field key v fields)) key = Some v.
Proof.
  induction fields as [|[k w] fields IH]; simpl.
  - by rewrite bool_decide_eq_true_2.
  - case_bool_decide as Hk; simpl; [by rewrite bool_decide_eq_true_2|]. by rewrite bool_decide_eq_false_2.
Qed.

Lemma respond_reply r : is_reply (respond r).
Proof.
  destruct r as [v|m| |]; simpl; [|by exists false..]. exists true.
  destruct v; try done. apply insert_field_found.
Qed.

Section Replies.
Context `{Target} `{UnicodeTables} `{ErrorText} `{SerdeJson} `{Base64} `{HttpText} `{AccountLib} `{Toml PersistedIdentity}.
Context `{FfiJson}.

(** Every call but the ones below leaves the jobs that are there. *)
Lemma spawn_keeps w s id : id ∈ f_jobs s -> id ∈ f_jobs (spawn_job w s).2.
Proof. intros Hid. unfold spawn_job. destruct (f_runtime s); [|done]. simpl. set_solver. Qed.

Definition keeps {A : Type} (id : Z) (c : Call A) : Prop := forall s, id ∈ f_jobs s -> id ∈ f_jobs (c s).2.
Lemma keeps_bind {A B : Type} id (m : Call A) (k : A -> Call B) :
  keeps id m -> (forall a, keeps id (k a)) -> keeps id (call_bind m k).
Proof. intros Hm Hk s Hs. unfold call_bind. specialize (Hm s Hs). destruct (m s) as [[a|e| |] s1]; try done. by apply Hk. Qed.

Lemma free_keeps id k : id <> k -> keeps id (soildtunnel_job_free k).
Proof. intros Hne s Hs. unfold soildtunnel_job_free. case_bool_decide; simpl; set_solver. Qed.

Lemma calls_keep ev c id : call_of ev = Some c -> ev <> JobFree id -> keeps id c.
Proof.
  intros Hc Hne. destruct ev; try done; injection Hc as <-;
    try (apply free_keeps; congruence);
    repeat (apply keeps_bind; [by intros ? ?|]; intros); try (intros ? ?; by apply spawn_keeps); try by intros ? ?.
  all: intros s Hs; unfold soildtunnel_team_token_set, soildtunnel_team_token_clear;
    destruct (f_runtime s); try done; by destruct (store_token _ _ _).
Qed.

Lemma task_end_keeps k e id s : id ∈ f_jobs s -> id ∈ f_jobs (task_end k e s).
Proof.
  intros Hs. unfold task_end. destruct (f_tasks s !! k), (f_cells s !! k); try done.
  destruct (run_work _ _ _ _) as [[r s1]|] eqn:Hr; [|done]. simpl.
  by rewrite (proj1 (run_work_same _ _ _ _ _ _ Hr)).
Qed.

Lemma step_keeps ev s id : ev <> JobFree id -> id ∈ f_jobs s -> id ∈ f_jobs (ffi_step s ev).2.
Proof.
  intros Hne Hs. unfold ffi_step. destruct (call_of ev) as [c|] eqn:Hc.
  - pose proof (calls_keep _ _ _ Hc Hne s Hs) as Hk. by destruct (c s).
  - destruct ev; try done. by apply task_end_keeps.
Qed.

Lemma run_keeps evs s id : JobFree id ∉ evs -> id ∈ f_jobs s -> id ∈ f_jobs (ffi_run s evs).
Proof.
  revert s. induction evs as [|ev evs IH]; intros s Hne Hs; [done|]. apply not_elem_of_cons in Hne as [Hev Hevs].
  apply IH; [done|]. by apply step_keeps.
Qed.
End Replies.

(** ** The promises of the interface *)

Section Promises.
Context `{Target} `{UnicodeTables} `{ErrorText} `{SerdeJson} `{Base64} `{HttpText} `{AccountLib} `{Toml PersistedIdentity}.
Context `{FfiJson}.

Lemma run_app s evs evs' : ffi_run s (evs ++ evs') = ffi_run (ffi_run s evs) evs'.
Proof. apply foldl_app. Qed.

Lemma reachable_good runtime h evs :
  zlen evs < 2 ^ 64 - 1 -> let s := ffi_run (ffi_init runtime h) evs in ffi_inv s /\ f_next s <= 1 + zlen evs.
Proof.
  intros Hn. destruct (run_good evs (ffi_init runtime h)) as (Hi & _ & Hb); [apply ffi_inv_init|simpl; lia|]. done.
Qed.

(** C13: Handles are sound.  Whatever calls are made and tasks end, in whatever
    order, every job, identity and session has a number of its own, a job that
    is running has a task behind it, and a number given out names later the
    same object or none: a freed handle is never given to something else, a
    cancellation is not taken back, and a reply once given does not change. *)
Theorem ffi_handles_sound runtime h evs evs' :
  zlen evs + zlen evs' < 2 ^ 64 - 1 ->
  let s := ffi_run (ffi_init runtime h) evs in
  ffi_inv s /\ ffi_le s (ffi_run s evs').
Proof.
  intros Hn s. pose proof (zlen_nonneg evs'). destruct (reachable_good runtime h evs) as [Hi Hb]; [lia|]. fold s in Hi, Hb.
  split; [done|]. by destruct (run_good evs' s) as (_ & Hle & _); [|lia|].
Qed.

Lemma poll_reply s id cell :
  id ∈ f_jobs s -> f_cells s !! id = Some cell ->
  (ffi_step s (JobPoll id)).1 =
    Some match c_state cell with
         | Running => ok_value (state_reply "running")
         | Done result => ok_value (obj [("state", JString (str "done")); ("result", result)]%string)
         end.
Proof.
  intros Hj Hc. assert (job_of id s = (Ok cell, s)) as Hjob by (unfold job_of; by rewrite bool_decide_eq_true_2, Hc).
  unfold ffi_step. cbn [call_of]. unfold soildtunnel_job_poll, call_bind. rewrite Hjob. by destruct (c_state cell).
Qed.

Lemma task_end_cell s id w cell e r s1 :
  f_tasks s !! id = Some w -> f_cells s !! id = Some cell ->
  run_work w (if c_cancelled cell && ee_saw e then Some 0 else None) e s = Some (r, s1) ->
  f_cells (task_end id e s) !! id = Some (mkCell (c_cancelled cell) (Done (respond r))).
Proof.
  intros Hw Hc Hr. unfold task_end. rewrite Hw, Hc, Hr. simpl.
  by rewrite lookup_alter_eq, (proj1 (proj2 (run_work_same _ _ _ _ _ _ Hr))), Hc.
Qed.

(** C25: A caller that polls a job gets its result.  While the task of a job runs
    the poll says so; once it has ended, also by a panic or a cancellation,
    every poll gives its reply, which says whether it succeeded, through
    whatever other calls and tasks, until the job is freed. *)
Theorem job_reply_kept runtime h evs id w cell e r s1 evs' :
  let s := ffi_run (ffi_init runtime h) evs in
  zlen evs + zlen evs' + 1 < 2 ^ 64 - 1 ->
  id ∈ f_jobs s -> f_tasks s !! id = Some w -> f_cells s !! id = Some cell ->
  run_work w (if c_cancelled cell && ee_saw e then Some 0 else None) e s = Some (r, s1) ->
  JobFree id ∉ evs' ->
  (ffi_step s (JobPoll id)).1 = Some (ok_value (state_reply "running")) /\
  (ffi_step (ffi_run s (TaskEnd id e :: evs')) (JobPoll id)).1 =
    Some (ok_value (obj [("state", JString (str "done")); ("result", respond r)]%string)) /\
  is_reply (respond r).
Proof.
  intros s Hn Hj Hw Hc Hr Hf. pose proof (zlen_nonneg evs'). destruct (reachable_good runtime h evs) as [Hi Hb]; [lia|].
  fold s in Hi, Hb. split_and!; [| |apply respond_reply].
  - rewrite (poll_reply s id cell Hj Hc). destruct (proj1 (fi_tasks s Hi id)) as [c Hrun]; [by eexists|].
    rewrite Hc in Hrun. by injection Hrun as ->.
  - change (ffi_run s (TaskEnd id e :: evs')) with (ffi_run (task_end id e s) evs').
    destruct (task_end_good id e s Hi) as (Hi' & _ & Hb'); [lia|].
    destruct (run_good evs' (task_end id e s) Hi') as (_ & Hle & _); [lia|].
    destruct (fl_cells _ _ Hle id _ (task_end_cell s id w cell e r s1 Hw Hc Hr)) as (c' & Hc' & _ & Hd).
    rewrite (poll_reply _ id c'); [by rewrite (Hd _ eq_refl)| |done].
    apply run_keeps; [done|]. by apply task_end_keeps.
Qed.
End Promises.

(** ** A run, evaluated *)

(** Payloads of one shape: an identity to open at [s.toml]. *)
Definition demo_payloads : FfiJson :=
  {| team_payload := fun _ => inr []; open_payload := fun _ => inl (mkOpenPayload (str "s.toml") (Some (str "wireguard")) None None None);
     scan_payload := fun _ => inr []; tunnel_payload := fun _ => inr []; argument_list := fun _ => inr [] |}.
Definition demo_access : Access :=
  mkAccess None (inr []) (fun _ => inr []) (fun _ => NoAnswer) false (fun _ _ _ => inr []) (fun _ _ => inr []).
Definition demo_end : EndWorld :=
  mkEnd true (demo_open 503) 1000 1000 Prober.demo_world 0 demo_turns None
    (fun _ _ => None) (fun _ _ _ _ _ _ _ _ => None) (fun _ _ _ _ => None) (fun _ _ _ _ => None) (Some (Ok tt), demo_host) demo_access (inr []) (fun _ _ => inr []).
Definition demo_run : list ffi_event -> Ffi :=
  @ffi_run target64 no_unicode no_error_text demo_json demo_base64 demo_http demo_account_lib demo_codec demo_payloads
    (ffi_init true demo_host).

Lemma ffi_handles_sound_witness :
  ffi_inv (demo_run [CoreStart None; IdentityOpen (Some (str "{}"))]).
Proof.
  apply (@ffi_handles_sound target64 no_unicode no_error_text demo_json demo_base64 demo_http demo_account_lib demo_codec
    demo_payloads true demo_host [CoreStart None; IdentityOpen (Some (str "{}"))]
    [TaskEnd 2 demo_end; JobFree 1; JobPoll 2]). reflexivity.
Defined.

Lemma job_reply_kept_witness : is_reply (respond (Ok (state_reply "stopped"))).
Proof.
  apply (@job_reply_kept target64 no_unicode no_error_text demo_json demo_base64 demo_http demo_account_lib demo_codec
    demo_payloads true demo_host [CoreStart None; JobCancel 1] 1 (CoreWork []) (mkCell true Running) demo_end
    (Ok (state_reply "stopped")) (demo_run [CoreStart None; JobCancel 1]) [JobCancel 1; CoreStart None; JobFree 2]);
    [reflexivity|vm_compute; tauto|reflexivity|reflexivity|reflexivity|].
  repeat (apply not_elem_of_cons; split; [discriminate|]). apply not_elem_of_nil.
Defined.

(** Freeing the job that opens an identity does not keep its task from
    registering one: the task does not look at the cancellation, and no reply
    tells its number. *)
Lemma freed_open_leaks :
  let s := demo_run [IdentityOpen (Some (str "{}")); JobFree 1; TaskEnd 1 demo_end] in
  (elements (f_jobs s), map fst (map_to_list (f_identities s))) = ([], [2]).
Proof. vm_compute. reflexivity. Qed.
